(* ===== verification/_CoqProject ===== *)
-Q . S2P
Prelude.v
Platform.v
Wire.v
Journal.v
Settle.v
Base64.v
GoText.v
Trust.v
TrustProofs.v
RaceGuard.v
Effects.v
DumpDir.v
Replace.v
ReplaceSpec.v
ReplaceRules.v
ReplaceProofs.v
ReplaceRun.v
ReplaceExamples.v
Waits.v
Handover.v
HandoverSpec.v
HandoverRules.v
HandoverProofs.v
HandoverRun.v
HandoverMachine.v
HandoverWaits.v
HandoverExamples.v
Submit.v
SubmitProofs.v
Database.v
Frames.v
DumpRun.v
Restore.v
RestoreSpec.v
RestoreRules.v
RestoreProofs.v
RestoreLoading.v
RestoreStarting.v
RestoreRun.v
RestoreMachine.v
RestoreSafety.v
RestoreWaits.v
RestoreRefusals.v
RestoreExamples.v
Admission.v
AdmissionExamples.v
Float64.v
Rungs.v
Adaptation.v
Fec.v
Abr.v
Ladder.v
LadderProofs.v
LadderExamples.v
Readiness.v
Probe.v
ProbeRun.v
ProbeProofs.v
ProbeInv.v
ProbeSafety.v
ProbeGuarantees.v
ProbeLiveness.v
ProbeDrain.v
ProbeReports.v
Calendar.v
ProbeExamples.v
MountPolicy.v
MountProofs.v
Images.v
ImageCleanup.v
ImageManager.v
ImageInv.v
ImageThreads.v
ImageProcess.v
ImageReach.v
ImageSafety.v
ImageStuck.v
ImageExamples.v
Inventory.v
ImageContext.v
