(* ===== verification/Prelude.v ===== *)
(** * Verification of the Quasar node agent and recovery actor

    Quasar streams desktops and games from GPU hosts. A Go control plane keeps the accounts and
    the library; on every host a Rust node agent ([src/node-agent]) runs the sessions, and a
    recovery actor ([crates/quasar-recovery]) owns the containers the platform itself consists
    of: it replaces the node agent, the control plane and its own successor by newer images, and
    puts the kept container back when the new one does not verify. This library models the
    recovery actor's replacements, restores and admission, and of the node agent the streaming
    adaptation, the host probes with their readiness report, the mount policy and the managed
    images, as Rocq functions translated from the Rust, and proves what they promise.

    Paths below are relative to [src/node-agent]; REC is [crates/quasar-recovery/src].

    ** The recovery actor

    A request reaches [Actor::submit] on a socket, passes the gates of the trust component, is
    refused if foreign containers would race it, and is stored as a journal. A driver then works
    the journal through its phases, storing it before every action. When the process restarts,
    the settle table says per journal what to do. The files:

    - [Platform]: the data exchanged with the container engine (the engine port of
      [crates/quasar-runtime]), roles, canonical names and labels, engine errors and their
      classification (REC/engine/mod.rs, REC/recipe/mod.rs).
    - [Wire]: requests, results and the closed reason vocabulary (REC/socket.rs).
    - [Journal]: the journal of an attempt and its wire projection; the journal directory with
      scan, prune and the used-id record; the text helpers (REC/journal.rs).
    - [Settle]: what a start does with an open attempt, per process; the successor's start count
      (REC/settle.rs, count_successor_start of REC/handover.rs).
    - [Base64], [GoText]: the Go functions release trust must agree with byte by byte
      (REC/trust/golang).
    - [Trust], [TrustProofs]: the trust gates and the signature gate (REC/trust/mod.rs,
      REC/trust/signature.rs). Class [TrustDeps] holds ed25519 and the two JSON decoders.
    - [RaceGuard]: which containers belong to another manager (REC/race_guard.rs).
    - [Effects]: the calls a procedure can make ([eff]), procedures as trees of calls ([prog]),
      their weakest precondition against a monitor ([wp]) and their executions ([trace],
      [reaches]). A property proved of a [prog] holds for every answer of the engine, the file
      system and the clock, and for every call the process may die at.
    - [Replace]: the driver of an attempt, every phase's action, the interruption and the restore
      (REC/replace.rs, the migrating part of REC/migrate.rs, floor and restore point of
      REC/database.rs). [run] is the driver, [turn] one iteration of its loop, [phase_action] the
      dispatch, [settle_journal] and [interrupt] what a restart calls.
    - [ReplaceSpec]: the abstract machine of an attempt ([attempt_step]), and the monitor
      ([watch]) that says when each call may be made ([world_requires]) and what the engine and
      the machine's own files may answer. [ReplaceRules]: one proof rule per construct.
      [ReplaceProofs]: each phase. [ReplaceRun]: the driver. [ReplaceExamples]: an engine in
      memory, runs of the driver on it, and the witnesses.
    - [Handover]: the recovery actor replacing itself (REC/handover.rs, the wait for the lease of
      REC/actor.rs, the start in REC/main.rs). Two processes run the same program, told apart by
      [party_of]; [drive_handover] is the driver, [ho_phase] its dispatch. [link] puts it where a
      replacement calls it; [actor_start] and [actor_drive] are a process's two lives.
      [HandoverSpec]: the abstract machine of a hand-over ([ho_step]) and the monitor ([hwatch])
      of one process; [HandoverRules], [HandoverProofs], [HandoverRun]: the rules, each
      procedure, the driver and a whole process. [HandoverMachine]: any number of such processes
      on one disk and one lease ([machine_step]). [HandoverWaits]: the waits end, and a hand-back
      that does not. [HandoverExamples]: two processes scheduled on an engine in
      memory, and the witnesses. [Waits]: the clock as a monitor, and the rules by which a
      procedure is shown to end.
    - [DumpDir]: the names of dumps, their records and the dumps directory (REC/dump_dir.rs).
      [Database]: the helper containers, dumping and restoring a database, [dump_now]
      (REC/database.rs, REC/migrate.rs). [DumpRun]: what [dump_now] did when it keeps a dump.
    - [Restore]: the operator's restore (REC/restore.rs): its plan, [submit_restore],
      [run_restore] and its phases ([restore_phase]), [check_restore], stopping under the hold,
      [load_into], the start and its verification, and the two ends. [RestoreSpec]: the abstract
      machine of its journal ([rs_step]) and the monitor ([rwatch]) whose history is the
      machine's, not a process's. [Frames], [RestoreRules]: the rules; [RestoreProofs],
      [RestoreLoading], [RestoreStarting], [RestoreRun]: each phase and the
      driver. [RestoreMachine], [RestoreSafety]: process after process on one machine, each
      dying wherever it dies ([rm_step]). [RestoreWaits], [RestoreRefusals]: that it
      ends, that the dump of an update is one it accepts, what it refuses.
      [RestoreExamples]: restores that run in memory, and the witnesses.
    - [Submit]: the rules per kind and caller, the image grammar, and [submit] (REC/submit.rs).
      [SubmitProofs]: the grammars. [Admission]: [submit] against every content the journal
      directory may have, a driver writing to it meanwhile and failed writes that may have
      happened. [AdmissionExamples]: the witnesses.

    What is proved. [ReplaceRun]: an attempt of a service ends with its outcome on disk, or stops
    for an answer after which the next process continues it (termination), its
    stored journals refine the abstract machine, containers are touched only in the phase the
    durable journal says, the kept container survives until its replacement verified, a reported
    restore is true, the database is never migrated below the floor, success means every
    component was replaced. [HandoverMachine]: however many actors run and wherever they die, one
    acts at a time, the journal on disk refines the abstract machine, containers are touched in
    the phase it says, the old actor survives until its successor verified, and what is recorded
    or reported afterwards is true. [HandoverWaits]: the successor's verification reaches a
    verdict, and an engine that refuses the actor's name makes a failed successor spin, in every
    execution.
    [RestoreSafety]: wherever its processes die, the journal of a restore on disk refines the
    abstract machine and is well formed, nothing changes before [stopping], the database is
    replaced only under the hold with both control planes quiet and by the dump that was admitted
    and checked, at the schema recorded for it,
    and no control plane starts on a database not wholly loaded. [RestoreWaits]: it ends, and
    a dump an update takes is planned and, on a machine that is as it was, accepted.
    [RestoreRefusals]: every refusal has a reason, admission excludes every other attempt, and a
    dump taken beside an image without a schema is never restored. [DumpRun], [DumpDir]: a dump
    kept is one that was verified, and pruning keeps the newest. [Admission]: single flight
    while the attempts directory can be listed ([AdmissionExamples]: and not when it cannot), nothing ungraded on disk, commit before drive, and what is answered. [TrustProofs]: exactly which requests, signatures and images
    pass. [SubmitProofs]: the hand-written matchers are the grammars they replace. [Journal],
    [Settle], [RaceGuard], [Base64], [GoText]: pruning, projection, hand-over and the text
    functions.

    ** Streaming adaptation

    Each metrics window of a session is classified; the governor moves the encoder's bitrate
    from the network's estimate, the ladder biases the encoder, drops the resolution or the frame
    rate when bitrate is not enough, and error correction follows the loss. The files:

    - [Float64]: binary64 as the Standard Library specifies it, and Rust's conversions.
    - [Rungs]: the sizes a session may be stepped to (src/session/rungs.rs).
    - [Adaptation]: the classifier (src/session/adaptation.rs).
    - [Fec]: the error-correction controller (src/session/fec.rs).
    - [Abr]: the bitrate governor (src/session/abr.rs).
    - [Ladder]: the bias, both rungs, the planner and the floor that follows the rung
      (src/session/ladder.rs); [ladder_observe], [res_observe], [fps_observe], [planner_observe]
      are the four [observe] methods, [window] the hysteresis the two rungs have in common.
      [LadderProofs] and [LadderExamples]: its promises, its witnesses, and two places where the
      code does not do what its comments say.

    What is proved: the setpoint stays in its band whatever the estimates, and retargets are
    paced; transitions of error correction alternate, are earned and are bounded; steps of the
    ladder stay on it, are one at a time, are paced and settle; the planner moves one lever per
    window, and recovery takes back the latest engagement first; the ladder is closed; the floor
    stays in its band.

    ** Host probes and readiness

    Before a session is placed on a host, the agent probes what it would need: input devices,
    audio, the encoder of every GPU and codec, a container with a GPU. A scheduler decides which
    probe runs when, an orchestrator runs one at a time, and every conclusion becomes a check of
    the readiness report the control plane reads. The files:

    - [Readiness]: the checks, the report and what survives a refresh, the dates it carries
      (src/readiness/report.rs; [ReadinessCheck] and [ReadinessBlocks] of src/messages.rs).
      [Calendar]: the dates against the Gregorian calendar.
    - [Probe]: kinds, codecs and targets (src/host_probe.rs), the scheduler
      (src/host_probe/decision.rs): [step] is [Scheduler::step], [on_event] its match on the
      event, [dispatch] what it starts then.
    - [ProbeRun]: what a probe's end means and the check it becomes (outcome.rs), which probes
      explain a failed launch (launch_failure.rs), and the loop that owns the scheduler
      (orchestrator.rs): [handle] is one message of it, [carry_out] one action, [orch_step] the
      messages it can receive.
    - [ProbeProofs]: what the scheduler's loops change. [ProbeInv]: its invariant. [ProbeSafety],
      [ProbeGuarantees], [ProbeLiveness], [ProbeDrain]: the loop under every order of its
      messages. [ProbeReports]: outcomes and the report. [ProbeExamples]: the witnesses.

    What is proved: one task at a time, nothing started that a launch, a live session or a
    missing reconcile forbids, a launch preempts; a codec counts as proven only by a probe of the
    stack that is running; no probe still wanted is lost, none waits while it could run, and the
    work drains unless removing earlier containers keeps failing for two kinds, which makes the
    loop spin; a conclusion is what the report says until it is replaced, and the merged report
    hides no failure.

    ** Mounts

    [MountPolicy] (src/session/mount_policy.rs): the vetting of the bind mounts an assign
    carries; [check] is [MountPolicy::check] with its guards in order. [MountProofs]: an accepted
    mount names one host path inside an allowed root, as written and as it resolves, outside every
    denied tree and containing no runtime socket, read-only where the root is; vetting is
    idempotent; a denied tree can be had by naming a parent of it that any entry covers.

    ** Images

    The control plane tells a host which images to pull, build and remove. [ImageManager] keeps a
    record and at most one running operation per image, a worker thread for each, and reports over
    a bounded channel that the connection's task empties; exact removals are journalled so that
    none is made twice. The files, of src/images:

    - [Images]: the record and its transitions (state.rs), the pure decisions of mod.rs
      ([decide_ensure] and its like), which requests are well formed (mod.rs, build.rs), the disk
      guard (disk.rs), the throttle (progress.rs), the error texts (errors.rs).
    - [ImageCleanup]: the journal of exact removals (cleanup_journal.rs).
    - [ImageManager]: the manager (mod.rs) as threads that take turns. A thread is the list of what
      it has left to do; [exec] runs its first instruction, which is one critical section, one call
      or one point where the source can block, and says what the thread does next and which
      threads it starts. [exec_command] is the bodies of handle_ensure, handle_build and
      handle_remove with their plans, [exec_worker] run_worker and what it calls, [exec_send] the
      four ways to send, [exec_connection] attaching and reconciling, [exec_cleanup] handle_cleanup
      and run_cleanup. [occur] is what happens from outside (commands of agent.rs and
      diagnostic.rs, the channel drained, connections, heartbeats, restarts); [mgr_step] lets any
      thread go next, with any answer.
    - [ImageInv], [ImageThreads], [ImageProcess], [ImageReach]: the invariant. Locks,
      permits and slots are tokens in the instructions that give them back, counted over all
      threads; [check] says that what a worker has left fits the slot and the record of its image.
    - [ImageSafety], [ImageStuck]: what follows. [ImageExamples]: schedules, the
      witnesses, and one that leaves an old state with the control plane.
    - [Inventory]: the versions the host was told of and the images of the engine they are bound to
      (version_inventory.rs), which an exact removal must match, and its theorems.
    - [ImageContext]: the download and the extraction of a build's context (build.rs), and its
      theorems.

    What is proved, for every schedule, every answer and every restart: one worker per image, whose
    results are never out of date; ready is said only of what the engine answered for; an exact
    removal is asked for once and alone; the caps on operations and pulls; idle records say what
    became of their last operation; what the inventory publishes follows from the last scan, and
    bound versions stay bound; an extraction writes below its directory only, and a successful one
    exactly what was asked for. Two defects: a clean-up's report can block the agent for good
    ([cleanup_report_deadlocks]), and a late message can leave the control plane with an old state
    ([stale_state_told]).

    ** Conventions

    A [w]-bit integer is a [Z] with its saturation or wrap-around written out where the source
    has it ([sat_add]). Times are nanoseconds in [Z]; [duration_since] is saturating. Bytes of
    the Go functions are [Z]s in [0..256), strings elsewhere [String.string] of their UTF-8
    bytes. A [Result] is [result], with [let?] for the [?] operator. A [BTreeSet] or [BTreeMap]
    is a [gset] or [gmap], visited in the order of its keys where the source iterates. The clock's
    answers and the messages a loop receives are arguments of its step; the file system's answers
    are parameters. A path is the list of its components. Log lines are left out, the
    text an outcome or a refusal carries is kept. [f64::powf] and the derived [Debug] texts are
    parameters. Panics: an index the source proves in range reads a dummy value. The fields [m_told],
    [m_seen] and [m_asked] of [Mgr] record history for the theorems; no instruction reads them.

    Fuel. [run] has two: the turns of its loop, and the looks of each wait. Every turn moves a
    component's phase, so the first is bounded by the phases left; every look is a poll of the
    clock, so the second is bounded by the deadline over the poll interval. [attempt_terminates]
    states both bounds and that no execution is cut off. A hand-over has the same two and a third,
    how often an old actor may take the lease back and settle again within one call; the safety
    theorems hold for every value of the three, and [verify_successor_terminates] bounds the looks
    of a verification by its deadline, the longest outage it tolerates and the wait for the agent
    (1500 looks with the actor's limits). The two waits for the lease have no bound in the code:
    they end when the other process lets go of it. A restore has six phases before its outcome,
    so seven turns are enough, and its looks are bounded by the verification's deadline over the
    poll interval ([run_restore_terminates]). [gcd] has the divisor as its fuel, which
    [gcd_spec] shows is enough; the loops of [Base64], [GoText] and [strip_ansi] have the length
    of their input, of which every round consumes some.

    ** Not modelled

    Taking the dump is one call of [eff] in [Replace]; [dump_now] of [Database] is its body, and
    the theorems of [ReplaceRun] do not see the helper containers it runs. Rendering a
    container from machine inputs, the JSON decoders and ed25519 are parameters ([ReplaceDeps],
    [DumpDeps], [TrustDeps]): configuration data and third-party code. Of [pg_dump], [psql] and [pg_restore]
    only what their helper answers is seen. The theorems about a restore across restarts assume
    that rendering gives a control plane its own name, that the actor's container is not named
    as a control plane, and that nobody but the actor releases the hold.
    The sum of [space_needed] is not cut to 64 bits. The agent's ledger of evidence is taken after
    every update that was sent: the lag of that channel is left out. Sockets, HTTP, the
    Docker client, GStreamer, WebRTC and the launch helpers are input and output. The parsing of
    environment and JSON settings of the streaming code is left for later. The programs a host
    probe runs, and the containers it runs them in (src/host_probe/container.rs, media.rs,
    audio.rs, app_gpu.rs, child.rs), are input and output: only how they end is seen. Of the image
    manager the worker that reconciles the version inventory, its batches and its reply lanes
    (run_reconcile_worker) and the register message are left out, a lock poisoned by a panic too;
    what [refresh_version_inventory] sends is an answer, and the inventory is a model of its own,
    of whose guard [ICleanupCheck] sees the verdict. The engine, tar, gzip, HTTP, the clock and the
    file of the records are input. Not modelled and worth having, in this order: that worker, the
    source policy (src/policy.rs), the seed's decision (REC/seed/mod.rs), removal (REC/remove.rs),
    and the signature document's decoder (REC/trust/golang/json.rs).

    This file: the [result] type, machine integers, streaks, and the list, option and string
    lemmas the components share; the hint database [quasar] collects those that close the
    common goals by themselves. *)
From stdpp Require Export base gmap list strings pretty.
From Stdlib Require Export ZArith Lia Ascii Sorted.
From Stdlib Require Import String.

#[global] Set Default Goal Selector "!".

Declare Scope quasar_scope.
Delimit Scope quasar_scope with quasar.
Open Scope quasar_scope.

Create HintDb quasar.

(** ** Rust's [Result] *)

Inductive result (A E : Type) : Type :=
| Ok (a : A)
| Err (e : E).
Arguments Ok {A E} _.
Arguments Err {A E} _.

Definition is_ok {A E} (r : result A E) : bool :=
  match r with Ok _ => true | Err _ => false end.

(** [r.map_err(f)] *)
Definition map_err {A E F} (f : E → F) (r : result A E) : result A F :=
  match r with Ok a => Ok a | Err e => Err (f e) end.

(** [o.ok_or(e)] *)
Definition ok_or {A E} (o : option A) (e : E) : result A E :=
  match o with Some a => Ok a | None => Err e end.

(** The [?] operator. *)
Notation "'let?' x ':=' r 'in' k" :=
  (match r with Ok x => k | Err e => Err e end)
  (at level 10, x pattern, r at level 200, k at level 200,
   format "'let?'  x  ':='  r  'in' '//' k") : quasar_scope.

#[global] Instance result_eq_dec {A E} `{EqDecision A, EqDecision E} :
  EqDecision (result A E).
Proof. solve_decision. Defined.

(** ** Machine integers *)

Definition U8_MAX : Z := 255.
Definition U32_MAX : Z := 2 ^ 32 - 1.
Definition U64_MAX : Z := 2 ^ 64 - 1.
Definition I32_MIN : Z := - 2 ^ 31.
Definition I32_MAX : Z := 2 ^ 31 - 1.
Definition I64_MIN : Z := - 2 ^ 63.
Definition I64_MAX : Z := 2 ^ 63 - 1.

(** [x.saturating_add(y)] at the width whose largest value is [mx]. *)
Definition sat_add (mx x y : Z) : Z := Z.min mx (x + y).

(** [x.clamp(lo, hi)]; Rust panics when [lo > hi], so callers establish [lo <= hi]. *)
Definition zclamp (lo hi x : Z) : Z := if (x <? lo)%Z then lo else if (hi <? x)%Z then hi else x.

Lemma zclamp_range lo hi x : (lo <= hi → lo <= zclamp lo hi x <= hi)%Z.
Proof. unfold zclamp. intros. destruct (Z.ltb_spec x lo), (Z.ltb_spec hi x); lia. Qed.

Lemma zclamp_id lo hi x : (lo <= x <= hi → zclamp lo hi x = x)%Z.
Proof. unfold zclamp. intros. destruct (Z.ltb_spec x lo), (Z.ltb_spec hi x); lia. Qed.

Lemma zclamp_mono lo hi x y : (lo <= hi → x <= y → zclamp lo hi x <= zclamp lo hi y)%Z.
Proof.
  unfold zclamp. intros.
  destruct (Z.ltb_spec x lo), (Z.ltb_spec hi x), (Z.ltb_spec y lo), (Z.ltb_spec hi y); lia.
Qed.

Lemma sat_add_le mx x y : (sat_add mx x y <= mx)%Z.
Proof. unfold sat_add. lia. Qed.

(** ** Strings

    A Rust [String] is its UTF-8 bytes; [str::len] counts them. *)

Definition slen (s : string) : nat := String.length s.

(** The double quote, which a string literal of this development never holds. *)
Definition dq : string := String "034" EmptyString.
Definition nl : string := String "010" EmptyString.

Definition str_eqb (a b : string) : bool := bool_decide (a = b).

Definition starts_with (p s : string) : bool := String.prefix p s.

(** [s.strip_prefix(p)] *)
Fixpoint strip_prefix (p s : string) : option string :=
  match p, s with
  | EmptyString, _ => Some s
  | String a p', String b s' => if Ascii.eqb a b then strip_prefix p' s' else None
  | String _ _, EmptyString => None
  end.

(** [&s[n..]] *)
Fixpoint sdrop (n : nat) (s : string) : string :=
  match n, s with
  | O, _ => s
  | S _, EmptyString => EmptyString
  | S n', String _ s' => sdrop n' s'
  end.

(** [&s[..n]] *)
Fixpoint stake (n : nat) (s : string) : string :=
  match n, s with
  | O, _ => EmptyString
  | S _, EmptyString => EmptyString
  | S n', String c s' => String c (stake n' s')
  end.

(** [s.strip_suffix(p)] *)
Definition strip_suffix (p s : string) : option string :=
  if (slen p <=? slen s)%nat && str_eqb (sdrop (slen s - slen p) s) p
  then Some (stake (slen s - slen p) s) else None.

Fixpoint contains_char (c : ascii) (s : string) : bool :=
  match s with
  | EmptyString => false
  | String a s' => Ascii.eqb a c || contains_char c s'
  end.

(** [s.bytes().all(f)] *)
Fixpoint all_bytes (f : ascii → bool) (s : string) : bool :=
  match s with
  | EmptyString => true
  | String a s' => f a && all_bytes f s'
  end.

(** [s.split(c)]: never empty. *)
Fixpoint split_on (c : ascii) (s : string) : list string :=
  match s with
  | EmptyString => [EmptyString]
  | String a s' =>
      if Ascii.eqb a c then EmptyString :: split_on c s'
      else match split_on c s' with
           | [] => [String a EmptyString]
           | w :: ws => String a w :: ws
           end
  end.

(** [s.split_once(c)] *)
Fixpoint split_once (c : ascii) (s : string) : option (string * string) :=
  match s with
  | EmptyString => None
  | String a s' =>
      if Ascii.eqb a c then Some (EmptyString, s')
      else match split_once c s' with
           | Some (x, y) => Some (String a x, y)
           | None => None
           end
  end.

(** [s.rsplit_once(c)] *)
Fixpoint rsplit_once (c : ascii) (s : string) : option (string * string) :=
  match s with
  | EmptyString => None
  | String a s' =>
      match rsplit_once c s' with
      | Some (x, y) => Some (String a x, y)
      | None => if Ascii.eqb a c then Some (EmptyString, s') else None
      end
  end.

(** [s.rsplit(c).next()] *)
Definition last_segment (c : ascii) (s : string) : string :=
  match rsplit_once c s with Some (_, y) => y | None => s end.

(** [parts.join(sep)] *)
Fixpoint join (sep : string) (l : list string) : string :=
  match l with
  | [] => EmptyString
  | [s] => s
  | s :: l' => s +:+ sep +:+ join sep l'
  end.

(** Byte classes of [u8] and [char]. *)
Definition byte_in (lo hi : nat) (c : ascii) : bool :=
  (lo <=? nat_of_ascii c)%nat && (nat_of_ascii c <=? hi)%nat.
Definition is_ascii_digit : ascii → bool := byte_in 48 57.
Definition is_ascii_lowercase : ascii → bool := byte_in 97 122.
Definition is_ascii_uppercase : ascii → bool := byte_in 65 90.
Definition is_ascii_alphanumeric (c : ascii) : bool :=
  is_ascii_digit c || is_ascii_lowercase c || is_ascii_uppercase c.
Definition is_ascii_hexdigit (c : ascii) : bool :=
  is_ascii_digit c || byte_in 97 102 c || byte_in 65 70 c.

Definition lower_ascii (c : ascii) : ascii :=
  if is_ascii_uppercase c then ascii_of_nat (nat_of_ascii c + 32) else c.

(** [s.to_ascii_lowercase()] *)
Fixpoint to_ascii_lowercase (s : string) : string :=
  match s with EmptyString => EmptyString | String c s' => String (lower_ascii c) (to_ascii_lowercase s') end.

(** [s.contains(p)], of a string [p] *)
Fixpoint contains_str (p s : string) : bool :=
  starts_with p s || match s with EmptyString => false | String _ s' => contains_str p s' end.

(** A UTF-8 continuation byte; [str::is_char_boundary] is its negation (or the end). *)
Definition is_cont (c : ascii) : bool := byte_in 128 191 c.

(** [s.chars()]: each character as its own bytes, a non-ASCII lead byte and its
    continuations. *)
Fixpoint chars (s : string) : list string :=
  match s with
  | EmptyString => []
  | String a s' =>
      match s' with
      | String b _ =>
          if is_cont b && (128 <=? nat_of_ascii a)%nat
          then match chars s' with
               | [] => [String a EmptyString]
               | w :: ws => String a w :: ws
               end
          else String a EmptyString :: chars s'
      | EmptyString => [String a EmptyString]
      end
  end.

Fixpoint concat_str (l : list string) : string :=
  match l with [] => EmptyString | s :: l' => s +:+ concat_str l' end.

(** The Unicode White_Space property of one character, by its UTF-8 bytes. *)
Definition bytes_of (s : string) : list nat := map nat_of_ascii (list_ascii_of_string s).
Definition is_whitespace (ch : string) : bool :=
  match bytes_of ch with
  | [b] => bool_decide (b ∈ [9; 10; 11; 12; 13; 32])
  | [194; b] => (b =? 133)%nat || (b =? 160)%nat
  | [225; 154; 128] => true
  | [226; 128; b] => ((128 <=? b) && (b <=? 138) || (b =? 168) || (b =? 169) || (b =? 175))%nat
  | [226; 129; 159] => true
  | [227; 128; 128] => true
  | _ => false
  end.

Fixpoint drop_while {A} (f : A → bool) (l : list A) : list A :=
  match l with
  | [] => []
  | x :: l' => if f x then drop_while f l' else l
  end.

(** [s.trim_end()] and [s.trim()] *)
Definition trim_end (s : string) : string :=
  concat_str (reverse (drop_while is_whitespace (reverse (chars s)))).
Definition trim (s : string) : string :=
  concat_str (drop_while is_whitespace (reverse (drop_while is_whitespace (reverse (chars s))))).

(** [s.trim().parse::<unsigned>()] up to [mx]: an optional [+], then digits. *)
Fixpoint digits_val (acc : Z) (s : string) : option Z :=
  match s with
  | EmptyString => Some acc
  | String c s' =>
      if is_ascii_digit c
      then digits_val (acc * 10 + (Z.of_nat (nat_of_ascii c) - 48)) s'
      else None
  end.
Definition parse_unsigned (mx : Z) (s : string) : option Z :=
  let body := match s with
              | String "+" ((String _ _) as r) => r
              | _ => s
              end in
  match body with
  | EmptyString => None
  | _ => match digits_val 0 body with
         | Some v => if (v <=? mx)%Z then Some v else None
         | None => None
         end
  end.

(** Lexicographic order on the bytes, as [str]'s [Ord]. *)
Fixpoint str_leb (a b : string) : bool :=
  match a, b with
  | EmptyString, _ => true
  | String _ _, EmptyString => false
  | String x a', String y b' =>
      (nat_of_ascii x <? nat_of_ascii y)%nat
      || ((nat_of_ascii x =? nat_of_ascii y)%nat && str_leb a' b')
  end.

(** ** String lemmas *)

#[global] Arguments String.append !_ _ / : simpl nomatch.

Lemma str_eqb_true a b : str_eqb a b = true ↔ a = b.
Proof. unfold str_eqb. apply bool_decide_eq_true. Qed.
Lemma str_eqb_false a b : str_eqb a b = false ↔ a ≠ b.
Proof. unfold str_eqb. apply bool_decide_eq_false. Qed.
Lemma str_eqb_refl a : str_eqb a a = true.
Proof. by apply str_eqb_true. Qed.

Lemma slen_app a b : slen (a +:+ b) = (slen a + slen b)%nat.
Proof. unfold slen. induction a as [|c a IH]; simpl; [done|]. by rewrite IH. Qed.

Lemma sapp_nil_r a : a +:+ EmptyString = a.
Proof. induction a as [|c a IH]; simpl; [done|]. by rewrite IH. Qed.

Lemma sapp_assoc a b c : a +:+ (b +:+ c) = (a +:+ b) +:+ c.
Proof. induction a as [|x a IH]; simpl; [done|]. by rewrite IH. Qed.

Lemma stake_sdrop n s : stake n s +:+ sdrop n s = s.
Proof. revert n. induction s as [|c s IH]; intros [|n]; simpl; try done. by rewrite IH. Qed.

Lemma slen_sdrop n s : slen (sdrop n s) = (slen s - n)%nat.
Proof.
  unfold slen. revert n. induction s as [|c s IH]; intros [|n]; simpl; try done.
Qed.

Lemma contains_char_app c a b :
  contains_char c (a +:+ b) = contains_char c a || contains_char c b.
Proof. induction a as [|x a IH]; simpl; [done|]. by rewrite IH, orb_assoc. Qed.

Lemma concat_str_app l1 l2 : concat_str (l1 ++ l2) = concat_str l1 +:+ concat_str l2.
Proof. induction l1 as [|s l1 IH]; simpl; [done|]. by rewrite IH, sapp_assoc. Qed.

(** A string is the concatenation of its characters. *)
Lemma concat_chars s : concat_str (chars s) = s.
Proof.
  induction s as [|a s IH]; [done|].
  cbn [chars]. destruct s as [|b s]; [done|].
  destruct (is_cont b && _) eqn:E.
  - destruct (chars (String b s)) as [|w ws] eqn:Ec; [done|].
    cbn [concat_str] in *. cbn [String.append]. by rewrite IH.
  - cbn [concat_str String.append]. by rewrite IH.
Qed.

(** The bytes of one character: a lone ASCII byte, or bytes none of which is ASCII. *)
Definition char_shape (w : string) : Prop :=
  (∃ a, w = String a EmptyString) ∨ all_bytes (λ c, (128 <=? nat_of_ascii c)%nat) w = true.

Lemma is_cont_high c : is_cont c = true → (128 <=? nat_of_ascii c)%nat = true.
Proof. unfold is_cont, byte_in. rewrite andb_true_iff. tauto. Qed.

Lemma chars_cont_head s b s' w ws :
  s = String b s' → is_cont b = true → chars s = w :: ws → char_shape w →
  all_bytes (λ c, (128 <=? nat_of_ascii c)%nat) w = true.
Proof.
  intros -> Hb Hc [[a ->]|H]; [|done].
  cbn [chars] in Hc. apply is_cont_high in Hb.
  destruct s' as [|d s']; [simplify_eq; cbn [all_bytes]; by rewrite Hb|].
  destruct (is_cont d && _).
  - destruct (chars (String d s')); simplify_eq; cbn [all_bytes]; by rewrite Hb.
  - simplify_eq. cbn [all_bytes]. by rewrite Hb.
Qed.

Lemma chars_shape s : Forall char_shape (chars s).
Proof.
  induction s as [|a s IH]; [constructor|].
  cbn [chars]. destruct s as [|b s].
  { constructor; [left; by eexists | constructor]. }
  destruct (is_cont b && _) eqn:E.
  - apply andb_true_iff in E as [Hb Ha].
    destruct (chars (String b s)) as [|w ws] eqn:Ec.
    { constructor; [left; by eexists | constructor]. }
    inversion IH as [|?? Hw Hws]; subst. constructor; [|done].
    right. cbn [all_bytes]. rewrite Ha.
    by eapply chars_cont_head.
  - constructor; [left; by eexists | done].
Qed.

(** A character holds an ASCII byte only when it is that byte. *)
Lemma char_shape_ascii w c :
  char_shape w → (nat_of_ascii c < 128)%nat → contains_char c w = true → w = String c EmptyString.
Proof.
  intros [[a ->]|H] Hc Hin.
  - cbn [contains_char] in Hin. rewrite orb_false_r in Hin.
    apply Ascii.eqb_eq in Hin. by subst.
  - exfalso. induction w as [|x w IH]; [done|].
    cbn [all_bytes contains_char] in *. apply andb_true_iff in H as [Hx Hw].
    apply orb_true_iff in Hin as [Hin|Hin]; [|by apply IH].
    apply Ascii.eqb_eq in Hin. subst. apply Nat.leb_le in Hx. lia.
Qed.

Lemma split_once_app c s x y : split_once c s = Some (x, y) → s = x +:+ String c y.
Proof.
  revert x. induction s as [|a s IH]; intros x; cbn [split_once]; [done|].
  destruct (Ascii.eqb a c) eqn:E.
  - apply Ascii.eqb_eq in E. intros ?. by simplify_eq.
  - destruct (split_once c s) as [[x' y']|]; [|done]. intros ?. simplify_eq.
    simpl. by rewrite (IH x').
Qed.

(** The first word of a split: it has no separator, and what follows it is the rest. *)
Lemma split_on_first c s :
  ∃ w rest ws, split_on c s = w :: ws ∧ s = w +:+ rest ∧ contains_char c w = false ∧
    (rest = EmptyString ∧ ws = [] ∨ ∃ s', rest = String c s' ∧ ws = split_on c s' ∧ (slen s' < slen s)%nat).
Proof.
  induction s as [|a s IH]; simpl; [exists EmptyString, EmptyString, []; split_and!; by auto|].
  destruct (Ascii.eqb_spec a c) as [->|Hne].
  - exists EmptyString, (String c s), (split_on c s). split_and!; [done..|]. right. eexists. split_and!; try done. unfold slen; simpl; lia.
  - destruct IH as (w & rest & ws & -> & -> & Hw & Hr). exists (String a w), rest, ws.
    split_and!; try done.
    + simpl. rewrite Hw. by destruct (Ascii.eqb_spec a c).
    + destruct Hr as [?|(s' & -> & -> & Hl)]; [by left|right]. exists s'. split_and!; try done. unfold slen in *; simpl in *. lia.
Qed.

Lemma join_split_on c s : join (String c EmptyString) (split_on c s) = s.
Proof.
  induction s as [|a s IH]; [done|]. simpl. destruct (Ascii.eqb_spec a c) as [->|Hne].
  - destruct (split_on_first c s) as (w & _ & ws & E & _). rewrite E in *. simpl. by rewrite <- IH.
  - destruct (split_on_first c s) as (w & _ & ws & E & _). rewrite E in *. rewrite <- IH. by destruct ws.
Qed.

Lemma split_on_word c w s : contains_char c w = false →
  split_on c (w +:+ String c s) = w :: split_on c s ∧ split_on c w = [w].
Proof.
  induction w as [|a w IH]; simpl; intros Hw; [by destruct (Ascii.eqb_spec c c)|].
  apply orb_false_iff in Hw as [-> Hw]. destruct (IH Hw) as [-> ->]. done.
Qed.

Lemma split_on_join c l : l ≠ [] → Forall (λ w, contains_char c w = false) l →
  split_on c (join (String c EmptyString) l) = l.
Proof.
  induction l as [|w l IH]; [done|]. intros _ [Hw Hl]%Forall_cons. destruct l as [|w' l].
  - by apply (split_on_word c w EmptyString).
  - change (join (String c EmptyString) (w :: w' :: l))
      with (w +:+ String c (join (String c EmptyString) (w' :: l))).
    destruct (split_on_word c w (join (String c EmptyString) (w' :: l)) Hw) as [-> _].
    by rewrite IH.
Qed.

Lemma split_on_clean c s : Forall (λ w, contains_char c w = false) (split_on c s).
Proof.
  induction s as [|a s IH]; simpl; [by repeat constructor|].
  destruct (Ascii.eqb_spec a c); [by constructor|].
  destruct (split_on c s) as [|w ws]; [repeat constructor; simpl; by destruct (Ascii.eqb_spec a c)|].
  apply Forall_cons in IH as [Hw Hws]. constructor; [|done]. simpl.
  rewrite Hw. by destruct (Ascii.eqb_spec a c).
Qed.

Lemma all_bytes_no f c w : all_bytes f w = true → f c = false → contains_char c w = false.
Proof.
  induction w as [|a w IH]; simpl; [done|]. intros [Ha Hw]%andb_true_iff Hc.
  rewrite IH by done. destruct (Ascii.eqb_spec a c); [congruence|done].
Qed.

Lemma split_once_glue c a b : contains_char c a = false → split_once c (a +:+ String c b) = Some (a, b).
Proof.
  induction a as [|x a IH]; simpl; [by rewrite Ascii.eqb_refl|].
  intros [-> Ha]%orb_false_iff. by rewrite IH.
Qed.

Lemma split_once_none c a : contains_char c a = false → split_once c a = None.
Proof. induction a as [|x a IH]; simpl; [done|]. intros [-> Ha]%orb_false_iff. by rewrite IH. Qed.

Lemma pretty_N_go_digits (x : N) s : all_bytes is_ascii_digit s = true → all_bytes is_ascii_digit (pretty_N_go x s) = true.
Proof.
  revert s. induction (N.lt_wf_0 x) as [x _ IH]. intros s Hs.
  destruct (decide (0 < x)%N) as [Hx|Hx]; [|by replace x with 0%N by lia].
  rewrite pretty_N_go_step by done. apply IH; [by apply N.div_lt|].
  change (is_ascii_digit (pretty_N_char (x `mod` 10)) && all_bytes is_ascii_digit s = true).
  rewrite Hs, andb_true_r.
  assert (x `mod` 10 < 10)%N as Hm by (by apply N.mod_lt). revert Hm. generalize (x `mod` 10)%N.
  intros n Hn. assert (n = 0 ∨ n = 1 ∨ n = 2 ∨ n = 3 ∨ n = 4 ∨ n = 5 ∨ n = 6 ∨ n = 7 ∨ n = 8 ∨ n = 9)%N as Hc by lia.
  by destruct_or! Hc; subst n.
Qed.

(** A number has no byte but its digits and its sign. *)
Lemma pretty_Z_no c (z : Z) : is_ascii_digit c = false → c ≠ "-"%char → contains_char c (pretty z) = false.
Proof.
  intros Hd Hc. assert (∀ q : N, contains_char c (pretty_N_go q EmptyString) = false) as Hn
    by (intros q; apply (all_bytes_no is_ascii_digit); [by apply pretty_N_go_digits|done]).
  destruct z as [|q|q].
  - change (pretty 0%Z) with "0". cbn [contains_char]. by destruct (Ascii.eqb_spec "0" c) as [<-|].
  - apply (Hn (N.pos q)).
  - change (pretty (Z.neg q)) with (String "-" (pretty_N_go (N.pos q) EmptyString)).
    cbn [contains_char]. rewrite Hn. by destruct (Ascii.eqb_spec "-" c) as [<-|].
Qed.

Lemma str_leb_cons x a y b :
  str_leb (String x a) (String y b) = true ↔
  (nat_of_ascii x < nat_of_ascii y)%nat ∨ x = y ∧ str_leb a b = true.
Proof.
  simpl. rewrite orb_true_iff, andb_true_iff, Nat.ltb_lt, Nat.eqb_eq. split; intros [H|[H Hab]]; auto.
  - right. split; [|done]. by rewrite <- (ascii_nat_embedding x), H, ascii_nat_embedding.
  - subst. auto.
Qed.

Lemma str_leb_refl a : str_leb a a = true.
Proof. induction a; [done|]. apply str_leb_cons. auto. Qed.

Lemma str_leb_total a b : str_leb a b = true ∨ str_leb b a = true.
Proof.
  revert b. induction a as [|x a IH]; intros [|y b]; [by left..|by right|]. rewrite !str_leb_cons.
  destruct (Nat.lt_trichotomy (nat_of_ascii x) (nat_of_ascii y)) as [H|[H|H]]; auto.
  assert (x = y) as -> by (by rewrite <- (ascii_nat_embedding x), H, ascii_nat_embedding).
  destruct (IH b); auto.
Qed.

Lemma str_leb_trans a b c : str_leb a b = true → str_leb b c = true → str_leb a c = true.
Proof.
  revert b c. induction a as [|x a IH]; intros [|y b] [|z c]; try done. rewrite !str_leb_cons.
  intros [H1|[-> H1]] [H2|[-> H2]]; [left; lia|auto..|]. right. eauto.
Qed.

Lemma str_leb_antisym a b : str_leb a b = true → str_leb b a = true → a = b.
Proof.
  revert b. induction a as [|x a IH]; intros [|y b]; try done. rewrite !str_leb_cons.
  intros [H1|[-> H1]] [H2|[E H2]]; try lia; try (subst; lia). f_equal. auto.
Qed.

(** ** Shared list operations *)

(** [v.iter().position(f)] *)
Fixpoint position {A} (f : A → bool) (l : list A) : option nat :=
  match l with
  | [] => None
  | x :: l' => if f x then Some O else S <$> position f l'
  end.

(** [v.iter().find(f)] *)
Fixpoint find_first {A} (f : A → bool) (l : list A) : option A :=
  match l with
  | [] => None
  | x :: l' => if f x then Some x else find_first f l'
  end.

(** [v.sort_by_key(k)]: stable. *)
Fixpoint insert_by {A} (le : A → A → bool) (x : A) (l : list A) : list A :=
  match l with
  | [] => [x]
  | y :: l' => if le x y then x :: l else y :: insert_by le x l'
  end.
Definition sort_by {A} (le : A → A → bool) (l : list A) : list A := foldr (insert_by le) [] l.

Lemma position_lookup {A} (f : A → bool) l i :
  position f l = Some i → ∃ x, l !! i = Some x ∧ f x = true.
Proof.
  revert i. induction l as [|x l IH]; intros i; simpl; [done|].
  destruct (f x) eqn:E; [intros ?; simplify_eq; by eexists|].
  destruct (position f l) as [k|]; [|done]. simpl. intros ?. simplify_eq. by apply IH.
Qed.

Lemma position_before {A} (f : A → bool) l i k x :
  position f l = Some i → (k < i)%nat → l !! k = Some x → f x = false.
Proof.
  revert i k. induction l as [|y l IH]; intros i k; simpl; [done|].
  destruct (f y) eqn:E; [intros ?; simplify_eq; lia|].
  destruct (position f l) as [n|]; [|done]. simpl. intros ? Hk Hx. simplify_eq.
  destruct k as [|k]; simpl in Hx; [by simplify_eq|]. eapply IH; [done| |done]. lia.
Qed.

Lemma position_None {A} (f : A → bool) l : position f l = None ↔ Forall (λ x, f x = false) l.
Proof.
  induction l as [|x l IH]; simpl; [split; [constructor|done]|].
  destruct (f x) eqn:E.
  - split; [done|]. intros H. inversion H; congruence.
  - rewrite fmap_None, IH. split; [by constructor|]. by inversion 1.
Qed.

Lemma find_first_Some {A} (f : A → bool) l x : find_first f l = Some x → x ∈ l ∧ f x = true.
Proof.
  induction l as [|y l IH]; simpl; [done|].
  destruct (f y) eqn:E; intros H; [simplify_eq; split; [left|done]|].
  destruct (IH H). split; [by right|done].
Qed.

Lemma find_first_None {A} (f : A → bool) l : find_first f l = None ↔ Forall (λ x, f x = false) l.
Proof.
  induction l as [|x l IH]; simpl; [split; [constructor|done]|].
  destruct (f x) eqn:E.
  - split; [done|]. intros H. inversion H; congruence.
  - rewrite IH. split; [by constructor|]. by inversion 1.
Qed.

Section sort.
Context {A : Type} (le : A → A → bool).

Lemma insert_by_perm x l : insert_by le x l ≡ₚ x :: l.
Proof.
  induction l as [|y l IH]; simpl; [done|].
  destruct (le x y); [done|]. rewrite IH. by apply Permutation_swap.
Qed.

Lemma sort_by_perm l : sort_by le l ≡ₚ l.
Proof. induction l as [|x l IH]; simpl; [done|]. by rewrite insert_by_perm, IH. Qed.

Context (le_total : ∀ x y, le x y = true ∨ le y x = true).
Context (le_trans : ∀ x y z, le x y = true → le y z = true → le x z = true).

Lemma insert_by_sorted x l :
  StronglySorted (λ a b, le a b = true) l → StronglySorted (λ a b, le a b = true) (insert_by le x l).
Proof.
  induction l as [|y l IH]; simpl; intros Hs; [by repeat constructor|].
  inversion Hs as [|?? Hl Hy]; subst.
  destruct (le x y) eqn:E.
  - constructor; [done|]. constructor; [done|].
    eapply Forall_impl; [exact Hy|]. intros z Hz. by eapply le_trans.
  - constructor; [by apply IH|].
    rewrite insert_by_perm. constructor; [|done].
    destruct (le_total x y); congruence.
Qed.

Lemma sort_by_sorted l : StronglySorted (λ a b, le a b = true) (sort_by le l).
Proof. induction l as [|x l IH]; simpl; [constructor|]. by apply insert_by_sorted. Qed.
End sort.

Lemma StronglySorted_app_le {A} (R : A → A → Prop) l1 l2 :
  StronglySorted R (l1 ++ l2) → ∀ x y, x ∈ l1 → y ∈ l2 → R x y.
Proof.
  induction l1 as [|a l1 IH]; simpl; intros Hs x y Hx Hy; [by apply elem_of_nil in Hx|].
  inversion Hs as [|?? Hs' Ha]; subst.
  apply elem_of_cons in Hx as [->|Hx]; [|by eapply IH].
  rewrite Forall_forall in Ha. apply Ha, elem_of_app. by right.
Qed.

(** ** Streaks

    [streak f n seen]: the [n] newest of the windows seen (newest first) all satisfy [f]. A
    saturating counter that is reset whenever [f] fails never counts more than its streak. *)
Definition streak {A} (f : A → bool) (n : Z) (seen : list A) : Prop :=
  (0 <= n)%Z ∧ (Z.to_nat n <= List.length seen)%nat ∧ Forall (λ x, f x = true) (take (Z.to_nat n) seen).

Lemma streak_zero {A} (f : A → bool) seen : streak f 0 seen.
Proof. split_and!; simpl; [lia|lia|constructor]. Qed.

Lemma streak_le {A} (f : A → bool) m n seen : (0 <= m <= n)%Z → streak f n seen → streak f m seen.
Proof.
  intros Hm (Hn & Hlen & Hf). split_and!; [lia|lia|].
  replace (take (Z.to_nat m) seen) with (take (Z.to_nat m) (take (Z.to_nat n) seen)).
  - by apply Forall_take.
  - rewrite take_take. f_equal. lia.
Qed.

Lemma streak_next {A} (f : A → bool) mx n x seen :
  (0 <= mx)%Z → f x = true → streak f n seen → streak f (sat_add mx n 1) (x :: seen).
Proof.
  intros Hmx Hx (Hn & Hlen & Hf). apply (streak_le f _ (n + 1)); [unfold sat_add; lia|].
  unfold streak. replace (Z.to_nat (n + 1)) with (S (Z.to_nat n)) by lia. simpl.
  split_and!; [lia|lia|by constructor].
Qed.
#[export] Hint Resolve streak_zero streak_next : quasar.
