(* ===== verification/Platform.v ===== *)
(** * The container engine port

    The data the recovery actor exchanges with the container engine
    ([crates/quasar-runtime/src/platform.rs], [error.rs]), its error classification
    ([crates/quasar-recovery/src/engine/mod.rs]) and the fixed vocabulary of roles, container
    names and labels ([recipe/mod.rs]). *)
From S2P Require Import Prelude.

(** ** Roles, names and labels *)

Inductive Role :=
| ControlPlane
| NodeAgent
| Postgres
| RecoveryActor.

#[global] Instance Role_eq_dec : EqDecision Role.
Proof. solve_decision. Defined.

Definition NAME_NODE_AGENT : string := "quasar-node-agent".
Definition NAME_RECOVERY_ACTOR : string := "quasar-recovery".
Definition NAME_CONTROL_PLANE : string := "quasar-control-plane".
Definition NAME_POSTGRES : string := "quasar-postgres".
Definition NAME_GPU_PROBE : string := "quasar-gpu-probe".
Definition NAME_SECRETS_WRITER : string := "quasar-secrets-writer".
Definition NAME_FINAL_DUMP : string := "quasar-final-dump".
Definition NAME_DB_HELPER : string := "quasar-db-helper".
Definition NVIDIA_DRIVER_VOLUME : string := "quasar-nvidia-driver".
Definition HELPERS : list string :=
  [NAME_GPU_PROBE; NAME_SECRETS_WRITER; NAME_FINAL_DUMP; NAME_DB_HELPER].

Definition LABEL_INSTALLATION : string := "io.quasar.installation".
Definition LABEL_PLATFORM_SERVICE : string := "io.quasar.platform-service".
Definition LABEL_SPEC : string := "io.quasar.spec".
Definition LABEL_HELPER : string := "io.quasar.helper".
Definition LABEL_IMAGE_RECIPE : string := "org.quasar.recipe".
Definition LABEL_AGENT_OWNER : string := "io.quasar.agent-owner".
Definition LABEL_ATTEMPT : string := "io.quasar.attempt".
Definition LABEL_IMAGE_SCHEMA : string := "org.quasar.schema.version".

Definition ROLE_ALL : list Role := [ControlPlane; NodeAgent; Postgres; RecoveryActor].

Definition role_str (r : Role) : string :=
  match r with
  | ControlPlane => "control-plane"
  | NodeAgent => "node-agent"
  | Postgres => "postgres"
  | RecoveryActor => "recovery-actor"
  end.

Definition role_parse (s : string) : option Role :=
  find_first (λ r, str_eqb (role_str r) s) ROLE_ALL.

Definition container_name (r : Role) : string :=
  match r with
  | ControlPlane => NAME_CONTROL_PLANE
  | NodeAgent => NAME_NODE_AGENT
  | Postgres => NAME_POSTGRES
  | RecoveryActor => NAME_RECOVERY_ACTOR
  end.

(** A platform image, always pinned by digest. *)
Record ImageRef := mkImageRef { repository : string; digest : string }.

#[global] Instance ImageRef_eq_dec : EqDecision ImageRef.
Proof. solve_decision. Defined.

(** [ImageRef::reference]: [repository@digest]. *)
Definition reference (i : ImageRef) : string := repository i +:+ "@" +:+ digest i.

(** The recipe revisions this actor renders per role ([Book::window], [Book::supports]);
    the recovery actor's own revision is [recipe/revision.rs]'s constant. *)
Definition RECIPE_REVISION : Z := 1.

Definition book_window (r : Role) : option (Z * Z) :=
  match r with
  | NodeAgent => Some (1, 4)%Z
  | RecoveryActor => Some (1, RECIPE_REVISION)%Z
  | ControlPlane => Some (1, 4)%Z
  | Postgres => Some (1, 1)%Z
  end.

Definition book_supports (r : Role) (revision : Z) : bool :=
  match book_window r with
  | Some (lo, hi) => (lo <=? revision)%Z && (revision <=? hi)%Z
  | None => false
  end.

(** ** Containers and images *)

Inductive RestartPolicy := RestartNo | UnlessStopped.

#[global] Instance RestartPolicy_eq_dec : EqDecision RestartPolicy.
Proof. solve_decision. Defined.

Record PublishedPort := mkPublishedPort {
  container_port : Z; host_port : Z; host_ip : option string }.

Record Healthcheck := mkHealthcheck {
  hc_test : list string; interval_s : Z; timeout_s : Z; hc_retries : Z; start_period_s : Z }.

Record Bind := mkBind { bind_source : string; bind_target : string; bind_read_only : bool }.

Record Device := mkDevice { dev_host : string; dev_container : string; permissions : string }.

Record GpuRequest := mkGpuRequest {
  gpu_driver : option string; gpu_count : Z;
  gpu_capabilities : list (list string); gpu_device_ids : list string }.

Record ContainerSpec := mkContainerSpec {
  cs_name : string;
  cs_image : string;
  cs_entrypoint : option (list string);
  cs_cmd : option (list string);
  cs_env : gmap string string;
  cs_labels : gmap string string;
  cs_network_mode : option string;
  cs_binds : list Bind;
  cs_devices : list Device;
  cs_device_cgroup_rules : list string;
  cs_gpus : list GpuRequest;
  cs_cap_add : list string;
  cs_security_opt : list string;
  cs_init : bool;
  cs_restart : RestartPolicy;
  cs_ports : list PublishedPort;
  cs_healthcheck : option Healthcheck }.

(** [spec.labels.insert(k, v)] *)
Definition spec_add_label (k v : string) (s : ContainerSpec) : ContainerSpec :=
  mkContainerSpec (cs_name s) (cs_image s) (cs_entrypoint s) (cs_cmd s) (cs_env s)
    (<[k := v]> (cs_labels s)) (cs_network_mode s) (cs_binds s) (cs_devices s)
    (cs_device_cgroup_rules s) (cs_gpus s) (cs_cap_add s) (cs_security_opt s) (cs_init s)
    (cs_restart s) (cs_ports s) (cs_healthcheck s).

(** [PlatformContainer]: one container as the engine reports it. *)
Record Container := mkContainer {
  c_id : string;
  c_name : string;
  c_image : string;
  c_image_id : string;
  c_labels : gmap string string;
  c_status : string;
  c_running : bool;
  c_health : option string;
  c_restart : option RestartPolicy;
  c_mounts : list (string * string * bool);
  c_command : list string;
  c_env : list string;
  c_created : option string;
  c_started_at : option string }.

(** [PlatformImage] *)
Record Image := mkImage {
  i_id : string; i_repo_digests : list string; i_labels : gmap string string }.

(** [PlatformVolume] *)
Record Volume := mkVolume {
  v_name : string; v_labels : gmap string string; v_mountpoint : option string; v_driver : string }.

(** A control-plane machine's database ([recipe::DatabaseInputs], without unknown fields). *)
Inductive DatabaseInputs :=
| OwnedDatabase
| ExternalDatabase (host : string) (port : Z) (user name sslmode : string).

(** ** Errors *)

Inductive ErrorKind :=
| InvalidConfiguration | AmbiguousEndpoint | PermissionDenied | Missing | Unavailable
| IncompatibleApi | Protocol | EngineRefusal | TimedOut | Cancelled | EngineBusy
| UnknownOutcome | ImageInUse | RegistryDenied | ManifestMissing | InsufficientDisk
| InvalidBuildContext | BuildFailed.

#[global] Instance ErrorKind_eq_dec : EqDecision ErrorKind.
Proof. solve_decision. Defined.

Inductive EngineError :=
| Runtime (kind : ErrorKind)
| Refused (status : Z) (message : string)
| Crashed.

#[global] Instance EngineError_eq_dec : EqDecision EngineError.
Proof. solve_decision. Defined.

Definition describe (k : ErrorKind) : string :=
  match k with
  | InvalidConfiguration => "the engine endpoint is misconfigured"
  | AmbiguousEndpoint => "DOCKER_HOST and CONTAINER_HOST name different engines"
  | PermissionDenied => "the engine socket refused this process"
  | Missing => "the object does not exist"
  | Unavailable => "the engine is unreachable"
  | IncompatibleApi => "the engine API is below the supported floor"
  | Protocol => "the engine answered something unreadable"
  | EngineRefusal => "the engine refused the request"
  | TimedOut => "the engine did not answer in time"
  | Cancelled => "the operation was cancelled"
  | EngineBusy => "the engine or the object is busy"
  | UnknownOutcome => "the outcome of the mutation is unknown"
  | ImageInUse => "the image is in use"
  | RegistryDenied => "the registry refused the pull"
  | ManifestMissing => "the registry has no such image"
  | InsufficientDisk => "the engine is out of disk space"
  | InvalidBuildContext => "the build context is invalid"
  | BuildFailed => "the build failed"
  end.

(** [impl Display for EngineError] *)
Definition show_engine_error (e : EngineError) : string :=
  match e with
  | Runtime k => describe k
  | Refused status message =>
      "the engine refused it (HTTP " +:+ pretty status +:+ "): " +:+ message
  | Crashed => "crash injected"
  end.

(** [str::contains] on a needle. *)
Fixpoint contains_str (needle s : string) : bool :=
  starts_with needle s ||
  match s with EmptyString => false | String _ s' => contains_str needle s' end.

(** [str::to_lowercase] as far as an ASCII needle can see it: the ASCII capitals, and the two
    other characters whose lowercase holds an ASCII letter, U+0130 ([i] and U+0307) and
    U+212A ([k]). *)
Definition lower_char (ch : string) : string :=
  match ch with
  | String c EmptyString =>
      String (if is_ascii_uppercase c then ascii_of_nat (nat_of_ascii c + 32) else c) EmptyString
  | _ => match bytes_of ch with
         | [196; 176] => String "i" (String "204" (String "135" EmptyString))
         | [226; 132; 170] => "k"
         | _ => ch
         end
  end.
Definition to_lowercase (s : string) : string := concat_str (map lower_char (chars s)).

Definition DEVICE_REQUEST_REFUSALS : list string :=
  ["could not select device driver"; "failed to discover gpu vendor from cdi";
   "unresolvable cdi devices"].

Definition is_device_request_refusal (e : EngineError) : bool :=
  match e with
  | Refused _ message =>
      existsb (λ r, contains_str r (to_lowercase message)) DEVICE_REQUEST_REFUSALS
  | _ => false
  end.

Definition is_transient (e : EngineError) : bool :=
  match e with
  | Runtime (Unavailable | TimedOut | UnknownOutcome | EngineBusy) => true
  | Runtime _ => false
  | Refused status _ => (500 <=? status)%Z && negb (is_device_request_refusal e)
  | Crashed => false
  end.

Definition is_unreachable (e : EngineError) : bool :=
  match e with
  | Runtime (Unavailable | PermissionDenied | IncompatibleApi | InvalidConfiguration | TimedOut) => true
  | _ => false
  end.

(** Two references to one container: equal, or one a prefix of the other of at least 12
    characters ([replace.rs::same_container]). *)
Definition same_container (a b : string) : bool :=
  str_eqb a b ||
  ((12 <=? Nat.min (slen a) (slen b))%nat && (starts_with b a || starts_with a b)).

(** [database.rs::image_schema]: the schema version an image declares. *)
Definition parse_i64 (s : string) : option Z :=
  match s with
  | String "-" r =>
      match r with
      | String "+" _ => None
      | _ => match parse_unsigned (- I64_MIN) r with Some v => Some (- v)%Z | None => None end
      end
  | _ => parse_unsigned I64_MAX s
  end.
Definition image_schema (i : Image) : option Z :=
  match i_labels i !! LABEL_IMAGE_SCHEMA with
  | Some l => parse_i64 (trim l)
  | None => None
  end.

(** [submit.rs::kept_name] *)
Definition kept_name (canonical : string) : string := canonical +:+ ".kept".

(** ** Facts *)

(** The role table round-trips: a role is recovered from the name it is written as. *)
Lemma role_parse_str r : role_parse (role_str r) = Some r.
Proof. by destruct r. Qed.

Lemma role_parse_inv s r : role_parse s = Some r → s = role_str r.
Proof.
  unfold role_parse, ROLE_ALL, str_eqb. simpl. intros H.
  repeat (case_bool_decide; simplify_eq/=); done.
Qed.

Lemma container_name_inj r1 r2 : container_name r1 = container_name r2 → r1 = r2.
Proof. by destruct r1, r2. Qed.

(** A crash is never retried. *)
Lemma crashed_not_transient : is_transient Crashed = false.
Proof. done. Qed.
