(* ===== verification/Wire.v ===== *)
(** * The recovery actor's wire shapes

    [crates/quasar-recovery/src/socket.rs]: requests, results and the closed [reason]
    vocabulary, with its textual round trip. *)
From S2P Require Import Prelude.

Record Component := mkComponent { comp_name : string; comp_image : string; comp_digest : string }.

Record Release := mkRelease {
  rel_id : string; rel_version : option string; rel_source_commit : string }.

Inductive RequestKind := KReplace | KRestore | KRemove.

#[global] Instance RequestKind_eq_dec : EqDecision RequestKind.
Proof. solve_decision. Defined.

Record Request := mkRequest {
  request_id : string;
  rq_kind : RequestKind;
  components : list Component;
  rq_release : Release;
  migrates : bool;
  rq_schema_version : option Z;
  external_backup_confirmed : bool;
  rq_dump : option string;
  purge : bool;
  from_version : option string;
  wait_timeout_s : Z;
  force_again : bool }.

Record Previous := mkPrevious { prev_name : string; prev_digest : option string }.

Record Accepted := mkAccepted { acc_request_id : string; acc_previous : list Previous }.

(** agent-api.md [release_state] states. *)
Inductive State := StPending | StPulling | StRecreating | StVerifying | StSucceeded | StFailed.

#[global] Instance State_eq_dec : EqDecision State.
Proof. solve_decision. Defined.

Definition is_terminal (s : State) : bool :=
  match s with StSucceeded | StFailed => true | _ => false end.

Inductive MachineRole := Combined | Gpu | ControlOnly.

#[global] Instance MachineRole_eq_dec : EqDecision MachineRole.
Proof. solve_decision. Defined.

(** The closed [reason] vocabulary; an unknown identifier is kept verbatim. *)
Inductive Reason :=
| Invalid | NamespaceRejected | DigestMalformed | Busy | PullFailed | RecreateFailed
| NeverStarted | Unhealthy | SignatureMissing | SignatureInvalid | RecipeUnsupported
| OwnerConflict | BackupFailed | BackupUnconfirmed | Interrupted
| OtherReason (s : string).

#[global] Instance Reason_eq_dec : EqDecision Reason.
Proof. solve_decision. Defined.

Definition REJECTIONS : list Reason :=
  [Invalid; Busy; NamespaceRejected; DigestMalformed; SignatureMissing; SignatureInvalid;
   BackupUnconfirmed; OwnerConflict].

Definition KNOWN : list Reason :=
  [Invalid; NamespaceRejected; DigestMalformed; Busy; PullFailed; RecreateFailed; NeverStarted;
   Unhealthy; SignatureMissing; SignatureInvalid; RecipeUnsupported; OwnerConflict;
   BackupFailed; BackupUnconfirmed; Interrupted].

Definition reason_str (r : Reason) : string :=
  match r with
  | Invalid => "invalid"
  | NamespaceRejected => "namespace_rejected"
  | DigestMalformed => "digest_malformed"
  | Busy => "busy"
  | PullFailed => "pull_failed"
  | RecreateFailed => "recreate_failed"
  | NeverStarted => "never_started"
  | Unhealthy => "unhealthy"
  | SignatureMissing => "signature_missing"
  | SignatureInvalid => "signature_invalid"
  | RecipeUnsupported => "recipe_unsupported"
  | OwnerConflict => "owner_conflict"
  | BackupFailed => "backup_failed"
  | BackupUnconfirmed => "backup_unconfirmed"
  | Interrupted => "interrupted"
  | OtherReason s => s
  end.

Definition reason_parse (s : string) : Reason :=
  default (OtherReason s) (find_first (λ r, str_eqb (reason_str r) s) KNOWN).

(** One attempt's observable state. *)
Record AttemptResult := mkAttemptResult {
  res_request_id : string;
  res_state : State;
  res_reason : option Reason;
  res_components : list Component;
  res_previous : list Previous;
  res_output : string;
  res_started_at : string;
  res_updated_at : string;
  res_finished_at : option string;
  res_restored : bool;
  res_release : Release;
  res_dump : option string }.

(** A refused submit. *)
Record Rejection := mkRejection {
  rej_request_id : string; rej_reason : Reason; rej_message : string }.

(** A container that looks like a platform service but is not this installation's. *)
Record Conflict := mkConflict {
  cf_container : string; cf_id : string; cf_image : string; cf_role : string; cf_why : string }.

(** ** Facts *)

(** Every identifier re-encodes verbatim: a known one as itself, an unknown one unchanged. *)
Lemma reason_str_parse s : reason_str (reason_parse s) = s.
Proof.
  unfold reason_parse, KNOWN, str_eqb. simpl.
  repeat (case_bool_decide; simplify_eq/=; [done|]). done.
Qed.

Lemma reason_parse_known r : r ∈ KNOWN → reason_parse (reason_str r) = r.
Proof.
  rewrite list_elem_of_In. unfold KNOWN. simpl.
  intros H. repeat destruct H as [<-|H]; done.
Qed.
