(* ===== verification/Journal.v ===== *)
(** * The attempt journal

    [crates/quasar-recovery/src/journal.rs]: the phases of a replacement, the journal of one
    attempt and its projection to the wire state, the journal directory (scan, pruning, the
    used-id record), and the text helpers that bound an attempt's output. *)
From S2P Require Import Prelude Platform Wire.

Definition FORMAT : Z := 1.
Definition RESTORE_FORMAT : Z := 2.
Definition KEEP_FINISHED : nat := 16.

Inductive CallerTag := TagControlPlane | TagAgent | TagOperator | TagOther.

#[global] Instance CallerTag_eq_dec : EqDecision CallerTag.
Proof. solve_decision. Defined.

(** ** Phases *)

Inductive Phase :=
| PhAdmitted | PhPulling | PhChecked | PhOldKept | PhCreated | PhStarted | PhVerifying
| PhVerified | PhOldDiscarded | PhRestoring | PhDone
| PhCreatingSuccessor | PhStartingSuccessor | PhAwaitingSuccessor | PhHandingOver
| PhSuccessorActive | PhSuccessorRenaming | PhHandingBack
| PhDumping.

#[global] Instance Phase_eq_dec : EqDecision Phase.
Proof. solve_decision. Defined.

Definition touched_old (p : Phase) : bool :=
  match p with
  | PhAdmitted | PhPulling | PhChecked | PhDumping
  | PhCreatingSuccessor | PhStartingSuccessor | PhAwaitingSuccessor => false
  | _ => true
  end.

Definition wire_state (p : Phase) : State :=
  match p with
  | PhAdmitted => StPending
  | PhPulling | PhChecked | PhDumping
  | PhCreatingSuccessor | PhStartingSuccessor | PhAwaitingSuccessor => StPulling
  | PhOldKept | PhCreated | PhStarted
  | PhHandingOver | PhSuccessorActive | PhSuccessorRenaming => StRecreating
  | PhVerifying | PhVerified | PhOldDiscarded | PhRestoring | PhHandingBack | PhDone => StVerifying
  end.

(** A restore's phases ([restore.rs]). *)
Inductive RestorePhase :=
| RpAdmitted | RpChecking | RpStopping | RpLoading | RpStarting | RpVerifying | RpDone.

#[global] Instance RestorePhase_eq_dec : EqDecision RestorePhase.
Proof. solve_decision. Defined.

Definition restore_touched (p : RestorePhase) : bool :=
  match p with RpAdmitted | RpChecking => false | _ => true end.

Definition restore_wire_state (p : RestorePhase) : State :=
  match p with
  | RpAdmitted => StPending
  | RpChecking => StPulling
  | RpStopping | RpLoading | RpStarting => StRecreating
  | RpVerifying | RpDone => StVerifying
  end.

(** ** One attempt *)

Record Failure := mkFailure { fl_reason : Reason; fl_detail : string }.

Record Step := mkStep {
  st_name : string;
  st_image : ImageRef;
  st_phase : Phase;
  old_container : option string;
  old_restart : option RestartPolicy;
  old_digest : option string;
  st_revision : option Z;
  st_spec : option ContainerSpec;
  new_container : option string;
  st_failure : option Failure;
  successor_starts : Z;
  migrating : bool;
  st_dump : option string }.

Record RestoreJ := mkRestoreJ {
  r_phase : RestorePhase;
  r_dump : option string;
  r_imported : bool;
  r_fresh_install : bool;
  r_migrates_to : option Z;
  r_control_plane : ImageRef;
  r_recipe_revision : option Z;
  r_schema_version : option Z;
  r_returns_to : option string;
  r_created_at : option string;
  r_new_container : option string }.

Record Journal := mkJournal {
  j_format : Z;
  j_seq : Z;
  j_caller : CallerTag;
  j_request : Request;
  j_steps : list Step;
  j_result : AttemptResult;
  j_restore : option RestoreJ }.

(** Field updates. *)
Definition set_phase (p : Phase) (s : Step) : Step :=
  mkStep (st_name s) (st_image s) p (old_container s) (old_restart s) (old_digest s)
    (st_revision s) (st_spec s) (new_container s) (st_failure s) (successor_starts s)
    (migrating s) (st_dump s).
Definition set_new_container (n : option string) (s : Step) : Step :=
  mkStep (st_name s) (st_image s) (st_phase s) (old_container s) (old_restart s) (old_digest s)
    (st_revision s) (st_spec s) n (st_failure s) (successor_starts s) (migrating s) (st_dump s).
Definition set_failure (f : option Failure) (s : Step) : Step :=
  mkStep (st_name s) (st_image s) (st_phase s) (old_container s) (old_restart s) (old_digest s)
    (st_revision s) (st_spec s) (new_container s) f (successor_starts s) (migrating s) (st_dump s).
Definition set_steps (l : list Step) (j : Journal) : Journal :=
  mkJournal (j_format j) (j_seq j) (j_caller j) (j_request j) l (j_result j) (j_restore j).
Definition set_result (r : AttemptResult) (j : Journal) : Journal :=
  mkJournal (j_format j) (j_seq j) (j_caller j) (j_request j) (j_steps j) r (j_restore j).
Definition set_request (r : Request) (j : Journal) : Journal :=
  mkJournal (j_format j) (j_seq j) (j_caller j) r (j_steps j) (j_result j) (j_restore j).
Definition set_state (s : State) (r : AttemptResult) : AttemptResult :=
  mkAttemptResult (res_request_id r) s (res_reason r) (res_components r) (res_previous r)
    (res_output r) (res_started_at r) (res_updated_at r) (res_finished_at r) (res_restored r)
    (res_release r) (res_dump r).
Definition set_updated_at (t : string) (r : AttemptResult) : AttemptResult :=
  mkAttemptResult (res_request_id r) (res_state r) (res_reason r) (res_components r)
    (res_previous r) (res_output r) (res_started_at r) t (res_finished_at r) (res_restored r)
    (res_release r) (res_dump r).

(** [j.steps[i].f = v]: the driver only writes a step [current()] returned. *)
Definition update_step (i : nat) (f : Step → Step) (j : Journal) : Journal :=
  set_steps (alter f i (j_steps j)) j.

Definition is_open (j : Journal) : bool := negb (is_terminal (res_state (j_result j))).

Definition is_done (s : Step) : bool := bool_decide (st_phase s = PhDone).

(** [Journal::current]: the first component that is not finished. *)
Definition current (j : Journal) : option nat := position (λ s, negb (is_done s)) (j_steps j).

Definition rank (s : State) : Z :=
  match s with
  | StPending => 0
  | StPulling => 1
  | StRecreating => 2
  | StVerifying => 3
  | StSucceeded | StFailed => 4
  end.

(** The loop of [Journal::project] over the steps: stops after the first unfinished one. *)
Fixpoint project_steps (state : State) (steps : list Step) : State :=
  match steps with
  | [] => state
  | s :: rest =>
      let w := wire_state (st_phase s) in
      let state := if (rank state <? rank w)%Z then w else state in
      if is_done s then project_steps state rest else state
  end.

Definition project_state (j : Journal) : State :=
  project_steps
    (match j_restore j with Some r => restore_wire_state (r_phase r) | None => StPending end)
    (j_steps j).

(** [Journal::project] *)
Definition project (j : Journal) : Journal :=
  if negb (is_open j) then j
  else let state := project_state j in
       if (rank (res_state (j_result j)) <? rank state)%Z
       then set_result (set_state state (j_result j)) j
       else j.

(** ** The journal directory

    A journal file is whole or absent (it is written by tmp, fsync and rename); what is read
    back is the journal, or why it does not parse. [used-ids] is one such file. *)

Inductive file (A : Type) := Parsed (a : A) | Corrupt (why : string).
Arguments Parsed {A} _.
Arguments Corrupt {A} _.

Record JournalDir := mkJournalDir {
  jd_files : gmap string (file Journal);
  jd_used : option (file (list string)) }.

Definition set_files (f : gmap string (file Journal)) (d : JournalDir) : JournalDir :=
  mkJournalDir f (jd_used d).

Definition format_known (j : Journal) : bool :=
  (j_format j =? FORMAT)%Z || ((j_format j =? RESTORE_FORMAT)%Z && bool_decide (is_Some (j_restore j))).

(** [JournalDir::load] *)
Definition load (d : JournalDir) (id : string) : result (option Journal) string :=
  match jd_files d !! id with
  | None => Ok None
  | Some (Corrupt why) => Err why
  | Some (Parsed j) =>
      if format_known j then Ok (Some j)
      else Err ("journal " +:+ id +:+ " is format " +:+ pretty (j_format j)
                +:+ ", this actor reads " +:+ pretty FORMAT +:+ " and " +:+ pretty RESTORE_FORMAT)
  end.

(** [JournalDir::store], once the write is durable. *)
Definition store (j : Journal) (d : JournalDir) : JournalDir :=
  set_files (<[request_id (j_request j) := Parsed j]> (jd_files d)) d.

(** [JournalDir::was_used] *)
Definition was_used (d : JournalDir) (id : string) : result bool string :=
  match jd_used d with
  | None => Ok false
  | Some (Corrupt why) => Err why
  | Some (Parsed ids) => Ok (bool_decide (id ∈ ids))
  end.

(** [JournalDir::mark_used]; [io] says whether the write becomes durable. *)
Definition mark_used (io : bool) (id : string) (d : JournalDir) : result JournalDir string :=
  match jd_used d with
  | Some (Corrupt why) => Err why
  | u =>
      let ids := match u with Some (Parsed ids) => ids | _ => [] end in
      if bool_decide (id ∈ ids) then Ok d
      else if io then Ok (mkJournalDir (jd_files d) (Some (Parsed (ids ++ [id]))))
      else Err "write failed"
  end.

Record Scan := mkScan { sc_journals : list Journal; sc_unreadable : list string }.

Definition seq_leb (a b : Journal) : bool := (j_seq a <=? j_seq b)%Z.

(** [JournalDir::scan]; [entries] is the directory listing, in the order it was read. *)
Definition scan_readable (d : JournalDir) (entries : list string) : list Journal :=
  omap (λ id, match load d id with Ok (Some j) => Some j | _ => None end) entries.
Definition scan_unreadable (d : JournalDir) (entries : list string) : list string :=
  omap (λ id, match load d id with Err _ => Some id | _ => None end) entries.
Definition scan (d : JournalDir) (entries : list string) : Scan :=
  mkScan (sort_by seq_leb (scan_readable d entries)) (sort_by str_leb (scan_unreadable d entries)).

(** The whole of [JournalDir::scan]: a directory that cannot be listed is scanned as an empty one. *)
Definition scan_listing (d : JournalDir) (listing : option (list string)) : Scan :=
  match listing with Some entries => scan d entries | None => mkScan [] [] end.

(** [Scan::open] and [Scan::open_id] *)
Definition scan_open (s : Scan) : option Journal := find_first is_open (reverse (sc_journals s)).
Definition scan_open_id (s : Scan) : option string :=
  match sc_unreadable s with
  | id :: _ => Some id
  | [] => (λ j, request_id (j_request j)) <$> scan_open s
  end.

(** [JournalDir::next_seq] *)
Definition next_seq (s : Scan) : Z :=
  match last (sc_journals s) with Some j => (j_seq j + 1)%Z | None => 1%Z end.

(** One iteration of [JournalDir::prune]: the id is recorded as used before its journal goes.
    [used_io] and [rm_io] say which of the two writes take effect. *)
Definition prune_one (used_io rm_io : string → bool) (d : JournalDir) (j : Journal) : JournalDir :=
  let id := request_id (j_request j) in
  match mark_used (used_io id) id d with
  | Ok d' => if rm_io id then set_files (delete id (jd_files d')) d' else d'
  | Err _ => d
  end.

Definition prune_victims (s : Scan) : list Journal :=
  let finished := List.filter (λ j, negb (is_open j)) (sc_journals s) in
  take (length finished - KEEP_FINISHED) finished.

(** [JournalDir::prune] *)
Definition prune (used_io rm_io : string → bool) (entries : list string) (d : JournalDir) : JournalDir :=
  foldl (prune_one used_io rm_io) d (prune_victims (scan d entries)).

(** ** Output text *)

Definition OUTPUT_LIMIT : nat := 8 * 1024.
Definition LOG_TAIL_LIMIT : nat := 3 * 1024.

(** [while !text.is_char_boundary(start) { start += 1 }] from [&text[start..]]. *)
Fixpoint to_boundary (s : string) : string :=
  match s with
  | EmptyString => EmptyString
  | String c s' => if is_cont c then to_boundary s' else s
  end.

(** [journal.rs::tail_output] *)
Definition tail_output (text : string) (limit : nat) : string :=
  if (slen text <=? limit)%nat then text
  else let cut := to_boundary (sdrop (slen text - limit) text) in
       match split_once "010" cut with
       | Some (_, String c r) => String c r
       | _ => cut
       end.

Definition ESC : string := String "027" EmptyString.
Definition BEL : string := String "007" EmptyString.

(** [CSI]: everything up to and including the first character in [0x40..=0x7e]. *)
Fixpoint skip_csi (l : list string) : list string :=
  match l with
  | [] => []
  | c :: l' =>
      match bytes_of c with
      | [b] => if (64 <=? b)%nat && (b <=? 126)%nat then l' else skip_csi l'
      | _ => skip_csi l'
      end
  end.

(** [OSC]: up to and including BEL or [ESC \]. *)
Fixpoint skip_osc (l : list string) : list string :=
  match l with
  | [] => []
  | c :: l' =>
      if str_eqb c BEL then l'
      else if str_eqb c ESC
           then match l' with
                | b :: l'' => if str_eqb b "\" then l'' else skip_osc l'
                | [] => []
                end
           else skip_osc l'
  end.

(** The loop of [strip_ansi], over the characters left; [fuel] bounds the iterations, each of
    which consumes at least one character. *)
Fixpoint strip_loop (fuel : nat) (l : list string) : list string :=
  match fuel with
  | O => []
  | S fuel' =>
      match l with
      | [] => []
      | c :: l' =>
          if negb (str_eqb c ESC) then c :: strip_loop fuel' l'
          else match l' with
               | [] => []
               | d :: l'' =>
                   if str_eqb d "[" then strip_loop fuel' (skip_csi l'')
                   else if str_eqb d "]" then strip_loop fuel' (skip_osc l'')
                   else strip_loop fuel' l''
               end
      end
  end.

(** [journal.rs::strip_ansi] *)
Definition strip_ansi (text : string) : string :=
  let l := chars text in concat_str (strip_loop (length l) l).

(** [journal.rs::embedded_log_tail] *)
Definition embedded_log_tail (tail : string) : string :=
  tail_output (trim_end (strip_ansi tail)) LOG_TAIL_LIMIT.

Example strip_ansi_ex :
  strip_ansi ("a" +:+ ESC +:+ "]0;title" +:+ BEL +:+ "b" +:+ ESC +:+ "]8;;u" +:+ ESC +:+ "\c" +:+ ESC +:+ "7d")
  = "abcd".
Proof. reflexivity. Qed.

(** ** The projection *)

Lemma wire_state_rank p : (rank (wire_state p) <= 3)%Z.
Proof. by destruct p. Qed.

Lemma restore_wire_rank p : (rank (restore_wire_state p) <= 3)%Z.
Proof. by destruct p. Qed.

Lemma rank_terminal s : is_terminal s = bool_decide (3 < rank s)%Z.
Proof. by destruct s. Qed.

Lemma project_steps_rank st steps :
  (rank st <= 3)%Z → (rank st <= rank (project_steps st steps) <= 3)%Z.
Proof.
  revert st. induction steps as [|s steps IH]; intros st Hst; simpl; [lia|].
  pose proof (wire_state_rank (st_phase s)).
  destruct (Z.ltb_spec (rank st) (rank (wire_state (st_phase s)))), (is_done s); try lia.
  - specialize (IH (wire_state (st_phase s))). lia.
  - by apply IH.
Qed.

Lemma project_state_rank j : (rank (project_state j) <= 3)%Z.
Proof.
  unfold project_state. apply project_steps_rank.
  destruct (j_restore j); [apply restore_wire_rank | done].
Qed.

Lemma project_fields j :
  j_steps (project j) = j_steps j ∧ j_request (project j) = j_request j ∧
  j_restore (project j) = j_restore j.
Proof. unfold project. repeat case_match; done. Qed.

Lemma project_steps_eq j : j_steps (project j) = j_steps j.
Proof. apply project_fields. Qed.

Lemma project_is_open j : is_open (project j) = is_open j.
Proof.
  unfold project. destruct (is_open j) eqn:E; simpl; [|done].
  destruct (Z.ltb_spec (rank (res_state (j_result j))) (rank (project_state j))); [|done].
  unfold is_open. simpl. rewrite rank_terminal.
  pose proof (project_state_rank j). by rewrite bool_decide_eq_false_2 by lia.
Qed.

Lemma project_rank j : is_open j = true →
  rank (res_state (j_result (project j))) =
  Z.max (rank (res_state (j_result j))) (rank (project_state j)).
Proof.
  unfold project. intros ->. simpl.
  destruct (Z.ltb_spec (rank (res_state (j_result j))) (rank (project_state j))); simpl; lia.
Qed.

Lemma project_grows j :
  (rank (res_state (j_result j)) <= rank (res_state (j_result (project j))))%Z.
Proof.
  destruct (is_open j) eqn:E; [rewrite project_rank by done; lia|].
  unfold project. rewrite E. simpl. lia.
Qed.

(** The wire state an attempt shows only moves forward, never past [verifying] while the
    attempt is open, and projecting again changes nothing. *)
Theorem project_monotone j :
  (rank (res_state (j_result j)) <= rank (res_state (j_result (project j))))%Z ∧
  is_open (project j) = is_open j ∧ project (project j) = project j.
Proof.
  split; [apply project_grows|]. destruct (is_open j) eqn:E.
  - split.
    + by rewrite project_is_open.
    + set (k := project j). unfold project at 1.
      unfold k at 1. rewrite project_is_open, E. simpl.
      replace (project_state k) with (project_state j)
        by (unfold project_state, k; by destruct (project_fields j) as (-> & _ & ->)).
      destruct (Z.ltb_spec (rank (res_state (j_result k))) (rank (project_state j))); [|done].
      subst k. rewrite project_rank in * by done. lia.
  - assert (project j = j) as -> by (unfold project; by rewrite E). split; [done|].
    unfold project. by rewrite E.
Qed.

(** ** The current component *)

Lemma current_lookup j i : current j = Some i → ∃ s, j_steps j !! i = Some s ∧ st_phase s ≠ PhDone.
Proof.
  intros H. apply position_lookup in H as (s & Hs & Hd). exists s. split; [done|].
  unfold is_done in Hd. apply negb_true_iff, bool_decide_eq_false in Hd. done.
Qed.

Lemma current_before j i k s :
  current j = Some i → (k < i)%nat → j_steps j !! k = Some s → st_phase s = PhDone.
Proof.
  intros H Hk Hs. pose proof (position_before _ _ _ _ _ H Hk Hs) as Hd. simpl in Hd.
  apply negb_false_iff, bool_decide_eq_true in Hd. done.
Qed.

Lemma current_None j : current j = None ↔ Forall (λ s, st_phase s = PhDone) (j_steps j).
Proof.
  unfold current. rewrite position_None, !Forall_forall. unfold is_done.
  split; intros H x Hx; specialize (H x Hx).
  - by apply negb_false_iff, bool_decide_eq_true in H.
  - by apply negb_false_iff, bool_decide_eq_true.
Qed.

(** ** The journal directory *)

(** A journal file is named by its own request id, as [store] names it. *)
Definition dir_wf (d : JournalDir) : Prop :=
  ∀ id j, jd_files d !! id = Some (Parsed j) → request_id (j_request j) = id.

Lemma store_wf j d : dir_wf d → dir_wf (store j d).
Proof.
  intros H id k. unfold store. simpl. rewrite lookup_insert.
  case_decide; [intros ?; by simplify_eq|]. apply H.
Qed.

Lemma load_Some d id j : load d id = Ok (Some j) → jd_files d !! id = Some (Parsed j).
Proof.
  unfold load. destruct (jd_files d !! id) as [[k|w]|]; [|done|done].
  destruct (format_known k); [intros ?; by simplify_eq|done].
Qed.

Lemma scan_journals_elem d entries j :
  j ∈ sc_journals (scan d entries) ↔ ∃ id, id ∈ entries ∧ load d id = Ok (Some j).
Proof.
  simpl. rewrite sort_by_perm. unfold scan_readable. rewrite list_elem_of_omap.
  split; intros (id & Hid & H); exists id; (split; [done|]).
  - destruct (load d id) as [[k|]|]; by simplify_eq.
  - by rewrite H.
Qed.

Lemma seq_leb_total a b : seq_leb a b = true ∨ seq_leb b a = true.
Proof. unfold seq_leb. rewrite !Z.leb_le. lia. Qed.

Lemma seq_leb_trans a b c : seq_leb a b = true → seq_leb b c = true → seq_leb a c = true.
Proof. unfold seq_leb. rewrite !Z.leb_le. lia. Qed.

Lemma scan_sorted d entries : StronglySorted (λ a b, seq_leb a b = true) (sc_journals (scan d entries)).
Proof. apply sort_by_sorted; [apply seq_leb_total | apply seq_leb_trans]. Qed.

(** [next_seq] is above every readable journal's, so attempts stay ordered. *)
Lemma next_seq_fresh d entries j :
  j ∈ sc_journals (scan d entries) → (j_seq j < next_seq (scan d entries))%Z.
Proof.
  intros Hj. pose proof (scan_sorted d entries) as Hs. unfold next_seq.
  destruct (sc_journals (scan d entries)) as [|x l] eqn:E using rev_ind; [by apply elem_of_nil in Hj|].
  rewrite last_snoc. apply elem_of_app in Hj as [Hj|Hj].
  - apply (StronglySorted_app_le _ l [x] Hs j x) in Hj; [|by left].
    apply Z.leb_le in Hj. lia.
  - apply list_elem_of_singleton in Hj as ->. lia.
Qed.

Definition req_id (j : Journal) : string := request_id (j_request j).

Definition used_ids (d : JournalDir) : list string :=
  match jd_used d with Some (Parsed ids) => ids | _ => [] end.

Lemma mark_used_ok io id d d' :
  mark_used io id d = Ok d' → jd_files d' = jd_files d ∧ id ∈ used_ids d' ∧ used_ids d ⊆ used_ids d'.
Proof.
  unfold mark_used, used_ids. destruct d as [fs [[ids|w]|]]; simpl; [|done|].
  - case_bool_decide; [intros ?; by simplify_eq/=|]. destruct io; [|done].
    intros ?; simplify_eq/=. split_and!; [done| |]; set_solver.
  - destruct io; [|done]. intros ?; simplify_eq/=. split_and!; [done| |]; set_solver.
Qed.

(** What pruning may do to one id: nothing, or remove it and leave it in the used-id record. *)
Definition pruned_or_kept (d d' : JournalDir) : Prop :=
  used_ids d ⊆ used_ids d' ∧
  ∀ id, jd_files d' !! id = jd_files d !! id ∨ (jd_files d' !! id = None ∧ id ∈ used_ids d').

Lemma prune_one_other u r d j id :
  id ≠ req_id j → jd_files (prune_one u r d j) !! id = jd_files d !! id.
Proof.
  intros Hne. unfold prune_one. destruct (mark_used _ _ d) as [d'|] eqn:E; [|done].
  apply mark_used_ok in E as (Hf & _). destruct (r _); simpl; [|by rewrite Hf].
  rewrite lookup_delete_ne; [by rewrite Hf|]. unfold req_id in Hne. congruence.
Qed.

Lemma prune_one_spec u r d j : pruned_or_kept d (prune_one u r d j).
Proof.
  split.
  - unfold prune_one. destruct (mark_used _ _ d) as [d'|] eqn:E; [|done].
    apply mark_used_ok in E as (_ & _ & Hu). by destruct (r _).
  - intros id. destruct (decide (id = req_id j)) as [->|Hne];
      [|left; by apply prune_one_other].
    unfold prune_one. destruct (mark_used _ _ d) as [d'|] eqn:E; [|by left].
    apply mark_used_ok in E as (Hf & Hin & _).
    destruct (r _); [right|left; by rewrite Hf].
    split; [by apply lookup_delete_eq | done].
Qed.

Lemma prune_fold_spec u r vs d : pruned_or_kept d (foldl (prune_one u r) d vs).
Proof.
  revert d. induction vs as [|j vs IH]; intros d; simpl; [by split; [|left]|].
  destruct (prune_one_spec u r d j) as [Hu1 Hf1], (IH (prune_one u r d j)) as [Hu2 Hf2].
  split; [set_solver|]. intros id.
  destruct (Hf2 id) as [->|[-> Hin]]; [|by right].
  destruct (Hf1 id) as [->|[-> Hin]]; [by left|right; set_solver].
Qed.

Lemma prune_fold_other u r vs d id :
  id ∉ map req_id vs → jd_files (foldl (prune_one u r) d vs) !! id = jd_files d !! id.
Proof.
  revert d. induction vs as [|j vs IH]; intros d Hid; simpl in *; [done|].
  rewrite IH by set_solver. apply prune_one_other. set_solver.
Qed.

Lemma scan_readable_ids d entries :
  dir_wf d → NoDup entries → NoDup (map req_id (scan_readable d entries)).
Proof.
  intros Hwf Hnd. enough (map req_id (scan_readable d entries) `sublist_of` entries) as Hs
    by (by eapply sublist_NoDup).
  induction entries as [|id entries IH]; simpl; [constructor|].
  inversion Hnd; subst. unfold scan_readable in *. simpl.
  destruct (load d id) as [[j|]|] eqn:E; simpl; try (apply sublist_cons; by apply IH).
  apply load_Some, Hwf in E. assert (req_id j = id) as -> by exact E.
  apply sublist_skip. by apply IH.
Qed.

Lemma StronglySorted_filter {A} (R : A → A → Prop) (f : A → bool) l :
  StronglySorted R l → StronglySorted R (List.filter f l).
Proof.
  induction 1 as [|x l Hl IH Hx]; simpl; [constructor|]. destruct (f x); [|done].
  constructor; [done|]. rewrite Forall_forall in *. intros y Hy.
  apply list_elem_of_In, filter_In in Hy as [Hy _]. apply Hx. by apply list_elem_of_In.
Qed.

Lemma filter_map_NoDup (f : Journal → bool) l :
  NoDup (map req_id l) → NoDup (map req_id (List.filter f l)).
Proof.
  induction l as [|x l IH]; simpl; intros H; [constructor|].
  inversion H as [|?? Hx Hl]; subst. destruct (f x); [|by apply IH].
  simpl. constructor; [|by apply IH]. intros Hin. apply Hx.
  apply list_elem_of_fmap in Hin as (y & -> & Hy). apply list_elem_of_fmap.
  exists y. split; [done|]. apply list_elem_of_In, filter_In in Hy as [Hy _].
  by apply list_elem_of_In.
Qed.

Section prune.
Context (d : JournalDir) (entries : list string).
Context (Hwf : dir_wf d) (Hnd : NoDup entries).

Let finished := List.filter (λ j, negb (is_open j)) (sc_journals (scan d entries)).

Lemma finished_elem j :
  j ∈ finished → is_open j = false ∧ jd_files d !! req_id j = Some (Parsed j).
Proof.
  intros Hj. apply list_elem_of_In, filter_In in Hj as [Hj Ho].
  apply list_elem_of_In, scan_journals_elem in Hj as (id & _ & Hl).
  split; [by apply negb_true_iff|]. apply load_Some in Hl.
  unfold req_id. by rewrite (Hwf _ _ Hl).
Qed.

Lemma finished_NoDup : NoDup (map req_id finished).
Proof.
  apply filter_map_NoDup. simpl.
  eapply NoDup_Permutation_proper; [|apply (scan_readable_ids d entries Hwf Hnd)].
  apply Permutation_map, sort_by_perm.
Qed.

(** The journals a removal leaves behind: sixteen finished ones, none older, still there. *)
Lemma prune_leaves u r j :
  j ∈ prune_victims (scan d entries) →
  ∃ keep, length keep = KEEP_FINISHED ∧ NoDup (map req_id keep) ∧
    Forall (λ k, is_open k = false ∧ (j_seq j <= j_seq k)%Z ∧
                 jd_files (prune u r entries d) !! req_id k = Some (Parsed k)) keep.
Proof.
  unfold prune_victims. fold finished. set (n := (length finished - KEEP_FINISHED)%nat).
  intros Hj. exists (drop n finished).
  assert (Hn : (0 < n)%nat) by (destruct n; [by apply elem_of_nil in Hj|lia]).
  pose proof (take_drop n finished) as Hsplit.
  pose proof finished_NoDup as Hid. rewrite <-Hsplit, map_app in Hid.
  apply NoDup_app in Hid as (_ & Hdis & Hid). split_and!; [|done|].
  - rewrite length_drop. lia.
  - apply Forall_forall. intros k Hk.
    assert (Hkf : k ∈ finished) by (rewrite <-Hsplit; set_solver).
    destruct (finished_elem k Hkf) as [Ho Hf]. split_and!; [done| |].
    + assert (StronglySorted (λ a b, seq_leb a b = true) (take n finished ++ drop n finished)) as Hs.
      { rewrite Hsplit. apply StronglySorted_filter, scan_sorted. }
      apply (StronglySorted_app_le _ _ _ Hs j k) in Hk; [|done]. by apply Z.leb_le in Hk.
    + unfold prune. rewrite prune_fold_other; [done|].
      unfold prune_victims. fold finished. fold n. intros Hin.
      apply (Hdis (req_id k)); [done|]. apply list_elem_of_fmap. by exists k.
Qed.

Lemma prune_removed_victim u r id f :
  jd_files d !! id = Some f → jd_files (prune u r entries d) !! id = None →
  ∃ j, f = Parsed j ∧ is_open j = false ∧ req_id j = id ∧ j ∈ prune_victims (scan d entries).
Proof.
  intros Hf Hnone. destruct (decide (id ∈ map req_id (prune_victims (scan d entries)))) as [Hin|Hn].
  - apply list_elem_of_fmap in Hin as (j & -> & Hj).
    assert (Hjf : j ∈ finished) by (unfold prune_victims in Hj; fold finished in Hj;
      rewrite <-(take_drop (length finished - KEEP_FINISHED) finished); set_solver).
    destruct (finished_elem j Hjf) as [Ho Hl]. exists j. split_and!; [congruence|done..].
  - unfold prune in Hnone. rewrite prune_fold_other in Hnone by done. congruence.
Qed.
End prune.

(** Pruning is safe: a journal that disappears was a finished one, its id stays in the
    used-id record, and at least sixteen finished attempts no older than it remain. An open
    journal and an unreadable one are never removed. *)
Theorem prune_safe used_io rm_io entries d id f :
  dir_wf d → NoDup entries →
  jd_files d !! id = Some f → jd_files (prune used_io rm_io entries d) !! id = None →
  was_used (prune used_io rm_io entries d) id = Ok true ∧
  ∃ j keep, f = Parsed j ∧ is_open j = false ∧
    length keep = KEEP_FINISHED ∧ NoDup (map req_id keep) ∧
    Forall (λ k, is_open k = false ∧ (j_seq j <= j_seq k)%Z ∧
                 jd_files (prune used_io rm_io entries d) !! req_id k = Some (Parsed k)) keep.
Proof.
  intros Hwf Hnd Hf Hnone. split.
  - destruct (prune_fold_spec used_io rm_io (prune_victims (scan d entries)) d) as [_ Hs].
    fold (prune used_io rm_io entries d) in Hs.
    destruct (Hs id) as [Heq|[_ Hin]]; [congruence|].
    unfold was_used, used_ids in *. destruct (jd_used _) as [[ids|]|]; try set_solver.
    by rewrite bool_decide_eq_true_2.
  - eapply prune_removed_victim in Hnone as (j & -> & Ho & _ & Hv); [|done..].
    destruct (prune_leaves _ _ Hwf Hnd used_io rm_io j Hv) as (keep & ? & ? & ?).
    by exists j, keep.
Qed.

(** ** Output text *)

Lemma to_boundary_suffix s : ∃ p, s = p +:+ to_boundary s.
Proof.
  induction s as [|c s [p IH]]; simpl; [by exists EmptyString|].
  destruct (is_cont c); [exists (String c p); simpl; by rewrite <-IH | by exists EmptyString].
Qed.

(** The embedded tail is a suffix of the text, never longer than the limit; a text within
    the limit is embedded whole. *)
Theorem tail_output_bounded text limit :
  (slen (tail_output text limit) <= limit)%nat ∧
  (∃ p, text = p +:+ tail_output text limit) ∧
  ((slen text <= limit)%nat → tail_output text limit = text).
Proof.
  unfold tail_output. destruct (Nat.leb_spec (slen text) limit) as [Hle|Hgt].
  { split_and!; [done|by exists EmptyString|done]. }
  set (n := (slen text - limit)%nat).
  assert (Hcut : ∃ p, text = p +:+ to_boundary (sdrop n text) ∧ (n <= slen p)%nat).
  { destruct (to_boundary_suffix (sdrop n text)) as [q Hq].
    exists (stake n text +:+ q). rewrite <-sapp_assoc, <-Hq, stake_sdrop. split; [done|].
    pose proof (f_equal slen (stake_sdrop n text)) as Hl.
    rewrite slen_app, slen_sdrop in Hl. rewrite slen_app. lia. }
  destruct Hcut as (p & Hp & Hlen). set (cut := to_boundary (sdrop n text)) in *.
  assert (Hb : (slen cut <= limit)%nat).
  { pose proof (f_equal slen Hp) as Hl. rewrite slen_app in Hl. lia. }
  destruct (split_once "010" cut) as [[x [|c r]]|] eqn:Es;
    try (split_and!; [done|by exists p|lia]).
  apply split_once_app in Es. split_and!; [|exists (p +:+ x +:+ nl)|lia].
  - rewrite Es, slen_app in Hb. unfold slen in *. simpl in *. lia.
  - rewrite Hp at 1. rewrite Es. rewrite <-!sapp_assoc. done.
Qed.

Lemma skip_csi_sub l : skip_csi l `suffix_of` l.
Proof.
  induction l as [|c l IH]; simpl; [done|].
  assert (skip_csi l `suffix_of` c :: l) by (by apply suffix_cons_r).
  assert (l `suffix_of` c :: l) by (by apply suffix_cons_r).
  repeat case_match; done.
Qed.

Lemma skip_osc_sub l : skip_osc l `suffix_of` l.
Proof.
  induction l as [|c l IH]; simpl; [done|].
  destruct (str_eqb c BEL); [by apply suffix_cons_r|].
  destruct (str_eqb c ESC); [|by apply suffix_cons_r].
  destruct l as [|b l'']; [by apply suffix_nil|].
  destruct (str_eqb b "\"); [by do 2 apply suffix_cons_r | by apply suffix_cons_r].
Qed.

Lemma suffix_Forall {A} (P : A → Prop) l k : l `suffix_of` k → Forall P k → Forall P l.
Proof. intros [p ->] H. by apply Forall_app in H as [_ ?]. Qed.

Lemma strip_loop_clean fuel l :
  Forall char_shape l → Forall (λ w, contains_char "027" w = false) (strip_loop fuel l).
Proof.
  revert l. induction fuel as [|fuel IH]; intros l Hl; simpl; [constructor|].
  destruct l as [|c l]; [constructor|]. inversion Hl as [|?? Hc Hl']; subst.
  destruct (str_eqb c ESC) eqn:Ec; simpl.
  - destruct l as [|d l]; [constructor|]. inversion Hl'; subst.
    destruct (str_eqb d "["); [|destruct (str_eqb d "]")]; apply IH; [| |done].
    + eapply suffix_Forall; [apply skip_csi_sub|done].
    + eapply suffix_Forall; [apply skip_osc_sub|done].
  - constructor; [|by apply IH]. apply str_eqb_false in Ec.
    destruct (contains_char "027" c) eqn:E; [|done].
    exfalso. apply Ec. apply char_shape_ascii; [done| |done]. by apply Nat.ltb_lt.
Qed.

Lemma contains_char_concat c l :
  Forall (λ w, contains_char c w = false) l ↔ contains_char c (concat_str l) = false.
Proof.
  induction l as [|w l IH]; simpl; [split; [done|constructor]|].
  rewrite contains_char_app, orb_false_iff, Forall_cons. by rewrite IH.
Qed.

Lemma strip_loop_id fuel l :
  (length l <= fuel)%nat → Forall (λ w, contains_char "027" w = false) l → strip_loop fuel l = l.
Proof.
  revert l. induction fuel as [|fuel IH]; intros [|c l] Hf Hl; simpl in *; try done; [lia|].
  inversion Hl as [|?? Hc Hl']; subst. destruct (str_eqb c ESC) eqn:E; simpl.
  - apply str_eqb_true in E. by subst.
  - f_equal. apply IH; [lia|done].
Qed.

(** Stripping leaves no escape character, keeps a text without one unchanged, and is
    idempotent. *)
Theorem strip_ansi_clean text :
  contains_char "027" (strip_ansi text) = false ∧
  (contains_char "027" text = false → strip_ansi text = text) ∧
  strip_ansi (strip_ansi text) = strip_ansi text.
Proof.
  assert (Hclean : ∀ t, contains_char "027" (strip_ansi t) = false).
  { intros t. apply contains_char_concat, strip_loop_clean, chars_shape. }
  assert (Hid : ∀ t, contains_char "027" t = false → strip_ansi t = t).
  { intros t Ht. unfold strip_ansi. rewrite strip_loop_id; [apply concat_chars|done|].
    apply contains_char_concat. by rewrite concat_chars. }
  split_and!; [apply Hclean|apply Hid|by apply Hid, Hclean].
Qed.
