(* ===== verification/Settle.v ===== *)
(** * The settle table

    [crates/quasar-recovery/src/settle.rs]: what a start does with an attempt a restart left
    open, by the journal and by which process asks, together with the hand-over's count of
    successor starts ([handover.rs::count_successor_start]). *)
From S2P Require Import Prelude Platform Wire Journal.

Definition MAX_SUCCESSOR_STARTS : Z := 3.
Definition RECOVERY_ACTOR : string := "recovery-actor".

Inductive Party :=
| Old
| Successor
| Stranger (on_new_image : bool).

#[global] Instance Party_eq_dec : EqDecision Party.
Proof. solve_decision. Defined.

Inductive Settlement := Terminal | SettleInterrupted | Continue | SettleRestore | Yield.

#[global] Instance Settlement_eq_dec : EqDecision Settlement.
Proof. solve_decision. Defined.

Definition actor_step (phase : Phase) (starts : Z) (party : Party) : Settlement :=
  match phase, party with
  | PhRestoring, _ => SettleRestore
  | PhHandingBack, Successor => Yield
  | PhHandingBack, _ => SettleRestore
  | (PhVerified | PhOldDiscarded), Old => Yield
  | (PhVerified | PhOldDiscarded), Stranger false => SettleRestore
  | (PhVerified | PhOldDiscarded), _ => Continue
  | _, Successor =>
      if touched_old phase && (MAX_SUCCESSOR_STARTS <=? starts)%Z then SettleRestore else Continue
  | _, _ => if touched_old phase then SettleRestore else SettleInterrupted
  end.

Definition is_actor (s : Step) : bool := str_eqb (st_name s) RECOVERY_ACTOR.

(** [steps.iter().take(i).any(|s| s.name == RECOVERY_ACTOR && s.phase == Done)] *)
Definition actor_done_before (j : Journal) (i : nat) : bool :=
  existsb (λ s, is_actor s && is_done s) (take i (j_steps j)).

Definition settle (j : Journal) (party : Party) : Settlement :=
  if negb (is_open j) then Terminal
  else match j_restore j with
  | Some r => if restore_touched (r_phase r) then Continue else SettleInterrupted
  | None =>
      match current j with
      | None => Continue
      | Some i =>
          match j_steps j !! i with
          | None => Continue
          | Some step =>
              if is_actor step then actor_step (st_phase step) (successor_starts step) party
              else if actor_done_before j i && bool_decide (party = Old) then Yield
              else if touched_old (st_phase step) then Continue else SettleInterrupted
          end
      end
  end.

(** [step.successor_starts += 1] and, when none is recorded, its own container. *)
Definition bump_starts (me : option string) (s : Step) : Step :=
  mkStep (st_name s) (st_image s) (st_phase s) (old_container s) (old_restart s) (old_digest s)
    (st_revision s) (st_spec s)
    (match new_container s with None => me | n => n end)
    (st_failure s) (successor_starts s + 1) (migrating s) (st_dump s).

(** [Actor::count_successor_start]: the journal to commit, or [None] when nothing is counted. *)
Definition count_successor_start (me : option string) (j : Journal) (party : Party) : option Journal :=
  if negb (bool_decide (party = Successor)) || negb (is_open j) then None
  else match current j with
  | None => None
  | Some i =>
      match j_steps j !! i with
      | None => None
      | Some s =>
          if negb (is_actor s) || negb (touched_old (st_phase s))
             || bool_decide (st_phase s = PhRestoring) || bool_decide (st_phase s = PhHandingBack)
          then None
          else Some (update_step i (bump_starts me) j)
      end
  end.

(** ** Reading the table *)

(** Whether the component an open journal is at has (or may have) lost its old container. *)
Definition touched (j : Journal) : bool :=
  match j_restore j with
  | Some r => restore_touched (r_phase r)
  | None => match current j with
            | Some i => match j_steps j !! i with
                        | Some s => touched_old (st_phase s)
                        | None => true
                        end
            | None => true
            end
  end.

Lemma settle_closed j p : settle j p = Terminal ↔ is_open j = false.
Proof.
  unfold settle. destruct (is_open j); simpl; [|done]. split; [|done].
  repeat (case_match; try done); destruct p; try done.
  all: unfold actor_step in *; repeat case_match; done.
Qed.

Lemma actor_step_interrupted ph n p : actor_step ph n p = SettleInterrupted → touched_old ph = false.
Proof. destruct ph, p as [| |[]]; simpl; try done; by destruct (_ <=? _)%Z. Qed.

(** An attempt is ended as interrupted only while the current component's old container is
    untouched: a component already taken out of service is always continued, restored, or
    left to the process that does so. *)
Theorem settle_interrupted_untouched j p : settle j p = SettleInterrupted → touched j = false.
Proof.
  unfold settle, touched. destruct (is_open j); simpl; [|done].
  destruct (j_restore j) as [r|]; [by destruct (restore_touched _)|].
  destruct (current j) as [i|]; [|done]. destruct (j_steps j !! i) as [s|]; [|done].
  destruct (is_actor s); [apply actor_step_interrupted|].
  destruct (_ && _); [done|]. by destruct (touched_old _).
Qed.

(** An attempt is never left to nobody: when the old actor yields, the successor it yields to
    does not, and the other way round; a stranger never yields. *)
Theorem settle_yield_has_taker j :
  (settle j Old = Yield → settle j Successor ≠ Yield ∧ settle j Successor ≠ Terminal) ∧
  (settle j Successor = Yield → settle j Old ≠ Yield ∧ settle j Old ≠ Terminal) ∧
  (∀ b, settle j (Stranger b) ≠ Yield).
Proof.
  unfold settle. destruct (is_open j); simpl; [|done].
  destruct (j_restore j) as [r|]; [by destruct (restore_touched _)|].
  destruct (current j) as [i|]; [|done]. destruct (j_steps j !! i) as [s|]; [|done].
  destruct (is_actor s).
  - destruct (st_phase s); simpl; split_and!; try done; try (intros []; done);
      by destruct (_ <=? _)%Z.
  - destruct (actor_done_before j i), (touched_old (st_phase s)); simpl; done.
Qed.

(** The hand-over has one driver: on the recovery actor's own component the old actor never
    continues, whatever the phase; only the successor does, or, once the new image is
    verified, an actor already on it. *)
Theorem settle_handover_driver j i s p :
  current j = Some i → j_steps j !! i = Some s → is_actor s = true → j_restore j = None →
  settle j p = Continue → p = Successor ∨ (p = Stranger true ∧ st_phase s ∈ [PhVerified; PhOldDiscarded]).
Proof.
  intros Hi Hs Ha Hr. unfold settle. rewrite Hr, Hi, Hs, Ha. destruct (is_open j); [|done]. simpl.
  destruct p as [| |b]; [|by left|]; destruct (st_phase s); simpl; try done;
    destruct b; try done; intros _; right; (split; [done|set_solver]).
Qed.

(** ** A successor that crash-loops *)

(** One start of a successor: the count, then the table. *)
Definition successor_start (me : option string) (j : Journal) : Journal * Settlement :=
  let j' := default j (count_successor_start me j Successor) in (j', settle j' Successor).

(** The phases a successor can crash-loop in: taken out of service, not yet verified. *)
Definition unverified_handover (ph : Phase) : bool :=
  touched_old ph && negb (bool_decide (ph ∈ [PhVerified; PhOldDiscarded; PhRestoring; PhHandingBack; PhDone])).

Lemma update_step_lookup i f j s :
  j_steps j !! i = Some s → j_steps (update_step i f j) !! i = Some (f s).
Proof. intros H. simpl. by rewrite list_lookup_alter, decide_True, H. Qed.

Lemma position_alter {A} (p : A → bool) (f : A → A) l i :
  (∀ x, p (f x) = p x) → position p (alter f i l) = position p l.
Proof.
  intros Hf. revert i. induction l as [|x l IH]; intros [|i]; cbn; try done.
  - by rewrite Hf.
  - change (list_alter f i l) with (alter f i l). by rewrite IH.
Qed.

Lemma bump_current me i j : current (update_step i (bump_starts me) j) = current j.
Proof. apply position_alter. done. Qed.

(** A successor that keeps starting gives the machine back: on a hand-over it has not
    verified, the start that finds [n] earlier ones counted is told to restore as soon as
    [n + 1] reaches [MAX_SUCCESSOR_STARTS], and the count it leaves is [n + 1]. *)
Theorem successor_gives_back me j i s :
  is_open j = true → j_restore j = None → current j = Some i → j_steps j !! i = Some s →
  is_actor s = true → unverified_handover (st_phase s) = true →
  ∃ s', j_steps (successor_start me j).1 !! i = Some s' ∧
    st_phase s' = st_phase s ∧ successor_starts s' = (successor_starts s + 1)%Z ∧
    ((successor_start me j).2 = SettleRestore ↔ (MAX_SUCCESSOR_STARTS <= successor_starts s + 1)%Z).
Proof.
  intros Ho Hr Hi Hs Ha Hp. exists (bump_starts me s).
  assert (Hc : count_successor_start me j Successor = Some (update_step i (bump_starts me) j)).
  { unfold count_successor_start. rewrite Ho, Hi, Hs, Ha. simpl.
    unfold unverified_handover in Hp. destruct (st_phase s); simpl in *; done. }
  unfold successor_start. rewrite Hc. cbn [from_option id fst snd].
  split_and!; [by apply update_step_lookup | done | done |].
  assert (Ho' : is_open (update_step i (bump_starts me) j) = true) by exact Ho.
  assert (Hr' : j_restore (update_step i (bump_starts me) j) = None) by exact Hr.
  unfold settle. rewrite Ho', Hr', bump_current, Hi, (update_step_lookup _ _ _ _ Hs).
  change (is_actor (bump_starts me s)) with (is_actor s). rewrite Ha. cbn [negb st_phase bump_starts successor_starts].
  unfold unverified_handover in Hp.
  destruct (st_phase s); simpl in *; try done;
    destruct (Z.leb_spec MAX_SUCCESSOR_STARTS (successor_starts s + 1)); naive_solver lia.
Qed.
