(* ===== verification/Base64.v ===== *)
(** * Standard base64, as Go decodes it

    [crates/quasar-recovery/src/trust/golang/base64.rs]: the decoder the release trust reads
    keys and signatures with. A byte is a [Z] in [0..256). The reference is the encoder of
    RFC 4648 ([encode_std]), which the program does not have. *)
From S2P Require Import Prelude.
Local Open Scope Z_scope.

Definition in_range (lo hi c : Z) : bool := (lo <=? c) && (c <=? hi).

(** [value] *)
Definition value (c : Z) : option Z :=
  if in_range 65 90 c then Some (c - 65)
  else if in_range 97 122 c then Some (c - 97 + 26)
  else if in_range 48 57 c then Some (c - 48 + 52)
  else if c =? 43 then Some 62
  else if c =? 47 then Some 63
  else None.

Definition is_newline (c : Z) : bool := (c =? 10) || (c =? 13).

(** [while si < src.len() && is_newline(src[si]) { si += 1 }], over what is left of [src]. *)
Fixpoint skip_newlines (rest : list Z) (si : Z) : list Z * Z :=
  match rest with
  | c :: rest' => if is_newline c then skip_newlines rest' (si + 1) else (rest, si)
  | [] => ([], si)
  end.

(** What the [while j < 4] loop of [quantum] comes to: the digits read with where reading goes
    on (and whether something follows the padding), the end of the input, or an offset. *)
Inductive filled :=
| Digits (dbuf : list Z) (rest : list Z) (si : Z) (err : option Z)
| AtEnd
| Corrupt_at (offset : Z).

(** The arm of [=]: [rest] and [si] are what follows it. *)
Definition after_padding (dbuf : list Z) (rest : list Z) (si : Z) : filled :=
  let (rest', si') := skip_newlines rest si in
  Digits dbuf rest' si' (match rest' with [] => None | _ => Some si' end).

Definition padding (dbuf : list Z) (rest : list Z) (si : Z) : filled :=
  match length dbuf with
  | 0%nat | 1%nat => Corrupt_at (si - 1)
  | 2%nat =>
      let (rest', si') := skip_newlines rest si in
      match rest' with
      | [] => Corrupt_at si'
      | c :: rest'' => if negb (c =? 61) then Corrupt_at (si' - 1)
                       else after_padding dbuf rest'' (si' + 1)
      end
  | _ => after_padding dbuf rest si
  end.

Fixpoint fill (rest : list Z) (si : Z) (dbuf : list Z) : filled :=
  match rest with
  | [] => match dbuf with [] => AtEnd | _ => Corrupt_at (si - Z.of_nat (length dbuf)) end
  | c :: rest' =>
      match value c with
      | Some v =>
          let dbuf := dbuf ++ [v] in
          if (length dbuf =? 4)%nat then Digits dbuf rest' (si + 1) None
          else fill rest' (si + 1) dbuf
      | None =>
          if is_newline c then fill rest' (si + 1) dbuf
          else if negb (c =? 61) then Corrupt_at si
          else padding dbuf rest' (si + 1)
      end
  end.

(** [as u8] *)
Definition as_u8 (x : Z) : Z := Z.land x 255.

Definition digit (dbuf : list Z) (k : nat) : Z := default 0 (dbuf !! k).

(** The bytes a quantum of [length dbuf] digits stands for. *)
Definition quantum_bytes (dbuf : list Z) : list Z :=
  let v := Z.lor (Z.shiftl (digit dbuf 0) 18) (Z.lor (Z.shiftl (digit dbuf 1) 12)
             (Z.lor (Z.shiftl (digit dbuf 2) 6) (digit dbuf 3))) in
  take (length dbuf - 1) [as_u8 (Z.shiftr v 16); as_u8 (Z.shiftr v 8); as_u8 v].

(** [decode_std]; each quantum consumes at least one byte, so [fuel] of the input's length is
    enough. *)
Fixpoint decode_loop (fuel : nat) (rest : list Z) (si : Z) (out : list Z) : result (list Z) Z :=
  match rest, fuel with
  | [], _ | _, O => Ok out
  | _, S fuel' =>
      match fill rest si [] with
      | AtEnd => Ok out
      | Corrupt_at offset => Err offset
      | Digits dbuf rest' si' err =>
          match err with
          | Some offset => Err offset
          | None => decode_loop fuel' rest' si' (out ++ quantum_bytes dbuf)
          end
      end
  end.

Definition decode_std (src : list Z) : result (list Z) Z := decode_loop (length src) src 0 [].

(** ** The reference encoder *)

Definition char_of (v : Z) : Z :=
  if v <? 26 then v + 65
  else if v <? 52 then v - 26 + 97
  else if v <? 62 then v - 52 + 48
  else if v =? 62 then 43 else 47.

Fixpoint encode_std (bs : list Z) : list Z :=
  match bs with
  | b0 :: b1 :: b2 :: bs' =>
      char_of (b0 / 4) :: char_of (b0 mod 4 * 16 + b1 / 16)
      :: char_of (b1 mod 16 * 4 + b2 / 64) :: char_of (b2 mod 64) :: encode_std bs'
  | [b0; b1] => [char_of (b0 / 4); char_of (b0 mod 4 * 16 + b1 / 16); char_of (b1 mod 16 * 4); 61]
  | [b0] => [char_of (b0 / 4); char_of (b0 mod 4 * 16); 61; 61]
  | [] => []
  end.

Definition bytes_ok (bs : list Z) : Prop := Forall (λ b, 0 <= b < 256) bs.

Definition ascii_bytes (s : string) : list Z := map Z.of_nat (bytes_of s).

Example decode_ex :
  map (λ s, decode_std (ascii_bytes s)) ["AA=="; "AB=="; "AA"; "AA==x"; "AAA="; " AA=="; "AA==AA=="; "=AAA"; "nope"; ""]
  = [Ok [0]; Ok [0]; Err 0; Err 4; Ok [0; 0]; Err 0; Err 4; Err 0; Ok [158; 138; 94]; Ok []].
Proof. reflexivity. Qed.

(** ** Bits *)

Lemma lor_shift a b n : 0 <= n → 0 <= b < 2 ^ n → Z.lor (Z.shiftl a n) b = a * 2 ^ n + b.
Proof.
  intros Hn Hb. rewrite <- Z.shiftl_mul_pow2 by done.
  assert (Z.land (Z.shiftl a n) b = 0) as Hl.
  { apply Z.bits_inj'. intros k Hk. rewrite Z.land_spec, Z.bits_0, Z.shiftl_spec by done.
    destruct (Z.lt_ge_cases k n) as [H|H]; [by rewrite Z.testbit_neg_r by lia|].
    rewrite <- (Z.mod_small b (2 ^ n)) by done.
    by rewrite Z.mod_pow2_bits_high, andb_false_r by lia. }
  by rewrite Z.add_nocarry_lxor, Z.lxor_lor.
Qed.

Lemma as_u8_mod x : as_u8 x = x mod 256.
Proof. exact (Z.land_ones x 8 ltac:(lia)). Qed.

(** A quantum's value, by its digits. *)
Lemma quantum_value d0 d1 d2 d3 :
  0 <= d1 < 64 → 0 <= d2 < 64 → 0 <= d3 < 64 →
  Z.lor (Z.shiftl d0 18) (Z.lor (Z.shiftl d1 12) (Z.lor (Z.shiftl d2 6) d3))
  = d0 * 262144 + d1 * 4096 + d2 * 64 + d3.
Proof.
  intros H1 H2 H3. rewrite (lor_shift d2 d3 6) by (simpl; lia).
  rewrite (lor_shift d1 _ 12) by (simpl; lia). rewrite (lor_shift d0 _ 18) by (simpl; lia). simpl. lia.
Qed.

Lemma bytes_of_value v :
  [as_u8 (Z.shiftr v 16); as_u8 (Z.shiftr v 8); as_u8 v] =
  [v / 65536 mod 256; v / 256 mod 256; v mod 256].
Proof. by rewrite !as_u8_mod, !Z.shiftr_div_pow2 by lia. Qed.

Lemma quantum_bytes_3 b0 b1 b2 :
  0 <= b0 < 256 → 0 <= b1 < 256 → 0 <= b2 < 256 →
  quantum_bytes [b0 / 4; b0 mod 4 * 16 + b1 / 16; b1 mod 16 * 4 + b2 / 64; b2 mod 64] = [b0; b1; b2].
Proof.
  intros H0 H1 H2. unfold quantum_bytes, digit. cbn [lookup list_lookup from_option id length Nat.sub].
  rewrite quantum_value, bytes_of_value by (Z.to_euclidean_division_equations; lia). simpl.
  repeat f_equal; Z.to_euclidean_division_equations; lia.
Qed.

Lemma quantum_bytes_2 b0 b1 :
  0 <= b0 < 256 → 0 <= b1 < 256 →
  quantum_bytes [b0 / 4; b0 mod 4 * 16 + b1 / 16; b1 mod 16 * 4] = [b0; b1].
Proof.
  intros H0 H1. unfold quantum_bytes, digit. cbn [lookup list_lookup from_option id length Nat.sub].
  rewrite quantum_value, bytes_of_value by (Z.to_euclidean_division_equations; lia). simpl.
  repeat f_equal; Z.to_euclidean_division_equations; lia.
Qed.

Lemma quantum_bytes_1 b0 :
  0 <= b0 < 256 → quantum_bytes [b0 / 4; b0 mod 4 * 16] = [b0].
Proof.
  intros H0. unfold quantum_bytes, digit. cbn [lookup list_lookup from_option id length Nat.sub].
  rewrite quantum_value, bytes_of_value by (Z.to_euclidean_division_equations; lia). simpl.
  repeat f_equal; Z.to_euclidean_division_equations; lia.
Qed.

(** A fact decided on each of a range's integers. *)
Lemma range_forall (f : Z → bool) n :
  forallb f (seqZ 0 n) = true → ∀ v, 0 <= v < n → f v = true.
Proof.
  intros H v Hv. rewrite List.forallb_forall in H. apply H, list_elem_of_In, elem_of_seqZ. lia.
Qed.

Lemma value_char_of v : 0 <= v < 64 → value (char_of v) = Some v.
Proof.
  intros Hv.
  pose proof (range_forall (λ v, match value (char_of v) with Some w => w =? v | None => false end) 64
    ltac:(vm_compute; reflexivity) v Hv) as H. simpl in H.
  destruct (value (char_of v)); [|done]. apply Z.eqb_eq in H. by subst.
Qed.

(** ** Reading past newlines *)

(** What is left of the input, its newlines dropped. *)
Definition visible (rest : list Z) : list Z := List.filter (λ c, negb (is_newline c)) rest.

Lemma value_not_newline c v : value c = Some v → is_newline c = false.
Proof.
  unfold value, is_newline, in_range. intros H. apply orb_false_iff. rewrite !Z.eqb_neq.
  split; intros ->; vm_compute in H; discriminate.
Qed.

(** One digit is read, however many newlines come before it. *)
Lemma fill_digit rest c v more si dbuf :
  visible rest = c :: more → value c = Some v →
  ∃ rest' si', (length rest' < length rest)%nat ∧ visible rest' = more ∧
    fill rest si dbuf = if (length (dbuf ++ [v]) =? 4)%nat then Digits (dbuf ++ [v]) rest' si' None
                        else fill rest' si' (dbuf ++ [v]).
Proof.
  intros Hv Hc. revert si. induction rest as [|x rest IH]; intros si; simpl in Hv; [done|].
  destruct (is_newline x) eqn:Hn; simpl in Hv.
  - destruct (IH Hv (si + 1)) as (rest' & si' & Hl & Hvis & Hf). exists rest', si'.
    split_and!; [simpl; lia|done|]. simpl.
    destruct (value x) eqn:Hx; [by rewrite (value_not_newline _ _ Hx) in Hn|]. by rewrite Hn.
  - simplify_eq. exists rest, (si + 1). split_and!; [simpl; lia|done|]. simpl. by rewrite Hc.
Qed.

Lemma skip_newlines_visible rest si :
  visible (skip_newlines rest si).1 = visible rest ∧
  (length (skip_newlines rest si).1 <= length rest)%nat ∧
  match (skip_newlines rest si).1 with c :: _ => is_newline c = false | [] => True end.
Proof.
  revert si. induction rest as [|c rest IH]; intros si; simpl; [done|].
  destruct (is_newline c) eqn:Hn; simpl.
  - destruct (IH (si + 1)) as (? & ? & ?). split_and!; [done|lia|done].
  - rewrite Hn. split_and!; [done|lia|done].
Qed.

Lemma skip_newlines_cons rest si c more :
  visible rest = c :: more →
  ∃ rest' si', skip_newlines rest si = (c :: rest', si') ∧ visible rest' = more.
Proof.
  intros Hv. pose proof (skip_newlines_visible rest si) as (H1 & H2 & H3).
  destruct (skip_newlines rest si) as [r si']. simpl in *. rewrite Hv in H1.
  destruct r as [|x r]; [done|]. simpl in H1. rewrite H3 in H1. simpl in H1. simplify_eq. by exists r, si'.
Qed.

Lemma skip_newlines_nil rest si : visible rest = [] → ∃ si', skip_newlines rest si = ([], si').
Proof.
  intros Hv. pose proof (skip_newlines_visible rest si) as (H1 & _ & H3).
  destruct (skip_newlines rest si) as [r si']. simpl in *. rewrite Hv in H1.
  destruct r as [|x r]; [by exists si'|]. simpl in H1. by rewrite H3 in H1.
Qed.

Lemma after_padding_end rest si dbuf :
  visible rest = [] → ∃ si', after_padding dbuf rest si = Digits dbuf [] si' None.
Proof.
  intros Hv. unfold after_padding. destruct (skip_newlines_nil rest si Hv) as [si' ->]. by exists si'.
Qed.

(** The [=] that ends a quantum is read past newlines too. *)
Lemma fill_padding rest more si dbuf :
  visible rest = 61 :: more →
  ∃ rest' si', visible rest' = more ∧ fill rest si dbuf = padding dbuf rest' si'.
Proof.
  intros Hv. revert si. induction rest as [|x rest IH]; intros si; simpl in Hv; [done|].
  destruct (is_newline x) eqn:Hn; simpl in Hv.
  - destruct (IH Hv (si + 1)) as (rest' & si' & Hvis & Hf). exists rest', si'. split; [done|]. simpl.
    destruct (value x) eqn:Hx; [by rewrite (value_not_newline _ _ Hx) in Hn|]. by rewrite Hn.
  - simplify_eq. by exists rest, (si + 1).
Qed.

Lemma fill_newlines rest si : visible rest = [] → fill rest si [] = AtEnd.
Proof.
  revert si. induction rest as [|x rest IH]; intros si; simpl; [done|].
  destruct (is_newline x) eqn:Hn; simpl; [|done]. intros Hv.
  destruct (value x) eqn:Hx; [by rewrite (value_not_newline _ _ Hx) in Hn|]. by apply IH.
Qed.

(** Two digits, three digits, then padding to the end. *)
Lemma fill_pad_2 rest si d0 d1 :
  visible rest = [61; 61] → ∃ si', fill rest si [d0; d1] = Digits [d0; d1] [] si' None.
Proof.
  intros Hv. destruct (fill_padding _ _ si [d0; d1] Hv) as (r1 & s1 & Hv1 & ->). unfold padding. simpl.
  destruct (skip_newlines_cons r1 s1 _ _ Hv1) as (r2 & s2 & -> & Hv2). simpl.
  by apply after_padding_end.
Qed.

Lemma fill_pad_3 rest si d0 d1 d2 :
  visible rest = [61] → ∃ si', fill rest si [d0; d1; d2] = Digits [d0; d1; d2] [] si' None.
Proof.
  intros Hv. destruct (fill_padding _ _ si [d0; d1; d2] Hv) as (r1 & s1 & Hv1 & ->). unfold padding. simpl.
  by apply after_padding_end.
Qed.

Lemma decode_step fuel rest si out :
  rest ≠ [] →
  decode_loop (S fuel) rest si out =
    match fill rest si [] with
    | AtEnd => Ok out
    | Corrupt_at offset => Err offset
    | Digits dbuf rest' si' None => decode_loop fuel rest' si' (out ++ quantum_bytes dbuf)
    | Digits _ _ _ (Some offset) => Err offset
    end.
Proof. by destruct rest. Qed.

Lemma decode_done fuel si out : decode_loop fuel [] si out = Ok out.
Proof. by destruct fuel. Qed.

Ltac read_digit Hv v :=
  let r := fresh "rest" in let s := fresh "si" in let Hl := fresh "Hl" in let Hv' := fresh "Hv" in
  match type of Hv with
  | visible ?rest = char_of ?d :: ?more =>
      match goal with
      | |- context [fill rest ?si ?dbuf] =>
          destruct (fill_digit rest _ d more si dbuf Hv) as (r & s & Hl & Hv' & ->);
            [apply value_char_of; Z.to_euclidean_division_equations; lia|]; clear Hv; rename Hv' into Hv;
            cbn [app length Nat.eqb]
      end
  end.

Lemma decode_encoded fuel rest si out bs :
  bytes_ok bs → visible rest = encode_std bs → (length rest <= fuel)%nat →
  decode_loop fuel rest si out = Ok (out ++ bs).
Proof.
  revert rest si out bs. induction fuel as [|fuel IH]; intros rest si out bs Hbs Hv Hl.
  { destruct rest; [|simpl in Hl; lia]. destruct bs as [|? [|? [|]]]; try done. by rewrite app_nil_r. }
  destruct (decide (rest = [])) as [->|Hne].
  { destruct bs as [|? [|? [|]]]; try done. simpl. by rewrite app_nil_r. }
  rewrite decode_step by done.
  destruct bs as [|b0 [|b1 [|b2 bs]]]; simpl in Hv.
  - rewrite fill_newlines by done. by rewrite app_nil_r.
  - inversion Hbs as [|? ? H0 _]; subst. read_digit Hv v. read_digit Hv v.
    destruct (fill_pad_2 _ si1 (b0 / 4) (b0 mod 4 * 16) Hv) as [si' ->].
    by rewrite decode_done, quantum_bytes_1.
  - inversion Hbs as [|? ? H0 Hbs']; subst. inversion Hbs' as [|? ? H1 _]; subst.
    read_digit Hv v. read_digit Hv v. read_digit Hv v.
    destruct (fill_pad_3 _ si2 (b0 / 4) (b0 mod 4 * 16 + b1 / 16) (b1 mod 16 * 4) Hv) as [si' ->].
    by rewrite decode_done, quantum_bytes_2.
  - inversion Hbs as [|? ? H0 Hbs1]; subst. inversion Hbs1 as [|? ? H1 Hbs2]; subst.
    inversion Hbs2 as [|? ? H2 Hbs3]; subst.
    read_digit Hv v. read_digit Hv v. read_digit Hv v. read_digit Hv v.
    rewrite quantum_bytes_3 by done. rewrite (IH _ _ _ bs); [by rewrite <- app_assoc|done|done|lia].
Qed.

(** Decoding inverts the standard encoding: whatever carriage returns and line feeds are
    mixed into the base64 of some bytes, those bytes come back. *)
Theorem decode_std_roundtrip bs src :
  bytes_ok bs → visible src = encode_std bs → decode_std src = Ok bs.
Proof. intros H Hv. unfold decode_std. by rewrite (decode_encoded _ _ _ _ bs). Qed.

Lemma decode_std_roundtrip_witness :
  decode_std (ascii_bytes "cX" ++ [13; 10] ++ ascii_bytes "Vhc2Fy" ++ [10]) = Ok (ascii_bytes "quasar").
Proof.
  apply (decode_std_roundtrip (ascii_bytes "quasar")).
  - repeat constructor; vm_compute; congruence.
  - vm_compute. reflexivity.
Defined.
