(* ===== verification/GoText.v ===== *)
(** * Go's text functions

    [crates/quasar-recovery/src/trust/golang/text.rs]: [strings.TrimSpace], the keyword form of
    [strings.ToLower] and [strconv.Quote], which spells every value a refusal names. Bytes are
    [Z]s in [0..256), runes code points. *)
From S2P Require Import Prelude Base64.
Local Open Scope Z_scope.

Definition trim_space (s : string) : string := trim s.

Definition string_of_bytes (l : list Z) : string :=
  foldr (λ b s, String (ascii_of_nat (Z.to_nat b)) s) EmptyString l.

(** [to_lower_ascii_keyword], over the characters: U+0130 lowers to [i], U+212A to [k]. *)
Definition lower_keyword_char (ch : string) : string :=
  match ascii_bytes ch with
  | [196; 176] => "i"
  | [226; 132; 170] => "k"
  | _ => match ch with String c EmptyString => String (lower_ascii c) EmptyString | _ => ch end
  end.

Definition to_lower_ascii_keyword (s : string) : string :=
  concat_str (map lower_keyword_char (chars s)).

(** [decode_rune]: one rune and its width, or (U+FFFD, 1) for any invalid sequence. *)
Definition cont (c : Z) : bool := in_range 128 191 c.
Definition INVALID : Z * nat := (65533, 1%nat).

Definition decode_rune (b : list Z) : Z * nat :=
  match b with
  | [] => (65533, 0%nat)
  | c0 :: b' =>
      if in_range 0 127 c0 then (c0, 1%nat)
      else if in_range 194 223 c0
      then match b' with
           | c1 :: _ => if cont c1 then ((c0 - 192) * 64 + (c1 - 128), 2%nat) else INVALID
           | _ => INVALID
           end
      else if in_range 224 239 c0
      then match b' with
           | c1 :: c2 :: _ =>
               if cont c1 && cont c2 && negb ((c0 =? 224) && (c1 <? 160)) && negb ((c0 =? 237) && (159 <? c1))
               then ((c0 - 224) * 4096 + (c1 - 128) * 64 + (c2 - 128), 3%nat) else INVALID
           | _ => INVALID
           end
      else if in_range 240 244 c0
      then match b' with
           | c1 :: c2 :: c3 :: _ =>
               if cont c1 && cont c2 && cont c3 && negb ((c0 =? 240) && (c1 <? 144)) && negb ((c0 =? 244) && (143 <? c1))
               then ((c0 - 240) * 262144 + (c1 - 128) * 4096 + (c2 - 128) * 64 + (c3 - 128), 4%nat) else INVALID
           | _ => INVALID
           end
      else INVALID
  end.

(** [is_print] *)
Definition is_control (u : Z) : bool := in_range 0 31 u || in_range 127 159 u.
Definition is_white (u : Z) : bool :=
  in_range 9 13 u || (u =? 32) || (u =? 133) || (u =? 160) || (u =? 5760) || in_range 8192 8202 u
  || (u =? 8232) || (u =? 8233) || (u =? 8239) || (u =? 8287) || (u =? 12288).
Definition is_format (u : Z) : bool :=
  (u =? 173) || in_range 1536 1541 u || (u =? 1564) || (u =? 1757) || (u =? 1807) || (u =? 6158)
  || in_range 8203 8207 u || in_range 8234 8238 u || in_range 8288 8292 u || in_range 8294 8303 u
  || (u =? 65279) || in_range 65529 65531 u || (u =? 69821) || in_range 113824 113827 u
  || in_range 119155 119162 u || (u =? 917505) || in_range 917536 917631 u.
Definition is_private (u : Z) : bool := in_range 57344 63743 u || in_range 983040 1114111 u.
Definition is_nonchar (u : Z) : bool := in_range 64976 65007 u || (Z.land u 65534 =? 65534).

Definition is_print (u : Z) : bool :=
  if u <? 128 then in_range 32 126 u
  else negb (is_control u) && negb (is_white u) && negb (is_format u) && negb (is_private u)
       && negb (is_nonchar u).

(** [{:0nx}] *)
Definition hex_digit (d : Z) : Z := if d <? 10 then d + 48 else d - 10 + 97.
Fixpoint hex (n : nat) (x : Z) : list Z :=
  match n with O => [] | S n' => hex n' (x / 16) ++ [hex_digit (x mod 16)] end.

(** One rune's spelling; [raw] are the bytes it was read from. *)
Definition quote_rune (r : Z) (raw : list Z) : list Z :=
  if r =? 34 then [92; 34]
  else if r =? 92 then [92; 92]
  else if is_print r then raw
  else if r =? 7 then [92; 97]
  else if r =? 8 then [92; 98]
  else if r =? 12 then [92; 102]
  else if r =? 10 then [92; 110]
  else if r =? 13 then [92; 114]
  else if r =? 9 then [92; 116]
  else if r =? 11 then [92; 118]
  else if (r <? 32) || (r =? 127) then [92; 120] ++ hex 2 r
  else if r <? 65536 then [92; 117] ++ hex 4 r
  else [92; 85] ++ hex 8 r.

(** The loop of [quote_bytes]; each turn consumes at least one byte. *)
Fixpoint quote_loop (fuel : nat) (b : list Z) : list Z :=
  match b, fuel with
  | [], _ | _, O => []
  | c :: b', S fuel' =>
      let (r, n) := decode_rune b in
      if (r =? 65533) && (n =? 1)%nat then [92; 120] ++ hex 2 c ++ quote_loop fuel' b'
      else quote_rune r (take n b) ++ quote_loop fuel' (drop n b)
  end.

Definition quote_bytes (b : list Z) : list Z := [34] ++ quote_loop (length b) b ++ [34].

Definition quote (s : string) : string := string_of_bytes (quote_bytes (ascii_bytes s)).

Example quote_ex :
  map quote ["nope"; "a" +:+ dq +:+ "b\c"; "x" +:+ string_of_bytes [13; 10; 9; 127; 0]; string_of_bytes [194; 160; 239; 187; 191]; string_of_bytes [107; 255]]
  = [dq +:+ "nope" +:+ dq; dq +:+ "a\" +:+ dq +:+ "b\\c" +:+ dq; dq +:+ "x\r\n\t\x7f\x00" +:+ dq; dq +:+ "\u00a0\ufeff" +:+ dq; dq +:+ "k\xff" +:+ dq].
Proof. vm_compute. reflexivity. Qed.

(** ** A refusal carries no control character *)

(** A byte that starts no terminal or log control sequence. *)
Definition plain (b : Z) : Prop := 32 <= b ∧ b ≠ 127.

Lemma hex_plain n x : Forall plain (hex n x).
Proof.
  revert x. induction n as [|n IH]; intros x; simpl; [done|]. apply Forall_app. split; [apply IH|].
  constructor; [|done]. unfold plain, hex_digit.
  pose proof (Z.mod_pos_bound x 16 ltac:(lia)). destruct (_ <? _) eqn:E; lia.
Qed.

Ltac plain_bytes := repeat (constructor; [unfold plain; lia|]); try done.

Lemma in_range_spec lo hi c : in_range lo hi c = true ↔ lo <= c <= hi.
Proof. unfold in_range. rewrite andb_true_iff, !Z.leb_le. done. Qed.

(** A printable rune is read from bytes that are plain themselves. *)
Lemma decode_rune_plain b r n :
  bytes_ok b → decode_rune b = (r, n) → (r =? 65533) && (n =? 1)%nat = false → b ≠ [] →
  is_print r = true → Forall plain (take n b).
Proof.
  intros Hb Hd Hinv Hne Hp. destruct b as [|c0 b]; [done|]. inversion Hb as [|? ? H0 Hb']; subst.
  unfold decode_rune, INVALID in Hd.
  destruct (in_range 0 127 c0) eqn:E0.
  { simplify_eq. apply in_range_spec in E0. unfold is_print in Hp.
    destruct (r <? 128) eqn:E; [|lia]. apply in_range_spec in Hp. simpl. plain_bytes. }
  assert (128 <= c0) as Hc0 by (unfold in_range in E0; lia).
  assert (∀ c, cont c = true → plain c) as Hcont by (intros c Hc; apply in_range_spec in Hc; split; lia).
  repeat case_match; simplify_eq; try done; rewrite ?andb_true_iff in *; destruct_and?; simpl;
    repeat (constructor; [first [by apply Hcont|split; lia]|]); done.
Qed.

Lemma decode_rune_range b r n : bytes_ok b → decode_rune b = (r, n) → (n <= length b)%nat ∧ (b ≠ [] → 1 <= n)%nat.
Proof.
  intros Hb. unfold decode_rune, INVALID. repeat case_match; intros; simplify_eq; simpl; (split; [lia|intros; lia || done]).
Qed.

Lemma quote_rune_plain r raw : (is_print r = true → Forall plain raw) → Forall plain (quote_rune r raw).
Proof.
  intros Hraw. unfold quote_rune. destruct (is_print r); repeat case_match; auto;
    try (apply Forall_app; split; [|apply hex_plain]); plain_bytes.
Qed.

Lemma quote_loop_plain fuel b : bytes_ok b → Forall plain (quote_loop fuel b).
Proof.
  revert b. induction fuel as [|fuel IH]; intros [|c b] Hb; cbn [quote_loop]; try done.
  inversion Hb as [|? ? Hc Hb']; subst.
  destruct (decode_rune (c :: b)) as [r n] eqn:Hd. destruct (_ && _) eqn:Hinv.
  - plain_bytes. apply Forall_app. split; [apply hex_plain|by apply IH].
  - apply Forall_app. split; [|apply IH; by apply Forall_drop].
    apply quote_rune_plain. by apply decode_rune_plain.
Qed.

(** Whatever bytes a request carries, the quoted form a refusal prints holds no control
    character: no line can be forged and no escape sequence smuggled into a log or a terminal. *)
Theorem quote_no_control b : bytes_ok b → Forall plain (quote_bytes b).
Proof.
  intros Hb. unfold quote_bytes. apply Forall_app. split; [plain_bytes|].
  apply Forall_app. split; [by apply quote_loop_plain|plain_bytes].
Qed.

Lemma quote_no_control_witness : Forall plain (quote_bytes [27; 91; 51; 49; 109; 10]).
Proof. apply quote_no_control. repeat constructor; lia. Defined.
