(* ===== verification/Trust.v ===== *)
(** * Release trust

    [crates/quasar-recovery/src/trust/mod.rs] and [trust/signature.rs]: the gates a request
    passes before anything of it is acted on (its id, single flight, the component table per
    socket, image and digest shape, the namespace allowlist), and ADR 0003's signature gate.
    ed25519 verification and the two JSON decoders are parameters. *)
From S2P Require Import Prelude Base64 GoText Wire.

Inductive Caller := CallerControlPlane | CallerAgent.

#[global] Instance Caller_eq_dec : EqDecision Caller.
Proof. solve_decision. Defined.

Definition DEFAULT_ALLOWED_NAMESPACES : list string := ["ghcr.io/accreleus/quasar"].
Definition COMPONENTS : list string := ["control-plane"; "node-agent"].
Definition AGENT_SOCKET_COMPONENTS : list string := ["node-agent"; "recovery-actor"].

(** ** Shapes *)

(** The hex groups of [UUID_RE] and [DIGEST_RE]: [n] characters of a class, then the rest. *)
Fixpoint eat (f : ascii → bool) (n : nat) (s : string) : option string :=
  match n with
  | O => Some s
  | S n' => match s with
            | String c s' => if f c then eat f n' s' else None
            | EmptyString => None
            end
  end.

Definition eat_dash (s : string) : option string :=
  match s with String c s' => if Ascii.eqb c "-" then Some s' else None | EmptyString => None end.

(** Groups of hex characters, a dash between two. *)
Fixpoint eat_groups (f : ascii → bool) (groups : list nat) (s : string) : option string :=
  match groups with
  | [] => Some s
  | [n] => eat f n s
  | n :: groups' =>
      match eat f n s with
      | Some s1 => match eat_dash s1 with
                   | Some s2 => eat_groups f groups' s2
                   | None => None
                   end
      | None => None
      end
  end.

Definition UUID_GROUPS : list nat := [8; 4; 4; 4; 12].

(** [UUID_RE] *)
Definition uuid_re (s : string) : bool :=
  match eat_groups is_ascii_hexdigit UUID_GROUPS s with
  | Some EmptyString => true
  | _ => false
  end.

Definition is_lower_hex (c : ascii) : bool := is_ascii_digit c || byte_in 97 102 c.

(** [DIGEST_RE] *)
Definition digest_re (s : string) : bool :=
  match strip_prefix "sha256:" s with
  | Some hex => match eat is_lower_hex 64 hex with Some EmptyString => true | _ => false end
  | None => false
  end.

(** [namespace_allowed] *)
Definition in_namespace (image ns : string) : bool :=
  (slen ns + 1 <? slen image)%nat && starts_with ns image
  && match sdrop (slen ns) image with String c _ => Ascii.eqb c "/" | EmptyString => false end.
Definition namespace_allowed (image : string) (allowed : list string) : bool :=
  existsb (in_namespace image) allowed.

(** [image_has_tag_or_digest] *)
Definition image_has_tag_or_digest (image : string) : bool :=
  if contains_char "@" image then true
  else match rsplit_once "/" image with
       | Some (_, last) => contains_char ":" last
       | None => contains_char ":" image
       end.

(** [parse_allowed_namespaces] *)
Definition trim_slashes (s : string) : string :=
  concat_str (reverse (drop_while (λ c, str_eqb c "/") (reverse (chars s)))).
Definition parse_allowed_namespaces (raw : string) : list string :=
  match List.filter (λ ns, negb (str_eqb ns EmptyString))
          (map (λ part, trim_slashes (trim_space part)) (split_on "," raw)) with
  | [] => DEFAULT_ALLOWED_NAMESPACES
  | out => out
  end.

(** ** Signatures *)

Inductive SignatureMode := SigOff | SigVerify | SigRequire.

#[global] Instance SignatureMode_eq_dec : EqDecision SignatureMode.
Proof. solve_decision. Defined.

Definition mode_str (m : SignatureMode) : string :=
  match m with SigOff => "off" | SigVerify => "verify" | SigRequire => "require" end.

Record TrustedKey := mkTrustedKey { tk_id : string; tk_key : list Z }.

Record SignaturePolicy := mkSignaturePolicy { sp_mode : SignatureMode; sp_keys : list TrustedKey }.

Definition sig_enabled (p : SignaturePolicy) : bool := negb (bool_decide (sp_mode p = SigOff)).

Definition key_label (id : string) : string := if str_eqb id EmptyString then "(unlabelled)" else id.

Inductive SignatureEvidence :=
| Signed (manifest signature : list Z)
| Absent (why : string)
| FetchError (error : string).

(** The decoded documents ([golang/json.rs]). *)
Record SigEntry := mkSigEntry { se_algorithm : string; se_key_id : string; se_signature : string }.
Record SigDocument := mkSigDocument { sd_format_version : Z; sd_signatures : list SigEntry }.
Inductive DocumentError := DocJson (e : string) | TrailingContent.
Record ManifestComponent := mkManifestComponent { mc_name : string; mc_image : string; mc_digest : string }.
Record SignedManifest := mkSignedManifest { sm_version : string; sm_components : list ManifestComponent }.

Record TrustConfig := mkTrustConfig {
  allowed_namespaces : list string;
  in_flight_request_id : option string;
  tc_signature : SignaturePolicy }.

Record TrustRejection := mkTrustRejection { tr_reason : Reason; tr_message : string }.

Definition reject (r : Reason) (message : string) : TrustRejection := mkTrustRejection r message.

(** [Admitted { unverified }] *)
Record Admission := mkAdmission { unverified : option string }.

(** [order_keys] *)
Definition order_keys (keys : list TrustedKey) (hint : string) : list TrustedKey :=
  if str_eqb hint EmptyString then keys
  else List.filter (λ k, str_eqb (tk_id k) hint) keys
       ++ List.filter (λ k, negb (str_eqb (tk_id k) hint)) keys.

Definition SIGNATURE_ALGORITHM : string := "ed25519".
Definition SIGNATURE_LEN : nat := 64.
Definition PUBLIC_KEY_LEN : nat := 32.

(** [parse_signature_mode] *)
Definition parse_signature_mode (raw : string) : result SignatureMode string :=
  let m := to_lower_ascii_keyword (trim_space raw) in
  if str_eqb m EmptyString || str_eqb m "off" then Ok SigOff
  else if str_eqb m "verify" then Ok SigVerify
  else if str_eqb m "require" then Ok SigRequire
  else Err (quote raw +:+ " is not a signature mode (want off, verify or require)").

(** [label_of]: a key's id, or its first twelve bytes and an ellipsis. *)
Definition label_of (id encoded : string) : string :=
  if negb (str_eqb id EmptyString) then quote id
  else let b := ascii_bytes encoded in
       if (12 <? length b)%nat then string_of_bytes (quote_bytes (take 12 b ++ [226; 128; 166]%Z))
       else quote encoded.

(** [parse_trusted_keys]: one bad entry fails the whole list. *)
Definition parse_key (part : string) : result TrustedKey string :=
  let (id, encoded) := match split_once ":" part with
                       | Some (id, encoded) => (trim_space id, trim_space encoded)
                       | None => (EmptyString, part)
                       end in
  match decode_std (ascii_bytes encoded) with
  | Err offset => Err ("trusted key " +:+ label_of id encoded
                       +:+ " is not standard base64: illegal base64 data at input byte " +:+ pretty offset)
  | Ok key =>
      if (length key =? PUBLIC_KEY_LEN)%nat then Ok (mkTrustedKey id key)
      else Err ("trusted key " +:+ label_of id encoded +:+ " decodes to " +:+ pretty (length key)
                +:+ " bytes, not the 32 of an ed25519 public key")
  end.

Fixpoint parse_keys (out : list TrustedKey) (parts : list string) : result (list TrustedKey) string :=
  match parts with
  | [] => Ok out
  | part :: parts' =>
      let part := trim_space part in
      if str_eqb part EmptyString then parse_keys out parts'
      else let? k := parse_key part in
           if existsb (λ o, bool_decide (tk_key o = tk_key k)) out then parse_keys out parts'
           else parse_keys (out ++ [k]) parts'
  end.

Definition parse_trusted_keys (raw : string) : result (list TrustedKey) string :=
  parse_keys [] (split_on "," raw).

(** ed25519 and the decoders, which the gate calls. *)
Class TrustDeps := mkTrustDeps {
  ed25519_verify : list Z → list Z → list Z → bool;
  decode_signature_document : list Z → result SigDocument DocumentError;
  unmarshal_signed_manifest : list Z → result SignedManifest string }.

Section trust.
Context `{!TrustDeps}.

(** The signature an entry carries, when it is one this build can check. *)
Definition usable_signature (e : SigEntry) : option (list Z) :=
  if negb (str_eqb (se_algorithm e) SIGNATURE_ALGORITHM) then None
  else match decode_std (ascii_bytes (trim_space (se_signature e))) with
       | Ok sig => if (length sig =? SIGNATURE_LEN)%nat then Some sig else None
       | Err _ => None
       end.

(** The loop over a document's entries; [usable] counts the well-formed ones. *)
Fixpoint verify_entries (manifest : list Z) (keys : list TrustedKey) (usable : nat)
    (entries : list SigEntry) : result string nat :=
  match entries with
  | [] => Err usable
  | e :: entries' =>
      match usable_signature e with
      | None => verify_entries manifest keys usable entries'
      | Some sig =>
          match find_first (λ k, ed25519_verify (tk_key k) manifest sig)
                  (order_keys keys (se_key_id e)) with
          | Some k => Ok (tk_id k)
          | None => verify_entries manifest keys (S usable) entries'
          end
      end
  end.

(** [verify_manifest_signature] *)
Definition verify_manifest_signature (manifest document : list Z) (keys : list TrustedKey) :
  result string string :=
  match keys with
  | [] => Err "no trusted keys"
  | _ =>
      match decode_signature_document document with
      | Err (DocJson e) => Err ("the signature document is not valid JSON in the documented shape: " +:+ e)
      | Err TrailingContent => Err "the signature document carries trailing content after the object"
      | Ok doc =>
          if negb (sd_format_version doc =? 1)%Z
          then Err ("signature document format_version " +:+ pretty (sd_format_version doc)
                    +:+ " is not understood by this build (want 1)")
          else match sd_signatures doc with
          | [] => Err "the signature document carries no signatures"
          | entries =>
              match verify_entries manifest keys 0 entries with
              | Ok id => Ok id
              | Err O => Err ("no " +:+ SIGNATURE_ALGORITHM +:+ " signature in the document is well-formed")
              | Err _ => Err ("no signature was made by a key this host trusts ("
                              +:+ join ", " (map (λ k, key_label (tk_id k)) keys) +:+ ")")
              end
          end
      end
  end.

(** The scan of one requested component over the manifest's. *)
Fixpoint bind_component (c : Component) (found : bool) (l : list ManifestComponent) : result bool string :=
  match l with
  | [] => Ok found
  | mc :: l' =>
      if negb (str_eqb (mc_name mc) (comp_name c)) then bind_component c found l'
      else if negb (str_eqb (mc_image mc) (comp_image c)) || negb (str_eqb (mc_digest mc) (comp_digest c))
      then Err ("component " +:+ quote (comp_name c) +:+ " is " +:+ comp_image c +:+ "@" +:+ comp_digest c
                +:+ " in the request and " +:+ mc_image mc +:+ "@" +:+ mc_digest mc +:+ " in the manifest")
      else bind_component c true l'
  end.

Fixpoint bind_components (manifest : list ManifestComponent) (l : list Component) : result unit string :=
  match l with
  | [] => Ok tt
  | c :: l' =>
      let? found := bind_component c false manifest in
      if found then bind_components manifest l'
      else Err ("component " +:+ quote (comp_name c) +:+ " is not in the manifest")
  end.

(** [bind_manifest] *)
Definition bind_manifest (raw : list Z) (req : Request) : result unit string :=
  match unmarshal_signed_manifest raw with
  | Err e => Err ("the signed manifest is not readable JSON: " +:+ e)
  | Ok m =>
      let want := trim_space (default EmptyString (rel_version (rq_release req))) in
      if negb (str_eqb want EmptyString) && negb (str_eqb (sm_version m) want)
      then Err ("it names version " +:+ quote (sm_version m) +:+ ", the request names " +:+ quote want)
      else match sm_components m with
           | [] => Err "it names no components"
           | comps => bind_components comps (components req)
           end
  end.

(** [signature::check] *)
Definition check_signature (req : Request) (pol : SignaturePolicy)
    (evidence : option SignatureEvidence) : result Admission TrustRejection :=
  if negb (sig_enabled pol) then Ok (mkAdmission None)
  else match sp_keys pol with
  | [] => Err (reject SignatureInvalid ("signature mode is " +:+ quote (mode_str (sp_mode pol))
             +:+ " but this host trusts no release keys: set QUASAR_UPDATER_TRUSTED_KEYS (docs/upgrading.md)"))
  | _ =>
      match evidence with
      | None => Err (reject SignatureInvalid "no signature evidence was gathered for this request")
      | Some (FetchError e) => Err (reject SignatureInvalid
          ("the release signature could not be retrieved, so it could not be checked: " +:+ e))
      | Some (Absent why) =>
          if bool_decide (sp_mode pol = SigRequire)
          then Err (reject SignatureMissing
                 ("this host requires a signed release and this one carries no signature: " +:+ why))
          else Ok (mkAdmission (Some ("applying an UNVERIFIED release: " +:+ why
                 +:+ " (mode=verify accepts this; mode=require would refuse it)")))
      | Some (Signed manifest signature) =>
          let? key_id := map_err (λ e, reject SignatureInvalid
                 ("the release manifest signature did not verify: " +:+ e))
               (verify_manifest_signature manifest signature (sp_keys pol)) in
          let? _ := map_err (λ e, reject SignatureInvalid
                 ("the signed release manifest (key " +:+ key_label key_id
                  +:+ ") does not describe this request: " +:+ e))
               (bind_manifest manifest req) in
          Ok (mkAdmission None)
      end
  end.

(** ** Admission *)

(** [in_flight_other_than] *)
Definition in_flight_other_than (cfg : TrustConfig) (request_id : string) : option string :=
  match in_flight_request_id cfg with
  | Some cur => if negb (str_eqb cur EmptyString) && negb (str_eqb cur request_id) then Some cur else None
  | None => None
  end.

(** [wants_signature_evidence] *)
Definition wants_signature_evidence (cfg : TrustConfig) (request_id : string) : bool :=
  sig_enabled (tc_signature cfg) && bool_decide (in_flight_other_than cfg request_id = None).

Definition names_component (name : string) (req : Request) : bool :=
  existsb (λ c, str_eqb (comp_name c) name) (components req).

Definition component_known (caller : Caller) (req : Request) (name : string) : bool :=
  bool_decide (name ∈ COMPONENTS)
  || (str_eqb name "recovery-actor"
      && (bool_decide (caller = CallerAgent) || names_component "control-plane" req)).

(** The checks of one component, in order; [seen] are the names before it. *)
Definition grade_component (caller : Caller) (req : Request) (cfg : TrustConfig)
    (seen : list string) (c : Component) : result unit TrustRejection :=
  let name := quote (comp_name c) in
  let image := quote (comp_image c) in
  if negb (component_known caller req (comp_name c))
  then Err (reject Invalid ("unknown component " +:+ name))
  else if bool_decide (caller = CallerAgent) && negb (bool_decide (comp_name c ∈ AGENT_SOCKET_COMPONENTS))
  then Err (reject Invalid ("component " +:+ name
         +:+ " may not be named on the agent socket: a node agent asking to replace it is a confused deputy"))
  else if bool_decide (comp_name c ∈ seen)
  then Err (reject Invalid ("component " +:+ name +:+ " named twice"))
  else if str_eqb (comp_image c) EmptyString || contains_char " " (comp_image c)
          || contains_char "009" (comp_image c) || contains_char "010" (comp_image c)
  then Err (reject Invalid ("component " +:+ name +:+ ": image " +:+ image +:+ " is not a repository reference"))
  else if image_has_tag_or_digest (comp_image c)
  then Err (reject Invalid ("component " +:+ name +:+ ": image " +:+ image
         +:+ " carries a tag or a digest; it must be a bare repository reference"))
  else if negb (digest_re (comp_digest c))
  then Err (reject DigestMalformed ("component " +:+ name +:+ ": digest " +:+ quote (comp_digest c)
         +:+ " is not sha256: + 64 lowercase hex"))
  else if negb (namespace_allowed (comp_image c) (allowed_namespaces cfg))
  then Err (reject NamespaceRejected ("component " +:+ name +:+ ": image " +:+ image
         +:+ " is outside this host's platform-image namespaces ("
         +:+ join "," (allowed_namespaces cfg) +:+ ")"))
  else Ok tt.

Fixpoint grade_components (caller : Caller) (req : Request) (cfg : TrustConfig)
    (seen : list string) (l : list Component) : result unit TrustRejection :=
  match l with
  | [] => Ok tt
  | c :: l' =>
      let? _ := grade_component caller req cfg seen c in
      grade_components caller req cfg (seen ++ [comp_name c]) l'
  end.

(** [trust::admit] *)
Definition trust_decision (caller : Caller) (req : Request) (cfg : TrustConfig)
    (evidence : option SignatureEvidence) : result Admission TrustRejection :=
  if negb (uuid_re (request_id req))
  then Err (reject Invalid ("request_id " +:+ quote (request_id req) +:+ " is not a uuid"))
  else match in_flight_other_than cfg (request_id req) with
  | Some cur => Err (reject Busy ("request " +:+ cur +:+ " is still in flight"))
  | None =>
      match components req with
      | [] => Err (reject Invalid "components is empty")
      | comps =>
          let? _ := grade_components caller req cfg [] comps in
          check_signature req (tc_signature cfg) evidence
      end
  end.
End trust.
