(* ===== verification/TrustProofs.v ===== *)
(** * What release trust admits

    The gates of [Trust] as a specification: which images, which signatures and which requests
    pass, in both directions. *)
From S2P Require Import Prelude Base64 GoText Wire Trust.

(** ** Strings *)

Lemma prefix_app p s : String.prefix p s = true ↔ ∃ r, s = p +:+ r.
Proof.
  revert s. induction p as [|a p IH]; intros s.
  - split; [by exists s|]. by destruct s.
  - destruct s as [|b s].
    { split; [done|]. by intros [r ?]. }
    simpl. destruct (ascii_dec a b) as [->|Hne].
    + rewrite IH. split; intros [r Hr]; exists r; [by rewrite Hr|].
      change (String b (p +:+ r)) with (String b (p +:+ r)) in Hr. by injection Hr.
    + split; [done|]. intros [r Hr]. injection Hr as -> _. done.
Qed.

Lemma sdrop_app p r : sdrop (slen p) (p +:+ r) = r.
Proof. induction p as [|c p IH]; [by destruct r|]. exact IH. Qed.

Lemma slen_nil s : slen s = 0%nat → s = EmptyString.
Proof. by destruct s. Qed.

(** ** Namespaces *)

Lemma in_namespace_spec image ns :
  in_namespace image ns = true ↔ ∃ rest, rest ≠ EmptyString ∧ image = ns +:+ String "/" rest.
Proof.
  unfold in_namespace, starts_with. rewrite !andb_true_iff, Nat.ltb_lt, prefix_app. split.
  - intros [[Hl [r ->]] Hc]. rewrite sdrop_app in Hc. destruct r as [|c r]; [done|].
    apply Ascii.eqb_eq in Hc as ->. exists r. split; [|done]. intros ->.
    rewrite slen_app in Hl. simpl in Hl. lia.
  - intros (rest & Hne & ->). rewrite sdrop_app. split_and!; [|by eexists|done].
    rewrite slen_app. destruct rest as [|c rest]; [done|]. unfold slen. simpl. lia.
Qed.

(** The namespace allowlist is a prefix on a path boundary: an image passes exactly when
    it is an allowed namespace, a slash and something more. *)
Theorem namespace_allowed_spec image allowed :
  namespace_allowed image allowed = true ↔
  ∃ ns rest, ns ∈ allowed ∧ rest ≠ EmptyString ∧ image = ns +:+ String "/" rest.
Proof.
  unfold namespace_allowed. rewrite List.existsb_exists. split.
  - intros (ns & Hns & H). apply in_namespace_spec in H as (rest & ? & ?).
    exists ns, rest. by rewrite list_elem_of_In.
  - intros (ns & rest & Hns & ? & ?). exists ns. rewrite <- list_elem_of_In. split; [done|].
    apply in_namespace_spec. by exists rest.
Qed.

Section signature.
Context {deps : TrustDeps}.

(** ** Signatures *)

Lemma order_keys_elem keys hint k : k ∈ order_keys keys hint ↔ k ∈ keys.
Proof.
  unfold order_keys. destruct (str_eqb hint EmptyString); [done|].
  rewrite elem_of_app, !list_elem_of_In, !List.filter_In.
  destruct (str_eqb (tk_id k) hint); naive_solver.
Qed.

(** Some entry of a document is a good signature of the manifest under some trusted key. *)
Definition signed_by (manifest : list Z) (keys : list TrustedKey) (entries : list SigEntry) (id : string) : Prop :=
  ∃ e sig k, e ∈ entries ∧ usable_signature e = Some sig ∧ k ∈ keys ∧
    ed25519_verify (tk_key k) manifest sig = true ∧ tk_id k = id.

Lemma verify_entries_sound m keys u entries id :
  verify_entries m keys u entries = Ok id → signed_by m keys entries id.
Proof.
  revert u. induction entries as [|e entries IH]; intros u; simpl; [done|].
  assert (∀ u, verify_entries m keys u entries = Ok id → signed_by m keys (e :: entries) id) as Hlater.
  { intros u' H. destruct (IH u' H) as (e' & sig & k & ? & ?). exists e', sig, k. set_solver. }
  destruct (usable_signature e) as [sig|] eqn:Hu; [|apply Hlater].
  destruct (find_first _ _) as [k|] eqn:Hf; [|apply Hlater].
  intros [= <-]. apply find_first_Some in Hf as [Hk Hv]. apply order_keys_elem in Hk.
  exists e, sig, k. split_and!; [set_solver|done..].
Qed.

Lemma verify_entries_complete m keys u entries id :
  signed_by m keys entries id → ∃ id', verify_entries m keys u entries = Ok id'.
Proof.
  intros (e & sig & k & He & Hu & Hk & Hv & _). revert u.
  induction entries as [|e0 entries IH]; intros u; [set_solver|]. simpl.
  apply elem_of_cons in He as [<-|Hin].
  - rewrite Hu. destruct (find_first _ _) as [k'|] eqn:Hf; [by eexists|].
    apply find_first_None in Hf. rewrite Forall_forall in Hf.
    rewrite (Hf k) in Hv; [done|]. by apply order_keys_elem.
  - destruct (usable_signature e0) as [sig0|]; [|by apply IH].
    destruct (find_first _ _); [by eexists|]. by apply IH.
Qed.

Lemma verify_ok_spec m d keys :
  is_ok (verify_manifest_signature m d keys) = true ↔
  ∃ doc id, decode_signature_document d = Ok doc ∧ sd_format_version doc = 1%Z ∧
    signed_by m keys (sd_signatures doc) id.
Proof.
  unfold verify_manifest_signature. split.
  - destruct keys as [|k0 keys0]; [done|]. destruct (decode_signature_document d) as [doc|[]]; [|done..].
    destruct (Z.eqb_spec (sd_format_version doc) 1); cbn [negb]; [|done].
    destruct (sd_signatures doc) as [|e0 l0] eqn:Hs; [done|].
    destruct (verify_entries _ _ 0 _) as [id|n] eqn:Hv; [|by destruct n].
    intros _. exists doc, id. rewrite Hs. split_and!; [done..|]. by eapply verify_entries_sound.
  - intros (doc & id & Hd & Hf & Hsb). pose proof Hsb as (e & sig & k & He & _ & Hk & _).
    destruct keys as [|k0 keys0]; [set_solver|]. rewrite Hd, Hf. cbn [negb Z.eqb Pos.eqb].
    destruct (sd_signatures doc) as [|e0 l] eqn:Hs; [set_solver|].
    destruct (verify_entries_complete m (k0 :: keys0) 0 (e0 :: l) id Hsb) as [id' ->]. done.
Qed.

(** A manifest's signature verifies exactly when the document decodes in the known
    format and one of its ed25519 entries is a good signature under some key this host trusts:
    the key id an entry names never decides. *)
Theorem signature_verifies_iff m d keys :
  is_ok (verify_manifest_signature m d keys) = true ↔
  ∃ doc id, decode_signature_document d = Ok doc ∧ sd_format_version doc = 1%Z ∧
    signed_by m keys (sd_signatures doc) id.
Proof. apply verify_ok_spec. Qed.

(** ** The manifest and the request *)

Definition mc_matches (c : Component) (mc : ManifestComponent) : Prop :=
  mc_image mc = comp_image c ∧ mc_digest mc = comp_digest c.

(** A component of the request is in the manifest, and wherever it is, as requested. *)
Definition bound (manifest : list ManifestComponent) (c : Component) : Prop :=
  (∃ mc, mc ∈ manifest ∧ mc_name mc = comp_name c) ∧
  ∀ mc, mc ∈ manifest → mc_name mc = comp_name c → mc_matches c mc.

Lemma bind_component_spec c b l :
  (∃ b', bind_component c b l = Ok b' ∧
         (b' = true ↔ b = true ∨ ∃ mc, mc ∈ l ∧ mc_name mc = comp_name c) ∧
         ∀ mc, mc ∈ l → mc_name mc = comp_name c → mc_matches c mc) ∨
  (∃ e, bind_component c b l = Err e ∧ ∃ mc, mc ∈ l ∧ mc_name mc = comp_name c ∧ ¬ mc_matches c mc).
Proof.
  revert b. induction l as [|mc l IH]; intros b; simpl.
  { left. exists b. split_and!; [done|set_solver|set_solver]. }
  destruct (str_eqb (mc_name mc) (comp_name c)) eqn:Hn; simpl.
  2: { apply str_eqb_false in Hn. destruct (IH b) as [(b' & -> & H1 & H2)|(e & -> & x & ? & ?)].
       - left. exists b'. split_and!; [done| |set_solver]. rewrite H1. set_solver.
       - right. exists e. split; [done|]. exists x. set_solver. }
  apply str_eqb_true in Hn. unfold str_eqb. unfold mc_matches.
  destruct (decide (mc_image mc = comp_image c ∧ mc_digest mc = comp_digest c)) as [[Hi Hd]|Hno].
  - rewrite !bool_decide_eq_true_2 by done. simpl.
    destruct (IH true) as [(b' & -> & H1 & H2)|(e & -> & x & ? & ?)].
    + left. exists b'. split_and!; [done| |set_solver]. rewrite H1. split; [|by left].
      intros _. right. exists mc. set_solver.
    + right. exists e. split; [done|]. exists x. set_solver.
  - right. destruct (negb _ || negb _) eqn:E; [by eexists; split; [done|]; exists mc; set_solver|].
    apply orb_false_iff in E as [E1 E2]. apply negb_false_iff, bool_decide_eq_true in E1, E2. naive_solver.
Qed.

Lemma bind_components_spec manifest l :
  is_ok (bind_components manifest l) = true ↔ Forall (bound manifest) l.
Proof.
  induction l as [|c l IH]; simpl; [by split; [constructor|]|].
  destruct (bind_component_spec c false manifest) as [(b' & -> & H1 & H2)|(e & -> & x & Hx1 & Hx2 & Hx3)].
  - destruct b'.
    + rewrite IH. split; [|intros HF; by inversion HF]. intros HF. constructor; [|done].
      split; [|done]. by destruct (proj1 H1 eq_refl) as [|].
    + split; [done|]. intros HF. inversion HF as [|? ? [Hex _] _]; subst.
      assert (false = true) by (apply H1; by right). done.
  - split; [done|]. intros HF. inversion HF as [|? ? [_ Hb] _]; subst. by destruct Hx3; apply Hb.
Qed.

(** What a signed manifest must say of a request. *)
Definition describes (m : SignedManifest) (req : Request) : Prop :=
  let want := trim_space (default EmptyString (rel_version (rq_release req))) in
  (want ≠ EmptyString → sm_version m = want) ∧ sm_components m ≠ [] ∧
  Forall (bound (sm_components m)) (components req).

Lemma bind_manifest_spec raw req :
  is_ok (bind_manifest raw req) = true ↔
  ∃ m, unmarshal_signed_manifest raw = Ok m ∧ describes m req.
Proof.
  unfold bind_manifest. destruct (unmarshal_signed_manifest raw) as [m|e].
  2: { split; [done|]. by intros (? & ? & _). }
  unfold describes. cbv zeta. set (want := trim_space _).
  destruct (str_eqb want EmptyString) eqn:Hw; [apply str_eqb_true in Hw|apply str_eqb_false in Hw]; simpl.
  - destruct (sm_components m) as [|c0 l] eqn:Hc.
    + split; [done|]. intros (m' & [= <-] & _ & H & _). done.
    + rewrite bind_components_spec. split.
      * intros H. exists m. rewrite Hc. by split_and!.
      * intros (m' & [= <-] & _ & _ & H). by rewrite Hc in H.
  - destruct (str_eqb (sm_version m) want) eqn:Hv; [apply str_eqb_true in Hv|apply str_eqb_false in Hv]; simpl.
    + destruct (sm_components m) as [|c0 l] eqn:Hc.
      * split; [done|]. intros (m' & [= <-] & _ & H & _). done.
      * rewrite bind_components_spec. split.
        -- intros H. exists m. rewrite Hc. by split_and!.
        -- intros (m' & [= <-] & _ & _ & H). by rewrite Hc in H.
    + split; [done|]. intros (m' & [= <-] & H & _). by specialize (H Hw).
Qed.

(** ** The gates together *)

Definition component_ok (caller : Caller) (req : Request) (cfg : TrustConfig) (c : Component) : Prop :=
  component_known caller req (comp_name c) = true ∧
  (caller = CallerAgent → comp_name c ∈ AGENT_SOCKET_COMPONENTS) ∧
  comp_image c ≠ EmptyString ∧
  Forall (λ b, contains_char b (comp_image c) = false) [" "; "009"; "010"]%char ∧
  image_has_tag_or_digest (comp_image c) = false ∧
  digest_re (comp_digest c) = true ∧
  namespace_allowed (comp_image c) (allowed_namespaces cfg) = true.

Lemma grade_component_spec caller req cfg seen c :
  is_ok (grade_component caller req cfg seen c) = true ↔
  component_ok caller req cfg c ∧ comp_name c ∉ seen.
Proof.
  unfold grade_component, component_ok, str_eqb.
  destruct (component_known caller req (comp_name c)); simpl; [|naive_solver].
  destruct (bool_decide_reflect (caller = CallerAgent)); simpl;
  [destruct (bool_decide_reflect (comp_name c ∈ AGENT_SOCKET_COMPONENTS)); simpl; [|naive_solver]|];
  (destruct (bool_decide_reflect (comp_name c ∈ seen)); [naive_solver|]);
  (destruct (bool_decide_reflect (comp_image c = EmptyString)); simpl; [naive_solver|]);
  (destruct (contains_char " " (comp_image c)) eqn:E1; simpl;
     [split; [done|intros [(_ & _ & _ & HF & _) _]; rewrite !Forall_cons in HF; naive_solver congruence]|]);
  (destruct (contains_char "009" (comp_image c)) eqn:E2; simpl;
     [split; [done|intros [(_ & _ & _ & HF & _) _]; rewrite !Forall_cons in HF; naive_solver congruence]|]);
  (destruct (contains_char "010" (comp_image c)) eqn:E3; simpl;
     [split; [done|intros [(_ & _ & _ & HF & _) _]; rewrite !Forall_cons in HF; naive_solver congruence]|]);
  (destruct (image_has_tag_or_digest (comp_image c)); simpl; [naive_solver|]);
  (destruct (digest_re (comp_digest c)); simpl; [|naive_solver]);
  (destruct (namespace_allowed (comp_image c) (allowed_namespaces cfg)); simpl; [|naive_solver]);
  (split; [|done]); intros _; split_and!; try done; by repeat constructor.
Qed.

Lemma grade_components_spec caller req cfg seen l :
  is_ok (grade_components caller req cfg seen l) = true ↔
  Forall (component_ok caller req cfg) l ∧ NoDup (map comp_name l) ∧
  ∀ c, c ∈ l → comp_name c ∉ seen.
Proof.
  revert seen. induction l as [|c l IH]; intros seen; simpl.
  { split; [|done]. intros _. split_and!; [constructor|constructor|set_solver]. }
  pose proof (grade_component_spec caller req cfg seen c) as Hc.
  destruct (grade_component caller req cfg seen c) as [[]|e]; simpl in Hc.
  - destruct (proj1 Hc eq_refl) as [Hok Hns]. rewrite IH, Forall_cons, NoDup_cons. split.
    + intros (H1 & H2 & H3). split_and!; [done|done| |done|].
      * intros Hin. apply list_elem_of_In, List.in_map_iff in Hin as (c' & Heq & Hc').
        apply list_elem_of_In in Hc'. specialize (H3 c' Hc'). rewrite Heq in H3. set_solver.
      * intros c' Hc'. apply elem_of_cons in Hc' as [->|Hc']; [done|]. specialize (H3 c' Hc'). set_solver.
    + intros ([_ H1] & [H2 H3] & H4). split_and!; [done|done|]. intros c' Hc' Hin.
      apply elem_of_app in Hin as [Hin|Hin]; [by apply (H4 c'); [set_solver|]|].
      apply list_elem_of_singleton in Hin. apply H2. rewrite <- Hin.
      apply list_elem_of_In, List.in_map. by apply list_elem_of_In.
  - split; [done|]. rewrite Forall_cons. intros ([H1 _] & _ & H4). exfalso.
    assert (false = true); [|done]. apply Hc. split; [done|]. apply H4. set_solver.
Qed.

(** The signature gate passes. *)
Definition signature_ok (req : Request) (pol : SignaturePolicy) (evidence : option SignatureEvidence) : Prop :=
  sp_mode pol = SigOff ∨
  sp_keys pol ≠ [] ∧
  ((∃ why, evidence = Some (Absent why) ∧ sp_mode pol = SigVerify) ∨
   (∃ manifest signature doc id m, evidence = Some (Signed manifest signature) ∧
      decode_signature_document signature = Ok doc ∧ sd_format_version doc = 1%Z ∧
      signed_by manifest (sp_keys pol) (sd_signatures doc) id ∧
      unmarshal_signed_manifest manifest = Ok m ∧ describes m req)).

Lemma check_signature_spec req pol evidence :
  is_ok (check_signature req pol evidence) = true ↔ signature_ok req pol evidence.
Proof.
  unfold check_signature, signature_ok, sig_enabled.
  destruct (bool_decide_reflect (sp_mode pol = SigOff)) as [|Hm]; simpl; [naive_solver|].
  destruct (sp_keys pol) as [|k0 keys] eqn:Hk; [naive_solver|].
  destruct evidence as [[man sig|why|e]|]; [|..].
  - pose proof (verify_ok_spec man sig (k0 :: keys)) as Hv.
    pose proof (bind_manifest_spec man req) as Hb.
    destruct (verify_manifest_signature _ _ _) as [id|]; simpl in *; [|naive_solver].
    destruct (bind_manifest man req) as [[]|]; simpl in *; naive_solver.
  - destruct (bool_decide_reflect (sp_mode pol = SigRequire)) as [|Hr]; simpl; [naive_solver congruence|].
    destruct (sp_mode pol); naive_solver.
  - simpl. naive_solver.
  - simpl. naive_solver.
Qed.

Lemma trust_decision_spec caller req cfg evidence :
  is_ok (trust_decision caller req cfg evidence) = true ↔
  uuid_re (request_id req) = true ∧
  (∀ id, in_flight_request_id cfg = Some id → id = EmptyString ∨ id = request_id req) ∧
  components req ≠ [] ∧ NoDup (map comp_name (components req)) ∧
  Forall (component_ok caller req cfg) (components req) ∧
  signature_ok req (tc_signature cfg) evidence.
Proof.
  unfold trust_decision. destruct (uuid_re (request_id req)); simpl; [|naive_solver].
  unfold in_flight_other_than.
  assert (is_ok (match components req with
      | [] => Err (reject Invalid "components is empty")
      | comps => let? _ := grade_components caller req cfg [] comps in
                 check_signature req (tc_signature cfg) evidence
      end) = true ↔ components req ≠ [] ∧ NoDup (map comp_name (components req)) ∧
        Forall (component_ok caller req cfg) (components req) ∧ signature_ok req (tc_signature cfg) evidence) as Hrest.
  { destruct (components req) as [|c l]; [naive_solver|].
    pose proof (grade_components_spec caller req cfg [] (c :: l)) as Hg.
    destruct (grade_components caller req cfg [] (c :: l)) as [[]|e]; simpl in Hg |- *.
    - rewrite check_signature_spec. destruct (proj1 Hg eq_refl) as (H1 & H2 & _). naive_solver.
    - split; [done|]. intros (_ & H2 & H1 & _). exfalso.
      assert (false = true); [|done]. apply Hg. split_and!; [done|done|set_solver]. }
  destruct (in_flight_request_id cfg) as [cur|]; [|rewrite Hrest; naive_solver].
  unfold str_eqb. destruct (bool_decide_reflect (cur = EmptyString)); simpl;
    [rewrite Hrest; naive_solver|].
  destruct (bool_decide_reflect (cur = request_id req)); simpl; [rewrite Hrest; naive_solver|].
  split; [done|]. naive_solver.
Qed.

(** (C19) Exactly what is admitted: a uuid; no other request in flight; at least one component,
    none named twice, each known on the caller's socket, a bare repository inside an allowed
    namespace, pinned by a well-formed digest; and a signature gate that passes, which under
    [require] means a manifest describing this very request, signed by a trusted key. *)
Theorem trust_decision_iff caller req cfg evidence :
  is_ok (trust_decision caller req cfg evidence) = true ↔
  uuid_re (request_id req) = true ∧
  (∀ id, in_flight_request_id cfg = Some id → id = EmptyString ∨ id = request_id req) ∧
  components req ≠ [] ∧ NoDup (map comp_name (components req)) ∧
  Forall (component_ok caller req cfg) (components req) ∧
  signature_ok req (tc_signature cfg) evidence.
Proof. apply trust_decision_spec. Qed.
End signature.
