(* ===== verification/RaceGuard.v ===== *)
(** * The race guard

    [crates/quasar-recovery/src/race_guard.rs]: which containers of a listing look like a
    Quasar platform service but were not created by this installation. *)
From S2P Require Import Prelude Platform Wire.

Definition COMPOSE_SERVICE : string := "com.docker.compose.service".
Definition COMPOSE_PROJECT : string := "com.docker.compose.project".
Definition UPDATER : string := "updater".
Definition UPDATER_SERVICE : string := "quasar-updater".
Definition AGENT_PROBE_PREFIX : string := "quasar-probe-".
Definition ROLES : list Role := [NodeAgent; ControlPlane; Postgres; RecoveryActor].

(** [seed::is_seed] and [runs_actor]: the recovery image's program with its subcommand. *)
Definition runs_recovery (sub : string) (c : Container) : bool :=
  match c_command c with
  | p :: rest =>
      str_eqb (last_segment "/" p) "quasar-recovery"
      && match rest with s :: _ => str_eqb s sub | [] => false end
  | [] => false
  end.
Definition is_seed (c : Container) : bool := runs_recovery "seed" c.
Definition runs_actor (c : Container) : bool := runs_recovery "actor" c.

(** [actor::repository_of] *)
Definition repository_of (ref : string) : string :=
  let without_digest := match split_once "@" ref with Some (x, _) => x | None => ref end in
  match rsplit_once ":" without_digest with
  | Some (repo, tag) => if negb (contains_char "/" tag) then repo else without_digest
  | None => without_digest
  end.

Definition noun (role : string) : string :=
  if str_eqb role "node-agent" then "node agent"
  else if str_eqb role "control-plane" then "control plane"
  else if str_eqb role "postgres" then "database"
  else if str_eqb role "recovery-actor" then "recovery actor"
  else if str_eqb role UPDATER then "updater"
  else "platform service".

(** [same_id] *)
Definition same_id (a b : string) : bool :=
  negb (str_eqb a EmptyString) && negb (str_eqb b EmptyString) && (starts_with b a || starts_with a b).

(** The name a container's role is told by: without [.kept] or [.next]. *)
Definition base_name (name : string) : string :=
  match strip_suffix ".kept" name with
  | Some b => b
  | None => default name (strip_suffix ".next" name)
  end.

Definition role_named (name : string) : option Role :=
  find_first (λ r, str_eqb (container_name r) name) ROLES.

Definition by_image (c : Container) : option Role :=
  let last := last_segment "/" (repository_of (c_image c)) in
  if str_eqb last "quasar-control-plane" then Some ControlPlane
  else if str_eqb last "quasar-node-agent" then Some NodeAgent
  else if str_eqb last "quasar-recovery" && runs_actor c then Some RecoveryActor
  else None.

(** The last arms of [looks_like]: a Compose service's name, then the image. *)
Definition looks_like_image (c : Container) : option (string * string) :=
  if starts_with AGENT_PROBE_PREFIX (c_name c) then None
  else match by_image c with
       | Some r => Some (role_str r, "runs the Quasar " +:+ noun (role_str r) +:+ " image")
       | None => None
       end.

Definition looks_like_compose (c : Container) : option (string * string) :=
  match c_labels c !! COMPOSE_SERVICE with
  | Some service =>
      match role_named service with
      | Some r => Some (role_str r, "a Compose service named like the Quasar " +:+ noun (role_str r))
      | None => if str_eqb service UPDATER_SERVICE
                then Some (UPDATER, "the Compose updater of a Quasar install")
                else looks_like_image c
      end
  | None => looks_like_image c
  end.

(** [looks_like] *)
Definition looks_like (c : Container) : option (string * string) :=
  match match c_labels c !! LABEL_PLATFORM_SERVICE with Some r => role_parse r | None => None end with
  | Some role => Some (role_str role, "labelled as a Quasar " +:+ noun (role_str role))
  | None =>
      if bool_decide (c_name c ∈ HELPERS)
      then Some (role_str RecoveryActor, "holds the name of a recovery-actor helper without its label")
      else match role_named (base_name (c_name c)) with
           | Some r => Some (role_str r, "holds the name of the Quasar " +:+ noun (role_str r))
           | None => looks_like_compose c
           end
  end.

(** [conflict] *)
Definition conflict_why (c : Container) (seed_projects : list string) (why : string) : string :=
  match c_labels c !! LABEL_INSTALLATION, c_labels c !! COMPOSE_PROJECT with
  | Some other, _ => why +:+ ", of another installation (" +:+ other +:+ ")"
  | None, Some project =>
      if bool_decide (project ∈ seed_projects)
      then "defined in the Compose project " +:+ project
           +:+ " beside this machine's seed, so the stack manager runs it; take it out of that stack"
      else "part of the Compose project " +:+ project +:+ ", probably left from an older Compose install"
  | None, None => why
  end.

Definition conflict (c : Container) (installation me : option string) (seed_projects : list string) :
  option Conflict :=
  if match me with Some me => same_id me (c_id c) | None => false end || is_seed c then None
  else if bool_decide (is_Some installation) && bool_decide (c_labels c !! LABEL_INSTALLATION = installation)
  then None
  else if bool_decide (is_Some (c_labels c !! LABEL_HELPER)) || bool_decide (is_Some (c_labels c !! LABEL_AGENT_OWNER))
  then None
  else match looks_like c with
       | None => None
       | Some (role, why) =>
           Some (mkConflict (c_name c) (concat_str (take 12 (chars (c_id c)))) (c_image c) role
                   (conflict_why c seed_projects why))
       end.

(** [conflicts] *)
Definition conflicts (containers : list Container) (installation me : option string) : list Conflict :=
  let seed_projects := omap (λ c, c_labels c !! COMPOSE_PROJECT) (List.filter is_seed containers) in
  omap (λ c, conflict c installation me seed_projects) containers.

(** [remedy] and [refusal] *)
Definition remedy (l : list Conflict) : string := "docker rm -f " +:+ join " " (map cf_container l).

Definition refusal (l : list Conflict) : string :=
  let one := (length l =? 1)%nat in
  let it := if one then "it" else "them" in
  (if one then "A container" else "Containers") +:+ " on this machine look" +:+ (if one then "s" else EmptyString)
  +:+ " like a Quasar platform service but " +:+ (if one then "was" else "were")
  +:+ " not created by this installation, and the recovery actor never acts on a container it did not create: "
  +:+ join "; " (map (λ c, cf_container c +:+ " (" +:+ cf_image c +:+ ": " +:+ cf_why c +:+ ")") l)
  +:+ ". Remove " +:+ it +:+ " (and the manager definition that recreates " +:+ it +:+ "), e.g. `"
  +:+ remedy l +:+ "`; nothing was changed".

(** ** Nobody's service goes unseen *)

(** What is never a conflict: this process, a seed, this installation's own, a helper or a
    container of the node agent's. *)
Definition exempt (c : Container) (installation me : option string) : Prop :=
  (∃ i, me = Some i ∧ same_id i (c_id c) = true) ∨ is_seed c = true ∨
  (∃ i, installation = Some i ∧ c_labels c !! LABEL_INSTALLATION = Some i) ∨
  is_Some (c_labels c !! LABEL_HELPER) ∨ is_Some (c_labels c !! LABEL_AGENT_OWNER).

Lemma conflict_None c inst me ps :
  conflict c inst me ps = None ↔ exempt c inst me ∨ looks_like c = None.
Proof.
  unfold conflict, exempt.
  destruct me as [m|]; [destruct (same_id m (c_id c)) eqn:Em; simpl; [naive_solver|]|];
  (destruct (is_seed c) eqn:Es; simpl; [naive_solver|]);
  (destruct inst as [ins|]; simpl;
   [destruct (bool_decide_reflect (c_labels c !! LABEL_INSTALLATION = Some ins)); simpl; [naive_solver|]|]);
  (destruct (bool_decide_reflect (is_Some (c_labels c !! LABEL_HELPER))); simpl; [naive_solver|]);
  (destruct (bool_decide_reflect (is_Some (c_labels c !! LABEL_AGENT_OWNER))); simpl; [naive_solver|]);
  destruct (looks_like c) as [[role why]|]; naive_solver congruence.
Qed.

Lemma role_named_container r : role_named (container_name r) = Some r.
Proof. by destruct r. Qed.

Lemma base_name_platform r :
  base_name (container_name r) = container_name r ∧
  base_name (container_name r +:+ ".kept") = container_name r ∧
  base_name (container_name r +:+ ".next") = container_name r.
Proof. by destruct r. Qed.

Lemma looks_like_named c r :
  c_name c ∈ [container_name r; container_name r +:+ ".kept"; container_name r +:+ ".next"] →
  is_Some (looks_like c).
Proof.
  intros Hn. assert (base_name (c_name c) = container_name r) as Hb.
  { destruct (base_name_platform r) as (H1 & H2 & H3).
    rewrite list_elem_of_In in Hn. simpl in Hn. destruct Hn as [<-|[<-|[<-|[]]]]; done. }
  unfold looks_like. rewrite Hb, role_named_container.
  destruct (c_labels c !! LABEL_PLATFORM_SERVICE) as [x|]; [destruct (role_parse x)|];
    try case_bool_decide; by eexists.
Qed.

(** No foreign service goes unseen and no own container is accused: a container that
    holds a platform name (or a kept or successor name), or is labelled as a platform service,
    is reported unless it is one of the exempt; and what is reported is never exempt. *)
Theorem foreign_services_reported l installation me :
  (∀ c r, c ∈ l →
    c_name c ∈ [container_name r; container_name r +:+ ".kept"; container_name r +:+ ".next"] ∨
    c_labels c !! LABEL_PLATFORM_SERVICE = Some (role_str r) →
    ¬ exempt c installation me →
    ∃ cf, cf ∈ conflicts l installation me ∧ cf_container cf = c_name c) ∧
  (∀ cf, cf ∈ conflicts l installation me →
    ∃ c, c ∈ l ∧ ¬ exempt c installation me ∧ cf_container cf = c_name c).
Proof.
  unfold conflicts. set (ps := omap _ (List.filter is_seed l)).
  assert (∀ c cf, conflict c installation me ps = Some cf → cf_container cf = c_name c) as Hname.
  { intros c cf. unfold conflict. repeat case_match; intros; by simplify_eq. }
  split.
  - intros c r Hc Hlook Hex. assert (is_Some (looks_like c)) as [rw Hrw].
    { destruct Hlook as [Hn|Hl]; [by eapply looks_like_named|]. unfold looks_like.
      rewrite Hl, role_parse_str. by eexists. }
    destruct (conflict c installation me ps) as [cf|] eqn:Hcf.
    + exists cf. split; [apply list_elem_of_omap; by exists c|by apply Hname].
    + apply conflict_None in Hcf as [|]; [done|congruence].
  - intros cf Hcf. apply list_elem_of_omap in Hcf as (c & Hc & Hcf). exists c.
    split_and!; [done| |by apply Hname]. intros Hex.
    assert (conflict c installation me ps = None) by (apply conflict_None; by left). congruence.
Qed.

Example leftover_reported :
  map cf_why (conflicts [mkContainer "abc" "quasar-node-agent.kept" "x" "y" ∅ "running" true None None [] [] [] None None]
    (Some "inst") None) = ["holds the name of the Quasar node agent"].
Proof. reflexivity. Qed.
