(* ===== verification/Effects.v ===== *)
(** * The recovery actor's effects

    Every call by which the actor reads or changes the world is one operation of [eff]: the
    methods of the engine port ([engine/mod.rs], trait [PlatformEngine]), the durable files of
    machine state ([machine.rs], [journal.rs], [database.rs]), the dumps directory, the clock and
    the process flags, and the entry points of the actor's other components.
    A procedure of the actor is a [prog]: a tree of such calls, each continued by its answer,
    so that a property of a procedure quantifies over everything the engine may answer and over
    every point at which the process may die.

    [wp] is the weakest precondition of a procedure against a monitor: what each call requires
    of the history so far, what its answer may be, and how the history moves. *)
From S2P Require Import Prelude Platform Wire Journal Settle Base64 GoText Trust.

Record Machine (I : Type) := mkMachine {
  m_installation_id : string;
  m_role : MachineRole;
  m_inputs : I;
  m_install_images : gmap string ImageRef }.
Arguments mkMachine {I} _ _ _ _.
Arguments m_installation_id {I} _.
Arguments m_role {I} _.
Arguments m_inputs {I} _.
Arguments m_install_images {I} _.

Record SchemaFloor := mkSchemaFloor {
  floor_schema : Z; floor_request_id : string; floor_set_at : string }.

(** [database.rs::RestorePoint] *)
Inductive RestorePoint := mkRestorePoint {
  rp_request_id : string; rp_returns_to : string; rp_control_plane : ImageRef;
  rp_recipe_revision : Z; rp_schema_version : option Z; rp_dump : option string;
  rp_created_at : string; rp_previous : option RestorePoint }.

(** [dump_dir.rs::DumpRecord], without its format number. *)
Record DumpRecord := mkDumpRecord {
  dr_name : string; dr_schema_version : Z; dr_created_at : string; dr_size_bytes : Z;
  dr_sha256 : string; dr_request_id : option string; dr_control_plane : option ImageRef;
  dr_recipe_revision : option Z; dr_returns_to : option string;
  dr_restored_by : option string; dr_restored_at : option string }.

(** [database.rs::Hold] *)
Inductive HoldReason := AwaitRestore | RestoreIncomplete.

#[global] Instance HoldReason_eq_dec : EqDecision HoldReason.
Proof. solve_decision. Defined.

Record Hold := mkHold { h_reason : HoldReason; h_since : string; h_request_id : option string }.

(** [database.rs::DbOp] and [DbError] *)
Inductive DbOp := DbSize | DbDump | DbInspect | DbLoad | DbImport | DbSchema.

#[global] Instance DbOp_eq_dec : EqDecision DbOp.
Proof. solve_decision. Defined.

Inductive DbError := DbCrashed | DbFailed (why : string).

(** [handover.rs::Ready] *)
Record Ready := mkReady { rd_container : string; rd_version : string; rd_commit : string }.

(** [seed/file.rs], without its format number *)
Inductive SeedState := SeedActive | SeedUninstalled.

#[global] Instance SeedState_eq_dec : EqDecision SeedState.
Proof. solve_decision. Defined.

Record SeedFile := mkSeedFile {
  sf_installation_id : string; sf_image : ImageRef; sf_state : SeedState }.

(** Why [take_lease] did not: another process holds it, this one was stopped, or the machine
    directory failed. *)
Inductive LeaseError := LeaseHeld | LeaseStopped | LeaseFailed (why : string).

(** [recipe::SecretMounts] *)
Record SecretMounts := mkSecretMounts { sm_volume : option string; sm_files : gset string }.

(** How driving the recovery actor's component ended for this process. *)
Inductive Flow := StepDone | Ended.

Record ServiceRecord := mkServiceRecord {
  sr_role : Role; sr_revision : Z; sr_image : ImageRef; sr_digest : string;
  sr_spec : ContainerSpec; sr_applied_at : string }.

Inductive eff (I : Type) : Type → Type :=
(* the engine port *)
| InspectImage (r : string) : eff I (result (option Image) EngineError)
| PullImage (r : string) : eff I (result unit EngineError)
| InspectContainer (name_or_id : string) : eff I (result (option Container) EngineError)
| ListContainers : eff I (result (list Container) EngineError)
| CreateContainer (spec : ContainerSpec) : eff I (result string EngineError)
| StartContainer (id : string) : eff I (result unit EngineError)
| StopContainer (id : string) (grace : Z) : eff I (result unit EngineError)
| SetRestartPolicy (id : string) (p : RestartPolicy) : eff I (result unit EngineError)
| RenameContainer (id name : string) : eff I (result unit EngineError)
| RemoveContainer (id : string) : eff I (result unit EngineError)
| LogsTail (id : string) (lines : nat) : eff I (result string EngineError)
(* machine state *)
| StoreJournal (j : Journal) : eff I (result unit string)
| LoadJournal (id : string) : eff I (result (option Journal) string)
| ScanJournals : eff I Scan
| PruneJournals : eff I unit
| ForgetReady (id : string) : eff I unit
| LoadMachine : eff I (result (option (Machine I)) string)
| LoadService (r : Role) : eff I (result (option ServiceRecord) string)
| StoreService (r : ServiceRecord) : eff I (result unit string)
| LoadFloor : eff I (result (option SchemaFloor) string)
| StoreFloor (f : SchemaFloor) : eff I (result unit string)
| LoadPoint : eff I (result (option RestorePoint) string)
| StorePoint (p : RestorePoint) : eff I (result unit string)
| ClearPoint : eff I (result unit string)
| LoadSecret (name : string) : eff I (result (option string) string)
(* the dumps directory and the database helper *)
| DumpRemovePartials : eff I unit
| DumpList : eff I (list DumpRecord)
| DumpRemove (name : string) : eff I (result unit string)
| DumpNow (m : Machine I) (j : Journal) (old : ImageRef) (found : option Image) (revision : Z)
    (returns_to : string) (protect : option string) : eff I (result DumpRecord (option Failure))
(* components of the actor a replacement calls *)
| DecideGpus (m : Machine I) (image : ImageRef) (revision : Z) : eff I (result (Machine I) string)
| EnsureVolume (m : Machine I) (name : string) (r : Role) : eff I (result unit string)
| FailedPreflight (id : string) : eff I (option string)
| DriveHandover (j : Journal) (i : nat) : eff I (Journal * result Flow unit)
| RunRestore (j : Journal) : eff I (result unit unit)
| InterruptRestore (j : Journal) : eff I (result unit unit)
| YieldAttempt (j : Journal) (p : Party) : eff I (result unit unit)
(* admission *)
| WasUsed (id : string) : eff I (result bool string)
| MarkUsed (id : string) : eff I (result unit string)
| Resuming : eff I bool
| Uninstalled : eff I (option string)
| LoadTrust : eff I (result (list string * SignaturePolicy) string)
| GatherEvidence (req : Request) : eff I SignatureEvidence
| LoadHold : eff I (result (option Hold) string)
| SubmitRemove (c : Caller) (req : Request) : eff I (result Accepted Rejection)
| SpawnDriver (id : string) : eff I unit
(* the hand-over: the ready marker, seed.json, the sockets and the lease *)
| LoadReady (id : string) : eff I (option Ready)
| ReadyExists (id : string) : eff I bool
| StoreReady (id : string) (r : Ready) : eff I (result unit string)
| LoadSeed : eff I (result (option SeedFile) string)
| StoreSeed (f : SeedFile) : eff I (result unit string)
| SocketsSilent : eff I (option string)
| AttemptPolled (id : string) : eff I bool
| StopServing : eff I unit
| ServeAgain : eff I unit
| TakeLease : eff I (result unit LeaseError)
| ReleaseLease : eff I unit
| MarkRetired : eff I unit
(* dumps and restores: the hold, the dump files, the database helper, the install *)
| StoreHold (h : Hold) : eff I (result unit string)
| ClearHold : eff I (result unit string)
| DumpExists (name : string) : eff I bool
| LoadDump (name : string) : eff I (result (option DumpRecord) string)
| StoreDump (r : DumpRecord) : eff I (result unit string)
| ExamineDump (file : string) : eff I (result (Z * string * bool) string)
| PrepareDumps : eff I (result unit string)
| FreeSpace : eff I (result Z string)
| DumpTaken (name : string) : eff I bool
| CompleteDump (pending name : string) : eff I (result unit string)
| RemovePartial (name : string) : eff I unit
| PruneDumps (keep : string) (protect : option string) : eff I (result (list string) string)
| InspectVolume (name : string) : eff I (result (option Volume) EngineError)
| WaitContainer (id : string) (timeout : Z) : eff I (result Z EngineError)
| DeliverSecrets (image : ImageRef) (volume : string) (files : gset string) : eff I (result unit DbError)
| EnsureControlMachine (m : Machine I) : eff I (result unit DbError)
| CliName (m : option (Machine I)) : eff I string
| StartOver (m : option (Machine I)) : eff I string
(* the process *)
| Killed : eff I bool
| MarkDied : eff I unit
| NowStamp : eff I string
| Now : eff I Z
| Sleep (d : Z) : eff I unit.
Arguments InspectImage {I} _.
Arguments PullImage {I} _.
Arguments InspectContainer {I} _.
Arguments ListContainers {I}.
Arguments CreateContainer {I} _.
Arguments StartContainer {I} _.
Arguments StopContainer {I} _ _.
Arguments SetRestartPolicy {I} _ _.
Arguments RenameContainer {I} _ _.
Arguments RemoveContainer {I} _.
Arguments LogsTail {I} _ _.
Arguments StoreJournal {I} _.
Arguments LoadJournal {I} _.
Arguments ScanJournals {I}.
Arguments PruneJournals {I}.
Arguments ForgetReady {I} _.
Arguments LoadMachine {I}.
Arguments LoadService {I} _.
Arguments StoreService {I} _.
Arguments LoadFloor {I}.
Arguments StoreFloor {I} _.
Arguments LoadPoint {I}.
Arguments StorePoint {I} _.
Arguments ClearPoint {I}.
Arguments LoadSecret {I} _.
Arguments DumpRemovePartials {I}.
Arguments DumpList {I}.
Arguments DumpRemove {I} _.
Arguments DumpNow {I} _ _ _ _ _ _ _.
Arguments DecideGpus {I} _ _ _.
Arguments EnsureVolume {I} _ _ _.
Arguments FailedPreflight {I} _.
Arguments DriveHandover {I} _ _.
Arguments RunRestore {I} _.
Arguments InterruptRestore {I} _.
Arguments YieldAttempt {I} _ _.
Arguments WasUsed {I} _.
Arguments MarkUsed {I} _.
Arguments Resuming {I}.
Arguments Uninstalled {I}.
Arguments LoadTrust {I}.
Arguments GatherEvidence {I} _.
Arguments LoadHold {I}.
Arguments SubmitRemove {I} _ _.
Arguments SpawnDriver {I} _.
Arguments LoadReady {I} _.
Arguments ReadyExists {I} _.
Arguments StoreReady {I} _ _.
Arguments LoadSeed {I}.
Arguments StoreSeed {I} _.
Arguments SocketsSilent {I}.
Arguments AttemptPolled {I} _.
Arguments StopServing {I}.
Arguments ServeAgain {I}.
Arguments TakeLease {I}.
Arguments ReleaseLease {I}.
Arguments MarkRetired {I}.
Arguments StoreHold {I} _.
Arguments ClearHold {I}.
Arguments DumpExists {I} _.
Arguments LoadDump {I} _.
Arguments StoreDump {I} _.
Arguments ExamineDump {I} _.
Arguments PrepareDumps {I}.
Arguments FreeSpace {I}.
Arguments DumpTaken {I} _.
Arguments CompleteDump {I} _ _.
Arguments RemovePartial {I} _.
Arguments PruneDumps {I} _ _.
Arguments InspectVolume {I} _.
Arguments WaitContainer {I} _ _.
Arguments DeliverSecrets {I} _ _ _.
Arguments EnsureControlMachine {I} _.
Arguments CliName {I} _.
Arguments StartOver {I} _.
Arguments Killed {I}.
Arguments MarkDied {I}.
Arguments NowStamp {I}.
Arguments Now {I}.
Arguments Sleep {I} _.

(** A procedure: it returns, calls, or is cut off ([Spin]) where a loop ran out of the fuel
    its model was given. *)
Inductive prog (I A : Type) : Type :=
| Ret (a : A)
| Spin
| Vis (X : Type) (e : eff I X) (k : X → prog I A).
Arguments Ret {I A} _.
Arguments Spin {I A}.
Arguments Vis {I A X} _ _.

Fixpoint bind {I A B} (p : prog I A) (f : A → prog I B) : prog I B :=
  match p with
  | Ret a => f a
  | Spin => Spin
  | Vis e k => Vis e (λ x, bind (k x) f)
  end.

Definition call {I X} (e : eff I X) : prog I X := Vis e Ret.

Notation "'do' x <- p ; k" := (bind p (λ x, k))
  (at level 10, x pattern, p at level 200, k at level 200,
   format "'do'  x  <-  p ; '//' k") : quasar_scope.

(** The [?] operator inside a procedure. *)
Definition bind_ok {I A B E} (p : prog I (result A E)) (f : A → prog I (result B E)) :
  prog I (result B E) :=
  bind p (λ r, match r with Ok a => f a | Err e => Ret (Err e) end).

Notation "'do?' x <- p ; k" := (bind_ok p (λ x, k))
  (at level 10, x pattern, p at level 200, k at level 200,
   format "'do?'  x  <-  p ; '//' k") : quasar_scope.

(** [r.map_err(f)] on a procedure's result. *)
Definition map_errp {I A E F} (f : E → F) (p : prog I (result A E)) : prog I (result A F) :=
  do r <- p; Ret (map_err f r).

(** ** The monitor *)

Record Monitor (I G : Type) := mkMonitor {
  require : ∀ X, G → eff I X → Prop;
  allow : ∀ X, G → eff I X → X → Prop;
  advance_ghost : ∀ X, G → eff I X → X → G }.
Arguments require {I G} _ {X} _ _.
Arguments allow {I G} _ {X} _ _ _.
Arguments advance_ghost {I G} _ {X} _ _ _.

Section wp.
Context {I G : Type} (M : Monitor I G).

(** [wp spin p g Q]: from history [g], every call of [p] is made when the monitor requires,
    and if [p] returns [a] with history [g'] then [Q a g']. [spin] is what is owed where a
    loop is cut off: [True] for a property of every prefix, [False] for termination. *)
Fixpoint wp {A} (spin : Prop) (p : prog I A) (g : G) (Q : A → G → Prop) : Prop :=
  match p with
  | Ret a => Q a g
  | Spin => spin
  | Vis e k => require M g e ∧ ∀ x, allow M g e x → wp spin (k x) (advance_ghost M g e x) Q
  end.

Lemma wp_mono {A} spin (p : prog I A) g (Q Q' : A → G → Prop) :
  wp spin p g Q → (∀ a g', Q a g' → Q' a g') → wp spin p g Q'.
Proof.
  revert g. induction p as [a| |X e k IH]; simpl; intros g H HQ; [by apply HQ|done|].
  destruct H as [Hr H]. split; [done|]. intros x Hx. apply IH; [by apply H|done].
Qed.

Lemma wp_bind {A B} spin (p : prog I A) (f : A → prog I B) g Q :
  wp spin p g (λ a g', wp spin (f a) g' Q) → wp spin (bind p f) g Q.
Proof.
  revert g. induction p as [a| |X e k IH]; simpl; intros g H; [done|done|].
  destruct H as [Hr H]. split; [done|]. intros x Hx. apply IH. by apply H.
Qed.

Lemma wp_bind_inv {A B} spin (p : prog I A) (f : A → prog I B) g Q :
  wp spin (bind p f) g Q → wp spin p g (λ a g', wp spin (f a) g' Q).
Proof.
  revert g. induction p as [a| |X e k IH]; simpl; intros g H; [done|done|].
  destruct H as [Hr H]. split; [done|]. intros x Hx. apply IH. by apply H.
Qed.

Lemma wp_bind_ret {A B C} spin (p : prog I A) (f : A → B) (k : B → prog I C) g Q :
  wp spin (bind p (λ a, k (f a))) g Q → wp spin (bind (bind p (λ a, Ret (f a))) k) g Q.
Proof. intros H. apply wp_bind, wp_bind. exact (wp_bind_inv _ _ _ _ _ H). Qed.

Lemma wp_bind_ok {A B E} spin (p : prog I (result A E)) (f : A → prog I (result B E)) g Q :
  wp spin p g (λ r g', match r with Ok a => wp spin (f a) g' Q | Err e => Q (Err e) g' end) →
  wp spin (bind_ok p f) g Q.
Proof.
  intros H. apply wp_bind. eapply wp_mono; [exact H|]. by intros [a|e] g'.
Qed.

Lemma wp_map_errp {A E F} spin (f : E → F) (p : prog I (result A E)) g Q :
  wp spin p g (λ r g', Q (map_err f r) g') → wp spin (map_errp f p) g Q.
Proof. intros H. by apply wp_bind. Qed.

Lemma wp_call {X} spin (e : eff I X) g (Q : X → G → Prop) :
  require M g e → (∀ x, allow M g e x → Q x (advance_ghost M g e x)) → wp spin (call e) g Q.
Proof. simpl. done. Qed.

(** ** Traces

    An event is a call with its answer. A trace of a procedure is any prefix of one of its
    executions: the process may die between any two calls. *)
Record event := mkEvent { ev_X : Type; ev_call : eff I ev_X; ev_answer : ev_X }.

Inductive trace {A} : prog I A → list event → Prop :=
| trace_stop p : trace p []
| trace_call X (e : eff I X) k x l : trace (k x) l → trace (Vis e k) (mkEvent X e x :: l).

(** What is left to run after the calls of a trace. *)
Inductive reaches {A} : prog I A → list event → prog I A → Prop :=
| reaches_here p : reaches p [] p
| reaches_call X (e : eff I X) k x l p' : reaches (k x) l p' → reaches (Vis e k) (mkEvent X e x :: l) p'.

(** The answers of a trace are ones the monitor allows. *)
Fixpoint lawful (g : G) (l : list event) : Prop :=
  match l with
  | [] => True
  | ev :: l' => allow M g (ev_call ev) (ev_answer ev) ∧
                lawful (advance_ghost M g (ev_call ev) (ev_answer ev)) l'
  end.

Fixpoint history (g : G) (l : list event) : G :=
  match l with
  | [] => g
  | ev :: l' => history (advance_ghost M g (ev_call ev) (ev_answer ev)) l'
  end.

Lemma wp_reaches {A} spin (p p' : prog I A) g Q l :
  wp spin p g Q → reaches p l p' → lawful g l → wp spin p' (history g l) Q.
Proof.
  intros Hwp Hr. revert g Hwp. induction Hr as [p|X e k x l p' Hr IH]; intros g Hwp Hl; simpl in *; [done|].
  destruct Hwp as [_ Hwp], Hl as [Ha Hl]. apply IH; [by apply Hwp|done].
Qed.

(** Soundness: along every lawful trace, each call is made when it is required to be. *)
Theorem wp_sound {A} spin (p : prog I A) g Q l1 ev l2 :
  wp spin p g Q → trace p (l1 ++ ev :: l2) → lawful g (l1 ++ ev :: l2) →
  require M (history g l1) (ev_call ev).
Proof.
  revert p g. induction l1 as [|ev1 l1 IH]; intros p g Hwp Ht Hl; simpl in *.
  - inversion Ht; subst. destruct Hwp as [Hr _]. exact Hr.
  - inversion Ht as [|X e k x l Ht']; subst. destruct Hwp as [_ Hwp], Hl as [Ha Hl].
    eapply IH; [by apply Hwp|done|done].
Qed.

(** Every history a lawful prefix leaves satisfies an invariant the monitor maintains. *)
Lemma history_invariant (Inv : G → Prop) {A} spin (p : prog I A) g Q l :
  (∀ g X (e : eff I X) x, Inv g → require M g e → allow M g e x → Inv (advance_ghost M g e x)) →
  Inv g → wp spin p g Q → trace p l → lawful g l → Inv (history g l).
Proof.
  intros Hstep. revert p g. induction l as [|ev l IH]; intros p g Hi Hwp Ht Hl; simpl in *; [done|].
  inversion Ht as [|X e k x l' Ht']; subst. destruct Hwp as [Hr Hwp], Hl as [Ha Hl]. simpl in *.
  eapply IH; [|by apply Hwp|done|done]. by apply Hstep.
Qed.
End wp.
Arguments event : clear implicits.
Arguments mkEvent {I ev_X} _ _.
Arguments ev_call {I} _.
Arguments ev_answer {I} _.
