(* ===== verification/DumpDir.v ===== *)
(** * The pre-update dumps

    [crates/quasar-recovery/src/dump_dir.rs]: the names dumps and imports have, and the [dumps/]
    directory with its records. A dump is [<name>.dump] beside [<name>.json], its record; what
    [pg_dump] is still writing is [<name>.dump.partial]. *)
From S2P Require Import Prelude Platform Wire Journal Settle Effects.

(** ** Names *)

Definition KEEP : nat := 3.
Definition IMPORT_PREFIX : string := "import-".

(** [s.split_once(p)] *)
Fixpoint split_once_str (p s : string) : option (string * string) :=
  match strip_prefix p s with
  | Some rest => Some (EmptyString, rest)
  | None =>
      match s with
      | EmptyString => None
      | String a s' => (λ x, (String a x.1, x.2)) <$> split_once_str p s'
      end
  end.

(** The closure [stamp] of [valid_name]. *)
Definition stamp_ok (s : string) : bool :=
  (slen s =? 16)%nat && all_bytes is_ascii_digit (stake 8 s)
  && str_eqb (stake 1 (sdrop 8 s)) "T" && all_bytes is_ascii_digit (stake 6 (sdrop 9 s))
  && str_eqb (sdrop 15 s) "Z".

Definition lower_hex (c : ascii) : bool := is_ascii_hexdigit c && negb (is_ascii_uppercase c).

Definition valid_name (name : string) : bool :=
  match strip_prefix IMPORT_PREFIX name with
  | Some rest => stamp_ok rest
  | None =>
      match split_once_str "-schema-" name with
      | None => false
      | Some (ts, rest) =>
          let '(schema, suffix) := match split_once "-" rest with
                                   | Some (s, x) => (s, Some x)
                                   | None => (rest, None)
                                   end in
          stamp_ok ts && negb (str_eqb schema EmptyString) && (slen schema <=? 9)%nat
          && all_bytes is_ascii_digit schema
          && match suffix with
             | None => true
             | Some x => (slen x =? 8)%nat && all_bytes lower_hex x
             end
      end
  end.

Definition is_import (name : string) : bool := starts_with IMPORT_PREFIX name && valid_name name.

(** [stamp]: the digits, [T] and [Z] of an RFC 3339 time. *)
Fixpoint stamp (rfc3339 : string) : string :=
  match rfc3339 with
  | EmptyString => EmptyString
  | String c s =>
      if is_ascii_digit c || Ascii.eqb c "T" || Ascii.eqb c "Z" then String c (stamp s) else stamp s
  end.

(** [space_needed]; the source's u64 sum would overflow only from 16 EiB on. *)
Definition space_needed (database_bytes : Z) : Z :=
  database_bytes + Z.max (database_bytes / 10) (Z.shiftl 64 20).

(** ** The directory

    By name: the records, with the format number they say; the dump files; the partial files. *)
Record DumpFs := mkDumpFs {
  df_records : gmap string (file (Z * DumpRecord));
  df_dumps : gset string;
  df_partials : gset string }.

Definition DUMP_FORMAT : Z := 1.

Definition taken (d : DumpFs) (name : string) : bool :=
  bool_decide (is_Some (df_records d !! name)) || bool_decide (name ∈ df_dumps d)
  || bool_decide (name ∈ df_partials d).

(** [DumpDir::load] *)
Definition load_dump (d : DumpFs) (name : string) : result (option DumpRecord) string :=
  if negb (valid_name name) then Ok None
  else match df_records d !! name with
       | None => Ok None
       | Some (Corrupt why) => Err why
       | Some (Parsed (format, r)) =>
           if negb (format =? DUMP_FORMAT)%Z
           then Err ("dump record " +:+ name +:+ " is format " +:+ pretty format +:+ ", this actor reads 1")
           else if negb (str_eqb (dr_name r) name) then Err ("dump record " +:+ name +:+ " names another")
           else Ok (Some r)
       end.

(** [DumpDir::store] *)
Definition store_dump (r : DumpRecord) (d : DumpFs) : DumpFs :=
  mkDumpFs (<[dr_name r := Parsed (DUMP_FORMAT, r)]> (df_records d)) (df_dumps d) (df_partials d).

(** Newest first: by [(created_at, name)], backwards. *)
Definition newer (a b : DumpRecord) : bool :=
  if str_eqb (dr_created_at a) (dr_created_at b) then str_leb (dr_name b) (dr_name a)
  else str_leb (dr_created_at b) (dr_created_at a).

(** [DumpDir::list]; [entries] is the order the directory is read in, by name. *)
Definition listed (d : DumpFs) (name : string) : option DumpRecord :=
  match load_dump d name with
  | Ok (Some r) => if bool_decide (dr_name r ∈ df_dumps d) then Some r else None
  | _ => None
  end.

Definition list_dumps (d : DumpFs) (entries : list string) : list DumpRecord :=
  sort_by newer (omap (listed d) entries).

(** [DumpDir::remove]; [rm] says which files can be removed. *)
Definition remove_record (name : string) (d : DumpFs) : DumpFs :=
  mkDumpFs (delete name (df_records d)) (df_dumps d) (df_partials d).
Definition remove_file (name : string) (d : DumpFs) : DumpFs :=
  mkDumpFs (df_records d) (df_dumps d ∖ {[name]}) (df_partials d).
Definition remove_partial (name : string) (d : DumpFs) : DumpFs :=
  mkDumpFs (df_records d) (df_dumps d) (df_partials d ∖ {[name]}).

Definition remove_one (rm : string → bool) (path : string) (there : bool) (gone : DumpFs → DumpFs)
    (d : DumpFs) (rest : DumpFs → DumpFs * result unit string) : DumpFs * result unit string :=
  if negb there then rest d
  else if rm path then rest (gone d) else (d, Err ("remove " +:+ path)).

Definition remove_dump (rm : string → bool) (name : string) (d : DumpFs) : DumpFs * result unit string :=
  remove_one rm (name +:+ ".json") (bool_decide (is_Some (df_records d !! name))) (remove_record name) d (λ d,
  remove_one rm (name +:+ ".dump") (bool_decide (name ∈ df_dumps d)) (remove_file name) d (λ d,
  remove_one rm (name +:+ ".dump.partial") (bool_decide (name ∈ df_partials d)) (remove_partial name) d (λ d,
  (d, Ok tt)))).

(** [DumpDir::prune] *)
Fixpoint prune_dumps_loop (rm : string → bool) (keep : string) (protect : list string)
    (l : list DumpRecord) (removed : list string) (d : DumpFs) : DumpFs * result (list string) string :=
  match l with
  | [] => (d, Ok removed)
  | r :: l' =>
      if negb (str_eqb (dr_name r) keep) && negb (bool_decide (dr_name r ∈ protect))
      then match remove_dump rm (dr_name r) d with
           | (d', Ok _) => prune_dumps_loop rm keep protect l' (removed ++ [dr_name r]) d'
           | (d', Err e) => (d', Err e)
           end
      else prune_dumps_loop rm keep protect l' removed d
  end.

Definition prune_dumps (rm : string → bool) (keep : string) (protect : list string)
    (entries : list string) (d : DumpFs) : DumpFs * result (list string) string :=
  prune_dumps_loop rm keep protect (drop KEEP (list_dumps d entries)) [] d.

(** [DumpDir::remove_partials] *)
Fixpoint remove_partials (rm : string → bool) (entries : list string) (d : DumpFs) : DumpFs * result unit string :=
  match entries with
  | [] => (d, Ok tt)
  | n :: l =>
      if bool_decide (n ∈ df_partials d)
      then if rm (n +:+ ".dump.partial") then remove_partials rm l (remove_partial n d)
           else (d, Err ("remove " +:+ n +:+ ".dump.partial"))
      else remove_partials rm l d
  end.

(** [DumpDir::complete]: the file is flushed, renamed, and the directory flushed. *)
Definition complete_dump (flush rename flush_dir : bool) (name : string) (d : DumpFs) : DumpFs * result unit string :=
  if negb (bool_decide (name ∈ df_partials d)) || negb flush || negb rename then (d, Err "complete")
  else (mkDumpFs (df_records d) ({[name]} ∪ df_dumps d) (df_partials d ∖ {[name]}),
        if flush_dir then Ok tt else Err "sync").

(** ** The grammar of names *)

Inductive dump_name : string → Prop :=
| import_name st : stamp_ok st = true → dump_name (IMPORT_PREFIX +:+ st)
| schema_name st v :
    stamp_ok st = true → (1 <= slen v <= 9)%nat → all_bytes is_ascii_digit v = true →
    dump_name (st +:+ "-schema-" +:+ v)
| shared_name st v x :
    stamp_ok st = true → (1 <= slen v <= 9)%nat → all_bytes is_ascii_digit v = true →
    slen x = 8%nat → all_bytes lower_hex x = true →
    dump_name (st +:+ "-schema-" +:+ v +:+ "-" +:+ x).

Lemma strip_prefix_app p s : strip_prefix p (p +:+ s) = Some s.
Proof. induction p as [|c p IH]; simpl; [done|]. by rewrite Ascii.eqb_refl. Qed.

Lemma strip_prefix_some p s r : strip_prefix p s = Some r → s = p +:+ r.
Proof.
  revert s. induction p as [|c p IH]; intros s; simpl; [by intros [= ->]|].
  destruct s as [|a s]; [done|]. destruct (Ascii.eqb_spec c a) as [->|]; [|done]. intros H. by rewrite (IH _ H).
Qed.

Lemma split_once_str_some p s a b : split_once_str p s = Some (a, b) → s = a +:+ p +:+ b.
Proof.
  revert a. induction s as [|c s IH]; intros a; cbn [split_once_str].
  - destruct (strip_prefix p EmptyString) eqn:E; [|done]. intros [= <- <-]. by apply strip_prefix_some in E.
  - destruct (strip_prefix p (String c s)) eqn:E; [intros [= <- <-]; by apply strip_prefix_some in E|].
    destruct (split_once_str p s) as [[x y]|]; [|done]. intros [= <- <-]. simpl. f_equal. by apply IH.
Qed.

(** A separator that starts with [c] is found after a string without [c]. *)
Lemma split_once_str_app c p a b :
  contains_char c a = false → split_once_str (String c p) (a +:+ String c p +:+ b) = Some (a, b).
Proof.
  induction a as [|x a IH]; intros Ha.
  - change (EmptyString +:+ String c p +:+ b) with (String c (p +:+ b)). cbn [split_once_str strip_prefix].
    by rewrite Ascii.eqb_refl, strip_prefix_app.
  - cbn in Ha. apply orb_false_iff in Ha as [Hx Ha].
    change (String x a +:+ String c p +:+ b) with (String x (a +:+ String c p +:+ b)).
    cbn [split_once_str strip_prefix]. rewrite Ascii.eqb_sym, Hx, IH by done. done.
Qed.

(** What all bytes of a string are not, it does not contain. *)
Lemma all_bytes_lacks f c s : all_bytes f s = true → f c = false → contains_char c s = false.
Proof.
  induction s as [|a s IH]; simpl; [done|]. intros [Ha Hs]%andb_true_iff Hc.
  destruct (Ascii.eqb_spec a c) as [->|]; [congruence|]. by apply IH.
Qed.

Lemma all_bytes_app f a b : all_bytes f (a +:+ b) = all_bytes f a && all_bytes f b.
Proof. induction a as [|c a IH]; simpl; [done|]. by rewrite IH, andb_assoc. Qed.

(** The bytes of a name's stamp. *)
Definition stamp_byte (c : ascii) : bool := is_ascii_digit c || Ascii.eqb c "T" || Ascii.eqb c "Z".

Lemma all_bytes_mono (f h : ascii → bool) s :
  (∀ c, f c = true → h c = true) → all_bytes f s = true → all_bytes h s = true.
Proof. intros Hf. induction s as [|c s IH]; simpl; [done|]. rewrite !andb_true_iff. intros [? ?]. auto. Qed.

Lemma digit_stamp_byte c : is_ascii_digit c = true → stamp_byte c = true.
Proof. unfold stamp_byte. by intros ->. Qed.

Lemma stamp_bytes s : stamp_ok s = true → all_bytes stamp_byte s = true.
Proof.
  unfold stamp_ok. rewrite !andb_true_iff, !str_eqb_true. intros ((((_ & H1) & H2) & H3) & H4).
  rewrite <- (stake_sdrop 8 s), <- (stake_sdrop 1 (sdrop 8 s)), <- (stake_sdrop 6 (sdrop 1 (sdrop 8 s))).
  assert (∀ n m (t : string), sdrop n (sdrop m t) = sdrop (m + n) t) as Hd.
  { intros n m t. revert t. induction m as [|m IH]; intros [|c t]; simpl; try done. by destruct n. }
  rewrite !Hd. simpl (8 + 1)%nat. simpl (9 + 6)%nat. rewrite H2, H4, !all_bytes_app.
  by rewrite (all_bytes_mono _ _ _ digit_stamp_byte H1), (all_bytes_mono _ _ _ digit_stamp_byte H3).
Qed.

Lemma valid_name_spec name : valid_name name = true ↔ dump_name name.
Proof.
  assert (∀ st, stamp_ok st = true → contains_char "-" st = false) as Hst.
  { intros st H. by apply (all_bytes_lacks stamp_byte); [apply stamp_bytes|]. }
  assert (∀ st r, stamp_ok st = true → strip_prefix IMPORT_PREFIX (st +:+ r) = None) as Hip.
  { intros st r H. pose proof (stamp_bytes _ H) as Hb. destruct st as [|c st]; [done|].
    destruct (Ascii.eqb_spec "i" c) as [<-|Hn]; [by vm_compute in Hb|].
    apply Ascii.eqb_neq in Hn. change (String c st +:+ r) with (String c (st +:+ r)).
    unfold IMPORT_PREFIX. cbn [strip_prefix]. by rewrite Hn. }
  assert (∀ v, all_bytes is_ascii_digit v = true → contains_char "-" v = false) as Hv.
  { intros v H. by apply (all_bytes_lacks is_ascii_digit). }
  split.
  - unfold valid_name. destruct (strip_prefix IMPORT_PREFIX name) as [st|] eqn:Ei.
    { intros H. apply strip_prefix_some in Ei as ->. by constructor. }
    destruct (split_once_str "-schema-" name) as [[ts rest]|] eqn:Es; [|done].
    apply split_once_str_some in Es as ->.
    destruct (split_once "-" rest) as [[v x]|] eqn:Ev; rewrite !andb_true_iff, negb_true_iff, str_eqb_false, Nat.leb_le.
    + apply split_once_app in Ev as ->. rewrite Nat.eqb_eq. intros ((((Hs & Hn) & Hl) & Hd) & Hx & Hh).
      apply shared_name; try done. destruct v; [done|]. split; [simpl; lia|done].
    + intros ((((Hs & Hn) & Hl) & Hd) & _). apply schema_name; try done.
      destruct rest; [done|]. split; [simpl; lia|done].
  - unfold valid_name. intros [st H|st v H Hl Hd|st v x H Hl Hd Hx Hh].
    + by rewrite strip_prefix_app.
    + rewrite Hip, split_once_str_app, split_once_none, H, Hd by auto. simpl.
      destruct v; [simpl in Hl; lia|]. rewrite !andb_true_r, andb_true_iff. split; [done|]. apply Nat.leb_le. lia.
    + rewrite Hip by done. rewrite (split_once_str_app "-" "schema-") by auto.
      change ("-" +:+ x) with (String "-" x). rewrite split_once_glue, H, Hd, Hx, Hh by auto. simpl.
      destruct v; [simpl in Hl; lia|]. rewrite !andb_true_r. apply Nat.leb_le. lia.
Qed.

(** The names of dumps are what the grammar says: a stamp and a schema, two dumps of one
    second told apart by eight hex digits, or an import's stamp. Anything else names no file, and a
    name is one path component of the dumps directory. *)
Theorem valid_name_grammar name :
  (valid_name name = true ↔ dump_name name) ∧
  (valid_name name = true → contains_char "/" name = false ∧ contains_char "." name = false).
Proof.
  split; [apply valid_name_spec|]. rewrite valid_name_spec.
  assert (∀ c st, stamp_ok st = true → stamp_byte c = false → contains_char c st = false) as Hst.
  { intros c st H. by apply all_bytes_lacks, stamp_bytes. }
  intros [st H|st v H _ Hd|st v x H _ Hd _ Hx]; rewrite !contains_char_app, ?(Hst _ st H),
    ?(all_bytes_lacks _ "/" _ Hd), ?(all_bytes_lacks _ "." _ Hd),
    ?(all_bytes_lacks _ "/" _ Hx), ?(all_bytes_lacks _ "." _ Hx) by done; done.
Qed.

(** ** Retention *)

Lemma newer_total a b : newer a b = true ∨ newer b a = true.
Proof.
  unfold newer, str_eqb. repeat case_bool_decide; try congruence; apply str_leb_total.
Qed.

Lemma newer_trans a b c : newer a b = true → newer b c = true → newer a c = true.
Proof.
  unfold newer, str_eqb. intros Hab Hbc.
  destruct (decide (dr_created_at a = dr_created_at b)) as [Eab|Nab], (decide (dr_created_at b = dr_created_at c)) as [Ebc|Nbc];
    rewrite ?(bool_decide_eq_true_2 _ Eab), ?(bool_decide_eq_false_2 _ Nab) in Hab;
    rewrite ?(bool_decide_eq_true_2 _ Ebc), ?(bool_decide_eq_false_2 _ Nbc) in Hbc; case_bool_decide as Eac; try congruence.
  - by eapply str_leb_trans.
  - exfalso. apply Nab, str_leb_antisym; congruence.
  - by eapply str_leb_trans.
Qed.

Lemma newer_created a b : newer a b = true → str_leb (dr_created_at b) (dr_created_at a) = true.
Proof. unfold newer, str_eqb. case_bool_decide as E; [|done]. rewrite E. intros _. apply str_leb_refl. Qed.

Lemma listed_name d n r : listed d n = Some r → dr_name r = n.
Proof.
  unfold listed, load_dump. destruct (valid_name n); [|done]. cbn [negb].
  destruct (df_records d !! n) as [[[fmt r']|]|]; [|done..]. destruct (negb (fmt =? DUMP_FORMAT)%Z); [done|].
  destruct (str_eqb (dr_name r') n) eqn:E; [|done]. cbn [negb].
  case_bool_decide; [|done]. intros [= <-]. by apply str_eqb_true.
Qed.

Lemma elem_of_list_dumps d entries r :
  r ∈ list_dumps d entries ↔ dr_name r ∈ entries ∧ listed d (dr_name r) = Some r.
Proof.
  unfold list_dumps. rewrite sort_by_perm, list_elem_of_omap. split.
  - intros (n & Hn & Hr). by rewrite (listed_name _ _ _ Hr).
  - intros [Hn Hr]. eauto.
Qed.

Lemma list_dumps_names d entries : NoDup entries → NoDup (map dr_name (list_dumps d entries)).
Proof.
  intros Hn. unfold list_dumps. rewrite sort_by_perm. induction Hn as [|n l Hin Hl IH]; simpl; [constructor|].
  destruct (listed d n) as [r|] eqn:E; [|done]. simpl. constructor; [|done].
  rewrite (listed_name _ _ _ E). intros Hi. apply Hin.
  rewrite list_elem_of_In, in_map_iff in Hi. destruct Hi as (r' & <- & Hi).
  apply list_elem_of_In, list_elem_of_omap in Hi as (m & Hm & Hr). by rewrite (listed_name _ _ _ Hr).
Qed.

(** Removing one dump leaves the others. *)
Lemma remove_dump_other rm name d d' res n :
  remove_dump rm name d = (d', res) → n ≠ name → listed d' n = listed d n.
Proof.
  assert (∀ d', df_records d' !! n = df_records d !! n → (n ∈ df_dumps d' ↔ n ∈ df_dumps d) → listed d' n = listed d n) as Heq.
  { intros e Hr Hd. unfold listed, load_dump. rewrite Hr. destruct (valid_name n); [|done]. cbn [negb].
    destruct (df_records d !! n) as [[[fmt r']|]|]; [|done..]. destruct (negb (fmt =? DUMP_FORMAT)%Z); [done|].
    destruct (str_eqb (dr_name r') n) eqn:E; [|done]. cbn [negb]. apply str_eqb_true in E as ->.
    by rewrite (bool_decide_ext _ _ Hd). }
  unfold remove_dump, remove_one, remove_record, remove_file, remove_partial. intros H Hne.
  repeat (case_match; simplify_eq/=); apply Heq; simpl; rewrite ?lookup_delete_ne by done; set_solver.
Qed.

Lemma remove_dump_gone rm name d d' : remove_dump rm name d = (d', Ok tt) → listed d' name = None.
Proof.
  assert (∀ d', df_records d' !! name = None → listed d' name = None) as Heq.
  { intros e Hr. unfold listed, load_dump. rewrite Hr. by destruct (valid_name name). }
  unfold remove_dump, remove_one, remove_record, remove_file, remove_partial. intros H.
  destruct (decide (is_Some (df_records d !! name))) as [Hs|Hs].
  - rewrite (bool_decide_eq_true_2 _ Hs) in H. cbn [negb] in H.
    repeat (case_match; simplify_eq/=); apply Heq; simpl; by rewrite lookup_delete_eq.
  - repeat (case_match; simplify_eq/=); try (apply Heq; simpl; rewrite ?lookup_delete_eq; by apply eq_None_not_Some).
Qed.

(** What a prune takes away. *)
Definition prunable (keep : string) (protect : list string) (r : DumpRecord) : Prop :=
  dr_name r ≠ keep ∧ dr_name r ∉ protect.

#[local] Instance prunable_dec keep protect r : Decision (prunable keep protect r).
Proof. unfold prunable. apply _. Defined.

Lemma prune_loop_others rm keep protect l removed d d' res n :
  prune_dumps_loop rm keep protect l removed d = (d', res) →
  (∀ r, r ∈ l → prunable keep protect r → dr_name r ≠ n) → listed d' n = listed d n.
Proof.
  revert removed d. induction l as [|r l IH]; intros removed d; cbn [prune_dumps_loop]; [by intros [= <- _]|].
  intros H Hn. assert (∀ r0, r0 ∈ l → prunable keep protect r0 → dr_name r0 ≠ n) as Hn'.
  { intros r0 Hr0. apply Hn. by right. }
  destruct (negb (str_eqb (dr_name r) keep) && _) eqn:E; [|by eapply IH].
  apply andb_true_iff in E as [E1 E2].
  rewrite negb_true_iff in E1, E2. apply str_eqb_false in E1. apply bool_decide_eq_false in E2.
  destruct (remove_dump rm (dr_name r) d) as [d1 [u|e]] eqn:Er.
  - rewrite (IH _ _ H Hn'). eapply remove_dump_other; [done|]. intros ->. by eapply (Hn r); [left|split|].
  - injection H as <- _. eapply remove_dump_other; [done|]. intros ->. by eapply (Hn r); [left|split|].
Qed.

Lemma prune_loop_gone rm keep protect l removed d d' out r :
  prune_dumps_loop rm keep protect l removed d = (d', Ok out) → NoDup (map dr_name l) →
  r ∈ l → prunable keep protect r → listed d' (dr_name r) = None.
Proof.
  revert removed d. induction l as [|r0 l IH]; intros removed d; cbn [prune_dumps_loop]; [by intros _ _ ?%elem_of_nil|].
  intros H Hnd Hr Hp. inversion Hnd as [|?? Hni Hnd']; subst.
  assert (∀ r1, r1 ∈ l → dr_name r1 ≠ dr_name r0) as Hne.
  { intros r1 H1 E. apply Hni. rewrite <- E. apply list_elem_of_In, in_map, list_elem_of_In. exact H1. }
  apply elem_of_cons in Hr as [->|Hr].
  - destruct Hp as [H1 H2]. rewrite (proj2 (str_eqb_false _ _) H1), bool_decide_eq_false_2 in H by done. cbn in H.
    destruct (remove_dump rm (dr_name r0) d) as [d1 [[]|e]] eqn:Er; [|done].
    rewrite (prune_loop_others _ _ _ _ _ _ _ _ _ H); [by eapply remove_dump_gone|]. intros r1 H3 _. by apply Hne.
  - destruct (negb _ && _); [|by eapply IH].
    destruct (remove_dump rm (dr_name r0) d) as [d1 [u|e]] eqn:Er; [|done]. by eapply IH.
Qed.

(** (C16) Pruning keeps the newest dumps: whatever cannot be removed, a dump among the newest three,
    the one just taken and the one a restore point names are still complete afterwards; a dump
    that is gone was older than three that are kept; and a prune that reports success left none
    beyond those. *)
Theorem prune_keeps_newest rm keep protect entries d d' res :
  NoDup entries → prune_dumps rm keep protect entries d = (d', res) →
  (∀ i r, list_dumps d entries !! i = Some r → (i < KEEP)%nat ∨ ¬ prunable keep protect r →
     r ∈ list_dumps d' entries) ∧
  (∀ r, r ∈ list_dumps d entries → r ∉ list_dumps d' entries →
     prunable keep protect r ∧ ∃ l, List.length l = KEEP ∧ NoDup l ∧
       Forall (λ k, k ∈ list_dumps d' entries ∧ str_leb (dr_created_at r) (dr_created_at k) = true) l) ∧
  (∀ out r, res = Ok out → r ∈ list_dumps d' entries →
     r ∈ take KEEP (list_dumps d entries) ∨ ¬ prunable keep protect r).
Proof.
  intros Hnd H. unfold prune_dumps in H.
  pose proof (list_dumps_names d entries Hnd) as Hnames.
  assert (∀ n, (∀ r, r ∈ drop KEEP (list_dumps d entries) → prunable keep protect r → dr_name r ≠ n) →
    listed d' n = listed d n) as Hsame by (intros n; by eapply prune_loop_others).
  assert (∀ i r, list_dumps d entries !! i = Some r → (i < KEEP)%nat ∨ ¬ prunable keep protect r →
    r ∈ list_dumps d' entries) as Hkept.
  { intros i r Hi Hk. pose proof (list_elem_of_lookup_2 _ _ _ Hi) as Hr.
    apply elem_of_list_dumps in Hr as [Hin Hl]. apply elem_of_list_dumps. split; [done|]. rewrite Hsame; [done|].
    intros r' [k Hk']%list_elem_of_lookup Hp E. rewrite lookup_drop in Hk'.
    assert (KEEP + k = i)%nat as <-.
    { eapply (NoDup_lookup _ _ _ (dr_name r) Hnames); rewrite list_lookup_fmap; [by rewrite Hk', <- E|by rewrite Hi]. }
    rewrite Hi in Hk'. simplify_eq. destruct Hk; [lia|done]. }
  split_and!; [done| |].
  - intros r [i Hi]%list_elem_of_lookup Hg.
    assert (¬ (i < KEEP)%nat ∧ prunable keep protect r) as [Hi' Hp].
    { split; [|apply dec_stable]; intros Hc; apply Hg; eapply Hkept; [done|auto|done|auto]. }
    split; [done|]. exists (take KEEP (list_dumps d entries)).
    pose proof (lookup_lt_Some _ _ _ Hi). split_and!.
    + rewrite length_take. lia.
    + apply (sublist_NoDup _ (list_dumps d entries)); [by eapply NoDup_fmap_1|apply sublist_take].
    + apply Forall_forall. intros k Hk. split.
      * apply elem_of_take in Hk as (n & Hn & Hlt). eapply Hkept; eauto.
      * apply newer_created. eapply (StronglySorted_app_le (λ a b, newer a b = true)
          (take KEEP (list_dumps d entries)) (drop KEEP (list_dumps d entries))); [|done|].
        -- rewrite take_drop. apply sort_by_sorted; [apply newer_total|apply newer_trans].
        -- apply list_elem_of_lookup. exists (i - KEEP)%nat. rewrite lookup_drop.
           by replace (KEEP + (i - KEEP))%nat with i by lia.
  - intros out r -> [Hin Hl]%elem_of_list_dumps.
    destruct (decide (prunable keep protect r)) as [Hp|]; [left|by right].
    assert (NoDup (map dr_name (drop KEEP (list_dumps d entries)))) as Hrest.
    { rewrite <- skipn_map. eapply sublist_NoDup; [exact Hnames|apply sublist_drop]. }
    assert (listed d (dr_name r) = Some r) as Hd.
    { destruct (decide (Exists (λ r', prunable keep protect r' ∧ dr_name r' = dr_name r)
        (drop KEEP (list_dumps d entries)))) as [(r' & Hr & Hp' & E)%Exists_exists|Hn].
      - rewrite <- E in Hl. by rewrite (prune_loop_gone _ _ _ _ _ _ _ _ _ H Hrest Hr Hp') in Hl.
      - rewrite <- Hsame; [done|]. intros r' ? ? ?. apply Hn, Exists_exists. eauto. }
    assert (r ∈ list_dumps d entries) as Hr by (by apply elem_of_list_dumps).
    rewrite <- (take_drop KEEP (list_dumps d entries)) in Hr. apply elem_of_app in Hr as [?|Hr]; [done|].
    by rewrite (prune_loop_gone _ _ _ _ _ _ _ _ _ H Hrest Hr Hp) in Hl.
Qed.

(** Five dumps, the first of them protected: the second goes. *)
Definition some_record (name at_ : string) : DumpRecord :=
  mkDumpRecord name 88 at_ 5 EmptyString None None None None None None.

Definition five : list (string * string) :=
  [("20260921T100000Z-schema-81", "2026-09-21T10:00:00Z"); ("20260922T100000Z-schema-82", "2026-09-22T10:00:00Z");
   ("20260923T100000Z-schema-83", "2026-09-23T10:00:00Z"); ("20260924T100000Z-schema-84", "2026-09-24T10:00:00Z");
   ("20260925T100000Z-schema-85", "2026-09-25T10:00:00Z")].

Definition five_dir : DumpFs :=
  mkDumpFs (list_to_map (map (λ x, (x.1, Parsed (DUMP_FORMAT, some_record x.1 x.2))) five))
    (list_to_set (map fst five)) ∅.

Definition pruned_five : DumpFs * result (list string) string :=
  prune_dumps (λ _, true) "20260925T100000Z-schema-85" ["20260921T100000Z-schema-81"] (map fst five) five_dir.

Example pruned_five_names :
  map dr_name (list_dumps pruned_five.1 (map fst five))
  = ["20260925T100000Z-schema-85"; "20260924T100000Z-schema-84"; "20260923T100000Z-schema-83";
     "20260921T100000Z-schema-81"].
Proof. vm_compute. reflexivity. Qed.

Lemma prune_keeps_newest_witness :
  some_record "20260921T100000Z-schema-81" "2026-09-21T10:00:00Z" ∈ list_dumps pruned_five.1 (map fst five).
Proof.
  destruct (prune_keeps_newest (λ _, true) "20260925T100000Z-schema-85" ["20260921T100000Z-schema-81"]
    (map fst five) five_dir pruned_five.1 pruned_five.2) as (H & _ & _).
  - vm_compute. repeat constructor; rewrite ?list_elem_of_In; simpl; intuition discriminate.
  - by destruct pruned_five eqn:E.
  - apply (H 4%nat); [vm_compute; reflexivity|]. right. intros [_ Hn]. apply Hn. vm_compute. left.
Defined.
