(* ===== verification/Replace.v ===== *)
(** * One replacement

    [crates/quasar-recovery/src/replace.rs] and the migrating part of it in [migrate.rs]: the
    driver of an attempt from its journal, every phase's action, the settlement of an attempt a
    restart left open, and the restore of the kept container. Log lines are left out; the text
    an attempt reports is kept. The components a replacement calls and this file does not model
    are the operations of [ReplaceDeps]. *)
From S2P Require Import Prelude Platform Wire Journal Settle Effects.

(** How a step stopped short. *)
Inductive Halt := Died | HFail (f : Failure).

Definition fail_with (r : Reason) (detail : string) : Halt := HFail (mkFailure r detail).

(** An engine error inside a step: a crash stops everything, anything else fails the step. *)
Definition engine_halt (r : Reason) (what : string) (e : EngineError) : Halt :=
  match e with
  | Crashed => Died
  | e => fail_with r (what +:+ ": " +:+ show_engine_error e)
  end.

Inductive RenderError :=
| RenderUnsupported (role : Role) (revision : Z)
| RenderInvalid (why : string).

Definition show_render_error (e : RenderError) : string :=
  match e with
  | RenderUnsupported role revision =>
      "recipe_unsupported: this recovery actor carries no " +:+ role_str role
      +:+ " recipe at revision " +:+ pretty revision
  | RenderInvalid why => "invalid machine inputs: " +:+ why
  end.

(** Durations, in nanoseconds. *)
Definition secs (n : Z) : Z := n * 1000000000.
Definition as_secs (d : Z) : Z := d / 1000000000.

(** [ReplaceTiming] *)
Record ReplaceTiming := mkReplaceTiming {
  verify_timeout : Z; poll : Z; stop_grace : Z; retries : nat; retry_backoff : Z }.

Definition default_timing : ReplaceTiming :=
  mkReplaceTiming (secs 300) (secs 2) (secs 30) 5 (secs 2).

(** [HandoverTiming] *)
Record HandoverTiming := mkHandoverTiming {
  ho_ready : Z; takeover : Z; ho_verify : Z; agent_contact : Z; ho_poll : Z; orphan_check : Z }.

Definition default_handover : HandoverTiming :=
  mkHandoverTiming (secs 60) (secs 60) (secs 60) (secs 60) 500000000 (secs 5).

Record Config := mkConfig {
  timing : ReplaceTiming;
  self_container : option string;
  handover : HandoverTiming;
  config_role : MachineRole;
  machine_dir_host : option string;
  database_timeout : Z }.

(** The pure functions of the recipe book and of the machine's inputs a replacement uses. *)
Class ReplaceDeps (I : Type) := mkReplaceDeps {
  nvidia_shape : I → bool;
  trust_recorded : I → bool;
  database : I → option DatabaseInputs;
  render : Role → Z → I → ImageRef → SecretMounts → result ContainerSpec RenderError;
  carry_forward : ContainerSpec → Container → bool → ContainerSpec;
  debug_str : string → string;
  debug_duration : Z → string }.

(** [Actor::is_owned_database] *)
Definition owned_database {I : Type} `{!ReplaceDeps I} (i : I) : bool :=
  match database i with Some OwnedDatabase => true | _ => false end.

Definition PREFLIGHT_FAILED : string := "the console agent cannot take the display: ".

(** [database.rs::restore_command] *)
Definition restore_command (dump : option string) (returns_to : string) : string :=
  let exec := "docker exec " +:+ NAME_RECOVERY_ACTOR +:+ " quasar-recovery restore" in
  match dump with
  | Some d => exec +:+ " --dump " +:+ d +:+ " --to " +:+ returns_to
  | None => exec +:+ " --to " +:+ returns_to
  end.

(** [database.rs::returns_to] *)
Definition safe_version (s : string) : bool :=
  negb (str_eqb s EmptyString) && (slen s <=? 64)%nat
  && all_bytes (λ b, is_ascii_alphanumeric b || bool_decide (b ∈ ["."; "_"; "+"; "-"]%char)) s.

Definition returns_to (version : option string) (image : option Image) (ref : ImageRef) : string :=
  let by_digest := stake 12 (default (digest ref) (strip_prefix "sha256:" (digest ref))) in
  let by_commit :=
    match image with
    | Some im =>
        match i_labels im !! "org.quasar.source.commit" with
        | Some c => let c := trim c in
                    if (7 <=? slen c)%nat && all_bytes is_ascii_hexdigit c then stake 12 c else by_digest
        | None => by_digest
        end
    | None => by_digest
    end in
  match version with
  | Some v => if safe_version (trim v) then trim v else by_commit
  | None => by_commit
  end.

Definition dummy_image : ImageRef := mkImageRef EmptyString EmptyString.
Definition dummy_step : Step :=
  mkStep EmptyString dummy_image PhDone None None None None None None None 0 false None.

(** [j.steps[i]]: [i] is always one [current()] returned. *)
Definition step_at (j : Journal) (i : nat) : Step := default dummy_step (j_steps j !! i).

(** A phase as the journal spells it. *)
Definition snake (p : Phase) : string :=
  match p with
  | PhAdmitted => "admitted" | PhPulling => "pulling" | PhChecked => "checked"
  | PhOldKept => "old_kept" | PhCreated => "created" | PhStarted => "started"
  | PhVerifying => "verifying" | PhVerified => "verified" | PhOldDiscarded => "old_discarded"
  | PhRestoring => "restoring" | PhDone => "done"
  | PhCreatingSuccessor => "creating_successor" | PhStartingSuccessor => "starting_successor"
  | PhAwaitingSuccessor => "awaiting_successor" | PhHandingOver => "handing_over"
  | PhSuccessorActive => "successor_active" | PhSuccessorRenaming => "successor_renaming"
  | PhHandingBack => "handing_back" | PhDumping => "dumping"
  end.

(** What components before [i] already changed, for the outcome's text. *)
Definition moved_before (j : Journal) (i : nat) : string :=
  let moved := map (λ s, st_name s +:+ " " +:+ reference (st_image s))
                   (List.filter is_done (take i (j_steps j))) in
  match moved with
  | [] => EmptyString
  | _ => " Earlier in this attempt " +:+ join " and " moved +:+ " "
         +:+ (if (length moved =? 1)%nat then "was" else "were")
         +:+ " replaced and verified, and "
         +:+ (if (length moved =? 1)%nat then "stays" else "stay")
         +:+ " on the new image."
  end.

(** The role of component [i]. *)
Definition role_of (j : Journal) (i : nat) : Role :=
  default NodeAgent (role_parse (st_name (step_at j i))).

(** [finish]'s journal: the outcome, every unfinished step of a failed attempt done, and the
    request fields an older actor would refuse dropped. *)
Definition finish_steps (state : State) (steps : list Step) : list Step :=
  map (λ s, if bool_decide (state = StFailed) && negb (is_done s) then set_phase PhDone s else s) steps.

Definition drop_request_fields (r : Request) : Request :=
  mkRequest (request_id r) (rq_kind r) (components r) (rq_release r) (migrates r)
    (rq_schema_version r) (external_backup_confirmed r) (rq_dump r) (purge r) None
    (wait_timeout_s r) false.

Definition finished_result (state : State) (reason : option Reason) (output : string)
    (restored : bool) (now : string) (r : AttemptResult) : AttemptResult :=
  mkAttemptResult (res_request_id r) state reason (res_components r) (res_previous r)
    (tail_output output OUTPUT_LIMIT) (res_started_at r) now (Some now) restored
    (res_release r) (res_dump r).

Definition finished_journal (state : State) (reason : option Reason) (output : string)
    (restored : bool) (now : string) (j : Journal) : Journal :=
  mkJournal (j_format j) (j_seq j) (j_caller j) (drop_request_fields (j_request j))
    (finish_steps state (j_steps j))
    (finished_result state reason output restored now (j_result j)) (j_restore j).

Section replace.
Context {I : Type} `{!ReplaceDeps I} (cfg : Config).

Implicit Types (j : Journal) (i : nat).

(** [Actor::retrying]; [left] counts down from [retries]. *)
Fixpoint retry_loop {A} (left : nat) (attempt : Z) (op : prog I (result A EngineError)) :
  prog I (result A EngineError) :=
  do r <- op;
  match r, left with
  | Err e, S left' =>
      if is_transient e
      then do _ <- call (Sleep (retry_backoff (timing cfg) * (attempt + 1)));
           retry_loop left' (attempt + 1) op
      else Ret r
  | _, _ => Ret r
  end.
Definition retrying {A} (op : prog I (result A EngineError)) : prog I (result A EngineError) :=
  retry_loop (retries (timing cfg)) 0 op.

(** [Actor::commit]: projected, stamped and stored; a journal that cannot be written stops
    the attempt. *)
Definition commit j : prog I (result Journal unit) :=
  do k <- call Killed;
  if k then Ret (Err tt)
  else do now <- call NowStamp;
       let j1 := project j in
       let j' := set_result (set_updated_at now (j_result j1)) j1 in
       do r <- call (StoreJournal j');
       match r with
       | Ok _ => Ret (Ok j')
       | Err _ => Ret (Err tt)
       end.

(** [Actor::advance] *)
Definition advance j i (p : Phase) : prog I (result Journal unit) :=
  commit (update_step i (set_phase p) j).

(** [Actor::finish]; the journal it leaves is the attempt's record from then on. *)
Definition finish j (state : State) (reason : option Reason) (output : string)
    (restored : bool) : prog I (result Journal unit) :=
  do k <- call Killed;
  if k then Ret (Err tt)
  else do now <- call NowStamp;
       let j' := finished_journal state reason output restored now j in
       do r <- call (StoreJournal j');
       match r with
       | Err _ => Ret (Err tt)
       | Ok _ =>
           do _ <- call PruneJournals;
           do _ <- call (ForgetReady (request_id (j_request j)));
           Ret (Ok j')
       end.

(** [Actor::died] *)
Definition died : prog I unit :=
  do k <- call Killed;
  if k then Ret tt else call MarkDied.

(** [Actor::attempt_containers]: this installation's containers of the component's role that
    this attempt created, never one it replaces, never this process's own. *)
Definition is_attempt_container j i (installation : string) (c : Container) : bool :=
  bool_decide (c_labels c !! LABEL_ATTEMPT = Some (request_id (j_request j)))
  && bool_decide (c_labels c !! LABEL_INSTALLATION = Some installation)
  && bool_decide (c_labels c !! LABEL_PLATFORM_SERVICE = Some (role_str (role_of j i)))
  && negb (bool_decide (c_id c ∈ omap old_container (j_steps j)))
  && negb (match self_container cfg with Some me => same_container me (c_id c) | None => false end).

Definition attempt_containers j i : prog I (result (list Container) EngineError) :=
  do m <- call LoadMachine;
  match m with
  | Ok (Some machine) =>
      do? all <- retrying (call ListContainers);
      Ret (Ok (List.filter (is_attempt_container j i (m_installation_id machine)) all))
  | _ => Ret (Ok [])
  end.

(** [Actor::node_agent_secrets] and [Actor::control_plane_secrets]: the secrets of a service
    that are stored on this machine. *)
Fixpoint stored_secrets (names : list string) (files : gset string) :
  prog I (result (gset string) string) :=
  match names with
  | [] => Ret (Ok files)
  | name :: names' =>
      do? v <- call (LoadSecret name);
      stored_secrets names' (match v with Some _ => {[name]} ∪ files | None => files end)
  end.

Definition node_agent_secrets : prog I (result SecretMounts string) :=
  do? files <- stored_secrets ["enrollment"; "local-enrollment"] ∅;
  Ret (Ok (mkSecretMounts (Some "quasar-node-agent-secrets") files)).

Definition control_plane_secrets : prog I (result SecretMounts string) :=
  do? files <- stored_secrets ["database-password"; "secret-key"; "local-enrollment"] ∅;
  Ret (Ok (mkSecretMounts (Some "quasar-control-plane-secrets") files)).

(** [Actor::is_ours] *)
Definition is_ours (machine : Machine I) (c : Container) (role : Role) : bool :=
  bool_decide (c_labels c !! LABEL_INSTALLATION = Some (m_installation_id machine))
  && bool_decide (c_labels c !! LABEL_PLATFORM_SERVICE = Some (role_str role)).

(** ** The schema floor ([database.rs]) *)

Definition schema_allows (image : Image) (ref : string) : prog I (result unit string) :=
  do f <- call LoadFloor;
  match f with
  | Err e => Ret (Err ("schema-floor.json cannot be read (" +:+ e +:+ ")"))
  | Ok None => Ret (Ok tt)
  | Ok (Some floor) =>
      match image_schema image with
      | Some v =>
          if (floor_schema floor <=? v)%Z then Ret (Ok tt)
          else Ret (Err (ref +:+ " is a control plane of schema " +:+ pretty v
            +:+ ", and this machine's database may be at schema " +:+ pretty (floor_schema floor)
            +:+ " (since attempt " +:+ floor_request_id floor
            +:+ "); an older control plane never runs against a newer schema. Restore a dump taken before that update to go back"))
      | None =>
          Ret (Err (ref +:+ " declares no " +:+ LABEL_IMAGE_SCHEMA
            +:+ " label, and this machine's database may be at schema "
            +:+ pretty (floor_schema floor) +:+ "; it is not started"))
      end
  end.

Definition raise_floor (schema : Z) (rid : string) : prog I (result unit string) :=
  do? f <- call LoadFloor;
  match f with
  | Some fl => if (schema <=? floor_schema fl)%Z then Ret (Ok tt)
               else do now <- call NowStamp; call (StoreFloor (mkSchemaFloor schema rid now))
  | None => do now <- call NowStamp; call (StoreFloor (mkSchemaFloor schema rid now))
  end.

Definition local_image_schema (image : ImageRef) : prog I (result (option Z) EngineError) :=
  do? found <- call (InspectImage (reference image));
  Ret (Ok (match found with Some im => image_schema im | None => None end)).

(** [Actor::recorded_control_plane] *)
Definition recorded_control_plane (machine : Machine I) :
  prog I (result (option (ImageRef * Z)) EngineError) :=
  do svc <- call (LoadService ControlPlane);
  match svc with
  | Ok (Some r) => Ret (Ok (Some (sr_image r, sr_revision r)))
  | _ =>
      match m_install_images machine !! role_str ControlPlane with
      | None => Ret (Ok None)
      | Some image =>
          do? found <- call (InspectImage (reference image));
          Ret (Ok (match found with
                   | Some im => match i_labels im !! LABEL_IMAGE_RECIPE with
                                | Some l => (λ rev, (image, rev)) <$> parse_unsigned U32_MAX (trim l)
                                | None => None
                                end
                   | None => None
                   end))
      end
  end.

(** [Actor::migration_target] *)
Definition migration_target j i : prog I (result (option Z) EngineError) :=
  do? s <- local_image_schema (st_image (step_at j i));
  Ret (Ok (match s with Some v => Some v | None => rq_schema_version (j_request j) end)).

(** [Actor::control_plane_migrates] *)
Definition control_plane_migrates j (machine : Machine I) (found : Image) (ref : string)
    (running : option Container) : prog I (result bool Halt) :=
  do? _ <- map_errp (λ why, fail_with Invalid (why +:+ ". The running control plane was not touched"))
             (schema_allows found ref);
  let new := image_schema found in
  let read := engine_halt PullFailed "read the running control plane's image" in
  do? old <-
    match running with
    | Some c =>
        do? im <- map_errp read (call (InspectImage (c_image_id c)));
        Ret (Ok (match im with Some im => image_schema im | None => None end))
    | None =>
        do? rec <- map_errp read (recorded_control_plane machine);
        match rec with
        | Some (image, _) => map_errp read (local_image_schema image)
        | None => Ret (Ok None)
        end
    end;
  if negb (migrates (j_request j)) && bool_decide (is_Some new) && bool_decide (old = None)
  then Ret (Err (fail_with Invalid (ref +:+ " is a control plane of schema "
         +:+ pretty (default 0%Z new)
         +:+ ", and the schema of the control plane it replaces cannot be read, so whether it migrates the database cannot be told. Nothing was changed")))
  else
  let mig := migrates (j_request j)
             || match new, old with Some n, Some o => (o <? n)%Z | _, _ => false end in
  if mig && bool_decide (new = None) && bool_decide (rq_schema_version (j_request j) = None)
  then Ret (Err (fail_with Invalid ("this update migrates the database, but " +:+ ref
         +:+ " declares no " +:+ LABEL_IMAGE_SCHEMA
         +:+ " label and the request names no schema, so no schema floor could keep an older control plane off the migrated database. Nothing was changed")))
  else if mig && negb (owned_database (m_inputs machine))
          && negb (external_backup_confirmed (j_request j))
  then Ret (Err (fail_with BackupUnconfirmed "this control plane migrates the operator's own database, and no current backup of it was confirmed; Quasar never dumps an operator's database. Nothing was changed: take a backup, then apply again confirming it"))
  else Ret (Ok mig).

(** ** The phases' actions *)

(** The image by digest, pulled if absent ([pull_and_check], first part). *)
Definition pull_image (ref : string) : prog I (result Image Halt) :=
  let inspect := map_errp (engine_halt PullFailed ("inspect " +:+ ref))
                   (retrying (call (InspectImage ref))) in
  do? present <- inspect;
  do? _ <- match present with
           | Some _ => Ret (Ok tt)
           | None => map_errp (engine_halt PullFailed ("pull " +:+ ref))
                       (retrying (call (PullImage ref)))
           end;
  do? found <- inspect;
  Ret (ok_or found (fail_with PullFailed (ref +:+ " is not present after the pull"))).

(** The recipe revision the image declares, refused before anything stops. *)
Definition check_revision (role : Role) (ref : string) (found : Image) : result Z Halt :=
  match i_labels found !! LABEL_IMAGE_RECIPE with
  | None => Err (fail_with RecipeUnsupported (ref +:+ " carries no " +:+ LABEL_IMAGE_RECIPE
              +:+ " label, so this recovery actor cannot tell how to create it; the running service was not touched"))
  | Some label =>
      match parse_unsigned U32_MAX (trim label) with
      | None => Err (fail_with RecipeUnsupported (ref +:+ " declares " +:+ LABEL_IMAGE_RECIPE
                  +:+ "=" +:+ debug_str label +:+ ", which is not a revision"))
      | Some revision =>
          if book_supports role revision then Ok revision
          else Err (fail_with RecipeUnsupported (ref +:+ " needs " +:+ role_str role
                 +:+ " recipe revision " +:+ pretty revision
                 +:+ ", which this recovery actor does not carry (it renders "
                 +:+ match book_window role with
                     | Some (lo, hi) => "Some(" +:+ pretty lo +:+ "..=" +:+ pretty hi +:+ ")"
                     | None => "None"
                     end
                 +:+ "); apply the recovery actor that does first. The running service was not touched"))
      end
  end.

(** An update of an agent that has the GPU fails closed when the new revision would lose it. *)
Definition check_gpu (role : Role) (machine : Machine I) (image : ImageRef) (revision : Z) :
  prog I (result (Machine I) Halt) :=
  if negb (bool_decide (role = NodeAgent)) then Ret (Ok machine)
  else
  let had_gpu := nvidia_shape (m_inputs machine) in
  do? machine <- map_errp (λ e, fail_with RecreateFailed ("GPU decision: " +:+ e))
                   (call (DecideGpus machine image revision));
  if had_gpu && negb (nvidia_shape (m_inputs machine))
  then Ret (Err (fail_with RecreateFailed
         ("the engine no longer gives this agent the NVIDIA GPU the way recipe revision "
          +:+ pretty revision
          +:+ " asks for it; the running agent was not touched (see the actor's actor-gpus-refused line)")))
  else if nvidia_shape (m_inputs machine)
  then do? _ <- map_errp (λ e, fail_with RecreateFailed ("driver volume: " +:+ e))
                  (call (EnsureVolume machine NVIDIA_DRIVER_VOLUME role));
       Ret (Ok machine)
  else Ret (Ok machine).

Definition is_self (c : Container) : bool :=
  match self_container cfg with Some me => same_container me (c_id c) | None => false end.

(** [Actor::pull_and_check]: nothing is stopped here; the step's record is written at the
    end only. *)
Definition checked_step (mig : bool) (revision : Z) (spec : ContainerSpec)
    (old : option Container) (s : Step) : Step :=
  mkStep (st_name s) (st_image s) (st_phase s) (c_id <$> old)
    (match old with Some c => c_restart c | None => None end) (old_digest s)
    (Some revision) (Some spec) (new_container s) (st_failure s) (successor_starts s)
    mig (st_dump s).

Definition pull_and_check j i : prog I (result Journal Halt) :=
  let role := role_of j i in
  let image := st_image (step_at j i) in
  let ref := reference image in
  do? found <- pull_image ref;
  do? revision <- Ret (check_revision role ref found);
  do m <- call LoadMachine;
  do? machine <- Ret (match m with
                      | Ok (Some m) => Ok m
                      | Ok None => Err (fail_with RecreateFailed "machine state is missing")
                      | Err e => Err (fail_with RecreateFailed ("machine state: " +:+ e))
                      end);
  do? machine <- check_gpu role machine image revision;
  do? secrets <- map_errp (λ e, fail_with RecreateFailed ("machine state: " +:+ e))
                   (match role with
                    | NodeAgent => node_agent_secrets
                    | ControlPlane => control_plane_secrets
                    | _ => Ret (Ok (mkSecretMounts None ∅))
                    end);
  do? spec <- Ret (map_err (λ e, match e with
                      | RenderUnsupported _ _ => fail_with RecipeUnsupported (show_render_error e)
                      | RenderInvalid _ => fail_with RecreateFailed (show_render_error e)
                      end) (render role revision (m_inputs machine) image secrets));
  do? old <- map_errp (engine_halt RecreateFailed "inspect the running container")
               (retrying (call (InspectContainer (container_name role))));
  do? _ <- Ret (match old with
                | Some c =>
                    if negb (bool_decide (role = RecoveryActor) && is_self c)
                       && negb (is_ours machine c role)
                    then Err (fail_with OwnerConflict ("container " +:+ c_name c +:+ " ("
                           +:+ c_image c +:+ ") is not this installation's; it is never acted on, and the running service was not touched"))
                    else Ok tt
                | None => Ok tt
                end);
  do? spec <-
    (if bool_decide (role = RecoveryActor)
     then match old with
          | Some c =>
              if is_self c
              then do m <- call LoadMachine;
                   let trusted := match m with
                                  | Ok (Some m) => trust_recorded (m_inputs m)
                                  | _ => false
                                  end in
                   Ret (Ok (carry_forward spec c trusted))
              else Ret (Err (fail_with RecreateFailed ("the container named "
                     +:+ container_name role +:+ " is not the recovery actor running this attempt, so it cannot hand over to a successor; the running actor was not touched")))
          | None => Ret (Err (fail_with RecreateFailed ("the container named "
                     +:+ container_name role +:+ " is not the recovery actor running this attempt, so it cannot hand over to a successor; the running actor was not touched")))
          end
     else Ret (Ok spec));
  do? mig <- (if bool_decide (role = ControlPlane)
              then control_plane_migrates j machine found ref old
              else Ret (Ok false));
  Ret (Ok (update_step i (checked_step mig revision spec old) j)).

(** [Actor::take_dump]: the pre-update dump of an owned database, then the restore point. *)
Definition dump_halt (e : EngineError) : Halt := engine_halt BackupFailed "the container engine" e.

Definition taken_by (records : list DumpRecord) (id : string) : option DumpRecord :=
  find_first (λ r, bool_decide (dr_request_id r = Some id)) records.

Definition set_dump (name : string) (s : Step) : Step :=
  mkStep (st_name s) (st_image s) (st_phase s) (old_container s) (old_restart s) (old_digest s)
    (st_revision s) (st_spec s) (new_container s) (st_failure s) (successor_starts s)
    (migrating s) (Some name).

Definition set_res_dump (name : string) (r : AttemptResult) : AttemptResult :=
  mkAttemptResult (res_request_id r) (res_state r) (res_reason r) (res_components r)
    (res_previous r) (res_output r) (res_started_at r) (res_updated_at r) (res_finished_at r)
    (res_restored r) (res_release r) (Some name).

Definition drop_previous (p : RestorePoint) : RestorePoint :=
  mkRestorePoint (rp_request_id p) (rp_returns_to p) (rp_control_plane p) (rp_recipe_revision p)
    (rp_schema_version p) (rp_dump p) (rp_created_at p) None.

(** The dump of this attempt, one it already completed included, or the way it failed. *)
Definition dump_of_attempt (machine : Machine I) j (image : ImageRef) (found : option Image)
    (revision : Z) (to : string) (before : option RestorePoint) :
  prog I (result DumpRecord Halt) :=
  do records <- call DumpList;
  match taken_by records (request_id (j_request j)) with
  | Some done => Ret (Ok done)
  | None =>
      map_errp (λ f, match f with Some f => HFail f | None => Died end)
        (call (DumpNow machine j image found revision to (before ≫= rp_dump)))
  end.

Definition take_dump j i : prog I (Journal * result unit Halt) :=
  let id := request_id (j_request j) in
  do m <- call LoadMachine;
  match m with
  | Ok (Some machine) =>
      do rec <- map_errp dump_halt (recorded_control_plane machine);
      match rec with
      | Err h => Ret (j, Err h)
      | Ok None => Ret (j, Err (fail_with BackupFailed "this machine has no record of the control plane it runs, so a restore could not start it again; nothing was changed"))
      | Ok (Some (old_image, old_revision)) =>
          do found <- map_errp dump_halt (call (InspectImage (reference old_image)));
          match found with
          | Err h => Ret (j, Err h)
          | Ok found =>
              let to := returns_to (from_version (j_request j)) found old_image in
              do p <- call LoadPoint;
              let before := match p with
                            | Ok (Some p) => if str_eqb (rp_request_id p) id then None else Some p
                            | _ => None
                            end in
              do now <- call NowStamp;
              let point schema dump := mkRestorePoint id to old_image old_revision schema dump now
                                         (drop_previous <$> before) in
              do x <- (if owned_database (m_inputs machine)
                       then do r <- dump_of_attempt machine j old_image found old_revision to before;
                            Ret (match r with
                                 | Err h => Err h
                                 | Ok d => Ok (point (Some (dr_schema_version d)) (Some (dr_name d)),
                                     set_result (set_res_dump (dr_name d) (j_result j))
                                       (update_step i (set_dump (dr_name d)) j))
                                 end)
                       else Ret (Ok (point (found ≫= image_schema) None, j)));
              match x with
              | Err h => Ret (j, Err h)
              | Ok (pt, j') =>
                  do r <- map_errp (λ e, fail_with BackupFailed ("record the restore point: " +:+ e))
                            (call (StorePoint pt));
                  Ret (j', r)
              end
          end
      end
  | _ => Ret (j, Err (fail_with BackupFailed "machine state is unreadable"))
  end.

(** [Actor::discard_dump] *)
Definition discard_dump (id : string) : prog I unit :=
  do _ <- call DumpRemovePartials;
  do records <- call DumpList;
  do _ <- (match taken_by records id with
           | Some d => do _ <- call (DumpRemove (dr_name d)); Ret tt
           | None => Ret tt
           end);
  do p <- call LoadPoint;
  match p with
  | Ok (Some p) =>
      if str_eqb (rp_request_id p) id
      then do _ <- match rp_previous p with
                   | Some prev => call (StorePoint prev)
                   | None => call ClearPoint
                   end; Ret tt
      else Ret tt
  | _ => Ret tt
  end.

(** [Actor::keep_old]: disable the restart policy, stop, rename [.kept]. *)
Definition remove_stale (kept : string) (old : Container) : prog I (result unit Halt) :=
  do? stale <- map_errp (engine_halt RecreateFailed "inspect the kept name")
                 (retrying (call (InspectContainer kept)));
  match stale with
  | None => Ret (Ok tt)
  | Some stale =>
      do sc <- call ScanJournals;
      match sc_unreadable sc with
      | _ :: _ =>
          Ret (Err (fail_with RecreateFailed ("container " +:+ c_name stale
            +:+ " is kept by an earlier attempt and attempt journal(s) ["
            +:+ join ", " (map debug_str (sc_unreadable sc))
            +:+ "] cannot be read; it is not removed")))
      | [] =>
          if negb (bool_decide (c_labels stale !! LABEL_INSTALLATION = c_labels old !! LABEL_INSTALLATION))
          then Ret (Err (fail_with OwnerConflict ("container " +:+ c_name stale +:+ " ("
                 +:+ c_image stale +:+ ") is not this installation's; it is never acted on")))
          else map_errp (engine_halt RecreateFailed "remove a stale kept container")
                 (retrying (call (RemoveContainer (c_id stale))))
      end
  end.

Definition keep_old j i : prog I (result unit Halt) :=
  match old_container (step_at j i) with
  | None => Ret (Ok tt)
  | Some old_id =>
      let kept := kept_name (container_name (role_of j i)) in
      do? old <- map_errp (engine_halt RecreateFailed "inspect the old container")
                   (retrying (call (InspectContainer old_id)));
      match old with
      | None => Ret (Ok tt)
      | Some old =>
          do? _ <- (if bool_decide (c_restart old = Some RestartNo) then Ret (Ok tt)
                    else map_errp (engine_halt RecreateFailed "disable the old container's restart")
                           (retrying (call (SetRestartPolicy old_id RestartNo))));
          do? _ <- map_errp (engine_halt RecreateFailed "stop the old container")
                     (retrying (call (StopContainer old_id (stop_grace (timing cfg)))));
          if str_eqb (c_name old) kept then Ret (Ok tt)
          else
          do? _ <- remove_stale kept old;
          map_errp (engine_halt RecreateFailed "rename the old container")
            (retrying (call (RenameContainer old_id kept)))
      end
  end.

(** [Actor::create_new]: a container this attempt already created is reused. *)
Definition create_new j i : prog I (result Journal Halt) :=
  do? mine <- map_errp (engine_halt RecreateFailed "list containers") (attempt_containers j i);
  match mine with
  | c :: _ => Ret (Ok (update_step i (set_new_container (Some (c_id c))) j))
  | [] =>
      let name := container_name (role_of j i) in
      do? holder <- map_errp (engine_halt RecreateFailed "inspect the service name")
                      (retrying (call (InspectContainer name)));
      do? _ <- Ret (match holder with
                    | Some c =>
                        if bool_decide (Some (c_id c) = old_container (step_at j i)) then Ok tt
                        else Err (fail_with OwnerConflict ("container " +:+ c_name c +:+ " ("
                               +:+ c_image c +:+ ") holds the service's name and was not created by this attempt; it is never acted on"))
                    | None => Ok tt
                    end);
      do? spec <- Ret (ok_or (st_spec (step_at j i))
                         (fail_with RecreateFailed "no rendered specification was journalled"));
      do? new <- map_errp (engine_halt RecreateFailed "create the new container")
                   (retrying (call (CreateContainer
                      (spec_add_label LABEL_ATTEMPT (request_id (j_request j)) spec))));
      Ret (Ok (update_step i (set_new_container (Some new)) j))
  end.

(** [Actor::new_container] *)
Definition find_new j i : prog I (result (option Container) Halt) :=
  let by_label :=
    do? mine <- map_errp (engine_halt RecreateFailed "list containers") (attempt_containers j i);
    Ret (Ok (head mine)) in
  match new_container (step_at j i) with
  | Some new =>
      do? c <- map_errp (engine_halt RecreateFailed "inspect the new container")
                 (retrying (call (InspectContainer new)));
      match c with
      | Some c => Ret (Ok (Some c))
      | None => by_label
      end
  | None => by_label
  end.

(** [Actor::start_new]: a migrating control plane starts only once the schema floor is at
    its schema. *)
Definition floor_before_start j i : prog I (result unit Halt) :=
  if migrating (step_at j i)
  then do? target <- map_errp (engine_halt RecreateFailed "read the new image") (migration_target j i);
       do? schema <- Ret (ok_or target (fail_with Invalid
            "the new control plane declares no schema and the request names none, so the schema floor cannot be raised; it was not started"));
       map_errp (λ _, Died) (raise_floor schema (request_id (j_request j)))
  else Ret (Ok tt).

Definition start_new j i : prog I (result unit Halt) :=
  do? c <- find_new j i;
  do? c <- Ret (ok_or c (fail_with RecreateFailed "the new container is gone"));
  if c_running c then Ret (Ok tt)
  else
  do? _ <- floor_before_start j i;
  do r <- retrying (call (StartContainer (c_id c)));
  Ret (match r with
       | Ok _ => Ok tt
       | Err Crashed => Err Died
       | Err e => Err (fail_with NeverStarted
           ("the engine did not start the new container, so it never ran: " +:+ show_engine_error e))
       end).

(** [Actor::verify]: running and healthy (or running twice with no healthcheck) before the
    deadline. [fuel] bounds the looks taken; [verify_fuel] below is enough. *)
Definition verify_deadline j : Z :=
  if (0 <? wait_timeout_s (j_request j))%Z
  then secs (Z.min (wait_timeout_s (j_request j)) 3600)
  else verify_timeout (timing cfg).

Definition look j i : prog I (result (option Container) EngineError) :=
  match new_container (step_at j i) with
  | Some id => call (InspectContainer id)
  | None => Ret (Ok None)
  end.

(** What one look decides: the outcome, or the flags and text the next look carries. *)
Inductive glance :=
| Decided (r : result unit Halt)
| Undecided (ran : bool) (steady : nat) (last : string) (never_started : bool).

Definition glance_at (needs_health mig ran : bool) (steady : nat)
    (seen : result (option Container) EngineError) : glance :=
  match seen with
  | Ok (Some c) =>
      let ran := ran || c_running c in
      let last := "state=" +:+ c_status c +:+ " health=" +:+ default "none" (c_health c) in
      let never := negb ran && str_eqb (c_status c) "created" in
      let unhealthy := bool_decide (c_health c = Some "unhealthy") && negb mig in
      if c_running c && bool_decide (c_health c = Some "healthy") then Decided (Ok tt)
      else if c_running c && bool_decide (c_health c = None) && negb needs_health
      then if (2 <=? S steady)%nat then Decided (Ok tt) else Undecided ran (S steady) last never
      else if unhealthy
      then Decided (Err (fail_with Unhealthy
             ("the new container reported unhealthy (" +:+ last +:+ ")")))
      else Undecided ran 0 last never
  | Ok None => Decided (Err (fail_with RecreateFailed
                 "the new container disappeared during verification"))
  | Err Crashed => Decided (Err Died)
  | Err e => Undecided ran steady ("the engine did not answer: " +:+ show_engine_error e) false
  end.

Definition preflight j i : prog I (option string) :=
  if bool_decide (role_of j i = NodeAgent)
  then call (FailedPreflight (request_id (j_request j))) else Ret None.

Fixpoint verify_loop (fuel : nat) (deadline : Z) j i (ran : bool) (steady : nat) :
  prog I (result unit Halt) :=
  match fuel with
  | O => Spin
  | S fuel' =>
      do pf <- preflight j i;
      match pf with
      | Some why => Ret (Err (fail_with Unhealthy (PREFLIGHT_FAILED +:+ why)))
      | None =>
          do seen <- look j i;
          match glance_at (bool_decide (role_of j i = ControlPlane)) (migrating (step_at j i))
                  ran steady seen with
          | Decided r => Ret r
          | Undecided ran steady last never =>
              do late <- (if never then do t <- call Now; Ret (deadline <=? t)%Z else Ret false);
              if late
              then Ret (Err (fail_with NeverStarted
                     ("the new container never started (" +:+ last +:+ ")")))
              else
              do t <- call Now;
              if (deadline <=? t)%Z
              then Ret (Err (fail_with Unhealthy
                     ("the new container was not running and healthy within "
                      +:+ pretty (as_secs (verify_deadline j)) +:+ "s (" +:+ last +:+ ")")))
              else do _ <- call (Sleep (poll (timing cfg)));
                   verify_loop fuel' deadline j i ran steady
          end
      end
  end.

Definition verify (fuel : nat) j i : prog I (result unit Halt) :=
  do start <- call Now;
  verify_loop fuel (start + verify_deadline j) j i false 0.

(** [Actor::record_new] with [Actor::record] *)
Definition record_new j i : prog I (result unit Halt) :=
  let s := step_at j i in
  match st_revision s, st_spec s with
  | Some revision, Some spec =>
      do now <- call NowStamp;
      map_errp (λ _, Died)
        (call (StoreService (mkServiceRecord (role_of j i) revision (st_image s)
           (default EmptyString (cs_labels spec !! LABEL_SPEC)) spec now)))
  | _, _ => Ret (Err (fail_with RecreateFailed "no rendered specification was journalled"))
  end.

(** [Actor::discard_old]: a kept container that cannot be removed is left for the next
    attempt. *)
Definition discard_old j i : prog I (result unit Halt) :=
  match old_container (step_at j i) with
  | None => Ret (Ok tt)
  | Some old =>
      do r <- retrying (call (RemoveContainer old));
      Ret (match r with Err Crashed => Err Died | _ => Ok tt end)
  end.

(** [Actor::bring_back]: [Err Died] is the source's [CRASHED] marker. *)
Definition crashed_or (e : EngineError) : result string unit :=
  match e with Crashed => Err tt | e => Ok (show_engine_error e) end.

Fixpoint await_running (fuel : nat) (deadline : Z) (old_id : string) :
  prog I (result unit (result string unit)) :=
  match fuel with
  | O => Spin
  | S fuel' =>
      do seen <- call (InspectContainer old_id);
      match seen with
      | Err Crashed => Ret (Err (Err tt))
      | _ =>
          if match seen with Ok (Some c) => c_running c | _ => false end then Ret (Ok tt)
          else
          do t <- call Now;
          if (deadline <=? t)%Z
          then Ret (Err (Ok "the previous container did not come back up"))
          else do _ <- call (Sleep (poll (timing cfg)));
               await_running fuel' deadline old_id
      end
  end.

Definition schema_back (canonical : string) (old : Container) :
  prog I (result unit (result string unit)) :=
  if str_eqb canonical (container_name ControlPlane)
  then do? im <- map_errp crashed_or (retrying (call (InspectImage (c_image_id old))));
       do? im <- Ret (ok_or im (Ok "the previous control plane's image is gone"));
       map_errp Ok (schema_allows im (c_image old))
  else Ret (Ok tt).

Definition name_back (old_id canonical : string) (old : Container) :
  prog I (result unit (result string unit)) :=
  if str_eqb (c_name old) canonical then Ret (Ok tt)
  else do? other <- map_errp crashed_or (retrying (call (InspectContainer canonical)));
       match other with
       | Some c => Ret (Err (Ok ("container " +:+ c_name c +:+ " holds the service's name")))
       | None => map_errp crashed_or (retrying (call (RenameContainer old_id canonical)))
       end.

Definition bring_back (fuel : nat) (old_id canonical : string) (policy : option RestartPolicy) :
  prog I (result unit (result string unit)) :=
  do? old <- map_errp crashed_or (retrying (call (InspectContainer old_id)));
  do? old <- Ret (ok_or old (Ok "the previous container is gone"));
  do? _ <- schema_back canonical old;
  do? _ <- name_back old_id canonical old;
  let policy := default UnlessStopped policy in
  do? _ <- (if bool_decide (c_restart old = Some policy) then Ret (Ok tt)
            else map_errp crashed_or (retrying (call (SetRestartPolicy old_id policy))));
  do? _ <- (if c_running old then Ret (Ok tt)
            else map_errp crashed_or (retrying (call (StartContainer old_id))));
  do start <- call Now;
  await_running fuel (start + verify_timeout (timing cfg)) old_id.

(** ** A migrating control plane that did not verify ([migrate.rs]) *)

Definition stop_failed (id : string) (started : bool) : prog I (result unit EngineError) :=
  if negb started then retrying (call (RemoveContainer id))
  else do? _ <- retrying (call (SetRestartPolicy id RestartNo));
       retrying (call (StopContainer id (stop_grace (timing cfg)))).

Definition failed_started (new : option string) : prog I (result bool unit) :=
  match new with
  | Some id =>
      do r <- call (InspectContainer id);
      Ret (match r with
           | Ok (Some c) => Ok (c_running c || negb (str_eqb (c_status c) "created"))
           | Err Crashed => Err tt
           | _ => Ok true
           end)
  | None => Ret (Ok false)
  end.

Definition failed_logs (new : option string) : prog I (result string unit) :=
  match new with
  | Some id =>
      do r <- call (LogsTail id 40);
      Ret (match r with
           | Ok tail => Ok (if str_eqb (trim_end tail) EmptyString then EmptyString
                            else nl +:+ "--- last lines of the new control plane ---" +:+ nl
                                 +:+ tail_output (trim_end tail) LOG_TAIL_LIMIT)
           | Err Crashed => Err tt
           | _ => Ok EmptyString
           end)
  | None => Ret (Ok EmptyString)
  end.

Definition stopped_text (started : bool) (stopped : option (result unit EngineError)) : string :=
  (if started
   then nl +:+ "This release migrates the database, and its migration may have run, so the previous control plane was not put back: an older control plane never runs against a newer schema."
   else nl +:+ "This release migrates the database, so the previous control plane was not put back automatically. The new control plane never started, so its migration did not run.")
  +:+
  match stopped with
  | None => if started then " The new one is left as it is." else EmptyString
  | Some (Ok _) =>
      if started
      then " The new one is stopped with its restart disabled, so it does not migrate your database again."
      else " It was removed, so nothing starts it outside this update."
  | Some (Err e) =>
      if started
      then " The new one could not be stopped (" +:+ show_engine_error e
           +:+ "): stop it yourself (docker stop " +:+ NAME_CONTROL_PLANE
           +:+ ") before you restore your backup, or its next start migrates the database again."
      else " The new one could not be removed (" +:+ show_engine_error e
           +:+ "): remove it yourself (docker rm " +:+ NAME_CONTROL_PLANE
           +:+ "), or the recovery actor's next start runs its migration."
  end.

Definition way_back_text (point : option RestorePoint) : string :=
  match point with
  | Some p =>
      match rp_dump p with
      | Some dump =>
          nl +:+ "To go back to " +:+ rp_returns_to p
          +:+ ", run this on this machine. It stops the control plane, loads the dump " +:+ dump
          +:+ " taken before the update into Quasar's database, and starts " +:+ rp_returns_to p
          +:+ " again; anything written since the dump is lost:" +:+ nl
          +:+ restore_command (Some dump) (rp_returns_to p)
      | None =>
          nl +:+ "Quasar holds no dump of an operator's own database. To go back to "
          +:+ rp_returns_to p +:+ ": make sure the control plane is stopped (docker stop "
          +:+ NAME_CONTROL_PLANE
          +:+ "), restore the backup you confirmed with your own tools, then run this on this machine; it starts "
          +:+ rp_returns_to p +:+ " only if the database's schema matches it:" +:+ nl
          +:+ restore_command None (rp_returns_to p)
      end
  | None => nl +:+ "No restore point was recorded for this attempt, so no restore command can be printed."
  end.

Definition fail_migrating j i (failure : Failure) : prog I (result Journal unit) :=
  let new := new_container (step_at j i) in
  do? started <- failed_started new;
  do? logs <- failed_logs new;
  do p <- call LoadPoint;
  let point := match p with
               | Ok (Some p) => if str_eqb (rp_request_id p) (request_id (j_request j)) then Some p else None
               | _ => None
               end in
  let external := match point with Some p => bool_decide (rp_dump p = None) | None => false end in
  do? stopped <-
    (match new with
     | Some id =>
         if external || negb started
         then do r <- stop_failed id started;
              Ret (match r with Err Crashed => Err tt | other => Ok (Some other) end)
         else Ret (Ok None)
     | None => Ret (Ok None)
     end);
  let output := fl_detail failure +:+ logs +:+ moved_before j i
                +:+ stopped_text started stopped +:+ way_back_text point in
  finish j StFailed (Some (fl_reason failure)) output false.

(** [Actor::restore]: the new container goes, the kept one comes back. *)
Definition remove_new (new : option Container) : prog I (result string unit) :=
  match new with
  | None => Ret (Ok EmptyString)
  | Some c =>
      do s <- retrying (call (StopContainer (c_id c) (stop_grace (timing cfg))));
      match s with
      | Err Crashed => Ret (Err tt)
      | _ =>
          do l <- call (LogsTail (c_id c) 40);
          match l with
          | Err Crashed => Ret (Err tt)
          | _ =>
              let logs := match l with
                          | Ok tail => if str_eqb (trim_end tail) EmptyString then EmptyString
                                       else nl +:+ "--- last lines of the failed container ---" +:+ nl
                                            +:+ embedded_log_tail tail
                          | Err _ => EmptyString
                          end in
              do r <- retrying (call (RemoveContainer (c_id c)));
              match r with
              | Ok _ => Ret (Ok logs)
              | Err Crashed => Ret (Err tt)
              | Err e => Ret (Ok (logs +:+ nl +:+ "the failed container could not be removed: "
                                  +:+ show_engine_error e))
              end
          end
      end
  end.

Definition restore (fuel : nat) j i : prog I (result Journal unit) :=
  let failure := default (mkFailure Unhealthy EmptyString) (st_failure (step_at j i)) in
  if migrating (step_at j i) then fail_migrating j i failure
  else
  let canonical := container_name (role_of j i) in
  do new <- find_new j i;
  match new with
  | Err Died => Ret (Err tt)
  | _ =>
      let '(found, noted) := match new with
                             | Ok c => (c, EmptyString)
                             | Err (HFail f) => (None, nl +:+ fl_detail f)
                             | Err Died => (None, EmptyString)
                             end in
      do? logs <- remove_new found;
      do back <- match old_container (step_at j i) with
                 | None => Ret (Err (Ok "there was no previous container to put back"))
                 | Some old_id => bring_back fuel old_id canonical (old_restart (step_at j i))
                 end;
      match back with
      | Err (Err _) => Ret (Err tt)
      | _ =>
          let '(restored, said) :=
            match back with
            | Ok _ => (true, nl +:+ "the new container did not verify; the previous container was put back and is running")
            | Err (Ok why) => (false, nl +:+ "the new container did not verify and the automatic restore ALSO failed ("
                                      +:+ why +:+ "); apply the digests in `previous` by hand")
            | Err (Err _) => (false, EmptyString)
            end in
          finish j StFailed (Some (fl_reason failure))
            (fl_detail failure +:+ noted +:+ logs +:+ said +:+ moved_before j i) restored
      end
  end.

(** ** The driver *)

(** What one phase's action leads to: the phase to journal next, or where the loop leaves. *)
Inductive step_outcome :=
| Next (j : Journal) (r : result Phase Halt)
| Leave (r : result Journal unit)
| Again (r : result Journal unit).

Definition handover_phase (p : Phase) : bool :=
  match p with
  | PhCreatingSuccessor | PhStartingSuccessor | PhAwaitingSuccessor | PhHandingOver
  | PhSuccessorActive | PhSuccessorRenaming | PhHandingBack => true
  | _ => false
  end.

Definition to_phase {A} (p : Phase) (r : result A Halt) : result Phase Halt :=
  match r with Ok _ => Ok p | Err h => Err h end.

(** A step that also writes the journal in memory leaves it as it was when it fails. *)
Definition with_journal j (p : Phase) (r : result Journal Halt) : step_outcome :=
  match r with Ok j' => Next j' (Ok p) | Err h => Next j (Err h) end.

Definition phase_action (fuel : nat) j i : prog I step_outcome :=
  let s := step_at j i in
  match st_phase s with
  | PhAdmitted => do r <- advance j i PhPulling; Ret (Again r)
  | PhPulling => do r <- pull_and_check j i; Ret (with_journal j PhChecked r)
  | PhChecked => Ret (Next j (Ok (if migrating s then PhDumping else PhOldKept)))
  | PhDumping => do x <- take_dump j i; let (j', r) := x in Ret (Next j' (to_phase PhOldKept r))
  | PhOldKept => do r <- keep_old j i; Ret (Next j (to_phase PhCreated r))
  | PhCreated => do r <- create_new j i; Ret (with_journal j PhStarted r)
  | PhStarted => do r <- start_new j i; Ret (Next j (to_phase PhVerifying r))
  | PhVerifying => do r <- verify fuel j i; Ret (Next j (to_phase PhVerified r))
  | PhVerified => do r <- record_new j i; Ret (Next j (to_phase PhOldDiscarded r))
  | PhOldDiscarded => do r <- discard_old j i; Ret (Next j (to_phase PhDone r))
  | PhRestoring => do r <- restore fuel j i; Ret (Leave r)
  | PhDone => Spin
  | _ =>
      do r <- finish j StFailed (Some Invalid)
                ("component " +:+ st_name s +:+ " is journalled in a hand-over phase, which only the recovery actor's own component has")
                false;
      Ret (Leave r)
  end.

(** The arms of [run] on a phase's outcome. *)
Definition after_phase j i (r : result Phase Halt) : prog I step_outcome :=
  match r with
  | Ok next => do r <- advance j i next; Ret (Again r)
  | Err Died => Ret (Leave (Err tt))
  | Err (HFail failure) =>
      if negb (touched_old (st_phase (step_at j i)))
      then do r <- finish j StFailed (Some (fl_reason failure))
                     (fl_detail failure +:+ moved_before j i) false;
           Ret (Leave r)
      else if migrating (step_at j i)
      then do r <- fail_migrating j i failure; Ret (Leave r)
      else do r <- advance (update_step i (set_failure (Some failure)) j) i PhRestoring;
           Ret (Again r)
  end.

(** A phase's action, then the arm its outcome takes. *)
Definition conclude i (o : step_outcome) : prog I step_outcome :=
  match o with
  | Next j r => after_phase j i r
  | Leave r => Ret (Leave r)
  | Again r => Ret (Again r)
  end.

(** One turn of [run]'s loop at component [i]. *)
Definition turn (fuel : nat) j i : prog I step_outcome :=
  if is_actor (step_at j i)
  then do x <- call (DriveHandover j i);
       let (j', r) := x in
       Ret (match r with
            | Ok StepDone => Again (Ok j')
            | Ok Ended => Leave (Ok j')
            | Err _ => Leave (Err tt)
            end)
  else do o <- phase_action fuel j i;
       conclude i o.

(** [Actor::run]'s loop; [turns] bounds its iterations, [fuel] the polls inside one. *)
Fixpoint run_loop (turns fuel : nat) j : prog I (result Journal unit) :=
  match turns with
  | O => Spin
  | S turns' =>
      if negb (is_open j) then Ret (Ok j)
      else match current j with
           | None => finish j StSucceeded None EmptyString false
           | Some i =>
               do o <- turn fuel j i;
               match o with
               | Leave r => Ret r
               | Again (Ok j') => run_loop turns' fuel j'
               | Again (Err _) => Ret (Err tt)
               | Next _ _ => Spin
               end
           end
  end.

(** [.map(|_| ())] *)
Definition forget {A E} (r : result A E) : result unit E :=
  match r with Ok _ => Ok tt | Err e => Err e end.

Definition run (turns fuel : nat) j : prog I (result unit unit) :=
  match j_restore j with
  | Some _ => call (RunRestore j)
  | None => do r <- run_loop turns fuel j; Ret (forget r)
  end.

(** [Actor::interrupt] *)
Fixpoint remove_created (l : list Container) : prog I (result unit unit) :=
  match l with
  | [] => Ret (Ok tt)
  | c :: l' =>
      do r <- retrying (call (RemoveContainer (c_id c)));
      match r with
      | Err Crashed => Ret (Err tt)
      | _ => remove_created l'
      end
  end.

Definition interrupt j : prog I (result unit unit) :=
  match j_restore j with
  | Some _ => call (InterruptRestore j)
  | None =>
      let cur := default 0%nat (current j) in
      let s := step_at j cur in
      do _ <- (if match j_steps j !! cur with Some s => migrating s | None => false end
               then discard_dump (request_id (j_request j)) else Ret tt);
      do created <- attempt_containers j cur;
      match created with
      | Err Crashed => Ret (Err tt)
      | _ =>
          do? _ <- remove_created (match created with Ok l => l | Err _ => [] end);
          do r <- finish j StFailed (Some Interrupted)
            ("the recovery actor, the container engine or the machine restarted while "
             +:+ st_name s +:+ " was at `" +:+ snake (st_phase s) +:+ "`, before the running "
             +:+ st_name s +:+ " was touched; it was not changed." +:+ moved_before j cur
             +:+ " It is not retried: apply again to try again.") false;
          Ret (forget r)
      end
  end.

(** [Actor::restart_verifying] *)
Definition restart_verifying j : prog I (result Journal unit) :=
  match current j with
  | None => Ret (Ok j)
  | Some i =>
      let s := step_at j i in
      if negb (bool_decide (st_phase s = PhVerifying)) || is_actor s then Ret (Ok j)
      else
      do c <- find_new j i;
      match c with
      | Err Died => Ret (Err tt)
      | Err (HFail _) => Ret (Ok j)
      | Ok c =>
          if match c with Some c => c_running c | None => false end then Ret (Ok j)
          else
          do r <- start_new j i;
          match r with
          | Ok _ => Ret (Ok j)
          | Err Died => Ret (Err tt)
          | Err (HFail failure) =>
              if migrating s then fail_migrating j i failure
              else advance (update_step i (set_failure (Some failure)) j) i PhRestoring
          end
      end
  end.

(** [Actor::party]: which process this is to the attempt's recovery-actor component. *)
Definition party_of j : prog I Party :=
  match find_first is_actor (j_steps j), self_container cfg with
  | Some step, Some me =>
      if match old_container step with Some o => same_container me o | None => false end
      then Ret Old
      else if match new_container step with Some n => same_container me n | None => false end
      then Ret Successor
      else
      do r <- call (InspectContainer me);
      Ret (match r with
           | Ok (Some c) =>
               if bool_decide (c_labels c !! LABEL_ATTEMPT = Some (request_id (j_request j)))
                  && bool_decide (c_labels c !! LABEL_PLATFORM_SERVICE = Some (role_str RecoveryActor))
               then Successor
               else Stranger (bool_decide (snd <$> split_once "@" (c_image c)
                                           = Some (digest (st_image step))))
           | _ => Stranger false
           end)
  | _, _ => Ret (Stranger false)
  end.

(** [Actor::begin_actor_restore] *)
Definition restore_failure (party : Party) (s : Step) : Failure :=
  match party, st_phase s with
  | Old, PhHandingOver => mkFailure Unhealthy
      ("the successor did not take the machine's lease within " +:+ debug_duration (takeover (handover cfg))
       +:+ " of the hand-over")
  | Old, _ => mkFailure Unhealthy "the successor stopped before it verified itself"
  | Successor, _ => mkFailure Unhealthy ("the successor was started "
      +:+ pretty (successor_starts s) +:+ " times and never verified itself")
  | Stranger _, (PhVerified | PhOldDiscarded) => mkFailure RecreateFailed
      "the successor verified, then every recovery-actor container was removed before seed.json named it; the seed re-created the last verified actor it knew"
  | Stranger _, _ => mkFailure RecreateFailed
      "every recovery-actor container of the hand-over was removed before the successor verified; the recovery actor the seed re-created settled it"
  end.

Definition begin_actor_restore j (party : Party) : prog I (result Journal unit) :=
  match current j with
  | None => Ret (Ok j)
  | Some i =>
      let s := step_at j i in
      if negb (is_actor s) || bool_decide (st_phase s = PhRestoring)
         || bool_decide (st_phase s = PhHandingBack)
      then Ret (Ok j)
      else
      let failure := default (restore_failure party s) (st_failure s) in
      advance (update_step i (set_failure (Some failure)) j) i PhRestoring
  end.

(** [Actor::settle_journal] *)
Definition settle_journal (turns fuel : nat) j : prog I (result unit unit) :=
  do party <- party_of j;
  do? j <- (match count_successor_start (self_container cfg) j party with
            | Some j' => commit j'
            | None => Ret (Ok j)
            end);
  match settle j party with
  | Terminal => Ret (Ok tt)
  | SettleInterrupted => interrupt j
  | Continue => do? j <- restart_verifying j; run turns fuel j
  | SettleRestore => do? j <- begin_actor_restore j party; run turns fuel j
  | Yield => call (YieldAttempt j party)
  end.

(** [Actor::drive] and [Actor::settle_open] *)
Definition drive (turns fuel : nat) (id : string) : prog I unit :=
  do r <- call (LoadJournal id);
  match r with
  | Ok (Some j) =>
      do r <- run turns fuel j;
      match r with Ok _ => Ret tt | Err _ => died end
  | _ => Ret tt
  end.

Definition settle_open (turns fuel : nat) : prog I (result unit string) :=
  do sc <- call ScanJournals;
  match sc_unreadable sc with
  | _ :: _ => Ret (Err ("unreadable attempt journal(s) ["
                        +:+ join ", " (map debug_str (sc_unreadable sc)) +:+ "]"))
  | [] =>
      match scan_open sc with
      | None => Ret (Ok tt)
      | Some j =>
          do r <- settle_journal turns fuel j;
          match r with
          | Ok _ => Ret (Ok tt)
          | Err _ => do _ <- died;
              Ret (Err "the open attempt stopped before it reached an outcome; the next start settles it")
          end
      end
  end.
End replace.
