(* ===== verification/ReplaceSpec.v ===== *)
(** * What a replacement promises

    The abstract machine of an attempt ([attempt_step]), and the monitor a replacement is
    checked against: when each engine call may be made, what the engine and the machine's files
    may answer, and what the history remembers. The attempts specified here are a service's
    ([service_journal]): no restore, and no component of the recovery actor itself. *)
From S2P Require Import Prelude Platform Wire Journal Settle Effects Replace.

(** ** The history

    The last durable journal, the containers as last seen (one that is gone counts as stopped)
    and their names, the containers known to be the
    attempt's own, the last image inspected with its schema, the schema floor as last read or
    written, the machine's installation as last read, the clock, and whether the process died
    (it was killed, an engine call crashed, or a write it depends on failed). *)
Record World := mkWorld {
  g_dur : Journal;
  g_conts : gmap string Container;
  g_names : gmap string string;
  g_owned : gset string;
  g_image : option (string * option Z);
  g_floor : option (option Z);
  g_install : option string;
  g_clock : Z;
  g_broken : bool }.

Definition with_dur (j : Journal) (g : World) : World :=
  mkWorld j (g_conts g) (g_names g) (g_owned g) (g_image g) (g_floor g) (g_install g) (g_clock g) (g_broken g).
Definition with_conts (m : gmap string Container) (g : World) : World :=
  mkWorld (g_dur g) m (g_names g) (g_owned g) (g_image g) (g_floor g) (g_install g) (g_clock g) (g_broken g).
Definition with_names (m : gmap string string) (g : World) : World :=
  mkWorld (g_dur g) (g_conts g) m (g_owned g) (g_image g) (g_floor g) (g_install g) (g_clock g) (g_broken g).
Definition with_owned (o : gset string) (g : World) : World :=
  mkWorld (g_dur g) (g_conts g) (g_names g) o (g_image g) (g_floor g) (g_install g) (g_clock g) (g_broken g).
Definition with_image (i : string * option Z) (g : World) : World :=
  mkWorld (g_dur g) (g_conts g) (g_names g) (g_owned g) (Some i) (g_floor g) (g_install g) (g_clock g) (g_broken g).
Definition with_floor (f : option Z) (g : World) : World :=
  mkWorld (g_dur g) (g_conts g) (g_names g) (g_owned g) (g_image g) (Some f) (g_install g) (g_clock g) (g_broken g).
Definition with_install (i : string) (g : World) : World :=
  mkWorld (g_dur g) (g_conts g) (g_names g) (g_owned g) (g_image g) (g_floor g) (Some i) (g_clock g) (g_broken g).
Definition with_clock (t : Z) (g : World) : World :=
  mkWorld (g_dur g) (g_conts g) (g_names g) (g_owned g) (g_image g) (g_floor g) (g_install g) t (g_broken g).
Definition break_if (b : bool) (g : World) : World :=
  mkWorld (g_dur g) (g_conts g) (g_names g) (g_owned g) (g_image g) (g_floor g) (g_install g) (g_clock g) (g_broken g || b).

Definition stopped (c : Container) : Container :=
  mkContainer (c_id c) (c_name c) (c_image c) (c_image_id c) (c_labels c) (c_status c) false
    (c_health c) (c_restart c) (c_mounts c) (c_command c) (c_env c) (c_created c) (c_started_at c).

(** The component an attempt is at. *)
Definition cur_step (j : Journal) : option Step := current j ≫= λ i, j_steps j !! i.

Definition at_cur (j : Journal) (P : Step → Prop) : Prop :=
  match cur_step j with Some s => P s | None => False end.

Definition step_role (s : Step) : Role := default NodeAgent (role_parse (st_name s)).

Definition service_journal (j : Journal) : Prop :=
  j_restore j = None ∧ Forall (λ s, is_actor s = false) (j_steps j).

Definition owned (g : World) (id : string) : Prop :=
  id ∈ g_owned g ∨ at_cur (g_dur g) (λ s, new_container s = Some id).

(** A listed container that is this attempt's: labelled with it, this installation's, of the
    component's role, and no container it replaces. *)
Definition attempt_labelled (g : World) (c : Container) : bool :=
  bool_decide (c_labels c !! LABEL_ATTEMPT = Some (request_id (j_request (g_dur g))))
  && match g_install g with
     | Some i => bool_decide (c_labels c !! LABEL_INSTALLATION = Some i) | None => false end
  && match cur_step (g_dur g) with
     | Some s => bool_decide (c_labels c !! LABEL_PLATFORM_SERVICE = Some (role_str (step_role s)))
     | None => false end
  && negb (bool_decide (c_id c ∈ omap old_container (j_steps (g_dur g)))).

Definition see (c : Container) (g : World) : World :=
  with_names (<[c_id c := c_name c]> (g_names g)) (with_conts (<[c_id c := c]> (g_conts g)) g).

Definition see_listed (l : list Container) (g : World) : World :=
  with_owned (g_owned g ∪ list_to_set (map c_id (List.filter (attempt_labelled g) l)))
    (foldr see g l).

Definition crashed {A} (r : result A EngineError) : bool :=
  match r with Err Crashed => true | _ => false end.
Definition is_err {A E} (r : result A E) : bool := negb (is_ok r).

Definition advance_world {I X} (g : World) (e : eff I X) : X → World :=
  match e in eff _ X return X → World with
  | InspectImage ref => λ r,
      break_if (crashed r)
        match r with
        | Ok o => with_image (ref, o ≫= image_schema) g
        | Err _ => g
        end
  | InspectContainer n => λ r,
      break_if (crashed r)
        match r with
        | Ok (Some c) => see c g
        | Ok None => with_conts (alter stopped n (g_conts g)) g
        | Err _ => g
        end
  | ListContainers => λ r,
      break_if (crashed r) match r with Ok l => see_listed l g | Err _ => g end
  | CreateContainer _ => λ r,
      break_if (crashed r)
        match r with Ok id => with_owned ({[id]} ∪ g_owned g) g | Err _ => g end
  | StopContainer id _ => λ r,
      break_if (crashed r) (with_conts (alter stopped id (g_conts g)) g)
  | RenameContainer id n => λ r,
      break_if (crashed r)
        match r with
        | Ok _ => with_names (<[id := n]> (g_names g)) g
        | Err _ => with_names (delete id (g_names g)) g
        end
  | RemoveContainer id => λ r,
      break_if (crashed r)
        match r with Ok _ => with_conts (delete id (g_conts g)) g | Err _ => g end
  | PullImage _ => λ r, break_if (crashed r) g
  | StartContainer _ => λ r, break_if (crashed r) g
  | SetRestartPolicy _ _ => λ r, break_if (crashed r) g
  | LogsTail _ _ => λ r, break_if (crashed r) g
  | StoreJournal j => λ r, match r with Ok _ => with_dur j g | Err _ => break_if true g end
  | LoadMachine => λ r,
      match r with Ok (Some m) => with_install (m_installation_id m) g | _ => g end
  | StoreService _ => λ r, break_if (is_err r) g
  | LoadFloor => λ r,
      match r with Ok f => with_floor (floor_schema <$> f) g | Err _ => break_if true g end
  | StoreFloor f => λ r,
      match r with Ok _ => with_floor (Some (floor_schema f)) g | Err _ => break_if true g end
  | DumpNow _ _ _ _ _ _ _ => λ r,
      break_if match r with Err None => true | _ => false end g
  | Killed => λ k, break_if k g
  | Now => λ t, with_clock t g
  | Sleep d => λ _, with_clock (g_clock g + Z.max 0 d) g
  | _ => λ _, g
  end.

(** The answers an attempt stops for without an outcome: the process is killed, an engine call
    crashes, a journal, a service's record or the schema floor is not written, the floor is not
    read, the dump dies. The next process of the actor continues from the journal. *)
Definition stops_attempt {I} (ev : event I) : bool :=
  match ev_call ev in eff _ X return X → bool with
  | Killed => λ k, k
  | InspectImage _ => crashed | InspectContainer _ => crashed | ListContainers => crashed
  | CreateContainer _ => crashed | StopContainer _ _ => crashed | RenameContainer _ _ => crashed
  | RemoveContainer _ => crashed | PullImage _ => crashed | StartContainer _ => crashed
  | SetRestartPolicy _ _ => crashed | LogsTail _ _ => crashed
  | StoreJournal _ => is_err | StoreService _ => is_err | StoreFloor _ => is_err | LoadFloor => is_err
  | DumpNow _ _ _ _ _ _ _ => λ r, match r with Err None => true | _ => false end
  | _ => λ _, false
  end (ev_answer ev).

(** ** What the engine and the clock promise

    A platform name (a service's or its kept container's) resolves to a container of that name,
    and is never a container's id; any other string a replacement looks up is an id, and
    resolves to that container; a container's name and image do not change behind this actor's
    back; a container it creates is none the attempt replaces; the clock does not run
    backwards. *)
Definition platform_name (n : string) : bool :=
  existsb (λ r, str_eqb n (container_name r) || str_eqb n (kept_name (container_name r))) ROLE_ALL.

Definition resolves (n : string) (c : Container) : Prop :=
  platform_name (c_id c) = false ∧
  if platform_name n then c_name c = n else c_id c = n.

Definition consistent (g : World) (c : Container) : Prop :=
  (∀ n, g_names g !! c_id c = Some n → c_name c = n) ∧
  (∀ c0, g_conts g !! c_id c = Some c0 → c_image_id c = c_image_id c0).

Definition world_allows {I X} (g : World) (e : eff I X) : X → Prop :=
  match e in eff _ X return X → Prop with
  | InspectContainer n => λ r,
      match r with Ok (Some c) => resolves n c ∧ consistent g c | _ => True end
  | ListContainers => λ r,
      match r with Ok l => Forall (λ c, platform_name (c_id c) = false) l | _ => True end
  | CreateContainer _ => λ r,
      match r with
      | Ok id => platform_name id = false ∧ id ∉ omap old_container (j_steps (g_dur g))
      | _ => True
      end
  | Now => λ t, (g_clock g <= t)%Z
  | _ => λ _, True
  end.

(** ** The abstract machine *)

(** The phases of a service's component, in the order they are journalled. *)
Definition phase_edge (mig : bool) (p p' : Phase) : bool :=
  match p, p' with
  | PhAdmitted, PhPulling | PhPulling, PhChecked => true
  | PhChecked, PhDumping => mig
  | PhChecked, PhOldKept => negb mig
  | PhDumping, PhOldKept | PhOldKept, PhCreated | PhCreated, PhStarted | PhStarted, PhVerifying
  | PhVerifying, PhVerified | PhVerified, PhOldDiscarded | PhOldDiscarded, PhDone => true
  | (PhOldKept | PhCreated | PhStarted | PhVerifying | PhVerified), PhRestoring => negb mig
  | _, _ => false
  end.

(** A component ends its attempt [failed] only untouched, after a restore, or as a migrating
    control plane, which is never put back (a hand-over phase is another component's). *)
Definition may_fail (s : Step) : bool :=
  negb (touched_old (st_phase s)) || bool_decide (st_phase s = PhRestoring) || migrating s
  || handover_phase (st_phase s).

(** The new container was last seen ready: running, and healthy unless it has no healthcheck
    and its role needs none. *)
Definition ready (role : Role) (c : Container) : bool :=
  c_running c
  && (bool_decide (c_health c = Some "healthy")
      || bool_decide (c_health c = None) && negb (bool_decide (role = ControlPlane))).

Definition new_seen_ready (g : World) (s : Step) : Prop :=
  ∃ id c, new_container s = Some id ∧ g_conts g !! id = Some c ∧ ready (step_role s) c = true.

(** The old container is out of service: gone, or last seen stopped. *)
Definition old_out_of_service (g : World) (s : Step) : Prop :=
  ∀ id c, old_container s = Some id → g_conts g !! id = Some c → c_running c = false.

(** The old container was put back: last seen running, under the service's own name. *)
Definition old_put_back (g : World) (s : Step) : Prop :=
  ∃ id c, old_container s = Some id ∧ g_conts g !! id = Some c ∧
    c_running c = true ∧ g_names g !! id = Some (container_name (step_role s)).

Record move (g : World) (s s' : Step) : Prop := mkMove {
  mv_edge : phase_edge (migrating s') (st_phase s) (st_phase s') = true;
  mv_name : st_name s' = st_name s;
  mv_image : st_image s' = st_image s;
  mv_checked : st_phase s = PhPulling → is_Some (st_spec s') ∧ is_Some (st_revision s');
  mv_record : st_phase s ≠ PhPulling →
    old_container s' = old_container s ∧ migrating s' = migrating s ∧
    st_spec s' = st_spec s ∧ st_revision s' = st_revision s;
  mv_kept : st_phase s' = PhCreated → old_out_of_service g s;
  mv_new : st_phase s' ≠ PhStarted → new_container s' = new_container s;
  mv_created : st_phase s' = PhStarted →
    ∃ id, new_container s' = Some id ∧ old_container s' ≠ Some id;
  mv_verified : st_phase s' = PhVerified → new_seen_ready g s;
  mv_restoring : st_phase s' = PhRestoring → is_Some (st_failure s') }.

Inductive attempt_step (g : World) (j j' : Journal) : Prop :=
| step_move i s s' :
    is_open j = true → current j = Some i → j_steps j !! i = Some s →
    move g s s' → j_steps j' = <[i := s']> (j_steps j) →
    is_open j' = true → j_request j' = j_request j → j_restore j' = j_restore j →
    (rank (res_state (j_result j)) <= rank (res_state (j_result j')))%Z →
    attempt_step g j j'
| step_succeed :
    is_open j = true → current j = None → j_steps j' = j_steps j →
    res_state (j_result j') = StSucceeded → res_reason (j_result j') = None →
    res_restored (j_result j') = false → j_restore j' = j_restore j →
    request_id (j_request j') = request_id (j_request j) →
    attempt_step g j j'
| step_fail i s :
    is_open j = true → current j = Some i → j_steps j !! i = Some s → may_fail s = true →
    Forall (λ s, st_phase s = PhDone) (j_steps j') →
    map st_name (j_steps j') = map st_name (j_steps j) →
    res_state (j_result j') = StFailed → is_Some (res_reason (j_result j')) →
    (res_restored (j_result j') = true → st_phase s = PhRestoring ∧ old_put_back g s) →
    j_restore j' = j_restore j → request_id (j_request j') = request_id (j_request j) →
    attempt_step g j j'.

(** ** When a call may be made *)

(** A migrating control plane starts only under a schema floor at its own schema. *)
Definition floor_raised (g : World) (s : Step) : Prop :=
  ∃ t f, g_image g = Some (reference (st_image s), t) ∧ g_floor g = Some (Some f) ∧
    ∃ v, match t with Some v => Some v | None => rq_schema_version (j_request (g_dur g)) end = Some v
         ∧ (v <= f)%Z.

(** A control plane put back is of a schema the floor allows. *)
Definition floor_allows (g : World) (s : Step) (id : string) : Prop :=
  step_role s = ControlPlane →
  ∃ c t fl, g_conts g !! id = Some c ∧ g_image g = Some (c_image_id c, t) ∧ g_floor g = Some fl ∧
    match fl with Some f => ∃ v, t = Some v ∧ (f <= v)%Z | None => True end.

Definition may_start (g : World) (id : string) (s : Step) : Prop :=
  (old_container s = Some id ∧ st_phase s = PhRestoring ∧ migrating s = false ∧ floor_allows g s id)
  ∨ (owned g id ∧ st_phase s ∈ [PhStarted; PhVerifying] ∧ (migrating s = true → floor_raised g s)).

Definition may_stop (g : World) (id : string) (s : Step) : Prop :=
  (old_container s = Some id ∧ st_phase s = PhOldKept)
  ∨ (owned g id ∧ touched_old (st_phase s) = true ∧
     (st_phase s = PhRestoring ∨ migrating s = true)).

Definition may_set_policy (g : World) (id : string) (p : RestartPolicy) (s : Step) : Prop :=
  (old_container s = Some id ∧ (st_phase s = PhOldKept ∧ p = RestartNo
                                ∨ st_phase s = PhRestoring ∧ migrating s = false))
  ∨ (owned g id ∧ p = RestartNo ∧ touched_old (st_phase s) = true ∧ migrating s = true).

Definition may_rename (id name : string) (s : Step) : Prop :=
  old_container s = Some id ∧
  (st_phase s = PhOldKept ∧ name = kept_name (container_name (step_role s))
   ∨ st_phase s = PhRestoring ∧ migrating s = false ∧ name = container_name (step_role s)).

(** The old container is removed only once the new one is verified and the component is at
    [old_discarded]. What else is removed is the attempt's own, or a container an earlier
    attempt left under the kept name. *)
Definition may_remove (g : World) (id : string) (s : Step) : Prop :=
  (old_container s = Some id ∧ st_phase s = PhOldDiscarded)
  ∨ (old_container s ≠ Some id ∧
     (owned g id ∧ touched_old (st_phase s) = true ∧ (st_phase s = PhRestoring ∨ migrating s = true)
      ∨ owned g id ∧ touched_old (st_phase s) = false
      ∨ st_phase s = PhOldKept ∧ g_names g !! id = Some (kept_name (container_name (step_role s))))).

Definition world_requires {I X} (g : World) (e : eff I X) : Prop :=
  match e with
  | CreateContainer spec =>
      at_cur (g_dur g) (λ s, st_phase s = PhCreated ∧
        ∃ sp, st_spec s = Some sp ∧
          spec = spec_add_label LABEL_ATTEMPT (request_id (j_request (g_dur g))) sp)
  | StartContainer id => at_cur (g_dur g) (may_start g id)
  | StopContainer id _ => at_cur (g_dur g) (may_stop g id)
  | SetRestartPolicy id p => at_cur (g_dur g) (may_set_policy g id p)
  | RenameContainer id n => at_cur (g_dur g) (may_rename id n)
  | RemoveContainer id => at_cur (g_dur g) (may_remove g id)
  | StoreJournal j => attempt_step g (g_dur g) j
  | StoreService r =>
      at_cur (g_dur g) (λ s, st_phase s = PhVerified ∧ sr_role r = step_role s ∧
        sr_image r = st_image s ∧ st_spec s = Some (sr_spec r))
  | StoreFloor f =>
      at_cur (g_dur g) (λ s, migrating s = true) ∧
      ∃ o, g_floor g = Some o ∧ (∀ f0, o = Some f0 → (f0 < floor_schema f)%Z)
  | DriveHandover _ _ | RunRestore _ | InterruptRestore _ | YieldAttempt _ _ => False
  | _ => True
  end.

Definition watch (I : Type) : Monitor I World :=
  mkMonitor I World (λ X g e, world_requires g e) (λ X g e, world_allows g e)
    (λ X g e, advance_world g e).

Lemma see_broken (l : list Container) g : g_broken (foldr see g l) = g_broken g.
Proof. induction l as [|c l IH]; [done|]. simpl. by rewrite IH. Qed.

Lemma broken_step {I X} g (e : eff I X) x :
  g_broken (advance_world g e x) = g_broken g || stops_attempt (mkEvent e x).
Proof.
  destruct e; cbn; try (by rewrite orb_false_r); repeat case_match; cbn; simplify_eq/=;
    by rewrite ?orb_false_r, ?orb_true_r, ?see_broken.
Qed.

Lemma broken_history {I} g (l : list (event I)) :
  g_broken (history (watch I) g l) = g_broken g || existsb stops_attempt l.
Proof.
  revert g. induction l as [|[X e x] l IH]; intros g; cbn [history existsb]; [by rewrite orb_false_r|].
  rewrite IH. cbn [advance_ghost watch ev_call ev_answer]. by rewrite broken_step, orb_assoc.
Qed.
