(* ===== verification/ReplaceRules.v ===== *)
(** * Rules for the actor's procedures

    How a procedure's [wp] against [watch] is proved: frames, the end of a procedure as its
    caller relies on it ([fine], [fineP]), and one rule per construct. *)
From S2P Require Import Prelude Platform Wire Journal Settle Effects Replace ReplaceSpec.

(** ** Frames *)

(** What every call but a stored journal keeps of the history. *)
Record frame (g g' : World) : Prop := mkFrame {
  fr_dur : g_dur g' = g_dur g;
  fr_owned : g_owned g ⊆ g_owned g';
  fr_clock : (g_clock g <= g_clock g')%Z;
  fr_broken : g_broken g = true → g_broken g' = true }.

#[global] Instance frame_preorder : PreOrder frame.
Proof.
  split.
  - intros g. by split.
  - intros g1 g2 g3 [? ? ? ?] [? ? ? ?]. split; [congruence|set_solver|lia|auto].
Qed.

(** The error that means the process died. *)
Class Dead (E : Type) := dead : E → bool.
#[global] Instance Dead_engine : Dead EngineError := λ e, match e with Crashed => true | _ => false end.
#[global] Instance Dead_halt : Dead Halt := λ h, match h with Died => true | _ => false end.
#[global] Instance Dead_unit : Dead unit := λ _, true.
#[global] Instance Dead_string : Dead string := λ _, false.
#[global] Instance Dead_back : Dead (result string unit) := λ r, match r with Err _ => true | Ok _ => false end.

(** A procedure's end as its caller relies on it: the frame, and a death that is recorded. *)
Definition fine {A E} `{!Dead E} (g : World) (r : result A E) (g' : World) : Prop :=
  frame g g' ∧ match r with Err e => dead e = true → g_broken g' = true | Ok _ => True end.

(** Calls that need no permission and change nothing the journal names. *)
Definition quiet {I X} (e : eff I X) : bool :=
  match e with
  | CreateContainer _ | StartContainer _ | StopContainer _ _ | SetRestartPolicy _ _
  | RenameContainer _ _ | RemoveContainer _ | StoreJournal _ | StoreService _ | StoreFloor _
  | DriveHandover _ _ | RunRestore _ | InterruptRestore _ | YieldAttempt _ _ => false
  | _ => true
  end.

Definition stores {I X} (e : eff I X) : bool :=
  match e with StoreJournal _ => true | _ => false end.

Lemma break_false g : break_if false g = g.
Proof. destruct g. unfold break_if. simpl. by rewrite orb_false_r. Qed.

Lemma break_frame b g : frame g (break_if b g).
Proof. split; simpl; [done|done|lia|by intros ->]. Qed.

Lemma see_all_frame l g : frame g (foldr see g l) ∧ g_owned (foldr see g l) = g_owned g.
Proof.
  induction l as [|c l [IH IHo]]; simpl; [done|]. split; [|done].
  etransitivity; [exact IH|]. by split.
Qed.

Lemma frame_see_listed l g : frame g (see_listed l g).
Proof.
  destruct (see_all_frame l g) as [[? ? ? ?] Ho]. unfold see_listed. split; simpl; [done| |done|done].
  set_solver.
Qed.

Lemma advance_frame {I X} g (e : eff I X) x :
  stores e = false → world_allows g e x → frame g (advance_world g e x).
Proof.
  destruct e; simpl; try done; intros _ Ha; repeat case_match;
    (etransitivity; [|apply break_frame]) || idtac;
    try apply frame_see_listed;
    (split; simpl; [done|set_solver|lia|try done; try by intros ->]).
Qed.

Lemma quiet_requires {I X} g (e : eff I X) : quiet e = true → world_requires g e.
Proof. by destruct e. Qed.

Lemma quiet_stores {I X} (e : eff I X) : quiet e = true → stores e = false.
Proof. by destruct e. Qed.

(** An engine call whose transient failure leaves what the history remembers, and whose crash
    it records. *)
Record engine_like {I A} (e : eff I (result A EngineError)) : Prop := mkEngineLike {
  el_keeps : ∀ g er, is_transient er = true → advance_world g e (Err er) = g;
  el_crash : ∀ g, g_broken (advance_world g e (Err Crashed)) = true }.

Ltac engine_like_tac :=
  split; [intros ? [] ?; simpl in *; try done; by rewrite ?break_false
         |intros ?; simpl; by rewrite ?orb_true_r].
#[global] Hint Extern 1 (engine_like _) => engine_like_tac : core.

Section rules.
Context {I : Type} `{!ReplaceDeps I} {cfg : Config} {spin : Prop}.
Implicit Types (g : World) (j : Journal) (i : nat) (s : Step).

Local Abbreviation WP p g Q := (wp (watch I) spin p g Q).

(** ** Rules *)

Lemma wp_quiet {X} (e : eff I X) g (Q : X → World → Prop) :
  quiet e = true →
  (∀ x, world_allows g e x → frame g (advance_world g e x) → Q x (advance_world g e x)) →
  WP (call e) g Q.
Proof.
  intros Hq HQ. apply wp_call; [by apply quiet_requires|]. intros x Hx.
  apply HQ; [done|]. apply advance_frame; [by apply quiet_stores|done].
Qed.

Lemma wp_retry_loop {A} (op : prog I (result A EngineError)) n k g (Inv : World → Prop) Q :
  Inv g →
  (∀ g1, Inv g1 → WP op g1 (λ r g2, Q r g2 ∧
     ∀ e, r = Err e → is_transient e = true → ∀ d, Inv (with_clock (g_clock g2 + Z.max 0 d) g2))) →
  WP (retry_loop cfg n k op) g Q.
Proof.
  revert k g. induction n as [|n IH]; intros k g Hi Hop; simpl; apply wp_bind;
    (eapply wp_mono; [by apply Hop|]); intros [a|e] g2 [HQ Hinv]; simpl; try done.
  destruct (is_transient e) eqn:Et; simpl; [|done].
  split; [done|]. intros _ _. apply IH; [|done]. by apply (Hinv e).
Qed.

Lemma with_clock_frame t g : (g_clock g <= t)%Z → frame g (with_clock t g).
Proof. by split. Qed.

(** A retried call: its last answer came in the history it was first asked in, later. *)
Lemma wp_ask {A} (e : eff I (result A EngineError)) g Q :
  engine_like e →
  (∀ t, (g_clock g <= t)%Z → world_requires (with_clock t g) e) →
  (∀ t r, (g_clock g <= t)%Z → world_allows (with_clock t g) e r →
     Q r (advance_world (with_clock t g) e r)) →
  WP (retrying cfg (call e)) g Q.
Proof.
  intros [Hk _] Hr HQ.
  apply (wp_retry_loop _ _ _ _ (λ g1, ∃ t, (g_clock g <= t)%Z ∧ g1 = with_clock t g)).
  { exists (g_clock g). split; [lia|]. by destruct g. }
  intros g1 (t & Ht & ->). apply wp_call; [by apply Hr|]. intros r Ha. split; [by apply HQ|].
  intros er -> Ht' d. simpl. rewrite Hk by done. exists (t + Z.max 0 d)%Z. simpl. split; [lia|done].
Qed.

Lemma fine_answer {A} (e : eff I (result A EngineError)) g r :
  engine_like e → stores e = false → world_allows g e r → fine g r (advance_world g e r).
Proof.
  intros [_ Hc] Hs Ha. split; [by apply advance_frame|].
  destruct r as [|[]]; simpl; by intros; try apply Hc.
Qed.

Lemma fine_ret {A E} `{!Dead E} g (r : result A E) :
  match r with Err e => dead e = false | Ok _ => True end → fine g r g.
Proof. intros H. split; [done|]. destruct r; [done|]. by rewrite H. Qed.

Lemma fine_frame {A E} `{!Dead E} g g1 (r : result A E) g2 : frame g g1 → fine g1 r g2 → fine g r g2.
Proof. intros H [H1 H2]. split; [by etransitivity|done]. Qed.

Lemma fine_ask {A} (e : eff I (result A EngineError)) g :
  engine_like e → quiet e = true → WP (retrying cfg (call e)) g (fine g).
Proof.
  intros He Hq. apply wp_ask; [done|intros; by apply quiet_requires|]. intros t r Ht Ha.
  eapply fine_frame; [by apply with_clock_frame|]. apply fine_answer; [done|by apply quiet_stores|done].
Qed.

Lemma fine_call {A} (e : eff I (result A EngineError)) g :
  engine_like e → quiet e = true → WP (call e) g (fine g).
Proof.
  intros He Hq. apply wp_quiet; [done|]. intros x Ha _. apply fine_answer; [done|by apply quiet_stores|done].
Qed.

Lemma fine_call_str {A} (e : eff I (result A string)) g :
  quiet e = true → WP (call e) g (fine g).
Proof. intros Hq. apply wp_quiet; [done|]. intros x Ha Hf. split; [done|]. by destruct x. Qed.

Lemma fine_mono {A E} `{!Dead E} (p : prog I (result A E)) g g1 :
  frame g g1 → WP p g1 (fine g1) → WP p g1 (fine g).
Proof. intros Hf H. eapply wp_mono; [exact H|]. intros r g2. by apply fine_frame. Qed.

Lemma fine_bind_ok {A B E} `{!Dead E} (p : prog I (result A E)) (f : A → prog I (result B E)) g :
  WP p g (fine g) → (∀ a g1, frame g g1 → WP (f a) g1 (fine g1)) → WP (bind_ok p f) g (fine g).
Proof.
  intros Hp Hf. apply wp_bind_ok. eapply wp_mono; [exact Hp|]. intros [a|e] g1 [H1 H2].
  - apply fine_mono; [done|]. by apply Hf.
  - by split.
Qed.

Lemma fine_bind {A B E} `{!Dead E} (p : prog I A) (f : A → prog I (result B E)) g :
  WP p g (λ _ g1, frame g g1) → (∀ a g1, frame g g1 → WP (f a) g1 (fine g1)) →
  WP (bind p f) g (fine g).
Proof.
  intros Hp Hf. apply wp_bind. eapply wp_mono; [exact Hp|]. intros a g1 H1.
  apply fine_mono; [done|]. by apply Hf.
Qed.

Lemma fine_map_errp {A E F} `{!Dead E, !Dead F} (f : E → F) (p : prog I (result A E)) g :
  (∀ e, dead (f e) = true → dead e = true) → WP p g (fine g) → WP (map_errp f p) g (fine g).
Proof.
  intros Hf Hp. apply wp_map_errp. eapply wp_mono; [exact Hp|]. intros [a|e] g1 [H1 H2]; split; try done.
  simpl. intros Hd. by apply H2, Hf.
Qed.

Lemma frame_call {X} (e : eff I X) g : quiet e = true → WP (call e) g (λ _ g1, frame g g1).
Proof. intros Hq. by apply wp_quiet. Qed.

Lemma frame_of_fine {A E} `{!Dead E} (p : prog I (result A E)) g :
  WP p g (fine g) → WP p g (λ _ g1, frame g g1).
Proof. intros H. eapply wp_mono; [exact H|]. by intros r g1 [? _]. Qed.

Lemma dead_engine_halt r what e : dead (engine_halt r what e) = true → dead e = true.
Proof. by destruct e. Qed.

Lemma dead_crashed_or e : dead (crashed_or e) = true → dead e = true.
Proof. by destruct e. Qed.

(** ** Ends that also establish something *)

Definition fineP {A E} `{!Dead E} (P : A → World → Prop) (g : World) (r : result A E) (g' : World) : Prop :=
  fine g r g' ∧ match r with Ok a => P a g' | Err _ => True end.

Lemma fineP_fine {A E} `{!Dead E} (P : A → World → Prop) (p : prog I (result A E)) g :
  WP p g (fineP P g) → WP p g (fine g).
Proof. intros H. eapply wp_mono; [exact H|]. by intros r g' [? _]. Qed.

Lemma fineP_mono {A E} `{!Dead E} (P : A → World → Prop) (p : prog I (result A E)) g g1 :
  frame g g1 → WP p g1 (fineP P g1) → WP p g1 (fineP P g).
Proof.
  intros Hf H. eapply wp_mono; [exact H|]. intros r g2 [H1 H2]. split; [by eapply fine_frame|done].
Qed.

Lemma fineP_bind_ok {A B E} `{!Dead E} (R : A → World → Prop) (P : B → World → Prop)
    (p : prog I (result A E)) (f : A → prog I (result B E)) g :
  WP p g (fineP R g) → (∀ a g1, R a g1 → frame g g1 → WP (f a) g1 (fineP P g1)) →
  WP (bind_ok p f) g (fineP P g).
Proof.
  intros Hp Hf. apply wp_bind_ok. eapply wp_mono; [exact Hp|]. intros [a|e] g1 [[H1 H2] HR].
  - apply fineP_mono; [done|]. by apply Hf.
  - by split.
Qed.

Lemma fineP_skip {A B E} `{!Dead E} (P : B → World → Prop)
    (p : prog I (result A E)) (f : A → prog I (result B E)) g :
  WP p g (fine g) → (∀ a g1, frame g g1 → WP (f a) g1 (fineP P g1)) →
  WP (bind_ok p f) g (fineP P g).
Proof.
  intros Hp Hf. apply (fineP_bind_ok (λ _ _, True)); [|by intros; apply Hf].
  eapply wp_mono; [exact Hp|]. intros r g1 H. split; [done|]. by destruct r.
Qed.

Lemma fineP_bind {A B E} `{!Dead E} (P : B → World → Prop)
    (p : prog I A) (f : A → prog I (result B E)) g :
  WP p g (λ _ g1, frame g g1) → (∀ a g1, frame g g1 → WP (f a) g1 (fineP P g1)) →
  WP (bind p f) g (fineP P g).
Proof.
  intros Hp Hf. apply wp_bind. eapply wp_mono; [exact Hp|]. intros a g1 H1.
  apply fineP_mono; [done|]. by apply Hf.
Qed.

Lemma fineP_map_errp {A E F} `{!Dead E, !Dead F} (P : A → World → Prop) (f : E → F)
    (p : prog I (result A E)) g :
  (∀ e, dead (f e) = true → dead e = true) → WP p g (fineP P g) → WP (map_errp f p) g (fineP P g).
Proof.
  intros Hf Hp. apply wp_map_errp. eapply wp_mono; [exact Hp|].
  intros [a|e] g1 [[H1 H2] HP]; (split; [split; [done|]|done]); simpl; [done|].
  intros Hd. by apply H2, Hf.
Qed.

Lemma fineP_ret {A E} `{!Dead E} (P : A → World → Prop) g (r : result A E) :
  match r with Err e => dead e = false | Ok a => P a g end → fineP P g r g.
Proof. intros H. split; [|by destruct r]. apply fine_ret. by destruct r. Qed.

Definition out (id : string) (g : World) : Prop :=
  ∀ c, g_conts g !! id = Some c → c_running c = false.

Lemma out_stopped id g : out id (with_conts (alter stopped id (g_conts g)) g).
Proof.
  intros c. simpl. rewrite lookup_alter_eq. destruct (g_conts g !! id); simpl; intros; by simplify_eq.
Qed.

(** A retried look at a container: what it answered is what is last seen. *)
Definition seen_as (n : string) (o : option Container) (g : World) : Prop :=
  match o with
  | Some c => resolves n c ∧ g_conts g !! c_id c = Some c ∧ g_names g !! c_id c = Some (c_name c)
  | None => out n g
  end.

Lemma inspect_ask n g :
  WP (retrying cfg (call (InspectContainer n))) g (fineP (seen_as n) g).
Proof.
  apply wp_ask; [auto|done|]. intros t r Ht Ha.
  split; [eapply fine_frame; [by apply with_clock_frame|]; by apply fine_answer; auto|].
  destruct r as [[c|]|e]; [| |done].
  - destruct Ha as [? _]. split_and!; [done|simpl; by rewrite lookup_insert_eq..].
  - intros c. simpl. rewrite lookup_alter_eq.
    destruct (g_conts g !! n); simpl; intros; by simplify_eq.
Qed.

Lemma inspect_call n g : WP (call (InspectContainer n)) g (fineP (seen_as n) g).
Proof.
  apply wp_quiet; [done|]. intros r Ha Hf. split; [by apply fine_answer; auto|].
  destruct r as [[c|]|e]; [| |done].
  - destruct Ha as [? _]. split_and!; [done|simpl; by rewrite lookup_insert_eq..].
  - intros c. simpl. rewrite lookup_alter_eq.
    destruct (g_conts g !! n); simpl; intros; by simplify_eq.
Qed.

End rules.

(** The rules applied in turn, for a procedure of quiet calls. *)
Ltac fine_step :=
  match goal with
  | |- wp _ _ (retrying _ (call _)) _ (fine _) => apply fine_ask; [auto|reflexivity]
  | |- wp _ _ (call _) _ (fine _) =>
      first [ apply fine_call; [auto; fail|reflexivity] | apply fine_call_str; reflexivity ]
  | |- wp _ _ (call _) _ (λ _ _, frame _ _) => apply frame_call; reflexivity
  | |- wp _ _ (Ret _) _ (λ _ _, frame _ _) => reflexivity
  | |- wp _ _ (map_errp _ _) _ (fine _) =>
      apply fine_map_errp; [first [done | apply dead_engine_halt | apply dead_crashed_or | idtac]|]
  | |- wp _ _ (bind_ok _ _) _ (fine _) => apply fine_bind_ok; [|intros ? ? ?]
  | |- wp _ _ (bind _ _) _ (fine _) =>
      apply fine_bind; [first [by apply frame_call|apply frame_of_fine|idtac]|intros ? ? ?]
  | |- wp _ _ (Ret _) _ (fine _) => apply fine_ret; simpl; try done
  | |- wp _ _ (match ?x with _ => _ end) _ _ => destruct x eqn:?
  end.
