(* ===== verification/ReplaceProofs.v ===== *)
(** * The phases of a replacement

    Each phase's action against the monitor of [ReplaceSpec]: the calls it makes are ones it
    may make, and what it establishes when it succeeds. *)
From S2P Require Import Prelude Platform Wire Journal Settle Effects Replace ReplaceSpec ReplaceRules.

Section phases.
Context {I : Type} `{!ReplaceDeps I} {cfg : Config} {spin : Prop}.
Implicit Types (g : World) (j : Journal) (i : nat) (s : Step).

Local Abbreviation WP p g Q := (wp (watch I) spin p g Q).

(** ** Quiet procedures *)

Lemma attempt_containers_fine j i g : WP (attempt_containers cfg j i) g (fine g).
Proof. unfold attempt_containers. repeat fine_step. Qed.

Lemma schema_allows_fine im ref g : WP (schema_allows im ref) g (fine g).
Proof. unfold schema_allows. repeat fine_step. Qed.

Lemma local_image_schema_fine im g : WP (local_image_schema im) g (fine g).
Proof. unfold local_image_schema. repeat fine_step. Qed.

Lemma recorded_control_plane_fine m g : WP (recorded_control_plane m) g (fine g).
Proof. unfold recorded_control_plane. repeat fine_step. Qed.

Lemma control_plane_migrates_fine j m im ref run g :
  WP (control_plane_migrates j m im ref run) g (fine g).
Proof.
  unfold control_plane_migrates.
  repeat first [apply schema_allows_fine | apply recorded_control_plane_fine
               | apply local_image_schema_fine | fine_step].
Qed.

(** ** Pulling and checking *)

Definition id_ok (o : option Container) : Prop := ∀ c, o = Some c → platform_name (c_id c) = false.

Definition checked_record j i (j' : Journal) : Prop :=
  ∃ mig rev spec old, j' = update_step i (checked_step mig rev spec old) j ∧ id_ok old.

Lemma pull_image_fine ref g : WP (pull_image cfg ref) g (fine g).
Proof. unfold pull_image. repeat fine_step. by destruct a1. Qed.

Lemma check_gpu_fine r m im rev g : WP (check_gpu r m im rev) g (fine g).
Proof. unfold check_gpu. repeat fine_step. Qed.

Lemma stored_secrets_fine l f g : WP (stored_secrets l f) g (fine g).
Proof.
  revert f g. induction l as [|n l IH]; intros f g; [by apply fine_ret|]; cbn [stored_secrets].
  apply fine_bind_ok; [by apply fine_call_str|]. intros. apply IH.
Qed.

Lemma secrets_fine g : WP node_agent_secrets g (fine g) ∧ WP control_plane_secrets g (fine g).
Proof.
  split; (apply fine_bind_ok; [apply stored_secrets_fine|]); intros; by apply fine_ret.
Qed.

Lemma check_revision_dead r ref im h : check_revision r ref im = Err h → dead h = false.
Proof. unfold check_revision. repeat case_match; intros; by simplify_eq. Qed.

Ltac finish_ret := apply fine_ret; repeat case_match; by simplify_eq.

Lemma pull_and_check_spec j i g :
  WP (pull_and_check cfg j i) g (fineP (λ j' _, checked_record j i j') g).
Proof.
  unfold pull_and_check.
  apply fineP_skip; [apply pull_image_fine|]. intros found g1 _.
  apply fineP_skip.
  { apply fine_ret. destruct (check_revision _ _ _) eqn:E; [done|]. by apply check_revision_dead in E. }
  intros rev g2 _. apply fineP_bind; [by apply frame_call|]. intros m g3 _.
  apply fineP_skip; [finish_ret|]. intros mach g4 _.
  apply fineP_skip; [apply check_gpu_fine|]. intros mach' g5 _.
  apply fineP_skip.
  { apply fine_map_errp; [done|]. destruct (secrets_fine g5).
    destruct (role_of j i); try done; by apply fine_ret. }
  intros sec g6 _. apply fineP_skip; [apply fine_ret; by destruct (render _ _ _ _ _) as [|[]]|].
  intros spec g7 _. apply (fineP_bind_ok (λ o _, id_ok o)).
  { apply fineP_map_errp; [apply dead_engine_halt|].
    eapply wp_mono; [apply inspect_ask|]. intros [[c|]|e] g8 [Hf Hs]; split; try done.
    intros c' [= <-]. apply Hs. }
  intros old g8 Hold _. apply fineP_skip; [finish_ret|]. intros _ g9 _.
  apply fineP_skip; [repeat fine_step|]. intros spec' g10 _.
  apply fineP_skip.
  { destruct (bool_decide _); [apply control_plane_migrates_fine|by apply fine_ret]. }
  intros mig g11 _. apply fineP_ret. by exists mig, rev, spec', old.
Qed.

(** ** The component being driven *)

Record wf_step (s : Step) : Prop := mkWfStep {
  wf_fresh : st_phase s ∈ [PhAdmitted; PhPulling] → new_container s = None;
  wf_disjoint : ∀ id, new_container s = Some id → old_container s ≠ Some id;
  wf_old : ∀ id, old_container s = Some id → platform_name id = false;
  wf_new : ∀ id, new_container s = Some id → platform_name id = false }.

Definition wf_journal j : Prop := service_journal j ∧ Forall wf_step (j_steps j).

Record at_step (g : World) j i s : Prop := mkAtStep {
  as_dur : g_dur g = j;
  as_open : is_open j = true;
  as_cur : current j = Some i;
  as_lookup : j_steps j !! i = Some s;
  as_wf : wf_journal j }.

Lemma at_step_dur g g' j i s : g_dur g' = g_dur g → at_step g j i s → at_step g' j i s.
Proof. intros Hd [? ? ? ? ?]. split; [congruence|done..]. Qed.

Lemma at_step_frame g g' j i s : frame g g' → at_step g j i s → at_step g' j i s.
Proof. intros [Hd _ _ _] [? ? ? ? ?]. split; [congruence|done..]. Qed.

Lemma at_step_cur g j i s (P : Step → Prop) : at_step g j i s → P s → at_cur (g_dur g) P.
Proof. intros [-> _ Hc Hl _] HP. unfold at_cur, cur_step. rewrite Hc. simpl. by rewrite Hl. Qed.

Lemma step_at_lookup j i s : j_steps j !! i = Some s → step_at j i = s.
Proof. unfold step_at. by intros ->. Qed.

Lemma at_step_at g j i s : at_step g j i s → step_at j i = s.
Proof. intros [_ _ _ Hl _]. by apply step_at_lookup. Qed.

Lemma at_step_role g j i s : at_step g j i s → role_of j i = step_role s.
Proof. intros H. unfold role_of. by rewrite (at_step_at _ _ _ _ H). Qed.

Lemma at_step_wf g j i s : at_step g j i s → wf_step s.
Proof. intros [_ _ _ Hl [_ Hf]]. eapply Forall_lookup_1; eauto. Qed.

Lemma platform_name_role r : platform_name (container_name r) = true ∧
  platform_name (kept_name (container_name r)) = true.
Proof. by destruct r. Qed.

Lemma kept_differs r : kept_name (container_name r) ≠ container_name r.
Proof. by destruct r. Qed.

(** ** Dumping *)

Definition dumped j i (j' : Journal) : Prop :=
  j' = j ∨ ∃ name, j' = set_result (set_res_dump name (j_result j)) (update_step i (set_dump name) j).

Lemma dump_of_attempt_fine m j im f rev to b g : WP (dump_of_attempt m j im f rev to b) g (fine g).
Proof.
  unfold dump_of_attempt. apply fine_bind; [by apply frame_call|]. intros l g1 _.
  destruct (taken_by _ _); [by apply fine_ret|].
  apply wp_map_errp, wp_quiet; [done|]. intros r _ Hf. split; [done|].
  destruct r as [|[]]; simpl; try done. by rewrite orb_true_r.
Qed.

Definition dump_post j i g (x : Journal * result unit Halt) (g' : World) : Prop :=
  fine g x.2 g' ∧ dumped j i x.1.

Lemma dump_post_ret j i g h : dead h = false → dump_post j i g (j, Err h) g.
Proof. intros H. split; [by apply fine_ret|by left]. Qed.

Lemma dump_post_frame j i g g1 x g2 : frame g g1 → dump_post j i g1 x g2 → dump_post j i g x g2.
Proof. intros Hf [H1 H2]. split; [by eapply fine_frame|done]. Qed.

Lemma dump_bind {A} j i (p : prog I A) f g :
  WP p g (λ _ g1, frame g g1) → (∀ a g1, frame g g1 → WP (f a) g1 (dump_post j i g1)) →
  WP (bind p f) g (dump_post j i g).
Proof.
  intros Hp Hf. apply wp_bind. eapply wp_mono; [exact Hp|]. intros a g1 H1.
  eapply wp_mono; [by apply Hf|]. intros x g2. by apply dump_post_frame.
Qed.

Lemma dump_bind_fine {A} j i (p : prog I (result A Halt)) f g :
  WP p g (fine g) →
  (∀ r g1, fine g r g1 → WP (f r) g1 (dump_post j i g)) →
  WP (bind p f) g (dump_post j i g).
Proof. intros Hp Hf. apply wp_bind. eapply wp_mono; [exact Hp|]. intros r g1 H1. by apply Hf. Qed.

Lemma take_dump_spec j i g : WP (take_dump j i) g (dump_post j i g).
Proof.
  unfold take_dump. apply dump_bind; [by apply frame_call|]. intros m g1 _.
  destruct m as [[m|]|]; try (by apply dump_post_ret).
  apply dump_bind_fine.
  { apply fine_map_errp; [apply dead_engine_halt|apply recorded_control_plane_fine]. }
  intros [[[im rev]|]|h] g2 [Hf2 H2]; try (by (split; [by split|by left])).
  eapply wp_mono; [|intros x g'; by apply dump_post_frame]. clear g1 Hf2 H2.
  apply dump_bind_fine; [apply fine_map_errp; [apply dead_engine_halt|by apply fine_call; auto]|].
  intros [found|h] g3 [Hf3 H3]; [|by (split; [by split|by left])].
  eapply wp_mono; [|intros x g'; by apply dump_post_frame]. clear g2 Hf3 H3.
  apply dump_bind; [by apply frame_call|]. intros p g4 _.
  apply dump_bind; [by apply frame_call|]. intros now g5 _.
  apply wp_bind. eapply (wp_mono _ _ _ _ (λ r g', fine g5 r g' ∧ ∀ pt j', r = Ok (pt, j') → dumped j i j')).
  { destruct (owned_database _); [|by (split; [by apply fine_ret|intros ? ? [= _ <-]; by left])].
    apply wp_bind. eapply wp_mono; [apply dump_of_attempt_fine|].
    intros [d|h] g6 H6; (split; [done|]); intros pt j'; [intros [= _ <-]; right; by eexists|done]. }
  intros [[pt j']|h] g6 [[Hf6 H6] Hd]; [|by (split; [by split|by left])].
  apply wp_bind. eapply wp_mono.
  { apply fine_map_errp; [|by apply fine_call_str]. by intros e. }
  intros r g7 H7. split; [by eapply fine_frame|by apply (Hd pt)].
Qed.

Lemma frame_bind {A B} (p : prog I A) (f : A → prog I B) g :
  WP p g (λ _ g1, frame g g1) → (∀ a g1, WP (f a) g1 (λ _ g2, frame g1 g2)) →
  WP (bind p f) g (λ _ g2, frame g g2).
Proof.
  intros Hp Hf. apply wp_bind. eapply wp_mono; [exact Hp|]. intros a g1 H1.
  eapply wp_mono; [apply Hf|]. intros b g2 H2. simpl in *. by transitivity g1.
Qed.

Lemma discard_dump_frame id g : WP (discard_dump id) g (λ _ g', frame g g').
Proof.
  unfold discard_dump.
  repeat match goal with
  | |- wp _ _ (bind _ _) _ _ => apply frame_bind; [|intros ? ?]
  | |- wp _ _ (call _) _ _ => apply frame_call; reflexivity
  | |- wp _ _ (match ?x with _ => _ end) _ _ => destruct x
  | |- wp _ _ (Ret _) _ _ => cbn [wp]; reflexivity
  end.
Qed.

(** ** Keeping the old container *)

(** Stops and renames change what is remembered even when they fail. *)
Lemma wp_ask_frame {A} (e : eff I (result A EngineError)) g (R : World → Prop)
    (P : A → World → Prop) :
  stores e = false →
  (∀ g, g_broken (advance_world g e (Err Crashed)) = true) →
  R g →
  (∀ g1, frame g g1 → R g1 → world_requires g1 e) →
  (∀ g1 er d, R g1 → world_allows g1 e (Err er) →
     R (with_clock (g_clock (advance_world g1 e (Err er)) + Z.max 0 d) (advance_world g1 e (Err er)))) →
  (∀ g1 a, frame g g1 → R g1 → world_allows g1 e (Ok a) → P a (advance_world g1 e (Ok a))) →
  WP (retrying cfg (call e)) g (fineP P g).
Proof.
  intros Hs Hcr HR Hreq Hstep HP.
  apply (wp_retry_loop _ _ _ _ (λ g1, frame g g1 ∧ R g1)); [by split|].
  intros g1 [Hf1 HR1]. apply wp_call; [by apply Hreq|]. intros r Ha.
  assert (frame g (advance_world g1 e r)) as Hf2
    by (etransitivity; [exact Hf1|by apply advance_frame]).
  split.
  - split; [|by destruct r; [apply HP|]]. split; [done|]. by destruct r as [|[]]; simpl; auto.
  - intros er -> _ d. simpl. split; [|by apply Hstep].
    etransitivity; [exact Hf2|]. apply with_clock_frame. lia.
Qed.

Lemma remove_stale_spec g j i s old_id (oc : Container) n0 :
  at_step g j i s → st_phase s = PhOldKept → old_container s = Some old_id →
  out old_id g → g_names g !! old_id = Some n0 → n0 ≠ kept_name (container_name (step_role s)) →
  WP (remove_stale cfg (kept_name (container_name (step_role s))) oc) g (fineP (λ _ g', out old_id g') g).
Proof.
  intros Has Hp Ho Hout Hn0 Hne0. set (kept := kept_name (container_name (step_role s))) in *.
  unfold remove_stale.
  apply (fineP_bind_ok (λ st g', out old_id g' ∧
    match st with
    | Some c => c_id c ≠ old_id ∧ g_names g' !! c_id c = Some kept
    | None => True
    end)).
  { apply fineP_map_errp; [apply dead_engine_halt|].
    apply wp_ask; [auto|done|]. intros t r Ht Ha.
    split; [eapply fine_frame; [by apply with_clock_frame|]; by apply fine_answer; auto|].
    assert (platform_name kept = true) as Hk by apply platform_name_role.
    destruct r as [[c|]|e]; [| |done]; simpl in *.
    - destruct Ha as [[_ Hres] [Hcons _]]. rewrite Hk in Hres. simpl in Hcons.
      assert (c_id c ≠ old_id) as Hne.
      { intros Heq. rewrite Heq in Hcons. apply Hcons in Hn0. congruence. }
      split; [intros c'; simpl; rewrite lookup_insert_ne by done; apply Hout|].
      split; [done|]. by rewrite lookup_insert_eq, Hres.
    - split; [|done]. intros c'. simpl. rewrite lookup_alter_ne; [apply Hout|].
      intros ->. pose proof (wf_old _ (at_step_wf _ _ _ _ Has) _ Ho). congruence. }
  intros [c|] g1 [Hout1 Hst] Hf1; [|by apply fineP_ret].
  destruct Hst as (Hne & Hcn).
  apply wp_bind. apply wp_quiet; [done|]. intros sc _ _. cbn [advance_world].
  destruct (sc_unreadable sc); [|by apply fineP_ret].
  destruct (negb _); [by apply fineP_ret|].
  apply fineP_map_errp; [apply dead_engine_halt|].
  apply wp_ask; [auto| |].
  - intros t _. eapply (at_step_cur (with_clock t g1)); [by eapply at_step_dur; [|exact Has]; apply Hf1|].
    right. split; [congruence|]. right; right. by split.
  - intros t r Ht Ha.
    split; [eapply fine_frame; [by apply with_clock_frame|]; by apply fine_answer; auto|].
    destruct r; [|done]. intros c'. simpl. rewrite lookup_delete_ne by done. apply Hout1.
Qed.

Lemma out_of_service g s : (∀ id, old_container s = Some id → out id g) → old_out_of_service g s.
Proof. intros H id c Ho. by apply H. Qed.

(** What the history remembers of containers, schemas and the floor. *)
Definition same_view (g g' : World) : Prop :=
  g_conts g' = g_conts g ∧ g_names g' = g_names g ∧ g_image g' = g_image g ∧ g_floor g' = g_floor g.

Lemma set_policy_spec id p g j i s :
  at_step g j i s → (∀ t, (g_clock g <= t)%Z → may_set_policy (with_clock t g) id p s) →
  WP (retrying cfg (call (SetRestartPolicy id p))) g (fineP (λ _ g', same_view g g') g).
Proof.
  intros Has Hm. apply wp_ask; [auto| |].
  - intros t Ht. eapply (at_step_cur (with_clock t g)); [by apply (at_step_dur g)|]. by apply Hm.
  - intros t r Ht Ha. split; [eapply fine_frame; [by apply with_clock_frame|]; by apply fine_answer; auto|].
    by destruct r.
Qed.

Lemma stop_spec g j i s id d (R : World → Prop) :
  at_step g j i s → (∀ g1, frame g g1 → may_stop g1 id s) → R g →
  (∀ g1 t b, R g1 → R (with_clock t (break_if b (with_conts (alter stopped id (g_conts g1)) g1)))) →
  WP (retrying cfg (call (StopContainer id d))) g (fineP (λ _ g', out id g' ∧ ∃ g1, R g1 ∧ g_names g' = g_names g1) g).
Proof.
  intros Has Hm HR Hstep.
  apply (wp_ask_frame _ _ R); [done|intros ?; simpl; by rewrite orb_true_r|done|..].
  - intros g1 Hf _. eapply (at_step_cur g1); [by eapply at_step_frame|]. by apply Hm.
  - intros g1 er d0 H1 _. by apply Hstep.
  - intros g1 a _ H1 _. split; [|by exists g1]. intros c. simpl. rewrite lookup_alter_eq.
    destruct (g_conts g1 !! id); simpl; intros; by simplify_eq.
Qed.

Lemma rename_spec g j i s id n (R : World → Prop) :
  at_step g j i s → may_rename id n s → R g →
  (∀ g1 t b, R g1 → R (with_clock t (break_if b (with_names (delete id (g_names g1)) g1)))) →
  WP (retrying cfg (call (RenameContainer id n))) g
     (fineP (λ _ g', ∃ g1, R g1 ∧ g' = with_names (<[id := n]> (g_names g1)) g1) g).
Proof.
  intros Has Hm HR Hstep.
  apply (wp_ask_frame _ _ R); [done|intros ?; simpl; by rewrite orb_true_r|done|..].
  - intros g1 Hf _. eapply (at_step_cur g1); [by eapply at_step_frame|done].
  - intros g1 er d0 H1 _. by apply Hstep.
  - intros g1 a _ H1 _. exists g1. split; [done|]. apply break_false.
Qed.

Lemma keep_old_spec g j i s :
  at_step g j i s → st_phase s = PhOldKept →
  WP (keep_old cfg j i) g (fineP (λ _ g', old_out_of_service g' s) g).
Proof.
  intros Has Hp. unfold keep_old.
  rewrite (at_step_at _ _ _ _ Has), (at_step_role _ _ _ _ Has).
  destruct (old_container s) as [id|] eqn:Ho.
  2: { apply fineP_ret. apply out_of_service. by rewrite Ho. }
  assert (platform_name id = false) as Hid by (by apply (wf_old _ (at_step_wf _ _ _ _ Has))).
  assert (∀ g', out id g' → old_out_of_service g' s) as Hout.
  { intros g' H. apply out_of_service. rewrite Ho. by intros ? [= <-]. }
  apply (fineP_bind_ok (seen_as id)); [apply fineP_map_errp; [apply dead_engine_halt|apply inspect_ask]|].
  intros [c|] g1 Hseen Hf1; [|by apply fineP_ret, Hout].
  destruct Hseen as ([_ Hres] & Hc & Hn). rewrite Hid in Hres. rewrite Hres in Hc, Hn.
  pose proof (at_step_frame _ _ _ _ _ Hf1 Has) as Has1. clear g Has Hf1.
  apply (fineP_bind_ok (λ _ g', g_names g' !! id = Some (c_name c))).
  { destruct (bool_decide _); [by apply fineP_ret|].
    apply fineP_map_errp; [apply dead_engine_halt|].
    eapply wp_mono; [apply (set_policy_spec _ _ _ _ _ _ Has1); intros t _; left; by split; [|left]|].
    intros r g' [H1 H2]. split; [done|]. destruct r; [|done]. by destruct H2 as (_ & -> & _). }
  intros _ g2 Hn2 Hf2. pose proof (at_step_frame _ _ _ _ _ Hf2 Has1) as Has2.
  apply (fineP_bind_ok (λ _ g', out id g' ∧ g_names g' !! id = Some (c_name c))).
  { apply fineP_map_errp; [apply dead_engine_halt|].
    eapply wp_mono; [apply (stop_spec _ _ _ _ _ _ (λ g, g_names g !! id = Some (c_name c)) Has2); [by left|done|done]|].
    intros r g' [H1 H2]. split; [done|]. destruct r; [|done]. destruct H2 as (? & ? & ? & ->). done. }
  intros _ g3 [Hout3 Hn3] Hf3. pose proof (at_step_frame _ _ _ _ _ Hf3 Has2) as Has3.
  destruct (str_eqb (c_name c) _) eqn:En; [by apply fineP_ret, Hout|]. apply str_eqb_false in En.
  eapply fineP_bind_ok; [by eapply remove_stale_spec|].
  intros u g4 Hout4 Hf4. pose proof (at_step_frame _ _ _ _ _ Hf4 Has3) as Has4.
  apply fineP_map_errp; [apply dead_engine_halt|].
  eapply wp_mono; [apply (rename_spec _ _ _ _ _ _ (out id) Has4); [by split; [|left]|done|done]|].
  intros r g' [H1 H2]. split; [done|]. destruct r; [|done]. destruct H2 as (g5 & H5 & ->). by apply Hout.
Qed.

(** ** The new container *)

Lemma owned_frame g g' id : frame g g' → owned g id → owned g' id.
Proof. intros [Hd Ho _ _] [H|H]; [left; set_solver|right; by rewrite Hd]. Qed.

Lemma step_old_elem j i s id :
  j_steps j !! i = Some s → id ∉ omap old_container (j_steps j) → old_container s ≠ Some id.
Proof.
  intros Hl Hn Ho. apply Hn, list_elem_of_omap. exists s. split; [|done].
  by eapply list_elem_of_lookup_2.
Qed.

Definition own_new (s : Step) (c : Container) (g : World) : Prop :=
  platform_name (c_id c) = false ∧ owned g (c_id c) ∧ old_container s ≠ Some (c_id c).

Lemma attempt_labelled_filter g j i s inst c :
  at_step g j i s → g_install g = Some inst →
  is_attempt_container cfg j i inst c = true →
  attempt_labelled g c = true ∧ c_id c ∉ omap old_container (j_steps j).
Proof.
  intros Has Hi. unfold is_attempt_container, attempt_labelled.
  rewrite Hi, (at_step_role _ _ _ _ Has), (as_dur _ _ _ _ Has).
  unfold cur_step. rewrite (as_cur _ _ _ _ Has). simpl. rewrite (as_lookup _ _ _ _ Has).
  rewrite !andb_true_iff. intros [[[[-> ->] ->] Hold] _]. split; [by rewrite Hold|].
  by apply negb_true_iff, bool_decide_eq_false in Hold.
Qed.

Lemma list_ask g j i s inst :
  at_step g j i s → g_install g = Some inst →
  WP (retrying cfg (call ListContainers)) g
     (fineP (λ l g', Forall (λ c, own_new s c g') (List.filter (is_attempt_container cfg j i inst) l)) g).
Proof.
  intros Has Hi. apply wp_ask; [auto|done|]. intros t r Ht Ha.
  split; [eapply fine_frame; [by apply with_clock_frame|]; by apply fine_answer; auto|].
  destruct r as [l|]; [|done]. apply Forall_forall. intros c Hc.
  apply list_elem_of_In, List.filter_In in Hc as [Hl Hc].
  destruct (attempt_labelled_filter (with_clock t g) j i s inst c) as [Hal Hold]; [by apply (at_step_dur g)|done..|].
  split_and!.
  - simpl in Ha. rewrite Forall_forall in Ha. apply Ha. by apply list_elem_of_In.
  - left. simpl. apply elem_of_union_r, elem_of_list_to_set, list_elem_of_In.
    apply List.in_map, List.filter_In. by split.
  - by eapply step_old_elem; [apply (as_lookup _ _ _ _ Has)|].
Qed.

Lemma attempt_containers_spec g j i s :
  at_step g j i s →
  WP (attempt_containers cfg j i) g (fineP (λ l g', Forall (λ c, own_new s c g') l) g).
Proof.
  intros Has. unfold attempt_containers. apply wp_bind, wp_quiet; [done|]. intros m _ Hf.
  destruct m as [[m|]|]; [|by apply fineP_ret..].
  apply fineP_mono; [done|]. eapply fineP_bind_ok; [apply (list_ask _ j i s (m_installation_id m)); [by apply (at_step_dur g)|done]|].
  intros l g1 Hl _. by apply fineP_ret.
Qed.

Lemma find_new_spec g j i s :
  at_step g j i s →
  WP (find_new cfg j i) g (fineP (λ o g', ∀ c, o = Some c → own_new s c g') g).
Proof.
  intros Has. unfold find_new. rewrite (at_step_at _ _ _ _ Has).
  assert (∀ g1, frame g g1 → WP (do? mine <- map_errp (engine_halt RecreateFailed "list containers")
             (attempt_containers cfg j i); Ret (Ok (head mine))) g1
           (fineP (λ o g', ∀ c, o = Some c → own_new s c g') g1)) as Hlabel.
  { intros g1 Hf. eapply fineP_bind_ok.
    { apply fineP_map_errp; [apply dead_engine_halt|]. by eapply attempt_containers_spec, at_step_frame. }
    intros l g2 Hl _. apply fineP_ret. intros c Hc. destruct l as [|c' l]; simplify_eq/=. by inversion Hl. }
  destruct (new_container s) as [id|] eqn:Hnew; [|by apply Hlabel].
  pose proof (at_step_wf _ _ _ _ Has) as Hwf.
  eapply fineP_bind_ok; [apply fineP_map_errp; [apply dead_engine_halt|apply inspect_ask]|].
  intros [c|] g1 Hs Hf; [|by apply Hlabel]. destruct Hs as [[Hpc Hres] _].
  rewrite (wf_new _ Hwf _ Hnew) in Hres. apply fineP_ret. intros c' [= <-].
  split_and!; [done| |by rewrite Hres; apply (wf_disjoint _ Hwf)].
  right. eapply at_step_cur; [by eapply at_step_frame|]. congruence.
Qed.

(** ** Creating *)

Definition created_record j i s (j' : Journal) : Prop :=
  ∃ id, j' = update_step i (set_new_container (Some id)) j ∧
    platform_name id = false ∧ old_container s ≠ Some id.

Lemma create_new_spec g j i s :
  at_step g j i s → st_phase s = PhCreated →
  WP (create_new cfg j i) g (fineP (λ j' _, created_record j i s j') g).
Proof.
  intros Has Hp. unfold create_new. rewrite (at_step_at _ _ _ _ Has).
  eapply fineP_bind_ok; [apply fineP_map_errp; [apply dead_engine_halt|by eapply attempt_containers_spec]|].
  intros mine g1 Hm Hf1. destruct mine as [|c mine].
  2: { apply fineP_ret. exists (c_id c). split; [done|]. by inversion Hm as [|? ? [? [_ ?]]]. }
  apply fineP_skip; [apply fine_map_errp; [apply dead_engine_halt|by apply fine_ask; auto]|].
  intros holder g2 Hf2. apply fineP_skip; [finish_ret|]. intros _ g3 Hf3.
  eapply (fineP_bind_ok (λ sp _, st_spec s = Some sp)).
  { apply fineP_ret. by destruct (st_spec s). }
  intros sp g4 Hsp Hf4.
  assert (at_step g4 j i s) as Has4 by (do 4 (eapply at_step_frame; [eassumption|]); done).
  apply (fineP_bind_ok (λ id _, platform_name id = false ∧ old_container s ≠ Some id)).
  { apply fineP_map_errp; [apply dead_engine_halt|]. apply wp_ask; [auto| |].
    - intros t _. eapply (at_step_cur (with_clock t g4)); [by eapply at_step_dur; [|exact Has4]|].
      split; [done|]. exists sp. split; [done|]. simpl. by rewrite (as_dur _ _ _ _ Has4).
    - intros t r Ht Ha. split; [eapply fine_frame; [by apply with_clock_frame|]; by apply fine_answer; auto|].
      destruct r as [id|]; [|done]. simpl in Ha. rewrite (as_dur _ _ _ _ Has4) in Ha.
      destruct Ha as [Hid Ho]. split; [done|]. eapply step_old_elem; [apply (as_lookup _ _ _ _ Has4)|done]. }
  intros id g5 [Hid Ho] _. apply fineP_ret. by exists id.
Qed.

(** ** Starting *)

(** The schema floor and the image it was raised for are remembered by calls that concern
    neither. *)
Definition same_schema (g g' : World) : Prop := g_image g' = g_image g ∧ g_floor g' = g_floor g.

Lemma raise_floor_spec g j i s schema rid :
  at_step g j i s → migrating s = true →
  WP (raise_floor schema rid) g (λ r g', frame g g' ∧
    match r with
    | Ok _ => g_image g' = g_image g ∧ ∃ f, g_floor g' = Some (Some f) ∧ (schema <= f)%Z
    | Err _ => g_broken g' = true
    end).
Proof.
  intros Has Hm. unfold raise_floor. apply wp_bind_ok, wp_quiet; [done|]. intros r _ Hf1.
  destruct r as [f|e]; [|by (split; [|simpl; by rewrite orb_true_r])].
  assert (∀ g1 now, g1 = with_floor (floor_schema <$> f) g →
    (∀ fl, f = Some fl → (floor_schema fl < schema)%Z) →
    WP (call (StoreFloor (mkSchemaFloor schema rid now))) g1 (λ r g', frame g g' ∧
      match r with
      | Ok _ => g_image g' = g_image g ∧ ∃ f, g_floor g' = Some (Some f) ∧ (schema <= f)%Z
      | Err _ => g_broken g' = true
      end)) as Hstore.
  { intros g1 now -> Hlt. apply wp_call.
    - split; [eapply (at_step_cur (with_floor _ g)); [by apply (at_step_dur g)|done]|].
      exists (floor_schema <$> f). split; [done|]. destruct f; simpl; [|done]. intros ? [= <-]. by apply Hlt.
    - intros r Hr. split; [etransitivity; [exact Hf1|by apply advance_frame]|].
      destruct r; simpl; [|by rewrite orb_true_r]. split; [done|]. exists schema. by split. }
  destruct f as [fl|].
  - destruct (Z.leb_spec schema (floor_schema fl)).
    + split; [done|]. split; [done|]. by eexists.
    + apply wp_bind, wp_quiet; [done|]. intros now _ _. apply Hstore; [done|]. by intros ? [= <-].
  - apply wp_bind, wp_quiet; [done|]. intros now _ _. by apply Hstore.
Qed.

Lemma floor_before_start_spec g j i s :
  at_step g j i s →
  WP (floor_before_start j i) g (fineP (λ _ g', migrating s = true → floor_raised g' s) g).
Proof.
  intros Has. unfold floor_before_start, migration_target, local_image_schema.
  rewrite (at_step_at _ _ _ _ Has). destruct (migrating s) eqn:Hm; [|by apply fineP_ret].
  apply (fineP_bind_ok (λ t g', ∃ o, g_image g' = Some (reference (st_image s), o) ∧
    t = match o with Some v => Some v | None => rq_schema_version (j_request j) end)).
  { apply fineP_map_errp; [apply dead_engine_halt|].
    apply (fineP_bind_ok (λ t g', g_image g' = Some (reference (st_image s), t))).
    { apply (fineP_bind_ok (λ o g', g_image g' = Some (reference (st_image s), o ≫= image_schema))).
      { apply wp_quiet; [done|]. intros r Ha Hf. split; [by apply fine_answer; auto|]. by destruct r. }
      intros o g1 Hg1 _. apply fineP_ret. by destruct o. }
    intros t g1 Hg1 _. apply fineP_ret. by eexists. }
  intros t g1 (o & Hg1 & ->) Hf1.
  apply (fineP_bind_ok (λ v g', g' = g1 ∧ match o with Some v => Some v | None => rq_schema_version (j_request j) end = Some v)).
  { destruct (match o with Some v => _ | None => _ end); by apply fineP_ret. }
  intros v g1' [-> Hv] _.
  apply wp_map_errp. eapply wp_mono; [by eapply raise_floor_spec; [by eapply at_step_frame|]|].
  intros r g2 [Hf2 H2]. split; [split; [done|destruct r; simpl; [done|by intros]]|].
  destruct r as [[]|]; [|done]. simpl. intros _. destruct H2 as [Hi (f & Hfl & Hle)].
  exists o, f. split_and!; [congruence|done|]. exists v. split; [|done].
  rewrite (fr_dur _ _ Hf2), (fr_dur _ _ Hf1), (as_dur _ _ _ _ Has). done.
Qed.

Lemma start_new_spec g j i s :
  at_step g j i s → st_phase s ∈ [PhStarted; PhVerifying] →
  WP (start_new cfg j i) g (fine g).
Proof.
  intros Has Hp. unfold start_new. apply (fineP_fine (λ _ _, True)).
  eapply fineP_bind_ok; [by apply find_new_spec|]. intros o g1 Hnew Hf1.
  apply (fineP_bind_ok (λ c g', g' = g1 ∧ o = Some c)); [apply fineP_ret; by destruct o|].
  intros c g1' [-> ->] _. destruct (Hnew c eq_refl) as (_ & Hown & Hne).
  destruct (c_running c); [by apply fineP_ret|].
  assert (at_step g1 j i s) as Has1 by by eapply at_step_frame.
  eapply fineP_bind_ok; [by apply floor_before_start_spec|]. intros u g2 Hfl Hf2. cbv beta in Hfl.
  assert (at_step g2 j i s) as Has2 by by eapply at_step_frame.
  apply wp_bind. eapply wp_mono.
  { apply (wp_ask _ _ (fine g2)); [auto| |].
    - intros t Ht. eapply (at_step_cur (with_clock t g2)); [by apply (at_step_dur g2)|].
      right. split_and!; [|done|done]. eapply owned_frame; [|done]. etransitivity; [exact Hf2|by apply with_clock_frame].
    - intros t r Ht Ha. eapply fine_frame; [by apply with_clock_frame|]. by apply fine_answer; auto. }
  intros r g3 [Hf3 H3]. simpl. destruct r as [|[]]; (split; [split; [done|]|done]); simpl; try done.
Qed.

(** ** Verifying *)

Lemma glance_ready nh mig ran steady seen :
  glance_at nh mig ran steady seen = Decided (Ok ()) →
  ∃ c, seen = Ok (Some c) ∧ c_running c = true ∧
    (c_health c = Some "healthy" ∨ c_health c = None ∧ nh = false).
Proof.
  unfold glance_at. destruct seen as [[c|]|[]]; try done. exists c. split; [done|].
  destruct (c_running c); simpl in *; [|by repeat case_match].
  destruct (bool_decide_reflect (c_health c = Some "healthy")); [by auto|].
  destruct (bool_decide_reflect (c_health c = None)); simpl in *; [|by repeat case_match].
  destruct nh; simpl in *; [by repeat case_match|]. auto.
Qed.

Lemma glance_dead nh mig ran steady seen h :
  glance_at nh mig ran steady seen = Decided (Err h) → dead h = true → seen = Err Crashed.
Proof. unfold glance_at. repeat case_match; intros; by simplify_eq. Qed.

(** Polls of [d] that end before [deadline] within [fuel] iterations. *)
Definition polls_end (fuel : nat) (deadline : Z) (g : World) : Prop :=
  spin ∨ (0 < poll (timing cfg) ∧ (1 <= fuel)%nat ∧
          deadline - g_clock g <= (Z.of_nat fuel - 1) * poll (timing cfg))%Z.

Lemma polls_end_next fuel deadline g g1 t :
  polls_end (S fuel) deadline g → (g_clock g <= g_clock g1)%Z → (g_clock g1 <= t)%Z → (t < deadline)%Z →
  polls_end fuel deadline (with_clock (t + Z.max 0 (poll (timing cfg))) g1).
Proof. intros [H|(H1 & H2 & H3)] Hc Ht Hd; [by left|right]. simpl. nia. Qed.

Lemma polls_end_frame fuel deadline g g1 :
  frame g g1 → polls_end fuel deadline g → polls_end fuel deadline g1.
Proof. intros [_ _ Hc _] [H|(H1 & H2 & H3)]; [by left|right]. split_and!; [done|done|lia]. Qed.

Lemma preflight_frame j i g : WP (preflight j i) g (λ _ g1, frame g g1).
Proof. unfold preflight. destruct (bool_decide _); [by apply frame_call|]. cbn [wp]. reflexivity. Qed.

Lemma look_spec g j i s :
  at_step g j i s →
  WP (look j i) g (fineP (λ o g', ∀ c, o = Some c → ∃ id, new_container s = Some id ∧ g_conts g' !! id = Some c) g).
Proof.
  intros Has. unfold look. rewrite (at_step_at _ _ _ _ Has).
  destruct (new_container s) as [id|] eqn:Hn; [|by apply fineP_ret].
  eapply wp_mono; [apply inspect_call|]. intros r g1 [Hf Hs]. split; [done|].
  destruct r as [o|]; [|done]. intros c ->. exists id. split; [done|].
  destruct Hs as ([_ Hres] & Hs & _). rewrite (wf_new _ (at_step_wf _ _ _ _ Has) _ Hn) in Hres. congruence.
Qed.

(** One pause between two looks: the deadline passed, or the clock moved by a poll. *)
Lemma pause_spec {A} fuel deadline g (late : result A Halt) (k : prog I (result A Halt)) P :
  polls_end (S fuel) deadline g → match late with Err h => dead h = false | Ok _ => False end →
  (∀ g1, frame g g1 → polls_end fuel deadline g1 → WP k g1 (fineP P g1)) →
  WP (do t <- call Now;
      if (deadline <=? t)%Z then Ret late
      else do _ <- call (Sleep (poll (timing cfg))); k) g (fineP P g).
Proof.
  intros Hp Hl Hk. apply wp_bind, wp_quiet; [done|]. intros t Ht Hf. cbn [world_allows] in Ht.
  apply fineP_mono; [done|]. destruct (Z.leb_spec deadline t) as [Hd|Hd].
  { apply fineP_ret. by destruct late. }
  apply wp_bind, wp_quiet; [done|]. intros u _ Hf2. apply fineP_mono; [done|].
  apply Hk; [by transitivity (with_clock t g)|].
  apply (polls_end_next _ _ g (with_clock t g)); simpl; [done|lia|lia|done].
Qed.

Lemma verify_loop_spec fuel deadline g j i s ran steady :
  at_step g j i s → polls_end fuel deadline g →
  WP (verify_loop cfg fuel deadline j i ran steady) g (fineP (λ _ g', new_seen_ready g' s) g).
Proof.
  revert g ran steady. induction fuel as [|fuel IH]; intros g ran steady Has Hp; cbn [verify_loop].
  { destruct Hp as [H|(_ & H & _)]; [done|lia]. }
  apply fineP_bind; [apply preflight_frame|]. intros [why|] g1 Hf1; [by apply fineP_ret|].
  apply (polls_end_frame _ _ _ _ Hf1) in Hp. apply (at_step_frame _ _ _ _ _ Hf1) in Has.
  apply wp_bind. eapply wp_mono; [by apply look_spec|]. intros seen g2 [[Hf2 Hdead] Hseen].
  apply (polls_end_frame _ _ _ _ Hf2) in Hp. apply (at_step_frame _ _ _ _ _ Hf2) in Has.
  apply fineP_mono; [done|].
  destruct (glance_at _ _ _ _ _) as [r|ran' steady' last never] eqn:Hg.
  { destruct r as [[]|h].
    - apply glance_ready in Hg as (c & -> & Hr & Hh). destruct (Hseen c eq_refl) as (id & Hid & Hc).
      apply fineP_ret. exists id, c. split_and!; [done|done|].
      rewrite (at_step_role _ _ _ _ Has) in Hh. unfold ready. rewrite Hr. simpl.
      destruct Hh as [->|[-> Hh]]; [done|]. by rewrite Hh.
    - split; [|done]. split; [done|]. simpl. intros Hd. apply glance_dead in Hg; [|done].
      subst seen. by apply Hdead. }
  apply (fineP_bind _ _ (λ late : bool, if late then _ else _)).
  { destruct never; [|cbn [wp]; reflexivity]. apply wp_bind, wp_quiet; [done|]. intros t Ht _. by apply with_clock_frame. }
  intros late g3 Hf3. destruct late; [by apply fineP_ret|].
  apply (pause_spec fuel); [by eapply polls_end_frame|done|]. intros g4 Hf4 Hp4. apply IH; [|done].
  by eapply at_step_frame; [exact Hf4|]; eapply at_step_frame.
Qed.

(** Fuel that is enough for every wait of an attempt. *)
Definition fuel_enough (fuel : nat) : Prop :=
  spin ∨ (0 < poll (timing cfg) ∧ (1 <= fuel)%nat ∧ secs 3600 <= (Z.of_nat fuel - 1) * poll (timing cfg)
          ∧ verify_timeout (timing cfg) <= (Z.of_nat fuel - 1) * poll (timing cfg))%Z.

Lemma verify_spec fuel g j i s :
  at_step g j i s → fuel_enough fuel →
  WP (verify cfg fuel j i) g (fineP (λ _ g', new_seen_ready g' s) g).
Proof.
  intros Has Hfu. unfold verify. apply wp_bind, wp_quiet; [done|]. intros t Ht Hf.
  apply fineP_mono; [done|]. apply verify_loop_spec; [by apply (at_step_dur g)|].
  destruct Hfu as [H|(H1 & H2 & H3 & H4)]; [by left|right]. split_and!; [done|done|]. simpl.
  unfold verify_deadline. case_match; unfold secs in *; lia.
Qed.

(** ** Recording and discarding *)

Lemma record_new_spec g j i s :
  at_step g j i s → st_phase s = PhVerified → WP (record_new j i) g (fine g).
Proof.
  intros Has Hp. unfold record_new. rewrite (at_step_at _ _ _ _ Has), (at_step_role _ _ _ _ Has).
  destruct (st_revision s) as [rev|]; [|by apply fine_ret].
  destruct (st_spec s) as [sp|] eqn:Hsp; [|by apply fine_ret].
  apply fine_bind; [by apply frame_call|]. intros now g1 Hf1.
  apply wp_map_errp, wp_call.
  - eapply at_step_cur; [by eapply at_step_frame|]. by split_and!.
  - intros r Ha. split; [by apply advance_frame|]. destruct r; simpl; [done|]. by rewrite orb_true_r.
Qed.

Lemma discard_old_spec g j i s :
  at_step g j i s → st_phase s = PhOldDiscarded →
  WP (discard_old cfg j i) g (λ r g', fine g r g' ∧ ∀ h, r = Err h → h = Died).
Proof.
  intros Has Hp. unfold discard_old. rewrite (at_step_at _ _ _ _ Has).
  destruct (old_container s) as [id|] eqn:Ho; [|by (split; [apply fine_ret|])].
  apply wp_bind. eapply wp_mono; [apply (wp_ask _ _ (fine g)); [auto| |]|].
  - intros t _. eapply (at_step_cur (with_clock t g)); [by apply (at_step_dur g)|]. by left.
  - intros t r Ht Ha. eapply fine_frame; [by apply with_clock_frame|]. by apply fine_answer; auto.
  - intros r g1 [Hf H]. simpl. destruct r as [|[]]; (split; [split; [done|]|intros h]); simpl; try done; by intros [= <-].
Qed.

(** ** Putting the old container back *)

(** The kept container as the restore goes on: last seen under [n], of image [im]. *)
Definition kept_as (id n im : string) (g : World) : Prop :=
  g_names g !! id = Some n ∧ ∃ c, g_conts g !! id = Some c ∧ c_image_id c = im.

Lemma await_running_spec fuel deadline g id n im :
  platform_name id = false → kept_as id n im g → polls_end fuel deadline g →
  WP (await_running cfg fuel deadline id) g
     (fineP (λ _ g', ∃ c, g_conts g' !! id = Some c ∧ c_running c = true ∧ g_names g' !! id = Some n) g).
Proof.
  intros Hid. revert g. induction fuel as [|fuel IH]; intros g [Hn (c0 & Hc0 & Him)] Hp; cbn [await_running].
  { destruct Hp as [H|(_ & H & _)]; [done|lia]. }
  apply wp_bind, wp_quiet; [done|]. intros seen Ha Hf.
  set (g1 := advance_world _ _ _) in *. apply (polls_end_frame _ _ _ _ Hf) in Hp.
  assert (seen = Err Crashed → g_broken g1 = true) as Hcr.
  { intros ->. simpl. by rewrite orb_true_r. }
  assert (kept_as id n im g1 ∧ ∀ c, seen = Ok (Some c) → g_conts g1 !! id = Some c) as [Hk Hseen].
  { subst g1. destruct seen as [[c|]|e]; simpl in *; [| |by (split; [split; [|exists c0]|])].
    - destruct Ha as [[_ Hres] [Hcn Hci]]. rewrite Hid in Hres. rewrite Hres in *.
      split; [|intros ? [= <-]; simpl; by rewrite ?Hres, lookup_insert_eq].
      split; simpl; rewrite ?Hres, lookup_insert_eq; [f_equal; by apply Hcn|].
      exists c. split; [done|]. rewrite (Hci c0) by done. done.
    - split; [|done]. split; simpl; [done|]. exists (stopped c0). by rewrite lookup_alter_eq, Hc0. }
  clearbody g1. apply fineP_mono; [done|].
  assert (∀ b, b = match seen with Ok (Some c) => c_running c | _ => false end →
    WP (if b then Ret (Ok ()) else do t <- call Now;
          if (deadline <=? t)%Z then Ret (Err (Ok "the previous container did not come back up"))
          else do _ <- call (Sleep (poll (timing cfg))); await_running cfg fuel deadline id) g1
     (fineP (λ _ g', ∃ c, g_conts g' !! id = Some c ∧ c_running c = true ∧ g_names g' !! id = Some n) g1)) as Hgo.
  { intros b Hb. destruct b.
    - apply fineP_ret. destruct seen as [[c|]|]; try done. exists c. split_and!; [by apply Hseen|done|apply Hk].
    - apply wp_bind, wp_quiet; [done|]. intros t Ht Hft. cbn [world_allows] in Ht. apply fineP_mono; [done|].
      destruct (Z.leb_spec deadline t) as [|Hd]; [by apply fineP_ret|].
      apply wp_bind, wp_quiet; [done|]. intros u _ Hf3. apply fineP_mono; [done|]. apply IH; [done|].
      apply (polls_end_next _ _ g1 (with_clock t g1)); simpl; [done|lia|lia|done]. }
  destruct seen as [o|[]]; [by apply Hgo|by apply (Hgo false)|by apply (Hgo false)|].
  split; [|done]. split; [done|]. intros _. by apply Hcr.
Qed.

Lemma container_name_eqb r r' : str_eqb (container_name r) (container_name r') = bool_decide (r = r').
Proof. by destruct r, r'. Qed.

Lemma schema_back_spec g s id c :
  g_conts g !! id = Some c →
  WP (schema_back cfg (container_name (step_role s)) c) g
     (fineP (λ _ g', g_conts g' = g_conts g ∧ g_names g' = g_names g ∧ floor_allows g' s id) g).
Proof.
  intros Hc. unfold schema_back. rewrite container_name_eqb. case_bool_decide as Hr.
  2: { apply fineP_ret. split_and!; [done..|]. intros H. by destruct Hr. }
  apply (fineP_bind_ok (λ o g', g_conts g' = g_conts g ∧ g_names g' = g_names g ∧
                                g_image g' = Some (c_image_id c, o ≫= image_schema))).
  { apply fineP_map_errp; [apply dead_crashed_or|]. apply wp_ask; [auto|done|]. intros t r Ht Ha.
    split; [eapply fine_frame; [by apply with_clock_frame|]; by apply fine_answer; auto|]. by destruct r. }
  intros o g1 (Hc1 & Hn1 & Hi1) _.
  apply (fineP_bind_ok (λ im g', g' = g1 ∧ o = Some im)); [apply fineP_ret; by destruct o|].
  intros im g1' [-> ->] _. unfold schema_allows.
  apply fineP_map_errp; [done|]. apply wp_bind, wp_quiet; [done|]. intros f _ Hf.
  destruct f as [[fl|]|e]; simpl in Hi1.
  - destruct (image_schema im) as [v|] eqn:Hv; [|by apply fineP_mono; [done|]; apply fineP_ret].
    destruct (Z.leb_spec (floor_schema fl) v); [|by apply fineP_mono; [done|]; apply fineP_ret].
    apply fineP_mono; [done|]. apply fineP_ret. split_and!; [done..|]. intros _.
    exists c, (Some v), (Some (floor_schema fl)). split_and!; [by simpl; rewrite Hc1|done|done|]. by exists v.
  - apply fineP_mono; [done|]. apply fineP_ret. split_and!; [done..|]. intros _.
    exists c, (image_schema im), None. split_and!; [by simpl; rewrite Hc1|done..].
  - apply fineP_mono; [done|]. by apply fineP_ret.
Qed.

Lemma floor_allows_view g g' s id :
  g_image g' = g_image g → g_floor g' = g_floor g →
  (∀ c, g_conts g !! id = Some c → ∃ c', g_conts g' !! id = Some c' ∧ c_image_id c' = c_image_id c) →
  floor_allows g s id → floor_allows g' s id.
Proof.
  intros Hi Hf Hc H Hr. destruct (H Hr) as (c & t & fl & H1 & H2 & H3 & H4).
  destruct (Hc _ H1) as (c' & H5 & H6). exists c', t, fl. rewrite Hi, Hf, H6. by split_and!.
Qed.

(** What holds of the kept container once it has its name back. *)
Definition back_named (s : Step) (id im : string) (g : World) : Prop :=
  kept_as id (container_name (step_role s)) im g ∧ floor_allows g s id.

Lemma name_back_spec g j i s id c :
  at_step g j i s → st_phase s = PhRestoring → migrating s = false → old_container s = Some id →
  g_conts g !! id = Some c → g_names g !! id = Some (c_name c) → floor_allows g s id →
  WP (name_back cfg id (container_name (step_role s)) c) g
     (fineP (λ _ g', back_named s id (c_image_id c) g') g).
Proof.
  intros Has Hp Hm Ho Hc Hn Hfl. unfold name_back.
  destruct (str_eqb _ _) eqn:En.
  { apply str_eqb_true in En. apply fineP_ret. split; [|done]. split; [congruence|by exists c]. }
  apply (fineP_bind_ok (λ o g', o = None → floor_allows g' s id ∧ ∃ c', g_conts g' !! id = Some c' ∧ c_image_id c' = c_image_id c)).
  { apply fineP_map_errp; [apply dead_crashed_or|]. apply wp_ask; [auto|done|]. intros t r Ht Ha.
    split; [eapply fine_frame; [by apply with_clock_frame|]; by apply fine_answer; auto|].
    destruct r as [[c'|]|]; [done| |done]. intros _. simpl.
    assert (id ≠ container_name (step_role s)) as Hne.
    { intros ->. pose proof (wf_old _ (at_step_wf _ _ _ _ Has) _ Ho) as H.
      by rewrite (proj1 (platform_name_role _)) in H. }
    split.
    - apply (floor_allows_view g); [done|done| |exact Hfl]. intros c1 Hc1. exists c1. simpl. by rewrite lookup_alter_ne.
    - exists c. by rewrite lookup_alter_ne. }
  intros [c'|] g1 H1 Hf1; [by apply fineP_ret|]. destruct (H1 eq_refl) as (Hfl1 & c1 & Hc1 & Hi1).
  pose proof (at_step_frame _ _ _ _ _ Hf1 Has) as Has1.
  apply fineP_map_errp; [apply dead_crashed_or|].
  eapply wp_mono; [apply (rename_spec _ _ _ _ _ _
    (λ g, floor_allows g s id ∧ ∃ c', g_conts g !! id = Some c' ∧ c_image_id c' = c_image_id c) Has1)|].
  - split; [done|]. by right.
  - split; [done|]. by exists c1.
  - intros g2 t b [H2 H3]. split; [|done]. apply (floor_allows_view g2); [done|done| |exact H2]. intros c2 ?. by exists c2.
  - intros r g2 [H2 H3]. split; [done|]. destruct r; [|done]. destruct H3 as (g3 & [H3 H4] & ->).
    split; [split; [simpl; by rewrite lookup_insert_eq|done]|].
    apply (floor_allows_view g3); [done|done| |exact H3]. intros c2 ?. by exists c2.
Qed.

Lemma same_view_back s id im g g' : same_view g g' → back_named s id im g → back_named s id im g'.
Proof.
  intros (Hc & Hn & Hi & Hf) [[H1 H2] H3]. split; [split; [congruence|by rewrite Hc]|].
  apply (floor_allows_view g); [done|done| |exact H3]. rewrite Hc. intros c ?. by exists c.
Qed.

Lemma bring_back_spec fuel g j i s id :
  at_step g j i s → st_phase s = PhRestoring → migrating s = false → old_container s = Some id →
  fuel_enough fuel →
  WP (bring_back cfg fuel id (container_name (step_role s)) (old_restart s)) g
     (fineP (λ _ g', old_put_back g' s) g).
Proof.
  intros Has Hp Hm Ho Hfu. unfold bring_back.
  assert (platform_name id = false) as Hid by (by apply (wf_old _ (at_step_wf _ _ _ _ Has))).
  eapply fineP_bind_ok; [apply fineP_map_errp; [apply dead_crashed_or|apply inspect_ask]|].
  intros o g1 Hs1 Hf1. pose proof (at_step_frame _ _ _ _ _ Hf1 Has) as Has1. clear g Has Hf1.
  apply (fineP_bind_ok (λ c g', g' = g1 ∧ o = Some c)); [apply fineP_ret; by destruct o|].
  intros c g1' [-> ->] _. destruct Hs1 as ([_ Hres] & Hc & Hn). rewrite Hid in Hres. rewrite Hres in Hc, Hn.
  eapply fineP_bind_ok; [by apply schema_back_spec|]. intros u1 g2 (Hc2 & Hn2 & Hfl2) Hf2.
  pose proof (at_step_frame _ _ _ _ _ Hf2 Has1) as Has2. rewrite <- Hc2 in Hc. rewrite <- Hn2 in Hn.
  eapply fineP_bind_ok; [by eapply name_back_spec|]. intros u2 g3 Hb3 Hf3.
  pose proof (at_step_frame _ _ _ _ _ Hf3 Has2) as Has3.
  apply (fineP_bind_ok (λ _ g', back_named s id (c_image_id c) g')).
  { destruct (bool_decide _); [by apply fineP_ret|]. apply fineP_map_errp; [apply dead_crashed_or|].
    eapply wp_mono; [eapply (set_policy_spec _ _ _ _ _ _ Has3); intros; left; split; [done|by right]|].
    intros r g' [H1 H2]. split; [done|]. destruct r; [|done]. by eapply same_view_back. }
  intros u3 g4 Hb4 Hf4. pose proof (at_step_frame _ _ _ _ _ Hf4 Has3) as Has4.
  apply (fineP_bind_ok (λ _ g', back_named s id (c_image_id c) g')).
  { destruct (c_running c); [by apply fineP_ret|]. apply fineP_map_errp; [apply dead_crashed_or|].
    apply wp_ask; [auto| |].
    - intros t Ht. eapply (at_step_cur (with_clock t g4)); [by apply (at_step_dur g4)|].
      left. split_and!; [done..|]. apply Hb4.
    - intros t r Ht Ha. split; [eapply fine_frame; [by apply with_clock_frame|]; by apply fine_answer; auto|].
      destruct r; [|done]. by eapply same_view_back; [|exact Hb4]. }
  intros u4 g5 [Hk5 _] Hf5.
  apply wp_bind, wp_quiet; [done|]. intros t Ht Hft. apply fineP_mono; [done|].
  eapply wp_mono; [apply (await_running_spec _ _ _ _ (container_name (step_role s)) (c_image_id c)); [done|done|]|].
  { destruct Hfu as [H|(H1 & H2 & H3 & H4)]; [by left|right]. split_and!; [done|done|]. simpl. lia. }
  intros r g' [H1 H2]. split; [done|]. destruct r; [|done]. destruct H2 as (c' & ? & ? & ?). by exists id, c'.
Qed.

(** ** Journalling *)

(** A journal in memory: the durable one but for component [i]'s record and the dump named in
    the result. *)
Record edited j i s1 (j1 : Journal) : Prop := mkEdited {
  ed_steps : j_steps j1 = <[i := s1]> (j_steps j);
  ed_request : j_request j1 = j_request j;
  ed_restore : j_restore j1 = j_restore j;
  ed_state : res_state (j_result j1) = res_state (j_result j) }.

Lemma edited_refl j i s : j_steps j !! i = Some s → edited j i s j.
Proof. intros H. split; [by rewrite list_insert_id|done..]. Qed.

Lemma edited_update j i s1 j1 f : edited j i s1 j1 →
  edited j i (f s1) (update_step i f j1).
Proof.
  intros [H1 H2 H3 H4]. split; [|done..]. simpl.
  by rewrite H1, !list_insert_alter, list_alter_alter_eq.
Qed.

Lemma stamped_fields now j1 :
  let j' := set_result (set_updated_at now (j_result (project j1))) (project j1) in
  j_steps j' = j_steps j1 ∧ j_request j' = j_request j1 ∧ j_restore j' = j_restore j1 ∧
  is_open j' = is_open j1 ∧ (rank (res_state (j_result j1)) <= rank (res_state (j_result j')))%Z.
Proof.
  simpl. destruct (project_fields j1) as (H1 & H2 & H3). split_and!; try done.
  - unfold is_open. simpl. apply project_is_open.
  - apply project_grows.
Qed.

Definition advanced j i s' (r : result Journal unit) (g' : World) : Prop :=
  match r with
  | Ok j' => g_dur g' = j' ∧ is_open j' = true ∧ j_steps j' = <[i := s']> (j_steps j) ∧
             j_request j' = j_request j ∧ j_restore j' = j_restore j
  | Err _ => g_broken g' = true
  end.

Lemma killed_spec {A} g (p : prog I (result A unit)) (Q : result A unit → World → Prop) :
  (∀ g', g_broken g' = true → Q (Err ()) g') → WP p g Q →
  WP (do k <- call Killed; if k then Ret (Err ()) else p) g Q.
Proof.
  intros Hb Hp. apply wp_bind, wp_quiet; [done|]. intros k _ _. destruct k.
  - apply Hb. simpl. by rewrite orb_true_r.
  - simpl. by rewrite break_false.
Qed.

Lemma advance_spec g j i s j1 s1 p :
  at_step g j i s → edited j i s1 j1 → move g s (set_phase p s1) →
  WP (advance j1 i p) g (advanced j i (set_phase p s1)).
Proof.
  intros Has Hed Hmv. unfold advance, commit. apply killed_spec; [done|].
  apply wp_bind, wp_quiet; [done|]. intros now _ _. cbn [advance_world].
  set (j2 := update_step i (set_phase p) j1).
  assert (edited j i (set_phase p s1) j2) as [H1 H2 H3 H4] by (by apply edited_update).
  destruct (stamped_fields now j2) as (Hs & Hr & Hre & Ho & Hrk).
  set (j' := set_result _ _) in *.
  assert (is_open j' = true) as Hopen.
  { rewrite Ho. unfold is_open. rewrite H4. apply Has. }
  apply wp_bind, wp_call.
  - change (attempt_step g (g_dur g) j'). rewrite (as_dur _ _ _ _ Has). eapply step_move; [apply Has|apply Has|apply Has|exact Hmv|..].
    + congruence.
    + done.
    + congruence.
    + congruence.
    + by rewrite <- H4.
  - intros r _. clearbody j' j2. destruct r; simpl; [|by rewrite orb_true_r]. split_and!; congruence.
Qed.

Definition closed (r : result Journal unit) (g' : World) : Prop :=
  match r with
  | Ok j' => g_dur g' = j' ∧ is_open j' = false ∧ j_restore j' = None
  | Err _ => g_broken g' = true
  end.

Lemma finish_spec g j1 state reason output restored :
  is_terminal state = true → j_restore j1 = None →
  (∀ now, attempt_step g (g_dur g) (finished_journal state reason output restored now j1)) →
  WP (finish j1 state reason output restored) g closed.
Proof.
  intros Ht Hre Hstep. unfold finish. apply killed_spec; [done|].
  apply wp_bind, wp_quiet; [done|]. intros now _ _. cbn [advance_world].
  apply wp_bind, wp_call; [apply Hstep|]. intros r _. destruct r; [|simpl; by rewrite orb_true_r].
  apply wp_bind, wp_quiet; [done|]. intros u _ _.
  apply wp_bind, wp_quiet; [done|]. intros u' _ _. split_and!; [done| |done]. unfold is_open. simpl. by rewrite Ht.
Qed.

Lemma finish_failed_spec g j i s j1 s1 reason output restored :
  at_step g j i s → edited j i s1 j1 → st_name s1 = st_name s → may_fail s = true →
  (restored = true → st_phase s = PhRestoring ∧ old_put_back g s) →
  WP (finish j1 StFailed (Some reason) output restored) g closed.
Proof.
  intros Has [H1 H2 H3 H4] Hn Hmf Hre.
  apply finish_spec; [done|rewrite H3; apply (as_wf _ _ _ _ Has)|]. intros now.
  rewrite (as_dur _ _ _ _ Has).
  eapply (step_fail _ _ _ i s); try (by apply Has); try done.
  - simpl. unfold finish_steps. apply Forall_forall. intros s' Hs'.
    apply list_elem_of_In, List.in_map_iff in Hs' as (s0 & <- & _). unfold is_done. simpl.
    case_bool_decide; simpl; done.
  - simpl. unfold finish_steps. rewrite List.map_map, H1.
    transitivity (map st_name (<[i:=s1]> (j_steps j))); [by apply List.map_ext; intros s0; case_match|].
    change (st_name <$> <[i:=s1]> (j_steps j) = st_name <$> j_steps j). rewrite list_fmap_insert.
    apply list_insert_id. rewrite Hn, list_lookup_fmap, (as_lookup _ _ _ _ Has). done.
  - simpl. by rewrite H2.
Qed.

Lemma finish_succeeded_spec g j :
  g_dur g = j → is_open j = true → current j = None → j_restore j = None →
  WP (finish j StSucceeded None EmptyString false) g closed.
Proof.
  intros <- Ho Hc Hre. apply finish_spec; [done|done|]. intros now. apply step_succeed; try done.
  simpl. unfold finish_steps. simpl. apply List.map_id.
Qed.

(** ** Restoring *)

Lemma remove_own_spec g j i s id :
  at_step g j i s → (∀ t, (g_clock g <= t)%Z → may_remove (with_clock t g) id s) →
  WP (retrying cfg (call (RemoveContainer id))) g (fine g).
Proof.
  intros Has Hm. apply wp_ask; [auto| |].
  - intros t Ht. eapply (at_step_cur (with_clock t g)); [by apply (at_step_dur g)|by apply Hm].
  - intros t r Ht Ha. eapply fine_frame; [by apply with_clock_frame|]. by apply fine_answer; auto.
Qed.

Lemma stop_own_spec g j i s id d :
  at_step g j i s → (∀ g1, frame g g1 → may_stop g1 id s) →
  WP (retrying cfg (call (StopContainer id d))) g (fine g).
Proof. intros Has Hm. eapply fineP_fine. by eapply (stop_spec _ _ _ _ _ _ (λ _, True)). Qed.

Lemma owned_clock g t id : owned g id → owned (with_clock t g) id.
Proof. intros [H|H]; [by left|by right]. Qed.

Lemma remove_new_spec g j i s found :
  at_step g j i s → st_phase s = PhRestoring → (∀ c, found = Some c → own_new s c g) →
  WP (remove_new cfg found) g (fine g).
Proof.
  intros Has Hp Hown. unfold remove_new. destruct found as [c|]; [|by apply fine_ret].
  destruct (Hown c eq_refl) as (_ & Ho & Hne).
  apply wp_bind. eapply wp_mono.
  { eapply stop_own_spec; [exact Has|]. intros g1 Hf. right. rewrite Hp.
    split_and!; [by eapply owned_frame|done|by left]. }
  intros r1 g1 [Hf1 H1]. apply (owned_frame _ _ _ Hf1) in Ho.
  pose proof (at_step_frame _ _ _ _ _ Hf1 Has) as Has1. apply fine_mono; [done|].
  assert (WP (do l <- call (LogsTail (c_id c) 40);
    match l with
    | Err Crashed => Ret (Err tt)
    | _ =>
        let logs := match l with
                    | Ok tail => if str_eqb (trim_end tail) EmptyString then EmptyString
                                 else nl +:+ "--- last lines of the failed container ---" +:+ nl
                                      +:+ embedded_log_tail tail
                    | Err _ => EmptyString
                    end in
        do r <- retrying cfg (call (RemoveContainer (c_id c)));
        match r with
        | Ok _ => Ret (Ok logs)
        | Err Crashed => Ret (Err tt)
        | Err e => Ret (Ok (logs +:+ nl +:+ "the failed container could not be removed: "
                            +:+ show_engine_error e))
        end
    end) g1 (fine g1)) as Hrest.
  { apply wp_bind. eapply wp_mono; [apply fine_call; [auto|done]|]. intros l g2 [Hf2 H2].
    assert (∀ logs, WP (do r <- retrying cfg (call (RemoveContainer (c_id c)));
        match r with
        | Ok _ => Ret (Ok logs)
        | Err Crashed => Ret (Err tt)
        | Err e => Ret (Ok (logs +:+ nl +:+ "the failed container could not be removed: "
                            +:+ show_engine_error e))
        end) g2 (fine g1)) as Hrm.
    { intros logs. apply fine_mono; [done|]. apply wp_bind. eapply wp_mono.
      { eapply remove_own_spec; [by eapply at_step_frame|]. intros t _. right. split; [done|]. left.
        rewrite Hp. split_and!; [by apply owned_clock; eapply owned_frame|done|by left]. }
      intros r g3 [Hf3 H3]. by destruct r as [|[]]; split; simpl; auto. }
    destruct l as [|[]]; try apply Hrm. split; simpl; auto. }
  destruct r1 as [|[]]; try exact Hrest. split; simpl; auto. done.
Qed.

Lemma failed_started_fine new g : WP (failed_started new) g (fine g).
Proof.
  unfold failed_started. destruct new; [|by apply fine_ret]. apply wp_bind.
  eapply wp_mono; [apply fine_call; [auto|done]|]. intros r g1 [Hf H]. split; [done|].
  by destruct r as [[]|[]]; simpl; auto.
Qed.

Lemma failed_logs_fine new g : WP (failed_logs new) g (fine g).
Proof.
  unfold failed_logs. destruct new; [|by apply fine_ret]. apply wp_bind.
  eapply wp_mono; [apply fine_call; [auto|done]|]. intros r g1 [Hf H]. split; [done|].
  by destruct r as [|[]]; simpl; auto.
Qed.

Lemma stop_failed_spec g j i s id started :
  at_step g j i s → touched_old (st_phase s) = true → migrating s = true →
  new_container s = Some id → WP (stop_failed cfg id started) g (fine g).
Proof.
  intros Has Ht Hm Hn. assert (∀ g1, frame g g1 → owned g1 id) as Hown.
  { intros g1 Hf. right. eapply at_step_cur; [by eapply at_step_frame|done]. }
  assert (old_container s ≠ Some id) as Hne by (by apply (wf_disjoint _ (at_step_wf _ _ _ _ Has))).
  unfold stop_failed. destruct started; simpl.
  - apply fine_bind_ok.
    + eapply fineP_fine, set_policy_spec; [exact Has|]. intros t Hc. right.
      split_and!; [|done..]. apply owned_clock. by apply Hown.
    + intros u g1 Hf. eapply stop_own_spec; [by eapply at_step_frame|]. intros g2 Hf2. right.
      split_and!; [|done|by right]. apply Hown. by transitivity g1.
  - eapply remove_own_spec; [exact Has|]. intros t Hc. right. split; [done|]. left.
    split_and!; [|done|by right]. apply owned_clock. by apply Hown.
Qed.

Lemma fail_migrating_spec g j i s f :
  at_step g j i s → touched_old (st_phase s) = true → migrating s = true →
  WP (fail_migrating cfg j i f) g closed.
Proof.
  intros Has Ht Hm. unfold fail_migrating. rewrite (at_step_at _ _ _ _ Has).
  apply wp_bind_ok. eapply wp_mono; [apply failed_started_fine|]. intros [started|] g1 [Hf1 H1]; [|by apply H1].
  apply wp_bind_ok. eapply wp_mono; [apply failed_logs_fine|]. intros [logs|] g2 [Hf2 H2]; [|by apply H2].
  apply wp_bind. apply wp_quiet; [done|]. intros p _ Hf3.
  set (g3 := advance_world _ _ _) in *. clearbody g3.
  assert (at_step g3 j i s) as Has3 by (do 3 (eapply at_step_frame; [eassumption|]); done).
  apply wp_bind_ok.
  eapply (wp_mono _ _ _ _ (fine g3)).
  { destruct (new_container s) as [id|] eqn:Hn; [|by apply fine_ret].
    destruct (_ || _); [|by apply fine_ret]. apply wp_bind.
    eapply wp_mono; [by eapply stop_failed_spec|]. intros r g4 [Hf4 H4].
    by destruct r as [|[]]; split; simpl; auto. }
  intros [st|] g4 [Hf4 H4]; [|by apply H4].
  eapply finish_failed_spec; [by eapply at_step_frame|by apply edited_refl, Has|done| |done].
  unfold may_fail. rewrite Hm. by rewrite orb_true_r.
Qed.

Lemma restore_spec fuel g j i s :
  at_step g j i s → st_phase s = PhRestoring → fuel_enough fuel →
  WP (restore cfg fuel j i) g closed.
Proof.
  intros Has Hp Hfu. unfold restore. rewrite (at_step_at _ _ _ _ Has), (at_step_role _ _ _ _ Has).
  destruct (migrating s) eqn:Hm; [by eapply fail_migrating_spec; [|rewrite Hp|]|].
  apply wp_bind. eapply wp_mono; [by apply find_new_spec|]. intros new g1 [[Hf1 H1] Hown].
  pose proof (at_step_frame _ _ _ _ _ Hf1 Has) as Has1.
  assert (∀ found noted, (∀ c, found = Some c → own_new s c g1) →
    WP (do? logs <- remove_new cfg found;
        do back <- match old_container s with
                   | None => Ret (Err (Ok "there was no previous container to put back"))
                   | Some old_id => bring_back cfg fuel old_id (container_name (step_role s)) (old_restart s)
                   end;
        match back with
        | Err (Err _) => Ret (Err tt)
        | _ =>
            let '(restored, said) :=
              match back with
              | Ok _ => (true, nl +:+ "the new container did not verify; the previous container was put back and is running")
              | Err (Ok why) => (false, nl +:+ "the new container did not verify and the automatic restore ALSO failed ("
                                        +:+ why +:+ "); apply the digests in `previous` by hand")
              | Err (Err _) => (false, EmptyString)
              end in
            finish j StFailed (Some (fl_reason (default (mkFailure Unhealthy EmptyString) (st_failure s))))
              (fl_detail (default (mkFailure Unhealthy EmptyString) (st_failure s)) +:+ noted +:+ logs +:+ said +:+ moved_before j i) restored
        end) g1 closed) as Hgo.
  { intros found noted Hfound. apply wp_bind_ok.
    eapply wp_mono; [by eapply remove_new_spec|]. intros [logs|] g2 [Hf2 H2]; [|by apply H2].
    pose proof (at_step_frame _ _ _ _ _ Hf2 Has1) as Has2. apply wp_bind.
    eapply (wp_mono _ _ _ _ (fineP (λ _ g', old_put_back g' s) g2)).
    { destruct (old_container s) eqn:Ho; [by eapply bring_back_spec|by apply fineP_ret]. }
    intros back g3 [[Hf3 H3] Hback]. pose proof (at_step_frame _ _ _ _ _ Hf3 Has2) as Has3.
    assert (may_fail s = true) as Hmf by (unfold may_fail; by rewrite Hp).
    destruct back as [u|[why|]]; [| |by apply H3].
    - by eapply finish_failed_spec; [exact Has3|apply edited_refl, Has|..].
    - by eapply finish_failed_spec; [exact Has3|apply edited_refl, Has|..]. }
  destruct new as [o|[|f]]; [by apply Hgo|by apply H1|by apply Hgo].
Qed.
End phases.
Arguments fuel_enough : clear implicits.
