(* ===== verification/ReplaceRun.v ===== *)
(** * A replacement keeps its promises

    [run], [interrupt] and [settle_journal] against the monitor of [ReplaceSpec]: every engine
    call is made when it may be, every journal stored follows the abstract machine, and with
    enough fuel an attempt ends, with its outcome on disk, unless the process dies. *)
From S2P Require Import Prelude Platform Wire Journal Settle Effects Replace ReplaceSpec ReplaceRules ReplaceProofs.

Section driver.
Context {I : Type} `{!ReplaceDeps I} {cfg : Config} {spin : Prop}.
Implicit Types (g : World) (j : Journal) (i : nat) (s : Step).

Local Abbreviation WP p g Q := (wp (watch I) spin p g Q).

(** ** The driver *)

(** How many phases a component may still be journalled at. *)
Definition phase_left (p : Phase) : nat :=
  match p with
  | PhAdmitted => 11 | PhPulling => 10 | PhChecked => 9 | PhDumping => 8 | PhOldKept => 7
  | PhCreated => 6 | PhStarted => 5 | PhVerifying => 4 | PhVerified => 3 | PhOldDiscarded => 2
  | PhDone => 0
  | _ => 1
  end.

Definition turns_left j : nat := sum_list_with (λ s, phase_left (st_phase s)) (j_steps j).

Lemma sum_insert_lt {A} (f : A → nat) l i x y :
  l !! i = Some x → (f y < f x)%nat → (sum_list_with f (<[i := y]> l) < sum_list_with f l)%nat.
Proof.
  revert i. induction l as [|z l IH]; intros [|i] Hl Hlt; simplify_eq/=; [lia|].
  specialize (IH i Hl Hlt). lia.
Qed.

Lemma edge_left mig p p' : phase_edge mig p p' = true → (phase_left p' < phase_left p)%nat.
Proof. destruct p, p'; simpl; try done; lia. Qed.

Definition turn_post j (o : step_outcome) (g' : World) : Prop :=
  match o with
  | Again (Ok j') => g_dur g' = j' ∧ is_open j' = true ∧ wf_journal j' ∧ (turns_left j' < turns_left j)%nat
  | Leave r => closed r g'
  | Again (Err _) => g_broken g' = true
  | Next _ _ => False
  end.

Lemma wf_insert j j' i s s' :
  wf_journal j → j_steps j !! i = Some s → wf_step s' → st_name s' = st_name s →
  j_steps j' = <[i := s']> (j_steps j) → j_restore j' = j_restore j → wf_journal j'.
Proof.
  intros [[Hr Ha] Hw] Hl Hs Hn Hsteps Hre. split; [split; [congruence|]|]; rewrite Hsteps.
  - apply Forall_insert; [done|]. unfold is_actor. rewrite Hn.
    rewrite Forall_forall in Ha. apply Ha. by eapply list_elem_of_lookup_2.
  - by apply Forall_insert.
Qed.

Lemma advance_turn g j i s j1 s1 p :
  at_step g j i s → edited j i s1 j1 → move g s (set_phase p s1) → wf_step (set_phase p s1) →
  WP (do r <- advance j1 i p; Ret (Again r)) g (turn_post j).
Proof.
  intros Has Hed Hmv Hwf. apply wp_bind. eapply wp_mono; [by eapply advance_spec|].
  intros [j'|] g' H; [|done]. destruct H as (Hd & Ho & Hs & Hr & Hre). split_and!; [done|done| |].
  - eapply wf_insert; [apply Has|apply Has|done|apply Hmv|done|done].
  - unfold turns_left. rewrite Hs. eapply sum_insert_lt; [apply Has|]. eapply edge_left, Hmv.
Qed.

Lemma move_simple g s p :
  phase_edge (migrating s) (st_phase s) p = true → st_phase s ≠ PhPulling → p ≠ PhStarted →
  p ≠ PhRestoring →
  (p = PhCreated → old_out_of_service g s) → (p = PhVerified → new_seen_ready g s) →
  move g s (set_phase p s).
Proof. intros. by split. Qed.

Lemma wf_set_phase s p :
  wf_step s → (p ∈ [PhAdmitted; PhPulling] → st_phase s = PhAdmitted) → wf_step (set_phase p s).
Proof. intros [H1 H2 H3 H4] Hp. split; simpl; [|done..]. intros H. apply H1. rewrite Hp; set_solver. Qed.

Lemma after_simple g j i s p :
  at_step g j i s → move g s (set_phase p s) → p ∉ [PhAdmitted; PhPulling] →
  WP (after_phase cfg j i (Ok p)) g (turn_post j).
Proof.
  intros Has Hmv Hp. eapply advance_turn; [done|by apply edited_refl, Has|done|].
  apply wf_set_phase; [by eapply at_step_wf|done].
Qed.

Lemma leave_closed g (p : prog I (result Journal unit)) j :
  WP p g closed → WP (do r <- p; Ret (Leave r)) g (turn_post j).
Proof. intros H. by apply wp_bind. Qed.

(** A failed step: the attempt ends, or the kept container is to be restored. *)
Lemma after_fail g j i s f :
  at_step g j i s →
  st_phase s ∈ [PhPulling; PhDumping; PhOldKept; PhCreated; PhStarted; PhVerifying; PhVerified] →
  WP (after_phase cfg j i (Err (HFail f))) g (turn_post j).
Proof.
  intros Has Hp. cbn [after_phase]. rewrite (at_step_at _ _ _ _ Has).
  destruct (touched_old (st_phase s)) eqn:Ht; cbn [negb].
  - destruct (migrating s) eqn:Hm; [by apply leave_closed; eapply fail_migrating_spec|].
    eapply advance_turn; [done|by apply edited_update, edited_refl, Has| |].
    + split; simpl; try done; rewrite ?Hm; revert Ht; rewrite list_elem_of_In in Hp; simpl in Hp;
        destruct_or! Hp; try rewrite <- Hp; by eauto.
    + apply wf_set_phase; [|set_solver]. destruct (at_step_wf _ _ _ _ Has). by split.
  - apply leave_closed. eapply finish_failed_spec; [done|by apply edited_refl, Has|done| |done].
    unfold may_fail. by rewrite Ht.
Qed.

(** The end of a phase's action that leaves the journal in memory as it is on disk. *)
Lemma after_plain g j i s (r : result unit Halt) p g' :
  at_step g j i s → fine g r g' →
  st_phase s ∈ [PhPulling; PhDumping; PhOldKept; PhCreated; PhStarted; PhVerifying; PhVerified] →
  p ∉ [PhAdmitted; PhPulling] → (r = Ok () → move g' s (set_phase p s)) →
  WP (after_phase cfg j i (to_phase p r)) g' (turn_post j).
Proof.
  intros Has [Hf Hd] Hp Hnp Hmv. pose proof (at_step_frame _ _ _ _ _ Hf Has) as Has'.
  destruct r as [[]|[|f]]; simpl.
  - by eapply after_simple; [|apply Hmv|].
  - by apply Hd.
  - by eapply after_fail.
Qed.

Lemma pulling_turn g j i s :
  at_step g j i s → st_phase s = PhPulling →
  WP (do r <- pull_and_check cfg j i;
      conclude cfg i (with_journal j PhChecked r))
     g (turn_post j).
Proof.
  intros Has Hp. apply wp_bind. eapply wp_mono; [apply pull_and_check_spec|].
  intros r g1 [[Hf Hd] Hr]. pose proof (at_step_frame _ _ _ _ _ Hf Has) as Has1.
  destruct r as [j1|[|f]]; simpl; [|by apply Hd|by eapply after_fail; [|rewrite Hp; set_solver]].
  destruct Hr as (mig & rev & spec & old & -> & Hid).
  pose proof (at_step_wf _ _ _ _ Has) as [Hfr Hdj Ho Hn].
  assert (new_container s = None) as Hnew by (apply Hfr; rewrite Hp; set_solver).
  eapply advance_turn; [done|by apply edited_update, edited_refl, Has| |].
  - split; simpl; rewrite ?Hp; try done; eauto.
  - split; simpl; [done|by rewrite Hnew| |by rewrite Hnew].
    intros id. destruct old as [c|]; simpl; [|done]. intros [= <-]. by apply Hid.
Qed.

Lemma dumped_edited j i s j1 :
  j_steps j !! i = Some s → dumped j i j1 →
  ∃ s1, edited j i s1 j1 ∧ (s1 = s ∨ ∃ n, s1 = set_dump n s).
Proof.
  intros Hl [->|[n ->]]; [exists s; split; [by apply edited_refl|by left]|].
  exists (set_dump n s). split; [|right; by eexists].
  destruct (edited_update j i s j (set_dump n)) as [H1 H2 H3 H4]; [by apply edited_refl|].
  by split.
Qed.

Lemma edited_at j i s s1 j1 : j_steps j !! i = Some s → edited j i s1 j1 → step_at j1 i = s1.
Proof.
  intros Hl [H _ _ _]. apply step_at_lookup. rewrite H. apply list_lookup_insert_eq.
  by eapply lookup_lt_Some.
Qed.

Lemma dumping_turn g j i s :
  at_step g j i s → st_phase s = PhDumping →
  WP (do x <- take_dump j i; let (j', r) := x in after_phase cfg j' i (to_phase PhOldKept r))
     g (turn_post j).
Proof.
  intros Has Hp. apply wp_bind. eapply wp_mono; [apply take_dump_spec|].
  intros [j1 r] g1 [[Hf Hd] Hdu]. pose proof (at_step_frame _ _ _ _ _ Hf Has) as Has1. simpl in *.
  destruct (dumped_edited _ _ _ _ (as_lookup _ _ _ _ Has) Hdu) as (s1 & Hed & Hs1).
  assert (st_phase s1 = PhDumping ∧ st_name s1 = st_name s ∧ move g1 s (set_phase PhOldKept s1) ∧
          wf_step (set_phase PhOldKept s1)) as (Hp1 & Hn1 & Hmv & Hwf).
  { pose proof (at_step_wf _ _ _ _ Has) as [H1 H2 H3 H4].
    destruct Hs1 as [->|[n ->]]; split_and!; simpl; try done; split; simpl; rewrite ?Hp; try done; set_solver. }
  destruct r as [[]|[|f]]; cbn [to_phase after_phase].
  - by eapply advance_turn.
  - by apply Hd.
  - rewrite (edited_at _ _ _ _ _ (as_lookup _ _ _ _ Has) Hed), Hp1. cbn [touched_old negb].
    apply leave_closed. eapply finish_failed_spec; [done|done|done| |done]. unfold may_fail. by rewrite Hp.
Qed.

Lemma created_turn g j i s :
  at_step g j i s → st_phase s = PhCreated →
  WP (do r <- create_new cfg j i;
      conclude cfg i (with_journal j PhStarted r))
     g (turn_post j).
Proof.
  intros Has Hp. apply wp_bind. eapply wp_mono; [by eapply create_new_spec|].
  intros r g1 [[Hf Hd] Hr]. pose proof (at_step_frame _ _ _ _ _ Hf Has) as Has1.
  destruct r as [j1|[|f]]; simpl; [|by apply Hd|by eapply after_fail; [|rewrite Hp; set_solver]].
  destruct Hr as (id & -> & Hid & Hne). pose proof (at_step_wf _ _ _ _ Has) as [Hfr Hdj Ho Hn].
  eapply advance_turn; [done|by apply edited_update, edited_refl, Has| |].
  - split; simpl; rewrite ?Hp; try done. intros _. by exists id.
  - split; simpl; [set_solver|by intros ? [= <-]|done|by intros ? [= <-]].
Qed.

Lemma plain_turn g j i s (p : prog I (result unit Halt)) ph :
  at_step g j i s →
  st_phase s ∈ [PhPulling; PhDumping; PhOldKept; PhCreated; PhStarted; PhVerifying; PhVerified] →
  ph ∉ [PhAdmitted; PhPulling] →
  WP p g (fineP (λ _ g', move g' s (set_phase ph s)) g) →
  WP (do r <- p; after_phase cfg j i (to_phase ph r)) g (turn_post j).
Proof.
  intros Has Hph Hp Hwp. apply wp_bind. eapply wp_mono; [exact Hwp|].
  intros r g1 [Hf Hm]. eapply after_plain; [exact Has|done|done|done|]. by intros ->.
Qed.

Lemma fineP_weaken {A E} `{!Dead E} (P Q : A → World → Prop) (p : prog I (result A E)) g :
  (∀ a g', P a g' → Q a g') → WP p g (fineP P g) → WP p g (fineP Q g).
Proof. intros H Hp. eapply wp_mono; [exact Hp|]. intros [] g' [? ?]; split; auto. Qed.

Lemma fine_fineP {A E} `{!Dead E} (P : A → World → Prop) (p : prog I (result A E)) g :
  (∀ a g', P a g') → WP p g (fine g) → WP p g (fineP P g).
Proof. intros H Hp. eapply wp_mono; [exact Hp|]. intros [] g' ?; split; auto. Qed.

Lemma refused_turn g j i s text :
  at_step g j i s → handover_phase (st_phase s) = true →
  WP (do o <- (do r <- finish j StFailed (Some Invalid) text false; Ret (Leave r)); conclude cfg i o)
     g (turn_post j).
Proof.
  intros Has Hp. apply (wp_bind_ret _ _ _ Leave), leave_closed.
  eapply finish_failed_spec; [done|by apply edited_refl, Has|done| |done].
  unfold may_fail. by rewrite Hp, orb_true_r.
Qed.

Lemma turn_spec g j i s fuel :
  at_step g j i s → fuel_enough cfg spin fuel → WP (turn cfg fuel j i) g (turn_post j).
Proof.
  intros Has Hfu. unfold turn, phase_action. rewrite (at_step_at _ _ _ _ Has).
  assert (is_actor s = false) as ->.
  { destruct (as_wf _ _ _ _ Has) as [[_ Ha] _]. rewrite Forall_forall in Ha. apply Ha.
    eapply list_elem_of_lookup_2, Has. }
  assert (st_phase s ≠ PhDone) as Hnd.
  { destruct (current_lookup _ _ (as_cur _ _ _ _ Has)) as (s' & Hs' & ?).
    rewrite (as_lookup _ _ _ _ Has) in Hs'. by simplify_eq. }
  destruct (st_phase s) eqn:Hp; try done.
  - (* admitted *) apply wp_bind.
    eapply wp_mono; [eapply advance_turn; [done|by apply edited_refl, Has| |]|].
    + apply move_simple; try done; by rewrite Hp.
    + apply wf_set_phase; [by eapply at_step_wf|done].
    + by intros [| |[]] g' H.
  - (* pulling *) apply wp_bind_ret. by eapply pulling_turn.
  - (* checked *) cbn [bind]. eapply after_simple; [done| |by destruct (migrating s); set_solver].
    apply move_simple; rewrite ?Hp; try done; by destruct (migrating s).
  - (* old_kept *) apply (wp_bind_ret _ _ _ (λ r, Next j (to_phase PhCreated r))).
    eapply plain_turn; [done|rewrite Hp; set_solver|set_solver|].
    eapply fineP_weaken; [|by eapply keep_old_spec]. intros u g' H. cbv beta in H. apply move_simple; rewrite ?Hp; done.
  - (* created *) apply wp_bind_ret. by eapply created_turn.
  - (* started *) apply (wp_bind_ret _ _ _ (λ r, Next j (to_phase PhVerifying r))).
    eapply plain_turn; [done|rewrite Hp; set_solver|set_solver|].
    apply fine_fineP; [intros _ g'; apply move_simple; rewrite ?Hp; done|].
    eapply start_new_spec; [done|rewrite Hp; set_solver].
  - (* verifying *) apply (wp_bind_ret _ _ _ (λ r, Next j (to_phase PhVerified r))).
    eapply plain_turn; [done|rewrite Hp; set_solver|set_solver|].
    eapply fineP_weaken; [|by eapply verify_spec]. intros u g' H. cbv beta in H. apply move_simple; rewrite ?Hp; done.
  - (* verified *) apply (wp_bind_ret _ _ _ (λ r, Next j (to_phase PhOldDiscarded r))).
    eapply plain_turn; [done|rewrite Hp; set_solver|set_solver|].
    apply fine_fineP; [intros _ g'; apply move_simple; rewrite ?Hp; done|]. by eapply record_new_spec.
  - (* old_discarded *) apply (wp_bind_ret _ _ _ (λ r, Next j (to_phase PhDone r))), wp_bind.
    eapply wp_mono; [by eapply discard_old_spec|]. intros r g' [[Hf Hd] Hr].
    destruct r as [u|h]; cbn [to_phase].
    + eapply after_simple; [by eapply at_step_frame| |set_solver]. apply move_simple; rewrite ?Hp; done.
    + rewrite (Hr h eq_refl) in *. by apply Hd.
  - (* restoring *) apply (wp_bind_ret _ _ _ Leave), leave_closed. by eapply restore_spec.
  - (* creating_successor *) eapply refused_turn; [done|by rewrite Hp].
  - (* starting_successor *) eapply refused_turn; [done|by rewrite Hp].
  - (* awaiting_successor *) eapply refused_turn; [done|by rewrite Hp].
  - (* handing_over *) eapply refused_turn; [done|by rewrite Hp].
  - (* successor_active *) eapply refused_turn; [done|by rewrite Hp].
  - (* successor_renaming *) eapply refused_turn; [done|by rewrite Hp].
  - (* handing_back *) eapply refused_turn; [done|by rewrite Hp].
  - (* dumping *) apply wp_bind, wp_bind. eapply wp_mono; [apply wp_bind_inv; by eapply dumping_turn|].
    by intros [j' r] g' H.
Qed.

Lemma run_loop_spec turns fuel g j :
  g_dur g = j → (is_open j = true → wf_journal j) → j_restore j = None → fuel_enough cfg spin fuel →
  (spin ∨ (is_open j = true → (turns_left j < turns)%nat) ∧ (1 <= turns)%nat) →
  WP (run_loop cfg turns fuel j) g closed.
Proof.
  intros Hd Hwf Hre Hfu. revert g j Hd Hwf Hre.
  induction turns as [|turns IH]; intros g j Hd Hwf Hre Ht; cbn [run_loop].
  { destruct Ht as [H|[_ H]]; [done|lia]. }
  destruct (is_open j) eqn:Ho; cbn [negb]; [|by split_and!].
  destruct (current j) as [i|] eqn:Hc; [|by apply finish_succeeded_spec].
  destruct (current_lookup _ _ Hc) as (s & Hs & _).
  assert (at_step g j i s) as Has by (split; auto).
  apply wp_bind. eapply wp_mono; [by eapply turn_spec|].
  intros [|r|[j'|]] g' H; [done|done| |done]. destruct H as (Hd' & Ho' & Hwf' & Hlt).
  apply IH; [done|done|apply Hwf'|]. destruct Ht as [H|[H _]]; [by left|right].
  specialize (H eq_refl). split; [intros _|]; lia.
Qed.

(** ** Settling an attempt a restart left open *)

Lemma remove_created_spec g j i s l :
  at_step g j i s → touched_old (st_phase s) = false → Forall (λ c, own_new s c g) l →
  WP (remove_created cfg l) g (fine g).
Proof.
  intros Has Ht. revert g Has. induction l as [|c l IH]; intros g Has Hl; [by apply fine_ret|].
  inversion Hl as [|? ? [_ [Ho Hne]] Hl']; subst. cbn [remove_created].
  apply wp_bind. eapply wp_mono.
  { eapply remove_own_spec; [exact Has|]. intros t _. right. split; [done|]. right; left.
    split; [by apply owned_clock|done]. }
  intros r g1 [Hf H].
  assert (WP (remove_created cfg l) g1 (fine g)) as Hgo.
  { apply fine_mono; [done|]. apply IH; [by eapply at_step_frame|].
    eapply Forall_impl; [exact Hl'|]. intros c' [? [? ?]]. split_and!; [done|by eapply owned_frame|done]. }
  destruct r as [|[]]; try exact Hgo. split; simpl; auto.
Qed.

Lemma interrupt_spec g j i s :
  at_step g j i s → touched_old (st_phase s) = false →
  WP (interrupt cfg j) g (λ r g', match r with Ok _ => is_open (g_dur g') = false | Err _ => g_broken g' = true end).
Proof.
  intros Has Ht. unfold interrupt. destruct (as_wf _ _ _ _ Has) as [[-> _] _].
  rewrite (as_cur _ _ _ _ Has). cbn [from_option id]. rewrite (as_lookup _ _ _ _ Has).
  apply wp_bind. eapply (wp_mono _ _ _ _ (λ _ g', frame g g')).
  { destruct (migrating s); [apply discard_dump_frame|cbn [wp]; reflexivity]. }
  intros _ g1 Hf1. pose proof (at_step_frame _ _ _ _ _ Hf1 Has) as Has1.
  apply wp_bind. eapply wp_mono; [by eapply attempt_containers_spec|]. intros created g2 [[Hf2 H2] Hl].
  pose proof (at_step_frame _ _ _ _ _ Hf2 Has1) as Has2.
  assert (∀ l text, Forall (λ c, own_new s c g2) l →
    WP (do? _ <- remove_created cfg l;
        do r <- finish j StFailed (Some Interrupted) text false; Ret (forget r)) g2
       (λ r g', match r with Ok _ => is_open (g_dur g') = false | Err _ => g_broken g' = true end)) as Hgo.
  { intros l text Hl'. apply wp_bind_ok. eapply wp_mono; [by eapply remove_created_spec|].
    intros [u|u] g3 [Hf3 H3]; [|by apply H3]. apply wp_bind.
    eapply wp_mono; [eapply finish_failed_spec; [by eapply at_step_frame|by apply edited_refl, Has|done| |done]|].
    - unfold may_fail. by rewrite Ht.
    - intros [j'|] g4 H4; [|done]. simpl. destruct H4 as (-> & H4 & _). done. }
  destruct created as [l|[]]; [by apply Hgo|by apply Hgo|by apply Hgo|by apply H2].
Qed.

Definition resumed j (r : result Journal unit) (g' : World) : Prop :=
  match r with
  | Ok j' => g_dur g' = j' ∧ j_restore j' = None ∧
             (is_open j' = true → wf_journal j' ∧ (turns_left j' <= turns_left j)%nat)
  | Err _ => g_broken g' = true
  end.

Lemma restart_verifying_spec g j :
  g_dur g = j → is_open j = true → wf_journal j → WP (restart_verifying cfg j) g (resumed j).
Proof.
  intros Hd Ho Hwf. unfold restart_verifying.
  assert (∀ g', g_dur g' = j → resumed j (Ok j) g') as Hsame.
  { intros g' H. split_and!; [done|apply Hwf|done]. }
  destruct (current j) as [i|] eqn:Hc; [|by apply Hsame].
  destruct (current_lookup _ _ Hc) as (s & Hs & _).
  assert (at_step g j i s) as Has by (by split). rewrite (at_step_at _ _ _ _ Has).
  destruct (bool_decide_reflect (st_phase s = PhVerifying)) as [Hp|]; cbn [negb orb]; [|by apply Hsame].
  destruct (is_actor s); [by apply Hsame|].
  apply wp_bind. eapply wp_mono; [by eapply find_new_spec|]. intros c g1 [[Hf1 H1] _].
  pose proof (at_step_frame _ _ _ _ _ Hf1 Has) as Has1.
  destruct c as [c|[|f]]; [|by apply H1|by apply Hsame; apply Has1].
  destruct (match c with Some c => c_running c | None => false end); [by apply Hsame; apply Has1|].
  apply wp_bind. eapply wp_mono; [eapply start_new_spec; [exact Has1|rewrite Hp; set_solver]|].
  intros r g2 [Hf2 H2]. pose proof (at_step_frame _ _ _ _ _ Hf2 Has1) as Has2.
  destruct r as [u|[|f]]; [by apply Hsame; apply Has2|by apply H2|].
  destruct (migrating s) eqn:Hm.
  { eapply wp_mono; [by eapply fail_migrating_spec; [|rewrite Hp|]|]. intros [j'|] g3 H3; [|done].
    destruct H3 as (H3 & H4 & H5). split_and!; [done|done|]. by rewrite H4. }
  eapply wp_mono.
  { apply wp_bind_inv. eapply (advance_turn _ _ _ _ _ (set_failure (Some f) s));
      [exact Has2|by apply edited_update, edited_refl, Has| |].
    - split; simpl; rewrite ?Hp, ?Hm; by eauto.
    - apply wf_set_phase; [|set_solver]. destruct (at_step_wf _ _ _ _ Has). by split. }
  intros [j'|] g3 H3; [|done]. destruct H3 as (H3 & H4 & H5 & H6). split_and!; [done|apply H5|].
  intros _. split; [done|lia].
Qed.
End driver.

(** ** What an execution of the actor keeps

    A driver is one of the two procedures that take an attempt on: [run], which a submission
    starts, and [settle_journal], which a restart does. *)
(** The calls that change containers. *)
Definition engine_act {I X} (e : eff I X) : bool :=
  match e with
  | CreateContainer _ | StartContainer _ | StopContainer _ _ | SetRestartPolicy _ _
  | RenameContainer _ _ | RemoveContainer _ => true
  | _ => false
  end.

(** What a component's record holds once its container is started, as long as its attempt has
    not failed. *)
Definition replaced (s : Step) : Prop :=
  st_phase s ∈ [PhStarted; PhVerifying; PhVerified; PhOldDiscarded; PhDone; PhRestoring] →
  st_phase s = PhRestoring ∨ is_Some (new_container s).

Section theorems.
Context {I : Type} `{!ReplaceDeps I} (cfg : Config).
Implicit Types (g : World) (j : Journal) (l : list (event I)).

Definition drives (turns fuel : nat) (j : Journal) (p : prog I (result unit unit)) : Prop :=
  p = run cfg turns fuel j ∨ p = settle_journal cfg turns fuel j.

Definition settled (r : result unit unit) (g : World) : Prop :=
  match r with Ok _ => is_open (g_dur g) = false | Err _ => g_broken g = true end.

Lemma run_wp spin turns fuel g j :
  g_dur g = j → (is_open j = true → wf_journal j) → j_restore j = None → fuel_enough cfg spin fuel →
  (spin ∨ (is_open j = true → (turns_left j < turns)%nat) ∧ (1 <= turns)%nat) →
  wp (watch I) spin (run cfg turns fuel j) g settled.
Proof.
  intros Hd Hwf Hre Hfu Ht. unfold run. rewrite Hre. apply wp_bind.
  eapply wp_mono; [by apply run_loop_spec|]. intros [j'|] g' H; [|done].
  destruct H as (H & Ho & _). simpl. congruence.
Qed.

Lemma no_actor_party g j : wf_journal j → party_of (I:=I) cfg j = Ret (Stranger false).
Proof.
  intros [[_ Ha] _]. unfold party_of.
  assert (find_first is_actor (j_steps j) = None) as ->; [|done].
  apply find_first_None. eapply Forall_impl; [exact Ha|]. by intros s ->.
Qed.

Lemma driver_wp spin turns fuel g j p :
  g_dur g = j → wf_journal j → fuel_enough cfg spin fuel →
  (spin ∨ (turns_left j < turns)%nat) → drives turns fuel j p → wp (watch I) spin p g settled.
Proof.
  intros Hd Hwf Hfu Ht Hp.
  assert (spin ∨ (is_open j = true → (turns_left j < turns)%nat) ∧ (1 <= turns)%nat) as Ht'.
  { destruct Ht; [by left|right]. split; [done|lia]. }
  destruct Hp as [->| ->]; [apply run_wp; [done|done|apply Hwf|done|done]|].
  unfold settle_journal. rewrite (no_actor_party g) by done. cbn [bind].
  change (count_successor_start (self_container cfg) j (Stranger false)) with (@None Journal).
  unfold bind_ok at 1. cbn [bind].
  destruct (is_open j) eqn:Ho.
  2: { rewrite (proj2 (settle_closed j (Stranger false))) by done. simpl. congruence. }
  destruct Hwf as [[Hre Ha] Hs] eqn:E. clear E.
  assert (wf_journal j) as Hwf' by (split; [by split|done]).
  assert (wp (watch I) spin (do? j0 <- restart_verifying cfg j; run cfg turns fuel j0) g settled) as Hcont.
  { apply wp_bind_ok. eapply wp_mono; [by apply restart_verifying_spec|].
    intros [j'|] g' H; [|done]. destruct H as (H1 & H2 & H3). apply run_wp; [done| |done|done|].
    - intros H. by apply H3.
    - destruct Ht as [|Ht]; [by left|right]. split; [|lia]. intros H. destruct (H3 H). lia. }
  unfold settle. rewrite Ho, Hre. cbn [negb].
  destruct (current j) as [i|] eqn:Hc; [|exact Hcont].
  destruct (current_lookup _ _ Hc) as (s & Hl & _). rewrite Hl.
  assert (is_actor s = false) as ->.
  { rewrite Forall_forall in Ha. apply Ha. by eapply list_elem_of_lookup_2. }
  rewrite andb_false_r. destruct (touched_old (st_phase s)) eqn:Ht2; [exact Hcont|].
  eapply wp_mono; [eapply interrupt_spec; [by split|done]|]. by intros [] g'.
Qed.

Lemma driver_safe turns fuel g j p :
  g_dur g = j → wf_journal j → drives turns fuel j p → wp (watch I) True p g settled.
Proof. intros Hd Hwf Hp. by eapply driver_wp; [done|done|left|left|done]. Qed.

(** (C1) Every attempt of a service ends (one without a restore and without a component of the
    recovery actor itself): with enough fuel for its phases and its waits, no execution of a
    driver is cut off, and one that returns either is done with a terminal outcome on disk, or
    stopped for one of the answers [stops_attempt] names, and is continued from the journal by the
    next process: it was killed, an engine call crashed, the journal, a service's record or the
    schema floor could not be written, the floor could not be read, or the dump died. *)
Theorem attempt_terminates turns fuel g j p l p' :
  g_dur g = j → g_broken g = false → wf_journal j → fuel_enough cfg False fuel → (turns_left j < turns)%nat →
  drives turns fuel j p → reaches p l p' → lawful (watch I) g l →
  p' ≠ Spin ∧ ∀ r, p' = Ret r →
    r = Ok () ∧ is_open (g_dur (history (watch I) g l)) = false ∨
    r = Err () ∧ existsb stops_attempt l = true.
Proof.
  intros Hd Hb Hwf Hfu Ht Hp Hr Hl.
  assert (wp (watch I) False p g settled) as Hwp by (by eapply driver_wp; [done|done|done|right|done]).
  pose proof (wp_reaches _ _ _ _ _ _ _ Hwp Hr Hl) as H. split; [by intros ->|].
  intros r ->. simpl in H. destruct r as [[]|[]]; [by left|right]. split; [done|].
  cbn in H. by rewrite broken_history, Hb in H.
Qed.

(** (C2) The durable journals of an attempt refine the abstract machine: whatever the engine
    answers and wherever the process stops, each journal a driver stores is one [attempt_step]
    from the last one on disk, in the history the execution has by then. *)
Theorem journals_refine turns fuel g j p l1 l2 j' r :
  g_dur g = j → wf_journal j → drives turns fuel j p →
  trace p (l1 ++ mkEvent (StoreJournal j') r :: l2) →
  lawful (watch I) g (l1 ++ mkEvent (StoreJournal j') r :: l2) →
  attempt_step (history (watch I) g l1) (g_dur (history (watch I) g l1)) j'.
Proof.
  intros Hd Hwf Hp Ht Hl.
  assert (wp (watch I) True p g settled) as Hwp by (by eapply driver_safe).
  exact (wp_sound _ _ _ _ _ _ _ _ Hwp Ht Hl).
Qed.

(** (C3) The kept container survives: the container a component replaces is removed only when
    the durable journal has that component at [old_discarded]; anything else removed is the
    attempt's own or a leftover under the kept name. *)
Theorem kept_container_survives turns fuel g j p l1 l2 id r :
  g_dur g = j → wf_journal j → drives turns fuel j p →
  trace p (l1 ++ mkEvent (RemoveContainer id) r :: l2) →
  lawful (watch I) g (l1 ++ mkEvent (RemoveContainer id) r :: l2) →
  let h := history (watch I) g l1 in
  at_cur (g_dur h) (λ s, (old_container s = Some id → st_phase s = PhOldDiscarded) ∧ may_remove h id s).
Proof.
  intros Hd Hwf Hp Ht Hl h.
  assert (wp (watch I) True p g settled) as Hwp by (by eapply driver_safe).
  pose proof (wp_sound _ _ _ _ _ _ _ _ Hwp Ht Hl) as H. simpl in H. fold h in H.
  unfold at_cur in *. destruct (cur_step _) as [s|]; [|done]. split; [|done].
  intros Ho. destruct H as [[_ ?]|[? _]]; done.
Qed.

(** (C4) Phases are journalled before they are acted on: a container is created, started,
    stopped, renamed, removed or has its restart policy set only while the durable journal has
    the component at a phase of which that is the action, and only a container it is the action
    on ([world_requires]). *)
Theorem journalled_before_acting turns fuel g j p l1 l2 ev :
  g_dur g = j → wf_journal j → drives turns fuel j p →
  trace p (l1 ++ ev :: l2) → lawful (watch I) g (l1 ++ ev :: l2) →
  engine_act (ev_call ev) = true → world_requires (history (watch I) g l1) (ev_call ev).
Proof.
  intros Hd Hwf Hp Ht Hl _.
  assert (wp (watch I) True p g settled) as Hwp by (by eapply driver_safe).
  exact (wp_sound _ _ _ _ _ _ _ _ Hwp Ht Hl).
Qed.

(** An outcome that says [restored] is true: it is written only from [restoring], and when
    the container that was replaced was last seen running under the service's own name. *)
Theorem restored_is_true turns fuel g j p l1 l2 j' r :
  g_dur g = j → wf_journal j → drives turns fuel j p →
  trace p (l1 ++ mkEvent (StoreJournal j') r :: l2) →
  lawful (watch I) g (l1 ++ mkEvent (StoreJournal j') r :: l2) →
  res_state (j_result j') = StFailed → res_restored (j_result j') = true →
  at_cur (g_dur (history (watch I) g l1))
    (λ s, st_phase s = PhRestoring ∧ old_put_back (history (watch I) g l1) s).
Proof.
  intros Hd Hwf Hp Ht Hl Hst Hre.
  assert (wp (watch I) True p g settled) as Hwp by (by eapply driver_safe).
  pose proof (wp_sound _ _ _ _ _ _ _ _ Hwp Ht Hl) as H. simpl in H.
  destruct H as [i s s' _ Hc Hs _ _ Hopen|_ _ _ Hsu|i s _ Hc Hs _ _ _ _ _ Hback].
  - unfold is_open in Hopen. by rewrite Hst in Hopen.
  - congruence.
  - unfold at_cur, cur_step. rewrite Hc. simpl. rewrite Hs. by apply Hback.
Qed.

(** (C5) A service taken out of service is not given up: an attempt whose current component
    has (or may have) lost its old container, does not migrate the database and is at no phase of
    a hand-over (a service's component takes none) is ended as failed only from [restoring]. *)
Theorem touched_failure_restores turns fuel g j p l1 l2 j' r :
  g_dur g = j → wf_journal j → drives turns fuel j p →
  trace p (l1 ++ mkEvent (StoreJournal j') r :: l2) →
  lawful (watch I) g (l1 ++ mkEvent (StoreJournal j') r :: l2) →
  res_state (j_result j') = StFailed →
  at_cur (g_dur (history (watch I) g l1))
    (λ s, touched_old (st_phase s) = true → migrating s = false → handover_phase (st_phase s) = false →
          st_phase s = PhRestoring).
Proof.
  intros Hd Hwf Hp Ht Hl Hst.
  assert (wp (watch I) True p g settled) as Hwp by (by eapply driver_safe).
  pose proof (wp_sound _ _ _ _ _ _ _ _ Hwp Ht Hl) as H. simpl in H.
  destruct H as [i s s' _ Hc Hs _ _ Hopen|_ _ _ Hsu|i s _ Hc Hs Hmf].
  - unfold is_open in Hopen. by rewrite Hst in Hopen.
  - congruence.
  - unfold at_cur, cur_step. rewrite Hc. simpl. rewrite Hs. intros Ha Hb Hn.
    unfold may_fail in Hmf. rewrite Ha, Hb, Hn in Hmf. simpl in Hmf. rewrite !orb_false_r in Hmf.
    by apply bool_decide_eq_true in Hmf.
Qed.

(** No control plane migrates the database below the schema floor: a migrating component's
    container is started only when the floor on disk is at least the schema its image (or the
    request) declares; and a control plane put back is of a schema the floor allows. *)
Theorem starts_respect_floor turns fuel g j p l1 l2 id r :
  g_dur g = j → wf_journal j → drives turns fuel j p →
  trace p (l1 ++ mkEvent (StartContainer id) r :: l2) →
  lawful (watch I) g (l1 ++ mkEvent (StartContainer id) r :: l2) →
  let h := history (watch I) g l1 in
  at_cur (g_dur h) (λ s,
    (migrating s = true → floor_raised h s) ∧
    (st_phase s = PhRestoring → old_container s = Some id ∧ floor_allows h s id)).
Proof.
  intros Hd Hwf Hp Ht Hl h.
  assert (wp (watch I) True p g settled) as Hwp by (by eapply driver_safe).
  pose proof (wp_sound _ _ _ _ _ _ _ _ Hwp Ht Hl) as H. simpl in H. fold h in H.
  unfold at_cur in *. destruct (cur_step _) as [s|]; [|done].
  destruct H as [(? & ? & Hm & ?)|(_ & Hph & Hm)]; split; try done; [by rewrite Hm|].
  intros Hre. rewrite Hre in Hph. set_solver.
Qed.

(** The abstract machine keeps the record of what was replaced. *)
Lemma attempt_step_replaced g j j' :
  attempt_step g j j' →
  Forall replaced (j_steps j) → res_state (j_result j') ≠ StFailed → Forall replaced (j_steps j').
Proof.
  intros [i s s' Ho Hc Hl Hmv Hs' _ _ _ _|? ? -> |] Hf Hst; [|done|done].
  rewrite Hs'. apply Forall_insert; [done|].
  assert (replaced s) as Hs by (rewrite Forall_forall in Hf; apply Hf; by eapply list_elem_of_lookup_2).
  intros Hph. destruct (decide (st_phase s' = PhStarted)) as [Hst'|Hst'].
  { destruct (mv_created _ _ _ Hmv Hst') as (id & -> & _). right. by eexists. }
  destruct (decide (st_phase s' = PhRestoring)) as [|Hnr]; [by left|]. right.
  rewrite (mv_new _ _ _ Hmv) by done.
  pose proof (mv_edge _ _ _ Hmv) as He. unfold replaced in Hs.
  destruct (st_phase s) eqn:Hp, (st_phase s') eqn:Hp'; simpl in He; try done; try set_solver;
    destruct Hs as [|]; try done; set_solver.
Qed.

(** Success means replaced: if the durable journal of an execution says [succeeded], every
    component of it has passed every phase and has its new container recorded. *)
Theorem succeeded_is_replaced turns fuel g j p l :
  g_dur g = j → wf_journal j → Forall replaced (j_steps j) → is_open j = true → drives turns fuel j p →
  trace p l → lawful (watch I) g l →
  let d := g_dur (history (watch I) g l) in
  res_state (j_result d) = StSucceeded →
  Forall (λ s, st_phase s = PhDone ∧ is_Some (new_container s)) (j_steps d).
Proof.
  intros Hd Hwf Hrep Ho Hp Ht Hl d Hsu.
  assert (wp (watch I) True p g settled) as Hwp by (by eapply driver_safe).
  assert (res_state (j_result d) ≠ StFailed → Forall replaced (j_steps d) ∧
          (res_state (j_result d) = StSucceeded → Forall (λ s, st_phase s = PhDone) (j_steps d))) as H.
  { apply (history_invariant (watch I) (λ g, res_state (j_result (g_dur g)) ≠ StFailed →
      Forall replaced (j_steps (g_dur g)) ∧
      (res_state (j_result (g_dur g)) = StSucceeded → Forall (λ s, st_phase s = PhDone) (j_steps (g_dur g))))
      True p g settled l); [|rewrite Hd; intros _; split; [done|]|done|done|done].
    2: { intros E. unfold is_open in Ho. by rewrite E in Ho. }
    intros g0 X e x Hi Hreq Hal. change (advance_ghost (watch I) g0 e x) with (advance_world g0 e x).
    destruct (stores e) eqn:Hs; [|by rewrite (fr_dur _ _ (advance_frame _ _ _ Hs Hal))].
    destruct e; try done. simpl in *. destruct x; [|done]. simpl. intros Hnf.
    assert (res_state (j_result (g_dur g0)) ≠ StFailed) as Hnf0.
    { intros E. destruct Hreq as [? ? ? Hop|Hop|? ? Hop]; unfold is_open in Hop; by rewrite E in Hop. }
    split; [by eapply attempt_step_replaced; [|apply Hi|]|]. intros Hsucc.
    destruct Hreq as [? ? ? _ _ _ _ _ Hop|_ Hc -> |]; [|by apply current_None|congruence].
    unfold is_open in Hop. by rewrite Hsucc in Hop. }
  destruct H as [H1 H2]; [congruence|]. specialize (H2 Hsu).
  rewrite Forall_forall in *. intros s Hs. split; [by apply H2|].
  destruct (H1 s Hs) as [Hr|]; [rewrite (H2 s Hs); set_solver|rewrite (H2 s Hs) in Hr; done|done].
Qed.
End theorems.
