(* ===== verification/ReplaceExamples.v ===== *)
(** * Replacements that run

    A container engine and a machine's files in memory, enough to run the procedures of
    [Replace]: a replacement that verifies, one that does not and is restored; and the concrete
    executions at which the theorems of [ReplaceRun] are instantiated. *)
From S2P Require Import Prelude Platform Wire Journal Settle Trust Effects Replace ReplaceSpec ReplaceRules ReplaceProofs ReplaceRun.

(** ** An engine in memory *)

#[local] Instance fake_deps : ReplaceDeps unit := {|
  nvidia_shape := λ _, false;
  trust_recorded := λ _, false;
  database := λ _, Some OwnedDatabase;
  render := λ role rev _ image _, Ok (mkContainerSpec (container_name role) (reference image) None None ∅
    {[ LABEL_INSTALLATION := "inst"; LABEL_PLATFORM_SERVICE := role_str role; LABEL_SPEC := "digest" ]}
    None [] [] [] [] [] [] false UnlessStopped [] None);
  carry_forward := λ spec _ _, spec;
  debug_str := λ s, s;
  debug_duration := λ _, "60s" |}.

Record Fake := mkFake {
  f_conts : gmap string Container;
  f_journal : option Journal;
  f_clock : Z;
  f_next : nat;
  f_healthy : bool }.

Definition with_f_conts (m : gmap string Container) (f : Fake) : Fake :=
  mkFake m (f_journal f) (f_clock f) (f_next f) (f_healthy f).

Definition find_container (f : Fake) (n : string) : option Container :=
  match f_conts f !! n with
  | Some c => Some c
  | None => snd <$> head (List.filter (λ x, str_eqb (c_name x.2) n) (map_to_list (f_conts f)))
  end.

Definition fake_set (running : bool) (health : option string) (name : option string) (c : Container) : Container :=
  mkContainer (c_id c) (default (c_name c) name) (c_image c) (c_image_id c) (c_labels c)
    (if running then "running" else "exited") running health (c_restart c) (c_mounts c)
    (c_command c) (c_env c) (c_created c) (c_started_at c).

Definition fake_image : Image := mkImage "img" [] {[ LABEL_IMAGE_RECIPE := "1" ]}.

(** The answer to each call, and the machine after it. *)
Definition answer {X} (f : Fake) (e : eff unit X) : Fake * X :=
  match e in eff _ X return Fake * X with
  | InspectImage _ => (f, Ok (Some fake_image))
  | PullImage _ => (f, Ok ())
  | InspectContainer n => (f, Ok (find_container f n))
  | ListContainers => (f, Ok (snd <$> map_to_list (f_conts f)))
  | CreateContainer sp =>
      let id := "new" +:+ pretty (f_next f) in
      let c := mkContainer id (cs_name sp) (cs_image sp) "img" (cs_labels sp) "created" false None
                 (Some (cs_restart sp)) [] [] [] None None in
      (mkFake (<[id := c]> (f_conts f)) (f_journal f) (f_clock f) (S (f_next f)) (f_healthy f), Ok id)
  | StartContainer id =>
      let health := if String.prefix "new" id then Some (if f_healthy f then "healthy" else "unhealthy") else None in
      (with_f_conts (alter (fake_set true health None) id (f_conts f)) f, Ok ())
  | StopContainer id _ => (with_f_conts (alter (fake_set false None None) id (f_conts f)) f, Ok ())
  | SetRestartPolicy _ _ => (f, Ok ())
  | RenameContainer id n =>
      (with_f_conts (alter (λ c, fake_set (c_running c) (c_health c) (Some n) c) id (f_conts f)) f, Ok ())
  | RemoveContainer id => (with_f_conts (delete id (f_conts f)) f, Ok ())
  | LogsTail _ _ => (f, Ok "panic")
  | StoreJournal j => (mkFake (f_conts f) (Some j) (f_clock f) (f_next f) (f_healthy f), Ok ())
  | LoadJournal _ => (f, Ok (f_journal f))
  | ScanJournals => (f, mkScan [] [])
  | PruneJournals => (f, ())
  | ForgetReady _ => (f, ())
  | LoadMachine => (f, Ok (Some (mkMachine "inst" Gpu () ∅)))
  | LoadService _ => (f, Ok None)
  | StoreService _ => (f, Ok ())
  | LoadFloor => (f, Ok None)
  | StoreFloor _ => (f, Ok ())
  | LoadPoint => (f, Ok None)
  | StorePoint _ => (f, Ok ())
  | ClearPoint => (f, Ok ())
  | LoadSecret _ => (f, Ok None)
  | DumpRemovePartials => (f, ())
  | DumpList => (f, [])
  | DumpRemove _ => (f, Ok ())
  | DumpNow _ _ _ _ _ _ _ => (f, Err None)
  | DecideGpus m _ _ => (f, Ok m)
  | EnsureVolume _ _ _ => (f, Ok ())
  | FailedPreflight _ => (f, None)
  | DriveHandover j _ => (f, (j, Err ()))
  | RunRestore _ => (f, Err ())
  | InterruptRestore _ => (f, Err ())
  | YieldAttempt _ _ => (f, Err ())
  | WasUsed _ => (f, Ok false)
  | MarkUsed _ => (f, Ok ())
  | Resuming => (f, false)
  | Uninstalled => (f, None)
  | LoadTrust => (f, Err "none")
  | GatherEvidence _ => (f, FetchError "none")
  | LoadHold => (f, Ok None)
  | SubmitRemove _ req => (f, Err (mkRejection (request_id req) Invalid "none"))
  | SpawnDriver _ => (f, ())
  | LoadReady _ => (f, None)
  | ReadyExists _ => (f, false)
  | StoreReady _ _ => (f, Ok ())
  | LoadSeed => (f, Ok None)
  | StoreSeed _ => (f, Ok ())
  | SocketsSilent => (f, None)
  | AttemptPolled _ => (f, false)
  | StopServing => (f, ())
  | ServeAgain => (f, ())
  | TakeLease => (f, Ok ())
  | ReleaseLease => (f, ())
  | MarkRetired => (f, ())
  | StoreHold _ => (f, Ok ())
  | ClearHold => (f, Ok ())
  | DumpExists _ => (f, false)
  | LoadDump _ => (f, Ok None)
  | StoreDump _ => (f, Ok ())
  | ExamineDump _ => (f, Err "none")
  | PrepareDumps => (f, Ok ())
  | FreeSpace => (f, Err "none")
  | DumpTaken _ => (f, false)
  | CompleteDump _ _ => (f, Ok ())
  | RemovePartial _ => (f, ())
  | PruneDumps _ _ => (f, Ok [])
  | InspectVolume _ => (f, Ok None)
  | WaitContainer _ _ => (f, Ok 0%Z)
  | DeliverSecrets _ _ _ => (f, Ok ())
  | EnsureControlMachine _ => (f, Ok ())
  | CliName _ => (f, "docker")
  | StartOver _ => (f, "uninstall")
  | Killed => (f, false)
  | MarkDied => (f, ())
  | NowStamp => (f, "2026-01-01T00:00:00Z")
  | Now => (f, f_clock f)
  | Sleep d => (mkFake (f_conts f) (f_journal f) (f_clock f + d) (f_next f) (f_healthy f), ())
  end.

Fixpoint exec {A} (p : prog unit A) (f : Fake) : Fake * option A :=
  match p with
  | Ret a => (f, Some a)
  | Spin => (f, None)
  | Vis e k => let (f', x) := answer f e in exec (k x) f'
  end.

(** ** A node agent's replacement *)

Definition agent_image : ImageRef := mkImageRef "repo" "sha256:aa".

Definition agent_step (p : Phase) (old new : option string) : Step :=
  mkStep "node-agent" agent_image p old (Some UnlessStopped) None
    (Some 1%Z) None new None 0 false None.

Definition agent_request : Request :=
  mkRequest "req-1" KReplace [] (mkRelease "r" None "c") false None false None false None 0 false.

Definition agent_result : AttemptResult :=
  mkAttemptResult "req-1" StPending None [] [] EmptyString "t" "t" None false (mkRelease "r" None "c") None.

Definition agent_journal (p : Phase) (old new : option string) : Journal :=
  mkJournal FORMAT 1 TagOperator agent_request [agent_step p old new] agent_result None.

Definition agent_container (id name : string) (running : bool) : Container :=
  mkContainer id name "repo@sha256:00" "img0"
    {[ LABEL_INSTALLATION := "inst"; LABEL_PLATFORM_SERVICE := "node-agent" ]}
    "running" running None (Some UnlessStopped) [] [] [] None None.

Definition fake_machine (healthy : bool) : Fake :=
  mkFake {[ "old1" := agent_container "old1" NAME_NODE_AGENT true ]} None 0 1 healthy.

Definition fake_cfg : Config := mkConfig default_timing None default_handover Gpu None (secs 7200).

(** What is left on the machine: the outcome on disk, and each container with its name and
    whether it runs. *)
Definition left_behind (r : Fake * option (result unit unit)) :
  option (State * bool) * list (string * string * bool) :=
  ((λ j, (res_state (j_result j), res_restored (j_result j))) <$> f_journal r.1,
   (λ x, (x.1, c_name x.2, c_running x.2)) <$> map_to_list (f_conts r.1)).

Example replacement_succeeds :
  left_behind (exec (run fake_cfg 20 20 (agent_journal PhAdmitted None None)) (fake_machine true))
  = (Some (StSucceeded, false), [("new1", NAME_NODE_AGENT, true)]).
Proof. vm_compute. reflexivity. Qed.

Example replacement_restored :
  left_behind (exec (run fake_cfg 20 20 (agent_journal PhAdmitted None None)) (fake_machine false))
  = (Some (StFailed, true), [("old1", NAME_NODE_AGENT, true)]).
Proof. vm_compute. reflexivity. Qed.

(** An attempt a restart left at [pulling] is ended as interrupted, and nothing is touched. *)
Example replacement_interrupted :
  left_behind (exec (settle_journal fake_cfg 20 20 (agent_journal PhPulling None None)) (fake_machine true))
  = (Some (StFailed, false), [("old1", NAME_NODE_AGENT, true)]).
Proof. vm_compute. reflexivity. Qed.

(** ** Concrete executions *)

Lemma trace_vis {A X} (p : prog unit A) (e : eff unit X) k x l :
  p = Vis e k → trace (k x) l → trace p (mkEvent e x :: l).
Proof. intros ->. by constructor. Qed.

Lemma reaches_vis {A X} (p p' : prog unit A) (e : eff unit X) k x l :
  p = Vis e k → reaches (k x) l p' → reaches p (mkEvent e x :: l) p'.
Proof. intros ->. by constructor. Qed.

Ltac walk := repeat (eapply trace_vis; [reflexivity|]); apply trace_stop.
Ltac walk_to := repeat (eapply reaches_vis; [reflexivity|]); apply reaches_here.

Definition world_at (j : Journal) : World := mkWorld j ∅ ∅ ∅ None None None 0 false.

Lemma agent_wf p old new :
  (p ∈ [PhAdmitted; PhPulling] → new = None) → (∀ id, new = Some id → old ≠ Some id) →
  (∀ id, old = Some id → platform_name id = false) → (∀ id, new = Some id → platform_name id = false) →
  wf_journal (agent_journal p old new).
Proof.
  intros H1 H2 H3 H4. split; [split; [done|]|]; repeat constructor; simpl; auto.
Qed.

Lemma wf_restoring : wf_journal (agent_journal PhRestoring (Some "old1") None).
Proof. apply agent_wf; try done. by intros ? [= <-]. Qed.
Lemma wf_discarding : wf_journal (agent_journal PhOldDiscarded (Some "old1") (Some "new1")).
Proof. apply agent_wf; [set_solver|intros ? [= <-]; done|by intros ? [= <-]..]. Qed.
Lemma wf_done : wf_journal (agent_journal PhDone (Some "old1") (Some "new1")).
Proof. apply agent_wf; [set_solver|intros ? [= <-]; done|by intros ? [= <-]..]. Qed.

(** The outcome written from [restoring] once the old container runs again. *)
Definition kept : Container := agent_container "old1" NAME_NODE_AGENT true.
Definition restored_journal : Journal :=
  finished_journal StFailed (Some Unhealthy)
    (nl +:+ "the new container did not verify; the previous container was put back and is running")
    true "t" (agent_journal PhRestoring (Some "old1") None).
Definition restoring_calls : list (event unit) :=
  [mkEvent LoadMachine (Ok None);
   mkEvent (InspectContainer "old1") (Ok (Some kept));
   mkEvent Now 5%Z;
   mkEvent (InspectContainer "old1") (Ok (Some kept));
   mkEvent Killed false; mkEvent NowStamp "t"].

Lemma restoring_trace :
  trace (run fake_cfg 5 5 (agent_journal PhRestoring (Some "old1") None))
    (restoring_calls ++ [mkEvent (StoreJournal restored_journal) (Ok ())]).
Proof. walk. Qed.

Lemma restoring_lawful :
  lawful (watch unit) (world_at (agent_journal PhRestoring (Some "old1") None))
    (restoring_calls ++ [mkEvent (StoreJournal restored_journal) (Ok ())]).
Proof.
  repeat split; simpl; try done; try lia.
  all: try (intros ? H; vm_compute in H; by simplify_eq).
Qed.

(** At an attempt whose components are done: it returns, with its outcome on disk. *)
Definition succeeded_journal : Journal :=
  finished_journal StSucceeded None EmptyString false "t" (agent_journal PhDone (Some "old1") (Some "new1")).
Definition finishing_calls : list (event unit) :=
  [mkEvent Killed false; mkEvent NowStamp "t"; mkEvent (StoreJournal succeeded_journal) (Ok ());
   mkEvent PruneJournals (); mkEvent (ForgetReady "req-1") ()].

Lemma attempt_terminates_witness :
  is_open (g_dur (history (watch unit) (world_at (agent_journal PhDone (Some "old1") (Some "new1")))
    finishing_calls)) = false.
Proof.
  destruct (attempt_terminates fake_cfg 5 1801 (world_at (agent_journal PhDone (Some "old1") (Some "new1")))
    (agent_journal PhDone (Some "old1") (Some "new1"))
    (run fake_cfg 5 1801 (agent_journal PhDone (Some "old1") (Some "new1"))) finishing_calls (Ret (Ok ()))
    eq_refl eq_refl wf_done) as [_ H].
  - right. cbv [fake_cfg default_timing timing poll verify_timeout secs]. lia.
  - vm_compute. lia.
  - by left.
  - unfold finishing_calls. walk_to.
  - by repeat split.
  - by destruct (H (Ok ()) eq_refl) as [[_ H']|[H' _]].
Defined.

(** At the first journal of a fresh attempt. *)
Definition pulling_journal : Journal :=
  set_result (set_updated_at "t" (set_state StPulling agent_result)) (agent_journal PhPulling None None).

Lemma wf_admitted : wf_journal (agent_journal PhAdmitted None None).
Proof. by apply agent_wf. Qed.

Lemma journals_refine_witness :
  attempt_step (world_at (agent_journal PhAdmitted None None)) (agent_journal PhAdmitted None None) pulling_journal.
Proof.
  apply (journals_refine fake_cfg 5 5 (world_at (agent_journal PhAdmitted None None))
    (agent_journal PhAdmitted None None) (run fake_cfg 5 5 (agent_journal PhAdmitted None None))
    [mkEvent Killed false; mkEvent NowStamp "t"] [] pulling_journal (Ok ()) eq_refl wf_admitted).
  - by left.
  - walk.
  - by repeat split.
Defined.

(** At the removal of a verified component's old container. *)
Lemma kept_container_survives_witness :
  at_cur (agent_journal PhOldDiscarded (Some "old1") (Some "new1"))
    (λ s, (old_container s = Some "old1" → st_phase s = PhOldDiscarded) ∧
          may_remove (world_at (agent_journal PhOldDiscarded (Some "old1") (Some "new1"))) "old1" s).
Proof.
  apply (kept_container_survives fake_cfg 5 5
    (world_at (agent_journal PhOldDiscarded (Some "old1") (Some "new1")))
    (agent_journal PhOldDiscarded (Some "old1") (Some "new1"))
    (run fake_cfg 5 5 (agent_journal PhOldDiscarded (Some "old1") (Some "new1")))
    [] [] "old1" (Ok ()) eq_refl wf_discarding).
  - by left.
  - walk.
  - by repeat split.
Defined.

Lemma journalled_before_acting_witness :
  world_requires (world_at (agent_journal PhOldDiscarded (Some "old1") (Some "new1")))
    (RemoveContainer "old1" : eff unit _).
Proof.
  apply (journalled_before_acting fake_cfg 5 5
    (world_at (agent_journal PhOldDiscarded (Some "old1") (Some "new1")))
    (agent_journal PhOldDiscarded (Some "old1") (Some "new1"))
    (settle_journal fake_cfg 5 5 (agent_journal PhOldDiscarded (Some "old1") (Some "new1")))
    [] [] (mkEvent (RemoveContainer "old1") (Ok ())) eq_refl wf_discarding).
  - by right.
  - walk.
  - by repeat split.
  - done.
Defined.

(** At a restore. *)
Lemma restored_is_true_witness :
  at_cur (agent_journal PhRestoring (Some "old1") None)
    (λ s, st_phase s = PhRestoring ∧
      old_put_back (history (watch unit) (world_at (agent_journal PhRestoring (Some "old1") None)) restoring_calls) s).
Proof.
  apply (restored_is_true fake_cfg 5 5 (world_at (agent_journal PhRestoring (Some "old1") None))
    (agent_journal PhRestoring (Some "old1") None)
    (run fake_cfg 5 5 (agent_journal PhRestoring (Some "old1") None))
    restoring_calls [] restored_journal (Ok ()) eq_refl wf_restoring).
  - by left.
  - exact restoring_trace.
  - exact restoring_lawful.
  - done.
  - done.
Defined.

Lemma touched_failure_restores_witness :
  at_cur (agent_journal PhRestoring (Some "old1") None)
    (λ s, touched_old (st_phase s) = true → migrating s = false → handover_phase (st_phase s) = false →
          st_phase s = PhRestoring).
Proof.
  apply (touched_failure_restores fake_cfg 5 5 (world_at (agent_journal PhRestoring (Some "old1") None))
    (agent_journal PhRestoring (Some "old1") None)
    (run fake_cfg 5 5 (agent_journal PhRestoring (Some "old1") None))
    restoring_calls [] restored_journal (Ok ()) eq_refl wf_restoring).
  - by left.
  - exact restoring_trace.
  - exact restoring_lawful.
  - done.
Defined.

(** At the start of a control plane that migrates the database to schema 7. *)
Definition migrating_journal : Journal :=
  mkJournal FORMAT 1 TagOperator agent_request
    [mkStep "control-plane" agent_image PhStarted (Some "old1") None None (Some 1%Z) None (Some "new1")
       None 0 true None] agent_result None.
Definition schema_image : Image := mkImage "img" [] {[ LABEL_IMAGE_SCHEMA := "7" ]}.
Definition created : Container :=
  mkContainer "new1" NAME_CONTROL_PLANE "repo@sha256:aa" "img" ∅ "created" false None None [] [] [] None None.
Definition starting_calls : list (event unit) :=
  [mkEvent (InspectContainer "new1") (Ok (Some created));
   mkEvent (InspectImage "repo@sha256:aa") (Ok (Some schema_image));
   mkEvent LoadFloor (Ok (Some (mkSchemaFloor 6 "req-0" "t")));
   mkEvent NowStamp "t";
   mkEvent (StoreFloor (mkSchemaFloor 7 "req-1" "t")) (Ok ())].

Lemma wf_migrating : wf_journal migrating_journal.
Proof.
  split; [split; [done|by repeat constructor]|]. constructor; [|done].
  split; simpl; [set_solver|by intros ? [= <-]..].
Qed.

Lemma starts_respect_floor_witness :
  at_cur migrating_journal (λ s,
    (migrating s = true → floor_raised (history (watch unit) (world_at migrating_journal) starting_calls) s) ∧
    (st_phase s = PhRestoring → old_container s = Some "new1" ∧
       floor_allows (history (watch unit) (world_at migrating_journal) starting_calls) s "new1")).
Proof.
  apply (starts_respect_floor fake_cfg 5 5 (world_at migrating_journal) migrating_journal
    (run fake_cfg 5 5 migrating_journal) starting_calls [] "new1" (Ok ()) eq_refl wf_migrating).
  - by left.
  - unfold starting_calls. walk.
  - repeat split; simpl; try done. all: intros ? H; vm_compute in H; by simplify_eq.
Defined.

(** At an attempt whose components are done. *)
Lemma succeeded_is_replaced_witness :
  Forall (λ s, st_phase s = PhDone ∧ is_Some (new_container s)) (j_steps succeeded_journal).
Proof.
  apply (succeeded_is_replaced fake_cfg 5 5 (world_at (agent_journal PhDone (Some "old1") (Some "new1")))
    (agent_journal PhDone (Some "old1") (Some "new1"))
    (run fake_cfg 5 5 (agent_journal PhDone (Some "old1") (Some "new1"))) finishing_calls eq_refl wf_done).
  - constructor; [|done]. intros _. right. by eexists.
  - done.
  - by left.
  - unfold finishing_calls. walk.
  - by repeat split.
  - done.
Defined.
