(* ===== verification/Waits.v ===== *)
(** * Waits that end

    The clock of the machine as a monitor, and the rules by which a procedure is shown to end
    whatever its calls answer: every wait of the actor is a loop whose model is cut off when its
    fuel runs out, and ends when the clock passes its deadline. *)
From S2P Require Import Prelude Platform Effects Replace.

Local Open Scope Z_scope.

(** The clock, and nothing else: it does not run backwards, and a sleep takes its time. *)
Definition clock (I : Type) : Monitor I Z :=
  mkMonitor I Z (λ X g e, True)
    (λ X g e, match e in eff _ X return X → Prop with Now => λ t, g <= t | _ => λ _, True end)
    (λ X g e, match e in eff _ X return X → Z with
              | Now => λ t, t | Sleep d => λ _, g + Z.max 0 d | _ => λ _, g end).

Section ends.
Context {I : Type} `{!ReplaceDeps I} (cfg : Config).
Implicit Types (g : Z).

Local Abbreviation WP p g Q := (wp (clock I) False p g Q).

(** A procedure that ends, and at no earlier time. *)
Definition ends {X} (g : Z) (_ : X) (g' : Z) : Prop := g <= g'.

Lemma ends_call {X} (e : eff I X) g : WP (call e) g (ends g).
Proof. split; [done|]. intros x Hx. destruct e; simpl in *; unfold ends; lia. Qed.

Lemma ends_from {X} (p : prog I X) g g1 : g <= g1 → WP p g1 (ends g1) → WP p g1 (ends g).
Proof. intros H Hp. eapply wp_mono; [exact Hp|]. unfold ends. intros. lia. Qed.

Lemma ends_bind {A B} (p : prog I A) (f : A → prog I B) g :
  WP p g (ends g) → (∀ a g1, g <= g1 → WP (f a) g1 (ends g1)) → WP (bind p f) g (ends g).
Proof.
  intros Hp Hf. apply wp_bind. eapply wp_mono; [exact Hp|]. intros a g1 H1. apply ends_from; [done|]. by apply Hf.
Qed.

Lemma ends_bind_ok {A B E} (p : prog I (result A E)) (f : A → prog I (result B E)) g :
  WP p g (ends g) → (∀ a g1, g <= g1 → WP (f a) g1 (ends g1)) → WP (bind_ok p f) g (ends g).
Proof.
  intros Hp Hf. apply ends_bind; [done|]. intros [a|e] g1 H1; [by apply Hf|]. exact (Z.le_refl g1).
Qed.

Lemma ends_retrying {A} (e : eff I (result A EngineError)) g : WP (retrying cfg (call e)) g (ends g).
Proof.
  unfold retrying. generalize 0. revert g. induction (retries (timing cfg)) as [|n IH]; intros g k;
    cbn [retry_loop]; (apply ends_bind; [apply ends_call|]); intros r g1 _.
  - destruct r; exact (Z.le_refl g1).
  - destruct r as [a|er]; [exact (Z.le_refl g1)|]. destruct (is_transient er); [|exact (Z.le_refl g1)].
    apply ends_bind; [apply ends_call|]. intros. apply IH.
Qed.

End ends.

Ltac e_step :=
  match goal with
  | |- wp _ _ (retrying _ (call _)) _ _ => apply ends_retrying
  | |- wp _ _ (call _) _ _ => apply ends_call
  | |- wp _ _ (Ret _) _ (ends ?g) => exact (Z.le_refl g)
  | |- wp _ _ (map_errp _ _) _ _ => apply ends_bind; [|intros ? ? ?]
  | |- wp _ _ (bind_ok _ _) _ _ => apply ends_bind_ok; [|intros ? ? ?]
  | |- wp _ _ (bind _ _) _ _ => apply ends_bind; [|intros ? ? ?]
  | |- wp _ _ (let _ := _ in _) _ _ => cbv zeta
  | |- wp _ _ (match ?x with _ => _ end) _ _ => destruct x
  end.
