(* ===== verification/Handover.v ===== *)
(** * The recovery actor replacing itself

    [crates/quasar-recovery/src/handover.rs], and the wait for the lease that goes with it
    ([actor.rs::acquire_lease_waiting]). Two processes run: the old actor and its successor,
    and only the one that holds the machine's lease acts. Both are this program, told apart by
    [party_of]. The text of log lines is left out. *)
From S2P Require Import Prelude Platform Wire Journal Settle Effects Replace.

(** The binary's identity ([identity.rs]). *)
Class HandoverDeps := mkHandoverDeps { identity_version : string; identity_commit : string }.

(** [successor_name] *)
Definition SUCCESSOR_NAME : string := NAME_RECOVERY_ACTOR +:+ ".next".

Definition ENGINE_OUTAGE_LIMIT : Z := 10.

(** [{phase:?}] *)
Definition debug_phase (p : Phase) : string :=
  match p with
  | PhAdmitted => "Admitted" | PhPulling => "Pulling" | PhChecked => "Checked"
  | PhDumping => "Dumping" | PhOldKept => "OldKept" | PhCreated => "Created"
  | PhStarted => "Started" | PhVerifying => "Verifying" | PhVerified => "Verified"
  | PhOldDiscarded => "OldDiscarded" | PhRestoring => "Restoring" | PhDone => "Done"
  | PhCreatingSuccessor => "CreatingSuccessor" | PhStartingSuccessor => "StartingSuccessor"
  | PhAwaitingSuccessor => "AwaitingSuccessor" | PhHandingOver => "HandingOver"
  | PhSuccessorActive => "SuccessorActive" | PhSuccessorRenaming => "SuccessorRenaming"
  | PhHandingBack => "HandingBack"
  end.

Definition spec_with_name (n : string) (s : ContainerSpec) : ContainerSpec :=
  mkContainerSpec n (cs_image s) (cs_entrypoint s) (cs_cmd s) (cs_env s) (cs_labels s)
    (cs_network_mode s) (cs_binds s) (cs_devices s) (cs_device_cgroup_rules s) (cs_gpus s)
    (cs_cap_add s) (cs_security_opt s) (cs_init s) (cs_restart s) (cs_ports s) (cs_healthcheck s).

Definition with_name (n : string) (c : Container) : Container :=
  mkContainer (c_id c) n (c_image c) (c_image_id c) (c_labels c) (c_status c) (c_running c)
    (c_health c) (c_restart c) (c_mounts c) (c_command c) (c_env c) (c_created c) (c_started_at c).

(** A successor that takes over before it was handed the machine names itself. *)
Definition take_over (me : option string) (s : Step) : Step :=
  mkStep (st_name s) (st_image s) (st_phase s) (old_container s) (old_restart s) (old_digest s)
    (st_revision s) (st_spec s)
    (match new_container s with None => me | n => n end)
    (st_failure s) (Z.max (successor_starts s) 1) (migrating s) (st_dump s).

Definition is_stranger (p : Party) : bool := match p with Stranger _ => true | _ => false end.
Definition on_new_image (p : Party) : bool :=
  match p with Successor | Stranger true => true | _ => false end.

Section handover.
Context {I : Type} `{!ReplaceDeps I, !HandoverDeps} (cfg : Config).

Implicit Types (j : Journal) (i : nat).

Local Abbreviation timing := (handover cfg).

Definition is_me_id (id : string) : bool :=
  match self_container cfg with Some me => same_container me id | None => false end.

(** The component of the recovery actor, and its place. *)
Definition actor_index j : option nat := position is_actor (j_steps j).

(** ** Who this process is *)

(** [Actor::own_attempt_label] *)
Definition own_attempt_label : prog I (option string) :=
  match self_container cfg with
  | None => Ret None
  | Some me =>
      do r <- call (InspectContainer me);
      Ret (match r with Ok (Some c) => c_labels c !! LABEL_ATTEMPT | _ => None end)
  end.

(** [Actor::is_handover_party] *)
Definition is_handover_party (own : option string) : prog I bool :=
  do sc <- call ScanJournals;
  Ret (match scan_open sc with
       | None => false
       | Some j =>
           match find_first is_actor (j_steps j) with
           | None => false
           | Some s =>
               match old_container s with Some o => is_me_id o | None => false end
               || match new_container s with Some n => is_me_id n | None => false end
               || bool_decide (own = Some (request_id (j_request j)))
           end
       end).

(** [Actor::stray]; the texts name the container or the engine's error. *)
Definition party_text (id name : string) : string :=
  "container " +:+ name +:+ " is a party to hand-over " +:+ id.
Definition blind_text (id : string) (e : EngineError) : string :=
  "the engine did not answer (" +:+ show_engine_error e +:+ "), so a party to hand-over "
  +:+ id +:+ " may still exist".

(** The containers a journal names, one after the other. *)
Fixpoint stray_named (id : string) (l : list string) : prog I (option string) :=
  match l with
  | [] => Ret None
  | c :: l' =>
      do r <- call (InspectContainer c);
      match r with
      | Ok (Some c) => if negb (is_me_id (c_id c)) then Ret (Some (party_text id (c_name c)))
                       else stray_named id l'
      | Ok None => stray_named id l'
      | Err e => Ret (Some (blind_text id e))
      end
  end.

Definition stray_party : prog I (option string) :=
  do sc <- call ScanJournals;
  match scan_open sc with
  | None => Ret None
  | Some j =>
      match actor_index j with
      | None => Ret None
      | Some i =>
          let id := request_id (j_request j) in
          let s := step_at j i in
          do named <- stray_named id (option_list (old_container s) ++ option_list (new_container s));
          match named with
          | Some why => Ret (Some why)
          | None =>
              do found <- attempt_containers cfg j i;
              Ret (match found with
                   | Ok (c :: _) => Some (party_text id (c_name c))
                   | Ok [] => None
                   | Err e => Some (blind_text id e)
                   end)
          end
      end
  end.

Definition stray : prog I (option string) :=
  match self_container cfg with
  | None => Ret None
  | Some _ =>
      do party <- stray_party;
      match party with
      | Some why => Ret (Some why)
      | None =>
          do r <- call (InspectContainer NAME_RECOVERY_ACTOR);
          Ret (match r with
               | Ok (Some c) =>
                   if negb (is_me_id (c_id c))
                   then Some ("container " +:+ c_name c +:+ " holds the recovery actor's name")
                   else None
               | _ => None
               end)
      end
  end.

(** ** Waiting for the lease *)

(** [Actor::waiting_successor] *)
Definition waiting_successor (own : option string) : prog I (option (Journal * nat)) :=
  do sc <- call ScanJournals;
  Ret (match scan_open sc with
       | None => None
       | Some j =>
           match current j with
           | None => None
           | Some i =>
               let s := step_at j i in
               if negb (is_actor s) then None
               else if match new_container s with
                       | Some new => is_me_id new
                       | None => bool_decide (own = Some (request_id (j_request j)))
                       end
               then Some (j, i) else None
           end
       end).

(** [Actor::may_take_lease], with the time of the last look at the old actor. *)
Definition may_take_lease (own : option string) (last_check : option Z) : prog I (bool * option Z) :=
  do w <- waiting_successor own;
  match w with
  | None => Ret (true, last_check)
  | Some (j, i) =>
      let s := step_at j i in
      if touched_old (st_phase s) then Ret (true, last_check)
      else
      do soon <- (match last_check with
                  | Some t => do now <- call Now; Ret (now - t <? orphan_check timing)%Z
                  | None => Ret false
                  end);
      if soon then Ret (false, last_check)
      else
      do now <- call Now;
      match old_container s with
      | None => Ret (false, Some now)
      | Some old =>
          do r <- call (InspectContainer old);
          Ret (match r with Ok None => true | _ => false end, Some now)
      end
  end.

(** [Actor::self_check] *)
Definition self_check : prog I (result unit string) :=
  match self_container cfg with
  | None => Ret (Err "this process cannot tell its own container")
  | Some me =>
      do r <- call (InspectContainer me);
      do? _ <- Ret (match r with
                    | Ok (Some c) => if c_running c then Ok tt else Err "its own container is not running"
                    | Ok None => Err "its own container is not running"
                    | Err e => Err ("the container engine did not answer: " +:+ show_engine_error e)
                    end);
      do m <- call LoadMachine;
      do? _ <- Ret (match m with
                    | Ok (Some _) => Ok tt
                    | Ok None => Err "machine state is missing"
                    | Err e => Err ("machine state is unreadable: " +:+ e)
                    end);
      do sc <- call ScanJournals;
      Ret (match sc_unreadable sc with
           | [] => Ok tt
           | _ => Err "an attempt journal is unreadable"
           end)
  end.

(** [Actor::while_waiting] *)
Definition while_waiting (own : option string) : prog I unit :=
  do w <- waiting_successor own;
  match w with
  | None => Ret tt
  | Some (j, i) =>
      if touched_old (st_phase (step_at j i)) then Ret tt
      else
      let id := request_id (j_request j) in
      do said <- call (ReadyExists id);
      if said then Ret tt
      else
      do ok <- self_check;
      match ok with
      | Err _ => Ret tt
      | Ok _ =>
          do _ <- call (StoreReady id (mkReady (default EmptyString (self_container cfg))
                                         identity_version identity_commit));
          Ret tt
      end
  end.

(** [Actor::acquire_lease_waiting]; [fuel] bounds its rounds. *)
Inductive AcquireError := AeStopped | AeStray (why : string) | AeLease (e : LeaseError).

Fixpoint acquire_waiting (fuel : nat) (own : option string) (last_check : option Z) :
  prog I (result unit AcquireError) :=
  match fuel with
  | O => Spin
  | S fuel' =>
      do k <- call Killed;
      if k then Ret (Err AeStopped)
      else
      do party <- is_handover_party own;
      if negb party
      then do why <- stray;
           match why with
           | Some why => Ret (Err (AeStray why))
           | None => map_errp AeLease (call TakeLease)
           end
      else
      do x <- may_take_lease own last_check;
      let (may, last_check) := x in
      do got <- (if may then map_errp AeLease (call TakeLease) else Ret (Err (AeLease LeaseHeld)));
      match got with
      | Ok _ => Ret (Ok tt)
      | Err (AeLease LeaseHeld) =>
          do _ <- while_waiting own;
          do _ <- call (Sleep (ho_poll timing));
          acquire_waiting fuel' own last_check
      | Err e => Ret (Err e)
      end
  end.

Definition acquire_lease_waiting (fuel : nat) : prog I (result unit AcquireError) :=
  do own <- own_attempt_label; acquire_waiting fuel own None.

(** ** The old actor's phases *)

Definition hengine := engine_halt RecreateFailed.

(** [Actor::remove_leftover_successor] *)
Definition remove_leftover_successor (c : Container) : prog I (result unit Halt) :=
  do m <- call LoadMachine;
  let ours := match m with
              | Ok (Some m) =>
                  bool_decide (c_labels c !! LABEL_INSTALLATION = Some (m_installation_id m))
                  && bool_decide (c_labels c !! LABEL_PLATFORM_SERVICE = Some (role_str RecoveryActor))
                  && negb (is_me_id (c_id c))
              | _ => false
              end in
  if negb ours
  then Ret (Err (fail_with OwnerConflict ("container " +:+ c_name c +:+ " (" +:+ c_image c
         +:+ ") holds the successor's name and is not this installation's; it is never acted on, and the running actor was not touched")))
  else
  do sc <- call ScanJournals;
  match sc_unreadable sc with
  | _ :: _ => Ret (Err (fail_with RecreateFailed ("container " +:+ c_name c
                +:+ " is left by an earlier attempt and an attempt journal cannot be read; it is not removed")))
  | [] => map_errp (hengine "remove an earlier successor") (retrying cfg (call (RemoveContainer (c_id c))))
  end.

(** [Actor::create_successor] *)
Definition create_successor j i : prog I (result Journal Halt) :=
  do? mine <- map_errp (hengine "list containers") (attempt_containers cfg j i);
  match mine with
  | c :: _ => Ret (Ok (update_step i (set_new_container (Some (c_id c))) j))
  | [] =>
      do? holder <- map_errp (hengine "inspect the successor's name")
                      (retrying cfg (call (InspectContainer SUCCESSOR_NAME)));
      do? _ <- (match holder with
                | Some c => remove_leftover_successor c
                | None => Ret (Ok tt)
                end);
      do? spec <- Ret (ok_or (st_spec (step_at j i))
                         (fail_with RecreateFailed "no rendered specification was journalled"));
      do? new <- map_errp (hengine "create the successor")
                   (retrying cfg (call (CreateContainer
                      (spec_add_label LABEL_ATTEMPT (request_id (j_request j))
                         (spec_with_name SUCCESSOR_NAME spec)))));
      Ret (Ok (update_step i (set_new_container (Some new)) j))
  end.

(** [Actor::successor] *)
Definition successor j i : prog I (result (option Container) Halt) :=
  let by_label :=
    do? found <- map_errp (hengine "list containers") (attempt_containers cfg j i);
    Ret (Ok (head found)) in
  match new_container (step_at j i) with
  | Some new =>
      do? c <- map_errp (hengine "inspect the successor") (retrying cfg (call (InspectContainer new)));
      match c with Some c => Ret (Ok (Some c)) | None => by_label end
  | None => by_label
  end.

(** [Actor::start_successor] *)
Definition start_successor j i : prog I (result unit Halt) :=
  do? c <- successor j i;
  do? c <- Ret (ok_or c (fail_with RecreateFailed "the successor is gone"));
  if c_running c then Ret (Ok tt)
  else
  do r <- retrying cfg (call (StartContainer (c_id c)));
  Ret (match r with
       | Ok _ => Ok tt
       | Err Crashed => Err Died
       | Err e => Err (fail_with NeverStarted
           ("the engine did not start the successor, so it never ran: " +:+ show_engine_error e))
       end).

(** [Actor::await_ready] *)
Definition not_ready (seen : option Container) : Failure :=
  match seen with
  | Some c =>
      if str_eqb (c_status c) "created" then mkFailure NeverStarted "the successor never started"
      else mkFailure Unhealthy ("the successor did not report ready within "
             +:+ pretty (as_secs (ho_ready timing)) +:+ "s (state=" +:+ c_status c +:+ ", running="
             +:+ (if c_running c then "true" else "false") +:+ ")")
  | None => mkFailure RecreateFailed "the successor is gone"
  end.

Fixpoint await_ready_loop (fuel : nat) (deadline : Z) j i : prog I (result unit Halt) :=
  match fuel with
  | O => Spin
  | S fuel' =>
      do k <- call Killed;
      if k then Ret (Err Died)
      else
      do ready <- call (LoadReady (request_id (j_request j)));
      if match ready with
         | Some r => same_container (rd_container r) (default EmptyString (new_container (step_at j i)))
         | None => false
         end
      then Ret (Ok tt)
      else
      do t <- call Now;
      if (deadline <=? t)%Z
      then do? seen <- successor j i; Ret (Err (HFail (not_ready seen)))
      else do _ <- call (Sleep (ho_poll timing));
           await_ready_loop fuel' deadline j i
  end.

Definition await_ready (fuel : nat) j i : prog I (result unit Halt) :=
  do start <- call Now;
  await_ready_loop fuel (start + ho_ready timing) j i.

(** ** The successor's phases *)

(** [Actor::take_actor_name] *)
Definition take_actor_name : prog I (result unit Halt) :=
  do? me <- Ret (ok_or (self_container cfg)
                   (fail_with RecreateFailed "this successor cannot tell its own container"));
  do? mine <- map_errp (hengine "inspect the successor") (retrying cfg (call (InspectContainer me)));
  do? mine <- Ret (ok_or mine (fail_with RecreateFailed "the successor's own container is gone"));
  if str_eqb (c_name mine) NAME_RECOVERY_ACTOR then Ret (Ok tt)
  else
  do? other <- map_errp (hengine "inspect the actor's name")
                 (retrying cfg (call (InspectContainer NAME_RECOVERY_ACTOR)));
  match other with
  | Some c => Ret (Err (fail_with OwnerConflict ("container " +:+ c_name c +:+ " (" +:+ c_image c
                +:+ ") holds the recovery actor's name; it is never acted on")))
  | None => map_errp (hengine "rename the successor")
              (retrying cfg (call (RenameContainer me NAME_RECOVERY_ACTOR)))
  end.

(** [Actor::await_agent_contact] *)
Fixpoint await_contact_loop (fuel : nat) (deadline : Z) (id : string) : prog I (result unit Halt) :=
  match fuel with
  | O => Spin
  | S fuel' =>
      do k <- call Killed;
      if k then Ret (Err Died)
      else
      do polled <- call (AttemptPolled id);
      if polled then Ret (Ok tt)
      else
      do t <- call Now;
      if (deadline <=? t)%Z
      then Ret (Err (fail_with Unhealthy
             ("the successor did not verify: the node agent did not poll this attempt on its agent socket within "
              +:+ pretty (as_secs (agent_contact timing)) +:+ "s")))
      else do _ <- call (Sleep (ho_poll timing));
           await_contact_loop fuel' deadline id
  end.

Definition await_agent_contact (fuel : nat) (id : string) : prog I (result unit Halt) :=
  do m <- call LoadMachine;
  if match m with Ok (Some m) => bool_decide (m_role m = Gpu) | _ => false end
  then do start <- call Now; await_contact_loop fuel (start + agent_contact timing) id
  else Ret (Ok tt).

(** [Actor::verify_successor]: one look at the engine, with the deadline and the outage it
    leaves. *)
Definition look_successor (tick deadline outage : Z)
  (r : result (option Container) EngineError) : prog I (result (Z * Z * option bool) Halt) :=
  match r with
  | Ok (Some c) => Ret (Ok (deadline, outage, Some (c_running c)))
  | Ok None => Ret (Ok (deadline, outage, Some false))
  | Err Crashed => Ret (Err Died)
  | Err e =>
      if (outage <? ho_verify timing * ENGINE_OUTAGE_LIMIT)%Z
      then do t <- call Now;
           let lost := (Z.max 0 (t - tick) + ho_poll timing)%Z in
           Ret (Ok ((deadline + lost)%Z, (outage + lost)%Z, None))
      else Ret (Err (fail_with Unhealthy
             ("the successor did not verify: the container engine did not answer for "
              +:+ pretty (as_secs outage) +:+ "s (" +:+ show_engine_error e +:+ ")")))
  end.

Fixpoint verify_successor_loop (fuel : nat) (deadline outage : Z) j : prog I (result unit Halt) :=
  match fuel with
  | O => Spin
  | S fuel' =>
      do k <- call Killed;
      if k then Ret (Err Died)
      else
      do tick <- call Now;
      do silent <- call SocketsSilent;
      do r <- call (InspectContainer (default EmptyString (self_container cfg)));
      do? x <- look_successor tick deadline outage r;
      let '(deadline, outage, running) := x in
      match silent, running with
      | None, Some true => await_agent_contact fuel (request_id (j_request j))
      | _, _ =>
          let why := match silent, running with
                     | Some why, _ => why
                     | None, Some _ => "its container is not running"
                     | None, None => "the container engine did not answer"
                     end in
          do t <- call Now;
          if (deadline <=? t)%Z
          then Ret (Err (fail_with Unhealthy ("the successor did not verify within "
                 +:+ pretty (as_secs (ho_verify timing)) +:+ "s: " +:+ why)))
          else do _ <- call (Sleep (ho_poll timing));
               verify_successor_loop fuel' deadline outage j
      end
  end.

Definition verify_successor (fuel : nat) j : prog I (result unit Halt) :=
  do start <- call Now;
  verify_successor_loop fuel (start + ho_verify timing) 0 j.

(** [Actor::record_verified_actor] *)
Definition record_verified_actor (image : ImageRef) : prog I unit :=
  do existing <- call LoadSeed;
  match existing with
  | Err _ => Ret tt
  | Ok existing =>
      do m <- call LoadMachine;
      match m with
      | Ok (Some machine) =>
          let state := match existing with Some f => sf_state f | None => SeedActive end in
          if negb (bool_decide (state = SeedActive)) then Ret tt
          else do _ <- call (StoreSeed (mkSeedFile (m_installation_id machine) image state)); Ret tt
      | _ => Ret tt
      end
  end.

(** [Actor::discard_old_actor] *)
Definition discard_old_actor j i : prog I (result unit Halt) :=
  do? _ <- discard_old cfg j i;
  do _ <- record_verified_actor (st_image (step_at j i));
  Ret (Ok tt).

(** [Actor::hand_back] *)
Definition hand_back j i : prog I (result unit Halt) :=
  let s := step_at j i in
  let old_id := default EmptyString (old_container s) in
  do? old <- map_errp (hengine "inspect the previous actor") (retrying cfg (call (InspectContainer old_id)));
  match old with
  | None => Ret (Ok tt)
  | Some old =>
      let me := default EmptyString (self_container cfg) in
      do? mine <- map_errp (hengine "inspect the successor") (retrying cfg (call (InspectContainer me)));
      do? _ <- (match mine with
                | Some mine =>
                    if str_eqb (c_name mine) NAME_RECOVERY_ACTOR
                    then map_errp (hengine "rename the successor away")
                           (retrying cfg (call (RenameContainer me SUCCESSOR_NAME)))
                    else Ret (Ok tt)
                | None => Ret (Ok tt)
                end);
      do? _ <- (if str_eqb (c_name old) NAME_RECOVERY_ACTOR then Ret (Ok tt)
                else map_errp (hengine "rename the previous actor back")
                       (retrying cfg (call (RenameContainer (c_id old) NAME_RECOVERY_ACTOR))));
      let policy := default UnlessStopped (old_restart s) in
      if bool_decide (c_restart old = Some policy) then Ret (Ok tt)
      else map_errp (hengine "re-enable the previous actor's restart")
             (retrying cfg (call (SetRestartPolicy (c_id old) policy)))
  end.

(** ** Ending a hand-over that did not verify *)

(** [Actor::keep_this_actor]; [Err (Err tt)] is the source's [CRASHED] marker. *)
Definition keep_this_actor (policy : RestartPolicy) : prog I (result unit (result string unit)) :=
  match self_container cfg with
  | None => Ret (Ok tt)
  | Some me =>
      do? mine <- map_errp crashed_or (retrying cfg (call (InspectContainer me)));
      do? mine <- Ret (ok_or mine (Ok "this actor's own container is gone"));
      do? _ <- (if str_eqb (c_name mine) NAME_RECOVERY_ACTOR then Ret (Ok tt)
                else
                do? other <- map_errp crashed_or (retrying cfg (call (InspectContainer NAME_RECOVERY_ACTOR)));
                match other with
                | Some c => Ret (Err (Ok ("container " +:+ c_name c +:+ " holds the actor's name")))
                | None => map_errp crashed_or (retrying cfg (call (RenameContainer me NAME_RECOVERY_ACTOR)))
                end);
      if bool_decide (c_restart mine = Some policy) then Ret (Ok tt)
      else map_errp crashed_or (retrying cfg (call (SetRestartPolicy me policy)))
  end.

(** [Actor::runs_digest] *)
Definition runs_digest (d : option string) : prog I bool :=
  match self_container cfg, d with
  | Some me, Some d =>
      do r <- call (InspectContainer me);
      Ret (match r with
           | Ok (Some c) => bool_decide (snd <$> split_once "@" (c_image c) = Some d)
           | _ => false
           end)
  | _, _ => Ret false
  end.

(** [restore_actor], part by part. Every successor this attempt created: the labelled ones,
    and the journalled one; with the output so far. *)
Definition find_successors j i : prog I (result (list Container * string) unit) :=
  do found <- attempt_containers cfg j i;
  match found with
  | Err Crashed => Ret (Err tt)
  | _ =>
      let '(l, said) := match found with
                        | Ok l => (l, EmptyString)
                        | Err e => ([], nl +:+ "could not list the successor: " +:+ show_engine_error e)
                        end in
      match new_container (step_at j i) with
      | None => Ret (Ok (l, said))
      | Some new =>
          if is_me_id new || existsb (λ c, same_container (c_id c) new) l then Ret (Ok (l, said))
          else
          do r <- call (InspectContainer new);
          Ret (match r with
               | Ok (Some c) => Ok (l ++ [c], said)
               | Err Crashed => Err tt
               | _ => Ok (l, said)
               end)
      end
  end.

Definition left_alone (c : Container) : string :=
  nl +:+ "the successor " +:+ c_name c +:+ " is running and was left alone".

(** Successors under the actor's name step aside; one that cannot is removed first after all,
    and loses its name. *)
Fixpoint step_aside (l : list Container) : prog I (result (list Container) unit) :=
  match l with
  | [] => Ret (Ok [])
  | c :: l' =>
      do? c <- (if negb (str_eqb (c_name c) NAME_RECOVERY_ACTOR) then Ret (Ok c)
                else
                do r <- retrying cfg (call (RenameContainer (c_id c) SUCCESSOR_NAME));
                match r with
                | Ok _ => Ret (Ok (with_name SUCCESSOR_NAME c))
                | Err Crashed => Ret (Err tt)
                | Err _ =>
                    do r <- retrying cfg (call (RemoveContainer (c_id c)));
                    Ret (match r with
                         | Ok _ => Ok (with_name EmptyString c)
                         | Err Crashed => Err tt
                         | Err _ => Ok c
                         end)
                end);
      do? l' <- step_aside l';
      Ret (Ok (c :: l'))
  end.

(** A stranger removes the previous actor only when it is really left over: stopped. *)
Definition remove_old_leftover j i (party : Party) : prog I (result string unit) :=
  match old_container (step_at j i) with
  | Some old =>
      if negb (is_stranger party) || is_me_id old then Ret (Ok EmptyString)
      else
      do r <- call (InspectContainer old);
      match r with
      | Ok (Some c) =>
          if c_running c
          then Ret (Ok (nl +:+ "the previous actor " +:+ c_name c +:+ " is running and was left alone"))
          else do r <- retrying cfg (call (RemoveContainer old));
               Ret (match r with
                    | Ok _ => Ok EmptyString
                    | Err Crashed => Err tt
                    | Err e => Ok (nl +:+ "the previous actor could not be removed: " +:+ show_engine_error e)
                    end)
      | Err Crashed => Ret (Err tt)
      | _ => Ret (Ok EmptyString)
      end
  | None => Ret (Ok EmptyString)
  end.

(** The remaining successors go, with their last lines. *)
Fixpoint remove_successors (l : list Container) (said : string) : prog I (result string unit) :=
  match l with
  | [] => Ret (Ok said)
  | c :: l' =>
      do tail <- call (LogsTail (c_id c) 40);
      match tail with
      | Err Crashed => Ret (Err tt)
      | _ =>
          let said := match tail with
                      | Ok tail => if str_eqb (trim_end tail) EmptyString then said
                                   else said +:+ nl +:+ "--- last lines of " +:+ c_name c +:+ " ---"
                                        +:+ nl +:+ embedded_log_tail tail
                      | Err _ => said
                      end in
          do r <- retrying cfg (call (RemoveContainer (c_id c)));
          match r with
          | Err Crashed => Ret (Err tt)
          | Err e => remove_successors l' (said +:+ nl +:+ "the successor " +:+ c_name c
                       +:+ " could not be removed: " +:+ show_engine_error e)
          | Ok _ => remove_successors l' said
          end
      end
  end.

(** Whether the name was taken back, and what the outcome says of it. *)
Definition name_note (restored : bool) (kept : result unit (result string unit)) :
  result (bool * string) unit :=
  match kept with
  | Ok _ => Ok (true, if restored
      then nl +:+ "the successor did not verify; the previous recovery actor was put back and is running"
      else nl +:+ "the recovery actor running now keeps this machine")
  | Err (Err _) => Err tt
  | Err (Ok why) => Ok (false,
      nl +:+ "the recovery actor running now could not take the actor's name back (" +:+ why
      +:+ "), so it does not serve this machine")
  end.

(** [Actor::restore_actor] *)
Definition restore_actor j i (party : Party) : prog I (result Journal unit) :=
  let s := step_at j i in
  let failure := default (mkFailure Unhealthy "the successor did not verify itself") (st_failure s) in
  do? found <- find_successors j i;
  let (l, said) := found in
  let left := List.filter (λ c, c_running c && is_stranger party) l in
  let l := List.filter (λ c, negb (c_running c && is_stranger party)) l in
  let said := fl_detail failure +:+ said +:+ concat_str (map left_alone left) in
  do? l <- step_aside l;
  let l := List.filter (λ c, negb (str_eqb (c_name c) EmptyString)) l in
  do? old_said <- remove_old_leftover j i party;
  let policy := match party with
                | Old => default UnlessStopped (old_restart s)
                | _ => UnlessStopped
                end in
  do restored <- (match party with
                  | Old => Ret true
                  | Successor => Ret false
                  | Stranger _ => runs_digest (old_digest s)
                  end);
  do kept <- keep_this_actor policy;
  do? nn <- Ret (name_note restored kept);
  let (named, note) := nn in
  do? said <- remove_successors l (said +:+ old_said);
  do _ <- (if named then call ServeAgain else Ret tt);
  do? j' <- finish j StFailed (Some (fl_reason failure)) (said +:+ note +:+ moved_before j i)
             (restored && named);
  if named then Ret (Ok j')
  else do _ <- call ReleaseLease; do _ <- died; Ret (Err tt).

(** [Actor::hand_to] *)
Definition hand_to (target : Container) : prog I (result bool unit) :=
  let tries (p : prog I (result unit EngineError)) : prog I (result bool unit) :=
    do r <- p;
    Ret (match r with Ok _ => Ok true | Err Crashed => Err tt | Err _ => Ok false end) in
  do? ok <- (if bool_decide (c_restart target = Some UnlessStopped) then Ret (Ok true)
             else tries (retrying cfg (call (SetRestartPolicy (c_id target) UnlessStopped))));
  if negb ok then Ret (Ok false)
  else
  do? ok <- (if c_running target then Ret (Ok true)
             else tries (retrying cfg (call (StartContainer (c_id target)))));
  if negb ok then Ret (Ok false)
  else
  do? _ <- (match self_container cfg with
            | Some me => tries (retrying cfg (call (SetRestartPolicy me RestartNo)))
            | None => Ret (Ok true)
            end);
  do _ <- call StopServing;
  do _ <- call ReleaseLease;
  do _ <- call MarkRetired;
  Ret (Ok true).

(** [Actor::yield_or_finish] *)
Definition yield_or_finish j i (party : Party) : prog I (Journal * result Flow unit) :=
  let s := step_at j i in
  let target := match party with
                | Successor => old_container s
                | Old => new_container s
                | Stranger _ => None
                end in
  do found <- (match target with
               | Some id =>
                   do r <- retrying cfg (call (InspectContainer id));
                   Ret (match r with
                        | Ok found => Ok found
                        | Err Crashed => Err tt
                        | Err _ => Ok None
                        end)
               | None => Ret (Ok None)
               end);
  match found with
  | Err _ => Ret (j, Err tt)
  | Ok found =>
      do handed <- (match found with Some c => hand_to c | None => Ret (Ok false) end);
      match handed with
      | Err _ => Ret (j, Err tt)
      | Ok true => Ret (j, Ok Ended)
      | Ok false =>
          if bool_decide (st_phase s = PhDone) then Ret (j, Ok StepDone)
          else
          do r <- restore_actor j i (Stranger (bool_decide (party = Successor)));
          Ret (match r with Ok j' => (j', Ok Ended) | Err _ => (j, Err tt) end)
      end
  end.

(** ** The driver *)

Section drive.
(** [Actor::settle_journal], which an old actor that took the lease back calls again. *)
Context (settle_again : Journal → prog I (result unit unit)).

(** [Actor::take_lease_now] *)
Definition take_lease_now : prog I (result unit unit) :=
  do k <- call Killed;
  if k then Ret (Err tt) else map_errp (λ _, tt) (call TakeLease).

(** [Actor::watch_takeover]; [fuel] bounds its looks. *)
Fixpoint watch_takeover (fuel : nat) (released : Z) (id : string) : prog I (result Flow unit) :=
  match fuel with
  | O => Spin
  | S fuel' =>
      do k <- call Killed;
      if k then Ret (Err tt)
      else
      do _ <- call (Sleep (ho_poll timing));
      do r <- call (LoadJournal id);
      match r with
      | Ok (Some j) =>
          do wait <- (if is_open j && match current j with
                                      | Some i => bool_decide (st_phase (step_at j i) = PhHandingOver)
                                      | None => false
                                      end
                      then do t <- call Now; Ret (t - released <? takeover timing)%Z
                      else Ret false);
          if wait then watch_takeover fuel' released id
          else
          do got <- take_lease_now;
          match got with
          | Err _ => watch_takeover fuel' released id
          | Ok _ =>
              do _ <- call ServeAgain;
              do r <- call (LoadJournal id);
              match r with
              | Ok (Some j) => do? _ <- settle_again j; Ret (Ok Ended)
              | _ => Ret (Ok Ended)
              end
          end
      | _ => watch_takeover fuel' released id
      end
  end.

(** [Actor::hand_over] *)
Definition hand_over (fuel : nat) j : prog I (result Flow unit) :=
  do _ <- call StopServing;
  do _ <- call ReleaseLease;
  do released <- call Now;
  watch_takeover fuel released (request_id (j_request j)).

(** What one phase leads to: the phase to journal next, with the journal in memory, or the
    end of the driver. *)
Inductive ho_outcome :=
| HoNext (j : Journal) (r : result Phase Halt)
| HoEnd (j : Journal) (r : result Flow unit).

Definition ho_to {A} j (p : Phase) (r : result A Halt) : ho_outcome := HoNext j (to_phase p r).

Definition ho_with j (p : Phase) (r : result Journal Halt) : ho_outcome :=
  match r with Ok j' => HoNext j' (Ok p) | Err h => HoNext j (Err h) end.

Definition to_restore j (r : Reason) (detail : string) : ho_outcome :=
  HoNext j (Err (fail_with r detail)).

(** The match of [drive_handover], arm by arm. *)
Definition ho_phase (fuel : nat) j i (party : Party) : prog I ho_outcome :=
  let s := step_at j i in
  if bool_decide (st_phase s ≠ PhDone) && bool_decide (party = Successor) && negb (touched_old (st_phase s))
  then Ret (HoNext (update_step i (take_over (self_container cfg)) j) (Ok PhSuccessorActive))
  else
  match st_phase s with
  | PhDone => Ret (HoEnd j (Ok StepDone))
  | PhAdmitted => Ret (HoNext j (Ok PhPulling))
  | PhPulling => do r <- pull_and_check cfg j i; Ret (ho_with j PhChecked r)
  | PhChecked => Ret (HoNext j (Ok PhCreatingSuccessor))
  | PhCreatingSuccessor => do r <- create_successor j i; Ret (ho_with j PhStartingSuccessor r)
  | PhStartingSuccessor => do r <- start_successor j i; Ret (ho_to j PhAwaitingSuccessor r)
  | PhAwaitingSuccessor => do r <- await_ready fuel j i; Ret (ho_to j PhHandingOver r)
  | PhHandingOver =>
      match party with
      | Old => do r <- hand_over fuel j; Ret (HoEnd j r)
      | Successor => Ret (HoNext j (Ok PhSuccessorActive))
      | Stranger _ => Ret (to_restore j RecreateFailed
          "the hand-over was in progress when every recovery-actor container was removed")
      end
  | PhSuccessorActive =>
      if negb (bool_decide (party = Successor))
      then Ret (to_restore j Unhealthy "the successor stopped before it verified itself")
      else do r <- keep_old cfg j i; Ret (ho_to j PhSuccessorRenaming r)
  | PhSuccessorRenaming =>
      if negb (bool_decide (party = Successor))
      then Ret (to_restore j Unhealthy "the successor stopped before it verified itself")
      else do r <- take_actor_name; Ret (ho_to j PhVerifying r)
  | PhVerifying =>
      if negb (bool_decide (party = Successor))
      then Ret (to_restore j Unhealthy "the successor stopped before it verified itself")
      else do r <- verify_successor fuel j; Ret (ho_to j PhVerified r)
  | PhVerified =>
      if bool_decide (party = Old) then do x <- yield_or_finish j i party; let (j', r) := x in Ret (HoEnd j' r)
      else if negb (on_new_image party)
      then Ret (to_restore j RecreateFailed
             "the successor verified, then every recovery-actor container was removed; the seed re-created the last verified actor it knew")
      else do r <- record_new j i; Ret (ho_to j PhOldDiscarded r)
  | PhOldDiscarded =>
      if bool_decide (party = Old) then do x <- yield_or_finish j i party; let (j', r) := x in Ret (HoEnd j' r)
      else if negb (on_new_image party)
      then Ret (to_restore j RecreateFailed
             "the successor verified, then every recovery-actor container was removed; the seed re-created the last verified actor it knew")
      else do r <- discard_old_actor j i; Ret (ho_to j PhDone r)
  | PhRestoring =>
      if bool_decide (party = Successor)
      then do r <- hand_back j i; Ret (ho_to j PhHandingBack r)
      else do r <- restore_actor j i party;
           Ret (match r with Ok j' => HoEnd j' (Ok Ended) | Err _ => HoEnd j (Err tt) end)
  | PhHandingBack =>
      if bool_decide (party = Successor)
      then do x <- yield_or_finish j i party; let (j', r) := x in Ret (HoEnd j' r)
      else do r <- restore_actor j i party;
           Ret (match r with Ok j' => HoEnd j' (Ok Ended) | Err _ => HoEnd j (Err tt) end)
  | PhOldKept | PhCreated | PhStarted | PhDumping =>
      do r <- finish j StFailed (Some Invalid)
                ("the recovery actor's component is journalled in the node agent's phase "
                 +:+ debug_phase (st_phase s)) false;
      Ret (match r with Ok j' => HoEnd j' (Ok Ended) | Err _ => HoEnd j (Err tt) end)
  end.

(** The arms on a phase's outcome: the journal the loop goes on with, or its end. *)
Definition ho_after (phase : Phase) j i (r : result Phase Halt) : prog I (result Journal (Journal * result Flow unit)) :=
  match r with
  | Ok next => map_errp (λ _, (j, Err tt)) (advance j i next)
  | Err Died => Ret (Err (j, Err tt))
  | Err (HFail failure) =>
      if bool_decide (phase = PhPulling) || bool_decide (phase = PhChecked)
      then do r <- finish j StFailed (Some (fl_reason failure)) (fl_detail failure +:+ moved_before j i) false;
           Ret (Err (match r with Ok j' => (j', Ok Ended) | Err _ => (j, Err tt) end))
      else
      let j := match st_failure (step_at j i) with
               | None => update_step i (set_failure (Some failure)) j
               | Some _ => j
               end in
      map_errp (λ _, (j, Err tt)) (advance j i PhRestoring)
  end.

(** [Actor::drive_handover]; [turns] bounds its iterations. *)
Fixpoint drive_handover (turns fuel : nat) j i : prog I (Journal * result Flow unit) :=
  match turns with
  | O => Spin
  | S turns' =>
      if negb (is_open j) then Ret (j, Ok Ended)
      else
      do party <- party_of cfg j;
      do o <- ho_phase fuel j i party;
      match o with
      | HoEnd j' r => Ret (j', r)
      | HoNext j' r =>
          do next <- ho_after (st_phase (step_at j i)) j' i r;
          match next with
          | Ok j'' => drive_handover turns' fuel j'' i
          | Err x => Ret x
          end
      end
  end.
End drive.

(** [Actor::yield_attempt] *)
Definition yield_attempt (run_again : Journal → prog I (result unit unit)) j (party : Party) :
  prog I (result unit unit) :=
  match actor_index j with
  | None => run_again j
  | Some i =>
      do x <- yield_or_finish j i party;
      let (j', r) := x in
      match r with
      | Err _ => Ret (Err tt)
      | Ok Ended => Ret (Ok tt)
      | Ok StepDone => run_again j'
      end
  end.

(** ** The hand-over inside a replacement

    [link] puts the hand-over's procedures where [Replace] calls them. An old actor that took
    the lease back settles the journal again, and may hand over again: [depth] bounds how
    often. *)
Fixpoint link {A} (drv : Journal → nat → prog I (Journal * result Flow unit))
    (yld : Journal → Party → prog I (result unit unit)) (p : prog I A) : prog I A :=
  match p with
  | Ret a => Ret a
  | Spin => Spin
  | @Vis _ _ X e k =>
      let k' := λ x, link drv yld (k x) in
      match e in eff _ Y return (Y → prog I A) → prog I A with
      | DriveHandover j i => λ k', bind (drv j i) k'
      | YieldAttempt j p => λ k', bind (yld j p) k'
      | e => λ k', Vis e k'
      end k'
  end.

Fixpoint settle_linked (depth turns fuel : nat) j : prog I (result unit unit) :=
  match depth with
  | O => Spin
  | S depth' =>
      let drv := drive_handover (settle_linked depth' turns fuel) turns fuel in
      let run_again := λ j, link drv (λ _ _, Spin) (run cfg turns fuel j) in
      link drv (yield_attempt run_again) (settle_journal cfg turns fuel j)
  end.

Definition linked (depth turns fuel : nat) {A} (p : prog I A) : prog I A :=
  let drv := drive_handover (settle_linked depth turns fuel) turns fuel in
  link drv (yield_attempt (λ j, link drv (λ _ _, Spin) (run cfg turns fuel j))) p.

(** [Actor::resume_inner] up to its call of [settle_open]: it holds the lease and settles the
    open attempt, unless the machine was uninstalled (what finishes a console removal is not
    modelled). *)
Definition resume_settles (depth turns fuel : nat) : prog I (result unit (AcquireError + string)) :=
  do? _ <- map_errp (λ e, inl (AeLease e)) (call TakeLease);
  do u <- call Uninstalled;
  match u with
  | Some _ => Ret (Ok tt)
  | None => map_errp inr (linked depth turns fuel (settle_open cfg turns fuel))
  end.

(** A process from its start ([main.rs]): it waits for the lease, serves its sockets and resumes. *)
Definition actor_start (depth turns fuel : nat) : prog I (result unit (AcquireError + string)) :=
  do? _ <- map_errp inl (acquire_lease_waiting fuel);
  do _ <- call ServeAgain;
  do k <- call Killed;
  if k then Ret (Err (inl AeStopped)) else resume_settles depth turns fuel.

(** The driver of an attempt this process has just accepted. *)
Definition actor_drive (depth turns fuel : nat) (id : string) : prog I unit :=
  linked depth turns fuel (drive cfg turns fuel id).
End handover.
