(* ===== verification/HandoverSpec.v ===== *)
(** * What a hand-over promises

    The attempts specified here replace the recovery actor alone ([actor_journal]): one
    component, driven by the old actor, its successor, or, when both are gone, by a stranger
    the seed created. [ho_step] is the abstract machine of their journal, and [hwatch] the
    monitor one process is checked against: when it may make each call, and what the engine,
    the machine's files and the other process may do meanwhile. *)
From S2P Require Import Prelude Platform Wire Journal Settle Effects Replace ReplaceSpec Handover.

(** [n] stands for the container of id [id]: it is that id, or a prefix of it that is long
    enough. *)
Definition designates (n id : string) : bool :=
  str_eqb n id || ((12 <=? slen n)%nat && starts_with n id).

(** ** The abstract machine *)

(** The phases a successor exists in. *)
Definition with_successor (p : Phase) : bool :=
  match p with
  | PhStartingSuccessor | PhAwaitingSuccessor | PhHandingOver | PhSuccessorActive
  | PhSuccessorRenaming | PhVerifying | PhVerified | PhOldDiscarded => true
  | _ => false
  end.

(** No successor is recorded before the image was checked, one is from its start on, and it is
    not the container it replaces. *)
Record ho_wf (s : Step) : Prop := mkHoWf {
  hw_fresh : st_phase s = PhAdmitted ∨ st_phase s = PhPulling → new_container s = None;
  hw_created : with_successor (st_phase s) = true → is_Some (new_container s);
  hw_disjoint : ∀ n o, new_container s = Some n → old_container s = Some o → designates n o = false }.

Definition actor_journal (j : Journal) : Prop :=
  j_restore j = None ∧ ∃ s, j_steps j = [s] ∧ is_actor s = true ∧ migrating s = false ∧ ho_wf s.

(** The one component of such a journal. *)
Definition the_step (j : Journal) : Step := step_at j 0.

(** The phases of the recovery actor's component, in the order they are journalled: the old
    actor's up to [handing_over], the successor's from [successor_active] on. *)
Definition ho_edge (p p' : Phase) : bool :=
  match p, p' with
  | PhAdmitted, PhPulling | PhPulling, PhChecked | PhChecked, PhCreatingSuccessor
  | PhCreatingSuccessor, PhStartingSuccessor | PhStartingSuccessor, PhAwaitingSuccessor
  | PhAwaitingSuccessor, PhHandingOver | PhHandingOver, PhSuccessorActive
  | PhSuccessorActive, PhSuccessorRenaming | PhSuccessorRenaming, PhVerifying
  | PhVerifying, PhVerified | PhVerified, PhOldDiscarded | PhOldDiscarded, PhDone
  | PhRestoring, PhHandingBack => true
  (* the successor found the old actor gone before it was handed the machine *)
  | p, PhSuccessorActive => negb (touched_old p)
  (* a hand-over that did not verify; a hand-back that did not work is tried again *)
  | (PhCreatingSuccessor | PhStartingSuccessor | PhAwaitingSuccessor | PhHandingOver
    | PhSuccessorActive | PhSuccessorRenaming | PhVerifying | PhVerified | PhOldDiscarded
    | PhRestoring | PhOldKept | PhCreated | PhStarted), PhRestoring => true
  | _, _ => false
  end.

Record ho_move (s s' : Step) : Prop := mkHoMove {
  hm_edge : ho_edge (st_phase s) (st_phase s') = true;
  hm_name : st_name s' = st_name s;
  hm_image : st_image s' = st_image s;
  hm_migrating : migrating s' = migrating s;
  hm_old : st_phase s ≠ PhPulling → old_container s' = old_container s ∧ st_spec s' = st_spec s;
  hm_new : st_phase s' ≠ PhStartingSuccessor → st_phase s' ≠ PhSuccessorActive →
    new_container s' = new_container s;
  hm_restoring : st_phase s' = PhRestoring → is_Some (st_failure s');
  hm_wf : ho_wf s' }.

(** The phases a hand-over ends in as failed: nothing changed yet, or it was taken back, or it
    verified and then every container of it was gone; or it was in no phase of a hand-over. *)
Definition may_end (p : Phase) : bool :=
  negb (touched_old p) || bool_decide (p = PhRestoring) || bool_decide (p = PhHandingBack)
  || bool_decide (p = PhVerified) || bool_decide (p = PhOldDiscarded)
  || bool_decide (p ∈ [PhOldKept; PhCreated; PhStarted]).

Inductive ho_step (j j' : Journal) : Prop :=
| ho_moved s s' :
    is_open j = true → j_steps j = [s] → j_steps j' = [s'] → ho_move s s' →
    is_open j' = true → j_request j' = j_request j → j_restore j' = j_restore j → ho_step j j'
| ho_counted s s' :
    is_open j = true → j_steps j = [s] → j_steps j' = [s'] →
    st_phase s' = st_phase s → touched_old (st_phase s) = true →
    st_name s' = st_name s → st_image s' = st_image s → old_container s' = old_container s →
    st_spec s' = st_spec s → migrating s' = migrating s → (is_Some (new_container s) → new_container s' = new_container s) →
    successor_starts s' = (successor_starts s + 1)%Z → ho_wf s' →
    is_open j' = true → j_request j' = j_request j → j_restore j' = j_restore j → ho_step j j'
| ho_succeeded s :
    is_open j = true → j_steps j = [s] → st_phase s = PhDone → j_steps j' = j_steps j →
    res_state (j_result j') = StSucceeded → res_restored (j_result j') = false →
    j_restore j' = j_restore j → ho_step j j'
| ho_failed s :
    is_open j = true → j_steps j = [s] → may_end (st_phase s) = true →
    j_steps j' = [set_phase PhDone s] →
    res_state (j_result j') = StFailed → is_Some (res_reason (j_result j')) →
    j_restore j' = j_restore j → ho_step j j'.

(** ** The history *)

(** The last durable journal, whether it is known to be (another process may have written
    meanwhile), whether this process holds the lease; the names of containers, and those found
    stopped, since it does; the ones listed as this attempt's; this process's own container; the
    machine's installation. *)
Record HWorld := mkHWorld {
  h_dur : Journal;
  h_known : bool;
  h_lease : bool;
  h_names : gmap string string;
  h_stopped : gset string;
  h_listed : gset string;
  h_own : option Container;
  h_install : option string }.

Definition h_with_dur (j : Journal) (g : HWorld) : HWorld :=
  mkHWorld j true (h_lease g) (h_names g) (h_stopped g) (h_listed g) (h_own g) (h_install g).
Definition h_with_names (m : gmap string string) (g : HWorld) : HWorld :=
  mkHWorld (h_dur g) (h_known g) (h_lease g) m (h_stopped g) (h_listed g) (h_own g) (h_install g).
Definition h_with_stopped (l : gset string) (g : HWorld) : HWorld :=
  mkHWorld (h_dur g) (h_known g) (h_lease g) (h_names g) l (h_listed g) (h_own g) (h_install g).
Definition h_with_listed (l : gset string) (g : HWorld) : HWorld :=
  mkHWorld (h_dur g) (h_known g) (h_lease g) (h_names g) (h_stopped g) l (h_own g) (h_install g).
Definition h_with_own (c : Container) (g : HWorld) : HWorld :=
  mkHWorld (h_dur g) (h_known g) (h_lease g) (h_names g) (h_stopped g) (h_listed g) (Some c) (h_install g).
Definition h_with_install (i : string) (g : HWorld) : HWorld :=
  mkHWorld (h_dur g) (h_known g) (h_lease g) (h_names g) (h_stopped g) (h_listed g) (h_own g) (Some i).
(** Without the lease nothing seen stays true. *)
Definition h_released (g : HWorld) : HWorld :=
  mkHWorld (h_dur g) false false ∅ ∅ ∅ (h_own g) (h_install g).
Definition h_taken (g : HWorld) : HWorld :=
  mkHWorld (h_dur g) false true ∅ ∅ ∅ (h_own g) (h_install g).

(** A write that failed may have happened. *)
Definition h_unsure (g : HWorld) : HWorld :=
  mkHWorld (h_dur g) false (h_lease g) (h_names g) (h_stopped g) (h_listed g) (h_own g) (h_install g).
(** The first look at the journal once it holds the lease. *)
Definition h_found (j : Journal) (g : HWorld) : HWorld :=
  if h_lease g && negb (h_known g) then h_with_dur j g else g.

Definition h_see (c : Container) (g : HWorld) : HWorld :=
  h_with_names (<[c_id c := c_name c]> (h_names g))
    (if c_running c then g else h_with_stopped ({[c_id c]} ∪ h_stopped g) g).

(** What is known of the containers an id does not stand for. *)
Definition other_names (id : string) (m : gmap string string) : gmap string string :=
  filter (λ x, same_container id x.1 = false) m.
Definition other_ids (id : string) (l : gset string) : gset string :=
  filter (λ x, same_container id x = false) l.

Section spec.
Context {I : Type} (cfg : Config).

Local Abbreviation own_id := (is_me_id cfg).

(** A listed container the attempt created: labelled with it, this installation's, a recovery
    actor's; not the one it replaces, not this process's own. *)
Definition h_labelled (g : HWorld) (c : Container) : bool :=
  bool_decide (c_labels c !! LABEL_ATTEMPT = Some (request_id (j_request (h_dur g))))
  && match h_install g with
     | Some i => bool_decide (c_labels c !! LABEL_INSTALLATION = Some i) | None => false end
  && bool_decide (c_labels c !! LABEL_PLATFORM_SERVICE = Some (role_str RecoveryActor))
  && negb (bool_decide (Some (c_id c) = old_container (the_step (h_dur g))))
  && negb (own_id (c_id c)).

Definition h_see_listed (l : list Container) (g : HWorld) : HWorld :=
  h_with_listed (h_listed g ∪ list_to_set (map c_id (List.filter (h_labelled g) l))) (foldr h_see g l).

Definition ho_advance {X} (g : HWorld) (e : eff I X) : X → HWorld :=
  match e in eff _ X return X → HWorld with
  | InspectContainer n => λ r,
      match r with
      | Ok (Some c) => h_see c (if bool_decide (Some n = self_container cfg) then h_with_own c g else g)
      | _ => g
      end
  | ListContainers => λ r, match r with Ok l => h_see_listed l g | Err _ => g end
  | StartContainer id => λ _, h_with_stopped (other_ids id (h_stopped g)) g
  | RenameContainer id n => λ r,
      match r with
      | Ok _ => h_with_names (<[id := n]> (other_names id (h_names g))) g
      | Err _ => h_with_names (other_names id (h_names g)) g
      end
  | StoreJournal j => λ r, match r with Ok _ => h_with_dur j g | Err _ => h_unsure g end
  | LoadJournal _ => λ r, match r with Ok (Some j) => h_found j g | _ => g end
  | ScanJournals => λ sc, match scan_open sc with Some j => h_found j g | None => g end
  | LoadMachine => λ r,
      match r with Ok (Some m) => h_with_install (m_installation_id m) g | _ => g end
  | TakeLease => λ r, match r with Ok _ => h_taken g | Err _ => g end
  | ReleaseLease => λ _, h_released g
  | _ => λ _, g
  end.

(** ** What the engine, the files and the other process promise

    A platform name, or the successor's, resolves to a container of that name; this process's
    own id, which it may know by a prefix, to its own container, always the same and of one
    image; an id the journal names to that container; the empty name to none, and the successor's name
    never to the old actor's container. A container the engine creates is a new one, and the id of a
    container stands for no other. A container's name
    does not change while this process holds the lease, except as it renames it. The journal a
    process finds once it takes the lease is one the other process left by steps of the same
    machine. *)
Definition actor_name (n : string) : bool := platform_name n || str_eqb n SUCCESSOR_NAME.

Record ho_resolves (g : HWorld) (n : string) (c : Container) : Prop := mkHoResolves {
  rs_some : n ≠ EmptyString;
  rs_self : self_container cfg = Some n → own_id (c_id c) = true ∧
    ∀ c0, h_own g = Some c0 → c_id c = c_id c0 ∧ c_image c = c_image c0;
  rs_name : actor_name n = true → c_name c = n;
  rs_old : old_container (the_step (h_dur g)) = Some n → c_id c = n;
  rs_new : new_container (the_step (h_dur g)) = Some n → designates n (c_id c) = true;
  rs_next : n = SUCCESSOR_NAME → old_container (the_step (h_dur g)) ≠ Some (c_id c) }.

Definition ho_finds (g : HWorld) (j : Journal) : Prop :=
  h_lease g = true → h_known g = false → rtc ho_step (h_dur g) j.

Definition ho_allows {X} (g : HWorld) (e : eff I X) : X → Prop :=
  match e in eff _ X return X → Prop with
  | InspectContainer n => λ r,
      match r with
      | Ok (Some c) => ho_resolves g n c ∧ (∀ m, h_names g !! c_id c = Some m → c_name c = m)
      | _ => True
      end
  | CreateContainer _ => λ r,
      match r with
      | Ok id => ∀ o, old_container (the_step (h_dur g)) = Some o → designates id o = false
      | Err _ => True
      end
  | ListContainers => λ r,
      match r with
      | Ok l => ∀ c o, c ∈ l → old_container (the_step (h_dur g)) = Some o →
                  designates (c_id c) o = true → c_id c = o
      | Err _ => True
      end
  | LoadJournal _ => λ r, match r with Ok (Some j) => ho_finds g j | _ => True end
  | ScanJournals => λ sc, match scan_open sc with Some j => ho_finds g j | None => True end
  | LoadMachine => λ r,
      match r, h_install g with Ok (Some m), Some i => m_installation_id m = i | _, _ => True end
  | _ => λ _, True
  end.

(** ** When a call may be made *)

(** A component that is being ended as failed. *)
Definition ending (p : Phase) : bool :=
  bool_decide (p ∈ [PhRestoring; PhHandingBack; PhVerified; PhOldDiscarded]).

Definition is_old (s : Step) : Prop := ∃ o, old_container s = Some o ∧ own_id o = true.

(** A successor this attempt created; and one that is neither the old actor nor this process's
    own container. *)
Definition ho_mine (g : HWorld) (s : Step) (id : string) : Prop :=
  id ∈ h_listed g ∨ ∃ n, new_container s = Some n ∧ designates n id = true.
Definition ho_owned (g : HWorld) (s : Step) (id : string) : Prop :=
  own_id id = false ∧ old_container s ≠ Some id ∧ ho_mine g s id.

(** The old actor's container goes only once the successor verified, or, when it is left over,
    stopped. A successor goes while nothing was handed over, or once the hand-over is taken
    back; a running one only by the old actor's hand. Anything else is a leftover under the
    successor's or the kept name. *)
Definition ho_may_remove (g : HWorld) (s : Step) (id : string) : Prop :=
  (old_container s = Some id ∧ own_id id = false ∧
     (st_phase s = PhOldDiscarded ∨ ending (st_phase s) = true ∧ id ∈ h_stopped g))
  ∨ (ho_owned g s id ∧
     (touched_old (st_phase s) = false
      ∨ ending (st_phase s) = true ∧ (is_old s ∨ id ∈ h_stopped g)))
  ∨ (st_phase s = PhCreatingSuccessor ∧ own_id id = false ∧ old_container s ≠ Some id ∧
     h_names g !! id = Some SUCCESSOR_NAME)
  ∨ (st_phase s = PhSuccessorActive ∧ old_container s ≠ Some id ∧
     h_names g !! id = Some (kept_name NAME_RECOVERY_ACTOR)).

Definition ho_may_rename (g : HWorld) (s : Step) (id n : string) : Prop :=
  (old_container s = Some id ∧
     (st_phase s = PhSuccessorActive ∧ n = kept_name NAME_RECOVERY_ACTOR
      ∨ st_phase s = PhRestoring ∧ n = NAME_RECOVERY_ACTOR))
  ∨ (self_container cfg = Some id ∧
     ((st_phase s = PhSuccessorRenaming ∨ ending (st_phase s) = true) ∧ n = NAME_RECOVERY_ACTOR
      ∨ st_phase s = PhRestoring ∧ n = SUCCESSOR_NAME))
  ∨ (ho_owned g s id ∧ ending (st_phase s) = true ∧ n = SUCCESSOR_NAME).

(** The successor goes up, or the old actor back up, or, once it verified, its successor. *)
Definition ho_may_start (g : HWorld) (s : Step) (id : string) : Prop :=
  (ho_mine g s id ∧ st_phase s = PhStartingSuccessor)
  ∨ (old_container s = Some id ∧ st_phase s = PhHandingBack)
  ∨ (ho_mine g s id ∧ is_old s ∧ (st_phase s = PhVerified ∨ st_phase s = PhOldDiscarded)).

Definition ho_may_policy (g : HWorld) (s : Step) (id : string) (p : RestartPolicy) : Prop :=
  (old_container s = Some id ∧ (st_phase s = PhSuccessorActive ∧ p = RestartNo
     ∨ st_phase s = PhRestoring ∨ st_phase s = PhHandingBack ∧ p = UnlessStopped))
  ∨ (ho_mine g s id ∧ is_old s ∧ (st_phase s = PhVerified ∨ st_phase s = PhOldDiscarded)
     ∧ p = UnlessStopped)
  ∨ (self_container cfg = Some id ∧ ending (st_phase s) = true).

(** An outcome that says [restored]: this process is the old actor, or runs its image, and its
    own container has the actor's name. *)
Definition put_back (g : HWorld) (s : Step) : Prop :=
  (is_old s ∨ ∃ c d, h_own g = Some c ∧ old_digest s = Some d ∧
     snd <$> split_once "@" (c_image c) = Some d) ∧
  ∃ id, own_id id = true ∧ h_names g !! id = Some NAME_RECOVERY_ACTOR.

(** The machine is this process's, and the journal the one on disk. *)
Definition holds (g : HWorld) (P : Step → Prop) : Prop :=
  h_lease g = true ∧ h_known g = true ∧ P (the_step (h_dur g)).

Definition ho_requires {X} (g : HWorld) (e : eff I X) : Prop :=
  match e with
  | CreateContainer spec =>
      holds g (λ s, st_phase s = PhCreatingSuccessor ∧ cs_name spec = SUCCESSOR_NAME ∧
        ∃ sp, st_spec s = Some sp ∧
          spec = spec_add_label LABEL_ATTEMPT (request_id (j_request (h_dur g))) (spec_with_name SUCCESSOR_NAME sp))
  | StartContainer id => holds g (λ s, ho_may_start g s id)
  | StopContainer id _ => holds g (λ s, old_container s = Some id ∧ own_id id = false ∧ st_phase s = PhSuccessorActive)
  | SetRestartPolicy id p => holds g (λ s, ho_may_policy g s id p)
  | RenameContainer id n => holds g (λ s, ho_may_rename g s id n)
  | RemoveContainer id => holds g (λ s, ho_may_remove g s id)
  | StoreJournal j =>
      holds g (λ s, ho_step (h_dur g) j ∧
        (is_open j = false → res_restored (j_result j) = true → put_back g s))
  | StoreService r =>
      holds g (λ s, st_phase s = PhVerified ∧ ¬ is_old s ∧ sr_role r = RecoveryActor ∧
        sr_image r = st_image s ∧ st_spec s = Some (sr_spec r))
  | StoreSeed f =>
      holds g (λ s, st_phase s = PhOldDiscarded ∧ ¬ is_old s ∧ sf_image f = st_image s ∧
        sf_state f = SeedActive ∧ h_install g = Some (sf_installation_id f))
  | StoreFloor _ | StorePoint _ | ClearPoint | DumpRemove _ | DumpRemovePartials | DumpNow _ _ _ _ _ _ _
  | StoreHold _ | ClearHold | StoreDump _ | PrepareDumps | CompleteDump _ _ | RemovePartial _ | PruneDumps _ _ | DeliverSecrets _ _ _ | EnsureControlMachine _
  | DriveHandover _ _ | RunRestore _ | InterruptRestore _ | YieldAttempt _ _ => False
  | _ => True
  end.

Definition hwatch : Monitor I HWorld :=
  mkMonitor I HWorld (λ X g e, ho_requires g e) (λ X g e, ho_allows g e) (λ X g e, ho_advance g e).
End spec.
