(* ===== verification/HandoverRules.v ===== *)
(** * Rules for the hand-over's procedures

    Frames and proof rules against [hwatch], as [ReplaceRules] has them against [watch]; the
    component being handed over ([at_ho]); the journal's steps; and what a look at a container,
    the list of the attempt's containers and [party_of] establish. *)
From S2P Require Import Prelude Platform Wire Journal Settle Effects Replace ReplaceSpec Handover HandoverSpec.

(** ** Frames *)

(** What a call keeps of the history while the lease is held, the journal is known and none is
    stored. *)
Record hframe (g g' : HWorld) : Prop := mkHFrame {
  hf_dur : h_known g = true → h_dur g' = h_dur g;
  hf_known : h_known g = true → h_known g' = true;
  hf_lease : h_lease g' = h_lease g;
  hf_stopped : h_stopped g ⊆ h_stopped g';
  hf_listed : h_listed g ⊆ h_listed g';
  hf_own : ∀ c, h_own g = Some c → ∃ c', h_own g' = Some c' ∧ c_id c' = c_id c ∧ c_image c' = c_image c;
  hf_install : ∀ i, h_install g = Some i → h_install g' = Some i }.

#[global] Instance hframe_preorder : PreOrder hframe.
Proof.
  split.
  - intros g. split; try done. eauto.
  - intros g1 g2 g3 [Hd1 Hk1 ? ? ? Ho1 Hi1] [Hd2 Hk2 ? ? ? Ho2 Hi2].
    split; [intros; rewrite Hd2; auto|auto|congruence|set_solver|set_solver| |by auto].
    intros c H. destruct (Ho1 c H) as (c1 & H1 & E1 & F1). destruct (Ho2 c1 H1) as (c2 & ? & ? & ?).
    exists c2. split_and!; congruence.
Qed.

(** A procedure's end: the frame, and what it establishes when it succeeds. *)
Definition hfr {X} (g : HWorld) (_ : X) (g' : HWorld) : Prop := hframe g g'.
Definition hP {A E} (P : A → HWorld → Prop) (g : HWorld) (r : result A E) (g' : HWorld) : Prop :=
  hframe g g' ∧ match r with Ok a => P a g' | Err _ => True end.

(** Calls that change nothing but what is seen of containers. *)
Definition hkeeps {I X} (e : eff I X) : bool :=
  match e with
  | StartContainer _ | StoreJournal _ | LoadJournal _ | TakeLease | ReleaseLease => false
  | _ => true
  end.

(** Of them, the ones anybody may make. *)
Definition hquiet {I X} (e : eff I X) : bool :=
  match e with
  | CreateContainer _ | StartContainer _ | StopContainer _ _ | SetRestartPolicy _ _
  | RenameContainer _ _ | RemoveContainer _ | StoreJournal _ | StoreService _ | StoreSeed _
  | LoadJournal _ | TakeLease | ReleaseLease
  | StoreFloor _ | StorePoint _ | ClearPoint | DumpRemove _ | DumpRemovePartials | DumpNow _ _ _ _ _ _ _
  | StoreHold _ | ClearHold | StoreDump _ | PrepareDumps | CompleteDump _ _ | RemovePartial _ | PruneDumps _ _ | DeliverSecrets _ _ _ | EnsureControlMachine _
  | DriveHandover _ _ | RunRestore _ | InterruptRestore _ | YieldAttempt _ _ => false
  | _ => true
  end.

Lemma hquiet_keeps {I X} (e : eff I X) : hquiet e = true → hkeeps e = true.
Proof. by destruct e. Qed.

Lemma h_see_frame c g : hframe g (h_see c g).
Proof. unfold h_see. split; simpl; destruct (c_running c); simpl; try done; eauto; set_solver. Qed.

Lemma h_see_dur c g : h_dur (h_see c g) = h_dur g.
Proof. unfold h_see. by destruct (c_running c). Qed.

Lemma h_see_own c g : h_own (h_see c g) = h_own g.
Proof. unfold h_see. by destruct (c_running c). Qed.

Lemma h_see_all_frame l g : hframe g (foldr h_see g l).
Proof.
  induction l as [|c l IH]; simpl; [done|]. etransitivity; [exact IH|]. apply h_see_frame.
Qed.

Lemma h_found_frame j g : hframe g (h_found j g).
Proof.
  unfold h_found. destruct (h_lease g), (h_known g) eqn:E; simpl; try done.
  split; simpl; rewrite ?E; try done; eauto.
Qed.

Section rules.
Context {I : Type} `{!ReplaceDeps I} {cfg : Config}.
Implicit Types (g : HWorld) (j : Journal) (s : Step).

Local Abbreviation M := (hwatch (I:=I) cfg).
Local Abbreviation WP p g Q := (wp M True p g Q).

Lemma hkeeps_frame {X} g (e : eff I X) x :
  hkeeps e = true → ho_allows cfg g e x → hframe g (ho_advance cfg g e x).
Proof.
  destruct e; simpl; try done; intros _ Ha; repeat first [case_bool_decide|case_match];
    try done; try apply h_found_frame; try (by (split; simpl; try done; eauto)).
  - (* a look *)
    subst. destruct Ha as [Hr _]. etransitivity; [|apply h_see_frame]. split; simpl; try done.
    intros c0 Hc. destruct (rs_self _ _ _ _ Hr) as [_ H0]; [done|]. specialize (H0 c0 Hc). eauto.
  - apply h_see_frame.
  - (* a list *)
    unfold h_see_listed. destruct (h_see_all_frame a g). split; simpl; try done; auto. set_solver.
  - (* the machine *)
    split; simpl; try done; eauto. intros i Hi. by simplify_eq.
  - split; simpl; try done; eauto. intros i Hi. by simplify_eq.
Qed.

Lemma hquiet_requires {X} g (e : eff I X) : hquiet e = true → ho_requires cfg g e.
Proof. by destruct e. Qed.

(** ** Rules *)

Lemma h_call {X} (e : eff I X) g (Q : X → HWorld → Prop) :
  hquiet e = true →
  (∀ x, ho_allows cfg g e x → hframe g (ho_advance cfg g e x) → Q x (ho_advance cfg g e x)) →
  WP (call e) g Q.
Proof.
  intros Hq HQ. apply wp_call; [by apply hquiet_requires|]. intros x Hx.
  apply HQ; [done|]. by apply hkeeps_frame, Hx; apply hquiet_keeps.
Qed.

Lemma hfr_call {X} (e : eff I X) g : hquiet e = true → WP (call e) g (hfr g).
Proof. intros Hq. by apply h_call. Qed.

Lemma h_frame {X} (p : prog I X) g g1 : hframe g g1 → WP p g1 (hfr g1) → WP p g1 (hfr g).
Proof. intros Hf H. eapply wp_mono; [exact H|]. intros r g2 H2. red. by etransitivity. Qed.

Lemma h_ret {X} (x : X) g g1 : hframe g g1 → WP (Ret x) g1 (hfr g).
Proof. done. Qed.

Lemma hfr_bind {A B} (p : prog I A) (f : A → prog I B) g :
  WP p g (hfr g) → (∀ a g1, WP (f a) g1 (hfr g1)) → WP (bind p f) g (hfr g).
Proof.
  intros Hp Hf. apply wp_bind. eapply wp_mono; [exact Hp|]. intros a g1 H1. by apply h_frame.
Qed.

Lemma hfr_bind_ok {A B E} (p : prog I (result A E)) (f : A → prog I (result B E)) g :
  WP p g (hfr g) → (∀ a g1, WP (f a) g1 (hfr g1)) → WP (bind_ok p f) g (hfr g).
Proof. intros Hp Hf. apply hfr_bind; [done|]. intros [a|e] g1; [done|]. simpl. red. done. Qed.

Lemma hfr_map_errp {A E F} (f : E → F) (p : prog I (result A E)) g :
  WP p g (hfr g) → WP (map_errp f p) g (hfr g).
Proof. intros Hp. by apply wp_map_errp. Qed.

Lemma h_bind {A B} (p : prog I A) (f : A → prog I B) g Q :
  WP p g (hfr g) → (∀ a g1, hframe g g1 → WP (f a) g1 Q) → WP (bind p f) g Q.
Proof. intros Hp Hf. apply wp_bind. eapply wp_mono; [exact Hp|]. intros a g1. by apply Hf. Qed.

Lemma hP_hfr {A E} (P : A → HWorld → Prop) (p : prog I (result A E)) g :
  WP p g (hP P g) → WP p g (hfr g).
Proof. intros H. eapply wp_mono; [exact H|]. by intros r g' [? _]. Qed.

Lemma hP_frame {A E} (P : A → HWorld → Prop) (p : prog I (result A E)) g g1 :
  hframe g g1 → WP p g1 (hP P g1) → WP p g1 (hP P g).
Proof.
  intros Hf H. eapply wp_mono; [exact H|]. intros r g2 [H1 H2]. split; [by etransitivity|done].
Qed.

Lemma hP_bind {A B E} (P : B → HWorld → Prop) (p : prog I A) (f : A → prog I (result B E)) g :
  WP p g (hfr g) → (∀ a g1, hframe g g1 → WP (f a) g1 (hP P g1)) → WP (bind p f) g (hP P g).
Proof. intros Hp Hf. apply h_bind; [done|]. intros a g1 H1. apply hP_frame; [done|]. by apply Hf. Qed.

Lemma hP_bind_ok {A B E} (R : A → HWorld → Prop) (P : B → HWorld → Prop)
    (p : prog I (result A E)) (f : A → prog I (result B E)) g :
  WP p g (hP R g) → (∀ a g1, R a g1 → hframe g g1 → WP (f a) g1 (hP P g1)) →
  WP (bind_ok p f) g (hP P g).
Proof.
  intros Hp Hf. apply wp_bind_ok. eapply wp_mono; [exact Hp|]. intros [a|e] g1 [H1 H2].
  - apply hP_frame; [done|]. by apply Hf.
  - by split.
Qed.

Lemma hP_skip {A B E} (P : B → HWorld → Prop) (p : prog I (result A E)) (f : A → prog I (result B E)) g :
  WP p g (hfr g) → (∀ a g1, hframe g g1 → WP (f a) g1 (hP P g1)) → WP (bind_ok p f) g (hP P g).
Proof.
  intros Hp Hf. apply (hP_bind_ok (λ _ _, True)); [|by intros; apply Hf].
  eapply wp_mono; [exact Hp|]. intros r g1 H. split; [done|]. by destruct r.
Qed.

Lemma hP_map_errp {A E F} (P : A → HWorld → Prop) (f : E → F) (p : prog I (result A E)) g :
  WP p g (hP P g) → WP (map_errp f p) g (hP P g).
Proof.
  intros Hp. apply wp_map_errp. eapply wp_mono; [exact Hp|]. by intros [a|e] g1.
Qed.

Lemma hP_ret {A E} (P : A → HWorld → Prop) g (r : result A E) :
  match r with Ok a => P a g | Err _ => True end → WP (Ret r) g (hP P g).
Proof. by split. Qed.

(** A retried call: [R] holds when it is made, whatever failures went before, and when it
    failed for good. *)
Lemma h_retry {A} (e : eff I (result A EngineError)) g (R : HWorld → Prop) (P : A → HWorld → Prop) :
  hkeeps e = true → R g → (∀ g1, hframe g g1 → R g1 → ho_requires cfg g1 e) →
  (∀ g1 er, R g1 → R (ho_advance cfg g1 e (Err er))) →
  (∀ g1 a, hframe g g1 → R g1 → ho_allows cfg g1 e (Ok a) → P a (ho_advance cfg g1 e (Ok a))) →
  WP (retrying cfg (call e)) g (λ r g', hframe g g' ∧ match r with Ok a => P a g' | Err _ => R g' end).
Proof.
  intros Hk HR Hreq Herr Hok.
  assert (∀ n k g1, hframe g g1 → R g1 → WP (retry_loop cfg n k (call e)) g1
    (λ r g', hframe g g' ∧ match r with Ok a => P a g' | Err _ => R g' end)) as H; [|by apply H].
  induction n as [|n IH]; intros k g1 Hf H1; cbn [retry_loop]; apply wp_bind;
    (apply wp_call; [by apply Hreq|]; intros r Ha;
     assert (hframe g (ho_advance cfg g1 e r)) as Hf2 by (etransitivity; [exact Hf|by apply hkeeps_frame]);
     change (advance_ghost M g1 e r) with (ho_advance cfg g1 e r)).
  - destruct r as [a|er]; (split; [done|]); [by apply Hok|by apply Herr].
  - destruct r as [a|er]; [split; [done|by apply Hok]|].
    destruct (is_transient er); [|split; [done|by apply Herr]].
    apply wp_bind, h_call; [done|]. intros x _ _. by apply IH; [|apply Herr].
Qed.

Lemma h_ask {A} (e : eff I (result A EngineError)) g (R : HWorld → Prop) (P : A → HWorld → Prop) :
  hkeeps e = true → R g → (∀ g1, hframe g g1 → R g1 → ho_requires cfg g1 e) →
  (∀ g1 er, R g1 → R (ho_advance cfg g1 e (Err er))) →
  (∀ g1 a, hframe g g1 → R g1 → ho_allows cfg g1 e (Ok a) → P a (ho_advance cfg g1 e (Ok a))) →
  WP (retrying cfg (call e)) g (hP P g).
Proof.
  intros Hk HR Hreq Herr Hok. eapply wp_mono; [by eapply (h_retry e g R P)|].
  intros [a|er] g1 [H1 H2]; by split.
Qed.

Lemma h_act {A} (e : eff I (result A EngineError)) g :
  hkeeps e = true → (∀ g1, hframe g g1 → ho_requires cfg g1 e) →
  WP (retrying cfg (call e)) g (hfr g).
Proof.
  intros Hk Hr. eapply (hP_hfr (λ _ _, True)). by apply (h_ask e g (λ _, True)); auto.
Qed.

Lemma hfr_ask {A} (e : eff I (result A EngineError)) g :
  hquiet e = true → WP (retrying cfg (call e)) g (hfr g).
Proof. intros Hq. apply h_act; [by apply hquiet_keeps|]. intros. by apply hquiet_requires. Qed.

(** A retried quiet call and what its last answer establishes. *)
Lemma hP_ask {A} (e : eff I (result A EngineError)) g (P : A → HWorld → Prop) :
  hquiet e = true →
  (∀ g1 a, hframe g g1 → ho_allows cfg g1 e (Ok a) → P a (ho_advance cfg g1 e (Ok a))) →
  WP (retrying cfg (call e)) g (hP P g).
Proof.
  intros Hq HP. apply (h_ask e g (λ _, True)); try done; [by apply hquiet_keeps| |by intros; apply HP].
  intros. by apply hquiet_requires.
Qed.

(** ** Looks *)

(** What a look at [n] answered is what is known of it. *)
Definition looked (n : string) (o : option Container) (g : HWorld) : Prop :=
  ∀ c, o = Some c → ho_resolves cfg g n c ∧ h_names g !! c_id c = Some (c_name c) ∧
    (c_running c = false → c_id c ∈ h_stopped g) ∧
    (self_container cfg = Some n → h_own g = Some c).

Lemma looked_advance n g c :
  ho_resolves cfg g n c → ho_allows cfg g (InspectContainer (I:=I) n) (Ok (Some c)) →
  looked n (Some c) (ho_advance cfg g (InspectContainer (I:=I) n) (Ok (Some c))).
Proof.
  intros Hr _ c' [= <-]. cbn [ho_advance].
  set (g' := if bool_decide _ then _ else _).
  assert (h_dur g' = h_dur g) as Hd by (unfold g'; by case_match).
  assert (self_container cfg = Some n → h_own g' = Some c) as Ho.
  { intros E. unfold g'. by rewrite bool_decide_eq_true_2. }
  split_and!.
  - destruct Hr as [H1 H2 H3 H4 H5 H6].
    split; [done| |done|by rewrite h_see_dur, Hd..].
    intros E. split; [by apply H2|]. intros c0. rewrite h_see_own, Ho by done. by intros [= <-].
  - simpl. by rewrite lookup_insert_eq.
  - intros E. unfold h_see. rewrite E. simpl. set_solver.
  - rewrite h_see_own. exact Ho.
Qed.

Lemma look_ask n g : WP (retrying cfg (call (InspectContainer n))) g (hP (looked n) g).
Proof.
  apply hP_ask; [done|]. intros g1 [c|] _ Ha; [|by intros c]. apply looked_advance; [apply Ha|done].
Qed.

Lemma look_call n g : WP (call (InspectContainer n)) g (hP (looked n) g).
Proof.
  apply h_call; [done|]. intros [[c|]|e] Ha Hf; split; try done.
  apply looked_advance; [apply Ha|done].
Qed.
End rules.

(** The rules applied in turn, for a procedure of quiet calls. *)
Ltac h_step :=
  match goal with
  | |- wp _ _ (retrying _ (call _)) _ (hfr _) => apply hfr_ask; reflexivity
  | |- wp _ _ (call _) _ (hfr _) => apply hfr_call; reflexivity
  | |- wp _ _ (Ret _) _ (hfr _) => exact (reflexivity _)
  | |- wp _ _ Spin _ _ => exact Logic.I
  | |- wp _ _ (map_errp _ _) _ (hfr _) => apply hfr_map_errp
  | |- wp _ _ (bind_ok _ _) _ (hfr _) => apply hfr_bind_ok; [|intros ? ?]
  | |- wp _ _ (bind _ _) _ (hfr _) => apply hfr_bind; [|intros ? ?]
  | |- wp _ _ (let _ := _ in _) _ _ => cbv zeta
  | |- wp _ _ (match ?x with _ => _ end) _ _ => destruct x
  end.
