(* ===== verification/HandoverProofs.v ===== *)
(** * The phases of a hand-over

    Each procedure of [Handover] against [hwatch]: the calls it makes are ones it may make, and
    what it establishes. *)
From S2P Require Import Prelude Platform Wire Journal Settle Effects Replace ReplaceSpec Handover HandoverSpec HandoverRules.

(** ** Container ids *)

Lemma starts_with_app p s : starts_with p s = true ↔ ∃ r, s = p +:+ r.
Proof.
  unfold starts_with. revert s. induction p as [|a p IH]; intros s; simpl.
  - split; [intros _; by exists s|by destruct s].
  - destruct s as [|b s]; simpl; [split; [done|by intros [r ?]]|].
    destruct (ascii_dec a b) as [->|Hne].
    + rewrite IH. split; intros [r Hr]; exists r; [by rewrite Hr|by simplify_eq].
    + split; [done|]. intros [r ?]. by simplify_eq.
Qed.

Lemma starts_with_linear p q s :
  starts_with p s = true → starts_with q s = true → starts_with p q = true ∨ starts_with q p = true.
Proof.
  rewrite !starts_with_app. intros [r ->]. revert q. induction p as [|a p IH]; intros q [r' Hq].
  - left. by exists q.
  - destruct q as [|b q]; [right; by exists (String a p)|]. simplify_eq/=.
    destruct (IH q) as [[x Hx]|[x Hx]]; [by exists r'|left|right]; exists x; by rewrite Hx.
Qed.

Lemma starts_with_trans p q s : starts_with p q = true → starts_with q s = true → starts_with p s = true.
Proof.
  rewrite !starts_with_app. intros [x ->] [y ->]. exists (x +:+ y). by rewrite sapp_assoc.
Qed.

Lemma same_container_refl id : same_container id id = true.
Proof. unfold same_container. by rewrite str_eqb_refl. Qed.

Lemma starts_with_len p s : starts_with p s = true → (slen p <= slen s)%nat.
Proof. rewrite starts_with_app. intros [r ->]. rewrite slen_app. lia. Qed.

(** An id that stands for this process's own container is its own. *)
Lemma designates_same me n id :
  designates n id = true → same_container me id = true → same_container me n = true.
Proof.
  unfold designates, same_container. rewrite !orb_true_iff, !andb_true_iff, !Nat.leb_le, !str_eqb_true.
  intros [->|[Hl Hp]]; [done|]. intros [->|[Hm [Hs|Hs]%orb_true_iff]].
  - right. split; [pose proof (starts_with_len _ _ Hp); lia|]. apply orb_true_iff. by left.
  - right. split; [pose proof (starts_with_len _ _ Hs); pose proof (starts_with_len _ _ Hp); lia|].
    apply orb_true_iff. left. by eapply starts_with_trans.
  - right. split; [lia|]. apply orb_true_iff.
    destruct (starts_with_linear _ _ _ Hp Hs); auto.
Qed.

Lemma designates_trans a b c : designates a b = true → designates b c = true → designates a c = true.
Proof.
  unfold designates. rewrite !orb_true_iff, !andb_true_iff, !Nat.leb_le, !str_eqb_true.
  intros [->|[H1 H2]] [->|[H3 H4]]; auto. right. split; [done|]. by eapply starts_with_trans.
Qed.

Lemma designates_is_same n id : designates n id = true → same_container n id = true.
Proof.
  unfold designates, same_container. rewrite !orb_true_iff, !andb_true_iff, !Nat.leb_le.
  intros [|[Hl Hp]]; [by left|right]. pose proof (starts_with_len _ _ Hp). split; [lia|].
  apply orb_true_iff. by right.
Qed.

Lemma designates_refl n : designates n n = true.
Proof. unfold designates. by rewrite str_eqb_refl. Qed.

Lemma fn_not_old s id : (∀ o, old_container s = Some o → designates id o = false) → old_container s ≠ Some id.
Proof. intros H E. specialize (H _ E). by rewrite designates_refl in H. Qed.

(** ** The journal *)

Lemma role_actor s : is_actor s = true → role_parse (st_name s) = Some RecoveryActor.
Proof. unfold is_actor. rewrite str_eqb_true. intros ->. reflexivity. Qed.

(** This process holds the machine, and the component is at [s] on disk. *)
Record at_ho (g : HWorld) (j : Journal) (s : Step) : Prop := mkAtHo {
  ah_lease : h_lease g = true;
  ah_known : h_known g = true;
  ah_dur : h_dur g = j;
  ah_open : is_open j = true;
  ah_steps : j_steps j = [s];
  ah_actor : is_actor s = true;
  ah_mig : migrating s = false;
  ah_wf : ho_wf s;
  ah_restore : j_restore j = None }.

Lemma at_frame g g' j s : hframe g g' → at_ho g j s → at_ho g' j s.
Proof. intros [Hd Hk ? ? ? ? ?] []. split; try done; [congruence|by apply Hk|by rewrite Hd]. Qed.

Lemma ho_at_step_at g j s : at_ho g j s → step_at j 0 = s.
Proof. intros H. unfold step_at. by rewrite (ah_steps _ _ _ H). Qed.

Lemma at_role g j s : at_ho g j s → role_of j 0 = RecoveryActor.
Proof. intros H. unfold role_of. rewrite (ho_at_step_at _ _ _ H), role_actor; [done|apply H]. Qed.

Lemma at_holds g j s (P : Step → Prop) : at_ho g j s → P s → holds g P.
Proof.
  intros H HP. split; [apply H|split; [apply H|]]. unfold the_step.
  rewrite (ah_dur _ _ _ H). by rewrite (ho_at_step_at _ _ _ H).
Qed.

Lemma at_current g j s : at_ho g j s → st_phase s ≠ PhDone → current j = Some 0%nat.
Proof.
  intros H Hd. unfold current. rewrite (ah_steps _ _ _ H). simpl. unfold is_done.
  by rewrite bool_decide_eq_false_2.
Qed.

Lemma at_find g j s : at_ho g j s → find_first is_actor (j_steps j) = Some s.
Proof. intros H. rewrite (ah_steps _ _ _ H). simpl. by rewrite (ah_actor _ _ _ H). Qed.

Lemma at_index g j s : at_ho g j s → actor_index j = Some 0%nat.
Proof. intros H. unfold actor_index. rewrite (ah_steps _ _ _ H). simpl. by rewrite (ah_actor _ _ _ H). Qed.

(** An edited journal in memory: the component only. *)
Record ho_edited (j : Journal) (s1 : Step) (j1 : Journal) : Prop := mkHoEdited {
  he_steps : j_steps j1 = [s1];
  he_result : j_result j1 = j_result j;
  he_request : j_request j1 = j_request j;
  he_restore : j_restore j1 = j_restore j }.

Lemma ho_edited_at g j s : at_ho g j s → ho_edited j s j.
Proof. intros H. split; [apply H|done..]. Qed.

Lemma edited_step j s1 j1 f : ho_edited j s1 j1 → ho_edited j (f s1) (update_step 0 f j1).
Proof. intros [H1 H2 H3 H4]. split; simpl; [by rewrite H1|done..]. Qed.

Section phases.
Context {I : Type} `{!ReplaceDeps I} {HD : HandoverDeps} {cfg : Config}.
Implicit Types (g : HWorld) (j : Journal) (s : Step).

Local Abbreviation M := (hwatch (I:=I) cfg).
Local Abbreviation WP p g Q := (wp M True p g Q).
Local Abbreviation own_id := (is_me_id cfg).

Lemma not_old s o : ¬ is_old cfg s → old_container s = Some o → own_id o = false.
Proof. intros Hn Ho. destruct (own_id o) eqn:E; [|done]. destruct Hn. by exists o. Qed.

Lemma own_designates n id : designates n id = true → own_id n = false → own_id id = false.
Proof.
  unfold is_me_id. destruct (self_container cfg) as [me|]; [|done]. intros Hd Hn.
  destruct (same_container me id) eqn:E; [|done]. by rewrite (designates_same _ _ _ Hd E) in Hn.
Qed.

Lemma ho_mine_frame g g' s id : hframe g g' → ho_mine g s id → ho_mine g' s id.
Proof. intros [? ? ? ? Hl ? ?] [Hm|Hm]; [left; set_solver|by right]. Qed.

Lemma ho_owned_frame g g' s id : hframe g g' → ho_owned cfg g s id → ho_owned cfg g' s id.
Proof. intros Hf (? & ? & ?). split_and!; [done|done|]. by eapply ho_mine_frame. Qed.

(** ** Storing the journal *)

Lemma commit_spec g j s s1 j1 :
  at_ho g j s → ho_edited j s1 j1 → is_actor s1 = true → migrating s1 = false → ho_wf s1 →
  (∀ j', j_steps j' = [s1] → is_open j' = true → j_request j' = j_request j →
         j_restore j' = j_restore j → ho_step j j') →
  WP (commit j1) g (λ r g', match r with Ok j' => at_ho g' j' s1 | Err _ => True end).
Proof.
  intros Hat [Hs Hr Hq Hre] Ha Hm Hwf Hstep. unfold commit.
  apply wp_bind, h_call; [done|]. intros k _ _. set (g1 := ho_advance _ _ _ _).
  assert (at_ho g1 j s) as Hat1 by exact Hat. clearbody g1. destruct k; [done|].
  apply wp_bind, h_call; [done|]. intros now _ _. set (g2 := ho_advance _ _ _ _).
  assert (at_ho g2 j s) as Hat2 by exact Hat1. clearbody g2.
  set (j' := set_result (set_updated_at now (j_result (project j1))) (project j1)).
  destruct (project_fields j1) as (Hp1 & Hp2 & Hp3).
  assert (is_open j' = true) as Ho.
  { transitivity (is_open (project j1)); [done|]. rewrite project_is_open. unfold is_open.
    rewrite Hr. apply Hat. }
  assert (j_steps j' = [s1]) as Hs' by (simpl; congruence).
  assert (ho_step j j') as Hst by (apply Hstep; simpl; congruence).
  apply wp_bind, wp_call.
  - apply (at_holds _ j s); [done|]. rewrite (ah_dur _ _ _ Hat2). split; [done|]. by rewrite Ho.
  - intros [|] _; [|done]. split; simpl; try done; try apply Hat2; rewrite Hp3, Hre; apply Hat.
Qed.

Lemma ho_advance_spec g j s s1 j1 p :
  at_ho g j s → ho_edited j s1 j1 → ho_move s (set_phase p s1) →
  WP (advance j1 0 p) g (λ r g', match r with Ok j' => at_ho g' j' (set_phase p s1) | Err _ => True end).
Proof.
  intros Hat Hed Hm. eapply commit_spec; [done|by apply edited_step| | |apply Hm|].
  - unfold is_actor. rewrite (hm_name _ _ Hm). apply Hat.
  - rewrite (hm_migrating _ _ Hm). apply Hat.
  - intros j' Hs Ho Hq Hr. by eapply ho_moved; [apply Hat|apply Hat|done|done|..].
Qed.

Lemma ho_finish_spec g j s st reason text restored :
  at_ho g j s →
  (st = StSucceeded ∧ st_phase s = PhDone ∧ restored = false
   ∨ st = StFailed ∧ is_Some reason ∧ may_end (st_phase s) = true ∧
     (restored = true → put_back cfg g s)) →
  WP (finish j st reason text restored) g (λ _ _, True).
Proof.
  intros Hat Hk. unfold finish.
  apply wp_bind, h_call; [done|]. intros k _ _. set (g1 := ho_advance _ _ _ _).
  assert (g1 = g) as -> by done. destruct k; [done|].
  apply wp_bind, h_call; [done|]. intros now _ _. set (g2 := ho_advance _ _ _ _).
  assert (g2 = g) as -> by done. set (j' := finished_journal _ _ _ _ _ _).
  apply wp_bind, wp_call.
  - apply (at_holds _ j s); [done|]. rewrite (ah_dur _ _ _ Hat).
    assert (j_steps j' = finish_steps st [s]) as Hs by (simpl; by rewrite (ah_steps _ _ _ Hat)).
    destruct Hk as [(-> & Hd & ->)|(-> & Hrs & Hme & Hb)].
    + split; [|done]. eapply ho_succeeded; [apply Hat|apply Hat|done| |done..].
      by rewrite Hs, (ah_steps _ _ _ Hat).
    + split; [|intros _; exact Hb]. eapply ho_failed; [apply Hat|apply Hat|done| |done..].
      rewrite Hs. unfold finish_steps, is_done. simpl. rewrite bool_decide_eq_false_2; [done|].
      intros E. by rewrite E in Hme.
  - intros [|] _; [|done]. apply wp_bind, h_call; [done|]. intros _x _ _.
    apply wp_bind, h_call; [done|]. done.
Qed.

(** ** Pulling and checking *)

Lemma hfr_pull_image ref g : WP (pull_image cfg ref) g (hfr g).
Proof. unfold pull_image. repeat h_step. Qed.

Lemma hfr_check_gpu r m im rev g : WP (check_gpu r m im rev) g (hfr g).
Proof. unfold check_gpu. repeat h_step. Qed.

Lemma ho_pull_and_check_spec g j s :
  at_ho g j s →
  WP (pull_and_check cfg j 0) g (hP (λ j' _, ∃ rev spec old,
    j' = update_step 0 (checked_step false rev spec old) j) g).
Proof.
  intros Hat. unfold pull_and_check. rewrite (at_role _ _ _ Hat).
  apply hP_skip; [apply hfr_pull_image|]. intros found g1 _.
  apply hP_skip; [repeat h_step|]. intros rev g2 _.
  apply hP_bind; [by apply hfr_call|]. intros m g3 _.
  apply hP_skip; [repeat h_step|]. intros mach g4 _.
  apply hP_skip; [apply hfr_check_gpu|]. intros mach' g5 _.
  apply hP_skip; [repeat h_step|]. intros sec g6 _.
  apply hP_skip; [repeat h_step|]. intros spec g7 _.
  apply hP_skip; [repeat h_step|]. intros old g8 _.
  apply hP_skip; [repeat h_step|]. intros _u g9 _.
  apply hP_skip; [repeat h_step|]. intros spec' g10 _.
  change (bool_decide (RecoveryActor = ControlPlane)) with false. cbn [bind_ok bind].
  apply hP_ret. eauto.
Qed.

(** ** The attempt's containers *)

Record found_new (s : Step) (c : Container) (g : HWorld) : Prop := mkFoundNew {
  fn_own : own_id (c_id c) = false;
  fn_old : ∀ o, old_container s = Some o → designates (c_id c) o = false;
  fn_mine : ho_mine g s (c_id c);
  fn_stopped : c_running c = false → c_id c ∈ h_stopped g }.

Lemma found_frame g g' s c : hframe g g' → found_new s c g → found_new s c g'.
Proof.
  intros Hf [H1 H2 H3 H4]. split; [done|done|by eapply ho_mine_frame|].
  intros Hr. destruct Hf. by apply hf_stopped, H4.
Qed.

Lemma founds_frame g g' s l : hframe g g' → Forall (λ c, found_new s c g) l → Forall (λ c, found_new s c g') l.
Proof. intros Hf Hl. eapply Forall_impl; [exact Hl|]. intros c. by apply found_frame. Qed.

Lemma founds_filter (f : Container → bool) (P : Container → Prop) l :
  Forall P l → Forall P (List.filter f l).
Proof. rewrite !Forall_forall. intros H x [Hx _]%list_elem_of_In%filter_In. by apply H, list_elem_of_In. Qed.

Lemma see_all_stopped l g c :
  c ∈ l → c_running c = false → c_id c ∈ h_stopped (foldr h_see g l).
Proof.
  intros Hc Hr. induction Hc as [l|c x l Hc IH]; simpl.
  - unfold h_see. rewrite Hr. simpl. set_solver.
  - pose proof (hf_stopped _ _ (h_see_frame x (foldr h_see g l))). auto.
Qed.

Lemma attempt_labelled g j s inst c :
  at_ho g j s → h_install g = Some inst → is_attempt_container cfg j 0 inst c = true →
  h_labelled cfg g c = true ∧ own_id (c_id c) = false ∧ old_container s ≠ Some (c_id c).
Proof.
  intros Hat Hi. unfold is_attempt_container, h_labelled, the_step.
  rewrite Hi, (ah_dur _ _ _ Hat), (ho_at_step_at _ _ _ Hat), (at_role _ _ _ Hat), (ah_steps _ _ _ Hat).
  rewrite !andb_true_iff. intros ((((-> & ->) & ->) & Ho) & Hn).
  fold (own_id (c_id c)) in Hn. rewrite Hn. apply negb_true_iff in Hn.
  apply negb_true_iff, bool_decide_eq_false in Ho.
  assert (old_container s ≠ Some (c_id c)) as Hne by (intros E; apply Ho; simpl; rewrite E; set_solver).
  split_and!; try done. apply negb_true_iff, bool_decide_eq_false. congruence.
Qed.

Lemma ho_attempt_containers_spec g j s :
  at_ho g j s →
  WP (attempt_containers cfg j 0) g (hP (λ l g', Forall (λ c, found_new s c g') l) g).
Proof.
  intros Hat. unfold attempt_containers. apply wp_bind, h_call; [done|].
  intros m _ Hf. destruct m as [[m|]|]; [|by apply hP_ret..].
  apply hP_frame; [done|]. cbn [ho_advance] in *. set (g1 := h_with_install _ g) in *.
  assert (at_ho g1 j s) as Hat1 by (by eapply at_frame).
  assert (h_install g1 = Some (m_installation_id m)) as Hi1 by done. clearbody g1.
  eapply hP_bind_ok with (R := λ l g', Forall (λ c, found_new s c g')
    (List.filter (is_attempt_container cfg j 0 (m_installation_id m)) l)).
  2: { intros l g2 Hl _. by apply hP_ret. }
  apply hP_ask; [done|]. intros g2 l Hf2 Hal. cbn [ho_advance].
  assert (at_ho g2 j s) as Hat2 by (by eapply at_frame).
  apply Forall_forall. intros c [Hc Hl]%list_elem_of_In%filter_In.
  destruct (attempt_labelled _ _ _ _ _ Hat2 (hf_install _ _ Hf2 _ Hi1) Hl) as (Hlab & Hown & Hold).
  split; [done| | |].
  - intros o Ho. destruct (designates (c_id c) o) eqn:E; [|done]. destruct Hold. rewrite Ho. f_equal.
    symmetry. apply (Hal c o); [by apply list_elem_of_In| |done]. unfold the_step.
    by rewrite (ah_dur _ _ _ Hat2), (ho_at_step_at _ _ _ Hat2).
  - left. simpl. apply elem_of_union_r, elem_of_list_to_set, list_elem_of_In, in_map, filter_In.
    by split.
  - intros Hr. simpl. by apply see_all_stopped; [apply list_elem_of_In|].
Qed.

(** ** The party *)

(** What [party_of] tells of the component it is asked for. *)
Record party_ok (s : Step) (p : Party) : Prop := mkPartyOk {
  po_old : p = Old → is_old cfg s;
  po_not : p ≠ Old → ¬ is_old cfg s;
  po_self : p = Successor → is_Some (self_container cfg) }.

Lemma party_of_spec g j s :
  at_ho g j s → WP (party_of (I:=I) cfg j) g (λ p g', hframe g g' ∧ party_ok s p).
Proof.
  intros Hat. unfold party_of. rewrite (at_find _ _ _ Hat).
  destruct (self_container cfg) as [me|] eqn:Hme.
  2: { split; [done|]. split; [done| |done]. intros _ (o & _ & Ho). unfold is_me_id in Ho. by rewrite Hme in Ho. }
  assert (∀ o, own_id o = same_container me o) as Hown by (intros o; unfold is_me_id; by rewrite Hme).
  destruct (match old_container s with Some o => same_container me o | None => false end) eqn:Hold.
  { split; [done|]. split; try done. intros _. destruct (old_container s) as [o|] eqn:Eo; [|done].
    exists o. by rewrite Hown. }
  assert (¬ is_old cfg s) as Hnot.
  { intros (o & Ho & Hs). by rewrite Hown in Hs; rewrite Ho, Hs in Hold. }
  assert (∀ p, p ≠ Old → party_ok s p) as Hok by (intros p Hp; split; [done|done|]; by rewrite Hme).
  destruct (match new_container s with Some o => _ | None => false end); [by split; [|apply Hok]|].
  apply wp_bind, h_call; [done|]. intros r Ha Hf. split; [done|]. apply Hok. by repeat case_match.
Qed.

(** ** The old actor's phases *)

Lemma at_resolves g j s n c :
  at_ho g j s → ho_resolves cfg g n c →
  (old_container s = Some n → c_id c = n) ∧ (new_container s = Some n → designates n (c_id c) = true).
Proof.
  intros Hat [_ _ _ H1 H2]. unfold the_step in *.
  rewrite (ah_dur _ _ _ Hat), (ho_at_step_at _ _ _ Hat) in *. by split.
Qed.

Lemma scan_names g sc : h_names (ho_advance (I:=I) cfg g ScanJournals sc) = h_names g.
Proof. simpl. unfold h_found. by repeat case_match. Qed.

Lemma remove_leftover_spec g j s c :
  at_ho g j s → st_phase s = PhCreatingSuccessor → looked (cfg:=cfg) SUCCESSOR_NAME (Some c) g →
  WP (remove_leftover_successor cfg c) g (hfr g).
Proof.
  intros Hat Hp Hl. destruct (Hl c eq_refl) as (Hr & Hn & _). unfold remove_leftover_successor.
  apply wp_bind, h_call; [done|]. intros m _ Hf1. set (g1 := ho_advance _ _ _ _) in *.
  assert (h_names g1 = h_names g) as Hn1 by (by destruct m as [[]|]). clearbody g1.
  destruct (match m with Ok (Some _) => _ | _ => false end) eqn:Eo; cbn [negb]; [|exact Hf1].
  assert (own_id (c_id c) = false) as Hown.
  { destruct m as [[m|]|]; [|done..]. apply andb_true_iff in Eo as [_ Eo]. by apply negb_true_iff. }
  rewrite (rs_name _ _ _ _ Hr eq_refl) in Hn.
  assert (old_container s ≠ Some (c_id c)) as Hne.
  { pose proof (rs_next _ _ _ _ Hr eq_refl) as Hx. unfold the_step in Hx.
    by rewrite (ah_dur _ _ _ Hat), (ho_at_step_at _ _ _ Hat) in Hx. }
  apply wp_bind, h_call; [done|]. intros sc _ Hf2. pose proof (scan_names g1 sc) as Hn2.
  set (g2 := ho_advance _ _ _ _) in *. clearbody g2. assert (hframe g g2) as Hf by (by etransitivity).
  destruct (sc_unreadable sc); [|exact Hf]. apply h_frame; [done|]. apply hfr_map_errp.
  eapply (hP_hfr (λ _ _, True)), (h_ask _ _ (λ g3, h_names g3 !! c_id c = Some SUCCESSOR_NAME)); try done.
  - by rewrite Hn2, Hn1.
  - intros g3 Hf3 Hn3. apply (at_holds _ j s); [by do 2 (eapply at_frame; [done|])|]. right; right; left. done.
Qed.

Lemma create_successor_spec g j s :
  at_ho g j s → st_phase s = PhCreatingSuccessor →
  WP (create_successor cfg j 0) g (hP (λ j' _, ∃ id, j' = update_step 0 (set_new_container (Some id)) j ∧
    ∀ o, old_container s = Some o → designates id o = false) g).
Proof.
  intros Hat Hp. unfold create_successor. rewrite (ho_at_step_at _ _ _ Hat).
  eapply hP_bind_ok; [by apply hP_map_errp, ho_attempt_containers_spec|]. intros mine g1 Hm Hf1. simpl in Hm.
  destruct mine as [|c mine].
  2: { apply Forall_cons in Hm as [[? ? ? ?] _]. apply hP_ret. eauto. }
  assert (at_ho g1 j s) as Hat1 by (by eapply at_frame).
  eapply hP_bind_ok; [apply hP_map_errp, look_ask|]. intros holder g2 Hh Hf2.
  assert (at_ho g2 j s) as Hat2 by (by eapply at_frame).
  apply hP_skip; [destruct holder; [by eapply remove_leftover_spec|h_step]|]. intros _u g3 Hf3.
  assert (at_ho g3 j s) as Hat3 by (by eapply at_frame).
  eapply hP_bind_ok with (R := λ sp _, st_spec s = Some sp); [apply hP_ret; by destruct (st_spec s)|].
  intros sp g3' Esp Hf3'. assert (at_ho g3' j s) as Hat3' by (by eapply at_frame).
  eapply hP_bind_ok; [|intros id g4 Hid _; apply hP_ret; exists id; split; [done|exact Hid]].
  apply hP_map_errp, (h_ask _ _ (λ _, True)); [done|done| |done|].
  - intros g4 Hf4 _. assert (at_ho g4 j s) as Hat4 by (by eapply at_frame).
    apply (at_holds _ j s); [done|]. split_and!; [done|done|]. rewrite (ah_dur _ _ _ Hat4). eauto.
  - intros g4 id Hf4 _ Ha. assert (at_ho g4 j s) as Hat4 by (by eapply at_frame). simpl in Ha.
    unfold the_step in Ha. rewrite (ah_dur _ _ _ Hat4), (ho_at_step_at _ _ _ Hat4) in Ha. exact Ha.
Qed.

Lemma successor_spec g j s :
  at_ho g j s →
  WP (successor cfg j 0) g (hP (λ o g', ∀ c, o = Some c → ho_mine g' s (c_id c)) g).
Proof.
  intros Hat. unfold successor. rewrite (ho_at_step_at _ _ _ Hat).
  assert (∀ g1, hframe g g1 → WP (do? found <- map_errp (hengine "list containers")
             (attempt_containers cfg j 0); Ret (Ok (head found))) g1
          (hP (λ o g', ∀ c, o = Some c → ho_mine g' s (c_id c)) g1)) as Hby.
  { intros g1 Hf1. eapply hP_bind_ok; [by apply hP_map_errp, ho_attempt_containers_spec; eapply at_frame|].
    intros l g2 Hl _. simpl in Hl. apply hP_ret. intros c Hc. destruct l as [|c' l]; simplify_eq/=.
    by inversion Hl as [|? ? [? ? ? ?]]. }
  destruct (new_container s) as [new|] eqn:En; [|by apply Hby].
  eapply hP_bind_ok; [apply hP_map_errp, look_ask|]. intros o g1 Ho Hf1.
  destruct o as [c|]; [|by apply Hby]. apply hP_ret. intros c' [= <-].
  destruct (Ho c eq_refl) as (Hr & _). right. exists new. split; [done|].
  eapply at_resolves; [by eapply at_frame|done|done].
Qed.

Lemma hfr_successor g j s : at_ho g j s → WP (successor cfg j 0) g (hfr g).
Proof. intros Hat. by eapply hP_hfr, successor_spec. Qed.

(** A start, after which nothing is known to be stopped: the process holds the machine still. *)
Lemma start_spec g j s id (Q : result unit EngineError → HWorld → Prop) :
  at_ho g j s → (∀ g1, at_ho g1 j s → h_listed g ⊆ h_listed g1 → ho_may_start cfg g1 s id) →
  (∀ r g1, at_ho g1 j s → Q r g1) →
  WP (retrying cfg (call (StartContainer id))) g Q.
Proof.
  intros Hat Hm HQ.
  assert (∀ n k g1, at_ho g1 j s → h_listed g ⊆ h_listed g1 →
    WP (retry_loop cfg n k (call (StartContainer id))) g1 Q) as H; [|by apply H].
  induction n as [|n IH]; intros k g1 H1 Hl; cbn [retry_loop]; apply wp_bind, wp_call;
    [eapply at_holds; [done|by apply Hm]| |eapply at_holds; [done|by apply Hm]|];
    intros r _; assert (at_ho (ho_advance cfg g1 (StartContainer (I:=I) id) r) j s) as H2 by (by destruct H1).
  - destruct r; by apply HQ.
  - destruct r as [|e]; [by apply HQ|]. destruct (is_transient e); [|by apply HQ].
    apply wp_bind, h_call; [done|]. intros _u _ _. by apply IH.
Qed.

Lemma start_successor_spec g j s :
  at_ho g j s → st_phase s = PhStartingSuccessor →
  WP (start_successor cfg j 0) g (λ _ g', at_ho g' j s).
Proof.
  intros Hat Hp. unfold start_successor. apply wp_bind_ok.
  eapply wp_mono; [by eapply successor_spec|]. intros [o|h] g1 [Hf1 Ho]; [|by eapply at_frame].
  assert (at_ho g1 j s) as Hat1 by (by eapply at_frame).
  destruct o as [c|]; [|exact Hat1]. cbn [ok_or]. apply wp_bind_ok. cbn [wp].
  destruct (c_running c); [exact Hat1|]. apply wp_bind. eapply start_spec; [done| |].
  - intros g2 _ Hl. left. split; [|done]. destruct (Ho c eq_refl); [left; set_solver|by right].
  - intros r g2 H2. exact H2.
Qed.

Lemma await_ready_loop_spec fuel d g j s : at_ho g j s → WP (await_ready_loop cfg fuel d j 0) g (hfr g).
Proof.
  revert g. induction fuel as [|fuel IH]; intros g Hat; cbn [await_ready_loop]; [done|].
  apply h_bind; [by apply hfr_call|]. intros k g1 Hf1. destruct k; [exact Hf1|].
  apply h_bind; [by apply hfr_call|]. intros r g2 Hf2. destruct (match r with Some _ => _ | None => _ end).
  { apply h_ret. by etransitivity. }
  apply h_bind; [by apply hfr_call|]. intros t g3 Hf3.
  assert (hframe g g3) as Hf by (by do 2 (etransitivity; [done|])). apply h_frame; [done|].
  destruct (d <=? t)%Z.
  - apply hfr_bind_ok; [by eapply hfr_successor, at_frame|]. intros. h_step.
  - apply h_bind; [by apply hfr_call|]. intros x g4 Hf4. apply h_frame; [done|]. apply IH.
    by do 2 (eapply at_frame; [done|]).
Qed.

Lemma await_ready_spec fuel g j s : at_ho g j s → WP (await_ready cfg fuel j 0) g (hfr g).
Proof.
  intros Hat. unfold await_ready. apply h_bind; [by apply hfr_call|]. intros t g1 Hf1.
  apply h_frame; [done|]. by eapply await_ready_loop_spec, at_frame.
Qed.

(** ** The successor's phases *)

(** A retried call that tells nothing of names. *)
Lemma act_names {A} (e : eff I (result A EngineError)) g (R : gmap string string → Prop) :
  hkeeps e = true → R (h_names g) → (∀ g1, hframe g g1 → R (h_names g1) → ho_requires cfg g1 e) →
  (∀ g1 r, h_names (ho_advance cfg g1 e r) = h_names g1) →
  WP (retrying cfg (call e)) g (hP (λ _ g', R (h_names g')) g).
Proof.
  intros Hk HR Hr Hn. apply (h_ask e g (λ g1, R (h_names g1))); [done..| |].
  - intros g1 er H. by rewrite Hn.
  - intros g1 a _ H _. by rewrite Hn.
Qed.

Lemma ho_remove_stale_spec g j s old_id oc n0 :
  at_ho g j s → st_phase s = PhSuccessorActive → old_container s = Some old_id →
  h_names g !! old_id = Some n0 → n0 ≠ kept_name NAME_RECOVERY_ACTOR →
  WP (remove_stale cfg (kept_name NAME_RECOVERY_ACTOR) oc) g (hfr g).
Proof.
  intros Hat Hp Ho Hn Hne. set (kept := kept_name NAME_RECOVERY_ACTOR) in *. unfold remove_stale.
  eapply hP_hfr, (hP_bind_ok (λ o g', ∀ c, o = Some c → old_id ≠ c_id c ∧ h_names g' !! c_id c = Some kept)
    (λ _ _, True)).
  { apply hP_map_errp, (h_ask _ _ (λ g1, h_names g1 !! old_id = Some n0)); [done..|exact (λ _ _ _, Logic.I)|done|].
    intros g1 o _ Hn1 Ha c ->. destruct Ha as [Hr Hc].
    pose proof (rs_name _ _ _ _ Hr eq_refl) as Hk. fold kept in Hk.
    cbn [ho_advance]. simpl. rewrite lookup_insert_eq, Hk. split; [|done].
    intros E. rewrite (Hc n0) in Hk by (by rewrite <- E). congruence. }
  intros [c|] g1 Hc Hf1; [|by apply hP_ret]. destruct (Hc c eq_refl) as [Hne' Hn1].
  apply wp_bind, h_call; [done|]. intros sc _ Hf2. pose proof (scan_names g1 sc) as Hn2.
  set (g2 := ho_advance _ _ _ _) in *. clearbody g2. rewrite <- Hn2 in Hn1.
  apply (hP_frame _ _ _ _ Hf2).
  destruct (sc_unreadable sc); [|by apply hP_ret]. destruct (negb _); [by apply hP_ret|].
  apply hP_map_errp.
  eapply (h_ask _ _ (λ g3, h_names g3 !! c_id c = Some kept)); try done.
  intros g3 Hf3 Hn3. apply (at_holds _ j s); [by do 3 (eapply at_frame; [done|])|].
  right; right; right. split_and!; [done|congruence|done].
Qed.

Lemma ho_keep_old_spec g j s :
  at_ho g j s → st_phase s = PhSuccessorActive → ¬ is_old cfg s → WP (keep_old cfg j 0) g (hfr g).
Proof.
  intros Hat Hp Hno. unfold keep_old. rewrite (ho_at_step_at _ _ _ Hat), (at_role _ _ _ Hat).
  change (container_name RecoveryActor) with NAME_RECOVERY_ACTOR. 
  destruct (old_container s) as [id|] eqn:Ho; [|h_step].
  apply (hP_hfr (λ _ _, True)).
  eapply hP_bind_ok; [apply hP_map_errp, look_ask|]. intros [c|] g1 Hl Hf1; [|by apply hP_ret].
  destruct (Hl c eq_refl) as (Hr & Hn & _).
  assert (at_ho g1 j s) as Hat1 by (by eapply at_frame).
  destruct (at_resolves _ _ _ _ _ Hat1 Hr) as [Hid _]. rewrite Hid in Hn by done.
  set (R := λ m : gmap string string, m !! id = Some (c_name c)). change (R (h_names g1)) in Hn.
  eapply (hP_bind_ok (λ _ g', R (h_names g'))).
  { destruct (bool_decide _); [by apply hP_ret|]. apply hP_map_errp, act_names; [done..| |done].
    intros g2 Hf2 _. apply (at_holds _ j s); [by eapply at_frame|]. left. split; [done|]. by left. }
  intros _u g2 Hn2 Hf2. assert (at_ho g2 j s) as Hat2 by (by eapply at_frame).
  eapply (hP_bind_ok (λ _ g', R (h_names g'))).
  { apply hP_map_errp, act_names; [done..| |done].
    intros g3 Hf3 _. apply (at_holds _ j s); [by eapply at_frame|]. split_and!; [done| |done]. by eapply not_old. }
  intros _u' g3 Hn3 Hf3. assert (at_ho g3 j s) as Hat3 by (by eapply at_frame).
  destruct (str_eqb (c_name c) _) eqn:Ek; [by apply hP_ret|]. apply str_eqb_false in Ek.
  apply hP_skip; [by eapply ho_remove_stale_spec|]. intros _v g4 Hf4.
  apply (hP_map_errp (λ _ _, True)). apply (h_ask _ _ (λ _, True)); try done.
  intros g5 Hf5 _. apply (at_holds _ j s); [by do 2 (eapply at_frame; [done|])|]. left. split; [done|]. by left.
Qed.

(** An act whose permission follows from where the component is. *)
Lemma act_at {A} (e : eff I (result A EngineError)) g j s :
  at_ho g j s → hkeeps e = true →
  (∀ g1, hframe g g1 → at_ho g1 j s → ho_requires cfg g1 e) →
  WP (retrying cfg (call e)) g (hfr g).
Proof. intros Hat Hk Hr. apply h_act; [done|]. intros g1 Hf. apply Hr; [done|]. by eapply at_frame. Qed.

Lemma take_actor_name_spec g j s :
  at_ho g j s → st_phase s = PhSuccessorRenaming → WP (take_actor_name cfg) g (hfr g).
Proof.
  intros Hat Hp. unfold take_actor_name.
  destruct (self_container cfg) as [me|] eqn:Hme; [|exact (reflexivity g)].
  change (ok_or (Some me) _) with (@Ok string Halt me). change (bind_ok (Ret (Ok ?a)) ?f) with (f a).
  cbv beta. apply h_bind; [repeat h_step|]. intros [mine|] g1 Hf1; [|exact Hf1].
  destruct mine as [mine|]; [|exact Hf1]. change (bind_ok (Ret (ok_or (Some mine) _)) ?f) with (f mine). cbv beta.
  destruct (str_eqb _ _); [exact Hf1|].
  apply h_bind; [repeat h_step|]. intros [other|] g2 Hf2; [|apply h_ret; by etransitivity].
  destruct other; [apply h_ret; by etransitivity|].
  apply h_frame; [by etransitivity|]. apply hfr_map_errp. eapply act_at; [by do 2 (eapply at_frame; [done|])|done|].
  intros g3 _ H3. apply (at_holds _ j s); [done|]. right; left. split; [done|]. left. split; [by left|done].
Qed.

Lemma hfr_await_contact fuel d id g : WP (await_contact_loop cfg fuel d id) g (hfr g).
Proof.
  revert g. induction fuel as [|fuel IH]; intros g; cbn [await_contact_loop]; [done|].
  repeat (h_step || apply IH).
Qed.

Lemma hfr_verify_successor fuel j g : WP (verify_successor cfg fuel j) g (hfr g).
Proof.
  unfold verify_successor. apply hfr_bind; [h_step|]. intros start g0.
  generalize (start + ho_verify (handover cfg))%Z, 0%Z. clear g. revert g0.
  induction fuel as [|fuel IH]; intros g d o; cbn [verify_successor_loop]; [done|].
  unfold look_successor, await_agent_contact. repeat (h_step || apply IH || apply hfr_await_contact).
Qed.

Lemma ho_record_new_spec g j s :
  at_ho g j s → st_phase s = PhVerified → ¬ is_old cfg s → WP (record_new j 0) g (hfr g).
Proof.
  intros Hat Hp Hno. unfold record_new. rewrite (ho_at_step_at _ _ _ Hat), (at_role _ _ _ Hat).
  destruct (st_revision s); [|h_step]. destruct (st_spec s) eqn:Es; [|h_step].
  apply h_bind; [h_step|]. intros now g1 Hf1. apply h_frame; [done|]. apply hfr_map_errp, wp_call.
  - apply (at_holds _ j s); [by eapply at_frame|]. by split_and!.
  - intros r Ha. by apply hkeeps_frame.
Qed.

Lemma record_verified_spec g j s :
  at_ho g j s → st_phase s = PhOldDiscarded → ¬ is_old cfg s →
  WP (record_verified_actor (st_image s)) g (hfr g).
Proof.
  intros Hat Hp Hno. unfold record_verified_actor.
  apply h_bind; [h_step|]. intros [existing|] g1 Hf1; [|exact Hf1].
  apply wp_bind, h_call; [done|]. intros m _ Hf2. destruct m as [[m|]|]; [|by apply h_ret; etransitivity..].
  cbn [ho_advance] in *. set (g2 := h_with_install _ _) in *.
  assert (h_install g2 = Some (m_installation_id m)) as Hi by done. clearbody g2.
  assert (hframe g g2) as Hf by (by etransitivity). cbv zeta. case_bool_decide as Hst; [|exact Hf].
  apply wp_bind, wp_call.
  - apply (at_holds _ j s); [by eapply at_frame|]. rewrite Hst. by split_and!.
  - intros r Ha. apply h_ret. etransitivity; [done|by apply hkeeps_frame].
Qed.

Lemma discard_old_actor_spec g j s :
  at_ho g j s → st_phase s = PhOldDiscarded → ¬ is_old cfg s → WP (discard_old_actor cfg j 0) g (hfr g).
Proof.
  intros Hat Hp Hno. unfold discard_old_actor, discard_old. rewrite (ho_at_step_at _ _ _ Hat).
  apply h_bind.
  { destruct (old_container s) as [old|] eqn:Ho; [|h_step]. apply h_bind; [|intros; by apply h_ret].
    eapply act_at; [done|done|]. intros g1 _ H1. apply (at_holds _ j s); [done|]. left.
    split_and!; [done|by eapply not_old|by left]. }
  intros [] g1 Hf1; [|exact Hf1]. apply h_bind; [|intros; apply h_ret; by etransitivity].
  by eapply record_verified_spec; [eapply at_frame|..].
Qed.

Lemma hand_back_spec g j s :
  at_ho g j s → st_phase s = PhRestoring → is_Some (self_container cfg) → WP (hand_back cfg j 0) g (hfr g).
Proof.
  intros Hat Hp [me Hme]. unfold hand_back. rewrite (ho_at_step_at _ _ _ Hat), Hme. cbv zeta. cbn [default].
  apply (hP_hfr (λ _ _, True)). eapply hP_bind_ok; [apply hP_map_errp, look_ask|].
  intros [c|] g1 Hl Hf1; [|by apply hP_ret]. destruct (Hl c eq_refl) as (Hr & _).
  assert (at_ho g1 j s) as Hat1 by (by eapply at_frame).
  assert (old_container s = Some (c_id c)) as Ho.
  { destruct (at_resolves _ _ _ _ _ Hat1 Hr) as [Hid _].
    destruct (old_container s) as [o|]; [by rewrite Hid|]. by destruct (rs_some _ _ _ _ Hr). }
  apply hP_skip; [repeat h_step|]. intros mine g2 Hf2.
  assert (at_ho g2 j s) as Hat2 by (by eapply at_frame).
  apply hP_skip.
  { destruct mine as [mine|]; [|h_step]. destruct (str_eqb _ _); [|h_step]. apply hfr_map_errp.
    eapply act_at; [done|done|]. intros g3 _ H3. apply (at_holds _ j s); [done|]. right; left.
    split; [done|]. by right. }
  intros _u g3 Hf3. assert (at_ho g3 j s) as Hat3 by (by eapply at_frame).
  apply hP_skip.
  { destruct (str_eqb _ _); [h_step|]. apply hfr_map_errp. eapply act_at; [done|done|].
    intros g4 _ H4. apply (at_holds _ j s); [done|]. left. split; [done|]. by right. }
  intros _v g4 Hf4. assert (at_ho g4 j s) as Hat4 by (by eapply at_frame).
  destruct (bool_decide _); [by apply hP_ret|]. eapply wp_mono; [|by intros r g5 H5; split; [exact H5|by destruct r]].
  apply hfr_map_errp. eapply act_at; [done|done|].
  intros g5 _ H5. apply (at_holds _ j s); [done|]. left. split; [done|]. right. by left.
Qed.

(** ** Ending a hand-over that did not verify *)

Lemma ending_not_done p : ending p = true → may_end p = true ∧ touched_old p = true.
Proof. by destruct p. Qed.

(** Its own container has the actor's name. *)
Definition named g : Prop := ∃ id, own_id id = true ∧ h_names g !! id = Some NAME_RECOVERY_ACTOR.

Lemma keep_this_actor_spec policy g j s :
  at_ho g j s → ending (st_phase s) = true →
  WP (keep_this_actor cfg policy) g (hP (λ _ g', is_Some (self_container cfg) → named g') g).
Proof.
  intros Hat He. unfold keep_this_actor. destruct (self_container cfg) as [me|] eqn:Hme.
  2: { apply hP_ret. by intros []. }
  assert (∀ id, own_id id = same_container me id) as Hown by (intros o; unfold is_me_id; by rewrite Hme).
  eapply hP_bind_ok; [apply hP_map_errp, look_ask|]. intros o g1 Hl Hf1.
  assert (at_ho g1 j s) as Hat1 by (by eapply at_frame).
  eapply (hP_bind_ok (λ c g', o = Some c ∧ g' = g1)); [apply hP_ret; by destruct o|].
  intros c g2 [-> ->] _. destruct (Hl c eq_refl) as (Hr & Hn & _).
  assert (own_id (c_id c) = true) as Hmy by (by apply (rs_self _ _ _ _ Hr)).
  eapply (hP_bind_ok (λ _ g', named g')).
  { destruct (str_eqb (c_name c) _) eqn:Ek.
    - apply str_eqb_true in Ek. apply hP_ret. exists (c_id c). split; [done|]. by rewrite Hn, Ek.
    - apply hP_skip; [repeat h_step|]. intros [other|] g2 Hf2; [by apply hP_ret|]. apply hP_map_errp.
      apply (h_ask _ _ (λ _, True)); [done|done| |done|].
      + intros g3 Hf3 _. apply (at_holds _ j s); [by do 2 (eapply at_frame; [done|])|]. right; left.
        split; [done|]. left. split; [by right|done].
      + intros g3 _u _ _ _. exists me. split; [by rewrite Hown, same_container_refl|].
        simpl. by rewrite lookup_insert_eq. }
  intros _u g2 Hn2 Hf2. destruct (bool_decide _); [by apply hP_ret|].
  apply (wp_mono _ _ _ _ (hP (λ _ g3, named g3) g2)); [|intros r g3 [H3 H4]; split; [exact H3|by destruct r]].
  apply hP_map_errp, (act_names _ _ (λ m, ∃ id, own_id id = true ∧ m !! id = Some NAME_RECOVERY_ACTOR));
    [done|done| |done].
  intros g3 Hf3 _. apply (at_holds _ j s); [by do 2 (eapply at_frame; [done|])|]. right; right. by split.
Qed.

Lemma runs_digest_spec d g :
  WP (runs_digest cfg d) g (λ b g', hframe g g' ∧ (b = true → is_Some (self_container cfg) ∧
    ∃ c d', h_own g' = Some c ∧ d = Some d' ∧ snd <$> split_once "@" (c_image c) = Some d')).
Proof.
  unfold runs_digest. destruct (self_container cfg) as [me|] eqn:Hme; [|done]. destruct d as [d|]; [|done].
  apply wp_bind. eapply wp_mono; [apply look_call|]. intros r g1 [Hf1 Hl]. split; [done|].
  destruct r as [[c|]|]; [|done..]. intros Hd%bool_decide_eq_true. split; [done|].
  destruct (Hl c eq_refl) as (_ & _ & _ & Ho). exists c, d. split_and!; auto.
Qed.

Lemma find_successors_spec g j s :
  at_ho g j s →
  WP (find_successors cfg j 0) g (hP (λ x g', Forall (λ c, found_new s c g') x.1) g).
Proof.
  intros Hat. unfold find_successors. rewrite (ho_at_step_at _ _ _ Hat).
  apply wp_bind. eapply wp_mono; [by eapply ho_attempt_containers_spec|]. intros found g1 [Hf1 Hl].
  assert (at_ho g1 j s) as Hat1 by (by eapply at_frame). apply hP_frame; [done|].
  assert (∀ l (said : string), Forall (λ c, found_new s c g1) l →
    WP (match new_container s with
        | None => Ret (@Ok _ unit (l, said))
        | Some new =>
            if is_me_id cfg new || existsb (λ c, same_container (c_id c) new) l then Ret (@Ok _ unit (l, said))
            else
            do r <- call (InspectContainer new);
            Ret (match r with
                 | Ok (Some c) => Ok (l ++ [c], said)
                 | Err Crashed => Err tt
                 | _ => Ok (l, said)
                 end)
        end) g1 (hP (λ x g', Forall (λ c, found_new s c g') x.1) g1)) as Hjoin.
  { clear Hl. intros l said Hl. destruct (new_container s) as [new|] eqn:Hnew; [|by apply hP_ret].
    destruct (is_me_id cfg new) eqn:Hme; [by apply hP_ret|]. destruct (existsb _ l); [by apply hP_ret|].
    apply wp_bind. eapply wp_mono; [apply look_call|]. intros r g2 [Hf2 Hr]. cbn [orb].
    apply (hP_frame _ _ _ _ Hf2), hP_ret. pose proof (founds_frame _ _ _ _ Hf2 Hl) as Hl2.
    destruct r as [[c|]|[]]; try done. simpl. apply Forall_app. split; [done|]. apply Forall_singleton.
    destruct (Hr c eq_refl) as (Hres & _ & Hst & _).
    assert (designates new (c_id c) = true) as Hd.
    { eapply at_resolves; [by eapply at_frame|done|done]. }
    split; [by eapply own_designates| |right; eauto|done].
    intros o Ho. destruct (designates (c_id c) o) eqn:E; [|done].
    rewrite <- (hw_disjoint _ (ah_wf _ _ _ Hat) new o) by done. symmetry. by eapply designates_trans. }
  destruct found as [l|[]]; first [by apply Hjoin|by apply hP_ret].
Qed.

(** A successor that may be removed, or renamed out of the way. *)
Definition spare (s : Step) (g : HWorld) (id : string) : Prop :=
  ho_owned cfg g s id ∧ (is_old cfg s ∨ id ∈ h_stopped g).

Lemma spare_frame g g' s id : hframe g g' → spare s g id → spare s g' id.
Proof.
  intros Hf [H1 H2]. split; [by eapply ho_owned_frame|]. destruct H2 as [|H2]; [by left|right].
  by apply (hf_stopped _ _ Hf).
Qed.

Lemma spares_frame g g' s l : hframe g g' → Forall (λ c, spare s g (c_id c)) l → Forall (λ c, spare s g' (c_id c)) l.
Proof. intros Hf Hl. eapply Forall_impl; [exact Hl|]. intros c. by apply spare_frame. Qed.

Lemma remove_spare g j s id :
  at_ho g j s → ending (st_phase s) = true → spare s g id →
  WP (retrying cfg (call (RemoveContainer id))) g (hfr g).
Proof.
  intros Hat He Hs. eapply act_at; [done|done|]. intros g1 Hf H1. apply (at_holds _ j s); [done|].
  destruct (spare_frame _ _ _ _ Hf Hs). right; left. split; [done|]. by right.
Qed.

Lemma step_aside_spec l g j s :
  at_ho g j s → ending (st_phase s) = true → Forall (λ c, spare s g (c_id c)) l →
  WP (step_aside cfg l) g (hP (λ l' g', Forall (λ c, spare s g' (c_id c)) l') g).
Proof.
  intros Hat He. revert g Hat. induction l as [|c l IH]; intros g Hat Hl; cbn [step_aside].
  { by apply hP_ret. }
  apply Forall_cons in Hl as [Hc Hl].
  eapply (hP_bind_ok (λ c' _, c_id c' = c_id c)).
  { destruct (negb _); [by apply hP_ret|]. apply hP_bind.
    { eapply act_at; [done|done|]. intros g1 Hf1 H1. apply (at_holds _ j s); [done|]. right; right.
      split_and!; [|done|done]. by eapply ho_owned_frame; [|apply Hc]. }
    intros r g1 Hf1. destruct r as [|[]]; try (by apply hP_ret);
      (apply hP_bind; [by eapply remove_spare; [eapply at_frame|..]; [..|by eapply spare_frame]|]);
      intros [|[]] g2 _; by apply hP_ret. }
  intros c' g1 Hid Hf1. apply (spares_frame _ _ _ _ Hf1) in Hl. apply (spare_frame _ _ _ _ Hf1) in Hc.
  assert (at_ho g1 j s) as Hat1 by (by eapply at_frame).
  eapply hP_bind_ok; [by apply IH|]. intros l' g2 Hl' Hf2. apply hP_ret. constructor; [|done].
  rewrite Hid. by eapply spare_frame.
Qed.

Lemma remove_old_leftover_spec party g j s :
  at_ho g j s → ending (st_phase s) = true → WP (remove_old_leftover cfg j 0 party) g (hfr g).
Proof.
  intros Hat He. unfold remove_old_leftover. rewrite (ho_at_step_at _ _ _ Hat).
  destruct (old_container s) as [old|] eqn:Ho; [|h_step].
  destruct (is_me_id cfg old) eqn:Hme; [rewrite orb_true_r; h_step|].
  destruct (negb _); cbn [orb]; [h_step|].
  apply wp_bind. eapply wp_mono; [apply look_call|]. intros r g1 [Hf1 Hl].
  destruct r as [[c|]|[]]; try (by apply h_ret). destruct (c_running c) eqn:Hr; [by apply h_ret|].
  destruct (Hl c eq_refl) as (Hres & _ & Hst & _). specialize (Hst Hr).
  assert (at_ho g1 j s) as Hat1 by (by eapply at_frame).
  destruct (at_resolves _ _ _ _ _ Hat1 Hres) as [Hid _]. rewrite Hid in Hst by done.
  apply h_frame; [done|]. apply h_bind; [|intros; by apply h_ret].
  eapply act_at; [done|done|]. intros g2 Hf2 H2. apply (at_holds _ j s); [done|]. left.
  split_and!; [done|done|]. right. split; [done|]. by apply (hf_stopped _ _ Hf2).
Qed.

Lemma remove_successors_spec l said g j s :
  at_ho g j s → ending (st_phase s) = true → Forall (λ c, spare s g (c_id c)) l →
  WP (remove_successors cfg l said) g (hP (λ _ g', h_names g' = h_names g) g).
Proof.
  intros Hat He. revert g said Hat. induction l as [|c l IH]; intros g said Hat Hl; cbn [remove_successors].
  { by apply hP_ret. }
  apply Forall_cons in Hl as [Hc Hl].
  apply wp_bind, h_call; [done|]. intros tail _ _. cbn [ho_advance].
  assert (∀ said', WP (do r <- retrying cfg (call (RemoveContainer (c_id c)));
          match r with
          | Err Crashed => Ret (Err tt)
          | Err e => remove_successors cfg l (said' +:+ nl +:+ "the successor " +:+ c_name c
                       +:+ " could not be removed: " +:+ show_engine_error e)
          | Ok _ => remove_successors cfg l said'
          end) g (hP (λ _ g', h_names g' = h_names g) g)) as Hrest; [|by repeat case_match].
  intros said'.
  apply wp_bind. eapply wp_mono.
  { apply (h_retry _ _ (λ g', h_names g' = h_names g) (λ _ g', h_names g' = h_names g));
      [done|done| |done|done].
    intros g1 Hf1 _. apply (at_holds _ j s); [by eapply at_frame|]. right; left.
    destruct (spare_frame _ _ _ _ Hf1 Hc). split; [done|]. by right. }
  intros r g1 [Hf1 Hn1]. assert (h_names g1 = h_names g) as Hn by (by destruct r). rewrite <- Hn.
  apply (spares_frame _ _ _ _ Hf1) in Hl. assert (at_ho g1 j s) as Hat1 by (by eapply at_frame).
  apply (hP_frame _ _ _ _ Hf1). destruct r as [|[]]; first [by apply hP_ret|by apply IH].
Qed.

(** ** [restore_actor] *)

Lemma put_back_frame g g' s :
  hframe g g' → h_names g' = h_names g → put_back cfg g s → put_back cfg g' s.
Proof.
  intros Hf Hn [H1 H2]. unfold put_back. rewrite Hn. split; [|done].
  destruct H1 as [|(c & d & H3 & H4 & H5)]; [by left|right].
  destruct (hf_own _ _ Hf c H3) as (c' & ? & _ & Hi). exists c', d. by rewrite Hi.
Qed.

Lemma restore_actor_spec party g j s :
  at_ho g j s → ending (st_phase s) = true →
  (party = Old ∧ is_old cfg s ∨ is_stranger party = true) →
  WP (restore_actor cfg j 0 party) g (λ _ _, True).
Proof.
  intros Hat He Hp. unfold restore_actor. rewrite (ho_at_step_at _ _ _ Hat). cbv zeta.
  apply wp_bind_ok. eapply wp_mono; [by eapply find_successors_spec|]. intros [[l said]|] g1 [Hf1 Hl]; [|done].
  assert (at_ho g1 j s) as Hat1 by (by eapply at_frame). simpl in Hl.
  set (l1 := List.filter (λ c, negb (c_running c && is_stranger party)) l).
  assert (Forall (λ c, spare s g1 (c_id c)) l1) as Hl1.
  { apply Forall_forall. intros c [Hc Hnr]%list_elem_of_In%filter_In. apply list_elem_of_In in Hc.
    rewrite Forall_forall in Hl. destruct (Hl c Hc) as [H1 H2 H3 H4]. split; [split_and!; [done|by apply fn_not_old|done]|].
    destruct Hp as [[_ ?]|Hs]; [by left|]. right. apply H4. rewrite Hs, andb_true_r in Hnr.
    by apply negb_true_iff. }
  clearbody l1. apply wp_bind_ok. eapply wp_mono; [by eapply step_aside_spec|].
  intros [l2|] g2 [Hf2 Hl2]; [|done]. assert (at_ho g2 j s) as Hat2 by (by eapply at_frame).
  set (l3 := List.filter _ l2).
  assert (Forall (λ c, spare s g2 (c_id c)) l3) as Hl3 by (by apply founds_filter). clearbody l3.
  apply wp_bind_ok. eapply wp_mono; [by eapply remove_old_leftover_spec|].
  intros [old_said|] g3 Hf3; [|done]. red in Hf3. assert (at_ho g3 j s) as Hat3 by (by eapply at_frame).
  apply (spares_frame _ _ _ _ Hf3) in Hl3.
  apply wp_bind. eapply wp_mono with (Q := λ b g', hframe g3 g' ∧ (b = true → is_Some (self_container cfg) ∧
    (is_old cfg s ∨ ∃ c d, h_own g' = Some c ∧ old_digest s = Some d ∧ snd <$> split_once "@" (c_image c) = Some d))).
  { destruct Hp as [[-> Ho]|Hs]; [split; [done|]; intros _; split; [|by left]|].
    - destruct Ho as (o & _ & Ho). unfold is_me_id in Ho. by destruct (self_container cfg).
    - destruct party as [| |b]; [done..|]. eapply wp_mono; [apply runs_digest_spec|].
      intros b' g4 [? H4]. split; [done|]. intros E. destruct (H4 E). auto. }
  intros restored g4 [Hf4 Hr]. assert (at_ho g4 j s) as Hat4 by (by eapply at_frame).
  apply (spares_frame _ _ _ _ Hf4) in Hl3.
  apply wp_bind. eapply wp_mono; [by eapply keep_this_actor_spec|]. intros kept g5 [Hf5 Hk].
  assert (at_ho g5 j s) as Hat5 by (by eapply at_frame). apply (spares_frame _ _ _ _ Hf5) in Hl3.
  assert (∀ nd note, name_note restored kept = Ok (nd, note) → restored && nd = true → put_back cfg g5 s) as Hpb.
  { intros nd note Hnn [-> ->]%andb_true_iff. destruct (Hr eq_refl) as [Hme Hback]. split.
    - destruct Hback as [|(c & d & H1 & H2 & H3)]; [by left|right].
      destruct (hf_own _ _ Hf5 c H1) as (c' & ? & _ & Hi). exists c', d. by rewrite Hi.
    - destruct kept as [u|[|]]; simplify_eq/=. by apply Hk. }
  destruct (name_note restored kept) as [[nd note]|]; [|done]. specialize (Hpb _ _ eq_refl).
  cbn [bind_ok bind]. apply wp_bind_ok. eapply wp_mono; [by eapply remove_successors_spec|].
  intros [said'|] g6 [Hf6 Hn6]; [|done]. assert (at_ho g6 j s) as Hat6 by (by eapply at_frame).
  apply wp_bind, wp_mono with (Q := λ _ g', hframe g6 g' ∧ h_names g' = h_names g6);
    [by destruct nd|]. intros _u g7 [Hf7 Hn7].
  apply wp_bind_ok. eapply wp_mono.
  - eapply ho_finish_spec; [by eapply at_frame|]. right.
    destruct (ending_not_done _ He). split_and!; [done|done|done|]. intros E.
    apply (put_back_frame g5); [by etransitivity|by rewrite Hn7|by apply Hpb].
  - intros [j'|] g8 _; [|done]. destruct nd; [done|]. apply wp_bind, wp_call; [done|]. intros _v _.
    apply wp_bind, wp_bind, h_call; [done|]. intros [] _ _; [done|]. by apply h_call.
Qed.

(** ** [yield_or_finish] *)

Lemma hand_to_spec g j s target :
  at_ho g j s → ending (st_phase s) = true →
  (old_container s = Some (c_id target) ∧ st_phase s = PhHandingBack
   ∨ ho_mine g s (c_id target) ∧ is_old cfg s ∧ (st_phase s = PhVerified ∨ st_phase s = PhOldDiscarded)) →
  WP (hand_to cfg target) g (λ r g', match r with Ok false => at_ho g' j s | _ => True end).
Proof.
  intros Hat He Ht. unfold hand_to. cbv zeta.
  assert (∀ g1, h_listed g ⊆ h_listed g1 → ho_mine g s (c_id target) → ho_mine g1 s (c_id target)) as Hmine.
  { intros g1 Hl [?|?]; [left; set_solver|by right]. }
  apply wp_bind_ok, wp_mono with (Q := λ r g', at_ho g' j s ∧ h_listed g ⊆ h_listed g').
  { destruct (bool_decide _); [done|]. apply wp_bind. eapply wp_mono.
    - eapply act_at; [done|done|]. intros g1 Hf1 H1. apply (at_holds _ j s); [done|].
      destruct Hf1. destruct Ht as [[? ?]|(? & ? & ?)]; [left; auto|right; left; auto].
    - intros r g1 Hf1. split; [by eapply at_frame|apply Hf1]. }
  intros [ok|] g1 [Hat1 Hl1]; [|done]. destruct ok; cbn [negb]; [|exact Hat1].
  apply wp_bind_ok, wp_mono with (Q := λ r g', at_ho g' j s).
  { destruct (c_running target); [done|]. apply wp_bind. eapply start_spec; [done| |by destruct r].
    intros g2 H2 Hl2. destruct Ht as [[? ?]|(? & ? & ?)]; [right; left; auto|right; right].
    split_and!; [|done|done]. apply Hmine; [set_solver|done]. }
  intros [ok|] g2 Hat2; [|done]. destruct ok; cbn [negb]; [|exact Hat2].
  apply wp_bind_ok, wp_mono with (Q := λ _ _, True).
  { destruct (self_container cfg) as [me|] eqn:Hme; [|done]. apply wp_bind. eapply wp_mono; [|done].
    eapply act_at; [done|done|]. intros g3 Hf3 H3. apply (at_holds _ j s); [done|]. right; right. done. }
  intros [ok|] g3 _; [|done]. apply wp_bind, h_call; [done|]. intros _u _ _.
  apply wp_bind, wp_call; [done|]. intros _v _. apply wp_bind, h_call; [done|]. done.
Qed.

Lemma yield_or_finish_spec party g j s :
  at_ho g j s → party_ok s party → 
  (party = Successor ∧ st_phase s = PhHandingBack
   ∨ party = Old ∧ (st_phase s = PhVerified ∨ st_phase s = PhOldDiscarded)) →
  WP (yield_or_finish cfg j 0 party) g (λ x _, x.2 ≠ Ok StepDone).
Proof.
  intros Hat [Ho _ _] Hp. unfold yield_or_finish. rewrite (ho_at_step_at _ _ _ Hat). cbv zeta.
  assert (ending (st_phase s) = true) as He by (destruct Hp as [[_ ->]|[_ [-> | ->]]]; done).
  set (target := match party with Old => _ | _ => _ end).
  apply wp_bind, wp_mono with (Q := λ r g', hframe g g' ∧ match r with Ok (Some c) =>
    old_container s = Some (c_id c) ∧ st_phase s = PhHandingBack
    ∨ ho_mine g' s (c_id c) ∧ is_old cfg s ∧ (st_phase s = PhVerified ∨ st_phase s = PhOldDiscarded)
    | _ => True end).
  { destruct target as [id|] eqn:Et; [|done]. apply wp_bind. eapply wp_mono; [apply look_ask|].
    intros r g1 [Hf1 Hl]. split; [done|]. destruct r as [[c|]|[]]; try done.
    destruct (Hl c eq_refl) as (Hr & _).
    destruct (at_resolves _ _ _ _ _ (at_frame _ _ _ _ Hf1 Hat) Hr) as [H1 H2]. subst target.
    destruct Hp as [[-> ?]|[-> ?]]; [left; by rewrite H1|right].
    split_and!; [right; eauto|by apply Ho|done]. }
  intros found g1 [Hf1 Hfound]. assert (at_ho g1 j s) as Hat1 by (by eapply at_frame).
  destruct found as [found|]; [|done].
  apply wp_bind, wp_mono with (Q := λ r g', match r with Ok false => at_ho g' j s | _ => True end).
  { destruct found as [c|]; [by apply (hand_to_spec _ j s)|done]. }
  intros [[]|] g2 H2; [done| |done]. case_bool_decide as Hd.
  { rewrite Hd in He. done. }
  apply wp_bind. eapply wp_mono; [eapply restore_actor_spec; [done|done|by right]|]. by intros [] g3 _.
Qed.
End phases.
