(* ===== verification/HandoverRun.v ===== *)
(** * A hand-over keeps its promises

    [drive_handover], [settle_journal] with the hand-over linked in, and the driver of a fresh
    attempt, against the monitor of [HandoverSpec]; and the theorems that follow for every
    execution. *)
From S2P Require Import Prelude Platform Wire Journal Settle Effects Replace ReplaceSpec Handover HandoverSpec HandoverRules HandoverProofs.

Lemma touched_edges p :
  touched_old p = true → p ≠ PhDone → p ≠ PhHandingBack → ho_edge p PhRestoring = true.
Proof. by destruct p. Qed.

Lemma ho_step_actor j j' : ho_step j j' → actor_journal j → actor_journal j'.
Proof.
  intros Hst (Hr & s0 & Hs0 & Ha & Hm & Hwf).
  assert (∀ s1, j_steps j' = [s1] → st_name s1 = st_name s0 → migrating s1 = migrating s0 →
    ho_wf s1 → j_restore j' = j_restore j → actor_journal j') as Hk.
  { intros s1 H1 Hn Hm1 Hw Hr1. split; [congruence|]. exists s1. split_and!; [done| |congruence|done].
    unfold is_actor. by rewrite Hn. }
  destruct Hst as [s s' _ Hs Hs' Hmv _ _ Hre|s s' _ Hs Hs' _ _ Hn _ _ _ Hm' _ _ Hw _ _ Hre
    |s _ Hs _ Hs' _ _ Hre|s _ Hs _ Hs' _ _ Hre]; rewrite Hs in Hs0; injection Hs0 as ->.
  - eapply Hk; [done|apply Hmv|apply Hmv|apply Hmv|done].
  - by eapply Hk.
  - rewrite Hs in Hs'. by eapply Hk.
  - eapply Hk; [exact Hs'|done|done| |done]. destruct Hwf. by split; [intros [|]|..].
Qed.

Lemma ho_steps_actor j j' : rtc ho_step j j' → actor_journal j → actor_journal j'.
Proof. induction 1; [done|]. intros H1. eauto using ho_step_actor. Qed.

Section driver.
Context {I : Type} `{!ReplaceDeps I} {HD : HandoverDeps} {cfg : Config}.
Implicit Types (g : HWorld) (j : Journal) (s : Step).

Local Abbreviation M := (hwatch (I:=I) cfg).
Local Abbreviation WP p g Q := (wp M True p g Q).

(** A process that has just taken the machine over: it holds the lease and knows the journal. *)
Record holding (g : HWorld) (j : Journal) : Prop := mkHolding {
  ho_lease : h_lease g = true;
  ho_known : h_known g = true;
  ho_dur : h_dur g = j;
  ho_actor : actor_journal j }.

Lemma holding_at g j : holding g j → is_open j = true → ∃ s, at_ho g j s.
Proof. intros [H1 H2 H3 (Hr & s & Hs & Ha & Hm & Hw)] Ho. exists s. by split. Qed.

Lemma at_holding g j s : at_ho g j s → holding g j.
Proof. intros [H1 H2 H3 H4 H5 H6 H7 Hw H8]. split; [done..|]. split; [done|]. by exists s. Qed.

(** ** One turn *)

Definition phase_post j s (o : ho_outcome) (g' : HWorld) : Prop :=
  match o with
  | HoNext j' (Ok p) =>
      at_ho g' j s ∧ ∃ s1, ho_edited j s1 j' ∧ ho_move s (set_phase p s1)
  | HoNext j' (Err (HFail _)) =>
      at_ho g' j s ∧ j' = j ∧
      (st_phase s = PhPulling ∨ st_phase s ≠ PhPulling ∧ st_phase s ≠ PhChecked ∧ ho_edge (st_phase s) PhRestoring = true)
  | HoNext _ (Err Died) => True
  | HoEnd j' (Ok StepDone) => at_ho g' j s ∧ j' = j ∧ st_phase s = PhDone
  | HoEnd _ _ => True
  end.

(** A later phase of a well-formed component. *)
Lemma wf_later s p :
  ho_wf s → ho_edge (st_phase s) p = true → p ≠ PhStartingSuccessor →
  (p = PhSuccessorActive → touched_old (st_phase s) = true) → ho_wf (set_phase p s).
Proof.
  intros [H1 H2 H3] He Hp Ha. split; simpl; [| |done].
  - intros Hq. apply H1. destruct (st_phase s), Hq; subst; auto; done.
  - intros Hq. apply H2. destruct (st_phase s), p; simpl in *; try done; by specialize (Ha eq_refl).
Qed.

Lemma move_plain s p :
  ho_wf s → ho_edge (st_phase s) p = true → p ≠ PhStartingSuccessor → p ≠ PhRestoring →
  (p = PhSuccessorActive → touched_old (st_phase s) = true) → ho_move s (set_phase p s).
Proof. intros Hw He ? ? ?. split; try done. by apply wf_later. Qed.

(** A failed phase. *)
Lemma move_restoring s f :
  ho_wf s → st_phase s ≠ PhPulling → ho_edge (st_phase s) PhRestoring = true → is_Some f →
  ho_move s (set_phase PhRestoring (set_failure f s)).
Proof. intros [? ? ?] ? ? ?. split; simpl; try done. by split; [intros [|]|..]. Qed.

Lemma next_plain g j s p :
  at_ho g j s → ho_edge (st_phase s) p = true → p ≠ PhStartingSuccessor → p ≠ PhRestoring →
  (p = PhSuccessorActive → touched_old (st_phase s) = true) →
  phase_post j s (HoNext j (Ok p)) g.
Proof. intros Hat ? ? ?. split; [done|]. exists s. split; [by eapply ho_edited_at|]. apply move_plain; try done. apply Hat. Qed.

(** A phase's procedure that leaves the journal in memory as it was. *)
Lemma phase_plain {A} g j s (q : prog I (result A Halt)) p :
  WP q g (λ _ g', at_ho g' j s) →
  ho_edge (st_phase s) p = true → p ≠ PhStartingSuccessor → p ≠ PhRestoring → p ≠ PhSuccessorActive →
  st_phase s ≠ PhPulling → st_phase s ≠ PhChecked → ho_edge (st_phase s) PhRestoring = true →
  WP (do r <- q; Ret (ho_to j p r)) g (phase_post j s).
Proof.
  intros Hq ? ? ? ? ? ? ?. apply wp_bind. eapply wp_mono; [exact Hq|]. intros r g1 Hg1.
  destruct r as [a|[|f]]; simpl; [by apply next_plain|done|]. split_and!; [done|done|by right].
Qed.

Lemma at_of_hfr {A} g j s (q : prog I A) :
  at_ho g j s → WP q g (hfr g) → WP q g (λ _ g', at_ho g' j s).
Proof. intros Hat Hq. eapply wp_mono; [exact Hq|]. intros r g1 Hf. by eapply at_frame. Qed.

Lemma to_restore_post g j s r text :
  at_ho g j s → touched_old (st_phase s) = true → st_phase s ≠ PhDone → st_phase s ≠ PhHandingBack →
  phase_post j s (to_restore j r text) g.
Proof.
  intros Hat Ht ? ?. simpl. split_and!; [done|done|]. right.
  split_and!; [by intros E; rewrite E in Ht..|by apply touched_edges].
Qed.

Lemma pulling_spec g j s :
  at_ho g j s → st_phase s = PhPulling →
  WP (do r <- pull_and_check cfg j 0; Ret (ho_with j PhChecked r)) g (phase_post j s).
Proof.
  intros Hat Hp. apply wp_bind. eapply wp_mono; [by eapply ho_pull_and_check_spec|]. intros r g1 [Hf Hr].
  assert (at_ho g1 j s) as Hat1 by (by eapply at_frame).
  destruct r as [j'|[|f]]; simpl; [|done|by split_and!; [..|left]].
  destruct Hr as (rev & spec & old & ->). split; [done|]. eexists.
  split; [by apply edited_step; eapply ho_edited_at|].
  split; simpl; rewrite ?Hp; try done; [by rewrite (ah_mig _ _ _ Hat)|].
  pose proof (hw_fresh _ (ah_wf _ _ _ Hat) (or_intror Hp)) as Hnew.
  by split; simpl; [intros [|]| |rewrite Hnew].
Qed.

Lemma creating_spec g j s :
  at_ho g j s → st_phase s = PhCreatingSuccessor →
  WP (do r <- create_successor cfg j 0; Ret (ho_with j PhStartingSuccessor r)) g (phase_post j s).
Proof.
  intros Hat Hp. apply wp_bind. eapply wp_mono; [by eapply create_successor_spec|]. intros r g1 [Hf Hr].
  assert (at_ho g1 j s) as Hat1 by (by eapply at_frame).
  destruct r as [j'|[|f]]; simpl; [|done|by rewrite Hp; split_and!; [..|right]].
  destruct Hr as (id & -> & Hid). split; [done|]. eexists. split; [by apply edited_step; eapply ho_edited_at|].
  split; simpl; rewrite ?Hp; try done; eauto.
  split; simpl; [by intros [|]|by eexists|]. intros n o [= <-]. apply Hid.
Qed.

(** A process that is not the old actor names itself the successor. *)
Lemma named_disjoint s p n o :
  party_ok (cfg:=cfg) s p → p ≠ Old → ho_wf s →
  match new_container s with None => self_container cfg | n => n end = Some n →
  old_container s = Some o → designates n o = false.
Proof.
  intros Hok Hp Hw Hn Ho. destruct (new_container s) as [n'|] eqn:En.
  { injection Hn as ->. by eapply hw_disjoint. }
  destruct (designates n o) eqn:E; [|done]. destruct (po_not _ _ Hok Hp). exists o. split; [done|].
  unfold is_me_id. rewrite Hn. by apply designates_is_same.
Qed.

Lemma take_over_post g j s :
  at_ho g j s → party_ok (cfg:=cfg) s Successor → touched_old (st_phase s) = false →
  phase_post j s (HoNext (update_step 0 (take_over (self_container cfg)) j) (Ok PhSuccessorActive)) g.
Proof.
  intros Hat Hok Ht. split; [done|]. eexists. split; [by apply edited_step; eapply ho_edited_at|].
  split; simpl; try done; [by destruct (st_phase s); simpl in *|].
  split; simpl; [by intros [|]| |].
  - intros _. destruct (new_container s); [by eexists|by apply Hok].
  - intros n o. eapply named_disjoint; [done|done|apply Hat].
Qed.

(** What a successor that takes the lease back may run next. *)
Definition settles (again : Journal → prog I (result unit unit)) : Prop :=
  ∀ g j, holding g j → WP (again j) g (λ _ _, True).

Lemma watch_takeover_spec again fuel released id g j :
  settles again → h_lease g = false → h_dur g = j → actor_journal j →
  WP (watch_takeover cfg again fuel released id) g (λ r _, r ≠ Ok StepDone).
Proof.
  intros Hs. revert g. induction fuel as [|fuel IH]; intros g Hl Hd Ha; cbn [watch_takeover]; [done|].
  apply wp_bind, h_call; [done|]. intros k _ _. cbn [ho_advance]. destruct k; [done|].
  apply wp_bind, h_call; [done|]. intros _u _ _. cbn [ho_advance].
  apply wp_bind, wp_call; [done|]. intros r _.
  change (advance_ghost M g (LoadJournal id) r) with (ho_advance (I:=I) cfg g (LoadJournal id) r).
  assert (ho_advance (I:=I) cfg g (LoadJournal id) r = g) as ->
    by (destruct r as [[?|]|]; simpl; unfold h_found; rewrite ?Hl; done).
  destruct r as [[j1|]|]; [|by apply IH..].
  apply wp_bind, wp_mono with (Q := λ _ g', g' = g).
  { destruct (_ && _); [|done]. apply wp_bind, h_call; [done|]. by intros t _ _. }
  intros wait g' ->. destruct wait; [by apply IH|]. unfold take_lease_now.
  apply wp_bind, wp_bind, h_call; [done|]. intros k _ _. cbn [ho_advance]. destruct k; [by apply IH|].
  apply wp_map_errp, wp_call; [done|]. intros [_v|e] _; [|by apply IH]. cbn [map_err].
  change (advance_ghost M g TakeLease (Ok _v)) with (h_taken g).
  apply wp_bind, h_call; [done|]. intros _w _ _. cbn [ho_advance].
  apply wp_bind, wp_call; [done|]. intros [[j2|]|] Hj; [|done..].
  apply wp_bind_ok. eapply wp_mono; [apply Hs|by intros []].
  split; try done. eapply ho_steps_actor; [by apply Hj|]. simpl. by rewrite Hd.
Qed.

Lemma hand_over_spec again fuel g j s :
  settles again → at_ho g j s → WP (hand_over cfg again fuel j) g (λ r _, r ≠ Ok StepDone).
Proof.
  intros Hs Hat. unfold hand_over. apply wp_bind, h_call; [done|]. intros _u _ _. cbn [ho_advance].
  apply wp_bind, wp_call; [done|]. intros _v _.
  change (advance_ghost M g ReleaseLease _v) with (h_released g).
  apply wp_bind, h_call; [done|]. intros t _ _. cbn [ho_advance].
  eapply watch_takeover_spec; [done|done|apply Hat|]. by apply (at_holding g j s).
Qed.

Lemma end_post g j s (q : prog I (Journal * result Flow unit)) :
  WP q g (λ x _, x.2 ≠ Ok StepDone) →
  WP (do x <- q; let (j', r) := x in Ret (HoEnd j' r)) g (phase_post j s).
Proof.
  intros Hq. apply wp_bind. eapply wp_mono; [exact Hq|]. intros [j' [[]|]] g' H; simpl in *; done.
Qed.

Lemma finish_end_post g j s (q : prog I (result Journal unit)) :
  WP q g (λ _ _, True) →
  WP (do r <- q; Ret (match r with Ok j' => HoEnd j' (Ok Ended) | Err _ => HoEnd j (Err tt) end)) g
    (phase_post j s).
Proof. intros Hq. apply wp_bind. eapply wp_mono; [exact Hq|]. by intros []. Qed.

(** The two phases after the successor verified: the old actor yields, an actor that does not
    run the new image takes the hand-over back, any other goes on. *)
Lemma after_verified g j s party (q : prog I (result unit Halt)) p :
  at_ho g j s → party_ok (cfg:=cfg) s party →
  (st_phase s = PhVerified ∧ p = PhOldDiscarded ∨ st_phase s = PhOldDiscarded ∧ p = PhDone) →
  (¬ is_old cfg s → WP q g (hfr g)) →
  WP (if bool_decide (party = Old) then do x <- yield_or_finish cfg j 0 party; let (j', r) := x in Ret (HoEnd j' r)
      else if negb (on_new_image party)
      then Ret (to_restore j RecreateFailed
             "the successor verified, then every recovery-actor container was removed; the seed re-created the last verified actor it knew")
      else do r <- q; Ret (ho_to j p r)) g (phase_post j s).
Proof.
  intros Hat Hok Hp Hq. case_bool_decide as Ho.
  { apply end_post. eapply yield_or_finish_spec; [done|done|]. right. split; [done|]. by destruct Hp as [[]|[]]; auto. }
  destruct (negb _).
  { apply to_restore_post; [done|..]; by destruct Hp as [[-> _]|[-> _]]. }
  apply phase_plain; [apply at_of_hfr; [done|]; by apply Hq, Hok|..];
    by destruct Hp as [[E ->]|[E ->]]; rewrite ?E.
Qed.

Lemma restoring_end g j s party :
  at_ho g j s → party_ok (cfg:=cfg) s party → party ≠ Successor → ending (st_phase s) = true →
  WP (do r <- restore_actor cfg j 0 party;
      Ret (match r with Ok j' => HoEnd j' (Ok Ended) | Err _ => HoEnd j (Err tt) end)) g (phase_post j s).
Proof.
  intros Hat Hok Hp He. apply finish_end_post. eapply restore_actor_spec; [done|done|].
  destruct party; [left|done|by right]. split; [done|by apply Hok].
Qed.

Lemma ho_phase_spec again fuel g j s party :
  settles again → at_ho g j s → party_ok (cfg:=cfg) s party →
  WP (ho_phase cfg again fuel j 0 party) g (phase_post j s).
Proof.
  intros Hs Hat Hok. unfold ho_phase. rewrite (ho_at_step_at _ _ _ Hat). cbv zeta.
  destruct (bool_decide (st_phase s ≠ PhDone) && _ && _) eqn:Eto.
  { apply andb_true_iff in Eto as [Eto Ht]. apply andb_true_iff in Eto as [_ Eto].
    apply bool_decide_eq_true in Eto as ->. apply negb_true_iff in Ht. by apply take_over_post. }
  clear Eto. assert (∀ r text, touched_old (st_phase s) = true → st_phase s ≠ PhDone →
    st_phase s ≠ PhHandingBack → WP (Ret (to_restore j r text)) g (phase_post j s)) as Hrst
    by (intros; by apply to_restore_post).
  assert (∀ (b : bool) r text q, touched_old (st_phase s) = true → st_phase s ≠ PhDone →
    st_phase s ≠ PhHandingBack → (b = true → WP q g (phase_post j s)) →
    WP (if negb b then Ret (to_restore j r text) else q) g (phase_post j s)) as Hguard.
  { intros [] r text q H1 H2 H3 H4; cbn [negb]; [by apply H4|by apply Hrst]. }
  assert (∀ (q : prog I (result unit Halt)), WP q g (hfr g) → WP q g (λ _ g', at_ho g' j s)) as Hfr
    by (intros; by apply at_of_hfr).
  assert (party ≠ Old → ¬ is_old cfg s) as Hnot by apply Hok.
  destruct (st_phase s) eqn:Hp;
    try (by eapply finish_end_post, ho_finish_spec; [done|]; right; rewrite Hp; split_and!; eauto).
  - by apply next_plain; rewrite ?Hp.
  - by apply pulling_spec.
  - by apply next_plain; rewrite ?Hp.
  - apply Hguard; [done..|]. intros ->%bool_decide_eq_true. apply phase_plain; rewrite ?Hp; try done.
    apply Hfr, hfr_verify_successor.
  - apply after_verified; [done|done|by left; rewrite Hp|]. intros Hno. by eapply ho_record_new_spec.
  - apply after_verified; [done|done|by right; rewrite Hp|]. intros Hno. by eapply discard_old_actor_spec.
  - case_bool_decide as Hsu; [|by apply restoring_end; rewrite ?Hp].
    apply phase_plain; rewrite ?Hp; try done. apply Hfr. eapply hand_back_spec; [done|done|by apply Hok].
  - done.
  - by apply creating_spec.
  - apply phase_plain; rewrite ?Hp; try done. by eapply start_successor_spec.
  - apply phase_plain; rewrite ?Hp; try done. by eapply Hfr, await_ready_spec.
  - destruct party as [| |b].
    + apply wp_bind. eapply wp_mono; [by eapply hand_over_spec|]. intros [[]|] g' H; simpl in *; done.
    + by apply next_plain; rewrite ?Hp.
    + by apply Hrst.
  - apply Hguard; [done..|]. intros ->%bool_decide_eq_true. apply phase_plain; rewrite ?Hp; try done.
    apply Hfr. eapply ho_keep_old_spec; [done|done|by apply Hnot].
  - apply Hguard; [done..|]. intros ->%bool_decide_eq_true. apply phase_plain; rewrite ?Hp; try done.
    apply Hfr. by eapply take_actor_name_spec.
  - case_bool_decide as Hsu; [|by apply restoring_end; rewrite ?Hp].
    apply end_post. eapply yield_or_finish_spec; [done|done|by left].
Qed.

Definition after_post (x : result Journal (Journal * result Flow unit)) (g' : HWorld) : Prop :=
  match x with Ok j' => ∃ s', at_ho g' j' s' | Err (_, r) => r ≠ Ok StepDone end.

Lemma after_advance g j s j1 s1 p jx :
  at_ho g j s → ho_edited j s1 j1 → ho_move s (set_phase p s1) →
  WP (map_errp (λ _, (jx, Err tt)) (advance j1 0 p)) g after_post.
Proof.
  intros Hat Hed Hmv. apply wp_map_errp. eapply wp_mono; [by eapply ho_advance_spec|].
  intros [j'|] g' H; simpl; [by eexists|done].
Qed.

Lemma ho_after_spec g j s j' r :
  phase_post j s (HoNext j' r) g → WP (ho_after (st_phase s) j' 0 r) g after_post.
Proof.
  destruct r as [p|[|f]]; cbn [phase_post ho_after]; [|done|].
  - intros (Hat & s1 & Hed & Hmv). by eapply after_advance.
  - intros (Hat & -> & Hp). destruct Hp as [Hp|(H1 & H2 & H3)].
    + rewrite bool_decide_eq_true_2 by done. cbn [orb]. apply wp_bind. eapply wp_mono.
      * eapply ho_finish_spec; [done|]. right. rewrite Hp. by split_and!; eauto.
      * by intros [] g' _.
    + rewrite !bool_decide_eq_false_2 by done. cbn [orb]. rewrite (ho_at_step_at _ _ _ Hat).
      assert (∀ f', ho_move s (set_phase PhRestoring (set_failure (Some f') s))) as Hmv
        by (intros f'; apply move_restoring; eauto; apply Hat).
      destruct (st_failure s) as [f'|] eqn:Ef.
      * eapply after_advance; [done|by eapply ho_edited_at|]. specialize (Hmv f').
        replace (set_failure (Some f') s) with s in Hmv by (destruct s; simpl in *; by subst). done.
      * eapply after_advance; [done|by apply edited_step; eapply ho_edited_at|done].
Qed.

Definition drive_post (x : Journal * result Flow unit) (g' : HWorld) : Prop :=
  x.2 = Ok StepDone → ∃ s, at_ho g' x.1 s ∧ st_phase s = PhDone.

Lemma drive_spec again turns fuel g j s :
  settles again → at_ho g j s → WP (drive_handover cfg again turns fuel j 0) g drive_post.
Proof.
  intros Hs. revert g j s. induction turns as [|turns IH]; intros g j s Hat; cbn [drive_handover]; [done|].
  rewrite (ah_open _ _ _ Hat). cbn [negb].
  apply wp_bind. eapply wp_mono; [by eapply party_of_spec|]. intros party g1 [Hf1 Hok].
  assert (at_ho g1 j s) as Hat1 by (by eapply at_frame).
  apply wp_bind. eapply wp_mono; [by eapply ho_phase_spec|]. intros o g2 Ho.
  rewrite (ho_at_step_at _ _ _ Hat). destruct o as [j' r|j' r].
  - apply wp_bind. eapply wp_mono; [by eapply ho_after_spec|].
    intros [j''|[jx [[]|]]] g3 H3; [|by intros E|by intros E|by intros E].
    destruct H3 as (s' & H3). by eapply IH.
  - intros E. simpl in *. subst r. destruct Ho as (H1 & -> & H3). eauto.
Qed.

(** ** Linking *)

Lemma wp_link_bind {A B} drv yld (p : prog I A) (f : A → prog I B) g Q :
  WP p g (λ a g', WP (link drv yld (f a)) g' Q) → WP (link drv yld (bind p f)) g Q.
Proof.
  revert g. induction p as [a| |X e k IH]; intros g; [done..|].
  intros [Hr Hx]. destruct e; try done; cbn [bind link]; (split; [done|]); intros x Hax; by apply IH, Hx.
Qed.

(** A procedure the monitor lets run makes no linked call. *)
Lemma wp_link {A} drv yld (p : prog I A) g Q : WP p g Q → WP (link drv yld p) g Q.
Proof.
  revert g. induction p as [a| |X e k IH]; intros g; [done..|].
  intros [Hr Hx]. destruct e; try done; cbn [link]; (split; [done|]); intros x Hax; by apply IH, Hx.
Qed.

Lemma wp_link_bind_linked {A B} drv yld (p : prog I A) (f : A → prog I B) g Q :
  WP (link drv yld p) g (λ a g', WP (link drv yld (f a)) g' Q) → WP (link drv yld (bind p f)) g Q.
Proof.
  revert g. induction p as [a| |X e k IH]; intros g; [done..|].
  destruct e; cbn [bind link]; intros H; try (split; [apply H|]; intros x Hax; by apply IH, H);
    apply wp_bind; eapply wp_mono; [by apply wp_bind_inv in H| |by apply wp_bind_inv in H|];
    intros x g' Hx; by apply IH.
Qed.

Definition drives_to (drv : Journal → nat → prog I (Journal * result Flow unit)) : Prop :=
  ∀ g j s, at_ho g j s → WP (drv j 0%nat) g drive_post.

Lemma ho_run_loop_spec drv yld turns fuel g j :
  drives_to drv → holding g j → WP (link drv yld (run_loop cfg turns fuel j)) g (λ _ _, True).
Proof.
  intros Hd. revert g j. induction turns as [|turns IH]; intros g j Hh; cbn [run_loop]; [done|].
  destruct (is_open j) eqn:Ho; [|done]. cbn [negb]. destruct (holding_at _ _ Hh Ho) as [s Hat].
  destruct (decide (st_phase s = PhDone)) as [Hdone|Hnd].
  - assert (current j = None) as ->.
    { apply current_None. rewrite (ah_steps _ _ _ Hat). by constructor. }
    apply wp_link. eapply ho_finish_spec; [done|]. by left.
  - rewrite (at_current _ _ _ Hat Hnd). unfold turn. rewrite (ho_at_step_at _ _ _ Hat), (ah_actor _ _ _ Hat).
    cbn [bind call link]. apply wp_bind. eapply wp_mono; [exact (Hd _ _ _ Hat)|].
    intros [j' [[]|]] g' Hx; [|done..]. cbn [bind link]. destruct (Hx eq_refl) as (s' & H1 & _).
    apply IH. by eapply at_holding.
Qed.

Lemma run_spec drv yld turns fuel g j :
  drives_to drv → holding g j → WP (link drv yld (run cfg turns fuel j)) g (λ _ _, True).
Proof.
  intros Hd Hh. unfold run. destruct Hh as [? ? ? (Hr & Hx)] eqn:E. rewrite Hr. clear E.
  apply wp_link_bind_linked. eapply wp_mono; [apply ho_run_loop_spec; [done|by split]|]. by intros r g' _.
Qed.

(** ** Settling *)

Lemma begin_restore_spec g j s party :
  at_ho g j s → st_phase s ≠ PhDone → (touched_old (st_phase s) = true) →
  WP (begin_actor_restore cfg j party) g (λ r g', match r with Ok j' => ∃ s', at_ho g' j' s' | Err _ => True end).
Proof.
  intros Hat Hd Ht. unfold begin_actor_restore. rewrite (at_current _ _ _ Hat Hd), (ho_at_step_at _ _ _ Hat).
  rewrite (ah_actor _ _ _ Hat). cbn [negb orb]. case_bool_decide as H1; [by eexists|].
  case_bool_decide as H2; [by eexists|]. cbn [orb].
  eapply wp_mono; [eapply ho_advance_spec; [done|by apply edited_step; eapply ho_edited_at|]|].
  - apply move_restoring; [apply Hat|by intros E; rewrite E in Ht|by apply touched_edges|eauto].
  - intros [j'|] g' H; [by eexists|done].
Qed.

Lemma ho_interrupt_spec g j s :
  at_ho g j s → st_phase s ≠ PhDone → touched_old (st_phase s) = false →
  WP (interrupt cfg j) g (λ _ _, True).
Proof.
  intros Hat Hd Ht. unfold interrupt. rewrite (ah_restore _ _ _ Hat), (at_current _ _ _ Hat Hd).
  cbv zeta. change (default 0%nat (Some 0%nat)) with 0%nat. rewrite (ah_steps _ _ _ Hat). change ([s] !! 0%nat) with (Some s). cbv iota beta.
  rewrite (ah_mig _ _ _ Hat).
  cbn [bind]. apply wp_bind. eapply wp_mono; [by eapply ho_attempt_containers_spec|]. intros created g1 [Hf1 Hl].
  assert (at_ho g1 j s) as Hat1 by (by eapply at_frame).
  assert (∀ l g1, at_ho g1 j s → Forall (λ c, found_new (cfg:=cfg) s c g1) l →
    WP (remove_created cfg l) g1 (hfr g1)) as Hrm.
  { clear -Ht. induction l as [|c l IH]; intros g1 Hat1 Hl; cbn [remove_created]; [by h_step|].
    apply Forall_cons in Hl as [Hc Hl]. apply h_bind.
    - eapply act_at; [done|done|]. intros g2 Hf2 H2. apply (at_holds _ j s); [done|]. right; left.
      destruct (found_frame _ _ _ _ Hf2 Hc).
      split; [split_and!; [done|by apply fn_not_old|done]|by left].
    - intros r g2 Hf2. apply h_frame; [done|].
      destruct r as [|[]]; try (by h_step); (apply IH; [by eapply at_frame|by eapply founds_frame]). }
  assert (∀ l, Forall (λ c, found_new (cfg:=cfg) s c g1) l → ∀ text,
    WP (do? _ <- remove_created cfg l; do r <- finish j StFailed (Some Interrupted) text false; Ret (forget r))
      g1 (λ _ _, True)) as Hend.
  { intros l Hl' text. apply wp_bind_ok. eapply wp_mono; [by apply Hrm|]. intros [] g2 Hf2; [|done].
    apply wp_bind. eapply wp_mono; [|by intros].
    eapply ho_finish_spec; [by eapply at_frame|]. right. split_and!; [done|by eexists| |done].
    unfold may_end. by rewrite Ht. }
  destruct created as [l|[]]; first [done|by apply Hend].
Qed.
Lemma hfr_party_of j g : WP (party_of (I:=I) cfg j) g (hfr g).
Proof. unfold party_of. repeat h_step. Qed.

Lemma party_ok_old s s' p :
  old_container s' = old_container s → party_ok (cfg:=cfg) s p → party_ok (cfg:=cfg) s' p.
Proof.
  intros Ho [H1 H2 H3]. assert (is_old cfg s' ↔ is_old cfg s) as Hi by (unfold is_old; by rewrite Ho).
  by split; rewrite ?Hi.
Qed.

Definition counted (j : Journal) (p : Party) : prog I (result Journal unit) :=
  match count_successor_start (self_container cfg) j p with
  | Some j' => commit j'
  | None => Ret (Ok j)
  end.

Lemma counted_spec g j s p :
  at_ho g j s → party_ok (cfg:=cfg) s p →
  WP (counted j p) g (λ r g', match r with Ok j' => ∃ s', at_ho g' j' s' ∧ party_ok (cfg:=cfg) s' p | Err _ => True end).
Proof.
  intros Hat Hok. unfold counted, count_successor_start.
  assert (∃ s', at_ho g j s' ∧ party_ok (cfg:=cfg) s' p) as Hsame by eauto.
  destruct (negb _ || _) eqn:Ep; [done|]. apply orb_false_iff in Ep as [Ep _].
  apply negb_false_iff, bool_decide_eq_true in Ep as ->.
  destruct (decide (st_phase s = PhDone)) as [Hd|Hd].
  { assert (current j = None) as ->; [|done].
    apply current_None. rewrite (ah_steps _ _ _ Hat). by constructor. }
  rewrite (at_current _ _ _ Hat Hd), (ah_steps _ _ _ Hat). change ([s] !! 0%nat) with (Some s). cbv iota.
  rewrite (ah_actor _ _ _ Hat). cbn [negb orb]. destruct (touched_old (st_phase s)) eqn:Ht; [|done].
  cbn [negb orb]. destruct (_ || _); [done|].
  assert (ho_wf (bump_starts (self_container cfg) s)) as Hw.
  { split; simpl; [by intros [E|E]; rewrite E in Ht| |].
    - intros _. destruct (new_container s); [by eexists|by apply Hok].
    - intros n o. eapply named_disjoint; [done|done|apply Hat]. }
  eapply wp_mono; [eapply commit_spec; [done|by apply edited_step; eapply ho_edited_at|apply Hat|apply Hat|done|]|].
  - intros j' Hs Ho Hr Hre. eapply ho_counted; [apply Hat|apply Hat|done|..]; try done.
    simpl. by intros [? ->].
  - intros [j'|] g' H; [|done]. eexists. split; [done|]. by apply (party_ok_old s).
Qed.

Lemma actor_step_cases s p :
  st_phase s ≠ PhDone →
  match actor_step (st_phase s) (successor_starts s) p with
  | Terminal => False
  | SettleInterrupted => touched_old (st_phase s) = false
  | Continue => True
  | SettleRestore => touched_old (st_phase s) = true
  | Yield => p = Successor ∧ st_phase s = PhHandingBack
             ∨ p = Old ∧ (st_phase s = PhVerified ∨ st_phase s = PhOldDiscarded)
  end.
Proof.
  intros Hd. destruct (st_phase s), p as [| |[]]; simpl; try done; eauto; by destruct (_ <=? _)%Z.
Qed.

Definition yields_to (yld : Journal → Party → prog I (result unit unit)) : Prop :=
  ∀ g j s p, at_ho g j s → party_ok (cfg:=cfg) s p →
    (p = Successor ∧ st_phase s = PhHandingBack
     ∨ p = Old ∧ (st_phase s = PhVerified ∨ st_phase s = PhOldDiscarded)) →
    WP (yld j p) g (λ _ _, True).

Lemma settle_spec drv yld turns fuel g j :
  drives_to drv → yields_to yld → holding g j →
  WP (link drv yld (settle_journal cfg turns fuel j)) g (λ _ _, True).
Proof.
  intros Hdr Hy Hh. unfold settle_journal. apply wp_link_bind.
  destruct (is_open j) eqn:Ho.
  2: { eapply wp_mono; [apply hfr_party_of|]. intros p g1 _.
    replace (count_successor_start (self_container cfg) j p) with (@None Journal)
      by (unfold count_successor_start; by rewrite Ho, orb_true_r).
    cbn [bind_ok bind]. by rewrite (proj2 (settle_closed j p) Ho). }
  destruct (holding_at _ _ Hh Ho) as [s Hat].
  eapply wp_mono; [by eapply party_of_spec|]. intros p g1 [Hf1 Hok].
  assert (at_ho g1 j s) as Hat1 by (by eapply at_frame). fold (counted j p).
  apply wp_link_bind. eapply wp_mono; [by eapply counted_spec|]. intros [j'|] g2 H2; [|done].
  destruct H2 as (s' & Hat2 & Hok2).
  assert (∀ g3 j3, holding g3 j3 → WP (link drv yld (run cfg turns fuel j3)) g3 (λ _ _, True)) as Hrun
    by (intros; by apply run_spec).
  assert (WP (link drv yld (do? j0 <- restart_verifying cfg j'; run cfg turns fuel j0)) g2 (λ _ _, True)) as Hcont.
  { assert (restart_verifying cfg j' = Ret (I:=I) (Ok j')) as ->.
    { unfold restart_verifying. destruct (decide (st_phase s' = PhDone)) as [Hd|Hd].
      - assert (current j' = None) as ->; [|done].
        apply current_None. rewrite (ah_steps _ _ _ Hat2). by constructor.
      - rewrite (at_current _ _ _ Hat2 Hd), (ho_at_step_at _ _ _ Hat2), (ah_actor _ _ _ Hat2). by rewrite orb_true_r. }
    apply Hrun. by eapply at_holding. }
  unfold settle. rewrite (ah_open _ _ _ Hat2), (ah_restore _ _ _ Hat2). cbn [negb].
  destruct (decide (st_phase s' = PhDone)) as [Hd|Hd].
  { assert (current j' = None) as ->; [|exact Hcont].
    apply current_None. rewrite (ah_steps _ _ _ Hat2). by constructor. }
  rewrite (at_current _ _ _ Hat2 Hd), (ah_steps _ _ _ Hat2). change ([s'] !! 0%nat) with (Some s'). cbv iota.
  rewrite (ah_actor _ _ _ Hat2). pose proof (actor_step_cases s' p Hd) as Hcase.
  destruct (actor_step _ _ _); [done| |exact Hcont| |].
  - apply wp_link. by eapply ho_interrupt_spec.
  - apply wp_link_bind. eapply wp_mono; [by eapply begin_restore_spec|]. intros [j3|] g3 H3; [|done].
    destruct H3 as [s3 H3]. apply Hrun. by eapply at_holding.
  - cbn [link call]. apply wp_bind. eapply wp_mono; [by eapply Hy|]. done.
Qed.

Lemma yield_attempt_spec again : yields_to (yield_attempt cfg again).
Proof.
  intros g j s p Hat Hok Hp. unfold yield_attempt. rewrite (at_index _ _ _ Hat).
  apply wp_bind. eapply wp_mono; [by eapply yield_or_finish_spec|].
  intros [j' [[]|]] g' H; simpl in *; done.
Qed.

Lemma settle_linked_spec depth turns fuel : settles (settle_linked cfg depth turns fuel).
Proof.
  induction depth as [|depth IH]; intros g j Hh; [done|]. cbn [settle_linked].
  apply settle_spec; [|apply yield_attempt_spec|done].
  intros g1 j1 s1 H1. by apply (drive_spec _ _ _ _ _ s1).
Qed.
(** ** A process *)

(** What a process that waits for the lease keeps. *)
Definition waits (g g' : HWorld) : Prop :=
  h_lease g' = h_lease g ∧ (h_lease g = false → h_dur g' = h_dur g).

#[global] Instance waits_preorder : PreOrder waits.
Proof.
  split; [done|]. intros g1 g2 g3 [H1 H2] [H3 H4]. split; [congruence|].
  intros H. rewrite H4 by congruence. auto.
Qed.

Definition wfr {X} (g : HWorld) (_ : X) (g' : HWorld) : Prop := waits g g'.

Lemma quiet_waits {X} g (e : eff I X) x : hquiet e = true → waits g (ho_advance cfg g e x).
Proof.
  assert (∀ j g0, waits g g0 → waits g (h_found j g0)) as Hfound.
  { intros j g0 [H1 H2]. unfold h_found. destruct (h_lease g0) eqn:E; simpl; [|split; [congruence|done]].
    destruct (h_known g0); simpl; split; simpl; congruence. }
  assert (∀ c g0, waits g g0 → waits g (h_see c g0)) as Hsee.
  { intros c g0 [H1 H2]. unfold waits, h_see. destruct (c_running c); by split. }
  assert (∀ l g0, waits g g0 → waits g (foldr h_see g0 l)) as Hall.
  { intros l g0 H0. induction l as [|c l IH]; simpl; auto. }
  destruct e; simpl; try done; intros _; repeat case_match; auto; try done;
    first [by apply Hsee|by apply Hfound
          |match goal with l : list Container |- _ => destruct (Hall l g) end; by try split].
Qed.

Lemma wfr_call {X} (e : eff I X) g : hquiet e = true → WP (call e) g (wfr g).
Proof. intros Hq. apply h_call; [done|]. intros x _ _. by apply quiet_waits. Qed.

Lemma wfr_frame {X} (p : prog I X) g g1 : waits g g1 → WP p g1 (wfr g1) → WP p g1 (wfr g).
Proof. intros Hf H. eapply wp_mono; [exact H|]. intros r g2 H2. red. by etransitivity. Qed.

Lemma wfr_bind {A B} (p : prog I A) (f : A → prog I B) g :
  WP p g (wfr g) → (∀ a g1, WP (f a) g1 (wfr g1)) → WP (bind p f) g (wfr g).
Proof.
  intros Hp Hf. apply wp_bind. eapply wp_mono; [exact Hp|]. intros a g1 H1. by apply wfr_frame.
Qed.

Lemma wfr_bind_ok {A B E} (p : prog I (result A E)) (f : A → prog I (result B E)) g :
  WP p g (wfr g) → (∀ a g1, WP (f a) g1 (wfr g1)) → WP (bind_ok p f) g (wfr g).
Proof. intros Hp Hf. apply wfr_bind; [done|]. intros [a|e] g1; [done|]. exact (reflexivity g1). Qed.

Lemma wfr_ask {A} (e : eff I (result A EngineError)) g :
  hquiet e = true → WP (retrying cfg (call e)) g (wfr g).
Proof.
  intros Hq. unfold retrying. generalize 0%Z. revert g.
  induction (retries (timing cfg)) as [|n IH]; intros g k; cbn [retry_loop];
    (apply wfr_bind; [by apply wfr_call|]); intros r g1.
  - by destruct r.
  - destruct r as [|e']; [done|]. destruct (is_transient e'); [|done].
    apply wfr_bind; [by apply wfr_call|]. intros. apply IH.
Qed.

Ltac w_step :=
  match goal with
  | |- wp _ _ (retrying _ (call _)) _ (wfr _) => apply wfr_ask; reflexivity
  | |- wp _ _ (call _) _ (wfr _) => apply wfr_call; reflexivity
  | |- wp _ _ (Ret _) _ (wfr _) => exact (reflexivity _)
  | |- wp _ _ Spin _ _ => exact Logic.I
  | |- wp _ _ (bind_ok _ _) _ (wfr _) => apply wfr_bind_ok; [|intros ? ?]
  | |- wp _ _ (bind _ _) _ (wfr _) => apply wfr_bind; [|intros ? ?]
  | |- wp _ _ (let _ := _ in _) _ _ => cbv zeta
  | |- wp _ _ (match ?x with _ => _ end) _ _ => destruct x
  end.

Lemma wfr_attempt_containers j i g : WP (attempt_containers cfg j i) g (wfr g).
Proof. unfold attempt_containers. repeat w_step. Qed.

Lemma wfr_stray_named id l g : WP (stray_named cfg id l) g (wfr g).
Proof. revert g. induction l as [|c l IH]; intros g; cbn [stray_named]; repeat (w_step || apply IH). Qed.

Lemma wfr_stray g : WP (stray cfg) g (wfr g).
Proof.
  unfold stray, stray_party. repeat (w_step || apply wfr_attempt_containers || apply wfr_stray_named).
Qed.

Lemma wfr_while_waiting own g : WP (while_waiting cfg own) g (wfr g).
Proof. unfold while_waiting, waiting_successor, self_check. repeat w_step. Qed.

Lemma wfr_may_take own t g : WP (may_take_lease cfg own t) g (wfr g).
Proof. unfold may_take_lease, waiting_successor. repeat w_step. Qed.

(** Waiting for the lease touches nothing, and ends without it or having just taken it. *)
Lemma wp_waits {A B} (p : prog I A) (f : A → prog I B) g Q :
  h_lease g = false → WP p g (wfr g) →
  (∀ a g1, h_lease g1 = false → h_dur g1 = h_dur g → WP (f a) g1 Q) → WP (bind p f) g Q.
Proof.
  intros Hl Hp Hf. apply wp_bind. eapply wp_mono; [exact Hp|]. intros a g1 [H1 H2].
  apply Hf; [congruence|auto].
Qed.

Definition acquired g (r : result unit AcquireError) (g' : HWorld) : Prop :=
  h_dur g' = h_dur g ∧ match r with Ok _ => h_lease g' = true ∧ h_known g' = false | Err _ => True end.

Lemma take_lease_spec {E} (f : LeaseError → E) g :
  WP (map_errp f (call TakeLease)) g (λ r g', h_dur g' = h_dur g ∧
    match r with Ok _ => h_lease g' = true ∧ h_known g' = false | Err _ => g' = g end).
Proof. apply wp_map_errp, wp_call; [done|]. by intros [] _. Qed.

Lemma acquire_spec fuel own t g :
  h_lease g = false → WP (acquire_waiting cfg fuel own t) g (acquired g).
Proof.
  revert t g. induction fuel as [|fuel IH]; intros t g Hl; cbn [acquire_waiting]; [done|].
  apply wp_waits; [done|w_step|]. intros k g1 Hl1 Hd1. destruct k; [by split|].
  apply wp_waits; [done|unfold is_handover_party; repeat w_step|]. intros party g2 Hl2 Hd2.
  destruct (negb party).
  { apply wp_waits; [done|apply wfr_stray|]. intros [why|] g3 Hl3 Hd3; [split; [congruence|done]|].
    eapply wp_mono; [apply take_lease_spec|]. intros r g4 [H4 H5]. split; [congruence|by destruct r]. }
  apply wp_waits; [done|apply wfr_may_take|]. intros [may t'] g3 Hl3 Hd3.
  apply wp_bind, wp_mono with (Q := λ r g', h_dur g' = h_dur g3 ∧
    match r with Ok _ => h_lease g' = true ∧ h_known g' = false | Err _ => g' = g3 end).
  { destruct may; [apply take_lease_spec|done]. }
  intros [u|e] g4 [H4 H5]; [split; [congruence|done]|]. subst g4.
  destruct e as [|why|[]]; try (by split; [congruence|]).
  apply wp_waits; [done|apply wfr_while_waiting|]. intros u g5 Hl5 Hd5.
  apply wp_waits; [done|w_step|]. intros v g6 Hl6 Hd6.
  eapply wp_mono; [by apply IH|]. intros r g7 [H7 H8]. split; [congruence|done].
Qed.

Lemma linked_settles depth turns fuel {A} (p : prog I A) g Q :
  WP p g Q → WP (linked cfg depth turns fuel p) g Q.
Proof. apply wp_link. Qed.

Lemma drive_linked depth turns fuel : drives_to (drive_handover cfg (settle_linked cfg depth turns fuel) turns fuel).
Proof. intros g j s H. by apply (drive_spec _ _ _ _ _ s); [apply settle_linked_spec|]. Qed.

Lemma hfr_died g : WP (died (I:=I)) g (hfr g).
Proof. unfold died. repeat h_step. Qed.

(** The journal is found when it is first looked at. *)
Lemma found_holding g j :
  h_lease g = true → h_known g = false → actor_journal (h_dur g) → ho_finds g j → holding (h_found j g) j.
Proof.
  intros Hl Hk Ha Hf. unfold h_found. rewrite Hl, Hk. simpl. split; [done..|].
  eapply ho_steps_actor; [by apply Hf|done].
Qed.

Lemma settle_open_spec depth turns fuel g :
  h_lease g = true → h_known g = false → actor_journal (h_dur g) →
  WP (linked cfg depth turns fuel (settle_open cfg turns fuel)) g (λ _ _, True).
Proof.
  intros Hl Hk Ha. unfold linked, settle_open. apply wp_link_bind, h_call; [done|]. intros sc Hsc _.
  simpl in Hsc. cbn [ho_advance]. destruct (sc_unreadable sc); [|done].
  destruct (scan_open sc) as [j|]; [|done]. apply wp_link_bind_linked.
  eapply wp_mono; [apply settle_spec; [apply drive_linked|apply yield_attempt_spec|by apply found_holding]|].
  intros [] g' _; [done|]. apply wp_link, wp_bind. eapply wp_mono; [apply hfr_died|]. done.
Qed.

Lemma actor_start_spec depth turns fuel g :
  h_lease g = false → actor_journal (h_dur g) →
  WP (actor_start cfg depth turns fuel) g (λ _ _, True).
Proof.
  intros Hl Ha. unfold actor_start, resume_settles. apply wp_bind_ok, wp_map_errp. unfold acquire_lease_waiting.
  apply wp_waits; [done|unfold own_attempt_label; repeat w_step|]. intros own g1 Hl1 Hd1.
  eapply wp_mono; [by apply acquire_spec|]. intros [u|e] g2 [Hd2 H2]; [|done]. destruct H2 as [Hl2 Hk2].
  apply wp_bind, h_call; [done|]. intros x _ _. apply wp_bind, h_call; [done|]. intros k _ _.
  cbn [ho_advance]. destruct k; [done|].
  apply wp_bind_ok. eapply wp_mono; [apply take_lease_spec|]. intros [v|e] g3 [Hd3 H3]; [|done].
  apply wp_bind, h_call; [done|]. intros un _ _. cbn [ho_advance]. destruct un; [done|].
  apply wp_map_errp. eapply wp_mono; [apply settle_open_spec; [apply H3..|]|done]. congruence.
Qed.

Lemma actor_drive_spec depth turns fuel id g :
  h_lease g = true → h_known g = false → actor_journal (h_dur g) →
  WP (actor_drive cfg depth turns fuel id) g (λ _ _, True).
Proof.
  intros Hl Hk Ha. unfold actor_drive, linked, drive. apply wp_link_bind, wp_call; [done|].
  intros r Hr. destruct r as [[j|]|]; [|done..]. apply wp_link_bind_linked.
  change (advance_ghost M g (LoadJournal id) (Ok (Some j))) with (h_found j g).
  eapply wp_mono; [apply run_spec; [apply drive_linked|by apply found_holding]|].
  intros [] g' _; [done|]. apply wp_link. eapply wp_mono; [apply hfr_died|]. done.
Qed.
End driver.
