(* ===== verification/HandoverMachine.v ===== *)
(** * Several actors on one machine

    A hand-over is two processes of the recovery actor on one machine, and more when they die
    and are started again. This file puts any number of them side by side, each running
    [actor_start] or [actor_drive], in steps that interleave in any order, sharing the journal
    on disk and the machine's lease; a process may die between any two of its calls, and the
    lease goes with it. What a process assumes of the others in [HandoverSpec] is proved here of
    them. *)
From S2P Require Import Prelude Platform Wire Journal Settle Effects Replace ReplaceSpec Handover HandoverSpec HandoverRules HandoverProofs HandoverRun.

(** ** The machine *)

(** A process starts, and waits for the lease, or holds it and drives the attempt it accepted. *)
Inductive life := Starts | Drives (id : string).

Definition process {I} {RD : ReplaceDeps I} {HD : HandoverDeps} (cfg : Config)
    (depth turns fuel : nat) (w : life) : prog I unit :=
  match w with
  | Starts => do _ <- actor_start cfg depth turns fuel; Ret tt
  | Drives id => actor_drive cfg depth turns fuel id
  end.

Section machine.
Context {I : Type} (cfgs : nat → Config).

(** The journal on disk and who holds the lease; per process, whether it runs, what it has left
    to do and what it has seen. *)
Record MState := mkMState {
  ms_disk : Journal;
  ms_holder : option nat;
  ms_runs : nat → bool;
  ms_left : nat → prog I unit;
  ms_seen : nat → HWorld }.

(** What the files and the lease may answer. *)
Definition shared_allows {X} (m : MState) (n : nat) (e : eff I X) : X → Prop :=
  match e in eff _ X return X → Prop with
  | LoadJournal _ => λ r, ∀ j, r = Ok (Some j) → j = ms_disk m
  | ScanJournals => λ sc, ∀ j, scan_open sc = Some j → j = ms_disk m
  | TakeLease => λ r, r = Ok tt → ms_holder m = None ∨ ms_holder m = Some n
  | e => λ x, ho_allows (cfgs n) (ms_seen m n) e x
  end.

(** The journal after a call: a write that failed may have happened. *)
Definition next_disk {X} (m : MState) (e : eff I X) : X → Journal → Prop :=
  match e in eff _ X return X → Journal → Prop with
  | StoreJournal j => λ r d, match r with Ok _ => d = j | Err _ => d = ms_disk m ∨ d = j end
  | _ => λ _ d, d = ms_disk m
  end.

Definition free_of (n : nat) (h : option nat) : option nat :=
  if bool_decide (h = Some n) then None else h.

Definition next_holder {X} (m : MState) (n : nat) (e : eff I X) : X → option nat :=
  match e in eff _ X return X → option nat with
  | TakeLease => λ r, match r with Ok _ => Some n | Err _ => ms_holder m end
  | ReleaseLease => λ _, free_of n (ms_holder m)
  | _ => λ _, ms_holder m
  end.

Definition upd {A} (f : nat → A) (n : nat) (a : A) : nat → A :=
  λ k, if (k =? n)%nat then a else f k.

Inductive machine_step (m : MState) : MState → Prop :=
| step_acts n X (e : eff I X) k x d :
    ms_runs m n = true → ms_left m n = Vis e k →
    shared_allows m n e x → next_disk m e x d →
    machine_step m (mkMState d (next_holder m n e x) (ms_runs m) (upd (ms_left m) n (k x))
                      (upd (ms_seen m) n (ho_advance (cfgs n) (ms_seen m n) e x)))
| step_dies n :
    ms_runs m n = true →
    machine_step m (mkMState (ms_disk m) (free_of n (ms_holder m)) (upd (ms_runs m) n false)
                      (ms_left m) (ms_seen m)).

(** A machine on which an attempt to replace the recovery actor is open: each process runs this
    program, at its own version and on its own data; the one that drives holds the lease, and
    nobody has looked at anything yet. *)
Record started (j : Journal) (m : MState) : Prop := mkStarted {
  st_disk : ms_disk m = j;
  st_journal : actor_journal j;
  st_process : ∀ n, ∃ RD HD depth turns fuel w,
    ms_left m n = @process I RD HD (cfgs n) depth turns fuel w ∧
    (∀ id, w = Drives id → ms_runs m n = true → ms_holder m = Some n) ∧
    h_lease (ms_seen m n) = match w with Drives _ => true | Starts => false end;
  st_blank : ∀ n, h_dur (ms_seen m n) = j ∧ h_known (ms_seen m n) = false }.

(** ** The invariant *)

Record proc_ok (m : MState) (n : nat) : Prop := mkProcOk {
  pk_safe : wp (hwatch (cfgs n)) True (ms_left m n) (ms_seen m n) (λ _ _, True);
  pk_lease : h_lease (ms_seen m n) = true → ms_holder m = Some n;
  pk_behind : rtc ho_step (h_dur (ms_seen m n)) (ms_disk m);
  pk_known : h_lease (ms_seen m n) = true → h_known (ms_seen m n) = true →
    h_dur (ms_seen m n) = ms_disk m }.

Definition machine_ok (m : MState) : Prop := ∀ n, ms_runs m n = true → proc_ok m n.

Lemma process_safe {RD : ReplaceDeps I} {HD : HandoverDeps} cfg depth turns fuel w g :
  actor_journal (h_dur g) → h_known g = false →
  h_lease g = match w with Drives _ => true | Starts => false end →
  wp (hwatch cfg) True (process cfg depth turns fuel w) g (λ _ _, True).
Proof.
  intros Ha Hk Hl. destruct w as [|id]; cbn [process].
  - apply wp_bind. eapply wp_mono; [by apply actor_start_spec|done].
  - by apply actor_drive_spec.
Qed.

Lemma started_ok j m : started j m → machine_ok m.
Proof.
  intros [Hd Hj Hp Hb] n Hr. destruct (Hp n) as (RD & HD & depth & turns & fuel & w & Hl & Hw & Hle).
  destruct (Hb n) as [Hdur Hk]. split.
  - rewrite Hl. apply process_safe; [by rewrite Hdur|done|done].
  - rewrite Hle. destruct w as [|id]; [done|]. intros _. by apply (Hw id).
  - by rewrite Hdur, Hd.
  - rewrite Hk. done.
Qed.

(** Where the process that acts stands. *)
Lemma acting_disk {X} m n (e : eff I X) k x d :
  proc_ok m n → ms_left m n = Vis e k → next_disk m e x d → rtc ho_step (ms_disk m) d.
Proof.
  intros [Hs Hl _ Hkn] He Hd. rewrite He in Hs. destruct Hs as [Hreq _].
  destruct e; simpl in Hd; try by subst.
  destruct Hreq as (H1 & H2 & H3 & _). rewrite (Hkn H1 H2) in H3.
  destruct x; [subst; by apply rtc_once|]. destruct Hd as [->| ->]; [done|by apply rtc_once].
Qed.

Lemma shared_lawful {X} m n (e : eff I X) x :
  proc_ok m n → shared_allows m n e x → ho_allows (cfgs n) (ms_seen m n) e x.
Proof.
  intros [_ _ Hb _] Hs. destruct e; simpl in *; try done.
  - destruct x as [[j|]|]; try done. intros _ _. by rewrite (Hs j eq_refl).
  - destruct (scan_open x) as [j|]; [|done]. intros _ _. by rewrite (Hs j eq_refl).
Qed.

Lemma upd_same {A} (f : nat → A) n a : upd f n a n = a.
Proof. unfold upd. by rewrite Nat.eqb_refl. Qed.

Lemma upd_other {A} (f : nat → A) n k a : k ≠ n → upd f n a k = f k.
Proof. intros H. unfold upd. by rewrite (proj2 (Nat.eqb_neq k n) H). Qed.

Definition of_lease {X} (e : eff I X) : bool :=
  match e with TakeLease | ReleaseLease => true | _ => false end.

Lemma found_lease j g : h_lease (h_found j g) = h_lease g.
Proof. unfold h_found. destruct (h_lease g) eqn:E; [|done]. by destruct (h_known g). Qed.

Lemma advance_lease {X} cfg g (e : eff I X) x :
  of_lease e = false → ho_allows cfg g e x → h_lease (ho_advance cfg g e x) = h_lease g.
Proof.
  intros He Ha. destruct (hkeeps e) eqn:Hk; [by apply (hf_lease _ _ (hkeeps_frame _ _ _ Hk Ha))|].
  destruct e; try done; simpl.
  - by destruct x.
  - destruct x as [[j|]|]; [apply found_lease|done..].
Qed.

(** The lease after a call is the caller's if it believes so. *)
Lemma next_holder_self {X} m n (e : eff I X) x :
  proc_ok m n → ho_allows (cfgs n) (ms_seen m n) e x →
  h_lease (ho_advance (cfgs n) (ms_seen m n) e x) = true → next_holder m n e x = Some n.
Proof.
  intros [_ Hl _ _] Ha H. destruct (of_lease e) eqn:He.
  - destruct e; try done; simpl in *. destruct x; [done|by apply Hl].
  - rewrite advance_lease in H by done. destruct e; try done; by apply Hl.
Qed.

(** The other holder stays what it is unless the caller takes the lease, and then there was
    none. *)
Lemma next_holder_other {X} m n k (e : eff I X) x :
  k ≠ n → shared_allows m n e x → ms_holder m = Some k → next_holder m n e x = Some k.
Proof.
  intros Hne Hs Hk. destruct (of_lease e) eqn:He; [|by destruct e]. destruct e; try done; simpl in *.
  - destruct x as [[]|]; [|done]. destruct (Hs eq_refl); congruence.
  - unfold free_of. rewrite bool_decide_eq_false_2; [done|congruence].
Qed.

Definition of_journal {X} (e : eff I X) : bool :=
  match e with
  | StoreJournal _ | LoadJournal _ | ScanJournals | TakeLease | ReleaseLease => true
  | _ => false
  end.

Lemma advance_journal {X} cfg g (e : eff I X) x :
  of_journal e = false → let g' := ho_advance cfg g e x in
  h_dur g' = h_dur g ∧ h_known g' = h_known g ∧ h_lease g' = h_lease g.
Proof.
  assert (∀ c g0, h_dur (h_see c g0) = h_dur g0 ∧ h_known (h_see c g0) = h_known g0 ∧
    h_lease (h_see c g0) = h_lease g0) as Hsee.
  { intros c g0. unfold h_see. by destruct (c_running c). }
  assert (∀ l g0, h_dur (foldr h_see g0 l) = h_dur g0 ∧ h_known (foldr h_see g0 l) = h_known g0 ∧
    h_lease (foldr h_see g0 l) = h_lease g0) as Hall.
  { intros l g0. induction l as [|c l IH]; [done|]. cbn [foldr].
    destruct (Hsee c (foldr h_see g0 l)) as (-> & -> & ->). exact IH. }
  destruct e; try done; intros _; cbn [ho_advance]; cbv zeta; repeat case_match; try done;
    first [exact (Hsee _ (h_with_own _ g))|exact (Hsee _ g)|exact (Hall _ g)].
Qed.

(** The journal as the caller believes it. *)
Lemma advance_behind {X} m n (e : eff I X) x d :
  proc_ok m n → require (hwatch (cfgs n)) (ms_seen m n) e → shared_allows m n e x → next_disk m e x d →
  let g' := ho_advance (cfgs n) (ms_seen m n) e x in
  rtc ho_step (h_dur g') d ∧ (h_lease g' = true → h_known g' = true → h_dur g' = d).
Proof.
  intros Hok Hreq Hs Hd. pose proof (shared_lawful _ _ _ _ Hok Hs) as Ha. destruct Hok as [_ Hl Hb Hkn].
  assert (∀ j, j = ms_disk m → rtc ho_step (h_dur (h_found j (ms_seen m n))) (ms_disk m) ∧
    (h_lease (h_found j (ms_seen m n)) = true → h_known (h_found j (ms_seen m n)) = true →
     h_dur (h_found j (ms_seen m n)) = ms_disk m)) as Hfound.
  { intros j ->. unfold h_found. destruct (h_lease (ms_seen m n)) eqn:E1; simpl; [|by rewrite E1].
    destruct (h_known (ms_seen m n)) eqn:E2; simpl; [|done]. rewrite E1, E2. auto. }
  destruct (of_journal e) eqn:He.
  2: { assert (d = ms_disk m) as -> by (by destruct e). simpl.
       destruct (advance_journal (cfgs n) (ms_seen m n) e x He) as (-> & -> & ->). done. }
  destruct e; try done; simpl in *.
  - destruct Hreq as (H1 & H2 & H3 & _). destruct x as [u|why]; simpl; [by subst|].
    split; [|done]. rewrite (Hkn H1 H2) in *. destruct Hd as [->| ->]; [done|by apply rtc_once].
  - subst d. destruct x as [[j|]|]; [by apply Hfound, Hs|done..].
  - subst d. destruct (scan_open x) as [j|]; [by apply Hfound, Hs|done].
  - subst d. by destruct x.
  - by subst d.
Qed.

Lemma step_ok m m' : machine_ok m → machine_step m m' → machine_ok m'.
Proof.
  intros Hm Hst. destruct Hst as [n X e k x d Hr Hleft Hs Hd|n Hr].
  - pose proof (Hm n Hr) as Hn. pose proof (shared_lawful _ _ _ _ Hn Hs) as Ha.
    pose proof (pk_safe _ _ Hn) as Hsafe. rewrite Hleft in Hsafe. destruct Hsafe as [Hreq Hrest].
    destruct (advance_behind _ _ _ _ _ Hn Hreq Hs Hd) as [Hb Hk].
    intros i Hi. simpl in Hi. destruct (decide (i = n)) as [->|Hne].
    { split; simpl; rewrite !upd_same; [by apply Hrest|by apply next_holder_self|exact Hb|exact Hk]. }
    pose proof (Hm i Hi) as [H1 H2 H3 H4]. split; simpl; rewrite !upd_other by done.
    + done.
    + intros Hl. by apply next_holder_other, H2.
    + etransitivity; [exact H3|by eapply acting_disk].
    + intros Hl Hkn. rewrite (H4 Hl Hkn). destruct (of_journal e) eqn:He; [|by destruct e; simplify_eq/=].
      destruct e; try done; simpl in *; try by subst. destruct Hreq as (Hl' & _).
      specialize (H2 Hl). specialize (pk_lease _ _ Hn Hl'). congruence.
  - intros i Hi. simpl in Hi. destruct (decide (i = n)) as [->|Hne]; [by rewrite upd_same in Hi|].
    rewrite upd_other in Hi by done. pose proof (Hm i Hi) as [H1 H2 H3 H4]. split; simpl; try done.
    intros Hl. unfold free_of. rewrite (H2 Hl), bool_decide_eq_false_2 by congruence. done.
Qed.

Lemma reached_ok j m m' : started j m → rtc machine_step m m' → machine_ok m'.
Proof.
  intros Hs Hr. apply started_ok in Hs. induction Hr as [|m1 m2 m3 H12 _ IH]; [done|].
  apply IH. by eapply step_ok.
Qed.

(** ** The theorems *)

(** The next call of a running process. *)
Definition about_to {X} (m : MState) (n : nat) (e : eff I X) : Prop :=
  ms_runs m n = true ∧ ∃ k, ms_left m n = Vis e k.

(** What changes the machine: a container, the journal, the service's record, [seed.json]. *)
Definition changes {X} (e : eff I X) : bool :=
  match e with
  | CreateContainer _ | StartContainer _ | StopContainer _ _ | SetRestartPolicy _ _
  | RenameContainer _ _ | RemoveContainer _ | StoreJournal _ | StoreService _ | StoreSeed _ => true
  | _ => false
  end.

Lemma about_to_requires j m m' {X} n (e : eff I X) :
  started j m → rtc machine_step m m' → about_to m' n e → changes e = true →
  ms_holder m' = Some n ∧ h_dur (ms_seen m' n) = ms_disk m' ∧ ho_requires (cfgs n) (ms_seen m' n) e.
Proof.
  intros Hs Hr (Hrun & k & Hk) Hc. destruct (reached_ok _ _ _ Hs Hr n Hrun) as [Hsafe H1 _ H3].
  rewrite Hk in Hsafe. destruct Hsafe as [Hreq _]. simpl in Hreq.
  assert (h_lease (ms_seen m' n) = true ∧ h_known (ms_seen m' n) = true) as [Hl Hkn].
  { destruct e; try done; by destruct Hreq as (? & ? & _). }
  auto.
Qed.

(** (C6) One actor acts: however many processes run, and whenever they start, die or hand over,
    the container engine, the journal, the service record and [seed.json] are changed only by
    the process that holds the machine's lease, and no two processes are ever about to change
    them at once. *)
Theorem one_actor_acts j m m' {X Y} n n' (e : eff I X) (e' : eff I Y) :
  started j m → rtc machine_step m m' → about_to m' n e → about_to m' n' e' →
  changes e = true → changes e' = true → n = n' ∧ ms_holder m' = Some n.
Proof.
  intros Hs Hr He He' Hc Hc'.
  destruct (about_to_requires _ _ _ _ _ Hs Hr He Hc) as (H1 & _).
  destruct (about_to_requires _ _ _ _ _ Hs Hr He' Hc') as (H2 & _). split; [congruence|done].
Qed.

Lemma disk_follows m m' : machine_ok m → rtc machine_step m m' → rtc ho_step (ms_disk m) (ms_disk m').
Proof.
  intros Hs Hr. induction Hr as [|m1 m2 m3 H12 _ IH]; [done|]. pose proof (step_ok _ _ Hs H12) as H2.
  etransitivity; [|by apply IH]. destruct H12 as [n X e k x d Hrun Hleft _ Hd|]; [|done].
  by eapply acting_disk; [apply Hs|..].
Qed.

(** (C7) The journal on disk follows the abstract machine of a hand-over, whichever process
    writes it, however writes fail, and wherever processes die. *)
Theorem handover_journal_refines j m m' :
  started j m → rtc machine_step m m' → rtc ho_step j (ms_disk m').
Proof.
  intros Hs Hr. rewrite <- (st_disk _ _ Hs). apply disk_follows; [by eapply started_ok|done].
Qed.

(** Phases are journalled before they are acted on: what a process is about to change is
    what the phase of the journal on disk lets it change ([ho_requires]). *)
Theorem handover_journalled_before_acting j m m' {X} n (e : eff I X) :
  started j m → rtc machine_step m m' → about_to m' n e → changes e = true →
  h_dur (ms_seen m' n) = ms_disk m' ∧ ho_requires (cfgs n) (ms_seen m' n) e.
Proof. intros Hs Hr He Hc. by destruct (about_to_requires _ _ _ _ _ Hs Hr He Hc). Qed.

(** The old actor survives until its successor verified: its container is removed only by
    another process, and only once the journal on disk says the successor verified, or, while
    a hand-over is being ended as failed, when it was found stopped. *)
Theorem old_actor_survives j m m' n id :
  started j m → rtc machine_step m m' → about_to m' n (RemoveContainer id) →
  let s := the_step (ms_disk m') in
  old_container s = Some id →
  is_me_id (cfgs n) id = false ∧
  (st_phase s = PhOldDiscarded ∨ ending (st_phase s) = true ∧ id ∈ h_stopped (ms_seen m' n)).
Proof.
  intros Hs Hr He s Ho. destruct (about_to_requires _ _ _ _ _ Hs Hr He eq_refl) as (_ & Hd & Hq).
  destruct Hq as (_ & _ & Hq). rewrite Hd in Hq. fold s in Hq.
  destruct Hq as [(_ & ? & ?)|[((_ & Hne & _) & _)|[(_ & _ & Hne & _)|(_ & Hne & _)]]]; done.
Qed.

(** What outlives a hand-over names a verified image only: the service record is written
    once the successor verified, [seed.json] once the old actor is discarded as well, both with
    the image of the attempt and never by the old actor. *)
Theorem records_follow_verification j m m' {X} n (e : eff I X) :
  started j m → rtc machine_step m m' → about_to m' n e →
  let s := the_step (ms_disk m') in
  match e with
  | StoreService r =>
      st_phase s = PhVerified ∧ ¬ is_old (cfgs n) s ∧ sr_role r = RecoveryActor ∧ sr_image r = st_image s
  | StoreSeed f => st_phase s = PhOldDiscarded ∧ ¬ is_old (cfgs n) s ∧ sf_image f = st_image s
  | _ => True
  end.
Proof.
  intros Hs Hr He s. destruct e; try done;
    destruct (about_to_requires _ _ _ _ _ Hs Hr He eq_refl) as (_ & Hd & _ & _ & Hq);
    rewrite Hd in Hq; fold s in Hq; destruct_and! Hq; by split_and!.
Qed.

(** An outcome that says [restored] is true: the process that writes it is the old actor,
    or one that runs the old actor's image, and the machine's recovery-actor name is its own
    container's. *)
Theorem handover_restored_is_true j m m' n d :
  started j m → rtc machine_step m m' → about_to m' n (StoreJournal d) →
  is_open d = false → res_restored (j_result d) = true →
  put_back (cfgs n) (ms_seen m' n) (the_step (ms_disk m')).
Proof.
  intros Hs Hr He Ho Hre. destruct (about_to_requires _ _ _ _ _ Hs Hr He eq_refl) as (_ & Hd & _ & _ & Hq).
  rewrite Hd in Hq. by apply Hq.
Qed.

(** What the abstract machine remembers of verification. *)
Definition was_verified (j d : Journal) : Prop :=
  ∃ v, rtc ho_step j v ∧ st_phase (the_step v) = PhVerified ∧ is_Some (new_container (the_step v)) ∧
    rtc ho_step v d.

Definition passed j d : Prop :=
  st_phase (the_step d) = PhVerified ∨ st_phase (the_step d) = PhOldDiscarded
  ∨ is_open d = true ∧ st_phase (the_step d) = PhDone ∨ res_state (j_result d) = StSucceeded →
  was_verified j d.

Lemma was_verified_step j d d' : was_verified j d → ho_step d d' → was_verified j d'.
Proof. intros (v & ? & ? & ? & ?) Hst. exists v. split_and!; [done..|]. by eapply rtc_r. Qed.

Lemma passed_step j d d' :
  rtc ho_step j d → actor_journal d → passed j d → ho_step d d' → passed j d'.
Proof.
  intros Hr Ha Hp Hst. pose proof (ho_step_actor _ _ Hst Ha) as (_ & s1 & Hs1 & _ & _ & Hwf).
  assert (the_step d' = s1) as E1 by (unfold the_step, step_at; by rewrite Hs1).
  unfold passed. rewrite E1. intros Hd.
  assert (∀ s, j_steps d = [s] → the_step d = s) as E by (intros s Hs; unfold the_step, step_at; by rewrite Hs).
  destruct (decide (st_phase s1 = PhVerified)) as [Hv|Hnv].
  { exists d'. rewrite E1. split_and!; [by eapply rtc_r|done|by apply hw_created; rewrite ?Hv|done]. }
  destruct Hd as [Hd|Hd]; [done|]. apply (was_verified_step _ d); [|done]. apply Hp. clear Hp.
  inversion Hst as [s s' Hop Hs Hs' Hmv Ho' _ _|s s' Hop Hs Hs' Hph _ _ _ _ _ _ _ _ _ Ho' _ _
    |s Hop Hs Hph Hs' Hsu _ _|s Hop Hs _ Hs' Hf _ _]; rewrite (E _ Hs).
  - rewrite Hs1 in Hs'. injection Hs' as <-. pose proof (hm_edge _ _ Hmv) as He.
    destruct Hd as [Hd|[[_ Hd]|Hd]].
    + rewrite Hd in He. left. by destruct (st_phase s).
    + rewrite Hd in He. right; left. by destruct (st_phase s).
    + unfold is_open in Ho'. by rewrite Hd in Ho'.
  - rewrite Hs1 in Hs'. injection Hs' as <-. rewrite <- Hph.
    destruct Hd as [Hd|[[_ Hd]|Hd]]; [by right; left|by right; right; left|].
    unfold is_open in Ho'. by rewrite Hd in Ho'.
  - right; right; left. auto.
  - rewrite Hs1 in Hs'. injection Hs' as ->. exfalso. destruct Hd as [Hd|[[Ho _]|Hd]]; [done| |congruence].
    unfold is_open in Ho. by rewrite Hf in Ho.
Qed.

Lemma passed_all j d :
  actor_journal j → st_phase (the_step j) = PhAdmitted → is_open j = true → rtc ho_step j d → passed j d.
Proof.
  intros Ha Hp Ho Hr. revert d Hr. apply (rtc_ind_r (R:=ho_step) (λ d, passed j d)).
  - unfold passed. rewrite Hp. intros [?|[?|[[_ ?]|Hs]]]; try done.
    unfold is_open in Ho. by rewrite Hs in Ho.
  - intros y z Hy Hst IH. eapply passed_step; [done| |done|done]. by eapply ho_steps_actor.
Qed.

(** Success means replaced: if the journal on disk says [succeeded], the attempt was
    journalled as verified on the way, with the successor it created. *)
Theorem handover_success_is_verified j m m' :
  started j m → is_open j = true → st_phase (the_step j) = PhAdmitted → rtc machine_step m m' →
  res_state (j_result (ms_disk m')) = StSucceeded → was_verified j (ms_disk m').
Proof.
  intros Hs Ho Hp Hr Hsu. eapply passed_all; [apply Hs|done|done| |by right; right; right].
  rewrite <- (st_disk _ _ Hs). apply disk_follows; [by eapply started_ok|done].
Qed.
End machine.
