(* ===== verification/HandoverWaits.v ===== *)
(** * The waits of a hand-over

    Those that end, and a hand-back that is never given up. *)
From S2P Require Import Prelude Platform Wire Journal Settle Effects Replace Waits Handover HandoverProofs.

(** * The waits of a hand-over end

    A successor verifies itself against a deadline that every look at a container engine that
    does not answer pushes back. The waits end whatever the engine answers and
    however long its answers take: each look costs a poll, and the deadline moves only while the
    outage it stands for is below its limit. *)

Local Open Scope Z_scope.

Section waits.
Context {I : Type} `{!ReplaceDeps I} {HD : HandoverDeps} (cfg : Config).
Implicit Types (j : Journal) (g : Z).

Local Abbreviation WP p g Q := (wp (clock I) False p g Q).
Local Abbreviation pol := (ho_poll (handover cfg)).

Lemma ends_successor j i g : WP (successor cfg j i) g (ends g).
Proof. unfold successor, attempt_containers. repeat e_step. Qed.

(** ** Waiting for a deadline *)

(** A poll: at the deadline it stops, else it sleeps and looks again. *)
Lemma ends_poll {A} (stop rest : prog I A) d g :
  0 < pol → (∀ t, WP stop t (ends t)) → (∀ g', g < d → g + pol <= g' → WP rest g' (ends g')) →
  WP (do t <- call Now; if d <=? t then stop else do _ <- call (Sleep pol); rest) g (ends g).
Proof.
  intros Hp Hs Hr. split; [done|]. intros t Ht. cbn in Ht. cbn -[Z.leb].
  destruct (Z.leb_spec d t).
  - apply ends_from with (g1 := t); [done|]. apply Hs.
  - split; [done|]. intros _u _. apply ends_from with (g1 := t + Z.max 0 pol); [lia|]. apply Hr; lia.
Qed.

(** [n] polls reach the deadline. *)
Lemma await_contact_ends fuel d id g (n : nat) :
  0 < pol → d - g <= Z.of_nat n * pol → (n < fuel)%nat → WP (await_contact_loop cfg fuel d id) g (ends g).
Proof.
  intros Hp. revert g n. induction fuel as [|fuel IH]; intros g n Hd Hn; [lia|]. cbn [await_contact_loop].
  e_step; [e_step|]. e_step; [e_step|]. e_step; [e_step|]. e_step; [e_step|].
  apply ends_poll; [done|intros; e_step|]. intros g' H1 H2. destruct n as [|n]; [lia|].
  apply (IH g' n); lia.
Qed.

Lemma await_ready_ends fuel d j i g (n : nat) :
  0 < pol → d - g <= Z.of_nat n * pol → (n < fuel)%nat → WP (await_ready_loop cfg fuel d j i) g (ends g).
Proof.
  intros Hp. revert g n. induction fuel as [|fuel IH]; intros g n Hd Hn; [lia|]. cbn [await_ready_loop].
  e_step; [e_step|]. e_step; [e_step|]. e_step; [e_step|].
  match goal with |- context [if ?b then _ else _] => destruct b end; [e_step|].
  apply ends_poll; [done| |].
  - intros t. apply ends_bind_ok; [apply ends_successor|]. intros. e_step.
  - intros g' H1 H2. destruct n as [|n]; [lia|]. apply (IH g' n); lia.
Qed.

(** ** Verifying *)

(** Enough polls for the deadline ([n]), for the longest outage and for a contact with the agent. *)
Record enough (fuel n outages contacts : nat) : Prop := mkEnough {
  en_poll : 0 < pol;
  en_deadline : ho_verify (handover cfg) <= Z.of_nat n * pol;
  en_outage : ho_verify (handover cfg) * ENGINE_OUTAGE_LIMIT <= Z.of_nat outages * pol;
  en_contact : agent_contact (handover cfg) <= Z.of_nat contacts * pol;
  en_fuel : (n + outages + contacts < fuel)%nat }.

Lemma contact_ends fuel id g (n : nat) :
  0 < pol → agent_contact (handover cfg) <= Z.of_nat n * pol → (n < fuel)%nat →
  WP (await_agent_contact cfg fuel id) g (ends g).
Proof.
  intros Hp Hc Hn. unfold await_agent_contact. e_step; [e_step|].
  match goal with |- context [if ?b then _ else _] => destruct b end; [|e_step].
  split; [done|]. intros t Ht. cbn in Ht |- *. apply ends_from with (g1 := t); [done|].
  apply (await_contact_ends _ _ _ _ n); lia.
Qed.

(** A look leaves the deadline where it was, or moves it by the time the look took and a poll,
    at the price of at least that poll of outage. *)
Definition looked_at (tick d o g : Z) (x : result (Z * Z * option bool) Halt) (g' : Z) : Prop :=
  g <= g' ∧
  match x with
  | Ok (d', o', _) => d' = d ∧ o' = o ∨
      o < ho_verify (handover cfg) * ENGINE_OUTAGE_LIMIT ∧ o + pol <= o' ∧ d' <= d + (g' - tick) + pol
  | Err _ => True
  end.

Lemma look_successor_spec tick d o r g :
  tick <= g → WP (look_successor cfg tick d o r) g (looked_at tick d o g).
Proof.
  intros Ht. unfold look_successor, looked_at. destruct r as [[c|]|e]; try (split; [lia|auto]).
  destruct e; try (split; [lia|done]).
  all: match goal with |- context [if ?b then _ else _] => destruct b eqn:Hb end; [|split; [lia|done]].
  all: apply Z.ltb_lt in Hb; split; [done|]; intros t Hg; cbn in Hg |- *; split; [lia|right]; lia.
Qed.

Lemma verify_loop_ends fuel d o j g (n outages contacts : nat) :
  0 < pol → agent_contact (handover cfg) <= Z.of_nat contacts * pol →
  d - g <= Z.of_nat n * pol → ho_verify (handover cfg) * ENGINE_OUTAGE_LIMIT - o <= Z.of_nat outages * pol →
  (n + outages + contacts < fuel)%nat →
  WP (verify_successor_loop cfg fuel d o j) g (ends g).
Proof.
  intros Hp Hc. revert d o g n outages.
  induction fuel as [|fuel IH]; intros d o g n outages Hd Ho Hf; [lia|]. cbn [verify_successor_loop].
  apply ends_bind; [e_step|]. intros k g0 H0. destruct k; [e_step|].
  split; [done|]. intros tick Htick. cbn in Htick. cbv beta iota.
  apply ends_from with (g1 := tick); [done|].
  split; [done|]. intros silent _. split; [done|]. intros r _.
  refine (wp_bind _ _ (look_successor cfg tick d o r) _ _ _ _). eapply wp_mono; [apply (look_successor_spec tick d o r tick); lia|].
  intros [[[d' o'] running]|h] g2 [H2 Hx]; [|exact H2].
  assert (Hwait : ∀ why, WP (do t <- call Now;
      if d' <=? t then Ret (Err (fail_with Unhealthy why))
      else do _ <- call (Sleep pol); verify_successor_loop cfg fuel d' o' j) g2 (ends tick)).
  { intros why. split; [done|]. intros t Ht. cbn in Ht. cbn -[Z.leb].
    destruct (Z.leb_spec d' t); [unfold ends; cbn; lia|]. split; [done|]. intros _u _.
    apply ends_from with (g1 := t + Z.max 0 pol); [lia|].
    destruct Hx as [[-> ->]|(Hlt & Ho' & Hd')].
    - destruct n as [|n]; [lia|]. apply (IH _ _ _ n outages); lia.
    - destruct outages as [|outages]; [lia|]. apply (IH _ _ _ n outages); lia. }
  destruct silent as [why|], running as [[]|]; try apply Hwait.
  apply ends_from with (g1 := g2); [done|]. apply (contact_ends _ _ _ contacts); [done|done|lia].
Qed.

(** A successor's verification ends: whatever the container engine answers at each look, with
    engine outages pushing the deadline back, it reaches a verdict within the looks the deadline,
    the longest outage it tolerates and a contact with the agent allow. *)
Theorem verify_successor_terminates j fuel n outages contacts g l p :
  enough fuel n outages contacts →
  reaches (verify_successor cfg fuel j) l p → lawful (clock I) g l → p ≠ Spin.
Proof.
  intros [Hp Hd Ho Hc Hf] Hr Hl ->.
  assert (Hv : WP (verify_successor cfg fuel j) g (ends g)).
  { split; [done|]. intros t Ht. cbn in Ht |- *. apply ends_from with (g1 := t); [done|].
    apply (verify_loop_ends _ _ _ _ _ n outages contacts); lia. }
  exact (wp_reaches _ _ _ _ _ _ _ Hv Hr Hl).
Qed.
End waits.

(** * A hand-back that is never given up

    When the engine refuses to give the previous actor its name back, because another container
    holds it, a successor that failed stays at [restoring]: the refusal is not a transient error,
    so nothing waits, and each turn of the driver asks again and writes the journal again. *)

Definition is_sleep {I} (ev : event I) : bool := match ev_call ev with Sleep _ => true | _ => false end.
Definition is_journal {I} (ev : event I) : bool := match ev_call ev with StoreJournal _ => true | _ => false end.

Definition is_rename {I} (ev : event I) : bool := match ev_call ev with RenameContainer _ _ => true | _ => false end.
Definition count_events {I} (f : event I → bool) (l : list (event I)) : nat := List.length (List.filter f l).

(** An engine that knows both containers, neither by the actor's name, and refuses every rename
    with an error that is not transient; the process lives and its journal is written. *)
Definition refuses_names {I X} (e : eff I X) : X → Prop :=
  match e in eff _ X return X → Prop with
  | InspectContainer _ => λ r, ∃ c, r = Ok (Some c) ∧ c_name c ≠ NAME_RECOVERY_ACTOR
  | RenameContainer _ _ => λ r, ∃ er, r = Err er ∧ is_transient er = false ∧ er ≠ Crashed
  | Killed => λ k, k = false
  | StoreJournal _ => λ r, r = Ok ()
  | _ => λ _, True
  end.
(** A rename was asked for the actor's name, and answered with [er]. *)
Definition refused_with {I} (er : EngineError) (ev : event I) : Prop :=
  match ev_call ev in eff _ X return X → Prop with
  | RenameContainer _ n => λ r, n = NAME_RECOVERY_ACTOR ∧ r = Err er
  | _ => λ _, True
  end (ev_answer ev).
Definition unwilling {I} (ev : event I) : Prop := refuses_names (ev_call ev) (ev_answer ev).

(** The renames asked for, the journals written and the waits, so far. *)
Record Tally := mkTally { t_renames : nat; t_journals : nat; t_sleeps : nat }.

Definition tally (I : Type) : Monitor I Tally :=
  mkMonitor I Tally
    (λ X g e, match e with
              | Sleep _ => False
              | RenameContainer _ _ => t_renames g = t_journals g
              | StoreJournal _ => t_renames g = S (t_journals g)
              | _ => True
              end)
    (λ X g e, refuses_names e)
    (λ X g e _, match e with
                | RenameContainer _ _ => mkTally (S (t_renames g)) (t_journals g) (t_sleeps g)
                | StoreJournal _ => mkTally (t_renames g) (S (t_journals g)) (t_sleeps g)
                | Sleep _ => mkTally (t_renames g) (t_journals g) (S (t_sleeps g))
                | _ => g
                end).

Lemma unwilling_lawful {I} g (l : list (event I)) : Forall unwilling l → lawful (tally I) g l.
Proof. intros H. revert g. induction H as [|ev l H Hl IH]; intros g; [done|]. by split. Qed.

Lemma tally_counts {I} g (l : list (event I)) :
  history (tally I) g l = mkTally (t_renames g + count_events is_rename l) (t_journals g + count_events is_journal l)
    (t_sleeps g + count_events is_sleep l).
Proof.
  unfold count_events. revert g. induction l as [|[X e x] l IH]; intros [r j s]; cbn [history].
  - by rewrite !Nat.add_0_r.
  - rewrite IH. destruct e; cbn; f_equal; lia.
Qed.

(** A journal is written once for each rename, after it, and nothing waits. *)
Definition in_step (g : Tally) : Prop :=
  (t_journals g <= t_renames g <= S (t_journals g))%nat ∧ t_sleeps g = 0%nat.

Lemma tally_in_step {I A} (p : prog I A) g Q l :
  wp (tally I) True p g Q → in_step g → trace p l → Forall unwilling l → in_step (history (tally I) g l).
Proof.
  intros Hw Hg Ht Hl. eapply (history_invariant (tally I) in_step); [|done|done|done|by apply unwilling_lawful].
  intros [r j s] X e x [H1 H2] Hr _. unfold in_step in *. destruct e; cbn in *; split; lia || done.
Qed.

Lemma reaches_trace {I A} (p q : prog I A) l : reaches p l q → trace p l.
Proof. intros H. induction H; by constructor. Qed.

Section stuck.
Context {I : Type} `{!ReplaceDeps I} {HD : HandoverDeps} (cfg : Config).
Context (again : Journal → prog I (result unit unit)).
Context (me old_id : string).
Hypothesis Hself : self_container cfg = Some me.
Hypothesis Hother : same_container me old_id = false.

(** A successor's journal at [restoring]. *)
Record stuck (j : Journal) : Prop := mkStuck {
  sk_open : is_open j = true;
  sk_step : ∃ s, j_steps j = [s] ∧ is_actor s = true ∧ st_phase s = PhRestoring ∧
    old_container s = Some old_id ∧ new_container s = Some me }.

(** The journal of a turn that failed with [f], written at [t]. *)
Definition stuck_edit (f : Failure) (j : Journal) : Journal :=
  match st_failure (step_at j 0) with None => update_step 0 (set_failure (Some f)) j | Some _ => j end.

Definition at_restoring (j : Journal) (t : string) : Journal :=
  let j := project (update_step 0 (set_phase PhRestoring) j) in set_result (set_updated_at t (j_result j)) j.

Definition stuck_next (f : Failure) (j : Journal) (t : string) : Journal := at_restoring (stuck_edit f j) t.

Lemma stuck_next_ok f j t : stuck j → stuck (stuck_next f j t).
Proof.
  intros [Ho (s & Hs & Ha & Hp & Hold' & Hnew)]. unfold stuck_next, at_restoring. cbv zeta.
  destruct (project_fields (update_step 0 (set_phase PhRestoring) (stuck_edit f j))) as (Hps & _ & _). split.
  - transitivity (is_open (project (update_step 0 (set_phase PhRestoring) (stuck_edit f j)))); [done|].
    rewrite project_is_open. unfold stuck_edit. by destruct (st_failure (step_at j 0)).
  - simpl. rewrite Hps. unfold stuck_edit, step_at. rewrite Hs. simpl.
    destruct (st_failure s); simpl; rewrite Hs; eexists; (split; [reflexivity|]); done.
Qed.

(** What the driver does at a journal that is stuck. *)
Lemma drive_stuck turns fuel j :
  stuck j → drive_handover cfg again (S turns) fuel j 0 =
    (do o <- (do r <- hand_back cfg j 0; Ret (ho_to j PhHandingBack r));
     match o with
     | HoEnd j' r => Ret (j', r)
     | HoNext j' r =>
         do next <- ho_after PhRestoring j' 0 r;
         match next with Ok j'' => drive_handover cfg again turns fuel j'' 0 | Err x => Ret x end
     end).
Proof.
  intros [Ho (s & Hs & Ha & Hp & Hol & Hnew)]. cbn [drive_handover]. rewrite Ho. cbn [negb].
  unfold party_of. rewrite Hs. cbn [find_first]. rewrite Ha, Hself, Hol, Hother, Hnew, same_container_refl.
  cbn [bind]. unfold ho_phase. assert (step_at j 0 = s) as Hat by (unfold step_at; by rewrite Hs).
  rewrite Hat. cbv zeta. rewrite Hp. change (touched_old PhRestoring) with true. cbn [negb].
  by rewrite andb_false_r, (bool_decide_eq_true_2 (Successor = Successor)).
Qed.

Lemma after_stuck j f :
  ho_after (I:=I) PhRestoring j 0 (Err (HFail f)) =
    map_errp (λ _, (stuck_edit f j, Err ())) (advance (stuck_edit f j) 0 PhRestoring).
Proof. reflexivity. Qed.

(** ** Every execution against such an engine *)

Local Abbreviation WP p g Q := (wp (tally I) True p g Q).

Lemma tally_once {A} (e : eff I (result A EngineError)) g (Q : result A EngineError → Tally → Prop) :
  require (tally I) g e →
  (∀ r, refuses_names e r → (∀ er, r = Err er → is_transient er = false) ∧ Q r (advance_ghost (tally I) g e r)) →
  WP (retrying cfg (call e)) g Q.
Proof.
  intros Hr H. unfold retrying. destruct (retries (timing cfg)) as [|n]; cbn [retry_loop bind call];
    (split; [done|]); intros r Ha; destruct (H r Ha) as [Ht HQ]; destruct r as [a|er]; try done.
  by rewrite (Ht er eq_refl).
Qed.

Lemma tally_look n (f : EngineError → Halt) g (Q : result (option Container) Halt → Tally → Prop) :
  (∀ c, c_name c ≠ NAME_RECOVERY_ACTOR → Q (Ok (Some c)) g) →
  WP (map_errp f (retrying cfg (call (InspectContainer n)))) g Q.
Proof.
  intros H. apply wp_map_errp, tally_once; [done|]. intros r (c & -> & Hc). split; [done|]. by apply H.
Qed.

Lemma tally_hand_back j n z :
  stuck j → WP (hand_back cfg j 0) (mkTally n n z) (λ r g, g = mkTally (S n) n z ∧ ∃ f, r = Err (HFail f)).
Proof.
  intros [_ (s & Hs & _ & _ & Hol & _)]. unfold hand_back, step_at. rewrite Hs. cbv zeta.
  change (default dummy_step ([s] !! 0%nat)) with s. rewrite Hol, Hself.
  apply wp_bind_ok, tally_look. intros old Hold. apply wp_bind_ok, tally_look. intros mine Hmine.
  rewrite (proj2 (str_eqb_false _ _) Hmine), (proj2 (str_eqb_false _ _) Hold).
  apply wp_bind_ok. cbn [wp]. apply wp_bind_ok, wp_map_errp, tally_once; [done|].
  intros r (er & -> & Ht & Hc). split; [by intros ? [= <-]|]. split; [done|].
  destruct er; try done; by eexists.
Qed.

Lemma tally_advance j n z :
  WP (advance (I:=I) j 0 PhRestoring) (mkTally (S n) n z)
    (λ r g, g = mkTally (S n) (S n) z ∧ ∃ t, r = Ok (at_restoring j t)).
Proof.
  unfold advance, commit. split; [done|]. intros k ->. split; [done|]. intros t _. split; [done|].
  intros r ->. by split; [|exists t].
Qed.

Lemma tally_drive turns fuel j n z :
  stuck j → WP (drive_handover cfg again turns fuel j 0) (mkTally n n z) (λ _ _, False).
Proof.
  revert j n. induction turns as [|turns IH]; intros j n Hst; [done|].
  rewrite drive_stuck by done. apply wp_bind, wp_bind.
  eapply wp_mono; [by apply tally_hand_back|]. intros r g [-> [f ->]]. cbn [wp]. unfold ho_to. cbn [to_phase map_err].
  apply wp_bind. change (WP (ho_after (I:=I) PhRestoring j 0 (Err (HFail f))) (mkTally (S n) n z) (λ x g, WP
    match x with Ok j'' => drive_handover cfg again turns fuel j'' 0 | Err x => Ret x end g (λ _ _, False))).
  rewrite after_stuck. apply wp_map_errp. eapply wp_mono; [apply tally_advance|].
  intros r' g' [-> [t ->]]. cbn [map_err]. apply IH. by apply (stuck_next_ok f).
Qed.

(** ** An execution of any number of turns *)

Lemma reaches_app {A} (p q r : prog I A) l1 l2 : reaches p l1 q → reaches q l2 r → reaches p (l1 ++ l2) r.
Proof. intros H. induction H; simpl; [done|]. intros. constructor. auto. Qed.

Lemma reaches_bind {A B} (p q : prog I A) (f : A → prog I B) l : reaches p l q → reaches (bind p f) l (bind q f).
Proof. intros H. induction H; simpl; by constructor. Qed.

Lemma reaches_step {A X} (e : eff I X) (k : X → prog I A) x l q :
  reaches (k x) l q → reaches (Vis e k) (mkEvent e x :: l) q.
Proof. intros. by constructor. Qed.

Lemma reaches_then {A B} (p : prog I A) (f : A → prog I B) x l1 l2 r :
  reaches p l1 (Ret x) → reaches (f x) l2 r → reaches (bind p f) (l1 ++ l2) r.
Proof. intros H1 H2. eapply reaches_app; [by apply reaches_bind|]. exact H2. Qed.

(** An answer that is not a transient error is taken as it is. *)
Lemma reaches_retrying {A} (e : eff I (result A EngineError)) r :
  (∀ er, r = Err er → is_transient er = false) →
  reaches (retrying cfg (call e)) [mkEvent e r] (Ret r).
Proof.
  intros Hr. unfold retrying. destruct (retries (timing cfg)) as [|n]; cbn [retry_loop bind call];
    apply reaches_step; destruct r as [a|er]; try apply reaches_here.
  rewrite (Hr er eq_refl). apply reaches_here.
Qed.

Lemma reaches_map_errp {A E F} (f : E → F) (p : prog I (result A E)) l r :
  reaches p l (Ret r) → reaches (map_errp f p) l (Ret (map_err f r)).
Proof. intros H. unfold map_errp. rewrite <- (app_nil_r l). eapply reaches_then; [done|]. apply reaches_here. Qed.

Lemma reaches_ok {A B E} (p : prog I (result A E)) (f : A → prog I (result B E)) a l1 l2 r :
  reaches p l1 (Ret (Ok a)) → reaches (f a) l2 r → reaches (bind_ok p f) (l1 ++ l2) r.
Proof. intros H1 H2. eapply reaches_then; [done|]. exact H2. Qed.

(** Its answers: the containers and the refusal of the rename. *)
Context (mine old : Container) (refusal : EngineError).
Hypothesis Hmine : c_name mine ≠ NAME_RECOVERY_ACTOR.
Hypothesis Hold : c_name old ≠ NAME_RECOVERY_ACTOR.
Hypothesis Hfinal : is_transient refusal = false ∧ refusal ≠ Crashed.

Definition stuck_failure : Failure :=
  mkFailure RecreateFailed ("rename the previous actor back: " +:+ show_engine_error refusal).

(** The calls of one turn, with what they are answered. *)
Definition stuck_turn (j : Journal) (t : string) : list (event I) :=
  [mkEvent (InspectContainer old_id) (Ok (Some old));
   mkEvent (InspectContainer me) (Ok (Some mine));
   mkEvent (RenameContainer (c_id old) NAME_RECOVERY_ACTOR) (Err refusal)] ++
  [mkEvent Killed false; mkEvent NowStamp t;
   mkEvent (StoreJournal (stuck_next stuck_failure j t)) (Ok ())].

Fixpoint stuck_turns (n : nat) (j : Journal) (t : string) : list (event I) :=
  match n with O => [] | S n' => stuck_turn j t ++ stuck_turns n' (stuck_next stuck_failure j t) t end.

Lemma stuck_turns_all (P : event I → Prop) n j t :
  (∀ j, Forall P (stuck_turn j t)) → Forall P (stuck_turns n j t).
Proof. intros H. revert j. induction n as [|n IH]; intros j; [constructor|]. by apply Forall_app. Qed.

Lemma stuck_turns_unwilling n j t :
  Forall unwilling (stuck_turns n j t) ∧ Forall (refused_with refusal) (stuck_turns n j t).
Proof.
  destruct Hfinal as [Ht Hc].
  split; apply stuck_turns_all; intros j'; repeat constructor; try by eexists.
Qed.

Lemma stuck_hand_back j :
  stuck j → reaches (I:=I) (hand_back cfg j 0)
    [mkEvent (InspectContainer old_id) (Ok (Some old)); mkEvent (InspectContainer me) (Ok (Some mine));
     mkEvent (RenameContainer (c_id old) NAME_RECOVERY_ACTOR) (Err refusal)]
    (Ret (Err (HFail stuck_failure))).
Proof.
  intros [_ (s & Hs & _ & _ & Hol & _)]. unfold hand_back, step_at. rewrite Hs. cbv zeta.
  change (default dummy_step ([s] !! 0%nat)) with s. rewrite Hol, Hself.
  apply (reaches_ok _ _ (Some old) [_] [_; _]).
  { apply (reaches_map_errp _ _ _ (Ok (Some old))), reaches_retrying. done. }
  apply (reaches_ok _ _ (Some mine) [_] [_]).
  { apply (reaches_map_errp _ _ _ (Ok (Some mine))), reaches_retrying. done. }
  rewrite (proj2 (str_eqb_false _ _) Hmine), (proj2 (str_eqb_false _ _) Hold).
  apply (reaches_ok _ _ tt [] [_]); [apply reaches_here|]. destruct Hfinal as [Ht Hc].
  apply (reaches_then _ _ (Err (HFail stuck_failure)) [_] []); [|apply reaches_here].
  replace (Err (HFail stuck_failure)) with (map_err (A:=unit) (hengine "rename the previous actor back") (Err refusal))
    by (unfold stuck_failure; by destruct refusal).
  apply reaches_map_errp, reaches_retrying. by intros er [= <-].
Qed.

Lemma stuck_advance {F} (f : unit → F) j t :
  reaches (map_errp f (advance (I:=I) j 0 PhRestoring))
    [mkEvent Killed false; mkEvent NowStamp t; mkEvent (StoreJournal (at_restoring j t)) (Ok ())]
    (Ret (Ok (at_restoring j t))).
Proof. unfold advance, commit, map_errp. repeat (cbn [bind call]; apply reaches_step). apply reaches_here. Qed.

Lemma stuck_one turns fuel j t :
  stuck j → reaches (drive_handover cfg again (S turns) fuel j 0) (stuck_turn j t)
              (drive_handover cfg again turns fuel (stuck_next stuck_failure j t) 0).
Proof.
  intros Hst. rewrite drive_stuck by done.
  apply (reaches_then _ _ (HoNext j (Err (HFail stuck_failure))) [_; _; _] [_; _; _]).
  { apply (reaches_then _ _ (Err (HFail stuck_failure)) [_; _; _] []); [by apply stuck_hand_back|apply reaches_here]. }
  apply (reaches_then _ _ (Ok (stuck_next stuck_failure j t)) [_; _; _] []); [|apply reaches_here].
  rewrite after_stuck. apply stuck_advance.
Qed.

Lemma stuck_spins turns fuel j t :
  stuck j → reaches (drive_handover cfg again turns fuel j 0) (stuck_turns turns j t) Spin ∧
    count_events is_rename (stuck_turns turns j t) = turns.
Proof.
  revert j. induction turns as [|turns IH]; intros j Hj; [split; [apply reaches_here|done]|].
  destruct (IH (stuck_next stuck_failure j t)) as [H1 H2]; [by apply stuck_next_ok|].
  split; [eapply reaches_app; [by apply stuck_one|done]|]. unfold count_events in *. cbn. by rewrite H2.
Qed.

(** (C8) A successor that failed and cannot give the previous actor its name back never gives up
    either. In an attempt on the recovery actor alone, at [restoring], whatever else an engine
    answers that knows both containers and refuses the rename for good ([unwilling]: with an error
    that is not transient), no execution of [drive_handover] reaches an outcome: it never waits,
    and it writes the journal once for every refused rename. And for any such refusal and any
    number of turns there is an execution that takes them all, a refused rename on each. *)
Theorem failed_hand_back_spins turns fuel j (t : string) :
  stuck j →
  (∀ l p, reaches (drive_handover cfg again turns fuel j 0) l p → Forall unwilling l →
     (∀ x, p ≠ Ret x) ∧ count_events is_sleep l = 0%nat ∧
     (count_events is_journal l <= count_events is_rename l <= S (count_events is_journal l))%nat) ∧
  ∃ l, reaches (drive_handover cfg again turns fuel j 0) l Spin ∧ Forall unwilling l ∧
    Forall (refused_with refusal) l ∧ count_events is_rename l = turns.
Proof.
  intros Hj. split.
  - intros l p Hr Hl. pose proof (tally_drive turns fuel j 0 0 Hj) as Hw.
    split; [intros x ->; exact (wp_reaches _ _ _ _ _ _ _ Hw Hr (unwilling_lawful _ _ Hl))|].
    assert (in_step (mkTally 0 0 0)) as H0 by (split; [cbn; lia|done]).
    destruct (tally_in_step _ _ _ l Hw H0 (reaches_trace _ _ _ Hr) Hl) as [H1 H2].
    rewrite tally_counts in H1, H2. cbn in H1, H2. by split.
  - exists (stuck_turns turns j t). destruct (stuck_spins turns fuel j t Hj) as [H1 H2].
    by split_and!; [|apply stuck_turns_unwilling..|].
Qed.
End stuck.
