(* ===== verification/HandoverExamples.v ===== *)
(** * Hand-overs that run

    A container engine and a machine's files in memory, and two processes of the recovery actor
    on it, scheduled step by step ([play]): a hand-over whose successor verifies, one whose
    successor does not and is taken back; the executions at which the theorems of
    [HandoverMachine] are instantiated; and a hand-back that is never given up. *)
From S2P Require Import Prelude Platform Wire Journal Settle Trust Effects Replace ReplaceSpec Handover HandoverSpec HandoverRules HandoverProofs HandoverRun HandoverMachine HandoverWaits.

(** ** The engine in memory *)

#[local] Instance two_deps : ReplaceDeps unit := {|
  nvidia_shape := λ _, false;
  trust_recorded := λ _, false;
  database := λ _, Some OwnedDatabase;
  render := λ role rev _ image _, Ok (mkContainerSpec (container_name role) (reference image) None None ∅
    {[ LABEL_INSTALLATION := "inst"; LABEL_PLATFORM_SERVICE := role_str role; LABEL_SPEC := "digest" ]}
    None [] [] [] [] [] [] false UnlessStopped [] None);
  carry_forward := λ spec _ _, spec;
  debug_str := λ s, s;
  debug_duration := λ _, "60s" |}.

#[local] Instance two_identity : HandoverDeps :=
  {| identity_version := "1.2.3"; identity_commit := "0123456" |}.

Record Rig := mkRig {
  rig_conts : gmap string Container;
  rig_ready : option Ready;
  rig_clock : Z;
  rig_silent : option string }.

Definition with_rig_conts (m : gmap string Container) (f : Rig) : Rig :=
  mkRig m (rig_ready f) (rig_clock f) (rig_silent f).

Definition rig_find (f : Rig) (n : string) : option Container :=
  match rig_conts f !! n with
  | Some c => Some c
  | None => snd <$> head (List.filter (λ x, str_eqb (c_name x.2) n) (map_to_list (rig_conts f)))
  end.

Definition rig_set (running : bool) (restart : option RestartPolicy) (name : string) (c : Container) : Container :=
  mkContainer (c_id c) name (c_image c) (c_image_id c) (c_labels c)
    (if running then "running" else "exited") running (c_health c) restart (c_mounts c)
    (c_command c) (c_env c) (c_created c) (c_started_at c).

Definition rig_image : Image := mkImage "img" [] {[ LABEL_IMAGE_RECIPE := "1" ]}.

Definition rig_edit (f : Rig) (id : string) (g : Container → Container) : Rig :=
  with_rig_conts (alter g id (rig_conts f)) f.

(** The answer to each call of process [n], and the engine after it. *)
Definition rig_answer {X} (m : MState (I:=unit)) (f : Rig) (n : nat) (e : eff unit X) : option (Rig * X) :=
  match e in eff _ X return option (Rig * X) with
  | InspectImage _ => Some (f, Ok (Some rig_image))
  | PullImage _ => Some (f, Ok ())
  | InspectContainer n => Some (f, Ok (rig_find f n))
  | ListContainers => Some (f, Ok (snd <$> map_to_list (rig_conts f)))
  | CreateContainer sp =>
      let c := mkContainer "new-actor" (cs_name sp) (cs_image sp) "img" (cs_labels sp) "created" false None
                 (Some (cs_restart sp)) [] [] [] None None in
      Some (with_rig_conts (<["new-actor" := c]> (rig_conts f)) f, Ok "new-actor")
  | StartContainer id => Some (rig_edit f id (λ c, rig_set true (c_restart c) (c_name c) c), Ok ())
  | StopContainer id _ => Some (rig_edit f id (λ c, rig_set false (c_restart c) (c_name c) c), Ok ())
  | SetRestartPolicy id p => Some (rig_edit f id (λ c, rig_set (c_running c) (Some p) (c_name c) c), Ok ())
  | RenameContainer id n => Some (rig_edit f id (λ c, rig_set (c_running c) (c_restart c) n c), Ok ())
  | RemoveContainer id => Some (with_rig_conts (delete id (rig_conts f)) f, Ok ())
  | LogsTail _ _ => Some (f, Ok "panic")
  | StoreJournal _ => Some (f, Ok ())
  | LoadJournal _ => Some (f, Ok (Some (ms_disk m)))
  | ScanJournals => Some (f, mkScan [ms_disk m] [])
  | PruneJournals => Some (f, ())
  | ForgetReady _ => Some (mkRig (rig_conts f) None (rig_clock f) (rig_silent f), ())
  | LoadMachine => Some (f, Ok (Some (mkMachine "inst" Gpu () ∅)))
  | StoreService _ => Some (f, Ok ())
  | LoadSecret _ => Some (f, Ok None)
  | Uninstalled => Some (f, None)
  | LoadReady _ => Some (f, rig_ready f)
  | ReadyExists _ => Some (f, bool_decide (is_Some (rig_ready f)))
  | StoreReady _ r => Some (mkRig (rig_conts f) (Some r) (rig_clock f) (rig_silent f), Ok ())
  | LoadSeed => Some (f, Ok None)
  | StoreSeed _ => Some (f, Ok ())
  | SocketsSilent => Some (f, rig_silent f)
  | AttemptPolled _ => Some (f, true)
  | StopServing => Some (f, ())
  | ServeAgain => Some (f, ())
  | TakeLease =>
      Some (f, match ms_holder m with
               | None => Ok ()
               | Some k => if (k =? n)%nat then Ok () else Err LeaseHeld
               end)
  | ReleaseLease => Some (f, ())
  | MarkRetired => Some (f, ())
  | Killed => Some (f, false)
  | MarkDied => Some (f, ())
  | NowStamp => Some (f, "2026-01-01T00:00:00Z")
  | Now => Some (f, rig_clock f)
  | Sleep d => Some (mkRig (rig_conts f) (rig_ready f) (rig_clock f + d) (rig_silent f), ())
  | _ => None
  end.

(** ** Two processes *)

Definition two_cfg (n : nat) : Config :=
  mkConfig default_timing (Some (match n with 1%nat => "new-actor" | _ => "old-actor" end)) default_handover Gpu None (secs 7200).

Definition new_image : ImageRef := mkImageRef "repo" "sha256:bb".

Definition actor_step_at (p : Phase) (old new : option string) : Step :=
  mkStep RECOVERY_ACTOR new_image p old (Some UnlessStopped) (Some "sha256:00")
    (Some 1%Z) (Some (mkContainerSpec NAME_RECOVERY_ACTOR "repo@sha256:bb" None None ∅ ∅
      None [] [] [] [] [] [] false UnlessStopped [] None)) new None 0 false None.

Definition handover_request : Request :=
  mkRequest "req-1" KReplace [] (mkRelease "r" None "c") false None false None false None 0 false.

Definition handover_journal (p : Phase) (old new : option string) : Journal :=
  mkJournal FORMAT 1 TagOperator handover_request [actor_step_at p old new]
    (mkAttemptResult "req-1" StPending None [] [] EmptyString "t" "t" None false (mkRelease "r" None "c") None) None.

Definition old_actor : Container :=
  mkContainer "old-actor" NAME_RECOVERY_ACTOR "repo@sha256:00" "img0"
    {[ LABEL_INSTALLATION := "inst"; LABEL_PLATFORM_SERVICE := "recovery-actor" ]}
    "running" true None (Some UnlessStopped) [] [] [] None None.

Definition two_rig (silent : option string) : Rig := mkRig {[ "old-actor" := old_actor ]} None 0 silent.

(** Processes [0] and [2] are of the old actor's container, before and after it is stopped and
    started again, [1] is the successor's; [driver] holds the lease and drives the attempt, the
    others start. *)
Definition two_life (driver n : nat) : life := if (n =? driver)%nat then Drives "req-1" else Starts.

Definition two_started (driver : nat) (j : Journal) : MState (I:=unit) :=
  mkMState j (Some driver) (λ n, (n <? 3)%nat)
    (λ n, process (two_cfg n) 3 40 400 (two_life driver n))
    (λ n, mkHWorld j false (n =? driver)%nat ∅ ∅ ∅ None None).

Lemma two_started_ok driver j : actor_journal j → (driver < 3)%nat → started two_cfg j (two_started driver j).
Proof.
  intros Hj Hd. split; [done|done| |done]. intros n. exists two_deps, two_identity, 3%nat, 40%nat, 400%nat, (two_life driver n).
  split; [done|]. unfold two_life. split; simpl; destruct (n =? driver)%nat eqn:E; try done.
  intros id _ _. by apply Nat.eqb_eq in E as ->.
Qed.

(** ** Checking the answers *)

Definition impl (a b : bool) : bool := negb a || b.

Definition resolvesb (cfg : Config) (g : HWorld) (n : string) (c : Container) : bool :=
  let s := the_step (h_dur g) in
  let mine := bool_decide (self_container cfg = Some n) in
  negb (str_eqb n EmptyString)
  && impl mine (is_me_id cfg (c_id c) && match h_own g with
       | Some c0 => str_eqb (c_id c) (c_id c0) && str_eqb (c_image c) (c_image c0) | None => true end)
  && impl (actor_name n) (str_eqb (c_name c) n)
  && impl (bool_decide (old_container s = Some n)) (str_eqb (c_id c) n)
  && impl (bool_decide (new_container s = Some n)) (designates n (c_id c))
  && impl (str_eqb n SUCCESSOR_NAME) (negb (bool_decide (old_container s = Some (c_id c))))
  && match h_names g !! c_id c with Some m => str_eqb (c_name c) m | None => true end.

Lemma impl_true a b : impl a b = true ↔ (a = true → b = true).
Proof. destruct a, b; simpl; split; auto. Qed.

Lemma resolvesb_sound cfg g n c :
  resolvesb cfg g n c = true →
  ho_resolves cfg g n c ∧ (∀ m, h_names g !! c_id c = Some m → c_name c = m).
Proof.
  unfold resolvesb. rewrite !andb_true_iff, !impl_true, !negb_true_iff.
  intros ((((((H1 & H2) & H3) & H4) & H5) & H6) & H7).
  split; [split|].
  - by apply str_eqb_false.
  - intros E. rewrite bool_decide_eq_true_2 in H2 by done. destruct (andb_prop _ _ (H2 eq_refl)) as [H8 H9].
    split; [done|]. intros c0 E0. rewrite E0 in H9. apply andb_prop in H9 as [Ha Hb].
    by rewrite !str_eqb_true in *.
  - intros E. apply str_eqb_true. auto.
  - intros E. apply str_eqb_true, H4. by apply bool_decide_eq_true.
  - intros E. apply H5. by apply bool_decide_eq_true.
  - intros ->. rewrite str_eqb_refl in H6. specialize (H6 eq_refl).
    by apply bool_decide_eq_false in H6.
  - intros m E. rewrite E in H7. by apply str_eqb_true.
Qed.

Definition allowsb {X} (n : nat) (g : HWorld) (e : eff unit X) : X → bool :=
  match e in eff _ X return X → bool with
  | InspectContainer x => λ r, match r with Ok (Some c) => resolvesb (two_cfg n) g x c | _ => true end
  | CreateContainer _ => λ r,
      match r with
      | Ok id => match old_container (the_step (h_dur g)) with Some o => negb (designates id o) | None => true end
      | Err _ => true
      end
  | ListContainers => λ r,
      match r with
      | Ok l => forallb (λ c, match old_container (the_step (h_dur g)) with
                              | Some o => impl (designates (c_id c) o) (str_eqb (c_id c) o) | None => true end) l
      | Err _ => true
      end
  | LoadMachine => λ r,
      match r, h_install g with Ok (Some m), Some i => str_eqb (m_installation_id m) i | _, _ => true end
  | _ => λ _, true
  end.

(** One step of process [n]: its next call, answered by the engine; nothing when it is done. *)
Definition play_one (n : nat) (st : MState (I:=unit) * Rig) : option (MState * Rig) :=
  let (m, f) := st in
  match ms_left m n with
  | Vis e k =>
      match rig_answer m f n e with
      | Some (f', x) =>
          if ms_runs m n && allowsb n (ms_seen m n) e x
          then Some (mkMState (match e with StoreJournal j => j | _ => ms_disk m end) (next_holder m n e x)
                       (ms_runs m) (upd (ms_left m) n (k x))
                       (upd (ms_seen m) n (ho_advance (two_cfg n) (ms_seen m n) e x)), f')
          else None
      | None => None
      end
  | _ => Some (m, f)
  end.

Fixpoint play_many (n : nat) (k : nat) (st : MState (I:=unit) * Rig) : option (MState * Rig) :=
  match k with
  | O => Some st
  | S k' => match play_one n st with Some st' => play_many n k' st' | None => None end
  end.

(** A test of the next call of a process. *)
Definition next_call (m : MState (I:=unit)) (n : nat) (t : ∀ X, eff unit X → bool) : bool :=
  match ms_left m n with @Vis _ _ X e _ => t X e | _ => false end.

(** A schedule: a process makes so many calls, or at most so many, up to one that passes a test;
    or it dies. *)
Inductive item := Calls (n k : nat) | Until (n k : nat) (t : ∀ X, eff unit X → bool) | Death (n : nat).

Fixpoint play_until (n k : nat) (t : ∀ X, eff unit X → bool) (st : MState (I:=unit) * Rig) : option (MState * Rig) :=
  if next_call st.1 n t then Some st
  else match k with
  | O => None
  | S k' => match play_one n st with Some st' => play_until n k' t st' | None => None end
  end.

Definition play_item (i : item) (st : MState (I:=unit) * Rig) : option (MState * Rig) :=
  match i with
  | Calls n k => play_many n k st
  | Until n k t => play_until n k t st
  | Death n =>
      if ms_runs st.1 n
      then Some (mkMState (ms_disk st.1) (free_of n (ms_holder st.1)) (upd (ms_runs st.1) n false)
                   (ms_left st.1) (ms_seen st.1), st.2)
      else None
  end.

Fixpoint play (l : list item) (st : MState (I:=unit) * Rig) : option (MState * Rig) :=
  match l with
  | [] => Some st
  | i :: l' => match play_item i st with Some st' => play l' st' | None => None end
  end.

Lemma rig_allowed {X} m f n (e : eff unit X) f' x :
  rig_answer m f n e = Some (f', x) → allowsb n (ms_seen m n) e x = true →
  shared_allows two_cfg m n e x ∧
  next_disk m e x (match e with StoreJournal j => j | _ => ms_disk m end).
Proof.
  intros Ha Hb. destruct e; simpl in *; simplify_eq; try done; (split; [|done]); try done.
  - destruct (rig_find f' name_or_id) as [c|]; [|done]. by apply resolvesb_sound.
  - intros c o Hc Ho Hd. rewrite Ho in Hb. rewrite forallb_forall in Hb.
    specialize (Hb c (proj1 (list_elem_of_In _ _) Hc)). rewrite impl_true in Hb. by apply str_eqb_true, Hb.
  - intros o Ho. rewrite Ho in Hb. by apply negb_true_iff.
  - by intros j [= <-].
  - intros j. unfold scan_open. simpl. destruct (is_open (ms_disk m)); [|done]. by intros [= <-].
  - destruct (h_install _); [|done]. by apply str_eqb_true.
  - destruct (ms_holder m) as [k|]; [|auto]. destruct (k =? n)%nat eqn:E; [|done].
    apply Nat.eqb_eq in E as ->. auto.
Qed.

Lemma play_one_sound n st st' : play_one n st = Some st' → rtc (machine_step two_cfg) st.1 st'.1.
Proof.
  destruct st as [m f]. unfold play_one. destruct (ms_left m n) as [a| |X e k] eqn:El; [by intros [= <-]..|].
  destruct (rig_answer m f n e) as [[f' x]|] eqn:Ea; [|done].
  destruct (ms_runs m n && _) eqn:Eb; [|done]. intros [= <-]. apply andb_true_iff in Eb as [Hr Hb].
  destruct (rig_allowed _ _ _ _ _ _ Ea Hb). apply rtc_once. by apply (step_acts _ _ _ _ e k).
Qed.

Lemma play_item_sound i st st' : play_item i st = Some st' → rtc (machine_step two_cfg) st.1 st'.1.
Proof.
  destruct i as [n k|n k t|n]; simpl.
  - revert st. induction k as [|k IH]; intros st; simpl; [by intros [= <-]|].
    destruct (play_one n st) as [st2|] eqn:E2; [|done]. intros H.
    etransitivity; [by eapply play_one_sound|by apply IH].
  - revert st. induction k as [|k IH]; intros st; simpl; (destruct (next_call _ _ _); [by intros [= <-]|]); [done|].
    destruct (play_one n st) as [st2|] eqn:E2; [|done]. intros H.
    etransitivity; [by eapply play_one_sound|by apply IH].
  - destruct (ms_runs st.1 n) eqn:E; [|done]. intros [= <-]. apply rtc_once. by apply step_dies.
Qed.

Lemma play_sound l st st' : play l st = Some st' → rtc (machine_step two_cfg) st.1 st'.1.
Proof.
  revert st. induction l as [|i l IH]; intros st; simpl; [by intros [= <-]|].
  destruct (play_item i st) as [st1|] eqn:E; [|done]. intros H.
  etransitivity; [by eapply play_item_sound|by apply IH].
Qed.

(** What is left: the outcome on disk, the containers with their names and whether they run, and
    who holds the lease. *)
Definition left_of (r : option (MState (I:=unit) * Rig)) :
  option (Phase * State * bool * list (string * string * bool) * option nat) :=
  (λ x, (st_phase (the_step (ms_disk x.1)), res_state (j_result (ms_disk x.1)), res_restored (j_result (ms_disk x.1)),
         (λ y, (y.1, c_name y.2, c_running y.2)) <$> map_to_list (rig_conts x.2), ms_holder x.1)) <$> r.

Definition fresh : Journal := handover_journal PhAdmitted None None.

(** The old actor creates the successor and releases the lease; the successor takes it. *)
Definition handed : list item := [Calls 0 60; Calls 1 30; Calls 0 30].

(** The successor verifies: it alone is left, under the actor's name. *)
Example handover_succeeds :
  left_of (play (handed ++ [Calls 1 200]) (two_started 0 fresh, two_rig None))
  = Some (PhDone, StSucceeded, false, [("new-actor", NAME_RECOVERY_ACTOR, true)], Some 1%nat).
Proof. vm_compute. reflexivity. Qed.

(** It does not: the old actor, stopped and started again, is left, under its name. *)
Definition taken_back : list item := handed ++ [Calls 1 60; Death 0; Calls 1 1000].

Example handover_taken_back :
  left_of (play (taken_back ++ [Calls 2 200]) (two_started 0 fresh, two_rig (Some "no sockets")))
  = Some (PhDone, StFailed, true, [("old-actor", NAME_RECOVERY_ACTOR, true)], Some 2%nat).
Proof. vm_compute. reflexivity. Qed.

(** ** The theorems at these executions *)

Lemma fresh_journal : actor_journal fresh.
Proof. split; [done|]. eexists. split_and!; [done..|]. by split. Qed.

(** A machine such a schedule reaches. *)
Lemma at_point l f (t : MState → bool) :
  match play l (two_started 0 fresh, f) with Some st => t st.1 | None => false end = true →
  ∃ m', rtc (machine_step two_cfg) (two_started 0 fresh) m' ∧ t m' = true.
Proof.
  destruct (play l (two_started 0 fresh, f)) as [st|] eqn:E; [|done]. intros Ht. exists st.1.
  split; [by apply play_sound in E|done].
Qed.

Lemma fresh_started : started two_cfg fresh (two_started 0 fresh).
Proof. apply two_started_ok; [apply fresh_journal|lia]. Qed.

Definition is_removal (id : string) X (e : eff unit X) : bool :=
  match e with RemoveContainer x => str_eqb x id | _ => false end.
Definition is_store (p : Journal → bool) X (e : eff unit X) : bool :=
  match e with StoreJournal d => p d | _ => false end.
Definition is_seed_store X (e : eff unit X) : bool := match e with StoreSeed _ => true | _ => false end.

Lemma next_removal m n id : ms_runs m n && next_call m n (is_removal id) = true → about_to m n (RemoveContainer id).
Proof.
  unfold next_call. intros [Hr H]%andb_true_iff. split; [done|].
  destruct (ms_left m n) as [| |X e k]; [done..|]. destruct e; try done. apply str_eqb_true in H as ->. by exists k.
Qed.

Lemma next_store m n p :
  ms_runs m n && next_call m n (is_store p) = true → ∃ d, about_to m n (StoreJournal d) ∧ p d = true.
Proof.
  unfold next_call, about_to. intros [Hr H]%andb_true_iff.
  destruct (ms_left m n) as [| |X e k]; [done..|]. destruct e; try done. exists j. split; [|done]. split; [done|].
  by exists k.
Qed.

Lemma next_seed m n : ms_runs m n && next_call m n is_seed_store = true → ∃ f, about_to m n (StoreSeed f).
Proof.
  unfold next_call, about_to. intros [Hr H]%andb_true_iff.
  destruct (ms_left m n) as [| |X e k]; [done..|]. destruct e; try done. eexists. split; [done|]. by exists k.
Qed.

Definition at_removal : list item := handed ++ [Until 1 200 (is_removal "old-actor")].
Definition at_seed : list item := handed ++ [Until 1 200 is_seed_store].
Definition says_restored (d : Journal) : bool := negb (is_open d) && res_restored (j_result d).
Definition at_outcome : list item := taken_back ++ [Until 2 200 (is_store says_restored)].

(** The successor is about to discard the old actor, and holds the lease. *)
Lemma one_actor_acts_witness :
  ∃ m', rtc (machine_step two_cfg) (two_started 0 fresh) m' ∧ ms_holder m' = Some 1%nat.
Proof.
  destruct (at_point at_removal (two_rig None) (λ m, ms_runs m 1 && next_call m 1 (is_removal "old-actor")))
    as (m' & Hr & Ht); [vm_compute; reflexivity|].
  apply next_removal in Ht. exists m'. split; [done|].
  by apply (one_actor_acts two_cfg fresh (two_started 0 fresh) m' 1 1 (RemoveContainer "old-actor")
    (RemoveContainer "old-actor") fresh_started Hr Ht Ht).
Defined.

Lemma handover_journal_refines_witness :
  ∃ m', rtc (machine_step two_cfg) (two_started 0 fresh) m' ∧ rtc ho_step fresh (ms_disk m') ∧
    res_state (j_result (ms_disk m')) = StSucceeded.
Proof.
  destruct (at_point (handed ++ [Calls 1 200]) (two_rig None)
    (λ m, bool_decide (res_state (j_result (ms_disk m)) = StSucceeded))) as (m' & Hr & Ht); [vm_compute; reflexivity|].
  apply bool_decide_eq_true in Ht. exists m'. split_and!; [done| |done].
  exact (handover_journal_refines two_cfg fresh (two_started 0 fresh) m' fresh_started Hr).
Defined.

Lemma handover_journalled_before_acting_witness :
  ∃ m', rtc (machine_step two_cfg) (two_started 0 fresh) m' ∧
    ho_requires (two_cfg 1) (ms_seen m' 1) (RemoveContainer (I:=unit) "old-actor").
Proof.
  destruct (at_point at_removal (two_rig None) (λ m, ms_runs m 1 && next_call m 1 (is_removal "old-actor")))
    as (m' & Hr & Ht); [vm_compute; reflexivity|].
  apply next_removal in Ht. exists m'. split; [done|].
  by apply (handover_journalled_before_acting two_cfg fresh (two_started 0 fresh) m' 1
    (RemoveContainer "old-actor") fresh_started Hr Ht).
Defined.

Lemma old_actor_survives_witness :
  ∃ m', rtc (machine_step two_cfg) (two_started 0 fresh) m' ∧
    (st_phase (the_step (ms_disk m')) = PhOldDiscarded ∨
     ending (st_phase (the_step (ms_disk m'))) = true ∧ "old-actor" ∈ h_stopped (ms_seen m' 1)).
Proof.
  destruct (at_point at_removal (two_rig None) (λ m, ms_runs m 1 && next_call m 1 (is_removal "old-actor")
    && bool_decide (old_container (the_step (ms_disk m)) = Some "old-actor"))) as (m' & Hr & Ht); [vm_compute; reflexivity|].
  apply andb_true_iff in Ht as [Ht Ho]. apply next_removal in Ht. apply bool_decide_eq_true in Ho.
  exists m'. split; [done|].
  by apply (old_actor_survives two_cfg fresh (two_started 0 fresh) m' 1 "old-actor" fresh_started Hr Ht Ho).
Defined.

Lemma records_follow_verification_witness :
  ∃ m', rtc (machine_step two_cfg) (two_started 0 fresh) m' ∧ st_phase (the_step (ms_disk m')) = PhOldDiscarded.
Proof.
  destruct (at_point at_seed (two_rig None) (λ m, ms_runs m 1 && next_call m 1 is_seed_store))
    as (m' & Hr & Ht); [vm_compute; reflexivity|].
  apply next_seed in Ht as [f Ht]. exists m'. split; [done|].
  by apply (records_follow_verification two_cfg fresh (two_started 0 fresh) m' 1 (StoreSeed f) fresh_started Hr Ht).
Defined.

Lemma handover_restored_is_true_witness :
  ∃ m', rtc (machine_step two_cfg) (two_started 0 fresh) m' ∧
    put_back (two_cfg 2) (ms_seen m' 2) (the_step (ms_disk m')).
Proof.
  destruct (at_point at_outcome (two_rig (Some "no sockets")) (λ m, ms_runs m 2 && next_call m 2 (is_store says_restored)))
    as (m' & Hr & Ht); [vm_compute; reflexivity|].
  apply next_store in Ht as (d & Ht & Hd). apply andb_true_iff in Hd as [Ho Hre]. apply negb_true_iff in Ho.
  exists m'. split; [done|].
  exact (handover_restored_is_true two_cfg fresh (two_started 0 fresh) m' 2 d fresh_started Hr Ht Ho Hre).
Defined.

Lemma handover_success_is_verified_witness :
  ∃ m', rtc (machine_step two_cfg) (two_started 0 fresh) m' ∧ was_verified fresh (ms_disk m').
Proof.
  destruct (at_point (handed ++ [Calls 1 200]) (two_rig None)
    (λ m, bool_decide (res_state (j_result (ms_disk m)) = StSucceeded))) as (m' & Hr & Ht); [vm_compute; reflexivity|].
  apply bool_decide_eq_true in Ht. exists m'. split; [done|].
  exact (handover_success_is_verified two_cfg fresh (two_started 0 fresh) m' fresh_started eq_refl eq_refl Hr Ht).
Defined.

(** The successor's rename of the previous actor is refused: three turns, then any number. *)
Definition named_actor (id name : string) : Container := rig_set true (Some UnlessStopped) name
  (mkContainer id name (c_image old_actor) "img" (c_labels old_actor) "running" true None None [] [] [] None None).

Definition restoring : Journal := handover_journal PhRestoring (Some "old-actor") (Some "new-actor").

Lemma restoring_stuck : stuck "new-actor" "old-actor" restoring.
Proof. split; [done|]. eexists. by split_and!. Qed.

(** The engine's answer to it, as the adapters give it: not transient. *)
Definition rename_refused : EngineError := Runtime EngineRefusal.

Lemma failed_hand_back_spins_witness :
  ∃ l, reaches (drive_handover (I:=unit) (two_cfg 1) (λ _, Ret (Ok ())) 3 0 restoring 0) l Spin ∧
    Forall unwilling l ∧ Forall (refused_with rename_refused) l ∧ count_events is_rename l = 3%nat.
Proof.
  exact (proj2 (failed_hand_back_spins (two_cfg 1) (λ _, Ret (Ok ())) "new-actor" "old-actor" eq_refl eq_refl
    (named_actor "new-actor" SUCCESSOR_NAME) (named_actor "old-actor" "quasar-recovery-actor.req-1") rename_refused
    ltac:(discriminate) ltac:(discriminate) ltac:(split; [reflexivity|discriminate])
    3 0 restoring "2026-01-01T00:00:00Z" restoring_stuck)).
Defined.

(** The limits the actor runs with: a minute's verification polled twice a second, ten minutes of
    outage, a minute for the agent. *)
Lemma verify_successor_terminates_witness :
  verify_successor (I:=unit) (two_cfg 1) 1500 restoring ≠ Spin.
Proof.
  apply (verify_successor_terminates (I:=unit) (two_cfg 1) restoring 1500 120 1200 120 0 []).
  - split; vm_compute; first [reflexivity | discriminate | lia].
  - apply reaches_here.
  - exact Logic.I.
Defined.
