(* ===== verification/Submit.v ===== *)
(** * Admitting a request

    [crates/quasar-recovery/src/submit.rs]: the rules per kind and per caller, the shape of an
    image, and [Actor::submit], whose fixed order of checks is the security argument. The gate
    (a mutex held for the whole of [submit]) makes one submission at a time the only case. *)
From S2P Require Import Prelude Platform Wire Journal Settle Base64 GoText Trust RaceGuard Effects Replace.

Definition COMPOSE_LABEL_PREFIX : string := "com.docker.compose.".

(** [may_name] *)
Definition may_name (caller : Caller) (name : string) : bool :=
  match caller with
  | CallerAgent => str_eqb name "node-agent" || str_eqb name "recovery-actor"
  | CallerControlPlane => str_eqb name "control-plane" || str_eqb name "recovery-actor"
  end.

(** [is_uuid] *)
Definition is_uuid (s : string) : bool :=
  let parts := split_on "-" s in
  (length parts =? length UUID_GROUPS)%nat
  && forallb (λ x, (slen x.1 =? x.2)%nat && all_bytes is_ascii_hexdigit x.1) (zip parts UUID_GROUPS).

(** [caller_tag] *)
Definition caller_tag (caller : Caller) : CallerTag :=
  match caller with CallerControlPlane => TagControlPlane | CallerAgent => TagAgent end.

(** [refuse] *)
Definition refuse (req : Request) (reason : Reason) (message : string) : Rejection :=
  mkRejection (request_id req) reason message.

(** [kind_and_caller_rules] *)
Definition kind_rules (caller : Caller) (req : Request) : result unit Rejection :=
  match caller, rq_kind req with
  | _, KReplace => Ok tt
  | CallerAgent, KRestore => Err (refuse req Invalid
      "the agent socket may not ask for a restore: a restore loads a pre-update dump on the control plane's machine and is the operator's command")
  | CallerAgent, KRemove => Ok tt
  | CallerControlPlane, KRestore => Err (refuse req Invalid
      "restoring a pre-update dump is the operator's command on this machine (`docker exec quasar-recovery quasar-recovery restore`), never a control-socket request; nothing was changed")
  | CallerControlPlane, KRemove => Err (refuse req Invalid
      "a control-plane machine is taken apart by the operator's uninstall command (RH06-14, #366), never over the control socket; nothing was changed")
  end.

Definition socket_name (caller : Caller) : string :=
  match caller with
  | CallerAgent => "the agent socket: a node agent asking to replace it is a confused deputy"
  | CallerControlPlane => "the control socket: a host's node agent is replaced over that host's own agent socket"
  end.

Fixpoint name_rules (caller : Caller) (req : Request) (l : list Component) : result unit Rejection :=
  match l with
  | [] => Ok tt
  | c :: l' =>
      if bool_decide (comp_name c ∈ ["node-agent"; "recovery-actor"; "control-plane"])
         && negb (may_name caller (comp_name c))
      then Err (refuse req Invalid ("component " +:+ dq +:+ comp_name c +:+ dq
                 +:+ " may not be named on " +:+ socket_name caller))
      else name_rules caller req l'
  end.

Definition kind_and_caller_rules (caller : Caller) (req : Request) (role : MachineRole) :
  result unit Rejection :=
  let? _ := kind_rules caller req in
  let? _ := name_rules caller req (components req) in
  let names_actor := names_component "recovery-actor" req in
  let names_control_plane := names_component "control-plane" req in
  if bool_decide (caller = CallerControlPlane) && names_actor && negb names_control_plane
  then Err (refuse req Invalid "the control socket names recovery-actor only together with control-plane: the actor may lead the control plane only while its replacement is in flight; nothing was changed")
  else if names_control_plane && bool_decide (role = Gpu)
  then Err (refuse req Invalid "this is a GPU host: it runs no control plane to replace; nothing was changed")
  else if bool_decide (caller = CallerAgent) && names_actor && negb (bool_decide (role = Gpu))
  then Err (refuse req Invalid "on the control plane's own machine the recovery actor moves in the control-plane step, never on the agent socket; nothing was changed")
  else Ok tt.

(** [path_component]: [sep_ok] is what a separator may be, [seps] scans from inside one. *)
Definition path_alnum (c : ascii) : bool := is_ascii_lowercase c || is_ascii_digit c.

Definition sep_ok (sep : string) : bool :=
  str_eqb sep "." || str_eqb sep "_" || str_eqb sep "__" || all_bytes (λ c, Ascii.eqb c "-") sep.

Fixpoint seps (sep : string) (p : string) : bool :=
  match p with
  | EmptyString => match sep with EmptyString => true | _ => sep_ok sep end
  | String c p' =>
      if path_alnum c then match sep with EmptyString => true | _ => sep_ok sep end && seps EmptyString p'
      else seps (sep +:+ String c EmptyString) p'
  end.

Fixpoint last_byte (s : string) : option ascii :=
  match s with
  | EmptyString => None
  | String c EmptyString => Some c
  | String _ s' => last_byte s'
  end.

Definition path_component (p : string) : bool :=
  match p, last_byte p with
  | String c _, Some z => path_alnum c && path_alnum z && seps EmptyString p
  | _, _ => false
  end.

(** [repository_well_formed] *)
Definition host_byte (b : ascii) : bool :=
  is_ascii_alphanumeric b || Ascii.eqb b "." || Ascii.eqb b "-" || Ascii.eqb b ":".

Definition repository_well_formed (image : string) : bool :=
  match split_on "/" image with
  | host :: path =>
      match host with
      | EmptyString => false
      | String c _ => all_bytes host_byte host && negb (bool_decide (c ∈ [".";"-";":"]%char))
      end
      && negb (bool_decide (path = [])) && forallb path_component path
  | [] => false
  end.

Section submit.
Context {I : Type} `{!ReplaceDeps I, !TrustDeps} (cfg : Config).

(** 1-2. What the journal answers a re-post with; [None] when the id is new. *)
Definition answer_repost (caller : Caller) (req : Request) :
  prog I (option (result Accepted Rejection)) :=
  if negb (is_uuid (request_id req)) then Ret None
  else
  do known <- call (LoadJournal (request_id req));
  match known with
  | Ok (Some j) =>
      Ret (Some
        (if bool_decide (j_caller j = caller_tag caller)
         then Ok (mkAccepted (request_id req) (res_previous (j_result j)))
         else if is_open j
         then Err (refuse req Busy ("request " +:+ request_id req +:+ " is still in flight"))
         else Err (refuse req Invalid ("request id " +:+ request_id req +:+ " was already used by another caller"))))
  | Err e => Ret (Some (Err (refuse req Busy
                ("the journal for " +:+ request_id req +:+ " cannot be read (" +:+ e +:+ ")"))))
  | Ok None =>
      do used <- call (WasUsed (request_id req));
      Ret (match used with
           | Ok false => None
           | Ok true => Some (Err (refuse req Invalid
               ("request id " +:+ request_id req +:+ " was already used on this machine")))
           | Err e => Some (Err (refuse req Busy
               ("the record of used request ids cannot be read (" +:+ e +:+ ")")))
           end)
  end.

(** 4. The caller's rules, by this machine's role. *)
Definition grade_caller (caller : Caller) (req : Request) : prog I (result unit Rejection) :=
  if negb (is_uuid (request_id req)) then Ret (Ok tt)
  else
  do m <- call LoadMachine;
  let role := match m with Ok (Some m) => m_role m | _ => config_role cfg end in
  Ret (kind_and_caller_rules caller req role).

Fixpoint grade_images (req : Request) (l : list Component) : result unit Rejection :=
  match l with
  | [] => Ok tt
  | c :: l' =>
      if repository_well_formed (comp_image c) then grade_images req l'
      else Err (refuse req Invalid ("component " +:+ dq +:+ comp_name c +:+ dq +:+ ": image "
                 +:+ debug_str (comp_image c)
                 +:+ " is not a registry host followed by lowercase path components"))
  end.

(** 5. Every journal readable, the images' shape, then release trust. *)
Definition grade_trust (caller : Caller) (req : Request) : prog I (result unit Rejection) :=
  do sc <- call ScanJournals;
  match sc_unreadable sc with
  | id :: _ => Ret (Err (refuse req Busy ("attempt journal " +:+ id
      +:+ " cannot be read (corrupt, or written by a newer actor); nothing is admitted until it can")))
  | [] =>
      do? _ <- Ret (grade_images req (components req));
      do? settings <- map_errp (λ why, refuse req Invalid ("release trust: " +:+ why)) (call LoadTrust);
      let tc := mkTrustConfig settings.1 ((λ j, request_id (j_request j)) <$> scan_open sc) settings.2 in
      do evidence <- (if wants_signature_evidence tc (request_id req)
                      then do e <- call (GatherEvidence req); Ret (Some e) else Ret None);
      Ret (match trust_decision caller req tc evidence with
           | Ok _ => Ok tt
           | Err r => Err (refuse req (tr_reason r) (tr_message r))
           end)
  end.

(** 4, the database rules. *)
Definition grade_database (req : Request) (machine : Machine I) : prog I (result unit Rejection) :=
  if negb (names_component "control-plane" req) then Ret (Ok tt)
  else if migrates req && negb (owned_database (m_inputs machine)) && negb (external_backup_confirmed req)
  then Ret (Err (refuse req BackupUnconfirmed "this release migrates the operator's own database, and no current backup of it was confirmed; Quasar never dumps an operator's database. Nothing was changed"))
  else
  do h <- call LoadHold;
  Ret (match h with
       | Ok None => Ok tt
       | Ok (Some _) => Err (refuse req Invalid "a restore holds this machine's database (it has not finished, or a fresh install awaits one); finish it with the restore command first. Nothing was changed")
       | Err e => Err (refuse req Busy ("database-hold.json cannot be read (" +:+ e +:+ "); nothing was admitted"))
       end).

(** 6. The race guard over the whole listing. *)
Definition grade_listing (req : Request) (machine : Machine I) : prog I (result unit Rejection) :=
  do l <- call ListContainers;
  Ret (match l with
       | Err e => Err (refuse req Busy ("the container engine did not answer ("
                    +:+ show_engine_error e +:+ "); nothing was admitted"))
       | Ok all =>
           match conflicts all (Some (m_installation_id machine)) (self_container cfg) with
           | _ :: _ as cs => Err (refuse req OwnerConflict (refusal cs))
           | [] =>
               match find_first (λ c, bool_decide (c_labels c !! LABEL_ATTEMPT = Some (request_id req))) all with
               | Some c => Err (refuse req Invalid ("request id " +:+ request_id req
                   +:+ " was already used on this machine (container " +:+ c_name c +:+ " carries it)"))
               | None => Ok tt
               end
           end
       end).

Definition is_me (c : Container) : bool :=
  match self_container cfg with Some me => same_container me (c_id c) | None => false end.

(** One name a component's replacement needs, and who holds it. *)
Definition grade_holder (req : Request) (machine : Machine I) (role : Role) (name : string)
    (c : Container) : result unit Rejection :=
  let canonical := container_name role in
  if bool_decide (role = RecoveryActor) && str_eqb name canonical && negb (is_me c)
  then Err (refuse req Invalid ("this recovery actor is not the container named " +:+ canonical
         +:+ ", so it cannot hand over to a successor; nothing was changed"))
  else if is_me c && existsb (λ k, starts_with COMPOSE_LABEL_PREFIX k) (map fst (map_to_list (c_labels c)))
  then Err (refuse req OwnerConflict ("this recovery actor (" +:+ c_name c
         +:+ ") is declared by an external manager (it carries Compose labels), so it is not Quasar's to replace; declare only the seed in the manager. Nothing was changed"))
  else if negb (is_me c) && negb (bool_decide (c_labels c !! LABEL_INSTALLATION = Some (m_installation_id machine)))
  then Err (refuse req OwnerConflict ("container " +:+ c_name c +:+ " (" +:+ c_image c
         +:+ ") is not this installation's; it is never acted on. Remove it, or the manager definition that recreates it"))
  else Ok tt.

Fixpoint grade_names (req : Request) (machine : Machine I) (role : Role) (old_digest : option string)
    (names : list string) : prog I (result (option string) Rejection) :=
  match names with
  | [] => Ret (Ok old_digest)
  | name :: names' =>
      do r <- call (InspectContainer name);
      match r with
      | Ok (Some c) =>
          do? _ <- Ret (grade_holder req machine role name c);
          grade_names req machine role
            (if str_eqb name (container_name role) then snd <$> split_once "@" (c_image c) else old_digest) names'
      | Ok None => grade_names req machine role old_digest names'
      | Err e => Ret (Err (refuse req Busy ("the container engine did not answer ("
                   +:+ show_engine_error e +:+ "); nothing was admitted")))
      end
  end.

Definition names_needed (role : Role) : list string :=
  [container_name role; kept_name (container_name role)]
  ++ (if bool_decide (role = RecoveryActor) then [NAME_RECOVERY_ACTOR +:+ ".next"] else []).

Definition admitted_step (c : Component) (old_digest : option string) : Step :=
  mkStep (comp_name c) (mkImageRef (comp_image c) (comp_digest c)) PhAdmitted None None old_digest
    None None None None 0 false None.

(** The steps and the previous digests, component by component. *)
Fixpoint plan (req : Request) (machine : Machine I) (steps : list Step) (previous : list Previous)
    (l : list Component) : prog I (result (list Step * list Previous) Rejection) :=
  match l with
  | [] => Ret (Ok (steps, previous))
  | c :: l' =>
      do? role <- Ret (ok_or (role_parse (comp_name c))
                    (refuse req Invalid ("unknown component " +:+ debug_str (comp_name c))));
      do? old_digest <- grade_names req machine role None (names_needed role);
      if bool_decide (role = RecoveryActor) && bool_decide (self_container cfg = None)
      then Ret (Err (refuse req Invalid "this recovery actor cannot tell its own container, so it cannot hand over to a successor; nothing was changed"))
      else plan req machine (steps ++ [admitted_step c old_digest])
             (previous ++ [mkPrevious (comp_name c) old_digest]) l'
  end.

(** The journal of an admitted request. *)
Definition admitted_journal (caller : Caller) (req : Request) (seq : Z) (steps : list Step)
    (previous : list Previous) (now : string) : Journal :=
  mkJournal FORMAT seq (caller_tag caller) req steps
    (mkAttemptResult (request_id req) StPending None (components req) previous EmptyString now now
       None false (rq_release req) None) None.

(** The end of [submit]: the attempt is on disk before its caller is told of it. *)
Definition start_attempt (caller : Caller) (req : Request) (steps : list Step)
    (previous : list Previous) : prog I (result Accepted Rejection) :=
  do now <- call NowStamp;
  do sc <- call ScanJournals;
  do r <- call (StoreJournal (admitted_journal caller req (next_seq sc) steps previous now));
  match r with
  | Err e => Ret (Err (refuse req Busy ("the journal could not be written (" +:+ e +:+ "); nothing was admitted")))
  | Ok _ =>
      do _ <- call (MarkUsed (request_id req));
      do _ <- call (SpawnDriver (request_id req));
      Ret (Ok (mkAccepted (request_id req) previous))
  end.

(** 4 to the end, for a request that is no removal. *)
Definition submit_replace (caller : Caller) (req : Request) : prog I (result Accepted Rejection) :=
  do? _ <- grade_caller caller req;
  do? _ <- grade_trust caller req;
  do m <- call LoadMachine;
  do? machine <- Ret (match m with
                      | Ok (Some m) => Ok m
                      | Ok None => Err (refuse req Invalid "this machine is not installed yet; nothing can be replaced")
                      | Err e => Err (refuse req Invalid ("machine state is unreadable: " +:+ e))
                      end);
  do? _ <- grade_database req machine;
  do? _ <- grade_listing req machine;
  do? sp <- plan req machine [] [] (components req);
  start_attempt caller req sp.1 sp.2.

(** [Actor::submit] *)
Definition submit (caller : Caller) (req : Request) : prog I (result Accepted Rejection) :=
  do known <- answer_repost caller req;
  match known with
  | Some r => Ret r
  | None =>
      do resuming <- call Resuming;
      if resuming
      then Ret (Err (refuse req Busy "the recovery actor is still settling this machine after a start"))
      else if bool_decide (rq_kind req = KRemove) && is_uuid (request_id req)
      then call (SubmitRemove caller req)
      else
      do un <- call Uninstalled;
      match un with
      | Some why => Ret (Err (refuse req Invalid (why +:+ "; nothing is replaced on it")))
      | None => submit_replace caller req
      end
  end.
End submit.
