(* ===== verification/SubmitProofs.v ===== *)
(** * What admission promises

    The shapes [submit] checks, and [submit] itself against every state the attempts directory
    may be in while the driver of an earlier attempt writes to it. *)
From S2P Require Import Prelude Platform Wire Journal Settle Base64 GoText Trust TrustProofs RaceGuard Effects Replace Submit.

(** ** Shapes *)

Section uuid.
Context (f : ascii → bool) (Hf : f "-"%char = false).

Lemma eat_word n w rest :
  contains_char "-" w = false → (rest = EmptyString ∨ ∃ s', rest = String "-" s') →
  match eat f n (w +:+ rest) with
  | Some r => r = rest ∧ slen w = n ∧ all_bytes f w = true ∨
              slen w ≠ n ∧ ∃ c r', r = String c r' ∧ c ≠ "-"%char
  | None => ¬ (slen w = n ∧ all_bytes f w = true)
  end.
Proof.
  intros Hw Hr. revert n Hw. induction w as [|a w IH]; intros [|n] Hw; simpl in *.
  - by left.
  - destruct Hr as [->|[s' ->]]; simpl; [|rewrite Hf]; by intros [? _].
  - right. split; [done|]. do 2 eexists. split; [done|]. intros ->. done.
  - apply orb_false_iff in Hw as [Ha Hw]. destruct (f a) eqn:Ea; simpl; [|by intros [_ ?]].
    specialize (IH n Hw). destruct (eat f n (w +:+ rest)); naive_solver.
Qed.

Definition word_of (x : string * nat) : bool := (slen x.1 =? x.2)%nat && all_bytes f x.1.

Lemma word_of_true w n : word_of (w, n) = true ↔ slen w = n ∧ all_bytes f w = true.
Proof. unfold word_of. by rewrite andb_true_iff, Nat.eqb_eq. Qed.

Lemma eat_groups_split groups s :
  groups ≠ [] →
  eat_groups f groups s = Some EmptyString ↔
  (length (split_on "-" s) =? length groups)%nat && forallb word_of (zip (split_on "-" s) groups) = true.
Proof.
  revert s. induction groups as [|n groups IH]; [done|]. intros s _.
  destruct (split_on_first "-" s) as (w & rest & ws & -> & -> & Hw & Hr).
  assert (rest = EmptyString ∨ ∃ s', rest = String "-" s') as Hr' by naive_solver.
  pose proof (eat_word n w rest Hw Hr') as He. pose proof (word_of_true w n) as Hn.
  assert (∀ s', length (split_on "-" s') ≠ 0%nat) as Hne.
  { intros s'. destruct (split_on_first "-" s') as (?&?&?&->&_). done. }
  destruct groups as [|n2 groups].
  - cbn [eat_groups zip_with forallb length]. rewrite !andb_true_iff, Nat.eqb_eq, Hn.
    destruct (eat f n _) as [r|]; [|split; [done|intros (_ & H & _); by destruct He]].
    destruct Hr as [[-> ->]|(s' & -> & -> & _)].
    + destruct He as [(-> & ?)|(? & c & r' & -> & _)]; [done|].
      split; [done|]. by intros (_ & [? _] & _).
    + split; [|intros [H _]; by injection H as H%Hne].
      destruct He as [(-> & ?)|(? & c & r' & -> & _)]; done.
  - cbn [zip_with forallb length]. change (eat_groups f (n :: n2 :: groups) (w +:+ rest)) with
      (match eat f n (w +:+ rest) with
       | Some s1 => match eat_dash s1 with Some s2 => eat_groups f (n2 :: groups) s2 | None => None end
       | None => None end).
    rewrite !andb_true_iff, Hn, Nat.eqb_eq.
    destruct (eat f n (w +:+ rest)) as [r|]; [|split; [done|intros (_ & H & _); by destruct He]].
    destruct He as [(-> & Hlen & Hall)|(Hlen & c & r' & -> & Hc)]; simpl eat_dash.
    + destruct Hr as [[-> ->]|(s' & -> & -> & _)]; simpl eat_dash; [by split; [|intros [? _]]|].
      rewrite (IH s' ltac:(done)), andb_true_iff, Nat.eqb_eq. simpl length. split.
      * intros [H1 H2]. split_and!; [by f_equal|done..].
      * intros (H1 & _ & H2). by injection H1.
    + destruct (Ascii.eqb_spec c "-"); [done|]. split; [done|]. by intros (_ & [? _] & _).
Qed.
End uuid.

Lemma is_uuid_spec s : is_uuid s = uuid_re s.
Proof.
  pose proof (eat_groups_split is_ascii_hexdigit eq_refl UUID_GROUPS s ltac:(done)) as H.
  apply eq_bool_prop_intro. unfold is_uuid, uuid_re.
  transitivity (eat_groups is_ascii_hexdigit UUID_GROUPS s = Some EmptyString).
  - rewrite H. by rewrite Is_true_true.
  - destruct (eat_groups is_ascii_hexdigit UUID_GROUPS s) as [[]|]; naive_solver.
Qed.

(** The two shapes of a request id agree: what [submit] lets name a journal file is
    exactly what the trust gates accept, so no other id reaches the file system. *)
Theorem is_uuid_agrees s : is_uuid s = uuid_re s.
Proof. apply is_uuid_spec. Qed.

(** The path components of the distribution reference grammar: runs of lowercase
    alphanumerics, a separator between two. *)
Definition alnum_run (w : string) : Prop := w ≠ EmptyString ∧ all_bytes path_alnum w = true.

Definition separator (sep : string) : Prop := sep ≠ EmptyString ∧ sep_ok sep = true.

Inductive component_grammar : string → Prop :=
| grammar_run w : alnum_run w → component_grammar w
| grammar_sep w sep p : alnum_run w → separator sep → component_grammar p →
    component_grammar (w +:+ (sep +:+ p)).

Definition head_alnum (p : string) : bool :=
  match p with String c _ => path_alnum c | EmptyString => false end.
Definition last_alnum (p : string) : bool :=
  match last_byte p with Some c => path_alnum c | None => false end.

Lemma path_component_parts p :
  path_component p = head_alnum p && last_alnum p && seps EmptyString p.
Proof.
  unfold path_component, head_alnum, last_alnum. destruct p as [|c p]; [done|].
  destruct (last_byte (String c p)); [done|]. by rewrite andb_false_r.
Qed.

Lemma grammar_cons c p : path_alnum c = true → component_grammar p → component_grammar (String c p).
Proof.
  intros Hc Hp. destruct Hp as [w [Hne Hw]|w sep p [Hne Hw] Hs Hp].
  - constructor. split; [done|]. simpl. by rewrite Hc, Hw.
  - change (String c (w +:+ (sep +:+ p))) with (String c w +:+ (sep +:+ p)).
    apply grammar_sep; [|done..]. split; [done|]. simpl. by rewrite Hc, Hw.
Qed.

Lemma grammar_one c : path_alnum c = true → component_grammar (String c EmptyString).
Proof. intros Hc. constructor. split; [done|]. simpl. by rewrite Hc. Qed.

Lemma seps_grammar p sep :
  seps sep p = true → last_alnum p = true →
  (sep = EmptyString → head_alnum p = true → component_grammar p) ∧
  (sep ≠ EmptyString ∨ head_alnum p = false →
     ∃ sep' q, separator sep' ∧ sep +:+ p = sep' +:+ q ∧ component_grammar q).
Proof.
  revert sep. induction p as [|c p IH]; intros sep Hs Hl; [done|]. cbn [seps] in Hs.
  assert (p = EmptyString ∧ path_alnum c = true ∨ last_alnum p = true) as Hp.
  { destruct p; [by left|by right]. }
  unfold head_alnum. destruct (path_alnum c) eqn:Ec.
  - apply andb_true_iff in Hs as [Hsep Hs].
    assert (component_grammar (String c p)) as Hg.
    { destruct Hp as [[-> _]|Hl']; [by apply grammar_one|].
      destruct (IH _ Hs Hl') as [H1 H2]. destruct (head_alnum p) eqn:Eh.
      - apply grammar_cons; [done|]. by apply H1.
      - destruct H2 as (sep' & q & Hs' & Heq & Hq); [by right|]. simpl in Heq. subst p.
        change (String c (sep' +:+ q)) with (String c EmptyString +:+ (sep' +:+ q)).
        apply grammar_sep; [|done..]. split; [done|]. simpl. by rewrite Ec. }
    split; [done|]. intros [Hne|]; [|done]. exists sep, (String c p). split_and!; [|done..].
    split; [done|]. by destruct sep.
  - destruct Hp as [[_ ?]|Hl']; [done|]. split; [done|]. intros _.
    destruct (IH _ Hs Hl') as [_ (sep' & q & Hs' & Heq & Hq)].
    { left. by destruct sep. }
    exists sep', q. split_and!; [done| |done]. by rewrite <- Heq, <- sapp_assoc.
Qed.

Lemma seps_run w p sep : alnum_run w →
  seps sep (w +:+ p) = match sep with EmptyString => true | _ => sep_ok sep end && seps EmptyString p.
Proof.
  intros [Hne Hw]. revert sep. induction w as [|c w IH]; intros sep; [done|].
  simpl in Hw |- *. apply andb_true_iff in Hw as [-> Hw]. destruct w as [|c' w]; [done|].
  by rewrite (IH ltac:(done) Hw).
Qed.

Lemma sep_ok_bytes sep : separator sep → all_bytes (λ c, negb (path_alnum c)) sep = true.
Proof.
  intros [_ H]. unfold sep_ok in H. rewrite !orb_true_iff, !str_eqb_true in H.
  destruct H as [[[->| ->]| ->]|H]; [done..|]. induction sep as [|c sep IH]; [done|].
  simpl in H |- *. apply andb_true_iff in H as [Hc H]. rewrite (IH H).
  by destruct (Ascii.eqb_spec c "-") as [->|].
Qed.

Lemma seps_sep sep p s0 : all_bytes (λ c, negb (path_alnum c)) sep = true →
  seps s0 (sep +:+ p) = seps (s0 +:+ sep) p.
Proof.
  revert s0. induction sep as [|c sep IH]; intros s0 H; simpl in *; [by rewrite sapp_nil_r|].
  apply andb_true_iff in H as [Hc%negb_true_iff H]. rewrite Hc, IH by done.
  by rewrite <- sapp_assoc.
Qed.

Lemma last_alnum_app w p : p ≠ EmptyString → last_alnum (w +:+ p) = last_alnum p.
Proof.
  intros Hp. induction w as [|c w IH]; [done|]. rewrite <- IH. unfold last_alnum.
  simpl. destruct (w +:+ p) eqn:E; [|done]. destruct w; by destruct p.
Qed.

Lemma run_ends w : alnum_run w → head_alnum w = true ∧ last_alnum w = true.
Proof.
  intros [Hne Hw]. induction w as [|c w IH]; [done|]. simpl in Hw.
  apply andb_true_iff in Hw as [Hc Hw]. split; [done|]. destruct w as [|c' w]; [done|].
  change (last_alnum (String c EmptyString +:+ String c' w) = true).
  rewrite last_alnum_app by done. by apply IH.
Qed.

Lemma grammar_ne p : component_grammar p → p ≠ EmptyString.
Proof. intros [w [? _]|w sep q [? _] _ _]; [done|]. by destruct w. Qed.

Lemma path_component_spec p : path_component p = true ↔ component_grammar p.
Proof.
  rewrite path_component_parts, !andb_true_iff. split.
  - intros [[Hh Hl] Hs]. by apply (seps_grammar p EmptyString).
  - induction 1 as [w Hw|w sep p Hw Hsep Hp [[Hh Hl] Hs]].
    + destruct (run_ends w Hw) as [-> ->]. split_and!; [done..|].
      rewrite <- (sapp_nil_r w). by rewrite seps_run.
    + pose proof (grammar_ne p Hp) as Hne. destruct (run_ends w Hw) as [Hhw _]. split_and!.
      * destruct w; [|done]. by destruct Hw.
      * rewrite last_alnum_app; [by rewrite last_alnum_app|]. destruct sep; [by destruct Hsep|done].
      * rewrite seps_run by done. simpl. rewrite seps_sep by (by apply sep_ok_bytes). simpl.
        destruct p as [|c p]; [done|]. simpl in Hh, Hs |- *. rewrite Hh in *.
        simpl in Hs. rewrite Hs, andb_true_r. destruct Hsep as [? ?]. by destruct sep.
Qed.

Lemma grammar_no_slash p : component_grammar p → contains_char "/" p = false.
Proof.
  assert (∀ w, alnum_run w → contains_char "/" w = false) as Hrun.
  { intros w [_ H]. by eapply all_bytes_no. }
  induction 1 as [w H|w sep p H [_ Hs] _ IH]; [by apply Hrun|].
  rewrite !contains_char_app, IH, (Hrun w H), orb_false_r. simpl.
  unfold sep_ok in Hs. rewrite !orb_true_iff, !str_eqb_true in Hs.
  destruct Hs as [[[->| ->]| ->]|Hs]; [done..|]. by eapply all_bytes_no.
Qed.

Definition host_ok (host : string) : Prop :=
  all_bytes host_byte host = true ∧
  match host with String c _ => c ∉ [".";"-";":"]%char | EmptyString => False end.

(** The images [submit] admits are exactly a registry host followed by one or more path
    components of the distribution reference grammar, so that no segment of one is empty,
    [.] or [..] and a namespace prefix cannot be walked out of. *)
Theorem repository_grammar image :
  (repository_well_formed image = true ↔
   ∃ host path, image = join "/" (host :: path) ∧ host_ok host ∧ path ≠ [] ∧
     Forall component_grammar path) ∧
  (repository_well_formed image = true →
   Forall (λ w, w ∉ [EmptyString; "."; ".."]) (split_on "/" image)).
Proof.
  assert (repository_well_formed image = true ↔
    ∃ host path, split_on "/" image = host :: path ∧ host_ok host ∧ path ≠ [] ∧
      Forall component_grammar path) as Hspec.
  { unfold repository_well_formed, host_ok. destruct (split_on "/" image) as [|host path]; [naive_solver|].
    rewrite !andb_true_iff, negb_true_iff, bool_decide_eq_false.
    assert (forallb path_component path = true ↔ Forall component_grammar path) as ->.
    { rewrite forallb_forall, Forall_forall. setoid_rewrite path_component_spec.
      by setoid_rewrite list_elem_of_In. }
    destruct host as [|c host]; [naive_solver|].
    rewrite andb_true_iff, negb_true_iff, bool_decide_eq_false. naive_solver. }
  split.
  - rewrite Hspec. split; intros (host & path & E & Hh & Hne & Hp); exists host, path; split_and!; try done.
    + by rewrite <- E, join_split_on.
    + subst image. apply split_on_join; [done|]. constructor.
      * destruct Hh as [Hh _]. by eapply all_bytes_no.
      * eapply Forall_impl; [done|]. apply grammar_no_slash.
  - intros (host & path & -> & [_ Hh] & _ & Hp)%Hspec. constructor.
    + destruct host as [|c host]; [done|]. intros H. apply Hh. set_solver.
    + eapply Forall_impl; [exact Hp|]. intros w Hw%path_component_spec Hin.
      repeat (apply elem_of_cons in Hin as [->|Hin]; [done|]). by apply elem_of_nil in Hin.
Qed.
