(* ===== verification/Database.v ===== *)
(** * The database helper and the pre-update dump

    [crates/quasar-recovery/src/database.rs]: what the actor does to a control plane's database,
    each time in a disposable helper container; and [dump_now] of [migrate.rs], which takes the
    pre-update dump with it. The floor and the image's schema are in [Replace]. *)
From S2P Require Import Prelude Platform Wire Journal Settle Effects Replace DumpDir.

(** ** Operations *)

Definition op_label (op : DbOp) : string :=
  match op with
  | DbSize => "db-size" | DbDump => "db-dump" | DbInspect => "db-inspect"
  | DbLoad => "db-load" | DbImport => "db-import" | DbSchema => "db-schema"
  end.

Definition writes_dumps (op : DbOp) : bool := bool_decide (op = DbDump).

Definition reads_file (op : DbOp) : bool :=
  match op with DbDump | DbInspect | DbLoad | DbImport => true | _ => false end.

(** [paths], [names] and [control] of the recipe. *)
Definition SECRETS_DIR : string := "/run/quasar-secrets".
Definition MACHINE_DIR : string := "/var/lib/quasar-machine".
Definition PLATFORM_NETWORK : string := "quasar-platform".
Definition POSTGRES_SECRETS_VOLUME : string := "quasar-postgres-secrets".
Definition CONTROL_PLANE_SECRETS_VOLUME : string := "quasar-control-plane-secrets".
Definition DATABASE_PASSWORD : string := "database-password".
Definition OWNED_DATABASE : string := "quasar".
Definition OWNED_DATABASE_USER : string := "quasar".
Definition DEFAULT_POSTGRES_IMAGE : string :=
  "docker.io/library/postgres@sha256:721873c34ceb9f8d8fc265984940dc982404c105f19ad51be9fdc5970a6080ea".
Definition DUMPS_MOUNT : string := "/dumps".
Definition DUMP_FILE_ENV : string := "QUASAR_DUMP_FILE".
Definition HELPER_SHELL : string := "bash".

(** The scripts, with a back quote for every double quote. *)
Fixpoint quoted (s : string) : string :=
  match s with
  | EmptyString => EmptyString
  | String c s' => if Ascii.eqb c "`" then String "034" (quoted s') else String c (quoted s')
  end.

Definition LOAD : string := quoted "psql -X -v ON_ERROR_STOP=1 -d postgres -c `DROP DATABASE IF EXISTS \`$PGDATABASE\` WITH (FORCE)` -c `CREATE DATABASE \`$PGDATABASE\` OWNER \`$PGUSER\``; pg_restore --single-transaction --exit-on-error --no-owner --no-privileges -d `$PGDATABASE` `$QUASAR_DUMP_FILE`".

Definition OLD_HOSTS_OFFLINE : string := quoted "psql -X -v ON_ERROR_STOP=1 -tA -c `UPDATE hosts SET status = 'offline' WHERE status <> 'offline'`".

Definition script (op : DbOp) : string :=
  let prelude := quoted ("umask 077; set -eu; set -o pipefail; PGPASSWORD=`$(cat " +:+ SECRETS_DIR +:+ "/"
                   +:+ DATABASE_PASSWORD +:+ ")`; export PGPASSWORD; ") in
  prelude +:+ match op with
  | DbSize => "psql -X -tA -c 'select pg_database_size(current_database())'"
  | DbDump => quoted "pg_dump --format=custom --no-owner --no-privileges -f `$QUASAR_DUMP_FILE`"
  | DbInspect => quoted "pg_restore --list `$QUASAR_DUMP_FILE` >/dev/null; pg_restore --data-only --table=schema_migrations -f - `$QUASAR_DUMP_FILE` | awk '/^COPY /{c=1;next} /^\\\.$/{c=0} c && NF>=2 {print `schema=`$1` dirty=`$2}'"
  | DbLoad => LOAD
  | DbImport => LOAD +:+ "; " +:+ OLD_HOSTS_OFFLINE
  | DbSchema => quoted "psql -X -tA -F ' ' -c 'select version, dirty from schema_migrations' | awk 'NF>=2 {print `schema=`$1` dirty=`$2}'"
  end.

(** [s.lines()] *)
Definition line_end (l : string) : string := default l (strip_suffix (String "013" EmptyString) l).
Definition lines (s : string) : list string :=
  let l := split_on "010" s in
  map line_end (match last l with Some EmptyString => removelast l | _ => l end).

(** [v.iter().find_map(f)] *)
Fixpoint find_map {A B} (f : A → option B) (l : list A) : option B :=
  match l with
  | [] => None
  | x :: l' => match f x with Some y => Some y | None => find_map f l' end
  end.

Record Schema := mkSchema { sch_version : Z; sch_dirty : bool }.

Definition parse_schema_line (l : string) : option Schema :=
  match strip_prefix "schema=" (trim l) with
  | None => None
  | Some rest =>
      match split_once_str " dirty=" rest with
      | None => None
      | Some (v, dirty) =>
          (λ n, mkSchema n (str_eqb (trim dirty) "t" || str_eqb (trim dirty) "true")) <$> parse_i64 (trim v)
      end
  end.

Definition parse_schema (logs : string) : option Schema := find_map parse_schema_line (reverse (lines logs)).

(** [DbError::from] *)
Definition db_error (e : EngineError) : DbError :=
  match e with Crashed => DbCrashed | e => DbFailed (show_engine_error e) end.

(** [ImageRef::parse] *)
Definition parse_image (debug : string → string) (text : string) : result ImageRef RenderError :=
  match split_once "@" (trim text) with
  | None => Err (RenderInvalid (debug text +:+ " is not pinned by digest (repository@sha256:…)"))
  | Some (repository, digest) =>
      let hex := default EmptyString (strip_prefix "sha256:" digest) in
      if str_eqb repository EmptyString || contains_char ":" (last_segment "/" repository)
         || negb (slen hex =? 64)%nat || negb (all_bytes lower_hex hex)
      then Err (RenderInvalid (debug text +:+ " is not repository@sha256:<64 lowercase hex>"))
      else Ok (mkImageRef repository digest)
  end.

(** [control_plane_revision] *)
Definition control_plane_revision (image : Image) : option Z :=
  match i_labels image !! LABEL_IMAGE_RECIPE with
  | None => None
  | Some l => match parse_unsigned U32_MAX (trim l) with
              | Some rev => if book_supports ControlPlane rev then Some rev else None
              | None => None
              end
  end.

(** [dump_dir::human], which formats a binary floating-point number. *)
Class DumpDeps := mkDumpDeps { human : Z → string }.

(** [source.trim_end_matches('/')] *)
Definition trim_end_slashes (s : string) : string :=
  concat_str (reverse (drop_while (str_eqb "/") (reverse (chars s)))).

Section database.
Context {I : Type} `{!ReplaceDeps I, !DumpDeps} (cfg : Config).

Implicit Types (machine : Machine I) (j : Journal).

(** [Actor::machine_host_dir] *)
Definition host_engine (what : string) (e : EngineError) : DbError :=
  match e with Crashed => DbCrashed | e => DbFailed (what +:+ ": " +:+ show_engine_error e) end.

Definition machine_host_dir : prog I (result string DbError) :=
  match machine_dir_host cfg with
  | Some path => Ret (Ok path)
  | None =>
      do? me <- Ret (ok_or (self_container cfg) (DbFailed "this recovery actor cannot tell its own container, so it cannot tell where its machine state lives on the host"));
      do? c <- map_errp (host_engine "inspect this actor's container") (call (InspectContainer me));
      do? c <- Ret (ok_or c (DbFailed "this actor's own container is gone"));
      do? m <- Ret (ok_or (find_first (λ m, str_eqb m.1.2 MACHINE_DIR) (c_mounts c))
                      (DbFailed ("nothing is mounted at " +:+ MACHINE_DIR)));
      let source := m.1.1 in
      if starts_with "/" source then Ret (Ok source)
      else
      do r <- call (InspectVolume source);
      Ret (match r with
           | Ok (Some v) =>
               if str_eqb (v_driver v) "local"
               then ok_or (v_mountpoint v) (DbFailed ("the " +:+ source +:+ " volume reports no host path"))
               else Err (DbFailed ("the " +:+ source +:+ " volume uses the " +:+ debug_str (v_driver v)
                      +:+ " driver; a pre-update dump needs the engine's local volume driver"))
           | Ok None => Err (DbFailed ("the " +:+ source +:+ " volume does not exist"))
           | Err e => Err (host_engine ("inspect the " +:+ source +:+ " volume") e)
           end)
  end.

(** [Actor::helper_image] *)
Definition helper_image machine : prog I (result ImageRef string) :=
  do recorded <- (if owned_database (m_inputs machine)
                  then do s <- call (LoadService Postgres);
                       Ret (match s with
                            | Ok (Some r) => Some (sr_image r)
                            | _ => m_install_images machine !! role_str Postgres
                            end)
                  else Ret None);
  Ret (match recorded with
       | Some image => Ok image
       | None => map_err show_render_error (parse_image debug_str DEFAULT_POSTGRES_IMAGE)
       end).

(** [Actor::helper_spec] *)
Definition database_env (d : DatabaseInputs) : gmap string string :=
  match d with
  | OwnedDatabase =>
      {[ "PGHOST" := NAME_POSTGRES; "PGPORT" := "5432"; "PGUSER" := OWNED_DATABASE_USER;
         "PGDATABASE" := OWNED_DATABASE; "PGSSLMODE" := "disable" ]}
  | ExternalDatabase host port user name sslmode =>
      {[ "PGHOST" := host; "PGPORT" := pretty port; "PGUSER" := user;
         "PGDATABASE" := name; "PGSSLMODE" := sslmode ]}
  end.

Definition secrets_bind (d : DatabaseInputs) : Bind :=
  mkBind (match d with OwnedDatabase => POSTGRES_SECRETS_VOLUME | _ => CONTROL_PLANE_SECRETS_VOLUME end)
    SECRETS_DIR true.

Definition helper_container (image : ImageRef) (op : DbOp) (env : gmap string string) (binds : list Bind) :
  ContainerSpec :=
  mkContainerSpec NAME_DB_HELPER (reference image) (Some [HELPER_SHELL; "-c"; script op]) None env
    {[ LABEL_HELPER := op_label op ]} (Some PLATFORM_NETWORK) binds [] [] [] [] [] false RestartNo [] None.

Definition helper_spec machine (op : DbOp) (file : option string) : prog I (result ContainerSpec DbError) :=
  do? d <- Ret (ok_or (database (m_inputs machine)) (DbFailed "this machine runs no control plane, so it has no database"));
  do? image <- map_errp DbFailed (helper_image machine);
  let env := database_env d in
  let binds := [secrets_bind d] in
  if reads_file op
  then
    do? file <- Ret (ok_or file (DbFailed "no dump file named"));
    do? host_dir <- machine_host_dir;
    Ret (Ok (helper_container image op (<[DUMP_FILE_ENV := DUMPS_MOUNT +:+ "/" +:+ file]> env)
      (binds ++ [mkBind (trim_end_slashes host_dir +:+ "/dumps") DUMPS_MOUNT (negb (writes_dumps op))])))
  else Ret (Ok (helper_container image op env binds)).

(** [run_helper] *)
Definition helper_ran (id : string) (spec : ContainerSpec) (timeout : Z) : prog I (result (Z * string) DbError) :=
  do? _ <- map_errp db_error (call (StartContainer id));
  do w <- call (WaitContainer id timeout);
  match w with
  | Ok code =>
      do logs <- call (LogsTail id 200);
      Ret (match logs with
           | Err Crashed => Err DbCrashed
           | Err _ => Ok (code, EmptyString)
           | Ok logs => Ok (code, logs)
           end)
  | Err (Runtime TimedOut) =>
      Ret (Err (DbFailed (cs_name spec +:+ " did not finish within " +:+ pretty (as_secs timeout / 60)%Z +:+ " minutes")))
  | Err e => Ret (Err (db_error e))
  end.

Definition run_helper (spec : ContainerSpec) (timeout : Z) : prog I (result (Z * string) DbError) :=
  let kind := default EmptyString (cs_labels spec !! LABEL_HELPER) in
  do? stale <- map_errp db_error (call (InspectContainer (cs_name spec)));
  do? _ <- (match stale with
            | None => Ret (Ok tt)
            | Some c =>
                if bool_decide (c_labels c !! LABEL_HELPER = Some kind)
                then map_errp db_error (call (RemoveContainer (c_id c)))
                else Ret (Err (DbFailed ("a container this actor did not create holds the name "
                       +:+ cs_name spec +:+ "; remove it and run again")))
            end);
  do? id <- map_errp db_error (call (CreateContainer spec));
  do ran <- helper_ran id spec timeout;
  match ran with
  | Err DbCrashed => Ret (Err DbCrashed)
  | _ =>
      do r <- call (RemoveContainer id);
      Ret (match r with Err Crashed => Err DbCrashed | _ => ran end)
  end.

(** [Actor::ensure_image], with its errors as [DbError]. *)
Definition ensure_image (failed : string → string) (image : ImageRef) : prog I (result Image DbError) :=
  let err e := match e with
               | Crashed => DbCrashed
               | e => DbFailed (failed ("container engine: " +:+ show_engine_error e))
               end in
  let ref := reference image in
  do? found <- map_errp err (call (InspectImage ref));
  match found with
  | Some im => Ret (Ok im)
  | None =>
      do? _ <- map_errp err (call (PullImage ref));
      do? found <- map_errp err (call (InspectImage ref));
      Ret (ok_or found (err (Runtime Missing)))
  end.

(** [Actor::image_labels] *)
Definition image_labels (image : ImageRef) : prog I (result Image DbError) :=
  ensure_image (λ why, reference image +:+ ": " +:+ why) image.

(** [Actor::run_db] *)
Definition run_db machine (op : DbOp) (file : option string) : prog I (result (Z * string) DbError) :=
  do? spec <- helper_spec machine op file;
  do? image <- Ret (map_err (λ e, DbFailed (show_render_error e)) (parse_image debug_str (cs_image spec)));
  do? _ <- ensure_image (λ why, "the database helper's image: " +:+ why) image;
  run_helper spec (database_timeout cfg).

(** [Actor::set_floor] *)
Definition set_floor (schema : Z) (rid : string) : prog I (result unit string) :=
  do now <- call NowStamp; call (StoreFloor (mkSchemaFloor schema rid now)).

(** ** The pre-update dump *)

Definition db_halt (what : string) (e : DbError) : Halt :=
  match e with DbCrashed => Died | DbFailed why => fail_with BackupFailed (what +:+ ": " +:+ why) end.

Definition untouched (why : string) : Halt :=
  fail_with BackupFailed (why +:+ "; the control plane was not replaced and the database was not touched").

(** The closure [cleanup]: the partial file goes with the failure. *)
Definition cleanup {A} (pending why : string) : prog I (result A Halt) :=
  do _ <- call (RemovePartial pending); Ret (Err (untouched why)).

(** Room for the dump, by the database's size. *)
Definition measure machine : prog I (result unit Halt) :=
  do? r <- map_errp (db_halt "measure the database") (run_db machine DbSize None);
  let (code, out) := (r : Z * string) in
  do? size <- Ret (ok_or (if (code =? 0)%Z then find_map (λ l, parse_unsigned U64_MAX (trim l)) (reverse (lines out)) else None)
                     (untouched ("the database could not be measured, so no dump was taken (" +:+ trim out +:+ ")")));
  let need := space_needed size in
  do? free <- map_errp (λ e, fail_with BackupFailed ("read the free space: " +:+ e)) (call FreeSpace);
  if (free <? need)%Z
  then Ret (Err (fail_with BackupFailed ("not enough free space for the pre-update dump: it needs about "
         +:+ human need +:+ " and " +:+ human free
         +:+ " is free. Free some space on this machine and apply again; the control plane was not replaced and the database was not touched")))
  else Ret (Ok tt).

(** The partial file, checked: its size and checksum, and its schema. *)
Definition write_dump machine (old_found : option Image) (to pending : string) :
  prog I (result (Z * string * Z) Halt) :=
  let partial := pending +:+ ".dump.partial" in
  do? r <- map_errp (db_halt "dump the database") (run_db machine DbDump (Some partial));
  let (code, out) := (r : Z * string) in
  if negb (code =? 0)%Z
  then cleanup pending ("the pre-update dump failed (pg_dump exited " +:+ pretty code +:+ "): "
         +:+ tail_output (trim out) LOG_TAIL_LIMIT)
  else
  do ex <- call (ExamineDump partial);
  match ex with
  | Err e => cleanup pending ("the dump file cannot be read: " +:+ e)
  | Ok (bytes, sha, magic) =>
      if negb magic then cleanup pending "the dump file is not a pg_dump custom-format archive"
      else
      do? r <- map_errp (db_halt "check the dump") (run_db machine DbInspect (Some partial));
      let (code, out) := (r : Z * string) in
      match parse_schema out with
      | Some schema =>
          if negb (code =? 0)%Z
          then cleanup pending ("the dump does not read back as a Quasar database: " +:+ tail_output (trim out) LOG_TAIL_LIMIT)
          else if sch_dirty schema
          then cleanup pending ("the database is at schema " +:+ pretty (sch_version schema)
                 +:+ " and marked dirty (a migration did not finish), so a dump of it is no way back")
          else match old_found ≫= image_schema with
               | Some declared =>
                   if (declared =? sch_version schema)%Z then Ret (Ok (bytes, sha, sch_version schema))
                   else cleanup pending ("the database is at schema " +:+ pretty (sch_version schema)
                     +:+ " but the control plane this machine last verified (" +:+ to +:+ ") is of schema "
                     +:+ pretty declared
                     +:+ ", so a dump of it could not be restored; restore the dump of the earlier update first (`docker exec "
                     +:+ NAME_RECOVERY_ACTOR +:+ " quasar-recovery restore --list`)")
               | None => Ret (Ok (bytes, sha, sch_version schema))
               end
      | None => cleanup pending ("the dump does not read back as a Quasar database: " +:+ tail_output (trim out) LOG_TAIL_LIMIT)
      end
  end.

(** A name no file has yet. *)
Definition free_name (now : string) (schema : Z) (rid : string) : prog I (result string string) :=
  let name := stamp now +:+ "-schema-" +:+ pretty schema in
  do t <- call (DumpTaken name);
  if (t : bool)
  then let name := name +:+ "-" +:+ to_ascii_lowercase (stake 8 rid) in
       do t <- call (DumpTaken name);
       Ret (if (t : bool) then Err ("a dump named " +:+ name +:+ " is already kept") else Ok name)
  else Ret (Ok name).

(** [Actor::dump_now] *)
Definition dump_now machine j (old_image : ImageRef) (old_found : option Image) (old_revision : Z)
    (to : string) (protect : option string) : prog I (result DumpRecord Halt) :=
  let rid := request_id (j_request j) in
  do? _ <- map_errp (λ e, fail_with BackupFailed ("the dumps directory: " +:+ e)) (call PrepareDumps);
  do? _ <- measure machine;
  let pending := "pending-" +:+ stake 8 rid in
  do? x <- write_dump machine old_found to pending;
  let '(bytes, sha, schema) := x in
  do now <- call NowStamp;
  do named <- free_name now schema rid;
  match named with
  | Err why => cleanup pending why
  | Ok name =>
      do renamed <- call (CompleteDump pending name);
      match renamed with
      | Err e => cleanup pending ("the dump could not be kept: " +:+ e)
      | Ok _ =>
          let record := mkDumpRecord name schema now bytes sha (Some rid) (Some old_image)
                          (Some old_revision) (Some to) None None in
          do stored <- call (StoreDump record);
          match stored with
          | Err e =>
              do _ <- call (DumpRemove name);
              Ret (Err (fail_with BackupFailed ("the dump's record could not be written (" +:+ e
                +:+ "); the control plane was not replaced and the database was not touched")))
          | Ok _ => do _ <- call (PruneDumps name protect); Ret (Ok record)
          end
      end
  end.
End database.
