(* ===== verification/Frames.v ===== *)
(** * Framed procedures

    Rules for procedures most of whose calls keep what is known: given a monitor, a preorder on
    its histories and the calls that respect it, a procedure made of such calls respects it, and
    what its successful end establishes is carried through its binds. *)
From S2P Require Import Prelude Platform Effects Replace.

(** [fr_ok g e]: [e] may be made at [g], and keeps the frame. *)
Record Frame {I G} (M : Monitor I G) := mkFrame {
  frame : G → G → Prop;
  frame_pre : PreOrder frame;
  fr_ok : ∀ X, G → eff I X → Prop;
  fr_req : ∀ X g (e : eff I X), fr_ok X g e → require M g e;
  fr_adv : ∀ X g (e : eff I X) x, fr_ok X g e → allow M g e x → frame g (advance_ghost M g e x);
  fr_stable : ∀ X g g' (e : eff I X), frame g g' → fr_ok X g e → fr_ok X g' e;
  fr_sleep : ∀ X g (e : eff I X) d, fr_ok X g e → fr_ok unit g (Sleep d) }.
Arguments frame {I G M} _ _ _.
Arguments fr_ok {I G M} _ {X} _ _.
#[global] Existing Instance frame_pre.

Section frames.
Context {I G : Type} {M : Monitor I G} (F : Frame M) (spin : Prop).

Local Abbreviation WP p g Q := (wp M spin p g Q).

(** A procedure that keeps the frame; and what it establishes when it succeeds. *)
Definition keeps_frame {X} (g : G) (_ : X) (g' : G) : Prop := frame F g g'.
Definition gives {A E} (P : A → G → Prop) (g : G) (r : result A E) (g' : G) : Prop :=
  frame F g g' ∧ match r with Ok a => P a g' | Err _ => True end.

Lemma fr_call {X} (e : eff I X) g (Q : X → G → Prop) :
  fr_ok F g e → (∀ x, allow M g e x → frame F g (advance_ghost M g e x) → Q x (advance_ghost M g e x)) →
  WP (call e) g Q.
Proof. intros Hok HQ. apply wp_call; [by apply (fr_req _ F)|]. intros x Hx. apply HQ; [done|]. by apply fr_adv. Qed.

Lemma kf_call {X} (e : eff I X) g : fr_ok F g e → WP (call e) g (keeps_frame g).
Proof. intros H. by apply fr_call. Qed.

Lemma kf_ret {X} (x : X) g : WP (Ret x) g (keeps_frame g).
Proof. exact (reflexivity g). Qed.

Lemma kf_bind {A B} (p : prog I A) (f : A → prog I B) g :
  WP p g (keeps_frame g) → (∀ a g1, frame F g g1 → WP (f a) g1 (keeps_frame g1)) → WP (bind p f) g (keeps_frame g).
Proof.
  intros Hp Hf. apply wp_bind. eapply wp_mono; [exact Hp|]. intros a g1 H1.
  eapply wp_mono; [by apply Hf|]. intros b g2 H2. red. by etransitivity.
Qed.

Lemma kf_bind_ok {A B E} (p : prog I (result A E)) (f : A → prog I (result B E)) g :
  WP p g (keeps_frame g) → (∀ a g1, frame F g g1 → WP (f a) g1 (keeps_frame g1)) → WP (bind_ok p f) g (keeps_frame g).
Proof. intros Hp Hf. apply kf_bind; [done|]. intros [a|e] g1 H1; [by apply Hf|]. apply kf_ret. Qed.

Lemma kf_map_errp {A E E'} (h : E → E') (p : prog I (result A E)) g :
  WP p g (keeps_frame g) → WP (map_errp h p) g (keeps_frame g).
Proof. intros Hp. by apply wp_map_errp. Qed.

(** The weakening a bind leaves. *)
Lemma fr_bind {A B} (p : prog I A) (f : A → prog I B) g Q :
  WP p g (keeps_frame g) → (∀ a g1, frame F g g1 → WP (f a) g1 Q) → WP (bind p f) g Q.
Proof. intros Hp Hf. apply wp_bind. eapply wp_mono; [exact Hp|]. intros a g1 H1. by apply Hf. Qed.

Lemma gives_keeps {A E} (P : A → G → Prop) (p : prog I (result A E)) g :
  WP p g (gives P g) → WP p g (keeps_frame g).
Proof. intros H. eapply wp_mono; [exact H|]. by intros r g' [? _]. Qed.

Lemma gives_from {A E} (P : A → G → Prop) (p : prog I (result A E)) g g1 :
  frame F g g1 → WP p g1 (gives P g1) → WP p g1 (gives P g).
Proof. intros Hf H. eapply wp_mono; [exact H|]. intros r g2 [H1 H2]. split; [by etransitivity|done]. Qed.

Lemma gives_mono {A E} (P P' : A → G → Prop) (p : prog I (result A E)) g :
  WP p g (gives P g) → (∀ a g', frame F g g' → P a g' → P' a g') → WP p g (gives P' g).
Proof. intros H HP. eapply wp_mono; [exact H|]. intros [a|e] g' [H1 H2]; split; auto. Qed.

Lemma gives_ret {A E} (P : A → G → Prop) g (r : result A E) :
  match r with Ok a => P a g | Err _ => True end → WP (Ret r) g (gives P g).
Proof. intros H. split; [reflexivity|done]. Qed.

Lemma gives_bind {A B E} (P : B → G → Prop) (p : prog I A) (f : A → prog I (result B E)) g :
  WP p g (keeps_frame g) → (∀ a g1, frame F g g1 → WP (f a) g1 (gives P g1)) → WP (bind p f) g (gives P g).
Proof. intros Hp Hf. apply fr_bind; [done|]. intros a g1 H1. apply gives_from; [done|]. by apply Hf. Qed.

Lemma gives_bind_ok {A B E} (R : A → G → Prop) (P : B → G → Prop)
    (p : prog I (result A E)) (f : A → prog I (result B E)) g :
  WP p g (gives R g) → (∀ a g1, R a g1 → frame F g g1 → WP (f a) g1 (gives P g1)) →
  WP (bind_ok p f) g (gives P g).
Proof.
  intros Hp Hf. apply wp_bind_ok. eapply wp_mono; [exact Hp|]. intros [a|e] g1 [H1 H2].
  - apply gives_from; [done|]. by apply Hf.
  - by split.
Qed.

Lemma gives_skip {A B E} (P : B → G → Prop) (p : prog I (result A E)) (f : A → prog I (result B E)) g :
  WP p g (keeps_frame g) → (∀ a g1, frame F g g1 → WP (f a) g1 (gives P g1)) → WP (bind_ok p f) g (gives P g).
Proof.
  intros Hp Hf. apply (gives_bind_ok (λ _ _, True)); [|by intros; apply Hf].
  eapply wp_mono; [exact Hp|]. intros [a|e] g1 H; by split.
Qed.

Lemma gives_map_errp {A E E'} (P : A → G → Prop) (h : E → E') (p : prog I (result A E)) g :
  WP p g (gives P g) → WP (map_errp h p) g (gives P g).
Proof. intros Hp. apply wp_map_errp. eapply wp_mono; [exact Hp|]. by intros [a|e] g1. Qed.

Lemma gives_call {A E} (P : A → G → Prop) (e : eff I (result A E)) g :
  fr_ok F g e → (∀ a, allow M g e (Ok a) → P a (advance_ghost M g e (Ok a))) → WP (call e) g (gives P g).
Proof. intros Hok HP. apply fr_call; [done|]. intros [a|er] Ha Hf; (split; [done|]); [by apply HP|done]. Qed.

(** A retried call that keeps the frame. *)
Context `{!ReplaceDeps I} (cfg : Config).

Lemma gives_retry {A} (P : A → G → Prop) (e : eff I (result A EngineError)) g :
  fr_ok F g e →
  (∀ g1 a, frame F g g1 → allow M g1 e (Ok a) → P a (advance_ghost M g1 e (Ok a))) →
  WP (retrying cfg (call e)) g (gives P g).
Proof.
  intros Hok HP.
  assert (∀ n k g1, frame F g g1 → WP (retry_loop cfg n k (call e)) g1 (gives P g)) as H; [|by apply H].
  induction n as [|n IH]; intros k g1 Hf; cbn [retry_loop]; apply wp_bind;
    (apply wp_call; [apply (fr_req _ F); by eapply fr_stable|]; intros r Ha;
     assert (frame F g (advance_ghost M g1 e r)) as Hf2
       by (etransitivity; [exact Hf|]; apply fr_adv; [by eapply fr_stable|done])).
  - destruct r as [a|er]; (split; [done|]); [by apply HP|done].
  - destruct r as [a|er]; [split; [done|by apply HP]|].
    destruct (is_transient er); [|by split].
    apply wp_bind, fr_call; [eapply (fr_sleep _ F), (fr_stable _ F); [exact Hf2|exact Hok]|]. intros [] _ Hs. apply IH. by etransitivity.
Qed.

Lemma kf_retry {A} (e : eff I (result A EngineError)) g : fr_ok F g e → WP (retrying cfg (call e)) g (keeps_frame g).
Proof. intros Hok. eapply (gives_keeps (λ _ _, True)), gives_retry; auto. Qed.
End frames.

(** The rules applied in turn, for a procedure of framed calls: [ok] closes [fr_ok]. *)
Ltac kf_step ok :=
  match goal with
  | |- wp _ _ (retrying _ (call _)) _ (keeps_frame _ _) => apply kf_retry; ok
  | |- wp _ _ (call _) _ (keeps_frame _ _) => apply kf_call; ok
  | |- wp _ _ (Ret _) _ (keeps_frame _ _) => apply kf_ret
  | |- wp _ _ (map_errp _ _) _ (keeps_frame _ _) => apply kf_map_errp
  | |- wp _ _ (bind_ok _ _) _ (keeps_frame _ _) => apply kf_bind_ok; [|intros ? ? ?]
  | |- wp _ _ (bind _ _) _ (keeps_frame _ _) => apply kf_bind; [|intros ? ? ?]
  | |- wp _ _ (let _ := _ in _) _ _ => cbv zeta
  | |- wp _ _ (match ?x with _ => _ end) _ _ => destruct x
  end.
