(* ===== verification/DumpRun.v ===== *)
(** * The pre-update dump

    What [dump_now] did when it keeps a dump, read off the calls it made and their answers, and
    that the record it leaves is one a restore accepts. *)
From S2P Require Import Prelude Platform Wire Journal Settle Effects Replace DumpDir Database Frames.

(** The calls made so far with their answers, and nothing else. *)
Definition recorder (I : Type) : Monitor I (list (event I)) :=
  mkMonitor I (list (event I)) (λ X g e, True) (λ X g e x, True) (λ X g e x, mkEvent e x :: g).

Definition saw {I X} (g : list (event I)) (e : eff I X) (x : X) : Prop := mkEvent e x ∈ g.

Definition grew {I} (g g' : list (event I)) : Prop := ∀ ev, ev ∈ g → ev ∈ g'.

#[global] Instance grew_preorder {I} : PreOrder (@grew I).
Proof. split; [by intros g ev|]. intros a b c Hab Hbc ev H. by apply Hbc, Hab. Qed.

Definition growing (I : Type) : Frame (recorder I) :=
  mkFrame I _ (recorder I) grew _ (λ X g e, True) (λ X g e H, H)
    (λ X g e x _ _ ev H, proj2 (elem_of_cons g ev (mkEvent e x)) (or_intror H))
    (λ X g g' e _ H, H) (λ X g e d H, H).

(** A helper of an operation on a file ran to its end, with its exit code and its output. *)
Definition ran {I} (g : list (event I)) (op : DbOp) (file : option string) (x : Z * string) : Prop :=
  ∃ spec id t, saw g (CreateContainer spec) (Ok id) ∧ saw g (StartContainer id) (Ok tt) ∧
    cs_labels spec !! LABEL_HELPER = Some (op_label op) ∧ cs_entrypoint spec = Some [HELPER_SHELL; "-c"; script op] ∧
    (reads_file op = true → cs_env spec !! DUMP_FILE_ENV = (λ f, DUMPS_MOUNT +:+ "/" +:+ f) <$> file) ∧
    saw g (WaitContainer id t) (Ok x.1) ∧
    (saw g (LogsTail id 200) (Ok x.2) ∨ x.2 = EmptyString).

Section proofs.
Context {I : Type} `{!ReplaceDeps I} {DD : DumpDeps} (cfg : Config).
Implicit Types (g : list (event I)) (j : Journal).

Local Abbreviation WP q g Q := (wp (recorder I) True q g Q).
Local Abbreviation G := (growing I).

(** Any procedure's calls are only added. *)
Lemma grows {A} (q : prog I A) g : WP q g (keeps_frame G g).
Proof.
  assert (∀ g g', (∀ ev, ev ∈ g → ev ∈ g') → wp (recorder I) True q g' (keeps_frame G g)) as H.
  { clear g. induction q as [a| |X e k IH]; intros g g' Hg; [exact Hg|done|].
    split; [done|]. intros x _. apply IH. intros ev Hev. right. by apply Hg. }
  by apply H.
Qed.

Lemma gives_any {A E} (q : prog I (result A E)) g : WP q g (gives G (λ _ _, True) g).
Proof. eapply wp_mono; [apply grows|]. intros [] g' H; by split. Qed.

Lemma saw_grows g g' {X} (e : eff I X) x : frame G g g' → saw g e x → saw g' e x.
Proof. intros H. apply H. Qed.

Lemma ran_grows g g' op file x : frame G g g' → ran g op file x → ran g' op file x.
Proof.
  intros H (spec & id & t & H1 & H2 & ? & ? & ? & H3 & H4). exists spec, id, t.
  split_and!; try done; try (by apply H). destruct H4 as [H4|]; [left; by apply H|by right].
Qed.

Lemma gives_saw {A E} (e : eff I (result A E)) g : WP (call e) g (gives G (λ a g', saw g' e (Ok a)) g).
Proof. apply (gives_call G); [done|]. intros a _. by left. Qed.

(** ** The helper *)

Lemma run_db_ran machine op file g :
  WP (run_db cfg machine op file) g (gives G (λ x g', ran g' op file x) g).
Proof.
  unfold run_db.
  apply (gives_bind_ok G True (λ spec _, cs_labels spec !! LABEL_HELPER = Some (op_label op) ∧
    cs_entrypoint spec = Some [HELPER_SHELL; "-c"; script op] ∧
    (reads_file op = true → cs_env spec !! DUMP_FILE_ENV = (λ f, DUMPS_MOUNT +:+ "/" +:+ f) <$> file))).
  { unfold helper_spec. apply gives_skip; [apply grows|]. intros d g1 _.
    apply gives_skip; [apply grows|]. intros image g2 _. cbv zeta.
    destruct (reads_file op) eqn:Hr.
    - destruct file as [f|]; [|by apply gives_ret].
      change (bind_ok (Ret (ok_or (Some f) ?e)) ?k) with (k f). cbv beta.
      apply gives_skip; [apply grows|]. intros h g3 _. apply gives_ret. cbn -[script]. split_and!; [done|done|].
      intros _. apply lookup_insert_eq.
    - apply gives_ret. cbn -[script]. split_and!; done. }
  intros spec g1 (Hl & Hc & He) Hf1. apply gives_skip; [apply grows|]. intros im g2 _.
  apply gives_skip; [apply grows|]. intros im2 g3 _. unfold run_helper. cbv zeta.
  apply gives_skip; [apply grows|]. intros stale g4 _. apply gives_skip; [apply grows|]. intros _u g5 _.
  apply (gives_bind_ok G True (λ id g', saw g' (CreateContainer spec) (Ok id))).
  { apply gives_map_errp, gives_saw. }
  intros id g6 Hid Hf6.
  apply wp_bind, wp_mono with (Q := gives G (λ x g', ran g' op file x) g6).
  { unfold helper_ran. apply (gives_bind_ok G True (λ _ g', saw g' (StartContainer id) (Ok tt))).
    { apply gives_map_errp. eapply gives_mono; [apply gives_saw|]. by intros [] g' _. }
    intros [] g7 Hs7 Hf7. apply wp_bind, (fr_call G); [done|]. intros w _ Hf8.
    destruct w as [code|e]; [|destruct e as [[]| |]; by split].
    apply wp_bind, (fr_call G); [done|]. intros logs _ Hf9. cbn [advance_ghost recorder] in *.
    set (g8 := mkEvent (WaitContainer id (database_timeout cfg)) (Ok code) :: g7) in *.
    assert (∀ x, x.1 = code → (logs = Ok x.2 ∨ x.2 = EmptyString) →
      ran (mkEvent (LogsTail id 200) logs :: g8) op file x) as Hran.
    { intros x <- Hx. exists spec, id, (database_timeout cfg). split_and!; try done.
      - apply Hf9, Hf8, Hf7, Hid.
      - apply Hf9, Hf8, Hs7.
      - right. by left.
      - destruct Hx as [->|]; [left; by left|by right]. }
    assert (frame G g7 (mkEvent (LogsTail id 200) logs :: g8)) as Hf79 by (by etransitivity).
    destruct logs as [out|[| |]]; (split; [exact Hf79|]); try done; apply Hran; auto. }
  intros r g7 [Hf7 H7]. destruct r as [x|[|why]]; [|by split|];
    (apply wp_bind, (fr_call G); [done|]; intros rr _ Hf8; split; [by etransitivity|]);
    destruct rr as [|[| |]]; try done; by eapply ran_grows.
Qed.

(** ** The dump *)

Definition pending_of (j : Journal) : string := "pending-" +:+ stake 8 (request_id (j_request j)).
Definition partial_of (j : Journal) : string := pending_of j +:+ ".dump.partial".

(** There was room for the database as measured. *)
Definition measured g : Prop :=
  ∃ out size free, ran g DbSize None (0%Z, out) ∧
    find_map (λ l, parse_unsigned U64_MAX (trim l)) (reverse (lines out)) = Some size ∧
    saw g FreeSpace (Ok free) ∧ (space_needed size <= free)%Z.

(** The file was written whole, is an archive, and reads back as a clean database at [schema],
    the control plane's own. *)
Definition written (found : option Image) (partial : string) (x : Z * string * Z) g : Prop :=
  let '(bytes, sha, schema) := x in
  (∃ out, ran g DbDump (Some partial) (0%Z, out)) ∧
  saw g (ExamineDump partial) (Ok (bytes, sha, true)) ∧
  (∃ out, ran g DbInspect (Some partial) (0%Z, out) ∧ parse_schema out = Some (mkSchema schema false)) ∧
  (∀ v, found ≫= image_schema = Some v → v = schema).

Lemma measure_gives machine g : WP (measure cfg machine) g (gives G (λ _ g', measured g') g).
Proof.
  unfold measure. apply (gives_bind_ok G True (λ x g', ran g' DbSize None x)).
  { apply gives_map_errp, run_db_ran. }
  intros [code out] g1 H1 Hf1.
  destruct (Z.eqb_spec code 0) as [->|]; [|by apply gives_ret].
  destruct (find_map _ (reverse (lines out))) as [size|] eqn:Hs; cbn [ok_or]; [|by apply gives_ret].
  change (bind_ok (Ret (Ok size)) ?k) with (k size). cbv beta zeta.
  apply (gives_bind_ok G True (λ free g', saw g' FreeSpace (Ok free))).
  { apply gives_map_errp, gives_saw. }
  intros free g2 H2 Hf2. destruct (Z.ltb_spec free (space_needed size)); apply gives_ret; [done|].
  exists out, size, free. split_and!; [by eapply ran_grows|done|done|lia].
Qed.

Lemma cleanup_gives {A} (P : A → _ → Prop) pending why g : WP (cleanup pending why) g (gives G P g).
Proof. unfold cleanup. apply (fr_bind G); [apply grows|]. intros _u g1 Hf. by split. Qed.

Lemma write_dump_gives machine found to pending g :
  WP (write_dump cfg machine found to pending) g
    (gives G (λ x g', written found (pending +:+ ".dump.partial") x g') g).
Proof.
  unfold write_dump. cbv zeta. set (partial := pending +:+ ".dump.partial").
  apply (gives_bind_ok G True (λ x g', ran g' DbDump (Some partial) x)); [apply gives_map_errp, run_db_ran|].
  intros [code out] g1 H1 Hf1. destruct (Z.eqb_spec code 0) as [->|]; cbn [negb]; [|apply cleanup_gives].
  apply wp_bind, (fr_call G); [done|]. intros ex _ Hf2. cbn [advance_ghost recorder] in *.
  set (g2 := mkEvent (ExamineDump partial) ex :: g1) in *.
  assert (∀ q : prog I (result _ Halt), WP q g2 (gives G (λ x g', written found partial x g') g2) →
    WP q g2 (gives G (λ x g', written found partial x g') g1)) as Hfrom by (intros; by eapply gives_from).
  apply Hfrom. destruct ex as [[[bytes sha] magic]|e]; [|apply cleanup_gives].
  destruct magic; cbn [negb]; [|apply cleanup_gives].
  apply (gives_bind_ok G True (λ x g', ran g' DbInspect (Some partial) x)); [apply gives_map_errp, run_db_ran|].
  intros [code out'] g3 H3 Hf3. destruct (parse_schema out') as [[v dirty]|] eqn:Hp; [|apply cleanup_gives].
  destruct (Z.eqb_spec code 0) as [->|]; cbn [negb]; [|apply cleanup_gives].
  destruct dirty; cbn [sch_dirty sch_version]; [apply cleanup_gives|].
  assert ((∀ w, found ≫= image_schema = Some w → w = v) → written found partial (bytes, sha, v) g3) as Hw.
  { intros Hfound. split_and!; [exists out; do 2 (eapply ran_grows; [eassumption|]); exact H1| |by exists out'|done].
    apply Hf3. by left. }
  destruct (found ≫= image_schema) as [w|] eqn:Hfo.
  - destruct (Z.eqb_spec w v) as [->|]; [|apply cleanup_gives]. apply gives_ret, Hw. by intros ? [= ->].
  - apply gives_ret, Hw. done.
Qed.

(** What the record says of the dump it is kept for. *)
Definition kept (j : Journal) (old : ImageRef) (rev : Z) (to : string) (r : DumpRecord) g : Prop :=
  saw g (DumpTaken (dr_name r)) false ∧ saw g (CompleteDump (pending_of j) (dr_name r)) (Ok tt) ∧
  saw g (StoreDump r) (Ok tt) ∧ saw g NowStamp (dr_created_at r) ∧
  dr_request_id r = Some (request_id (j_request j)) ∧ dr_control_plane r = Some old ∧
  dr_recipe_revision r = Some rev ∧ dr_returns_to r = Some to ∧ dr_restored_by r = None ∧
  (let base := stamp (dr_created_at r) +:+ "-schema-" +:+ pretty (dr_schema_version r) in
   dr_name r = base ∨ dr_name r = base +:+ "-" +:+ to_ascii_lowercase (stake 8 (request_id (j_request j)))).

Lemma written_grows found partial x g g' : frame G g g' → written found partial x g → written found partial x g'.
Proof.
  intros Hf. destruct x as [[b s] v]. intros ((o & H1) & H2 & (o' & H3 & H4) & H5). split_and!; [|by apply Hf| |done].
  - exists o. by eapply ran_grows.
  - exists o'. split; [by eapply ran_grows|done].
Qed.

Lemma free_name_gives now schema rid g :
  WP (free_name (I:=I) now schema rid) g (gives G (λ name g', saw g' (DumpTaken name) false ∧
    let base := stamp now +:+ "-schema-" +:+ pretty schema in
    (name = base ∨ name = base +:+ "-" +:+ to_ascii_lowercase (stake 8 rid))) g).
Proof.
  unfold free_name. cbv zeta. apply wp_bind, (fr_call G); [done|]. intros t _ Hf1. destruct t.
  - apply wp_bind, (fr_call G); [done|]. intros t _ Hf2. split; [by etransitivity|]. destruct t; [done|].
    split; [by left|by right].
  - split; [done|]. split; [by left|by left].
Qed.

Lemma dump_now_gives machine j old found rev to protect g :
  WP (dump_now cfg machine j old found rev to protect) g
    (gives G (λ r g', measured g' ∧ written found (partial_of j) (dr_size_bytes r, dr_sha256 r, dr_schema_version r) g' ∧
       kept j old rev to r g') g).
Proof.
  unfold dump_now. cbv zeta. fold (pending_of j).
  apply gives_skip; [apply grows|]. intros _u g1 Hf1.
  apply (gives_bind_ok G True (λ _ g', measured g')); [apply measure_gives|]. intros _u2 g2 Hm Hf2.
  apply (gives_bind_ok G True (λ x g', written found (partial_of j) x g')); [apply write_dump_gives|].
  intros [[bytes sha] schema] g3 Hw Hf3.
  apply wp_bind, (fr_call G); [done|]. intros now _ Hf4.
  set (g4 := advance_ghost (recorder I) g3 NowStamp now) in *.
  assert (saw g4 NowStamp now) as Hnow by (by left). clearbody g4.
  eapply (gives_from G True); [exact Hf4|]. apply wp_bind. eapply wp_mono; [apply free_name_gives|].
  intros [name|why] g5 [Hf5 Hn]; (eapply (gives_from G True); [exact Hf5|]); [|apply cleanup_gives].
  apply wp_bind, (fr_call G); [done|]. intros rn _ Hf6.
  set (g6 := advance_ghost (recorder I) g5 (CompleteDump (pending_of j) name) rn) in *.
  assert (saw g6 (CompleteDump (pending_of j) name) rn) as Hrn by (by left). clearbody g6.
  eapply (gives_from G True); [exact Hf6|]. destruct rn as [[]|]; [|apply cleanup_gives].
  set (r := mkDumpRecord name schema now bytes sha _ _ _ _ None None).
  apply wp_bind, (fr_call G); [done|]. intros st _ Hf7.
  set (g7 := advance_ghost (recorder I) g6 (StoreDump r) st) in *.
  assert (saw g7 (StoreDump r) st) as Hst by (by left). clearbody g7.
  destruct st as [[]|].
  2: { apply (fr_bind G); [apply grows|]. intros _u8 g8 Hf8. split; [by etransitivity|done]. }
  apply (fr_bind G); [apply grows|]. intros _u8 g8 Hf8.
  assert (frame G g6 g8) as H68 by (by etransitivity). assert (frame G g5 g8) as H58 by (by etransitivity).
  assert (frame G g4 g8) as H48 by (by etransitivity). assert (frame G g3 g8) as H38 by (by etransitivity).
  assert (frame G g2 g8) as H28 by (by etransitivity).
  split; [done|]. destruct Hn as [Hn1 Hn2]. split_and!.
  - destruct Hm as (o & sz & fr & M1 & M2 & M3 & M4). exists o, sz, fr.
    split_and!; [by eapply ran_grows|done|by apply H28|done].
  - eapply written_grows; [exact H38|exact Hw].
  - split_and!; try done; [by apply H58|by apply H68|by apply Hf8|by apply H48].
Qed.
End proofs.

Lemma all_lawful {I} (g : list (event I)) l : lawful (recorder I) g l.
Proof. revert g. induction l as [|ev l IH]; intros g; [done|]. by split. Qed.

(** (C14) When [dump_now] keeps a dump it did what a way back takes, by its calls and their answers:
    the free space covered the database as measured; the dump's helper ended with exit code 0; the
    partial file is an archive of the size and checksum recorded; it read back as a database at the
    schema recorded, clean and the schema the running control plane declares; it was renamed to a
    name no file had; and the record says what to start again. *)
Theorem dump_now_verified {I} `{!ReplaceDeps I} {DD : DumpDeps} cfg machine j old found rev to protect l r :
  reaches (dump_now (I:=I) cfg machine j old found rev to protect) l (Ret (Ok r)) →
  let g := history (recorder I) [] l in
  measured g ∧ written found (partial_of j) (dr_size_bytes r, dr_sha256 r, dr_schema_version r) g ∧
  kept j old rev to r g.
Proof.
  intros Hr. pose proof (dump_now_gives cfg machine j old found rev to protect []) as Hw.
  apply (wp_reaches _ _ _ _ _ _ _ Hw Hr (all_lawful _ _)).
Qed.
