(* ===== verification/Restore.v ===== *)
(** * The operator's restore

    [crates/quasar-recovery/src/restore.rs]: a pre-update dump loaded into a stopped database and
    the control plane it was taken under started; a control plane started against an external
    database the operator restored; or an operator's dump imported into a fresh install. Log
    lines and crash injection are left out; the text an outcome carries is kept. *)
From S2P Require Import Prelude Platform Wire Journal Settle Trust Effects Replace Submit DumpDir Database.

(** Field updates of a restore's plan. *)
Definition rs_set_phase (p : RestorePhase) (r : RestoreJ) : RestoreJ :=
  mkRestoreJ p (r_dump r) (r_imported r) (r_fresh_install r) (r_migrates_to r) (r_control_plane r)
    (r_recipe_revision r) (r_schema_version r) (r_returns_to r) (r_created_at r) (r_new_container r).
Definition rs_checked (revision schema : Z) (migrates_to : option Z) (r : RestoreJ) : RestoreJ :=
  mkRestoreJ (r_phase r) (r_dump r) (r_imported r) (r_fresh_install r) migrates_to (r_control_plane r)
    (Some revision) (Some schema) (r_returns_to r) (r_created_at r) (r_new_container r).
Definition rs_set_new (c : option string) (r : RestoreJ) : RestoreJ :=
  mkRestoreJ (r_phase r) (r_dump r) (r_imported r) (r_fresh_install r) (r_migrates_to r) (r_control_plane r)
    (r_recipe_revision r) (r_schema_version r) (r_returns_to r) (r_created_at r) c.

Definition set_restore (r : RestoreJ) (j : Journal) : Journal :=
  mkJournal (j_format j) (j_seq j) (j_caller j) (j_request j) (j_steps j) (j_result j) (Some r).
Definition set_format (f : Z) (j : Journal) : Journal :=
  mkJournal f (j_seq j) (j_caller j) (j_request j) (j_steps j) (j_result j) (j_restore j).

(** The plan [plan_restore] starts from. *)
Definition blank_plan : RestoreJ :=
  mkRestoreJ RpAdmitted None false false None dummy_image None None None None None.

(** [restore_mut]: the journal is a restore's. *)
Definition plan_of (j : Journal) : RestoreJ := default blank_plan (j_restore j).
Definition update_plan (f : RestoreJ → RestoreJ) (j : Journal) : Journal := set_restore (f (plan_of j)) j.

(** ** Texts *)

Definition nothing_changed (why : string) : Halt :=
  fail_with Invalid (why +:+ ". Nothing was changed: the database and the control plane are as they were").

Definition LOAD_UNFINISHED : string := "The database may now be empty; no control plane was started, and none starts until a restore finishes. Do not start the control plane by hand. Run the same command again: a restore can always be repeated".

Definition load_halt (name : string) (e : DbError) : Halt :=
  match e with
  | DbCrashed => Died
  | DbFailed why => fail_with RecreateFailed ("loading dump " +:+ name +:+ " did not finish: " +:+ why +:+ nl +:+ LOAD_UNFINISHED)
  end.

Definition held (why : string) : Halt :=
  fail_with RecreateFailed (why +:+ ". The control plane is stopped and none starts until a restore finishes; run the same command again").

Definition check_halt (what : string) (e : DbError) : Halt :=
  match e with DbCrashed => Died | DbFailed why => nothing_changed (what +:+ ": " +:+ why) end.

Definition AWAIT_RESTORE : string := "QUASAR_AWAIT_RESTORE".

Definition import_hint (at_ : RestorePhase) (cli uninstall : string) : string :=
  let start_over := uninstall +:+ ", then install again with the seed and " +:+ AWAIT_RESTORE +:+ "=1" in
  match at_ with
  | RpStarting | RpVerifying =>
      "The install's control plane was created on the loaded data, and its first boot migrates it forward; `"
      +:+ cli +:+ " logs " +:+ NAME_CONTROL_PLANE
      +:+ "` says how far it got. To load the dump again instead, start over: " +:+ start_over
  | _ => "Your file was not kept: run the same command again with it. To start over instead: " +:+ start_over
  end.

(** The names a control plane of this machine may have. *)
Definition control_planes : list string := [NAME_CONTROL_PLANE; kept_name NAME_CONTROL_PLANE].

Section restore.
Context {I : Type} `{!ReplaceDeps I, !DumpDeps} (cfg : Config).

Implicit Types (machine : Machine I) (j : Journal).

(** ** Admission *)

(** [Actor::control_plane_never_created] *)
Definition control_plane_never_created : prog I (result bool string) :=
  do? r <- map_errp (λ e, "services/control-plane.json cannot be read (" +:+ e +:+ ")") (call (LoadService ControlPlane));
  do? c <- map_errp (λ e, "the container engine did not answer (" +:+ show_engine_error e +:+ ")")
             (call (InspectContainer NAME_CONTROL_PLANE));
  Ret (Ok (bool_decide (r = None) && match c with None => true | Some _ => false end)).

(** [Actor::plan_import] *)
Definition plan_import machine (plan : RestoreJ) (to : option string) : prog I (result RestoreJ string) :=
  do? never <- control_plane_never_created;
  if negb never
  then do over <- call (StartOver (Some machine));
       Ret (Err ("a pre-RH-06 dump is loaded only into a fresh install, before its control plane's first boot, and this machine's control plane has already been created. To load it, reinstall: "
         +:+ over +:+ ", then install again with the seed and " +:+ AWAIT_RESTORE +:+ "=1, then run the restore"))
  else match to with
  | Some _ => Ret (Err "a pre-RH-06 dump starts this install's own control plane: run it without --to")
  | None =>
      Ret (match m_install_images machine !! role_str ControlPlane with
           | None => Err "machine state names no control-plane image to start"
           | Some image => Ok (mkRestoreJ (r_phase plan) (r_dump plan) true true (r_migrates_to plan) image
               (r_recipe_revision plan) (r_schema_version plan) (r_returns_to plan) (r_created_at plan) (r_new_container plan))
           end)
  end.

(** The plan of a dump this actor took, from its record. *)
Definition plan_record (name : string) (force_again : bool) (to : option string) (r : DumpRecord) :
  result RestoreJ string :=
  match dr_restored_by r, force_again with
  | Some by_, false =>
      Err ("dump " +:+ name +:+ " was already restored"
        +:+ match dr_restored_at r with Some t => " at " +:+ t | None => EmptyString end
        +:+ " (restore " +:+ by_ +:+ "). Restoring it again discards everything written since then; add --force-again to do it anyway")
  | _, _ =>
      let? _ := match to, dr_returns_to r with
                | Some to, Some back =>
                    if str_eqb to back then Ok tt
                    else Err ("dump " +:+ name +:+ " returns to " +:+ back +:+ ", not " +:+ to
                           +:+ ": check the command, or `restore --list`")
                | _, _ => Ok tt
                end in
      let? image := ok_or (dr_control_plane r) ("dump " +:+ name +:+ " does not record its control plane") in
      Ok (mkRestoreJ RpAdmitted (Some name) false false None image (dr_recipe_revision r)
        (Some (dr_schema_version r)) (dr_returns_to r) (Some (dr_created_at r)) None)
  end.

(** [Actor::plan_restore] *)
Definition plan_restore machine (req : Request) : prog I (result RestoreJ string) :=
  let to := match rel_version (rq_release req) with
            | Some v => if str_eqb v EmptyString then None else Some v
            | None => None
            end in
  match rq_dump req, owned_database (m_inputs machine) with
  | Some _, false => Ret (Err "Quasar holds no dump of an operator's own database. Restore your backup with your own tools, then run `restore --to <version>`")
  | None, true => Ret (Err "name the dump to restore: `restore --dump <name> --to <version>` (`restore --list` lists them)")
  | Some name, true =>
      if negb (valid_name name) then Ret (Err (debug_str name +:+ " is not the name of a dump"))
      else
      do there <- call (DumpExists name);
      if negb there then Ret (Err ("there is no dump named " +:+ name +:+ " on this machine (`restore --list` lists them)"))
      else if is_import name
      then plan_import machine (mkRestoreJ RpAdmitted (Some name) false false None dummy_image None None None None None) to
      else
      do? r <- map_errp (λ e, "the record of dump " +:+ name +:+ " cannot be read (" +:+ e +:+ ")") (call (LoadDump name));
      do? r <- Ret (ok_or r ("dump " +:+ name +:+ " has no record, so it is not known to be complete"));
      Ret (plan_record name (force_again req) to r)
  | None, false =>
      do? to <- Ret (ok_or to "name the version to return to: `restore --to <version>`, as the failed update printed it");
      do? p <- map_errp (λ e, "restore-point.json cannot be read (" +:+ e +:+ ")") (call LoadPoint);
      do? p <- Ret (ok_or p "there is no restore point on this machine: no migrating update has run here, or the restore it printed has already been run");
      Ret (if negb (str_eqb (rp_returns_to p) to)
           then Err ("the last migrating update returns to " +:+ rp_returns_to p +:+ ", not " +:+ to)
           else Ok (mkRestoreJ RpAdmitted None false false None (rp_control_plane p) (Some (rp_recipe_revision p))
             None (Some (rp_returns_to p)) None None))
  end.

Definition restore_journal (req : Request) (seq : Z) (now : string) (plan : RestoreJ) : Journal :=
  mkJournal RESTORE_FORMAT seq TagOperator req []
    (mkAttemptResult (request_id req) StPending None [] [] EmptyString now now None false (rq_release req) (r_dump plan))
    (Some plan).

(** The refusals before the machine is looked at. *)
Definition grade_restore (req : Request) : prog I (result unit Rejection) :=
  do used <- call (WasUsed (request_id req));
  if match used with Ok u => u | Err _ => true end
  then Ret (Err (refuse req Invalid "that request id was already used on this machine"))
  else
  do r <- call Resuming;
  if (r : bool) then Ret (Err (refuse req Busy "the recovery actor is still settling this machine after a start"))
  else if negb (bool_decide (rq_kind req = KRestore)) || negb (bool_decide (components req = []))
  then Ret (Err (refuse req Invalid "the operator socket takes a restore only, naming no components"))
  else
  do sc <- call ScanJournals;
  Ret (match scan_open_id sc with
       | Some id => Err (refuse req Busy ("attempt " +:+ id +:+ " is in flight on this machine; a restore waits for it to end"))
       | None => Ok tt
       end).

(** The machine a restore is for. *)
Definition restorable_machine (req : Request) (m : result (option (Machine I)) string) : result (Machine I) Rejection :=
  match m with
  | Ok (Some m) =>
      if negb (bool_decide (m_role m = Gpu)) && bool_decide (is_Some (database (m_inputs m))) then Ok m
      else Err (refuse req Invalid "this is a GPU host: it has no database and no control plane to restore")
  | Ok None => Err (refuse req Invalid "this machine is not installed yet: start the seed first")
  | Err e => Err (refuse req Invalid ("machine state is unreadable: " +:+ e))
  end.

(** [Actor::submit_restore] *)
Definition submit_restore (req : Request) : prog I (result Accepted Rejection) :=
  if negb (is_uuid (request_id req)) then Ret (Err (refuse req Invalid "request_id must be a uuid"))
  else
  do known <- call (LoadJournal (request_id req));
  match known with
  | Ok (Some j) =>
      Ret (if bool_decide (j_caller j = TagOperator) then Ok (mkAccepted (request_id req) [])
           else Err (refuse req Invalid "that request id was used by another caller"))
  | Err e => Ret (Err (refuse req Busy ("the journal: " +:+ e)))
  | Ok None =>
      do? _ <- grade_restore req;
      do m <- call LoadMachine;
      do? machine <- Ret (restorable_machine req m);
      do? plan <- map_errp (refuse req Invalid) (plan_restore machine req);
      do now <- call NowStamp;
      do sc <- call ScanJournals;
      do r <- call (StoreJournal (restore_journal req (next_seq sc) now plan));
      match r with
      | Err e => Ret (Err (refuse req Busy ("the journal could not be written (" +:+ e +:+ "); nothing was admitted")))
      | Ok _ =>
          do _ <- call (MarkUsed (request_id req));
          do _ <- call (SpawnDriver (request_id req));
          Ret (Ok (mkAccepted (request_id req) []))
      end
  end.

(** ** [checking] *)

(** [Actor::restore_machine] *)
Definition restore_machine : prog I (result (Machine I) string) :=
  do m <- call LoadMachine;
  Ret (match m with Ok (Some m) => Ok m | _ => Err "machine state is unreadable" end).

(** An engine's answer at [checking], where nothing was touched. *)
Definition checking_engine (e : EngineError) : Halt :=
  match e with Crashed => Died | e => nothing_changed ("the container engine: " +:+ show_engine_error e) end.

(** [Actor::no_control_plane_running] *)
Fixpoint no_control_plane_running (names : list string) : prog I (result unit Halt) :=
  match names with
  | [] => Ret (Ok tt)
  | name :: names' =>
      do? c <- map_errp checking_engine (call (InspectContainer name));
      if match c with Some c => c_running c | None => false end
      then Ret (Err (nothing_changed ("control plane " +:+ name +:+ " is running, and on its next start it would migrate your database again. Stop it (docker stop "
             +:+ name +:+ "), restore the backup you took before the update, then run the command again")))
      else no_control_plane_running names'
  end.

(** [Actor::check_dump] *)
Definition check_dump machine (name : string) (plan : RestoreJ) : prog I (result Schema Halt) :=
  do? record <- (if r_imported plan then Ret (Ok None)
                 else
                 do? r <- map_errp (λ e, nothing_changed ("the record of dump " +:+ name +:+ " cannot be read (" +:+ e +:+ ")"))
                            (call (LoadDump name));
                 do? r <- Ret (ok_or r (nothing_changed ("dump " +:+ name +:+ " has no record, so it is not known to be complete")));
                 Ret (Ok (Some r)));
  do? ex <- map_errp (λ e, nothing_changed ("dump " +:+ name +:+ " cannot be read: " +:+ e)) (call (ExamineDump (name +:+ ".dump")));
  let '(_, sha, magic) := (ex : Z * string * bool) in
  if negb magic
  then Ret (Err (nothing_changed (name +:+ " is not a pg_dump custom-format archive (make one with `pg_dump --format=custom`)")))
  else if match record with Some r => negb (str_eqb (dr_sha256 r) sha) | None => false end
  then Ret (Err (nothing_changed ("dump " +:+ name +:+ " does not match the checksum recorded when it was taken: it is corrupt or was changed")))
  else
  do? x <- map_errp (check_halt "read the dump") (run_db cfg machine DbInspect (Some (name +:+ ".dump")));
  let '(code, out) := (x : Z * string) in
  do? schema <- Ret (if negb (code =? 0)%Z
                     then Err (nothing_changed ("pg_restore cannot read dump " +:+ name +:+ ", so it is corrupt or incomplete: "
                            +:+ tail_output (trim out) LOG_TAIL_LIMIT))
                     else ok_or (parse_schema out)
                            (nothing_changed ("dump " +:+ name +:+ " holds no schema_migrations table: it is not a dump of a Quasar database")));
  Ret (match r_schema_version plan with
       | Some expected =>
           if (expected =? sch_version schema)%Z then Ok schema
           else Err (nothing_changed ("dump " +:+ name +:+ " is recorded at schema " +:+ pretty expected +:+ " but holds schema "
                  +:+ pretty (sch_version schema)))
       | None => Ok schema
       end).

(** What is being restored: the dump's schema, or the live database's. *)
Definition check_source machine (plan : RestoreJ) : prog I (result Schema Halt) :=
  match r_dump plan with
  | Some name => check_dump machine name plan
  | None =>
      do? _ <- no_control_plane_running control_planes;
      do? x <- map_errp (check_halt "read the database's schema") (run_db cfg machine DbSchema None);
      let '(code, out) := (x : Z * string) in
      Ret (match parse_schema out with
           | Some s => if (code =? 0)%Z then Ok s
                       else Err (nothing_changed ("the database's schema could not be read: " +:+ tail_output (trim out) LOG_TAIL_LIMIT))
           | None => Err (nothing_changed ("the database's schema could not be read: " +:+ tail_output (trim out) LOG_TAIL_LIMIT))
           end)
  end.

(** The control plane to start: its recipe revision and the schema it declares. *)
Definition check_target (plan : RestoreJ) (image : Image) : result (Z * Z) Halt :=
  let ref := reference (r_control_plane plan) in
  let? revision := match r_recipe_revision plan with
                   | Some r => Ok r
                   | None => ok_or (control_plane_revision image)
                       (nothing_changed (ref +:+ " declares no control-plane recipe revision this actor renders"))
                   end in
  if negb (book_supports ControlPlane revision)
  then Err (fail_with RecipeUnsupported ("the control plane to start needs recipe revision " +:+ pretty revision
         +:+ ", which this recovery actor does not render ("
         +:+ match book_window ControlPlane with
             | Some (lo, hi) => "Some(" +:+ pretty lo +:+ "..=" +:+ pretty hi +:+ ")"
             | None => "None"
             end +:+ "). Nothing was changed"))
  else
  let? target := ok_or (image_schema image)
    (nothing_changed (ref +:+ " declares no " +:+ LABEL_IMAGE_SCHEMA +:+ " label, so it cannot be shown to match the database")) in
  Ok (revision, target).

(** They belong together. *)
Definition check_match (plan : RestoreJ) (schema : Schema) (target : Z) : result unit Halt :=
  if sch_dirty schema
  then Err (nothing_changed ("the " +:+ (if bool_decide (is_Some (r_dump plan)) then "dump" else "database") +:+ " is at schema "
         +:+ pretty (sch_version schema) +:+ " and marked dirty: a migration did not finish in it"))
  else if (if r_imported plan then sch_version schema <=? target else sch_version schema =? target)%Z
  then Ok tt
  else
  let to := default "the control plane to start" (r_returns_to plan) in
  Err (nothing_changed
    (if r_imported plan
     then "the dump is at schema " +:+ pretty (sch_version schema) +:+ ", newer than this install's control plane (schema "
          +:+ pretty target +:+ "): it was taken from a newer release. Install that release or a newer one with the seed, then restore"
     else if bool_decide (is_Some (r_dump plan))
     then "the dump is at schema " +:+ pretty (sch_version schema) +:+ " but " +:+ to +:+ " is a control plane of schema "
          +:+ pretty target +:+ ": they do not belong together"
     else "your database is at schema " +:+ pretty (sch_version schema) +:+ " and " +:+ to +:+ " is a control plane of schema "
          +:+ pretty target +:+ ": restore the backup you took before the update first")).

(** Nothing of the names this restore will act on is another's. *)
Fixpoint check_owner machine (names : list string) : prog I (result unit Halt) :=
  match names with
  | [] => Ret (Ok tt)
  | name :: names' =>
      do? c <- map_errp checking_engine (call (InspectContainer name));
      match c with
      | Some c =>
          if negb (is_ours machine c ControlPlane)
          then Ret (Err (fail_with OwnerConflict ("container " +:+ c_name c +:+ " (" +:+ c_image c
                 +:+ ") is not this installation's; it is never acted on. Remove it, then run the command again. Nothing was changed")))
          else check_owner machine names'
      | None => check_owner machine names'
      end
  end.

(** [Actor::check_restore] *)
Definition check_restore j : prog I (result Journal Halt) :=
  do? machine <- map_errp nothing_changed restore_machine;
  let plan := plan_of j in
  do? image <- map_errp (check_halt "the control plane to start is not available") (image_labels (r_control_plane plan));
  do? rt <- Ret (check_target plan image);
  let '(revision, target) := (rt : Z * Z) in
  do? schema <- check_source machine plan;
  do? _ <- Ret (check_match plan schema target);
  do? _ <- (if owned_database (m_inputs machine)
            then do? c <- map_errp checking_engine (call (InspectContainer NAME_POSTGRES));
                 Ret (if match c with Some c => c_running c | None => false end then Ok tt
                      else Err (nothing_changed ("Quasar's Postgres (" +:+ NAME_POSTGRES +:+ ") is not running; start it (docker start "
                             +:+ NAME_POSTGRES +:+ ") and run the command again")))
            else Ret (Ok tt));
  do? _ <- check_owner machine control_planes;
  Ret (Ok (update_plan (rs_checked revision (sch_version schema)
    (if r_imported plan then Some target else r_migrates_to plan)) j)).

(** ** [stopping] and [loading] *)

(** Restart disabled, then stopped. *)
Definition stop_one (c : Container) : prog I (result unit Halt) :=
  do? _ <- (if bool_decide (c_restart c = Some RestartNo) then Ret (Ok tt)
            else map_errp (engine_halt RecreateFailed "disable the control plane's restart")
                   (retrying cfg (call (SetRestartPolicy (c_id c) RestartNo))));
  map_errp (engine_halt RecreateFailed "stop the control plane")
    (retrying cfg (call (StopContainer (c_id c) (stop_grace (timing cfg))))).

Fixpoint stop_control_planes (names : list string) : prog I (result unit Halt) :=
  match names with
  | [] => Ret (Ok tt)
  | name :: names' =>
      do? c <- map_errp (engine_halt RecreateFailed "inspect the control plane") (retrying cfg (call (InspectContainer name)));
      do? _ <- (match c with None => Ret (Ok tt) | Some c => stop_one c end);
      stop_control_planes names'
  end.

(** The hold, unless an earlier restore left one. *)
Definition place_hold j : prog I (result unit Halt) :=
  do h <- call LoadHold;
  if match h with Ok (Some h) => bool_decide (h_reason h = RestoreIncomplete) | _ => false end
  then Ret (Ok tt)
  else do now <- call NowStamp;
       map_errp (λ _, Died) (call (StoreHold (mkHold RestoreIncomplete now (Some (request_id (j_request j)))))).

(** [Actor::stop_for_restore] *)
Definition stop_for_restore j : prog I (result unit Halt) :=
  do? _ <- place_hold j; stop_control_planes control_planes.

(** [Actor::load_dump] *)
Definition load_into j : prog I (result unit Halt) :=
  let plan := plan_of j in
  let name := default EmptyString (r_dump plan) in
  do? machine <- map_errp (λ why, load_halt name (DbFailed why)) restore_machine;
  let op := if r_imported plan then DbImport else DbLoad in
  do? x <- map_errp (load_halt name) (run_db cfg machine op (Some (name +:+ ".dump")));
  let '(code, out) := (x : Z * string) in
  if negb (code =? 0)%Z
  then Ret (Err (load_halt name (DbFailed ("exit " +:+ pretty code +:+ ": " +:+ tail_output (trim out) LOG_TAIL_LIMIT))))
  else map_errp (λ _, Died) (set_floor (default 0%Z (r_schema_version plan)) (request_id (j_request j))).

(** ** [starting] *)

(** [Actor::record] *)
Definition record (role : Role) (revision : Z) (image : ImageRef) (spec : ContainerSpec) : prog I (result unit string) :=
  do now <- call NowStamp;
  call (StoreService (mkServiceRecord role revision image (default EmptyString (cs_labels spec !! LABEL_SPEC)) spec now)).

(** [Actor::create_restored] *)
Definition create_restored machine (plan : RestoreJ) (rid : string) : prog I (result string Halt) :=
  do? found <- map_errp (λ e, match e with DbCrashed => Died | DbFailed why => fail_with PullFailed why end)
                 (image_labels (r_control_plane plan));
  do? _ <- map_errp (fail_with Invalid) (schema_allows found (reference (r_control_plane plan)));
  let revision := default 0%Z (r_recipe_revision plan) in
  do? secrets <- map_errp (fail_with RecreateFailed) control_plane_secrets;
  do? spec <- Ret (map_err (λ e, fail_with RecreateFailed (show_render_error e))
                     (render ControlPlane revision (m_inputs machine) (r_control_plane plan) secrets));
  do? _ <- (match sm_volume secrets with
            | Some volume =>
                map_errp (λ e, match e with DbCrashed => Died | DbFailed why => fail_with RecreateFailed why end)
                  (call (DeliverSecrets (r_control_plane plan) volume (sm_files secrets)))
            | None => Ret (Ok tt)
            end);
  do? _ <- map_errp (λ _, Died) (record ControlPlane revision (r_control_plane plan) spec);
  map_errp (engine_halt RecreateFailed "create the control plane")
    (retrying cfg (call (CreateContainer (spec_add_label LABEL_ATTEMPT rid spec)))).

(** [Actor::start_fresh] *)
Definition start_fresh machine (plan : RestoreJ) (rid : string) : prog I (result unit Halt) :=
  do? _ <- (match r_migrates_to plan with
            | Some target => map_errp (λ _, Died) (raise_floor target rid)
            | None => Ret (Ok tt)
            end);
  do? _ <- map_errp (λ _, Died) (call ClearHold);
  map_errp (λ e, match e with
                 | DbCrashed => Died
                 | DbFailed why => fail_with RecreateFailed
                     ("the database is loaded, but the install could not create its control plane: " +:+ why)
                 end) (call (EnsureControlMachine machine)).

(** The failed and kept control planes go; this restore's own stays. *)
Fixpoint remove_others (rid : string) (names : list string) : prog I (result unit Halt) :=
  match names with
  | [] => Ret (Ok tt)
  | name :: names' =>
      do? c <- map_errp (engine_halt RecreateFailed "inspect") (retrying cfg (call (InspectContainer name)));
      do? _ <- (match c with
                | Some c =>
                    if bool_decide (c_labels c !! LABEL_ATTEMPT = Some rid) then Ret (Ok tt)
                    else map_errp (engine_halt RecreateFailed "remove the old control plane")
                           (retrying cfg (call (RemoveContainer (c_id c))))
                | None => Ret (Ok tt)
                end);
      remove_others rid names'
  end.

(** [Actor::start_restored] *)
Definition start_restored j : prog I (result Journal Halt) :=
  let plan := plan_of j in
  let rid := request_id (j_request j) in
  do? machine <- map_errp held restore_machine;
  do? _ <- (match r_dump plan, r_schema_version plan with
            | None, Some schema => map_errp (λ _, Died) (set_floor schema rid)
            | _, _ => Ret (Ok tt)
            end);
  if r_fresh_install plan
  then do? _ <- start_fresh machine plan rid; Ret (Ok j)
  else
  do? _ <- remove_others rid control_planes;
  do? c <- map_errp (engine_halt RecreateFailed "inspect") (retrying cfg (call (InspectContainer NAME_CONTROL_PLANE)));
  do? container <- (match c with
                    | Some c => if bool_decide (c_labels c !! LABEL_ATTEMPT = Some rid) then Ret (Ok (c_id c))
                                else create_restored machine plan rid
                    | None => create_restored machine plan rid
                    end);
  do? _ <- map_errp (engine_halt NeverStarted "start the control plane") (retrying cfg (call (StartContainer container)));
  Ret (Ok (update_plan (rs_set_new (Some container)) j)).

(** ** [verifying] and the end *)

(** [Actor::verify_restored]; [fuel] bounds its looks. *)
Definition healthy_look (r : result (option Container) EngineError) : result (option string) Halt :=
  match r with
  | Ok (Some c) =>
      if c_running c && bool_decide (c_health c = Some "healthy") then Ok None
      else Ok (Some ("state=" +:+ c_status c +:+ " health=" +:+ default "none" (c_health c)))
  | Ok None => Ok (Some "the control plane is gone")
  | Err Crashed => Err Died
  | Err e => Ok (Some ("the engine did not answer: " +:+ show_engine_error e))
  end.

Fixpoint verify_restored_loop (fuel : nat) (deadline : Z) : prog I (result unit Halt) :=
  match fuel with
  | O => Spin
  | S fuel' =>
      do r <- call (InspectContainer NAME_CONTROL_PLANE);
      do? last <- Ret (healthy_look r);
      match last with
      | None => Ret (Ok tt)
      | Some last =>
          do t <- call Now;
          if (deadline <=? t)%Z
          then Ret (Err (fail_with Unhealthy ("the database is restored, but the control plane did not report healthy within "
                 +:+ pretty (as_secs (verify_timeout (timing cfg))) +:+ "s (" +:+ last +:+ ")")))
          else do _ <- call (Sleep (Z.max (poll (timing cfg)) 1000000)); verify_restored_loop fuel' deadline
      end
  end.

Definition verify_restored (fuel : nat) : prog I (result unit Halt) :=
  do start <- call Now; verify_restored_loop fuel (start + verify_timeout (timing cfg)).

(** [Actor::remove_import] *)
Definition remove_import (plan : RestoreJ) : prog I unit :=
  match r_imported plan, r_dump plan with
  | true, Some name => do _ <- call (DumpRemove name); Ret tt
  | _, _ => Ret tt
  end.

(** [Actor::mark_restored] *)
Definition restored_record (rid now : string) (r : DumpRecord) : DumpRecord :=
  mkDumpRecord (dr_name r) (dr_schema_version r) (dr_created_at r) (dr_size_bytes r) (dr_sha256 r) (dr_request_id r)
    (dr_control_plane r) (dr_recipe_revision r) (dr_returns_to r) (Some rid) (Some now).

Definition went_back (plan : RestoreJ) (p : RestorePoint) : bool :=
  match r_dump plan with
  | Some name => bool_decide (rp_dump p = Some name)
  | None => bool_decide (rp_dump p = None) && bool_decide (r_returns_to plan = Some (rp_returns_to p))
  end.

Definition mark_restored (plan : RestoreJ) (rid : string) : prog I unit :=
  do _ <- (match r_dump plan with
           | Some name =>
               do r <- call (LoadDump name);
               match r with
               | Ok (Some r) =>
                   if bool_decide (dr_restored_by r = Some rid) then Ret tt
                   else do now <- call NowStamp; do _ <- call (StoreDump (restored_record rid now r)); Ret tt
               | _ => Ret tt
               end
           | None => Ret tt
           end);
  do p <- call LoadPoint;
  match p with
  | Ok (Some p) => if went_back plan p then do _ <- call ClearPoint; Ret tt else Ret tt
  | _ => Ret tt
  end.

(** [Actor::finish_restore] *)
Class NodeName (I : Type) := mkNodeName { node_name : I → string }.
Context `{!NodeName I}.

Definition restored_text (plan : RestoreJ) (m : result (Machine I) string) : string :=
  let schema := pretty (default 0%Z (r_schema_version plan)) in
  match r_dump plan with
  | Some name =>
      if r_imported plan
      then "Loaded the pre-RH-06 dump (schema " +:+ schema +:+ ") into this install's database and started its control plane, which migrated it to schema "
           +:+ pretty (default 0%Z (r_migrates_to plan))
           +:+ ". Its accounts, library and settings are back. Every host the old install had is offline"
           +:+ match m with
               | Ok m => if bool_decide (m_role m = Combined)
                         then " but this machine's own, which its agent takes back as " +:+ node_name (m_inputs m)
                         else EmptyString
               | Err _ => EmptyString
               end
           +:+ ": add each GPU host again from Admin > Fleet > Add host, under its old node name, to keep its history and homes."
      else "Restored dump " +:+ name +:+ " (schema " +:+ schema +:+ ", taken " +:+ default "before the update" (r_created_at plan)
           +:+ ") into Quasar's database and started control plane " +:+ default EmptyString (r_returns_to plan)
           +:+ " again. Anything written after the dump was taken is gone."
  | None => "Your database is at schema " +:+ schema +:+ "; started control plane " +:+ default EmptyString (r_returns_to plan)
            +:+ " against it."
  end.

Definition finish_restore j : prog I (result Journal unit) :=
  let plan := plan_of j in
  do? _ <- map_errp (λ _, tt) (call ClearHold);
  do _ <- mark_restored plan (request_id (j_request j));
  do _ <- remove_import plan;
  do m <- (match r_dump plan with
           | Some _ => if r_imported plan then restore_machine else Ret (Err EmptyString)
           | None => Ret (Err EmptyString)
           end);
  finish (set_format FORMAT j) StSucceeded None (restored_text plan m) false.

(** [Actor::fail_restore] *)
Definition import_text (at_ : RestorePhase) (plan : RestoreJ) : prog I string :=
  if r_imported plan
  then do m <- call LoadMachine;
       let machine := match m with Ok (Some m) => Some m | _ => None end in
       do cli <- call (CliName machine);
       do over <- call (StartOver machine);
       Ret (nl +:+ import_hint at_ cli over)
  else Ret EmptyString.

Definition control_plane_tail (at_ : RestorePhase) (plan : RestoreJ) : prog I string :=
  if restore_touched at_
  then match r_new_container plan with
       | Some c =>
           do tail <- call (LogsTail c 40);
           Ret (match tail with
                | Ok tail => if str_eqb (trim tail) EmptyString then EmptyString
                             else nl +:+ "--- last lines of the control plane ---" +:+ nl
                                  +:+ tail_output (trim_end tail) LOG_TAIL_LIMIT
                | Err _ => EmptyString
                end)
       | None => Ret EmptyString
       end
  else Ret EmptyString.

Definition fail_restore j (at_ : RestorePhase) (f : Failure) : prog I (result Journal unit) :=
  let plan := plan_of j in
  do _ <- (match at_ with
           | RpStarting | RpVerifying => do _ <- call ClearHold; Ret tt
           | _ => Ret tt
           end);
  do _ <- remove_import plan;
  do hint <- import_text at_ plan;
  do tail <- control_plane_tail at_ plan;
  finish (set_format FORMAT j) StFailed (Some (fl_reason f)) (fl_detail f +:+ hint +:+ tail) false.

(** ** The driver *)

(** [Actor::advance_restore] *)
Definition advance_restore j (p : RestorePhase) : prog I (result Journal unit) :=
  commit (update_plan (rs_set_phase p) j).

(** The match of [run_restore], for a phase that is not the last: the journal in memory and the
    phase that is next. *)
Definition restore_phase (fuel : nat) j : prog I (result (Journal * RestorePhase) Halt) :=
  let plan := plan_of j in
  match r_phase plan with
  | RpAdmitted => Ret (Ok (j, RpChecking))
  | RpChecking => do? j' <- check_restore j; Ret (Ok (j', RpStopping))
  | RpStopping => do? _ <- stop_for_restore j; Ret (Ok (j, if bool_decide (is_Some (r_dump plan)) then RpLoading else RpStarting))
  | RpLoading => do? _ <- load_into j; Ret (Ok (j, RpStarting))
  | RpStarting => do? j' <- start_restored j; Ret (Ok (j', RpVerifying))
  | RpVerifying => do? _ <- verify_restored fuel; Ret (Ok (j, RpDone))
  | RpDone => Ret (Ok (j, RpDone))
  end.

(** [Actor::run_restore]; [turns] bounds its iterations. *)
Fixpoint run_restore (turns fuel : nat) j : prog I (result unit unit) :=
  match turns with
  | O => Spin
  | S turns' =>
      if negb (is_open j) then Ret (Ok tt)
      else
      let phase := r_phase (plan_of j) in
      if bool_decide (phase = RpDone) then do? _ <- finish_restore j; Ret (Ok tt)
      else
      do step <- restore_phase fuel j;
      match step with
      | Ok (j', next) => do? j'' <- advance_restore j' next; run_restore turns' fuel j''
      | Err Died => Ret (Err tt)
      | Err (HFail f) => do? _ <- fail_restore j phase f; Ret (Ok tt)
      end
  end.

(** [Actor::interrupt_restore] *)
Definition interrupt_restore j : prog I (result unit unit) :=
  do _ <- (match j_restore j with Some plan => remove_import plan | None => Ret tt end);
  do? _ <- finish (set_format FORMAT j) StFailed (Some Interrupted) "The recovery actor, the container engine or the machine restarted before the restore stopped anything: nothing was changed. Run the command again." false;
  Ret (Ok tt).
End restore.
