(* ===== verification/RestoreSpec.v ===== *)
(** * What a restore promises

    [rs_step] is the abstract machine of a restore's journal, and [rwatch] the monitor its
    procedures are checked against. The history is the machine's, not a process's: it outlives
    the process, so that the theorems hold for a restore that is interrupted anywhere and
    continued. *)
From S2P Require Import Prelude Platform Wire Journal Settle Effects Replace DumpDir Database Restore.

(** ** The abstract machine *)

(** A plan: what checking found is known once anything was touched, an import is what a fresh
    install gets, and only a restore with a dump loads one. *)
Record plan_wf (p : RestoreJ) : Prop := mkPlanWf {
  pw_checked : restore_touched (r_phase p) = true → is_Some (r_schema_version p) ∧ is_Some (r_recipe_revision p);
  pw_target : restore_touched (r_phase p) = true → r_imported p = true → is_Some (r_migrates_to p);
  pw_fresh : r_fresh_install p = r_imported p;
  pw_import : r_imported p = true → is_Some (r_dump p);
  pw_loading : r_phase p = RpLoading → is_Some (r_dump p) }.

Definition is_restore (j : Journal) : Prop := j_steps j = [] ∧ ∃ p, j_restore j = Some p ∧ plan_wf p.

(** The schema a plan recorded for its dump is the one checking found in it. *)
Definition schema_kept (p : RestoreJ) (schema : Z) : Prop :=
  ∀ recorded, is_Some (r_dump p) → r_schema_version p = Some recorded → recorded = schema.

(** One phase leads to the next; checking adds what it found, starting the container. *)
Definition rs_edge (p p' : RestoreJ) : Prop :=
  match r_phase p with
  | RpAdmitted => p' = rs_set_phase RpChecking p
  | RpChecking => ∃ rev schema target, schema_kept p schema ∧ p' = rs_set_phase RpStopping (rs_checked rev schema target p)
  | RpStopping => p' = rs_set_phase (if bool_decide (is_Some (r_dump p)) then RpLoading else RpStarting) p
  | RpLoading => p' = rs_set_phase RpStarting p
  | RpStarting => ∃ c, p' = rs_set_phase RpVerifying (rs_set_new c p)
  | RpVerifying => p' = rs_set_phase RpDone p
  | RpDone => False
  end.

Inductive rs_step (j j' : Journal) : Prop :=
| rs_moved p p' :
    is_open j = true → j_restore j = Some p → j_restore j' = Some p' → rs_edge p p' → plan_wf p' →
    is_open j' = true → j_steps j' = j_steps j → j_request j' = j_request j → rs_step j j'
| rs_succeeded p :
    is_open j = true → j_restore j = Some p → r_phase p = RpDone → j_restore j' = Some p →
    j_steps j' = j_steps j → res_state (j_result j') = StSucceeded → res_restored (j_result j') = false →
    j_format j' = FORMAT → rs_step j j'
| rs_failed p :
    is_open j = true → j_restore j = Some p → r_phase p ≠ RpDone → j_restore j' = Some p →
    j_steps j' = j_steps j → res_state (j_result j') = StFailed → is_Some (res_reason (j_result j')) →
    j_format j' = FORMAT → rs_step j j'.

(** ** The history *)

(** What was read: a dump file's checksum and whether it looks like an archive; a dump's record;
    an image; a helper's operation, file, exit code and output. *)
Inductive fact :=
| Examined (file sha : string) (magic : bool)
| Recorded (name : string) (r : DumpRecord)
| Labelled (ref : string) (im : Image)
| Helped (op : string) (file : option string) (code : Z) (out : string).

(** The durable journal, and one that a failed write may have left instead; whether the hold of a
    restore is surely on disk, and which floor; the dump file the database wholly holds; the
    helper containers, their exit codes, and containers seen under the helper's name; what was
    read; what holds the control planes' names (or that nothing does), and which containers had
    their restart disabled and were then stopped. *)
Record RWorld := mkRWorld {
  w_dur : Journal;
  w_maybe : option Journal;
  w_hold : bool;
  w_floor : option Z;
  w_loaded : option string;
  w_ops : gmap string (string * option string);
  w_ran : gmap string Z;
  w_stale : gset string;
  w_facts : list fact;
  w_named : gmap string (option string);
  w_norestart : gset string;
  w_halted : gset string }.

Definition w_with_dur (d : Journal) (m : option Journal) (g : RWorld) : RWorld :=
  mkRWorld d m (w_hold g) (w_floor g) (w_loaded g) (w_ops g) (w_ran g) (w_stale g) (w_facts g) (w_named g) (w_norestart g) (w_halted g).
Definition w_with_hold (h : bool) (g : RWorld) : RWorld :=
  mkRWorld (w_dur g) (w_maybe g) h (w_floor g) (w_loaded g) (w_ops g) (w_ran g) (w_stale g) (w_facts g) (w_named g) (w_norestart g) (w_halted g).
Definition w_with_floor (f : option Z) (g : RWorld) : RWorld :=
  mkRWorld (w_dur g) (w_maybe g) (w_hold g) f (w_loaded g) (w_ops g) (w_ran g) (w_stale g) (w_facts g) (w_named g) (w_norestart g) (w_halted g).
Definition w_with_loaded (l : option string) (g : RWorld) : RWorld :=
  mkRWorld (w_dur g) (w_maybe g) (w_hold g) (w_floor g) l (w_ops g) (w_ran g) (w_stale g) (w_facts g) (w_named g) (w_norestart g) (w_halted g).
Definition w_with_helpers (ops : gmap string (string * option string)) (ran : gmap string Z) (stale : gset string) (g : RWorld) : RWorld :=
  mkRWorld (w_dur g) (w_maybe g) (w_hold g) (w_floor g) (w_loaded g) ops ran stale (w_facts g) (w_named g) (w_norestart g) (w_halted g).
Definition w_learn (f : fact) (g : RWorld) : RWorld :=
  mkRWorld (w_dur g) (w_maybe g) (w_hold g) (w_floor g) (w_loaded g) (w_ops g) (w_ran g) (w_stale g) (f :: w_facts g) (w_named g) (w_norestart g) (w_halted g).
Definition w_with_named (m : gmap string (option string)) (g : RWorld) : RWorld :=
  mkRWorld (w_dur g) (w_maybe g) (w_hold g) (w_floor g) (w_loaded g) (w_ops g) (w_ran g) (w_stale g) (w_facts g) m (w_norestart g) (w_halted g).
Definition w_with_stopped (n h : gset string) (g : RWorld) : RWorld :=
  mkRWorld (w_dur g) (w_maybe g) (w_hold g) (w_floor g) (w_loaded g) (w_ops g) (w_ran g) (w_stale g) (w_facts g) (w_named g) n h.

(** A helper is created under the helper's name. *)
Definition is_helper (spec : ContainerSpec) : bool := str_eqb (cs_name spec) NAME_DB_HELPER.
Definition helper_of (spec : ContainerSpec) : string * option string :=
  (default EmptyString (cs_labels spec !! LABEL_HELPER), cs_env spec !! DUMP_FILE_ENV).
(** The operations that replace the database. *)
Definition loads (op : string) : bool := str_eqb op (op_label DbLoad) || str_eqb op (op_label DbImport).
(** A dump's file, as a helper sees it. *)
Definition dump_path (name : string) : string := DUMPS_MOUNT +:+ "/" +:+ name +:+ ".dump".

Definition is_held (h : Hold) : bool := bool_decide (h_reason h = RestoreIncomplete).

(** A look at a name; a control plane's is remembered. *)
Definition w_see (n : string) (o : option Container) (g : RWorld) : RWorld :=
  if bool_decide (n ∈ control_planes) then
    let g := w_with_named (<[n := c_id <$> o]> (w_named g)) g in
    match o with
    | Some c => if bool_decide (c_restart c = Some RestartNo)
                then w_with_stopped ({[c_id c]} ∪ w_norestart g) (w_halted g) g else g
    | None => g
    end
  else if str_eqb n NAME_DB_HELPER then
    match o with Some c => w_with_helpers (w_ops g) (w_ran g) ({[c_id c]} ∪ w_stale g) g | None => g end
  else g.

Definition r_advance {I X} (g : RWorld) (e : eff I X) : X → RWorld :=
  match e in eff _ X return X → RWorld with
  | InspectImage ref => λ r, match r with Ok (Some im) => w_learn (Labelled ref im) g | _ => g end
  | InspectContainer n => λ r, match r with Ok o => w_see n o g | Err _ => g end
  | CreateContainer spec => λ r,
      if is_helper spec
      then match r with
           | Ok id => w_with_helpers (<[id := helper_of spec]> (w_ops g)) (w_ran g) (w_stale g) g
           | Err _ => g
           end
      else w_with_named ∅ g
  | StartContainer id => λ _,
      match w_ops g !! id with
      | Some (op, _) => if loads op then w_with_loaded None g else g
      | None => w_with_stopped (w_norestart g) (w_halted g ∖ {[id]}) g
      end
  | WaitContainer id _ => λ r,
      match r, w_ops g !! id with
      | Ok code, Some (op, f) =>
          let g := w_with_helpers (w_ops g) (<[id := code]> (w_ran g)) (w_stale g) g in
          if loads op && (code =? 0)%Z then w_with_loaded f g else g
      | _, _ => g
      end
  | LogsTail id _ => λ r,
      match w_ops g !! id, w_ran g !! id with
      | Some (op, f), Some code => w_learn (Helped op f code (match r with Ok out => out | Err _ => EmptyString end)) g
      | _, _ => g
      end
  | StopContainer id _ => λ r,
      match r with Ok _ => w_with_stopped (w_norestart g) ({[id]} ∪ w_halted g) g | Err _ => g end
  | SetRestartPolicy id p => λ r,
      match r, p with
      | Ok _, RestartNo => w_with_stopped ({[id]} ∪ w_norestart g) (w_halted g) g
      | _, RestartNo => g
      | _, _ => w_with_stopped (w_norestart g ∖ {[id]}) (w_halted g) g
      end
  | EnsureControlMachine _ => λ _, w_with_named ∅ g
  | StoreJournal j => λ r, match r with Ok _ => w_with_dur j None g | Err _ => w_with_dur (w_dur g) (Some j) g end
  | LoadHold => λ r, match r with Ok (Some h) => if is_held h then w_with_hold true g else g | _ => g end
  | StoreHold h => λ r, match r with Ok _ => w_with_hold (is_held h) g | Err _ => w_with_hold false g end
  | ClearHold => λ _, w_with_hold false g
  | LoadFloor => λ r, match r with Ok f => w_with_floor (floor_schema <$> f) g | Err _ => g end
  | StoreFloor f => λ r, match r with Ok _ => w_with_floor (Some (floor_schema f)) g | Err _ => w_with_floor None g end
  | ExamineDump f => λ r, match r with Ok (_, sha, magic) => w_learn (Examined f sha magic) g | Err _ => g end
  | LoadDump n => λ r, match r with Ok (Some rec) => w_learn (Recorded n rec) g | _ => g end
  | _ => λ _, g
  end.

(** ** What the engine and the files promise

    A created container is a new one; a control plane's name is no helper's; the floor that was
    written is the floor that is read, and so is the journal. *)
Definition r_allows {I X} (g : RWorld) (e : eff I X) : X → Prop :=
  match e in eff _ X return X → Prop with
  | CreateContainer _ => λ r, match r with Ok id => w_ops g !! id = None ∧ w_ran g !! id = None | Err _ => True end
  | InspectContainer n => λ r,
      match r with Ok (Some c) => n ∈ control_planes → w_ops g !! c_id c = None | _ => True end
  | LoadFloor => λ r, match r with Ok f => ∀ s, w_floor g = Some s → floor_schema <$> f = Some s | Err _ => True end
  | LoadJournal _ => λ r, match r with Ok (Some j) => j = w_dur g | _ => True end
  | ScanJournals => λ sc, match scan_open sc with Some j => j = w_dur g | None => True end
  | _ => λ _, True
  end.

(** ** When a call may be made *)

Definition w_plan (g : RWorld) : RestoreJ := plan_of (w_dur g).
Definition w_phase (g : RWorld) : RestorePhase := r_phase (w_plan g).

(** Nothing of that name runs or restarts. *)
Definition quiet (g : RWorld) (n : string) : Prop :=
  w_named g !! n = Some None
  ∨ ∃ id, w_named g !! n = Some (Some id) ∧ id ∈ w_norestart g ∧ id ∈ w_halted g.

Definition all_quiet (g : RWorld) : Prop := ∀ n, n ∈ control_planes → quiet g n.

(** The database holds the whole dump, if one is restored; and the floor is at its schema. *)
Definition loaded (g : RWorld) (p : RestoreJ) : Prop :=
  ∀ name, r_dump p = Some name → w_loaded g = Some (dump_path name).
Definition floored (g : RWorld) (p : RestoreJ) : Prop :=
  ∃ s, r_schema_version p = Some s ∧ w_floor g = Some s.

(** What [checking] must have found. *)
Definition checked (g : RWorld) (p : RestoreJ) : Prop :=
  ∃ im target out s rev,
    Labelled (reference (r_control_plane p)) im ∈ w_facts g ∧ image_schema im = Some target ∧
    r_recipe_revision p = Some rev ∧ book_supports ControlPlane rev = true ∧
    parse_schema out = Some s ∧ sch_dirty s = false ∧ r_schema_version p = Some (sch_version s) ∧
    match r_dump p with
    | Some name =>
        Helped (op_label DbInspect) (Some (dump_path name)) 0 out ∈ w_facts g ∧
        ∃ sha, Examined (name +:+ ".dump") sha true ∈ w_facts g ∧
          (r_imported p = true ∨ ∃ rec, Recorded name rec ∈ w_facts g ∧ dr_sha256 rec = sha)
    | None => Helped (op_label DbSchema) None 0 out ∈ w_facts g
    end ∧
    if r_imported p then (sch_version s <= target)%Z ∧ r_migrates_to p = Some target
    else sch_version s = target.

(** What entering a phase takes. *)
Definition entered (g : RWorld) (p : RestoreJ) : Prop :=
  match r_phase p with
  | RpStopping => checked g p
  | RpLoading => w_hold g = true ∧ all_quiet g
  | RpStarting => match r_dump p with
                  | Some _ => loaded g p ∧ floored g p
                  | None => w_hold g = true ∧ all_quiet g
                  end
  | RpVerifying | RpDone => loaded g p
  | _ => True
  end.

Definition may_help (g : RWorld) (op : string) (file : option string) : Prop :=
  if loads op
  then w_phase g = RpLoading ∧ w_hold g = true ∧ all_quiet g ∧
       ∃ name, r_dump (w_plan g) = Some name ∧ file = Some (dump_path name)
  else w_phase g = RpChecking ∧ (op = op_label DbInspect ∨ op = op_label DbSchema).

(** The control plane may be created and started: nothing of the database is missing, and it is
    at no newer a schema than the control plane. *)
Definition may_run (g : RWorld) : Prop :=
  w_phase g = RpStarting ∧ r_fresh_install (w_plan g) = false ∧ loaded g (w_plan g) ∧ floored g (w_plan g).

(** What a process that gives up may still call. *)
Definition gives_up {I X} (e : eff I X) : bool :=
  match e with Killed | MarkDied => true | _ => false end.

Definition r_requires {I X} (g : RWorld) (e : eff I X) : Prop :=
  (gives_up e = false → w_maybe g = None) ∧
  match e with
  | InspectContainer n => n ∈ control_planes → w_phase g ≠ RpLoading
  | CreateContainer spec =>
      if is_helper spec then may_help g (helper_of spec).1 (helper_of spec).2
      else may_run g ∧ (∃ sp, spec = spec_add_label LABEL_ATTEMPT (request_id (j_request (w_dur g))) sp) ∧
        ∃ im v s, Labelled (reference (r_control_plane (w_plan g))) im ∈ w_facts g ∧ image_schema im = Some v ∧
          w_floor g = Some s ∧ (s <= v)%Z
  | StartContainer id =>
      match w_ops g !! id with Some (op, f) => may_help g op f | None => may_run g end
  | WaitContainer id _ => ∀ op f, w_ops g !! id = Some (op, f) → loads op = true → w_phase g = RpLoading
  | StopContainer _ _ => w_phase g = RpStopping ∧ w_hold g = true
  | SetRestartPolicy _ p => w_phase g = RpStopping ∧ w_hold g = true ∧ p = RestartNo
  | RemoveContainer id => is_Some (w_ops g !! id) ∨ id ∈ w_stale g ∨ w_phase g = RpStarting ∧ loaded g (w_plan g)
  | StoreJournal j =>
      rs_step (w_dur g) j ∧ (is_open j = true → entered g (plan_of j))
  | StoreHold h => w_phase g = RpStopping ∧ is_held h = true
  | ClearHold =>
      (w_phase g = RpStarting ∨ w_phase g = RpVerifying ∨ w_phase g = RpDone) ∧ loaded g (w_plan g)
  | StoreFloor f =>
      w_phase g = RpLoading ∧ loaded g (w_plan g) ∧ r_schema_version (w_plan g) = Some (floor_schema f)
      ∨ w_phase g = RpStarting ∧ r_dump (w_plan g) = None ∧ r_schema_version (w_plan g) = Some (floor_schema f)
      ∨ w_phase g = RpStarting ∧ r_fresh_install (w_plan g) = true ∧ r_migrates_to (w_plan g) = Some (floor_schema f)
  | StoreService r =>
      may_run g ∧ sr_role r = ControlPlane ∧ sr_image r = r_control_plane (w_plan g)
  | DeliverSecrets image _ _ => may_run g ∧ image = r_control_plane (w_plan g)
  | EnsureControlMachine _ =>
      w_phase g = RpStarting ∧ r_fresh_install (w_plan g) = true ∧ loaded g (w_plan g) ∧
      ∃ f t, w_floor g = Some f ∧ r_migrates_to (w_plan g) = Some t ∧ (t <= f)%Z
  | DumpRemove name => r_imported (w_plan g) = true ∧ r_dump (w_plan g) = Some name
  | StoreDump r => w_phase g = RpDone ∧ dr_restored_by r = Some (request_id (j_request (w_dur g)))
  | ClearPoint => w_phase g = RpDone
  | RenameContainer _ _ | StoreSeed _ | StoreReady _ _ | StorePoint _ | DumpRemovePartials
  | DumpNow _ _ _ _ _ _ _ | PrepareDumps | CompleteDump _ _ | RemovePartial _ | PruneDumps _ _
  | DriveHandover _ _ | RunRestore _ | InterruptRestore _ | YieldAttempt _ _
  | TakeLease | ReleaseLease | MarkRetired | StopServing | ServeAgain | MarkUsed _ | SpawnDriver _ | SubmitRemove _ _
  | DecideGpus _ _ _ | EnsureVolume _ _ _ => False
  | _ => True
  end.

Definition rwatch (I : Type) : Monitor I RWorld :=
  mkMonitor I RWorld (λ X g e, r_requires g e) (λ X g e, r_allows g e) (λ X g e, r_advance g e).
