(* ===== verification/RestoreRules.v ===== *)
(** * Frames of a restore's procedures

    What the calls of a restore keep of the history, by mode: the names that stay quiet, whether
    what the database holds may change, and whether helpers run. *)
From S2P Require Import Prelude Platform Wire Journal Settle Effects Replace DumpDir Database Restore RestoreSpec Frames.

Record mode := mkMode { q_names : list string; q_db : bool; q_help : bool }.

Definition checking_mode : mode := mkMode [] true true.
Definition loading_mode : mode := mkMode control_planes false true.
Definition still_mode : mode := mkMode control_planes true false.
Definition starting_mode : mode := mkMode [] true false.

Record rframe (m : mode) (g g' : RWorld) : Prop := mkRFrame {
  rf_dur : w_dur g' = w_dur g;
  rf_maybe : w_maybe g' = w_maybe g;
  rf_hold : w_hold g = true → w_hold g' = true;
  rf_floor : ∀ s, w_floor g = Some s → w_floor g' = Some s;
  rf_loaded : q_db m = true → w_loaded g' = w_loaded g;
  rf_facts : ∀ f, f ∈ w_facts g → f ∈ w_facts g';
  rf_ops : ∀ id x, w_ops g !! id = Some x → w_ops g' !! id = Some x;
  rf_help : q_help m = false → w_ops g' = w_ops g;
  rf_stale : w_stale g ⊆ w_stale g';
  rf_quiet : ∀ n, n ∈ q_names m → quiet g n → quiet g' n }.

#[global] Instance rframe_preorder m : PreOrder (rframe m).
Proof.
  split.
  - intros g. by split.
  - intros g1 g2 g3 [D1 M1 H1 F1 L1 A1 O1 E1 S1 Q1] [D2 M2 H2 F2 L2 A2 O2 E2 S2 Q2].
    split; [congruence|congruence|auto|auto| |auto|auto| |by etransitivity|auto].
    + intros H. by rewrite L2, L1.
    + intros H. by rewrite E2, E1.
Qed.

(** A mode a control plane is created and started in. *)
Definition starts_in (m : mode) : Prop := q_names m = [] ∧ q_db m = true ∧ q_help m = false.

(** The control plane's container. *)
Definition may_create (g : RWorld) (spec : ContainerSpec) : Prop :=
  may_run g ∧ (∃ sp, spec = spec_add_label LABEL_ATTEMPT (request_id (j_request (w_dur g))) sp) ∧
  ∃ im v s, Labelled (reference (r_control_plane (w_plan g))) im ∈ w_facts g ∧ image_schema im = Some v ∧
    w_floor g = Some s ∧ (s <= v)%Z.

(** Calls that keep the frame, and when they may be made. *)
Definition rok (m : mode) {I X} (g : RWorld) (e : eff I X) : Prop :=
  w_maybe g = None ∧
  match e with
  | InspectContainer n => n ∈ control_planes → (n ∉ q_names m) ∧ w_phase g ≠ RpLoading
  | CreateContainer spec =>
      if is_helper spec
      then q_help m = true ∧ may_help g (helper_of spec).1 (helper_of spec).2 ∧
           (loads (helper_of spec).1 = true → q_names m = control_planes ∧ q_db m = false)
      else starts_in m ∧ may_create g spec
  | StartContainer id =>
      (∃ op f, w_ops g !! id = Some (op, f) ∧ may_help g op f ∧
         (loads op = true → q_names m = control_planes ∧ q_db m = false))
      ∨ starts_in m ∧ w_ops g !! id = None ∧ may_run g
  | WaitContainer id _ =>
      if q_db m then ∃ op f, w_ops g !! id = Some (op, f) ∧ loads op = false
      else ∃ op f, w_ops g !! id = Some (op, f) ∧ (loads op = true → w_phase g = RpLoading)
  | StopContainer _ _ => w_phase g = RpStopping ∧ w_hold g = true
  | SetRestartPolicy _ p => w_phase g = RpStopping ∧ w_hold g = true ∧ p = RestartNo
  | RemoveContainer id =>
      is_Some (w_ops g !! id) ∨ id ∈ w_stale g ∨ w_phase g = RpStarting ∧ loaded g (w_plan g) ∧ q_db m = true
  | StoreService r =>
      may_run g ∧ q_db m = true ∧ sr_role r = ControlPlane ∧ sr_image r = r_control_plane (w_plan g)
  | DeliverSecrets image _ _ => may_run g ∧ q_db m = true ∧ image = r_control_plane (w_plan g)
  | DumpRemove name => r_imported (w_plan g) = true ∧ r_dump (w_plan g) = Some name
  | StoreDump r => w_phase g = RpDone ∧ dr_restored_by r = Some (request_id (j_request (w_dur g)))
  | ClearPoint => w_phase g = RpDone
  | StoreJournal _ | StoreHold _ | ClearHold | StoreFloor _ | EnsureControlMachine _
  | RenameContainer _ _ | StoreSeed _ | StoreReady _ _ | StorePoint _ | DumpRemovePartials
  | DumpNow _ _ _ _ _ _ _ | PrepareDumps | CompleteDump _ _ | RemovePartial _ | PruneDumps _ _
  | DriveHandover _ _ | RunRestore _ | InterruptRestore _ | YieldAttempt _ _
  | TakeLease | ReleaseLease | MarkRetired | StopServing | ServeAgain | MarkUsed _ | SpawnDriver _ | SubmitRemove _ _
  | DecideGpus _ _ _ | EnsureVolume _ _ _ => False
  | _ => True
  end.

Lemma w_see_frame m n o g :
  (n ∈ control_planes → n ∉ q_names m) → rframe m g (w_see n o g).
Proof.
  intros Hn. unfold w_see. case_bool_decide as Hc.
  - specialize (Hn Hc).
    assert (∀ N H, w_norestart g ⊆ N → w_halted g ⊆ H →
      rframe m g (w_with_stopped N H (w_with_named (<[n := c_id <$> o]> (w_named g)) g))) as Hf.
    { intros N H HN HH. split; try done. intros k Hk.
      unfold quiet. simpl. rewrite lookup_insert_ne by (intros ->; done). set_solver. }
    destruct o as [c|]; [case_bool_decide|]; [apply Hf; set_solver|apply (Hf (w_norestart g) (w_halted g)); set_solver..].
  - destruct (str_eqb n NAME_DB_HELPER); [|done]. destruct o as [c|]; [|done]. split; try done. simpl. set_solver.
Qed.

Lemma learn_frame m f g : rframe m g (w_learn f g).
Proof. split; try done. intros f' H. simpl. by right. Qed.

Lemma rok_requires m {I X} g (e : eff I X) : rok m g e → r_requires g e.
Proof.
  unfold rok, r_requires. intros [Hm H]. split; [by intros _|]. destruct e; try done.
  - intros Hn. by apply H.
  - destruct (is_helper spec); [by destruct H as (_ & H & _)|by destruct H as [_ H]].
  - destruct H as [(op & f & -> & H & _)|(_ & -> & H)]; done.
  - destruct H as [?|[?|(? & ? & _)]]; auto.
  - by destruct H as (? & _ & ?).
  - intros op f Ho Hl. destruct (q_db m); destruct H as (op' & f' & Ho' & H); [congruence|].
    rewrite Ho in Ho'. injection Ho' as <- <-. auto.
  - by destruct H as (? & _ & ?).
Qed.

Lemma rok_advance m {I X} g (e : eff I X) x : rok m g e → r_allows g e x → rframe m g (r_advance g e x).
Proof.
  unfold rok. intros [Hm H] Ha. destruct e; try done; cbn [r_advance r_allows] in *.
  - destruct x as [[im|]|]; try done. apply learn_frame.
  - destruct x as [o|]; [|done]. apply w_see_frame. intros Hc. by apply H.
  - destruct (is_helper spec).
    + destruct H as (Hq & _). destruct x as [id|]; [|done]. split; try done; simpl; [|by rewrite Hq].
      intros id' y Hy. destruct Ha as [Ha _]. rewrite lookup_insert_ne; [done|]. by intros ->; rewrite Ha in Hy.
    + destruct H as [(Hn & _) _]. split; try done. rewrite Hn. by intros n ?%elem_of_nil.
  - destruct H as [(op & f & Ho & _ & Hl)|((Hn & _) & Ho & _)]; rewrite Ho.
    + destruct (loads op); [|done]. destruct (Hl eq_refl) as [_ Hd]. split; try done. by rewrite Hd.
    + split; try done. rewrite Hn. by intros n ?%elem_of_nil.
  - destruct x; [|done]. split; try done. simpl. intros n _ [Hn|(k & ? & ? & ?)]; [by left|right]. exists k. set_solver.
  - destruct H as (_ & _ & ->). destruct x; [|done]. split; try done. intros n _ [Hn|(k & ? & ? & ?)]; [by left|right]. exists k. set_solver.
  - destruct (w_ops g !! id) as [[op f]|]; [|done]. destruct (w_ran g !! id); [|done]. apply learn_frame.
  - destruct x as [[f|]|]; simpl; try done; split; try done; simpl; naive_solver.
  - destruct x as [[h|]|]; try done. destruct (is_held h); [|done]. by split.
  - destruct x as [[r|]|]; try done. apply learn_frame.
  - destruct x as [[[sz sha] mg]|]; try done. apply learn_frame.
  - destruct x as [code|]; [|done]. destruct (w_ops g !! id) as [[op f]|] eqn:Ho; [|done].
    destruct (loads op && (code =? 0)%Z) eqn:El; [|by split].
    apply andb_true_iff in El as [El _]. split; try done. simpl. intros Hd. rewrite Hd in H.
    destruct H as (op' & f' & [= <- <-] & H). congruence.
Qed.

Lemma may_help_stable m g g' op f :
  rframe m g g' → (loads op = true → q_names m = control_planes) → may_help g op f → may_help g' op f.
Proof.
  intros [Hd _ Hh _ _ _ _ _ _ Hq] Hl. unfold may_help, w_phase, w_plan. rewrite Hd.
  destruct (loads op); [|done]. intros (H1 & H2 & H3 & H4). split_and!; auto.
  intros n Hn. apply Hq; [by rewrite Hl|by apply H3].
Qed.

Lemma loaded_stable m g g' p : rframe m g g' → q_db m = true → loaded g p → loaded g' p.
Proof. intros Hf Hm H name Hn. rewrite (rf_loaded _ _ _ Hf Hm). by apply H. Qed.

Lemma floored_stable m g g' p : rframe m g g' → floored g p → floored g' p.
Proof. intros Hf (s & Hs & Hfl). exists s. split; [done|]. by apply (rf_floor _ _ _ Hf). Qed.

Lemma may_run_stable m g g' : rframe m g g' → q_db m = true → may_run g → may_run g'.
Proof.
  intros Hf Hm. unfold may_run, w_phase, w_plan. rewrite (rf_dur _ _ _ Hf). intros (? & ? & Hl & Hfl).
  split_and!; [done|done|by eapply loaded_stable|by eapply floored_stable].
Qed.

Lemma rok_stable m {I X} g g' (e : eff I X) : rframe m g g' → rok m g e → rok m g' e.
Proof.
  intros Hf. unfold rok. intros [Hm H]. split; [by rewrite (rf_maybe _ _ _ Hf)|].
  assert (w_phase g' = w_phase g) as Hp by (unfold w_phase, w_plan; by rewrite (rf_dur _ _ _ Hf)).
  assert (w_plan g' = w_plan g) as Hpl by (unfold w_plan; by rewrite (rf_dur _ _ _ Hf)).
  destruct e; try done; rewrite ?Hp, ?Hpl, ?(rf_dur _ _ _ Hf).
  - exact H.
  - destruct (is_helper spec).
    + destruct H as (? & H & Hl). split_and!; [done| |done]. eapply may_help_stable; [done| |done]. intros. by apply Hl.
    + destruct H as [Hs (Hr & Hsp & im & v & s & Hi & ? & ? & ?)]. split; [done|]. unfold may_create.
      rewrite Hpl, (rf_dur _ _ _ Hf). split_and!; [by eapply may_run_stable; [done|apply Hs|]|done|].
      exists im, v, s. split_and!; [by apply (rf_facts _ _ _ Hf)|done|by apply (rf_floor _ _ _ Hf)|done].
  - destruct H as [(op & f & Ho & H & Hl)|(Hs & Ho & H)]; [left|right].
    + exists op, f. split_and!; [by apply (rf_ops _ _ _ Hf)| |done].
      eapply may_help_stable; [done| |done]. intros. by apply Hl.
    + destruct Hs as (? & ? & Hh). split_and!; [done|by rewrite (rf_help _ _ _ Hf Hh)|by eapply may_run_stable].
  - destruct H as [? H]. split; [done|]. by apply (rf_hold _ _ _ Hf).
  - destruct H as (? & H & ?). split_and!; [done|by apply (rf_hold _ _ _ Hf)|done].
  - destruct H as [[x Hx]|[H|(? & Hl & ?)]].
    + left. exists x. by apply (rf_ops _ _ _ Hf).
    + right; left. by apply (rf_stale _ _ _ Hf).
    + right; right. split_and!; [done| |done]. by eapply loaded_stable.
  - destruct H as (H & ? & ?). split; [by eapply may_run_stable|done].
  - exact H.
  - exact H.
  - exact H.
  - destruct (q_db m); destruct H as (op & f & Ho & Hl); exists op, f; (split; [by apply (rf_ops _ _ _ Hf)|done]).
  - destruct H as (H & ? & ?). split; [by eapply may_run_stable|done].
Qed.

(** The frame of each mode. *)
Program Definition restore_frame (m : mode) (I : Type) : Frame (rwatch I) :=
  mkFrame I RWorld (rwatch I) (rframe m) _ (λ X g e, rok m g e) _ _ _ _.
Next Obligation. intros. by eapply rok_requires. Qed.
Next Obligation. intros. by apply rok_advance. Qed.
Next Obligation. intros. by eapply rok_stable. Qed.
Next Obligation. intros m I X g e d [H _]. by split. Qed.
