(* ===== verification/RestoreProofs.v ===== *)
(** * The phases of a restore

    Each procedure of [Restore] against the monitor of [RestoreSpec]. *)
From S2P Require Import Prelude Platform Wire Journal Settle Effects Replace DumpDir Database Restore RestoreSpec Frames RestoreRules.

(** A restore this process drives: its journal is the durable one. *)
Record at_rs (g : RWorld) (j : Journal) (p : RestoreJ) : Prop := mkAtRs {
  ar_maybe : w_maybe g = None;
  ar_dur : w_dur g = j;
  ar_open : is_open j = true;
  ar_steps : j_steps j = [];
  ar_restore : j_restore j = Some p;
  ar_wf : plan_wf p }.

Lemma at_rs_frame m g g' j p : at_rs g j p → rframe m g g' → at_rs g' j p.
Proof. intros [] []. split; congruence. Qed.

Lemma at_plan g j p : at_rs g j p → w_plan g = p.
Proof. intros H. unfold w_plan, plan_of. by rewrite (ar_dur _ _ _ H), (ar_restore _ _ _ H). Qed.

Lemma at_phase g j p : at_rs g j p → w_phase g = r_phase p.
Proof. intros H. unfold w_phase. by rewrite (at_plan _ _ _ H). Qed.

Lemma plan_of_some j p : j_restore j = Some p → plan_of j = p.
Proof. unfold plan_of. by intros ->. Qed.

(** A mode that keeps more. *)
Lemma rframe_weaken m m' g g' :
  (∀ n, n ∈ q_names m → n ∈ q_names m') → (q_db m = true → q_db m' = true) → (q_help m = false → q_help m' = false) →
  rframe m' g g' → rframe m g g'.
Proof. intros Hn Hd Hh []. split; auto. Qed.

(** Closes [fr_ok] for the calls anybody may make, and for looks at other names. *)
Lemma rok_quiet m {I X} g j p (e : eff I X) :
  at_rs g j p → (w_maybe g = None → rok m g e) → rok m g e.
Proof. intros H He. apply He, H. Qed.

Ltac r_ok := eapply rok_quiet; [eassumption|intros Hmaybe; split; [exact Hmaybe|try exact Logic.I]].

(** Carries [at_rs] over a frame. *)
Ltac r_next :=
  match goal with
  | Hf : frame (restore_frame ?m _) ?g ?g', Hat : at_rs ?g _ _ |- _ =>
      change (rframe m g g') in Hf;
      let H := fresh "Hat" in pose proof (at_rs_frame _ _ _ _ _ Hat Hf) as H
  | Hf : rframe _ ?g ?g', Hat : at_rs ?g _ _ |- _ =>
      lazymatch goal with H : at_rs g' _ _ |- _ => fail | _ => idtac end;
      let H := fresh "Hat" in pose proof (at_rs_frame _ _ _ _ _ Hat Hf) as H
  end.

(** One step of a procedure of such calls. *)
Ltac r_step :=
  match goal with
  | |- wp _ _ (retrying _ (call _)) _ (keeps_frame _ _) => apply kf_retry; r_ok
  | |- wp _ _ (call _) _ (keeps_frame _ _) => apply kf_call; r_ok
  | |- wp _ _ (Ret _) _ (keeps_frame _ _) => apply kf_ret
  | |- wp _ _ (map_errp _ _) _ (keeps_frame _ _) => apply kf_map_errp
  | |- wp _ _ (bind_ok _ _) _ (keeps_frame _ _) => apply kf_bind_ok; [|intros ? ? ?; r_next]
  | |- wp _ _ (bind _ _) _ (keeps_frame _ _) => apply kf_bind; [|intros ? ? ?; r_next]
  | |- wp _ _ (let _ := _ in _) _ _ => cbv zeta
  | |- wp _ _ (match ?x with _ => _ end) _ _ => destruct x
  end.

Lemma helper_no_control_plane : NAME_DB_HELPER ∉ control_planes.
Proof. intros H. apply (bool_decide_eq_true_2 _) in H. by vm_compute in H. Qed.

Section proofs.
Context {I : Type} `{!ReplaceDeps I} {DD : DumpDeps} (cfg : Config).
Implicit Types (j : Journal) (p : RestoreJ) (g : RWorld).

(** This process's own container has another name. *)
Hypothesis Hself : ∀ me, self_container cfg = Some me → me ∉ control_planes.

Local Abbreviation WP q g Q := (wp (rwatch I) True q g Q).
Local Abbreviation F m := (restore_frame m I).

(** ** The database helper *)

Lemma machine_host_dir_kf m g j p : at_rs g j p → WP (machine_host_dir cfg) g (keeps_frame (F m) g).
Proof.
  intros Hat. unfold machine_host_dir. destruct (machine_dir_host cfg); [apply kf_ret|].
  destruct (self_container cfg) as [me|] eqn:Hme; cbn [ok_or]; [|apply kf_ret].
  change (bind_ok (Ret (Ok me)) ?f) with (f me). cbv beta.
  repeat r_step. intros Hc. exfalso. by eapply Hself.
Qed.

Lemma helper_image_kf m machine g j p : at_rs g j p → WP (helper_image machine) g (keeps_frame (F m) g).
Proof. intros Hat. unfold helper_image. repeat r_step. Qed.

(** What a helper of an operation on a file is. *)
Definition helps (op : DbOp) (file : option string) (spec : ContainerSpec) : Prop :=
  is_helper spec = true ∧
  helper_of spec = (op_label op, if reads_file op then (λ f, DUMPS_MOUNT +:+ "/" +:+ f) <$> file else None).

(** [do? x <- Ret r; ...] *)
Lemma gives_let {A B E} m (P : B → RWorld → Prop) (r : result A E) (f : A → prog I (result B E)) g :
  (∀ a, r = Ok a → WP (f a) g (gives (F m) P g)) → WP (bind_ok (Ret r) f) g (gives (F m) P g).
Proof. destruct r as [a|e]; intros Hr; [by apply Hr|]. by apply gives_ret. Qed.

Lemma helper_spec_gives m machine op file g j p :
  at_rs g j p → WP (helper_spec cfg machine op file) g (gives (F m) (λ spec _, helps op file spec) g).
Proof.
  intros Hat. unfold helper_spec. apply gives_let. intros d _.
  apply gives_skip; [apply kf_map_errp; by eapply helper_image_kf|]. intros image g1 Hf1. r_next. cbv zeta.
  assert (database_env d !! DUMP_FILE_ENV = None) as Hno by (by destruct d).
  unfold helps, helper_of. destruct (reads_file op) eqn:Er.
  - apply gives_let. intros f Hf. destruct file as [f0|]; [|done]. injection Hf as ->.
    apply gives_skip; [by eapply machine_host_dir_kf|]. intros dir g2 Hf2. r_next.
    apply gives_ret. split; [done|]. simpl. by rewrite lookup_insert_eq.
  - apply gives_ret. split; [done|]. simpl. by rewrite Hno.
Qed.

(** When a helper may run in a mode, and what its run leaves. *)
Definition helper_mode (m : mode) (op : string) : Prop :=
  q_help m = true ∧ if loads op then q_names m = control_planes ∧ q_db m = false else q_db m = true.

Definition helped (op : string) (file : option string) (x : Z * string) (g : RWorld) : Prop :=
  Helped op file x.1 x.2 ∈ w_facts g ∧ (loads op = true → x.1 = 0%Z → w_loaded g = file).

(** Once it ended. *)
Definition after_helper (m : mode) : mode := mkMode (q_names m) true false.

Lemma helped_frame m op f x g g' : rframe (after_helper m) g g' → helped op f x g → helped op f x g'.
Proof.
  intros Hf [H1 H2]. split; [by apply (rf_facts _ _ _ Hf)|]. intros. rewrite (rf_loaded _ _ _ Hf eq_refl). auto.
Qed.

Lemma after_frame m g g' : rframe (after_helper m) g g' → rframe m g g'.
Proof. apply rframe_weaken; done. Qed.

Lemma helper_ran_gives m id spec timeout op f g j p :
  at_rs g j p → helper_mode m op → may_help g op f → w_ops g !! id = Some (op, f) →
  WP (helper_ran id spec timeout) g (gives (F m) (helped op f) g).
Proof.
  intros Hat [Hh Hm] Hmay Ho. unfold helper_ran.
  apply gives_skip.
  { apply kf_map_errp, kf_call. r_ok. left. exists op, f. split_and!; [done|done|]. intros Hl. by rewrite Hl in Hm. }
  intros _u g1 Hf1. r_next. apply (rf_ops _ _ _ Hf1) in Ho.
  apply wp_bind, (fr_call (F m)).
  { r_ok. destruct (q_db m); exists op, f; (split; [done|]); [destruct (loads op); [by destruct Hm|done]|].
    intros Hl. unfold may_help in Hmay. rewrite Hl in Hmay.
    rewrite (at_phase _ _ _ ltac:(eassumption)), <-(at_phase _ _ _ Hat). apply Hmay. }
  intros w Hw Hf2. change (advance_ghost (rwatch I) g1 (WaitContainer id timeout) w) with (r_advance g1 (WaitContainer (I:=I) id timeout) w) in *.
  change (frame (F m) ?a ?b) with (rframe m a b) in *.
  destruct w as [code|er]; [|by destruct er as [[]| |]].
  assert (w_ops (r_advance g1 (WaitContainer (I:=I) id timeout) (Ok code)) !! id = Some (op, f)
    ∧ w_ran (r_advance g1 (WaitContainer (I:=I) id timeout) (Ok code)) !! id = Some code
    ∧ (loads op = true → code = 0%Z → w_loaded (r_advance g1 (WaitContainer (I:=I) id timeout) (Ok code)) = f)) as (Ho2 & Hr2 & Hl2).
  { cbn [r_advance]. rewrite Ho. destruct (loads op) eqn:El, (Z.eqb_spec code 0); simpl;
      split_and!; rewrite ?lookup_insert_eq; done. }
  set (g2 := r_advance g1 _ _) in *. clearbody g2. r_next.
  apply wp_bind, (fr_call (F m)); [by r_ok|].
  intros logs _ Hf3. change (advance_ghost (rwatch I) g2 ?e logs) with (r_advance g2 e logs) in *.
  cbn [r_advance] in *. rewrite Ho2, Hr2 in *.
  destruct logs as [out|[| |]]; (split; [by do 2 (etransitivity; [eassumption|])|]); try done; (split; [by left|done]).
Qed.

Lemma run_helper_gives m spec timeout op f g j p :
  at_rs g j p → helper_mode m op → may_help g op f → is_helper spec = true → helper_of spec = (op, f) →
  WP (run_helper spec timeout) g (gives (F m) (helped op f) g).
Proof.
  intros Hat Hm Hmay Hs Ho. unfold run_helper. cbv zeta.
  assert (cs_name spec = NAME_DB_HELPER) as Hn by (by apply str_eqb_true).
  assert (∀ g1, rframe m g g1 → may_help g1 op f) as Hmay'.
  { intros g1 H1. eapply may_help_stable; [done| |done]. intros Hl. destruct Hm as [_ Hm]. rewrite Hl in Hm. apply Hm. }
  apply (gives_bind_ok (F m) True (λ o g', ∀ c, o = Some c → c_id c ∈ w_stale g')).
  { apply gives_map_errp, gives_call.
    - r_ok. intros Hc. rewrite Hn in Hc. by apply helper_no_control_plane in Hc.
    - intros o _ c ->. change (c_id c ∈ w_stale (r_advance g (InspectContainer (I:=I) (cs_name spec)) (Ok (Some c)))).
      cbn [r_advance]. unfold w_see. rewrite Hn, bool_decide_eq_false_2 by apply helper_no_control_plane.
      rewrite str_eqb_refl. simpl. set_solver. }
  intros stale g1 Hst Hf1. r_next. apply gives_skip.
  { destruct stale as [c|]; [|apply kf_ret]. case_bool_decide; [|apply kf_ret].
    apply kf_map_errp, kf_call. r_ok. right; left. by apply Hst. }
  intros _u g2 Hf2. r_next.
  apply (gives_bind_ok (F m) True (λ id g', w_ops g' !! id = Some (op, f))).
  { apply gives_map_errp, gives_call.
    - r_ok. rewrite Hs, Ho. split_and!; [apply Hm|apply Hmay'; by etransitivity|].
      simpl. intros Hl. destruct Hm as [_ Hm]. by rewrite Hl in Hm.
    - intros id Ha. change (w_ops (r_advance g2 (CreateContainer (I:=I) spec) (Ok id)) !! id = Some (op, f)).
      cbn [r_advance]. rewrite Hs. simpl. by rewrite lookup_insert_eq, Ho. }
  intros id g3 Hid Hf3. r_next. apply wp_bind. eapply wp_mono.
  { eapply helper_ran_gives; [eassumption|done| |done]. apply Hmay'. by do 2 (etransitivity; [eassumption|]). }
  intros ran g4 [Hf4 H4]. change (frame (F m) ?a ?b) with (rframe m a b) in *. r_next.
  assert (is_Some (w_ops g4 !! id)) as Hid4 by (eexists; by apply (rf_ops _ _ _ Hf4)).
  assert (WP (do r <- call (RemoveContainer id); Ret (match r with Err Crashed => Err DbCrashed | _ => ran end)) g4
    (gives (F m) (helped op f) g3)) as Hrest.
  { apply wp_bind, (fr_call (F (after_helper m))); [r_ok; by left|]. intros r _ Hf5.
    change (frame (F (after_helper m)) ?a ?b) with (rframe (after_helper m) a b) in *.
    split; [by etransitivity; [exact Hf4|apply after_frame]|].
    destruct r as [|[| |]], ran as [x|]; try done; by eapply helped_frame. }
  destruct ran as [x|[|why]]; [exact Hrest| |exact Hrest]. by split.
Qed.

Lemma ensure_image_gives m failed image g j p :
  at_rs g j p → WP (ensure_image failed image) g (gives (F m) (λ im g', Labelled (reference image) im ∈ w_facts g') g).
Proof.
  intros Hat. unfold ensure_image. cbv zeta.
  assert (∀ g1 h, at_rs g1 j p → WP (map_errp h (call (InspectImage (reference image)))) g1
    (gives (F m) (λ o g', ∀ im, o = Some im → Labelled (reference image) im ∈ w_facts g') g1 : result _ DbError → _ → _)) as Hask.
  { intros g1 h Hat1. apply gives_map_errp, gives_call; [by r_ok|]. intros o _ im ->. by left. }
  eapply gives_bind_ok; [by apply Hask|]. intros o g1 H1 Hf1. r_next.
  destruct o as [im|]; [apply gives_ret; by apply H1|].
  apply gives_skip; [repeat r_step|]. intros _u g2 Hf2. r_next.
  eapply gives_bind_ok; [by apply Hask|]. intros o g3 H3 Hf3.
  apply gives_ret. destruct o; simpl; [by apply H3|done].
Qed.

Lemma run_db_gives m machine op file g j p :
  at_rs g j p → helper_mode m (op_label op) →
  may_help g (op_label op) (if reads_file op then (λ f, DUMPS_MOUNT +:+ "/" +:+ f) <$> file else None) →
  WP (run_db cfg machine op file) g
    (gives (F m) (helped (op_label op) (if reads_file op then (λ f, DUMPS_MOUNT +:+ "/" +:+ f) <$> file else None)) g).
Proof.
  intros Hat Hm Hmay. unfold run_db.
  eapply gives_bind_ok; [by eapply helper_spec_gives|]. intros spec g1 [Hs Ho] Hf1. r_next.
  apply gives_let. intros image _.
  apply gives_skip; [eapply gives_keeps; by eapply ensure_image_gives|]. intros im g2 Hf2. r_next.
  eapply run_helper_gives; [eassumption|done| |done|done].
  eapply may_help_stable; [by etransitivity; [exact Hf1|exact Hf2]| |done].
  intros Hl. destruct Hm as [_ Hm]. rewrite Hl in Hm. apply Hm.
Qed.
End proofs.
