(* ===== verification/RestoreLoading.v ===== *)
(** * Checking, stopping and loading

    The phases of a restore before the control plane is replaced. *)
From S2P Require Import Prelude Platform Wire Journal Settle Effects DumpDir Replace Database Frames Restore RestoreSpec RestoreRules RestoreProofs.

(** * What checking a restore establishes

    [check_restore] reads only, and succeeds only when the dump (or the live database) is what
    the plan says and belongs to the control plane that will be started. *)

(** What is being restored was found whole, at schema [s]. *)
Definition sourced (g : RWorld) (p : RestoreJ) (s : Schema) : Prop :=
  ∃ out, parse_schema out = Some s ∧
    match r_dump p with
    | Some name =>
        Helped (op_label DbInspect) (Some (dump_path name)) 0 out ∈ w_facts g ∧
        ∃ sha, Examined (name +:+ ".dump") sha true ∈ w_facts g ∧
          (r_imported p = true ∨ ∃ rec, Recorded name rec ∈ w_facts g ∧ dr_sha256 rec = sha)
    | None => Helped (op_label DbSchema) None 0 out ∈ w_facts g
    end ∧ schema_kept p (sch_version s).

(** The control plane to start, at its recipe revision and schema. *)
Definition targeted (g : RWorld) (p : RestoreJ) (rev target : Z) : Prop :=
  book_supports ControlPlane rev = true ∧
  ∃ im, Labelled (reference (r_control_plane p)) im ∈ w_facts g ∧ image_schema im = Some target.

Lemma sourced_frame m g g' p s : rframe m g g' → sourced g p s → sourced g' p s.
Proof.
  intros Hf (out & Hp & H & Hsk). pose proof (rf_facts _ _ _ Hf) as Hk. exists out. split; [done|]. split; [|done].
  destruct (r_dump p); [|by apply Hk].
  destruct H as (H1 & sha & H2 & H3). split; [by apply Hk|]. exists sha. split; [by apply Hk|].
  destruct H3 as [?|(rec & H3 & ?)]; [by left|]. right. exists rec. split; [by apply Hk|done].
Qed.

Lemma targeted_frame m g g' p rev t : rframe m g g' → targeted g p rev t → targeted g' p rev t.
Proof. intros Hf (? & im & H & ?). split; [done|]. exists im. split; [by apply (rf_facts _ _ _ Hf)|done]. Qed.

(** What [check_target] and [check_match] mean. *)
Lemma check_target_ok p im rev t :
  check_target p im = Ok (rev, t) → book_supports ControlPlane rev = true ∧ image_schema im = Some t.
Proof.
  unfold check_target. intros H.
  destruct (match r_recipe_revision p with Some r => Ok r | None => _ end) as [r|]; [|done]. simpl in H.
  destruct (book_supports ControlPlane r) eqn:E; [|done]. simpl in H.
  destruct (image_schema im); [|done]. simpl in H. by injection H as <- <-.
Qed.

Lemma check_match_ok p s t :
  check_match p s t = Ok tt →
  sch_dirty s = false ∧ if r_imported p then (sch_version s <= t)%Z else sch_version s = t.
Proof.
  unfold check_match. destruct (sch_dirty s); [done|]. intros H. split; [done|].
  destruct (r_imported p); [destruct (Z.leb_spec (sch_version s) t)|destruct (Z.eqb_spec (sch_version s) t)]; done.
Qed.

Section proofs.
Context {I : Type} `{!ReplaceDeps I} {DD : DumpDeps} (cfg : Config).
Implicit Types (j : Journal) (p : RestoreJ) (g : RWorld).
Hypothesis Hself : ∀ me, self_container cfg = Some me → me ∉ control_planes.

Local Abbreviation WP q g Q := (wp (rwatch I) True q g Q).
Local Abbreviation F := (restore_frame checking_mode I).

(** Looking at the control planes is allowed while checking. *)
Lemma r_look n g j p : at_rs g j p → r_phase p = RpChecking → rok checking_mode g (InspectContainer (I:=I) n).
Proof. intros Hat Hp. r_ok. intros _. split; [by intros ?%elem_of_nil|]. by rewrite (at_phase _ _ _ Hat), Hp. Qed.

Lemma may_help_checking g j p op f :
  at_rs g j p → r_phase p = RpChecking → op = DbInspect ∨ op = DbSchema → may_help g (op_label op) f.
Proof. intros Hat Hp Hop. unfold may_help. rewrite (at_phase _ _ _ Hat), Hp. destruct Hop as [->| ->]; simpl; auto. Qed.

Lemma restore_machine_kf m g j p : at_rs g j p → WP (restore_machine (I:=I)) g (keeps_frame (restore_frame m I) g).
Proof. intros Hat. unfold restore_machine. repeat r_step. Qed.

Lemma no_control_plane_running_kf names g j p :
  at_rs g j p → r_phase p = RpChecking → WP (no_control_plane_running names) g (keeps_frame F g).
Proof.
  intros Hat Hp. revert g Hat. induction names as [|n names IH]; intros g Hat; cbn [no_control_plane_running]; [r_step|].
  apply kf_bind_ok; [apply kf_map_errp, kf_call; by eapply r_look|]. intros c g1 Hf. r_next.
  match goal with |- context [if ?b then _ else _] => destruct b end; [r_step|]. by apply IH.
Qed.

Lemma check_owner_kf machine names g j p :
  at_rs g j p → r_phase p = RpChecking → WP (check_owner machine names) g (keeps_frame F g).
Proof.
  intros Hat Hp. revert g Hat. induction names as [|n names IH]; intros g Hat; cbn [check_owner]; [r_step|].
  apply kf_bind_ok; [apply kf_map_errp, kf_call; by eapply r_look|]. intros c g1 Hf. r_next.
  destruct c as [c|]; [|by apply IH]. destruct (negb _); [r_step|]. by apply IH.
Qed.

(** The dump's record, unless it is an import. *)
Definition record_known (p : RestoreJ) (name : string) (o : option DumpRecord) (g : RWorld) : Prop :=
  match o with Some r => Recorded name r ∈ w_facts g | None => r_imported p = true end.

Lemma check_dump_gives machine name g j p :
  at_rs g j p → r_phase p = RpChecking → r_dump p = Some name →
  WP (check_dump cfg machine name p) g (gives F (λ s g', sourced g' p s) g).
Proof.
  intros Hat Hp Hd. unfold check_dump.
  apply (gives_bind_ok F True (record_known p name)).
  { destruct (r_imported p) eqn:Ei; [by apply gives_ret|].
    apply (gives_bind_ok F True (λ o g', ∀ r, o = Some r → Recorded name r ∈ w_facts g')).
    { apply gives_map_errp, gives_call; [by r_ok|]. intros o _ r ->. by left. }
    intros o g1 H1 Hf1. apply gives_let. intros r Hr. apply gives_ret. apply H1. destruct o; [by injection Hr as ->|done]. }
  intros record g1 H1 Hf1. r_next.
  apply (gives_bind_ok F True (λ ex g', Examined (name +:+ ".dump") ex.1.2 ex.2 ∈ w_facts g')).
  { apply gives_map_errp, gives_call; [by r_ok|]. intros [[sz sha] mg] _. by left. }
  intros [[sz sha] mg] g2 H2 Hf2. r_next. change (F.(frame) ?a ?b) with (rframe checking_mode a b) in Hf2. simpl in H2.
  destruct mg; [|by apply gives_ret]. cbn [negb].
  destruct (match record with Some r => negb (str_eqb (dr_sha256 r) sha) | None => false end) eqn:Esha; [by apply gives_ret|].
  apply (gives_bind_ok F True (helped (op_label DbInspect) (Some (dump_path name)))).
  { apply gives_map_errp. apply (run_db_gives cfg Hself _ machine DbInspect (Some (name +:+ ".dump")) _ j p); [done|done|].
    eapply may_help_checking; [done|done|by auto]. }
  intros [code out] g3 [H3 _] Hf3. r_next. cbn [fst snd] in H3.
  destruct (Z.eqb_spec code 0) as [->|]; [|by apply gives_ret]. cbn [negb].
  apply gives_let. intros s Hs. apply gives_ret. assert (parse_schema out = Some s) as Ho.
  { destruct (parse_schema out); [by injection Hs as ->|done]. }
  assert (schema_kept p (sch_version s) → sourced g3 p s) as Hsrc.
  { intros Hk. exists out. rewrite Hd. split_and!; [done|done| |done]. exists sha.
    change (frame F ?a ?b) with (rframe checking_mode a b) in *.
    split; [by apply (rf_facts _ _ _ Hf3)|].
    destruct record as [r|]; [right|by left]. exists r.
    split; [by apply (rf_facts _ _ _ Hf3), (rf_facts _ _ _ Hf2)|]. apply negb_false_iff in Esha. by apply str_eqb_true. }
  unfold schema_kept in Hsrc. destruct (r_schema_version p) as [e|]; [|by apply Hsrc].
  destruct (Z.eqb_spec e (sch_version s)) as [->|]; [|done]. apply Hsrc. by intros ? _ [= <-].
Qed.

Lemma check_source_gives machine g j p :
  at_rs g j p → r_phase p = RpChecking →
  WP (check_source cfg machine p) g (gives F (λ s g', sourced g' p s) g).
Proof.
  intros Hat Hp. unfold check_source. destruct (r_dump p) as [name|] eqn:Hd; [by eapply check_dump_gives|].
  apply gives_skip; [by eapply no_control_plane_running_kf|]. intros _u g1 Hf1. r_next.
  apply (gives_bind_ok F True (helped (op_label DbSchema) None)).
  { apply gives_map_errp. apply (run_db_gives cfg Hself _ machine DbSchema None _ j p); [done|done|].
    eapply may_help_checking; [done|done|by auto]. }
  intros [code out] g2 [H2 _] Hf2. cbn [fst snd] in H2. apply gives_ret.
  destruct (parse_schema out) as [s|] eqn:Hs; [|done]. destruct (Z.eqb_spec code 0) as [->|]; [|done].
  exists out. unfold schema_kept. rewrite Hd. split_and!; [done|done|by intros ? []].
Qed.

(** The plan [check_restore] leaves. *)
Definition check_post (j : Journal) (p : RestoreJ) (j' : Journal) (g : RWorld) : Prop :=
  ∃ rev s target, j' = set_restore (rs_checked rev s target p) j ∧ checked g (rs_checked rev s target p) ∧ schema_kept p s.

Lemma checked_of g p s rev t :
  sourced g p s → targeted g p rev t → check_match p s t = Ok tt →
  checked g (rs_checked rev (sch_version s) (if r_imported p then Some t else r_migrates_to p) p).
Proof.
  intros (out & Hs & Hsrc & _) (Hrev & im & Him & Ht) [Hd Hm]%check_match_ok.
  exists im, t, out, s, rev. split_and!; try done. simpl. by destruct (r_imported p).
Qed.

Lemma check_restore_gives g j p :
  at_rs g j p → r_phase p = RpChecking → WP (check_restore cfg j) g (gives F (check_post j p) g).
Proof.
  intros Hat Hp. unfold check_restore.
  apply gives_skip; [apply kf_map_errp; by eapply restore_machine_kf|]. intros machine g1 Hf1. r_next.
  cbv zeta. rewrite (plan_of_some _ _ (ar_restore _ _ _ Hat)).
  eapply gives_bind_ok; [by eapply gives_map_errp, ensure_image_gives|]. intros im g2 H2 Hf2. r_next.
  apply gives_let. intros [rev t] Ht. apply check_target_ok in Ht as [Hrev Ht].
  assert (targeted g2 p rev t) as Htg by (split; [done|by exists im]).
  eapply gives_bind_ok; [by eapply check_source_gives|]. intros s g3 H3 Hf3. r_next.
  change (frame F ?a ?b) with (rframe checking_mode a b) in *. pose proof (targeted_frame _ _ _ _ _ _ Hf3 Htg) as Htg3.
  apply gives_let. intros [] Hm.
  pose proof (checked_of _ _ _ _ _ H3 Htg3 Hm) as Hck.
  apply gives_skip.
  { destruct (owned_database _); [|apply kf_ret]. apply kf_bind_ok; [apply kf_map_errp, kf_call; by eapply r_look|].
    intros. apply kf_ret. }
  intros _u g4 Hf4. r_next. apply gives_skip; [by eapply check_owner_kf|]. intros _u' g5 Hf5.
  apply gives_ret. exists rev, (sch_version s), (if r_imported p then Some t else r_migrates_to p).
  unfold update_plan. rewrite (plan_of_some _ _ (ar_restore _ _ _ Hat)). split_and!; [done| |by destruct H3 as (? & _ & _ & ?)].
  eapply checked_of; [eapply sourced_frame; [exact Hf5|by eapply sourced_frame; [exact Hf4|]]| |done].
  eapply targeted_frame; [exact Hf5|]. by eapply targeted_frame; [exact Hf4|].
Qed.
End proofs.

(** * Stopping the control planes and loading the dump

    The hold is on disk before anything is stopped, both names are quiet before the database is
    touched, and the database is replaced by a helper that ran to its end. *)

(** The mode in which the names of [done] stay quiet. *)
Definition quiet_mode (done : list string) : mode := mkMode done true false.

(** Calls on one container, which leave what is known of the names. *)
Record stop_frame (d : list string) (g g' : RWorld) : Prop := mkStopFrame {
  sf_rframe : rframe (quiet_mode d) g g';
  sf_named : w_named g' = w_named g;
  sf_norestart : w_norestart g ⊆ w_norestart g' }.

#[global] Instance stop_frame_preorder d : PreOrder (stop_frame d).
Proof.
  split; [intros g; by split|]. intros g1 g2 g3 [H1 H2 H3] [H4 H5 H6].
  split; [by etransitivity|congruence|by etransitivity].
Qed.

Definition stop_call {I X} (e : eff I X) : bool :=
  match e with StopContainer _ _ | SetRestartPolicy _ _ | Sleep _ => true | _ => false end.

Program Definition stopping_frame (d : list string) (I : Type) : Frame (rwatch I) :=
  mkFrame I RWorld (rwatch I) (stop_frame d) _ (λ X g e, rok (quiet_mode d) g e ∧ stop_call e = true) _ _ _ _.
Next Obligation. intros d I X g e [H _]. by eapply rok_requires. Qed.
Next Obligation.
  intros d I X g e x [H Hs] Ha. split; [by apply rok_advance| |];
    destruct e; try done; destruct H as [_ H]; cbn [advance_ghost rwatch r_advance].
  - by destruct x.
  - destruct H as (_ & _ & ->). by destruct x.
  - destruct x; simpl; set_solver.
  - destruct H as (_ & _ & ->). destruct x; simpl; set_solver.
Qed.
Next Obligation. intros d I X g g' e [Hf _ _] [H Hs]. split; [by eapply rok_stable|done]. Qed.
Next Obligation. intros d I X g e t [[H _] _]. by repeat split. Qed.

Section proofs.
Context {I : Type} `{!ReplaceDeps I} {DD : DumpDeps} (cfg : Config).
Implicit Types (j : Journal) (p : RestoreJ) (g : RWorld).
Hypothesis Hself : ∀ me, self_container cfg = Some me → me ∉ control_planes.

Local Abbreviation WP q g Q := (wp (rwatch I) True q g Q).

(** ** [stopping] *)

Lemma stop_one_gives d n c g j p :
  at_rs g j p → r_phase p = RpStopping → w_hold g = true →
  w_named g !! n = Some (Some (c_id c)) → (c_restart c = Some RestartNo → c_id c ∈ w_norestart g) →
  WP (stop_one cfg c) g (gives (stopping_frame d I) (λ _ g', quiet g' n) g).
Proof.
  intros Hat Hp Hh Hn Hr. unfold stop_one. pose proof (ar_maybe _ _ _ Hat) as Hmb.
  assert (w_phase g = RpStopping) as Hw by (by rewrite (at_phase _ _ _ Hat)).
  apply (gives_bind_ok (stopping_frame d I) True (λ _ g', c_id c ∈ w_norestart g')).
  { case_bool_decide; [apply gives_ret; auto|]. apply gives_map_errp, gives_retry; [done|].
    intros g1 [] _ _. cbn [advance_ghost rwatch r_advance w_with_stopped w_norestart]. set_solver. }
  intros _u g1 Hnr Hf1. change (stop_frame d g g1) in Hf1. destruct Hf1 as [Hf1 Hn1 _].
  pose proof (at_rs_frame _ _ _ _ _ Hat Hf1) as Hat1.
  assert (w_phase g1 = RpStopping) as Hw1 by (by rewrite (at_phase _ _ _ Hat1)).
  apply gives_map_errp, gives_retry.
  { split; [|done]. split; [apply Hat1|]. split; [done|]. by apply (rf_hold _ _ _ Hf1). }
  intros g2 [] Hf2 _. change (stop_frame d g1 g2) in Hf2. destruct Hf2 as [_ Hn2 Hr2].
  right. exists (c_id c). cbn [advance_ghost rwatch r_advance w_with_stopped w_norestart w_halted w_named].
  rewrite Hn2, Hn1. set_solver.
Qed.

Lemma stop_control_planes_gives names : ∀ d g j p,
  at_rs g j p → r_phase p = RpStopping → w_hold g = true →
  NoDup (d ++ names) → (∀ n, n ∈ names → n ∈ control_planes) →
  WP (stop_control_planes cfg names) g
    (gives (restore_frame (quiet_mode d) I) (λ _ g', ∀ n, n ∈ names → quiet g' n) g).
Proof.
  induction names as [|n names IH]; intros d g j p Hat Hp Hh Hnd Hc; cbn [stop_control_planes].
  { apply gives_ret. by intros n ?%elem_of_nil. }
  assert ((n ∉ d) ∧ NoDup ((d ++ [n]) ++ names)) as [Hnew Hnd'].
  { rewrite <-app_assoc. split; [|done]. apply NoDup_app in Hnd as (_ & H & _). intros Hin.
    apply (H n Hin). by left. }
  assert (∀ g1, rframe (quiet_mode d) g g1 → quiet g1 n →
    WP (stop_control_planes cfg names) g1
      (gives (restore_frame (quiet_mode d) I) (λ _ g', ∀ m, m ∈ n :: names → quiet g' m) g1)) as Hrest.
  { intros g1 Hf Hq. eapply wp_mono.
    { apply (IH (d ++ [n]) g1 j p); [by eapply at_rs_frame|done|by apply (rf_hold _ _ _ Hf)|done|].
      intros m Hm. apply Hc. by right. }
    intros r g2 [Hf2 H2]. change (rframe (quiet_mode (d ++ [n])) g1 g2) in Hf2. split.
    - eapply rframe_weaken, Hf2; simpl; [set_solver|done|done].
    - destruct r; [|done]. intros m [->|Hm]%elem_of_cons; [|by apply H2].
      apply (rf_quiet _ _ _ Hf2); [|done]. simpl. set_solver. }
  assert (n ∈ control_planes) as Hcp by (apply Hc; by left).
  apply (gives_bind_ok _ True (λ o g', w_named g' !! n = Some (c_id <$> o) ∧
    ∀ c, o = Some c → c_restart c = Some RestartNo → c_id c ∈ w_norestart g')).
  { apply gives_map_errp, gives_retry.
    - r_ok. intros _. split; [done|]. by rewrite (at_phase _ _ _ Hat), Hp.
    - intros g1 o _ _. cbn [advance_ghost rwatch r_advance]. unfold w_see. rewrite bool_decide_eq_true_2 by done.
      destruct o as [c|]; [case_bool_decide as Hr|]; simpl; rewrite lookup_insert_eq; (split; [done|]); try done;
        intros c' [= <-]; [set_solver|done]. }
  intros o g1 [Hn Hr] Hf1. r_next. eapply (gives_bind_ok _ True (λ _ g', quiet g' n)).
  { destruct o as [c|]; [|apply gives_ret; by left].
    eapply wp_mono; [eapply (stop_one_gives d n); [done|done|by apply (rf_hold _ _ _ Hf1)|done|by apply Hr]|].
    intros r g2 [[Hf2 _ _] H2]. by split. }
  intros [] g2 Hq Hf2. apply Hrest; [|done]. by etransitivity.
Qed.

(** The hold is placed, or the process gives up. *)
Lemma place_hold_spec j g p :
  at_rs g j p → r_phase p = RpStopping →
  WP (place_hold j) g (λ r g', match r with Ok _ => at_rs g' j p ∧ w_hold g' = true | Err h => h = Died end).
Proof.
  intros Hat Hp. unfold place_hold. pose proof (ar_maybe _ _ _ Hat) as Hm.
  apply wp_bind, wp_call; [by split|]. intros h _. cbn [advance_ghost rwatch r_advance].
  assert (∀ g1, at_rs g1 j p → WP (do now <- call NowStamp;
    map_errp (λ _ : string, Died) (call (StoreHold (mkHold RestoreIncomplete now (Some (request_id (j_request j)))))))
    g1 (λ r g', match r with Ok _ => at_rs g' j p ∧ w_hold g' = true | Err h => h = Died end)) as Hstore.
  { intros g1 Hat1. pose proof (ar_maybe _ _ _ Hat1) as Hm1. split; [by split|]. intros now _.
    split; [split; [done|split; [exact (eq_trans (at_phase _ _ _ Hat1) Hp)|done]]|]. intros [[]|e] _; [|done]. split; [|done].
    destruct Hat1. by split. }
  destruct h as [[h|]|e]; try by apply Hstore. unfold is_held. case_bool_decide; [|by apply Hstore].
  split; [|done]. destruct Hat. by split.
Qed.

Lemma stop_for_restore_spec j g p :
  at_rs g j p → r_phase p = RpStopping →
  WP (stop_for_restore cfg j) g (λ r g',
    match r with Ok _ => at_rs g' j p ∧ w_hold g' = true ∧ all_quiet g' | Err Died => True | Err (HFail _) => at_rs g' j p end).
Proof.
  intros Hat Hp. unfold stop_for_restore. apply wp_bind_ok.
  eapply wp_mono; [by eapply place_hold_spec|]. intros [[]|h] g1 H1; [|by rewrite H1]. destruct H1 as [Hat1 Hh1].
  eapply wp_mono; [eapply (stop_control_planes_gives control_planes []); [done|done|done| |done]|].
  { apply (bool_decide_eq_true_1 _). by vm_compute. }
  intros r g2 [Hf2 H2]. change (rframe (quiet_mode []) g1 g2) in Hf2.
  pose proof (at_rs_frame _ _ _ _ _ Hat1 Hf2) as Hat2.
  destruct r as [|[]]; [|done..]. split_and!; [done|by apply (rf_hold _ _ _ Hf2)|done].
Qed.

(** ** [loading] *)

Lemma set_floor_spec m schema rid g j p :
  at_rs g j p →
  (∀ g' f, at_rs g' j p → rframe m g g' → floor_schema f = schema → r_requires g' (StoreFloor (I:=I) f)) →
  WP (map_errp (λ _, Died) (set_floor schema rid)) g
    (λ r g', match r with Ok _ => at_rs g' j p ∧ w_floor g' = Some schema ∧
                            w_loaded g' = w_loaded g ∧ w_hold g' = w_hold g ∧ w_facts g' = w_facts g
             | Err h => h = Died end).
Proof.
  intros Hat Hreq. unfold set_floor. pose proof (ar_maybe _ _ _ Hat) as Hm.
  split; [by split|]. intros now _. cbn [advance_ghost rwatch r_advance].
  split; [by apply Hreq|]. intros [[]|e] _; [|done]. simpl. split; [|done]. destruct Hat. by split.
Qed.

Definition load_post (j : Journal) (p : RestoreJ) (r : result unit Halt) (g : RWorld) : Prop :=
  match r with
  | Ok _ => at_rs g j p ∧ loaded g p ∧ floored g p
  | Err Died => True
  | Err (HFail _) => at_rs g j p
  end.

Lemma gives_spec {A} m (P : A → RWorld → Prop) (q : prog I (result A Halt)) g j p Q :
  at_rs g j p → WP q g (gives (restore_frame m I) P g) →
  (∀ a g', rframe m g g' → P a g' → Q (Ok a) g') → (∀ h g', rframe m g g' → at_rs g' j p → Q (Err h) g') →
  WP q g Q.
Proof.
  intros Hat Hq HQ HE. eapply wp_mono; [exact Hq|]. intros [a|h] g' [Hf HP]; change (rframe m g g') in Hf; [by apply HQ|].
  apply HE; [done|]. by eapply at_rs_frame.
Qed.

Lemma load_into_spec j g p :
  at_rs g j p → r_phase p = RpLoading → w_hold g = true → all_quiet g → is_Some (r_dump p) →
  WP (load_into cfg j) g (load_post j p).
Proof.
  intros Hat Hp Hh Hq [name Hd]. unfold load_into. cbv zeta. rewrite (plan_of_some _ _ (ar_restore _ _ _ Hat)), Hd.
  cbn [default from_option]. set (op := if r_imported p then DbImport else DbLoad).
  assert (reads_file op = true ∧ loads (op_label op) = true) as [Hrd Hl] by (unfold op; by destruct (r_imported p)).
  apply wp_bind_ok. eapply (gives_spec loading_mode (λ _ _, True)); [done| | |by intros [] ? ? ?].
  { eapply wp_mono; [by eapply kf_map_errp, restore_machine_kf|]. intros [] g' H; by split. }
  intros machine g1 Hf1 _. pose proof (at_rs_frame _ _ _ _ _ Hat Hf1) as Hat1.
  apply wp_bind_ok. eapply (gives_spec loading_mode (helped (op_label op) (Some (dump_path name)))); [done| | |by intros [] ? ? ?].
  { apply gives_map_errp. pose proof (run_db_gives cfg Hself loading_mode machine op (Some (name +:+ ".dump")) g1 j p Hat1) as Hdb.
    rewrite Hrd in Hdb. apply Hdb; [split; [done|by rewrite Hl]|]. unfold may_help. rewrite Hl, (at_phase _ _ _ Hat1).
    split_and!; [done|by apply (rf_hold _ _ _ Hf1)|intros n Hn; apply (rf_quiet _ _ _ Hf1); [done|by apply Hq]|].
    exists name. by rewrite (at_plan _ _ _ Hat1). }
  intros [code out] g2 Hf2 [_ H2]. pose proof (at_rs_frame _ _ _ _ _ Hat1 Hf2) as Hat2. cbn [fst] in H2.
  destruct (Z.eqb_spec code 0) as [->|]; [|exact Hat2]. cbn [negb].
  assert (is_Some (r_schema_version p)) as [s Hs] by (apply (ar_wf _ _ _ Hat); by rewrite Hp).
  assert (loaded g2 p) as Hld by (intros n Hn; rewrite Hd in Hn; injection Hn as <-; by apply H2).
  eapply wp_mono; [eapply (set_floor_spec still_mode); [exact Hat2|]|].
  - intros g3 f Hat3 Hf3 Hf. split; [intros _; apply Hat3|]. left. rewrite (at_phase _ _ _ Hat3), (at_plan _ _ _ Hat3), Hf, Hs.
    split_and!; [done|by eapply loaded_stable|done].
  - intros [[]|h] g3 H3; [|by rewrite H3]. destruct H3 as (Hat3 & Hfl & Hl3 & _). split_and!; [done| |].
    + intros n Hn. rewrite Hl3. by apply Hld.
    + exists s. rewrite Hfl, Hs. done.
Qed.
End proofs.
