(* ===== verification/RestoreStarting.v ===== *)
(** * Starting what was restored

    A control plane is created and started only on a database that wholly holds what was
    restored, and only if it is of the schema the floor allows. *)
From S2P Require Import Prelude Platform Wire Journal Settle Effects Replace DumpDir Database Restore RestoreSpec Frames RestoreRules RestoreProofs RestoreLoading.

Section proofs.
Context {I : Type} `{!ReplaceDeps I} {DD : DumpDeps} (cfg : Config).
Implicit Types (j : Journal) (p : RestoreJ) (g : RWorld).
Hypothesis Hself : ∀ me, self_container cfg = Some me → me ∉ control_planes.
(** A rendered control plane is named as one. *)
Hypothesis Hrender : ∀ rev i image secrets spec,
  render ControlPlane rev i image secrets = Ok spec → cs_name spec = container_name ControlPlane.

Local Abbreviation WP q g Q := (wp (rwatch I) True q g Q).
Local Abbreviation F := (restore_frame starting_mode I).

(** A restore at [starting], with nothing of the database missing. *)
Record starts (g : RWorld) (j : Journal) (p : RestoreJ) : Prop := mkStarts {
  ss_at : at_rs g j p;
  ss_phase : r_phase p = RpStarting;
  ss_loaded : loaded g p }.

Lemma starts_frame m g g' j p : q_db m = true → starts g j p → rframe m g g' → starts g' j p.
Proof. intros Hm [] Hf. split; [by eapply at_rs_frame|done|by eapply loaded_stable]. Qed.

Lemma starts_may_run g j p : starts g j p → r_fresh_install p = false → floored g p → may_run g.
Proof.
  intros [Hat Hp Hl] Hf Hfl. unfold may_run. by rewrite (at_phase _ _ _ Hat), (at_plan _ _ _ Hat).
Qed.

Lemma look_starting n g j p : starts g j p → rok starting_mode g (InspectContainer (I:=I) n).
Proof.
  intros [Hat Hp _]. r_ok. intros _. split; [by intros ?%elem_of_nil|]. by rewrite (at_phase _ _ _ Hat), Hp.
Qed.

(** ** The control plane's container *)

Lemma schema_allows_gives im ref g j p s :
  at_rs g j p → w_floor g = Some s →
  WP (schema_allows (I:=I) im ref) g (gives F (λ _ _, ∃ v, image_schema im = Some v ∧ (s <= v)%Z) g).
Proof.
  intros Hat Hs. unfold schema_allows. apply wp_bind, (fr_call F); [by r_ok|].
  intros f Hf Hfr. destruct f as [f|]; [|by split]. specialize (Hf s Hs).
  destruct f as [f|]; [|done]. injection Hf as Hf.
  destruct (image_schema im) as [v|]; [|by split].
  destruct (Z.leb_spec (floor_schema f) v); (split; [done|]); [|done]. exists v. split; [done|lia].
Qed.

Lemma stored_secrets_kf m names files g j p :
  at_rs g j p → WP (stored_secrets (I:=I) names files) g (keeps_frame (restore_frame m I) g).
Proof.
  intros Hat. revert files g Hat. induction names as [|n names IH]; intros files g Hat; cbn [stored_secrets]; [r_step|].
  apply kf_bind_ok; [apply kf_call; by r_ok|]. intros v g1 Hf. r_next. by apply IH.
Qed.

Lemma create_restored_gives machine g j p :
  starts g j p → r_fresh_install p = false → floored g p →
  WP (create_restored cfg machine p (request_id (j_request j))) g (gives F (λ id g', w_ops g' !! id = None) g).
Proof.
  intros Hst Hfr (s & Hsch & Hs). pose proof (ss_at _ _ _ Hst) as Hat. unfold create_restored.
  assert (∀ g', rframe starting_mode g g' → may_run g') as Hrun.
  { intros g' Hf. eapply may_run_stable; [exact Hf|done|]. apply (starts_may_run g j p); [done..|by exists s]. }
  eapply gives_bind_ok; [by eapply gives_map_errp, ensure_image_gives|]. intros im g1 H1 Hf1. r_next.
  change (frame F ?a ?b) with (rframe starting_mode a b) in *.
  eapply gives_bind_ok; [eapply gives_map_errp, schema_allows_gives; [done|by apply (rf_floor _ _ _ Hf1)]|].
  intros _u g2 (v & Hv & Hsv) Hf2. r_next. cbv zeta.
  apply gives_skip.
  { apply kf_map_errp. unfold control_plane_secrets. apply kf_bind_ok; [by eapply stored_secrets_kf|]. intros. apply kf_ret. }
  intros secrets g3 Hf3. r_next. apply gives_let. intros spec Hspec.
  assert (cs_name spec = container_name ControlPlane) as Hname.
  { destruct (render _ _ _ _ _) eqn:E; [|done]. simpl in Hspec. injection Hspec as ->. by eapply Hrender. }
  assert (rframe starting_mode g g3) as H03 by (do 2 (etransitivity; [eassumption|]); exact Hf3).
  apply gives_skip.
  { destruct (sm_volume secrets); [|apply kf_ret]. apply kf_map_errp, kf_call. r_ok.
    split_and!; [by apply Hrun|done|]. by rewrite (at_plan _ _ _ ltac:(eassumption)). }
  intros _u4 g4 Hf4. r_next. assert (rframe starting_mode g g4) as H04 by (etransitivity; [exact H03|exact Hf4]).
  apply gives_skip.
  { apply kf_map_errp. unfold record. apply kf_bind; [apply kf_call; by r_ok|]. intros now g5 Hf5. r_next.
    apply kf_call. r_ok. split_and!; [apply Hrun; by etransitivity|done|done|].
    by rewrite (at_plan _ _ _ ltac:(eassumption)). }
  intros _u5 g5 Hf5. r_next. assert (rframe starting_mode g g5) as H05 by (etransitivity; [exact H04|exact Hf5]).
  assert (is_helper (spec_add_label LABEL_ATTEMPT (request_id (j_request j)) spec) = false) as Hnh.
  { unfold is_helper. change (cs_name (spec_add_label _ _ spec)) with (cs_name spec). by rewrite Hname. }
  apply gives_map_errp, gives_retry.
  - r_ok. rewrite Hnh. split; [done|]. split; [by apply Hrun|].
    rewrite (ar_dur _ _ _ ltac:(eassumption)), (at_plan _ _ _ ltac:(eassumption)). split; [by eexists|].
    exists im, v, s. split_and!; [|done|by apply (rf_floor _ _ _ H05)|done].
    assert (rframe starting_mode g1 g5) as H15 by (do 3 (etransitivity; [eassumption|]); exact Hf5).
    by apply (rf_facts _ _ _ H15).
  - intros g6 id Hf6 [Ha _]. cbn [advance_ghost rwatch r_advance]. by rewrite Hnh.
Qed.

(** ** The other control planes *)

Lemma remove_others_kf rid names g j p :
  starts g j p → WP (remove_others cfg rid names) g (keeps_frame F g).
Proof.
  intros Hst. revert g Hst. induction names as [|n names IH]; intros g Hst; cbn [remove_others]; [apply kf_ret|].
  apply kf_bind_ok; [apply kf_map_errp, kf_retry; by eapply look_starting|]. intros c g1 Hf1.
  assert (starts g1 j p) as Hst1 by (by eapply (starts_frame starting_mode)).
  apply kf_bind_ok.
  - destruct c as [c|]; [|apply kf_ret]. case_bool_decide; [apply kf_ret|].
    apply kf_map_errp, kf_retry. destruct Hst1 as [Hat Hp Hl]. r_ok. right; right.
    by rewrite (at_phase _ _ _ Hat), (at_plan _ _ _ Hat).
  - intros _u g2 Hf2. apply IH. by eapply (starts_frame starting_mode).
Qed.

(** ** A fresh install *)

(** What starting leaves, however it ends short of the process. *)
Definition still_starts {A} (P : A → RWorld → Prop) (j : Journal) (p : RestoreJ) (r : result A Halt) (g : RWorld) : Prop :=
  match r with
  | Ok a => starts g j p ∧ P a g
  | Err Died => True
  | Err (HFail _) => starts g j p
  end.

Lemma still_skip {A B} (P : A → RWorld → Prop) (Q : B → RWorld → Prop) (q : prog I (result A Halt))
    (f : A → prog I (result B Halt)) g j p :
  WP q g (still_starts P j p) → (∀ a g', starts g' j p → P a g' → WP (f a) g' (still_starts Q j p)) →
  WP (bind_ok q f) g (still_starts Q j p).
Proof.
  intros Hq Hf. apply wp_bind_ok. eapply wp_mono; [exact Hq|].
  intros [a|h] g' H'; [by apply Hf; apply H'|by destruct h].
Qed.

Lemma still_gives {A} m (P : A → RWorld → Prop) (q : prog I (result A Halt)) g j p :
  q_db m = true → starts g j p → WP q g (gives (restore_frame m I) P g) → WP q g (still_starts P j p).
Proof.
  intros Hm Hst Hq. eapply wp_mono; [exact Hq|]. intros r g' [Hf H]. change (rframe m g g') in Hf.
  pose proof (starts_frame _ _ _ _ _ Hm Hst Hf). by destruct r as [|[]].
Qed.

(** The floor is at [target] or above, or was not written. *)
Lemma rs_raise_floor_spec target rid g j p :
  starts g j p → r_fresh_install p = true → r_migrates_to p = Some target →
  WP (raise_floor (I:=I) target rid) g (λ r g', match r with
    | Ok _ => starts g' j p ∧ ∃ f, w_floor g' = Some f ∧ (target <= f)%Z
    | Err _ => True
    end).
Proof.
  intros Hst Hfr Ht. unfold raise_floor. pose proof (ar_maybe _ _ _ (ss_at _ _ _ Hst)) as Hm.
  assert (∀ g1 k, starts g1 j p → WP (do now <- call NowStamp; call (StoreFloor (mkSchemaFloor target k now))) g1
    (λ r g', match r with
      | Ok _ => starts g' j p ∧ ∃ f, w_floor g' = Some f ∧ (target <= f)%Z
      | Err _ => True
      end)) as Hstore.
  { intros g1 k Hst1. destruct Hst1 as [Hat1 Hp1 Hl1]. pose proof (ar_maybe _ _ _ Hat1) as Hm1.
    split; [by split|]. intros now _. split.
    - split; [done|]. right; right.
      rewrite (at_phase _ _ _ Hat1 : w_phase (advance_ghost (rwatch I) g1 NowStamp now) = _),
        (at_plan _ _ _ Hat1 : w_plan (advance_ghost (rwatch I) g1 NowStamp now) = _). done.
    - intros [[]|e] _; [|done]. split; [|exists target; by simpl]. split; [|done|exact Hl1]. destruct Hat1. by split. }
  apply wp_bind_ok, wp_call; [by split|]. intros [f|e] Hf; [|done]. cbn [advance_ghost rwatch r_advance].
  assert (starts (w_with_floor (floor_schema <$> f) g) j p) as Hst1.
  { destruct Hst as [Hat Hp Hl]. split; [|done|exact Hl]. destruct Hat. by split. }
  destruct f as [f|]; [|by apply Hstore]. destruct (Z.leb_spec target (floor_schema f)); [|by apply Hstore].
  split; [done|]. by exists (floor_schema f).
Qed.

Lemma start_fresh_spec machine g j p :
  starts g j p → r_fresh_install p = true →
  WP (start_fresh machine p (request_id (j_request j))) g (still_starts (λ _ _, True) j p).
Proof.
  intros Hst Hfr. unfold start_fresh.
  assert (is_Some (r_migrates_to p)) as [t Ht].
  { destruct Hst as [Hat Hp _]. pose proof (ar_wf _ _ _ Hat) as Hw. apply Hw; [by rewrite Hp|].
    by rewrite <-(pw_fresh _ Hw). }
  rewrite Ht. apply (still_skip (λ _ g', ∃ f, w_floor g' = Some f ∧ (t <= f)%Z)).
  { apply wp_map_errp. eapply wp_mono; [by eapply rs_raise_floor_spec|]. by intros [[]|e] g1 H1. }
  intros _u g1 [Hat1 Hp1 Hl1] Hfl. pose proof (ar_maybe _ _ _ Hat1) as Hm1.
  apply (still_skip (λ _ g', ∃ f, w_floor g' = Some f ∧ (t <= f)%Z)).
  { apply wp_map_errp, wp_call.
    - split; [done|]. rewrite (at_phase _ _ _ Hat1), (at_plan _ _ _ Hat1). auto.
    - intros [[]|e] _; [|done]. split; [|exact Hfl]. split; [|done|exact Hl1]. destruct Hat1. by split. }
  intros _u' g2 [Hat2 Hp2 Hl2] (f & Hf & Htf). pose proof (ar_maybe _ _ _ Hat2) as Hm2.
  apply wp_map_errp, wp_call.
  - split; [done|]. rewrite (at_phase _ _ _ Hat2), (at_plan _ _ _ Hat2). split_and!; [done..|]. eauto.
  - intros r _. assert (starts (w_with_named ∅ g2) j p) as Hst2.
    { split; [|done|exact Hl2]. destruct Hat2. by split. }
    by destruct r as [|[]].
Qed.

(** ** The control plane that was running *)

(** A journal with another plan, and nothing else. *)
Record rs_edited (j : Journal) (p : RestoreJ) (j' : Journal) : Prop := mkRsEdited {
  re_restore : j_restore j' = Some p;
  re_steps : j_steps j' = j_steps j;
  re_request : j_request j' = j_request j;
  re_result : j_result j' = j_result j }.

Lemma edited_same g j p : at_rs g j p → rs_edited j p j.
Proof. intros []. by split. Qed.

Lemma rs_edited_update j p j1 f : rs_edited j p j1 → rs_edited j (f p) (update_plan f j1).
Proof. intros []. unfold update_plan. rewrite (plan_of_some _ p) by done. by split. Qed.

Definition start_post (j : Journal) (p : RestoreJ) (j' : Journal) (_ : RWorld) : Prop :=
  ∃ c, rs_edited j (rs_set_new c p) j'.

(** The database is not Quasar's: the floor is put at the schema that was read. *)
Lemma external_floor_spec g j p :
  starts g j p →
  (is_Some (r_dump p) → r_fresh_install p = false → floored g p) →
  WP (match r_dump p, r_schema_version p with
      | None, Some schema => map_errp (λ _, Died) (set_floor schema (request_id (j_request j)))
      | _, _ => Ret (Ok tt)
      end) g (still_starts (λ _ g', r_fresh_install p = false → floored g' p) j p).
Proof.
  intros Hst Hfl. destruct (r_dump p) as [n|] eqn:Hd; [split; [done|by apply Hfl; eexists]|].
  destruct Hst as [Hat Hp Hl].
  assert (is_Some (r_schema_version p)) as [s Hs] by (apply (ar_wf _ _ _ Hat); by rewrite Hp).
  rewrite Hs. eapply wp_mono; [eapply (set_floor_spec starting_mode); [exact Hat|]|].
  - intros g' f Hat' Hf' Hfs. split; [intros _; apply Hat'|]. right; left.
    by rewrite (at_phase _ _ _ Hat'), (at_plan _ _ _ Hat'), Hfs.
  - intros [[]|h] g' H'; [|by rewrite H']. destruct H' as (Hat' & Hfl' & Hl' & _).
    split; [split; [done|done|intros n Hn; rewrite Hl'; by apply Hl]|]. intros _. exists s. by rewrite Hfl'.
Qed.

Lemma start_restored_spec g j p :
  starts g j p → (is_Some (r_dump p) → r_fresh_install p = false → floored g p) →
  WP (start_restored cfg j) g (still_starts (start_post j p) j p).
Proof.
  intros Hst Hfl. unfold start_restored. cbv zeta. rewrite (plan_of_some _ _ (ar_restore _ _ _ (ss_at _ _ _ Hst))).
  apply wp_bind_ok. eapply wp_mono.
  { eapply (kf_map_errp F), (restore_machine_kf starting_mode), Hst. }
  intros r g1 Hf1. change (rframe starting_mode g g1) in Hf1.
  assert (starts g1 j p) as Hst1 by (by eapply (starts_frame starting_mode)).
  destruct r as [machine|h]; [|by destruct h]. 
  eapply still_skip; [apply external_floor_spec; [done|]|].
  { intros H1 H2. eapply floored_stable; [done|by apply Hfl]. }
  intros _u g2 Hst2 Hfl2. destruct (r_fresh_install p) eqn:Hfr.
  { eapply still_skip; [by apply start_fresh_spec|]. intros _u' g3 Hst3 _.
    split; [done|]. exists (r_new_container p). destruct p. by eapply edited_same, Hst3. }
  specialize (Hfl2 eq_refl). eapply (still_gives starting_mode); [done|done|].
  apply gives_skip; [by eapply remove_others_kf|]. intros _u3 g3 Hf3. change (rframe starting_mode g2 g3) in Hf3.
  assert (starts g3 j p) as Hst3 by (by eapply (starts_frame starting_mode)).
  apply (gives_bind_ok F True (λ o g', ∀ c, o = Some c → w_ops g' !! c_id c = None)).
  { apply gives_map_errp, gives_retry; [by eapply look_starting|]. intros g4 o Hf4 Ha c ->.
    cbn [advance_ghost rwatch r_advance]. unfold w_see. rewrite bool_decide_eq_true_2 by (by left).
    assert (w_ops g4 !! c_id c = None) by (apply Ha; by left). by case_bool_decide. }
  intros o g4 Ho Hf4. change (rframe starting_mode g3 g4) in Hf4.
  assert (starts g4 j p) as Hst4 by (by eapply (starts_frame starting_mode)).
  assert (floored g4 p) as Hfl4 by (do 2 (eapply floored_stable; [eassumption|]); done).
  apply (gives_bind_ok F True (λ id g', w_ops g' !! id = None)).
  { destruct o as [c|]; [case_bool_decide|]; [apply gives_ret; by apply Ho| |];
      by eapply create_restored_gives. }
  intros id g5 Hid Hf5. change (rframe starting_mode g4 g5) in Hf5.
  assert (starts g5 j p) as Hst5 by (by eapply (starts_frame starting_mode)).
  apply gives_skip.
  { apply kf_map_errp, kf_retry. split; [apply Hst5|]. right. split_and!; [done|done|].
    eapply starts_may_run; [done|done|]. by eapply floored_stable. }
  intros _u6 g6 Hf6. apply gives_ret. exists (Some id). apply rs_edited_update. by eapply edited_same, Hst5.
Qed.
End proofs.
