(* ===== verification/RestoreRun.v ===== *)
(** * A restore from its start to its outcome

    The phases of [run_restore], each against its edge of the abstract machine, and its two
    ends. *)
From S2P Require Import Prelude Platform Wire Journal Settle Effects Replace DumpDir Database Restore RestoreSpec Frames RestoreRules RestoreProofs RestoreLoading RestoreStarting.

(** What is known at a phase, in this life and after a restart. *)
Definition phase_ok (g : RWorld) (p : RestoreJ) : Prop :=
  match r_phase p with
  | RpLoading => w_hold g = true ∧ all_quiet g
  | RpStarting => loaded g p ∧ (is_Some (r_dump p) → r_fresh_install p = false → floored g p)
  | RpVerifying | RpDone => loaded g p
  | _ => True
  end.

Lemma entered_ok g p : entered g p → phase_ok g p.
Proof.
  unfold entered, phase_ok. destruct (r_phase p); try done.
  destruct (r_dump p) eqn:Hd; [by intros [? ?]|]. intros _. split; [intros n Hn; congruence|by intros [? ?]].
Qed.

Section proofs.
Context {I : Type} `{!ReplaceDeps I} {DD : DumpDeps} {NN : NodeName I} (cfg : Config).
Implicit Types (j : Journal) (p : RestoreJ) (g : RWorld).
Hypothesis Hself : ∀ me, self_container cfg = Some me → me ∉ control_planes.
Hypothesis Hrender : ∀ rev i image secrets spec,
  render ControlPlane rev i image secrets = Ok spec → cs_name spec = container_name ControlPlane.

Local Abbreviation WP q g Q := (wp (rwatch I) True q g Q).
Local Abbreviation F m := (restore_frame m I).

Lemma verify_loop_kf fuel d g j p :
  at_rs g j p → r_phase p = RpVerifying → WP (verify_restored_loop (I:=I) cfg fuel d) g (keeps_frame (F starting_mode) g).
Proof.
  intros Hat Hp. revert g Hat. induction fuel as [|fuel IH]; intros g Hat; cbn [verify_restored_loop]; [done|].
  apply kf_bind.
  { apply kf_call. r_ok. intros _. split; [by intros ?%elem_of_nil|]. by rewrite (at_phase _ _ _ Hat), Hp. }
  intros r g1 Hf1. r_next. apply kf_bind_ok; [apply kf_ret|]. intros last g2 Hf2. r_next.
  destruct last as [last|]; [|apply kf_ret].
  apply kf_bind; [apply kf_call; by r_ok|]. intros t g3 Hf3. r_next.
  destruct (d <=? t)%Z; [apply kf_ret|].
  apply kf_bind; [apply kf_call; by r_ok|]. intros _u g4 Hf4. r_next. by apply IH.
Qed.

Lemma verify_restored_kf fuel g j p :
  at_rs g j p → r_phase p = RpVerifying → WP (verify_restored (I:=I) cfg fuel) g (keeps_frame (F starting_mode) g).
Proof.
  intros Hat Hp. unfold verify_restored. apply kf_bind; [apply kf_call; by r_ok|]. intros t g1 Hf1. r_next.
  by eapply verify_loop_kf.
Qed.

(** ** Writing the journal *)

Lemma commit_rs_spec g j p p1 j1 :
  at_rs g j p → rs_edited j p1 j1 → rs_edge p p1 → plan_wf p1 → entered g p1 →
  WP (commit j1) g (λ r g', match r with Ok j' => at_rs g' j' p1 ∧ entered g' p1 | Err _ => True end).
Proof.
  intros Hat [E1 E2 E3 E4] He Hw Hen. unfold commit.
  apply wp_bind, (fr_call (F starting_mode)); [by r_ok|]. intros k _ _. cbn [advance_ghost rwatch r_advance].
  destruct k; [done|].
  apply wp_bind, (fr_call (F starting_mode)); [by r_ok|]. intros now _ _. cbn [advance_ghost rwatch r_advance]. cbv zeta.
  destruct (project_fields j1) as (P1 & P2 & P3).
  set (j' := set_result (set_updated_at now (j_result (project j1))) (project j1)).
  assert (is_open j' = true) as Ho.
  { transitivity (is_open (project j1)); [done|]. rewrite project_is_open. unfold is_open. rewrite E4. apply Hat. }
  assert (j_restore j' = Some p1) as Hr by (simpl; congruence).
  apply wp_bind, wp_call.
  - split; [intros _; apply Hat|]. rewrite (ar_dur _ _ _ Hat). split.
    + eapply rs_moved; [apply Hat|apply Hat|done|done|done|done|simpl; congruence|simpl; congruence].
    + intros _. by rewrite (plan_of_some _ _ Hr).
  - intros [u|e] _; [|done]. split; [|done].
    split; [done|done|done|simpl; rewrite P1, E2; apply Hat|done|done].
Qed.

Lemma finish_rs_spec g j p st reason text :
  at_rs g j p →
  (st = StSucceeded ∧ r_phase p = RpDone ∨ st = StFailed ∧ is_Some reason ∧ r_phase p ≠ RpDone) →
  WP (finish (set_format FORMAT j) st reason text false) g (λ _ _, True).
Proof.
  intros Hat Hst. unfold finish.
  apply wp_bind, (fr_call (F starting_mode)); [by r_ok|]. intros k _ _. cbn [advance_ghost rwatch r_advance].
  destruct k; [done|].
  apply wp_bind, (fr_call (F starting_mode)); [by r_ok|]. intros now _ _. cbn [advance_ghost rwatch r_advance]. cbv zeta.
  set (j' := finished_journal _ _ _ _ _ _).
  assert (j_restore j' = Some p) as Hr by apply Hat.
  assert (j_steps j' = j_steps j) as Hsteps.
  { change (finish_steps st (j_steps j) = j_steps j). by rewrite (ar_steps _ _ _ Hat). }
  apply wp_bind, wp_call.
  - split; [intros _; apply Hat|]. rewrite (ar_dur _ _ _ Hat). split.
    + destruct Hst as [[-> Hp]|(-> & Hre & Hp)];
        [eapply rs_succeeded; [apply Hat|apply Hat|done|done|done|done|done|done]
        |eapply rs_failed; [apply Hat|apply Hat|done|done|done|done|done|done]].
    + intros Ho. by destruct Hst as [[-> _]|(-> & _)].
  - intros [u|e] _; [|done]. cbn [advance_ghost rwatch r_advance].
    split; [by split|]. intros _u _. split; [by split|]. intros _u' _. done.
Qed.

Lemma remove_import_kf m g j p :
  at_rs g j p → WP (remove_import (I:=I) p) g (keeps_frame (F m) g).
Proof.
  intros Hat. unfold remove_import. destruct (r_imported p) eqn:Hi; [|apply kf_ret].
  destruct (r_dump p) as [n|] eqn:Hd; [|apply kf_ret].
  apply kf_bind; [|intros; apply kf_ret]. apply kf_call. r_ok. by rewrite (at_plan _ _ _ Hat).
Qed.

Lemma clear_hold_spec g j p :
  at_rs g j p → r_phase p = RpStarting ∨ r_phase p = RpVerifying ∨ r_phase p = RpDone → loaded g p →
  WP (call ClearHold) g (λ _ g', at_rs g' j p).
Proof.
  intros Hat Hp Hl. apply wp_call.
  - split; [intros _; apply Hat|]. by rewrite (at_phase _ _ _ Hat), (at_plan _ _ _ Hat).
  - intros r _. destruct Hat. by split.
Qed.

(** ** The ends *)

Lemma mark_restored_kf g j p :
  at_rs g j p → r_phase p = RpDone →
  WP (mark_restored (I:=I) p (request_id (j_request j))) g (keeps_frame (F starting_mode) g).
Proof.
  intros Hat Hp. unfold mark_restored. apply kf_bind.
  - destruct (r_dump p); [|apply kf_ret]. apply kf_bind; [apply kf_call; by r_ok|].
    intros r g1 Hf1. r_next. destruct r as [[r|]|]; try apply kf_ret. case_bool_decide; [apply kf_ret|].
    apply kf_bind; [apply kf_call; by r_ok|]. intros now g2 Hf2. r_next.
    apply kf_bind; [|intros; apply kf_ret]. apply kf_call. r_ok.
    by rewrite (at_phase _ _ _ Hat1), (ar_dur _ _ _ Hat1).
  - intros _u g1 Hf1. r_next. apply kf_bind; [apply kf_call; by r_ok|]. intros q g2 Hf2. r_next.
    destruct q as [[q|]|]; try apply kf_ret. destruct (went_back p q); [|apply kf_ret].
    apply kf_bind; [|intros; apply kf_ret]. apply kf_call. r_ok. by rewrite (at_phase _ _ _ Hat1).
Qed.

Lemma finish_restore_spec g j p :
  at_rs g j p → r_phase p = RpDone → loaded g p → WP (finish_restore j) g (λ _ _, True).
Proof.
  intros Hat Hp Hl. unfold finish_restore. cbv zeta. rewrite (plan_of_some _ _ (ar_restore _ _ _ Hat)).
  apply wp_bind_ok, wp_map_errp. eapply wp_mono; [by apply (clear_hold_spec g j p); auto|]. intros [u|e] g1 Hat1; [|done]. simpl.
  eapply fr_bind; [by eapply mark_restored_kf|]. intros _u g2 Hf2. r_next.
  eapply fr_bind; [by eapply (remove_import_kf starting_mode)|]. intros _u' g3 Hf3. r_next.
  eapply (fr_bind (F starting_mode)).
  { destruct (r_dump p); [|apply kf_ret]. destruct (r_imported p); [|apply kf_ret]. by eapply restore_machine_kf. }
  intros m g4 Hf4. r_next. eapply finish_rs_spec; [eassumption|]. by left.
Qed.

Lemma import_text_kf at_ m g j p : at_rs g j p → WP (import_text (I:=I) at_ p) g (keeps_frame (F m) g).
Proof. intros Hat. unfold import_text. destruct (r_imported p); repeat r_step. Qed.

Lemma control_plane_tail_kf at_ m g j p : at_rs g j p → WP (control_plane_tail (I:=I) at_ p) g (keeps_frame (F m) g).
Proof.
  intros Hat. unfold control_plane_tail. destruct (restore_touched at_); [|apply kf_ret].
  destruct (r_new_container p); [|apply kf_ret]. repeat r_step.
Qed.

(** What a failure leaves for [fail_restore]. *)
Definition fails_at (g : RWorld) (j : Journal) (p : RestoreJ) : Prop :=
  at_rs g j p ∧ (r_phase p = RpStarting ∨ r_phase p = RpVerifying → loaded g p).

Lemma fail_restore_spec g j p f :
  fails_at g j p → r_phase p ≠ RpDone → WP (fail_restore j (r_phase p) f) g (λ _ _, True).
Proof.
  intros [Hat Hl] Hp. unfold fail_restore. cbv zeta. rewrite (plan_of_some _ _ (ar_restore _ _ _ Hat)).
  apply wp_bind, wp_mono with (Q := λ (_ : unit) g', at_rs g' j p).
  { assert (r_phase p = RpStarting ∨ r_phase p = RpVerifying → WP (do _ <- call ClearHold; Ret tt) g (λ _ g', at_rs g' j p)) as Hc.
    { intros Hs. apply wp_bind. eapply wp_mono; [apply (clear_hold_spec g j p); [done|destruct Hs; auto|by apply Hl]|by intros]. }
    destruct (r_phase p) eqn:E; try done; apply Hc; auto. }
  intros _u g1 Hat1. eapply fr_bind; [by eapply (remove_import_kf starting_mode)|]. intros _u' g2 Hf2. r_next.
  eapply fr_bind; [by eapply (import_text_kf _ starting_mode)|]. intros hint g3 Hf3. r_next.
  eapply fr_bind; [by eapply (control_plane_tail_kf _ starting_mode)|]. intros tail g4 Hf4. r_next.
  eapply finish_rs_spec; [eassumption|]. right. split_and!; [done|by eexists|done].
Qed.

Lemma interrupt_restore_spec g j p :
  at_rs g j p → r_phase p ≠ RpDone → WP (interrupt_restore (I:=I) j) g (λ _ _, True).
Proof.
  intros Hat Hp. unfold interrupt_restore. rewrite (ar_restore _ _ _ Hat).
  eapply fr_bind; [by eapply (remove_import_kf starting_mode)|]. intros _u' g2 Hf2. r_next.
  apply wp_bind_ok. eapply wp_mono; [eapply finish_rs_spec; [eassumption|]|].
  - right. split_and!; [done|by eexists|done].
  - by intros [] g3 _.
Qed.

(** ** The phases *)

Lemma wf_moved p next :
  plan_wf p → (restore_touched next = true → restore_touched (r_phase p) = true) →
  (next = RpLoading → is_Some (r_dump p)) → plan_wf (rs_set_phase next p).
Proof. intros [] Ht Hl. split; simpl; auto. Qed.

Lemma wf_new p c : plan_wf p → plan_wf (rs_set_new c p).
Proof. intros []. by split. Qed.

Lemma wf_checked p rev s t :
  plan_wf p → (r_imported p = true → is_Some t) → plan_wf (rs_set_phase RpStopping (rs_checked rev s t p)).
Proof. intros [_ _ H3 H4 _] Ht. split; simpl; done. Qed.

(** How a phase may end. *)
Definition phase_post (j : Journal) (p : RestoreJ) (r : result (Journal * RestorePhase) Halt) (g : RWorld) : Prop :=
  match r with
  | Ok (j', next) => ∃ p1, at_rs g j p ∧ rs_edited j p1 j' ∧ rs_edge p (rs_set_phase next p1) ∧
      plan_wf (rs_set_phase next p1) ∧ entered g (rs_set_phase next p1)
  | Err Died => True
  | Err (HFail _) => fails_at g j p
  end.

Lemma phase_same g j p next :
  at_rs g j p → rs_edge p (rs_set_phase next p) → plan_wf (rs_set_phase next p) →
  entered g (rs_set_phase next p) → phase_post j p (Ok (j, next)) g.
Proof. intros Hat He Hw Hen. exists p. split_and!; try done. by eapply edited_same. Qed.

Lemma checking_post g j p :
  at_rs g j p → r_phase p = RpChecking →
  WP (do? j' <- check_restore cfg j; Ret (Ok (j', RpStopping))) g (phase_post j p).
Proof.
  intros Hat Hp. apply wp_bind_ok. eapply wp_mono; [by eapply check_restore_gives|].
  intros r g1 [Hf H1]. change (rframe checking_mode g g1) in Hf. pose proof (at_rs_frame _ _ _ _ _ Hat Hf) as Hat1.
  destruct r as [j1|[|f]]; [|done|split; [done|by rewrite Hp; intros []]].
  destruct H1 as (rev & s & t & -> & Hck & Hk). exists (rs_checked rev s t p). split_and!; [done| | | |done].
  - destruct Hat1. by split.
  - unfold rs_edge. rewrite Hp. by exists rev, s, t.
  - apply wf_checked; [apply Hat|]. intros Hi. destruct Hck as (im & tg & out & sc & rv & H).
    cbn [r_imported rs_checked] in H. rewrite Hi in H. destruct H as (_ & _ & _ & _ & _ & _ & _ & _ & _ & H). by eexists.
Qed.

Lemma stopping_post g j p :
  at_rs g j p → r_phase p = RpStopping →
  WP (do? _ <- stop_for_restore cfg j;
      Ret (Ok (j, if bool_decide (is_Some (r_dump p)) then RpLoading else RpStarting))) g (phase_post j p).
Proof.
  intros Hat Hp. apply wp_bind_ok. eapply wp_mono; [by eapply stop_for_restore_spec|].
  intros [u|[|f]] g1 H1; [|done|split; [exact H1|by rewrite Hp; intros []]]. destruct H1 as (Hat1 & Hh & Hq).
  apply phase_same; [done|by unfold rs_edge; rewrite Hp| |].
  - apply wf_moved; [apply Hat|by rewrite Hp|]. by case_bool_decide.
  - unfold entered. case_bool_decide as Hd; simpl; [done|]. destruct (r_dump p); [by destruct Hd|done].
Qed.

Lemma loading_post g j p :
  at_rs g j p → r_phase p = RpLoading → phase_ok g p →
  WP (do? _ <- load_into cfg j; Ret (Ok (j, RpStarting))) g (phase_post j p).
Proof.
  intros Hat Hp Hok. unfold phase_ok in Hok. rewrite Hp in Hok. destruct Hok as [Hh Hq].
  assert (is_Some (r_dump p)) as Hd by (by apply (pw_loading _ (ar_wf _ _ _ Hat))).
  apply wp_bind_ok. eapply wp_mono; [by eapply load_into_spec|].
  intros [u|[|f]] g1 H1; [|done|split; [exact H1|by rewrite Hp; intros []]]. destruct H1 as (Hat1 & Hl & Hf).
  apply phase_same; [done|by unfold rs_edge; rewrite Hp| |].
  - apply wf_moved; [apply Hat|by rewrite Hp|done].
  - unfold entered. simpl. by destruct Hd as [n ->].
Qed.

Lemma starting_post g j p :
  at_rs g j p → r_phase p = RpStarting → phase_ok g p →
  WP (do? j' <- start_restored cfg j; Ret (Ok (j', RpVerifying))) g (phase_post j p).
Proof.
  intros Hat Hp Hok. unfold phase_ok in Hok. rewrite Hp in Hok. destruct Hok as [Hl Hf].
  assert (starts g j p) as Hst by done.
  apply wp_bind_ok. eapply wp_mono; [by apply start_restored_spec|].
  intros [j1|[|f]] g1 H1; [|done|by destruct H1].
  destruct H1 as [[Hat1 _ Hl1] [c Hc]]. exists (rs_set_new c p).
  split_and!; [done|done| | |exact Hl1].
  - unfold rs_edge. rewrite Hp. by exists c.
  - apply wf_moved; [apply wf_new, Hat|by simpl; rewrite Hp|done].
Qed.

Lemma verifying_post fuel g j p :
  at_rs g j p → r_phase p = RpVerifying → phase_ok g p →
  WP (do? _ <- verify_restored cfg fuel; Ret (Ok (j, RpDone))) g (phase_post j p).
Proof.
  intros Hat Hp Hok. unfold phase_ok in Hok. rewrite Hp in Hok.
  apply wp_bind_ok. eapply wp_mono; [by eapply verify_restored_kf|].
  intros r g1 Hf. change (rframe starting_mode g g1) in Hf. pose proof (at_rs_frame _ _ _ _ _ Hat Hf) as Hat1.
  assert (loaded g1 p) as Hl by (by eapply loaded_stable).
  destruct r as [u|[|f]]; [|done|by split].
  apply phase_same; [done|by unfold rs_edge; rewrite Hp| |done].
  apply wf_moved; [apply Hat|by rewrite Hp|done].
Qed.

Lemma restore_phase_spec fuel g j p :
  at_rs g j p → r_phase p ≠ RpDone → phase_ok g p → WP (restore_phase cfg fuel j) g (phase_post j p).
Proof.
  intros Hat Hd Hok. unfold restore_phase. cbv zeta. rewrite (plan_of_some _ _ (ar_restore _ _ _ Hat)).
  destruct (r_phase p) eqn:Hp; [| | | | | |done].
  - apply phase_same; [done|by unfold rs_edge; rewrite Hp| |done].
    apply wf_moved; [apply Hat|done|done].
  - by apply checking_post.
  - by apply stopping_post.
  - by apply loading_post.
  - by apply starting_post.
  - by apply verifying_post.
Qed.

Lemma run_restore_spec turns fuel g j p :
  at_rs g j p → phase_ok g p → WP (run_restore cfg turns fuel j) g (λ _ _, True).
Proof.
  revert g j p. induction turns as [|turns IH]; intros g j p Hat Hok; cbn [run_restore]; [done|].
  rewrite (ar_open _ _ _ Hat). cbn [negb]. cbv zeta. rewrite (plan_of_some _ _ (ar_restore _ _ _ Hat)).
  case_bool_decide as Hd.
  - apply wp_bind_ok. eapply wp_mono; [eapply finish_restore_spec; [done|done|]|by intros []].
    unfold phase_ok in Hok. by rewrite Hd in Hok.
  - apply wp_bind. eapply wp_mono; [by apply restore_phase_spec|].
    intros [[j1 next]|[|f]] g1 H1; [|done|].
    + destruct H1 as (p1 & Hat1 & He & Hedge & Hw & Hen). apply wp_bind_ok. unfold advance_restore.
      eapply wp_mono; [by eapply commit_rs_spec, Hen; [done|by apply (rs_edited_update _ _ _ (rs_set_phase next))|..]|].
      intros [j2|e] g2 H2; [|done]. destruct H2 as [Hat2 Hen2]. eapply IH; [done|by apply entered_ok].
    + apply wp_bind_ok. eapply wp_mono; [by eapply fail_restore_spec|by intros []].
Qed.
End proofs.
