(* ===== verification/RestoreMachine.v ===== *)
(** * A restore across restarts

    One process of the recovery actor after another on one machine, each settling the open
    restore or driving the one it admitted; a process may die between any two of its calls, and
    the next one finds on disk what the last wrote, or what a failed write may have left. What
    [RestoreSpec] requires of each call is required of all of them: the history is the machine's. *)
From S2P Require Import Prelude Platform Wire Journal Settle Effects Replace DumpDir Database Restore RestoreSpec Frames RestoreRules RestoreProofs RestoreLoading RestoreStarting RestoreRun.

(** ** The process *)

(** [run] and [interrupt] with the restore's own, which they call for a restore's journal. *)
Fixpoint link_restore {I A} (run intr : Journal → prog I (result unit unit)) (p : prog I A) : prog I A :=
  match p with
  | Ret a => Ret a
  | Spin => Spin
  | @Vis _ _ X e k =>
      let k' := λ x, link_restore run intr (k x) in
      match e in eff _ Y return (Y → prog I A) → prog I A with
      | RunRestore j => λ k', bind (run j) k'
      | InterruptRestore j => λ k', bind (intr j) k'
      | e => λ k', Vis e k'
      end k'
  end.

Inductive rlife := RSettles | RDrives (id : string).

Section process.
Context {I : Type} `{!ReplaceDeps I} {DD : DumpDeps} {NN : NodeName I} (cfg : Config).

(** A start of the process that settles what is open, or the driver of an attempt. *)
Definition restore_process (turns fuel : nat) (w : rlife) : prog I unit :=
  link_restore (run_restore cfg turns fuel) interrupt_restore
    (match w with
     | RSettles => do _ <- settle_open cfg turns fuel; Ret tt
     | RDrives id => drive cfg turns fuel id
     end).
End process.

(** ** Its calls are those the monitor requires *)

Section proofs.
Context {I : Type} `{!ReplaceDeps I} {DD : DumpDeps} {NN : NodeName I} (cfg : Config).
Implicit Types (j : Journal) (p : RestoreJ) (g : RWorld).
Hypothesis Hself : ∀ me, self_container cfg = Some me → me ∉ control_planes.
Hypothesis Hrender : ∀ rev i image secrets spec,
  render ControlPlane rev i image secrets = Ok spec → cs_name spec = container_name ControlPlane.

Local Abbreviation WP q g Q := (wp (rwatch I) True q g Q).
Local Abbreviation LINK turns fuel q := (link_restore (run_restore cfg turns fuel) interrupt_restore q).

(** The journal on disk is a restore's, and what its phase takes holds. *)
Record disk_ok (g : RWorld) (j : Journal) : Prop := mkDiskOk {
  do_restore : is_restore j;
  do_phase : is_open j = true → phase_ok g (plan_of j);
  do_checked : restore_touched (r_phase (plan_of j)) = true → checked g (plan_of j) }.

Lemma disk_at g j :
  w_maybe g = None → w_dur g = j → disk_ok g j → is_open j = true → at_rs g j (plan_of j) ∧ phase_ok g (plan_of j).
Proof.
  intros Hm Hd [(Hs & p & Hp & Hw) Hok _] Ho. specialize (Hok Ho). rewrite (plan_of_some _ _ Hp) in *. by split.
Qed.

Lemma died_spec turns fuel g : WP (LINK turns fuel (died (I:=I))) g (λ _ _, True).
Proof. unfold died. split; [by split|]. intros [] _; [done|]. split; [by split|]. done. Qed.

Lemma link_run turns fuel j p {B} (k : result unit unit → prog I B) :
  j_restore j = Some p →
  LINK turns fuel (bind (run cfg turns fuel j) k) = bind (run_restore cfg turns fuel j) (λ r, LINK turns fuel (k r)).
Proof. intros Hp. unfold run. by rewrite Hp. Qed.

Lemma link_interrupt turns fuel j p {B} (k : result unit unit → prog I B) :
  j_restore j = Some p →
  LINK turns fuel (bind (interrupt cfg j) k) = bind (interrupt_restore j) (λ r, LINK turns fuel (k r)).
Proof. intros Hp. unfold interrupt. by rewrite Hp. Qed.

Lemma run_any_spec turns fuel g j :
  w_maybe g = None → w_dur g = j → disk_ok g j → WP (run_restore cfg turns fuel j) g (λ _ _, True).
Proof.
  intros Hm Hd Hok. destruct (is_open j) eqn:Ho.
  - destruct (disk_at _ _ Hm Hd Hok Ho). by eapply run_restore_spec.
  - destruct turns; [done|]. cbn [run_restore]. by rewrite Ho.
Qed.

Lemma drive_restore_spec turns fuel g id :
  w_maybe g = None → disk_ok g (w_dur g) → WP (restore_process cfg turns fuel (RDrives id)) g (λ _ _, True).
Proof.
  intros Hm Hok. unfold restore_process, drive. split; [by split|]. intros r Hr.
  cbn [advance_ghost rwatch r_advance]. destruct r as [[j|]|]; [|done..].
  cbn [bind]. cbn in Hr. subst j. destruct (do_restore _ _ Hok) as (_ & p & Hp & _).
  change (WP (LINK turns fuel (do r <- run cfg turns fuel (w_dur g); match r with Ok _ => Ret tt | Err _ => died end)) g (λ _ _, True)).
  rewrite (link_run _ _ _ p) by done. apply wp_bind. eapply wp_mono; [by apply run_any_spec|].
  intros [u|e] g' _; [done|]. apply died_spec.
Qed.

Lemma no_steps_current j : j_steps j = [] → current j = None.
Proof. intros H. unfold current. by rewrite H. Qed.

(** Settling a restore: it is interrupted before it touched anything, and continued after. *)
Lemma settle_journal_restore turns fuel j p :
  j_steps j = [] → j_restore j = Some p →
  settle_journal cfg turns fuel j =
    if negb (is_open j) then Ret (Ok tt)
    else if restore_touched (r_phase p) then run cfg turns fuel j else interrupt cfg j.
Proof.
  intros Hs Hp. unfold settle_journal.
  assert (∃ pa, party_of (I:=I) cfg j = Ret pa ∧ pa ≠ Successor) as (pa & Hpa & Hns).
  { unfold party_of. rewrite Hs. simpl. by eexists. }
  rewrite Hpa. cbn [bind]. unfold count_successor_start. rewrite (bool_decide_eq_false_2 _ Hns). cbn [negb orb].
  cbn [bind_ok bind]. unfold settle. rewrite Hp. destruct (is_open j); [|done]. cbn [negb].
  destruct (restore_touched (r_phase p)); [|done]. unfold restart_verifying. by rewrite no_steps_current.
Qed.

Lemma settle_restore_spec turns fuel g :
  w_maybe g = None → disk_ok g (w_dur g) → WP (restore_process cfg turns fuel RSettles) g (λ _ _, True).
Proof.
  intros Hm Hok. unfold restore_process, settle_open. split; [by split|]. intros sc Hsc.
  cbn [advance_ghost rwatch r_advance bind]. cbn in Hsc. destruct (sc_unreadable sc); [|exact Logic.I].
  destruct (scan_open sc) as [j|]; [|exact Logic.I]. subst j.
  destruct (do_restore _ _ Hok) as (Hs & p & Hp & _).
  set (k := λ r : result unit unit, do _ <- (match r with
      | Ok _ => Ret (I:=I) (Ok tt)
      | Err _ => do _ <- died; Ret (Err "the open attempt stopped before it reached an outcome; the next start settles it")
      end : prog I (result unit string)); Ret tt).
  assert (∀ r g', WP (LINK turns fuel (k r)) g' (λ _ _, True)) as Hk.
  { intros [u|e] g'; [exact Logic.I|]. split; [by split|]. intros [] _; [exact Logic.I|]. split; [by split|]. intros _u _. exact Logic.I. }
  assert (LINK turns fuel (do _ <- (do r <- settle_journal cfg turns fuel (w_dur g);
      match r with
      | Ok _ => Ret (Ok tt)
      | Err _ => do _ <- died; Ret (Err "the open attempt stopped before it reached an outcome; the next start settles it")
      end : prog I (result unit string)); Ret tt)
    = LINK turns fuel (bind (settle_journal cfg turns fuel (w_dur g)) k)) as Hassoc.
  { rewrite (settle_journal_restore _ _ _ _ Hs Hp). unfold run, interrupt. rewrite Hp.
    destruct (is_open (w_dur g)), (restore_touched (r_phase p)); reflexivity. }
  change (WP (LINK turns fuel (do _ <- (do r <- settle_journal cfg turns fuel (w_dur g);
      match r with
      | Ok _ => Ret (Ok tt)
      | Err _ => do _ <- died; Ret (Err "the open attempt stopped before it reached an outcome; the next start settles it")
      end : prog I (result unit string)); Ret tt)) g (λ _ _, True)).
  rewrite Hassoc, (settle_journal_restore _ _ _ _ Hs Hp). destruct (is_open (w_dur g)) eqn:Ho; cbn [negb]; [|apply Hk].
  destruct (restore_touched (r_phase p)) eqn:Ht.
  - rewrite (link_run _ _ _ p) by done. apply wp_bind. eapply wp_mono; [by apply run_any_spec|]. intros r g' _. apply Hk.
  - rewrite (link_interrupt _ _ _ p) by done. apply wp_bind.
    destruct (disk_at g _ Hm eq_refl Hok Ho) as [Hat _]. rewrite (plan_of_some _ _ Hp) in Hat.
    eapply wp_mono; [eapply interrupt_restore_spec; [done|by intros E; rewrite E in Ht]|]. intros r g' _. apply Hk.
Qed.

Lemma restore_process_spec turns fuel w g :
  w_maybe g = None → disk_ok g (w_dur g) → WP (restore_process cfg turns fuel w) g (λ _ _, True).
Proof. destruct w; [apply settle_restore_spec|intros; by apply drive_restore_spec]. Qed.
End proofs.

(** ** What the calls keep *)

Definition writes_journal {I X} (e : eff I X) : bool := match e with StoreJournal _ => true | _ => false end.

Lemma see_fields n o g :
  let g' := w_see n o g in
  w_dur g' = w_dur g ∧ w_maybe g' = w_maybe g ∧ w_hold g' = w_hold g ∧ w_floor g' = w_floor g ∧
  w_loaded g' = w_loaded g ∧ w_facts g' = w_facts g.
Proof. unfold w_see. cbv zeta. repeat case_match; done. Qed.

Lemma advance_dur {I X} g (e : eff I X) x :
  writes_journal e = false → w_dur (r_advance g e x) = w_dur g ∧ w_maybe (r_advance g e x) = w_maybe g.
Proof.
  destruct e; try done; intros _; cbn [r_advance]; try (by repeat case_match).
  destruct x as [o|]; [|done]. split; apply (see_fields name_or_id o g).
Qed.

Lemma advance_facts {I X} g (e : eff I X) x f : f ∈ w_facts g → f ∈ w_facts (r_advance g e x).
Proof.
  intros Hf. destruct e; try done; cbn [r_advance]; try (by repeat case_match); try (repeat case_match; simpl; set_solver).
  destruct x as [o|]; [|done]. by destruct (see_fields name_or_id o g) as (_ & _ & _ & _ & _ & ->).
Qed.

Lemma checked_advance {I X} g (e : eff I X) x p : checked g p → checked (r_advance g e x) p.
Proof.
  intros (im & t & out & s & rev & H). exists im, t, out, s, rev.
  destruct H as (H1 & H2 & H3 & H4 & H5 & H6 & H7 & H8 & H9).
  split_and!; try done; [by apply advance_facts|].
  destruct (r_dump p); [|by apply advance_facts].
  destruct H8 as (H8 & sha & Hs & Hr). split; [by apply advance_facts|]. exists sha. split; [by apply advance_facts|].
  destruct Hr as [?|(rec & Hr & ?)]; [by left|right]. exists rec. split; [by apply advance_facts|done].
Qed.

(** A call of another phase. *)
Ltac other_phase H := unfold may_run in H; destruct_and?; destruct_or?; destruct_and?; congruence.

(** While loading, the hold stays and the control planes stay quiet. *)
Lemma loading_advance {I X} g (e : eff I X) x :
  r_requires g e → w_phase g = RpLoading → w_hold g = true → all_quiet g →
  w_hold (r_advance g e x) = true ∧ all_quiet (r_advance g e x).
Proof.
  intros [Hm Hr] Hp Hh Hq.
  assert (∀ n h, w_norestart g ⊆ n → w_halted g ⊆ h → all_quiet (w_with_stopped n h g)) as Hst.
  { intros n h Hn Hha k Hk. destruct (Hq k Hk) as [?|(id & ? & ? & ?)]; [by left|right]. exists id. simpl. set_solver. }
  destruct e; try done; cbn [r_advance]; try (by repeat case_match).
  - destruct x as [o|]; [|done]. destruct (see_fields name_or_id o g) as (_ & _ & -> & _). split; [done|].
    unfold w_see. case_bool_decide as Hc; [by destruct (Hr Hc)|]. by repeat case_match.
  - destruct (is_helper spec); [by destruct x|]. destruct Hr as [(H & _) _]. congruence.
  - destruct (w_ops g !! id) as [[op f]|] eqn:Ho; [by destruct (loads op)|]. destruct Hr as (H & _). congruence.
  - other_phase Hr.
  - other_phase Hr.
  - other_phase Hr.
  - other_phase Hr.
  - other_phase Hr.
Qed.

(** Once loaded, the database is not replaced, and what the floor was raised to stays. *)
Lemma loaded_advance {I X} g (e : eff I X) x p :
  r_requires g e → w_phase g ≠ RpLoading → loaded g p → loaded (r_advance g e x) p.
Proof.
  intros [Hm Hr] Hp Hl n Hn. specialize (Hl n Hn). rewrite <-Hl. clear Hl Hn n.
  destruct e; try done; cbn [r_advance]; try (by repeat case_match).
  - destruct x as [o|]; [|done]. by destruct (see_fields name_or_id o g) as (_ & _ & _ & _ & -> & _).
  - destruct (w_ops g !! id) as [[op f]|] eqn:Ho; [|done]. destruct (loads op) eqn:El; [|done].
    unfold may_help in Hr. rewrite El in Hr. by destruct Hr as (H & _).
  - destruct x as [code|]; [|done]. destruct (w_ops g !! id) as [[op f]|] eqn:Ho; [|done].
    destruct (loads op) eqn:El; [|done]. destruct (Hp (Hr _ _ eq_refl El)).
Qed.

Lemma floored_advance {I X} g (e : eff I X) x :
  r_requires g e → r_allows g e x → w_phase g = RpStarting → is_Some (r_dump (w_plan g)) →
  r_fresh_install (w_plan g) = false → floored g (w_plan g) → floored (r_advance g e x) (w_plan g).
Proof.
  intros [Hm Hr] Ha Hp [n Hd] Hf (s & Hs & Hfl).
  destruct e; try done; cbn [r_advance]; try (by exists s; repeat case_match).
  - destruct x as [o|]; [|by exists s]. exists s. by destruct (see_fields name_or_id o g) as (_ & _ & _ & -> & _).
  - destruct x as [f|]; [|by exists s]. exists s. split; [done|]. simpl. by apply Ha.
  - other_phase Hr.
Qed.

Lemma phase_ok_advance {I X} g (e : eff I X) x :
  r_requires g e → r_allows g e x → writes_journal e = false →
  phase_ok g (w_plan g) → phase_ok (r_advance g e x) (w_plan g).
Proof.
  intros Hr Ha Hw. unfold phase_ok. change (r_phase (w_plan g)) with (w_phase g).
  destruct (w_phase g) eqn:Hp; try done.
  - intros [Hh Hq]. by apply loading_advance.
  - intros [Hl Hf]. split; [apply loaded_advance; [done|congruence|done]|]. intros Hd Hfr. apply floored_advance; auto.
  - intros Hl. apply loaded_advance; [done|congruence|done].
  - intros Hl. apply loaded_advance; [done|congruence|done].
Qed.
