(* ===== verification/RestoreSafety.v ===== *)
(** * What a restore guarantees across restarts

    The machine of [RestoreMachine]'s processes, its invariant, and the guarantees of a restore:
    its journal is at every moment one the abstract machine reaches; the database is replaced
    only under the hold, with both control planes quiet, by the dump that was checked; and a
    control plane starts only when the database wholly holds it, at a schema it is of. *)
From S2P Require Import Prelude Platform Wire Journal Settle Effects Replace DumpDir Database Restore RestoreSpec Frames RestoreRules RestoreProofs RestoreRun RestoreMachine.

(** The plan is a restore's, and what checking found is found. *)
Lemma edge_keeps p p' :
  rs_edge p p' →
  r_dump p' = r_dump p ∧ r_imported p' = r_imported p ∧ r_fresh_install p' = r_fresh_install p ∧
  r_control_plane p' = r_control_plane p ∧
  (restore_touched (r_phase p) = true → r_schema_version p' = r_schema_version p ∧
    r_recipe_revision p' = r_recipe_revision p ∧ r_migrates_to p' = r_migrates_to p ∧ restore_touched (r_phase p') = true).
Proof.
  unfold rs_edge. destruct (r_phase p) eqn:Hp; [| | | | | |done].
  - intros ->. by split_and!.
  - intros (rev & s & t & _ & ->). by split_and!.
  - intros ->. split_and!; try done. intros _. split_and!; try done. by destruct (bool_decide _).
  - intros ->. by split_and!.
  - intros (c & ->). by split_and!.
  - intros ->. by split_and!.
Qed.

Lemma checked_edge g p p' :
  rs_edge p p' → restore_touched (r_phase p) = true → checked g p → checked g p'.
Proof.
  intros He Ht (im & t & out & s & rev & H). destruct (edge_keeps _ _ He) as (H1 & H2 & H3 & H4 & H5).
  destruct (H5 Ht) as (H6 & H7 & H8 & _). exists im, t, out, s, rev. by rewrite H1, H2, H4, H6, H7, H8.
Qed.

Section machine.
Context {I : Type} `{!ReplaceDeps I} {DD : DumpDeps} {NN : NodeName I}.

(** The machine: its history, and what the process that runs has left to do. *)
Record RMachine := mkRMachine { rm_world : RWorld; rm_left : option (prog I unit) }.

(** A process makes its next call; it dies; another starts on what it left. *)
Inductive rm_step (m : RMachine) : RMachine → Prop :=
| rm_acts X (e : eff I X) k x :
    rm_left m = Some (Vis e k) → r_allows (rm_world m) e x →
    rm_step m (mkRMachine (r_advance (rm_world m) e x) (Some (k x)))
| rm_dies : rm_step m (mkRMachine (rm_world m) None)
| rm_starts cfg turns fuel w d :
    rm_left m = None → (∀ me, self_container cfg = Some me → me ∉ control_planes) →
    d = w_dur (rm_world m) ∨ w_maybe (rm_world m) = Some d →
    rm_step m (mkRMachine (w_with_dur d None (rm_world m)) (Some (restore_process cfg turns fuel w))).

(** A restore was admitted: its journal is on disk, and its plan is one [plan_restore] makes. *)
Record submitted (g : RWorld) : Prop := mkSubmitted {
  su_maybe : w_maybe g = None;
  su_journal : ∃ req seq now p, w_dur g = restore_journal req seq now p ∧ r_phase p = RpAdmitted ∧ plan_wf p }.

Definition about {X} (m : RMachine) (e : eff I X) : Prop := ∃ k, rm_left m = Some (Vis e k).

Hypothesis Hrender : ∀ rev i image secrets spec,
  render ControlPlane rev i image secrets = Ok spec → cs_name spec = container_name ControlPlane.

(** ** The invariant *)

Record rm_ok (m : RMachine) : Prop := mkRmOk {
  ro_disk : disk_ok (rm_world m) (w_dur (rm_world m));
  ro_maybe : ∀ j, w_maybe (rm_world m) = Some j → rs_step (w_dur (rm_world m)) j ∧ disk_ok (rm_world m) j;
  ro_safe : ∀ p, rm_left m = Some p → wp (rwatch I) True p (rm_world m) (λ _ _, True) }.

Lemma rs_step_restore j j' : is_restore j → rs_step j j' → is_restore j'.
Proof.
  intros (Hs & p & Hp & Hw) [p0 p' _ H1 H2 _ H3 _ H4 _|p0 _ H1 _ H2 H3 _ _ _|p0 _ H1 _ H2 H3 _ _ _];
    (split; [congruence|]); [by exists p'|exists p; split; [congruence|done]..].
Qed.

(** What [r_requires] asks of a write is what the next process needs of it. *)
Lemma written_ok g j :
  is_restore (w_dur g) → (restore_touched (r_phase (plan_of (w_dur g))) = true → checked g (plan_of (w_dur g))) →
  rs_step (w_dur g) j → (is_open j = true → entered g (plan_of j)) → disk_ok g j.
Proof.
  intros Hr Hc Hs He. split; [by eapply rs_step_restore|intros Ho; by apply entered_ok, He|].
  destruct Hs as [p p' _ H1 H2 Hed _ Ho _ _|p _ H1 _ H2 _ _ _ _|p _ H1 _ H2 _ _ _ _].
  - specialize (He Ho). rewrite (plan_of_some _ _ H2) in *. unfold plan_of in Hc. rewrite H1 in Hc. simpl in Hc.
    intros Ht. destruct (restore_touched (r_phase p)) eqn:Hp; [by eapply checked_edge; auto|].
    unfold rs_edge in Hed. unfold entered in He. destruct (r_phase p); try done.
    + by rewrite Hed in Ht.
    + destruct Hed as (rev & s & t & _ & ->). exact He.
  - unfold plan_of in *. by rewrite H1 in Hc; rewrite H2.
  - unfold plan_of in *. by rewrite H1 in Hc; rewrite H2.
Qed.

Lemma disk_ok_ext g g' j :
  w_hold g' = w_hold g → w_floor g' = w_floor g → w_loaded g' = w_loaded g → w_facts g' = w_facts g →
  w_named g' = w_named g → w_norestart g' = w_norestart g → w_halted g' = w_halted g → disk_ok g j → disk_ok g' j.
Proof.
  intros H1 H2 H3 H4 H5 H6 H7 [D1 D2 D3]. split; [done| |].
  - unfold phase_ok, all_quiet, quiet, loaded, floored in *. by rewrite H1, H2, H3, H5, H6, H7.
  - unfold checked in *. by rewrite H4.
Qed.

Lemma journal_step g X (e : eff I X) x :
  disk_ok g (w_dur g) → (∀ j, w_maybe g = Some j → rs_step (w_dur g) j ∧ disk_ok g j) →
  r_requires g e → r_allows g e x →
  let g' := r_advance g e x in
  disk_ok g' (w_dur g') ∧ (∀ j, w_maybe g' = Some j → rs_step (w_dur g') j ∧ disk_ok g' j).
Proof.
  intros Hd Hm Hr Ha. cbv zeta. destruct (writes_journal e) eqn:Hw.
  - destruct e; try done. destruct Hr as [Hm0 [Hs He]]. cbn [r_advance].
    assert (disk_ok g j) as Hj by (eapply written_ok; [apply Hd|apply Hd|done|done]).
    destruct x as [u|e]; simpl; (split; [by apply (disk_ok_ext g)|]); [done|].
    intros j' [= <-]. split; [done|]. by apply (disk_ok_ext g).
  - destruct (advance_dur g e x Hw) as [E1 E2]. rewrite E1, E2.
    destruct (gives_up e) eqn:Hg; [by destruct e|].
    destruct Hr as [Hm0 Hr]. assert (w_maybe g = None) as Hn by auto. split; [|intros j Hj; congruence].
    destruct Hd as [D1 D2 D3]. split; [done| |].
    + intros Ho. apply phase_ok_advance; [by split|done|done|by apply D2].
    + intros Ht. by apply checked_advance, D3.
Qed.

Lemma rm_step_ok m m' : rm_ok m → rm_step m m' → rm_ok m'.
Proof.
  intros [Hd Hm Hs] Hst. destruct Hst as [X e k x Hl Ha| |cfg turns fuel w d Hl Hself Hdisk].
  - destruct (Hs _ Hl) as [Hr Hk]. destruct (journal_step _ _ _ _ Hd Hm Hr Ha). split; [done|done|].
    intros p [= <-]. by apply Hk.
  - by split.
  - simpl. assert (disk_ok (rm_world m) d) as Hdo by (destruct Hdisk as [->|H]; [done|by apply Hm]).
    assert (disk_ok (w_with_dur d None (rm_world m)) d) as Hdo' by (by apply (disk_ok_ext (rm_world m))).
    split; [done|done|]. intros p [= <-]. by apply restore_process_spec.
Qed.

Lemma submitted_ok g : submitted g → rm_ok (mkRMachine g None).
Proof.
  intros [Hm (req & seq & now & p & Hj & Hp & Hw)]. split; simpl; [|by rewrite Hm|done].
  rewrite Hj. split; [split; [done|by exists p]| |]; unfold plan_of, phase_ok; simpl; by rewrite Hp.
Qed.

Lemma rm_reached_ok g m : submitted g → rtc rm_step (mkRMachine g None) m → rm_ok m.
Proof.
  intros Hs H. apply submitted_ok in Hs. induction H as [|m1 m2 m3 H1 _ IH]; [done|].
  apply IH. by eapply rm_step_ok.
Qed.

(** The call a process is about to make is one the monitor allows. *)
Lemma about_required {X} g m (e : eff I X) :
  submitted g → rtc rm_step (mkRMachine g None) m → about m e → r_requires (rm_world m) e.
Proof. intros Hs Hr [k Hk]. by destruct (ro_safe _ (rm_reached_ok _ _ Hs Hr) _ Hk). Qed.

Lemma at_end g m : rtc rm_step (mkRMachine g None) m → m = mkRMachine g None ∨
  ∃ m', rtc rm_step (mkRMachine g None) m' ∧ rm_step m' m.
Proof. intros [-> |(m' & H1 & H2)]%rtc_inv_r; eauto. Qed.

(** Every journal on disk is reached from the admitted one by the abstract machine. *)
Lemma disk_refines g m : submitted g → rtc rm_step (mkRMachine g None) m → rtc rs_step (w_dur g) (w_dur (rm_world m)).
Proof.
  intros Hs Hr. revert m Hr. apply (rtc_ind_r (λ m, rtc rs_step (w_dur g) (w_dur (rm_world m)))); [done|].
  intros m1 m2 Hr Hst IH. pose proof (rm_reached_ok _ _ Hs Hr) as Hok.
  destruct Hst as [X e k x Hl Ha| |cfg turns fuel w d Hl Hself Hd]; simpl in *; [|done|].
  - destruct (writes_journal e) eqn:Hw; [|by rewrite (proj1 (advance_dur _ e x Hw))].
    destruct e; try done. assert (about m1 (StoreJournal j)) as Hab by (by eexists).
    destruct (about_required _ _ _ Hs Hr Hab) as [_ [Hj _]]. destruct x; simpl; [by eapply rtc_r|done].
  - destruct Hd as [->|Hd]; [done|]. eapply rtc_r; [done|]. by apply (ro_maybe _ Hok).
Qed.

(** The dump of a plan and the schema recorded for it are never lost. *)
Definition source_kept (j j' : Journal) : Prop :=
  r_dump (plan_of j') = r_dump (plan_of j) ∧
  ∀ v, is_Some (r_dump (plan_of j)) → r_schema_version (plan_of j) = Some v → r_schema_version (plan_of j') = Some v.

Lemma edge_source p p' :
  rs_edge p p' → r_dump p' = r_dump p ∧
  ∀ v, is_Some (r_dump p) → r_schema_version p = Some v → r_schema_version p' = Some v.
Proof.
  intros He. split; [by apply edge_keeps|]. intros v Hd Hv. unfold rs_edge in He.
  destruct (r_phase p); [by subst p'| |by subst p'|by subst p'| |by subst p'|done].
  - destruct He as (rev & s & t & Hk & ->). simpl. by rewrite (Hk v).
  - by destruct He as (c & ->).
Qed.

Lemma steps_source j j' : rtc rs_step j j' → source_kept j j'.
Proof.
  induction 1 as [j|j1 j2 j3 Hst _ [IH1 IH2]]; [by split|].
  assert (source_kept j1 j2) as [H1 H2].
  { unfold source_kept. destruct Hst as [p p' _ Hp Hp' He _ _ _ _|p _ Hp _ Hp' _ _ _ _|p _ Hp _ Hp' _ _ _ _];
      rewrite (plan_of_some _ _ Hp), (plan_of_some _ _ Hp'); [by apply edge_source|done..]. }
  split; [congruence|]. intros v Hd Hv. apply IH2; [by rewrite H1|by apply H2].
Qed.

(** (C9) What is on disk refines the abstract machine: through any number of processes of the actor,
    each dying anywhere, the journal of a restore moves only along its phases, checking's finds and
    the started container apart its plan never changes, and it ends once, succeeded from [done] or
    failed before it; a write that failed may have left such a next journal too. *)
Theorem restore_refines g m :
  submitted g → rtc rm_step (mkRMachine g None) m →
  rtc rs_step (w_dur g) (w_dur (rm_world m)) ∧
  ∀ j, w_maybe (rm_world m) = Some j → rs_step (w_dur (rm_world m)) j.
Proof.
  intros Hs Hr. split; [by apply disk_refines|]. intros j Hj. by apply (ro_maybe _ (rm_reached_ok _ _ Hs Hr)).
Qed.

(** (C11) Every journal a restore leaves on disk is well formed: it replaces no component, only a
    restore with a dump loads one and an import is what a fresh install gets, and once anything was
    touched its plan holds the schema, the recipe revision and, for an import, the schema its
    control plane migrates to. *)
Theorem restore_well_formed g m j :
  submitted g → rtc rm_step (mkRMachine g None) m →
  j = w_dur (rm_world m) ∨ w_maybe (rm_world m) = Some j → is_restore j.
Proof.
  intros Hs Hr Hj. pose proof (rm_reached_ok _ _ Hs Hr) as [Hd Hm _].
  destruct Hj as [->|Hj]; [apply Hd|by apply Hm].
Qed.

(** (C10) The database is replaced only while the hold is on disk and neither control plane runs or
    can restart, and only by the dump the restore was admitted with, once checked: it read back
    whole and clean; when the admitted plan recorded its schema, that is the schema read back from
    it; its file is an archive with the checksum of its record, or is an import's, which has no
    record; and the control plane to start is of its schema (an import's: of no older one) and of a
    recipe revision this actor renders. *)
Theorem load_guarded g m id op f :
  submitted g → rtc rm_step (mkRMachine g None) m → about m (StartContainer id) →
  w_ops (rm_world m) !! id = Some (op, f) → loads op = true →
  w_hold (rm_world m) = true ∧ all_quiet (rm_world m) ∧ checked (rm_world m) (w_plan (rm_world m)) ∧
  ∃ name, r_dump (plan_of (w_dur g)) = Some name ∧ r_dump (w_plan (rm_world m)) = Some name ∧
    f = Some (dump_path name) ∧
    ∀ recorded, r_schema_version (plan_of (w_dur g)) = Some recorded →
      r_schema_version (w_plan (rm_world m)) = Some recorded.
Proof.
  intros Hs Hr Hab Ho Hl. destruct (about_required _ _ _ Hs Hr Hab) as [_ Hreq].
  cbn in Hreq. rewrite Ho in Hreq. unfold may_help in Hreq. rewrite Hl in Hreq.
  destruct Hreq as (Hp & Hh & Hq & name & Hn & Hf).
  destruct (steps_source _ _ (disk_refines _ _ Hs Hr)) as [Hd Hk]. fold (w_plan (rm_world m)) in Hd, Hk.
  rewrite Hn in Hd. split_and!; [done|done| |exists name; split_and!; auto].
  - apply (do_checked _ _ (ro_disk _ (rm_reached_ok _ _ Hs Hr))). unfold w_phase, w_plan in Hp. by rewrite Hp.
Qed.

(** A call that brings a control plane up. *)
Definition brings_up (w : RWorld) {X} (e : eff I X) : Prop :=
  match e with
  | CreateContainer spec => is_helper spec = false
  | StartContainer id => w_ops w !! id = None
  | EnsureControlMachine _ => True
  | _ => False
  end.

(** No control plane is created or started on a database that is not wholly loaded, and none but
    under a schema floor: at the schema restored, of which its image is, or for an import at least
    at the schema the install's control plane migrates to. *)
Theorem starts_only_loaded {X} g m (e : eff I X) :
  submitted g → rtc rm_step (mkRMachine g None) m → about m e → brings_up (rm_world m) e →
  let w := rm_world m in
  w_phase w = RpStarting ∧ loaded w (w_plan w) ∧
  (∃ s, w_floor w = Some s ∧ if r_fresh_install (w_plan w) then ∃ t, r_migrates_to (w_plan w) = Some t ∧ (t <= s)%Z
                             else r_schema_version (w_plan w) = Some s) ∧
  match e with
  | CreateContainer _ => ∃ im v s, Labelled (reference (r_control_plane (w_plan w))) im ∈ w_facts w ∧
      image_schema im = Some v ∧ w_floor w = Some s ∧ (s <= v)%Z
  | _ => True
  end.
Proof.
  intros Hs Hr Hab Hb. destruct (about_required _ _ _ Hs Hr Hab) as [_ Hreq]. cbv zeta.
  assert (may_run (rm_world m) → w_phase (rm_world m) = RpStarting ∧ loaded (rm_world m) (w_plan (rm_world m)) ∧
    (∃ s, w_floor (rm_world m) = Some s ∧
      if r_fresh_install (w_plan (rm_world m)) then ∃ t, r_migrates_to (w_plan (rm_world m)) = Some t ∧ (t <= s)%Z
      else r_schema_version (w_plan (rm_world m)) = Some s)) as Hrun.
  { intros (H1 & H2 & H3 & (s & H4 & H5)). rewrite H2. eauto. }
  destruct e; try done; cbn [brings_up] in Hb.
  - rewrite Hb in Hreq. destruct Hreq as (H1 & _ & H2). destruct (Hrun H1) as (? & ? & ?). by split_and!.
  - rewrite Hb in Hreq. destruct (Hrun Hreq) as (? & ? & ?). by split_and!.
  - destruct Hreq as (H1 & H2 & H3 & f & t & H4 & H5 & H6). rewrite H2. split_and!; eauto.
Qed.

(** From the moment a restore is about to replace the database to the moment it is wholly
    loaded the hold stays on disk: it is there, with both control planes quiet, whatever process
    died, while the journal is at [loading]; and it is released only with the database loaded. *)
Theorem hold_until_loaded g m :
  submitted g → rtc rm_step (mkRMachine g None) m →
  let w := rm_world m in
  (is_open (w_dur w) = true → w_phase w = RpLoading → w_hold w = true ∧ all_quiet w) ∧
  (about m (ClearHold (I:=I)) → loaded w (w_plan w)).
Proof.
  intros Hs Hr. cbv zeta. split.
  - intros Ho Hp. pose proof (do_phase _ _ (ro_disk _ (rm_reached_ok _ _ Hs Hr)) Ho) as H.
    unfold phase_ok in H. unfold w_phase, w_plan in Hp. by rewrite Hp in H.
  - intros Hab. by destruct (about_required _ _ _ Hs Hr Hab) as [_ [_ H]].
Qed.

(** A call that changes the machine: anything but a look, a helper that only reads, the removal of a
    helper or of the operator's copy of an import, and the journal. *)
Definition changes (w : RWorld) {X} (e : eff I X) : Prop :=
  match e with
  | StopContainer _ _ | SetRestartPolicy _ _ | RenameContainer _ _ | StoreHold _ | ClearHold | StoreFloor _
  | StoreService _ | DeliverSecrets _ _ _ | EnsureControlMachine _ | StoreDump _ | StorePoint _ | ClearPoint
  | EnsureVolume _ _ _ | StoreSeed _ => True
  | CreateContainer spec => is_helper spec = false ∨ loads (helper_of spec).1 = true
  | StartContainer id => ∀ op f, w_ops w !! id = Some (op, f) → loads op = true
  | RemoveContainer id => w_ops w !! id = None ∧ id ∉ w_stale w
  | _ => False
  end.

(** A restore that has not reached [stopping] changed nothing: before it, no process of it makes a
    call that changes the machine. *)
Theorem nothing_changed_before_stopping {X} g m (e : eff I X) :
  submitted g → rtc rm_step (mkRMachine g None) m → about m e →
  restore_touched (w_phase (rm_world m)) = false → ¬ changes (rm_world m) e.
Proof.
  intros Hs Hr Hab Ht. destruct (about_required _ _ _ Hs Hr Hab) as [_ Hreq].
  assert (∀ ph, w_phase (rm_world m) = ph → restore_touched ph = true → False) as Hno by (intros ph <-; congruence).
  assert (may_run (rm_world m) → False) as Hrun by (intros [H _]; by eapply Hno).
  intros Hc. destruct e; try done; cbn [changes] in Hc; cbn beta iota in Hreq.
  - destruct (is_helper spec); [|apply Hrun, Hreq]. destruct Hc as [?|Hl]; [done|].
    unfold may_help in Hreq. rewrite Hl in Hreq. destruct Hreq as [H _]. by eapply Hno.
  - destruct (w_ops (rm_world m) !! id) as [[op f]|]; [|by apply Hrun].
    unfold may_help in Hreq. rewrite (Hc _ _ eq_refl) in Hreq. destruct Hreq as [H _]. by eapply Hno.
  - destruct Hreq as [H _]. by eapply Hno.
  - destruct Hreq as [H _]. by eapply Hno.
  - destruct Hc as [Hc1 Hc2]. destruct Hreq as [[? H]|[H|[H _]]]; [congruence|done|by eapply Hno].
  - destruct Hreq as [H _]. by apply Hrun.
  - destruct Hreq as [[H _]|[[H _]|[H _]]]; by eapply Hno.
  - by eapply Hno.
  - destruct Hreq as [H _]. by eapply Hno.
  - destruct Hreq as [[H|[H|H]] _]; by eapply Hno.
  - destruct Hreq as [H _]. by eapply Hno.
  - destruct Hreq as [H _]. by apply Hrun.
  - destruct Hreq as [H _]. by eapply Hno.
Qed.
End machine.
