(* ===== verification/RestoreWaits.v ===== *)
(** * A restore ends, and what it restores is accepted

    The bounds of [run_restore], and the way from a dump to its restore. *)
From S2P Require Import Prelude Platform Wire Journal Settle Trust Effects DumpDir Replace Waits Submit SubmitProofs Database DumpRun Restore.

(** * A restore ends

    [run_restore] reaches an outcome or gives up, whatever its calls answer: each turn moves its
    journal a phase on, and the wait for a healthy control plane ends at its deadline. *)

Local Open Scope Z_scope.

Section waits.
Context {I : Type} `{!ReplaceDeps I} {DD : DumpDeps} {NN : NodeName I} (cfg : Config).
Implicit Types (j : Journal) (g : Z).

Local Abbreviation WP p g Q := (wp (clock I) False p g Q).
Local Abbreviation look := (Z.max (poll (timing cfg)) 1000000).

(** ** Everything but the wait *)

Lemma ends_helper_spec machine op file g : WP (helper_spec cfg machine op file) g (ends g).
Proof. unfold helper_spec, machine_host_dir, helper_image. repeat e_step. Qed.

Lemma ends_ensure_image failed image g : WP (ensure_image failed image) g (ends g).
Proof. unfold ensure_image. repeat e_step. Qed.

Lemma ends_run_helper spec t g : WP (run_helper spec t) g (ends g).
Proof. unfold run_helper, helper_ran. repeat e_step. Qed.

Lemma ends_run_db machine op file g : WP (run_db cfg machine op file) g (ends g).
Proof. unfold run_db. repeat (apply ends_helper_spec || apply ends_ensure_image || apply ends_run_helper || e_step). Qed.

Lemma ends_restore_machine g : WP (restore_machine (I:=I)) g (ends g).
Proof. unfold restore_machine. repeat e_step. Qed.

Lemma ends_set_floor schema rid g : WP (set_floor (I:=I) schema rid) g (ends g).
Proof. unfold set_floor. repeat e_step. Qed.

Ltac r_end := repeat (apply ends_run_db || apply ends_ensure_image || apply ends_restore_machine || apply ends_set_floor || e_step).

Lemma ends_running names g : WP (no_control_plane_running (I:=I) names) g (ends g).
Proof. revert g. induction names as [|n l IH]; intros g; cbn [no_control_plane_running]; repeat (apply IH || e_step). Qed.

Lemma ends_check_owner machine names g : WP (check_owner (I:=I) machine names) g (ends g).
Proof. revert g. induction names as [|n l IH]; intros g; cbn [check_owner]; repeat (apply IH || e_step). Qed.

Lemma ends_check_source machine plan g : WP (check_source cfg machine plan) g (ends g).
Proof. unfold check_source, check_dump. repeat (apply ends_running || r_end). Qed.

Lemma ends_check_restore j g : WP (check_restore cfg j) g (ends g).
Proof.
  unfold check_restore, image_labels. repeat (apply ends_check_source || apply ends_check_owner || r_end).
Qed.

Lemma ends_stop_control_planes names g : WP (stop_control_planes cfg names) g (ends g).
Proof.
  revert g. induction names as [|n l IH]; intros g; cbn [stop_control_planes]; unfold stop_one; repeat (apply IH || e_step).
Qed.

Lemma ends_stop_for_restore j g : WP (stop_for_restore cfg j) g (ends g).
Proof. unfold stop_for_restore, place_hold. repeat (apply ends_stop_control_planes || e_step). Qed.

Lemma ends_load_into j g : WP (load_into cfg j) g (ends g).
Proof. unfold load_into. r_end. Qed.

Lemma ends_remove_others rid names g : WP (remove_others cfg rid names) g (ends g).
Proof. revert g. induction names as [|n l IH]; intros g; cbn [remove_others]; repeat (apply IH || e_step). Qed.

Lemma ends_stored_secrets names files g : WP (stored_secrets (I:=I) names files) g (ends g).
Proof.
  revert files g. induction names as [|n l IH]; intros files g; cbn [stored_secrets]; repeat (apply IH || e_step).
Qed.

Lemma ends_create_restored machine plan rid g : WP (create_restored cfg machine plan rid) g (ends g).
Proof.
  unfold create_restored, image_labels, schema_allows, control_plane_secrets, record.
  repeat (apply ends_stored_secrets || r_end).
Qed.

Lemma ends_start_restored j g : WP (start_restored cfg j) g (ends g).
Proof.
  unfold start_restored, start_fresh, raise_floor.
  repeat (apply ends_create_restored || apply ends_remove_others || r_end).
Qed.

Lemma ends_commit j g : WP (commit (I:=I) j) g (ends g).
Proof. unfold commit. repeat e_step. Qed.

Lemma ends_finish j st reason text restored g : WP (finish (I:=I) j st reason text restored) g (ends g).
Proof. unfold finish. repeat e_step. Qed.

Lemma ends_finish_restore j g : WP (finish_restore (I:=I) j) g (ends g).
Proof. unfold finish_restore, mark_restored, remove_import. repeat (apply ends_finish || r_end). Qed.

Lemma ends_fail_restore j at_ f g : WP (fail_restore (I:=I) j at_ f) g (ends g).
Proof. unfold fail_restore, remove_import, import_text, control_plane_tail. repeat (apply ends_finish || r_end). Qed.

(** ** The wait *)

Lemma verify_restored_loop_ends fuel d g (n : nat) :
  d - g <= Z.of_nat n * look → (n < fuel)%nat → WP (verify_restored_loop (I:=I) cfg fuel d) g (ends g).
Proof.
  revert g n. induction fuel as [|fuel IH]; intros g n Hd Hn; [lia|]. cbn [verify_restored_loop].
  apply ends_bind; [e_step|]. intros r g0 H0. apply ends_bind_ok; [e_step|]. intros [last|] g1 H1; [|e_step].
  split; [done|]. intros t Ht. cbn in Ht. cbn -[Z.leb Z.max]. destruct (Z.leb_spec d t).
  - unfold ends. simpl. lia.
  - split; [done|]. intros _u _. apply ends_from with (g1 := t + Z.max 0 look); [lia|].
    destruct n as [|n]; [lia|]. apply (IH _ n); lia.
Qed.

Lemma ends_verify_restored fuel g (n : nat) :
  verify_timeout (timing cfg) <= Z.of_nat n * look → (n < fuel)%nat → WP (verify_restored (I:=I) cfg fuel) g (ends g).
Proof.
  intros Hv Hn. unfold verify_restored. split; [done|]. intros t Ht. cbn in Ht |- *.
  apply ends_from with (g1 := t); [done|]. apply (verify_restored_loop_ends _ _ _ n); lia.
Qed.

(** ** The turns *)

(** Phases still to come. *)
Definition phases_left (p : RestorePhase) : nat :=
  match p with
  | RpAdmitted => 6 | RpChecking => 5 | RpStopping => 4 | RpLoading => 3
  | RpStarting => 2 | RpVerifying => 1 | RpDone => 0
  end.

Definition moves_on {A} (left : nat) (g : Z) (r : result (A * RestorePhase) Halt) (g' : Z) : Prop :=
  g <= g' ∧ match r with Ok (_, next) => (phases_left next < left)%nat | Err _ => True end.

Lemma moves_after {A B} (q : prog I (result A Halt)) (f : A → B) left next g :
  WP q g (ends g) → (phases_left next < left)%nat → WP (do? x <- q; Ret (Ok (f x, next))) g (moves_on left g).
Proof. intros Hq Hn. apply wp_bind_ok. eapply wp_mono; [exact Hq|]. by intros [x|e] g' H. Qed.

Lemma restore_phase_ends fuel j g (n : nat) :
  verify_timeout (timing cfg) <= Z.of_nat n * look → (n < fuel)%nat → r_phase (plan_of j) ≠ RpDone →
  WP (restore_phase cfg fuel j) g (moves_on (phases_left (r_phase (plan_of j))) g).
Proof.
  intros Hv Hn Hd. unfold restore_phase. cbv zeta. destruct (r_phase (plan_of j)); [| | | | | |done].
  - split; [lia|]. simpl. lia.
  - apply (moves_after _ (λ x, x)); [apply ends_check_restore|simpl; lia].
  - apply (moves_after _ (λ _, j)); [apply ends_stop_for_restore|]. case_bool_decide; simpl; lia.
  - apply (moves_after _ (λ _, j)); [apply ends_load_into|simpl; lia].
  - apply (moves_after _ (λ x, x)); [apply ends_start_restored|simpl; lia].
  - apply (moves_after _ (λ _, j)); [by apply (ends_verify_restored _ _ n)|simpl; lia].
Qed.

(** The journal written is at the phase that was next. *)
Lemma advance_restore_at j p g :
  WP (advance_restore (I:=I) j p) g (λ r g', g <= g' ∧ match r with Ok j' => r_phase (plan_of j') = p | Err _ => True end).
Proof.
  unfold advance_restore, commit. split; [done|]. intros k _. destruct k; [split; [apply Z.le_refl|done]|].
  split; [done|]. intros now _. cbv zeta. split; [done|]. intros [u|e] _; (split; [apply Z.le_refl|]); [|done].
  simpl. unfold plan_of. simpl. destruct (project_fields (update_plan (rs_set_phase p) j)) as (_ & _ & ->). done.
Qed.

Lemma run_restore_ends turns fuel j g (n : nat) :
  verify_timeout (timing cfg) <= Z.of_nat n * look → (n < fuel)%nat →
  (phases_left (r_phase (plan_of j)) < turns)%nat → WP (run_restore cfg turns fuel j) g (ends g).
Proof.
  intros Hv Hn. revert j g. induction turns as [|turns IH]; intros j g Ht; [lia|]. cbn [run_restore].
  destruct (is_open j); cbn [negb]; [|e_step]. cbv zeta. case_bool_decide as Hd.
  - apply ends_bind_ok; [apply ends_finish_restore|]. intros. e_step.
  - apply wp_bind. eapply wp_mono; [by apply (restore_phase_ends _ _ _ n)|].
    intros [[j1 next]|[|f]] g1 [H1 Hx]; [|done|].
    + apply ends_from with (g1 := g1); [done|]. apply wp_bind_ok. eapply wp_mono; [apply advance_restore_at|].
      intros [j2|e] g2 [H2 Hp]; [|done]. apply ends_from with (g1 := g2); [done|]. apply IH. rewrite Hp. lia.
    + apply ends_from with (g1 := g1); [done|]. apply ends_bind_ok; [apply ends_fail_restore|]. intros. e_step.
Qed.

(** (C12) A restore ends: whatever the container engine and the machine's files answer, and however
    long each answer takes, seven turns and the looks its verification's deadline allows bring it to
    an outcome or to the point where the process gives up. *)
Theorem run_restore_terminates turns fuel n j g l p :
  (7 <= turns)%nat → verify_timeout (timing cfg) <= Z.of_nat n * look → (n < fuel)%nat →
  reaches (run_restore cfg turns fuel j) l p → lawful (clock I) g l → p ≠ Spin.
Proof.
  intros Ht Hv Hn Hr Hl ->. assert (phases_left (r_phase (plan_of j)) < turns)%nat as Hp.
  { destruct (r_phase (plan_of j)); simpl; lia. }
  exact (wp_reaches _ _ _ _ _ _ _ (run_restore_ends turns fuel j g n Hv Hn Hp) Hr Hl).
Qed.
End waits.

(** * From a dump to its restore

    The dump [dump_now] keeps is one [restore --dump] finds, plans and accepts. *)

(** ** Names *)

Lemma pretty_N_go_length (x : N) s (k : nat) :
  (x < 10 ^ N.of_nat k)%N → (slen (pretty_N_go x s) <= k + slen s)%nat.
Proof.
  revert x s. induction k as [|k IH]; intros x s Hx.
  { replace x with 0%N by (simpl in Hx; lia). rewrite pretty_N_go_0. lia. }
  destruct (decide (0 < x)%N) as [H0|H0].
  - rewrite pretty_N_go_step by done. etransitivity; [apply IH|simpl; lia].
    apply N.Div0.div_lt_upper_bound. rewrite Nat2N.inj_succ, N.pow_succ_r' in Hx. lia.
  - replace x with 0%N by lia. rewrite pretty_N_go_0. lia.
Qed.

(** A schema of at most nine digits. *)
Lemma schema_digits (z : Z) :
  (0 <= z < 1000000000)%Z →
  (1 <= slen (pretty z) <= 9)%nat ∧ all_bytes is_ascii_digit (pretty z) = true.
Proof.
  intros Hz. destruct z as [|q|q]; [split; [vm_compute; lia|done]| |lia].
  change (pretty (Z.pos q)) with (pretty_N_go (N.pos q) EmptyString). split; [|by apply pretty_N_go_digits].
  split.
  - assert (∀ x s, (slen s <= slen (pretty_N_go x s))%nat) as Hge.
    { intros x. induction (N.lt_wf_0 x) as [x _ IH]. intros s. destruct (decide (0 < x)%N) as [Hx|Hx].
      - rewrite pretty_N_go_step by done. etransitivity; [|apply IH; by apply N.div_lt]. simpl. lia.
      - by replace x with 0%N by lia. }
    rewrite pretty_N_go_step by done. etransitivity; [|apply Hge]. simpl. lia.
  - etransitivity; [apply (pretty_N_go_length _ _ 9)|simpl; lia]. change (10 ^ N.of_nat 9)%N with 1000000000%N. lia.
Qed.

Lemma stake_app w rest : stake (slen w) (w +:+ rest) = w.
Proof. induction w as [|c w IH]; [by destruct rest|]. unfold slen in *. simpl. by rewrite IH. Qed.

Lemma uuid_prefix s : is_uuid s = true → slen (stake 8 s) = 8%nat ∧ all_bytes is_ascii_hexdigit (stake 8 s) = true.
Proof.
  unfold is_uuid. destruct (split_on_first "-" s) as (w & rest & ws & -> & -> & _ & _).
  unfold UUID_GROUPS. rewrite andb_true_iff. cbn [zip_with forallb]. rewrite andb_true_iff, andb_true_iff. cbn [fst snd].
  intros (_ & (Hl & Hh) & _). apply Nat.eqb_eq in Hl. rewrite <-Hl, stake_app. by rewrite Hl.
Qed.

Lemma ascii_lower_length s : slen (to_ascii_lowercase s) = slen s.
Proof. unfold slen. induction s as [|c s IH]; simpl; [done|]. by rewrite IH. Qed.

Lemma ascii_lower_hex s : all_bytes is_ascii_hexdigit s = true → all_bytes lower_hex (to_ascii_lowercase s) = true.
Proof.
  assert (∀ c, is_ascii_hexdigit c = true →
    lower_hex (if is_ascii_uppercase c then ascii_of_nat (nat_of_ascii c + 32) else c) = true) as Hc.
  { intros c. destruct c as [[] [] [] [] [] [] [] []]; vm_compute; done. }
  induction s as [|c s IH]; [done|]. cbn [all_bytes to_ascii_lowercase]. rewrite !andb_true_iff. intros [H1 H2].
  split; [by apply Hc|by apply IH].
Qed.

(** The names [free_name] chooses are names of dumps. *)
Lemma chosen_name_valid now schema rid name :
  stamp_ok (stamp now) = true → (0 <= schema < 1000000000)%Z → is_uuid rid = true →
  (let base := stamp now +:+ "-schema-" +:+ pretty schema in
   name = base ∨ name = base +:+ "-" +:+ to_ascii_lowercase (stake 8 rid)) →
  valid_name name = true ∧ is_import name = false.
Proof.
  intros Hst Hsc Hu Hn. destruct (schema_digits _ Hsc) as [Hl Hd]. destruct (uuid_prefix _ Hu) as [H8 Hx].
  assert (dump_name name) as Hdn.
  { destruct Hn as [->| ->]; [by apply schema_name|].
    replace ((stamp now +:+ "-schema-" +:+ pretty schema) +:+ "-" +:+ to_ascii_lowercase (stake 8 rid))
      with (stamp now +:+ "-schema-" +:+ pretty schema +:+ "-" +:+ to_ascii_lowercase (stake 8 rid)).
    - apply shared_name; try done; [by rewrite ascii_lower_length|by apply ascii_lower_hex].
    - by rewrite !sapp_assoc. }
  split; [by apply valid_name_spec|]. unfold is_import, starts_with.
  assert (∀ r, String.prefix IMPORT_PREFIX (stamp now +:+ r) = false) as Hno.
  { intros r. pose proof (stamp_bytes _ Hst) as Hb. destruct (stamp now) as [|c st]; [done|].
    change (String c st +:+ r) with (String c (st +:+ r)). unfold IMPORT_PREFIX. cbn [String.prefix].
    destruct (ascii_dec "i" c) as [<-|Hne]; [by vm_compute in Hb|done]. }
  destruct Hn as [->| ->]; [by rewrite Hno|]. by rewrite <-sapp_assoc, Hno.
Qed.

(** ** The round trip *)

(** What the plan of a record takes over. *)
Lemma plan_record_fields name force_ to r p :
  plan_record name force_ to r = Ok p →
  r_phase p = RpAdmitted ∧ r_dump p = Some name ∧ r_imported p = false ∧ r_fresh_install p = false ∧
  dr_control_plane r = Some (r_control_plane p) ∧ r_recipe_revision p = dr_recipe_revision r ∧
  r_schema_version p = Some (dr_schema_version r).
Proof.
  unfold plan_record. intros H.
  assert ((let? image := ok_or (dr_control_plane r) ("dump " +:+ name +:+ " does not record its control plane") in
      Ok (mkRestoreJ RpAdmitted (Some name) false false None image (dr_recipe_revision r)
        (Some (dr_schema_version r)) (dr_returns_to r) (Some (dr_created_at r)) None)) = Ok p) as Hp.
  { destruct (dr_restored_by r), force_; try done; destruct to, (dr_returns_to r); try done; simpl in H;
      destruct (str_eqb _ _); try done. }
  destruct (dr_control_plane r); [|done]. by injection Hp as <-.
Qed.

Section roundtrip.
Context {I : Type} `{!ReplaceDeps I} {DD : DumpDeps}.

(** ** Checking a restore of it *)

(** A machine that is as it was when the dump [r] was taken: its state can be read, the control
    plane's image [im] and the database's are there, the dump's file and its checksum on record are unchanged, a
    helper runs to its end and reads the recorded schema back, Postgres runs, the control planes'
    names are free or this installation's own, and the machine directory is mounted from a path. *)
Definition as_recorded (cfg : Config) (machine : Machine I) (im : Image) (r : DumpRecord) {X} (e : eff I X) : X → Prop :=
  match e in eff _ X return X → Prop with
  | LoadMachine => λ a, a = Ok (Some machine)
  | InspectImage ref => λ a, ∃ im', a = Ok (Some im') ∧ (reference <$> dr_control_plane r = Some ref → im' = im)
  | LoadDump _ => λ a, ∃ r', a = Ok (Some r') ∧ dr_sha256 r' = dr_sha256 r
  | ExamineDump _ => λ a, ∃ size, a = Ok (size, dr_sha256 r, true)
  | LoadService _ => λ a, ∀ image,
      match a with Ok (Some s) => Some (sr_image s) | _ => m_install_images machine !! role_str Postgres end = Some image →
      is_ok (parse_image debug_str (reference image)) = true
  | InspectContainer n => λ a,
      (n = NAME_DB_HELPER → a = Ok None) ∧
      (n = NAME_POSTGRES → ∃ c, a = Ok (Some c) ∧ c_running c = true) ∧
      (n ∈ control_planes → a = Ok None ∨ ∃ c, a = Ok (Some c) ∧ is_ours machine c ControlPlane = true) ∧
      (self_container cfg = Some n → ∃ c m, a = Ok (Some c) ∧
         find_first (λ m, str_eqb m.1.2 MACHINE_DIR) (c_mounts c) = Some m ∧ starts_with "/" m.1.1 = true)
  | CreateContainer _ => λ a, ∃ id, a = Ok id
  | StartContainer _ => λ a, a = Ok ()
  | WaitContainer _ _ => λ a, a = Ok 0
  | LogsTail _ _ => λ a, ∃ out, a = Ok out ∧ parse_schema out = Some (mkSchema (dr_schema_version r) false)
  | RemoveContainer _ => λ a, a = Ok ()
  | _ => λ _, True
  end.

Definition recorded_world (cfg : Config) (machine : Machine I) (im : Image) (r : DumpRecord) : Monitor I unit :=
  mkMonitor I unit (λ _ _ _, True) (λ X _ e, as_recorded cfg machine im r e) (λ _ _ _ _, ()).

Section accepting.
Context (cfg : Config) (machine : Machine I) (im : Image) (r : DumpRecord).
Hypothesis Howned : owned_database (m_inputs machine) = true.
Hypothesis Hdir : is_Some (machine_dir_host cfg) ∨ is_Some (self_container cfg).

Local Abbreviation WP p Q := (wp (recorded_world cfg machine im r) False p () (λ a _, Q a)).

Definition gets {A E} (P : A → Prop) (x : result A E) : Prop := ∃ a, x = Ok a ∧ P a.

Lemma gets_bind_ok {A B E} (p : prog I (result A E)) (f : A → prog I (result B E)) P Q :
  WP p (gets P) → (∀ a, P a → WP (f a) Q) → WP (bind_ok p f) Q.
Proof. intros Hp Hf. apply wp_bind_ok. eapply wp_mono; [exact Hp|]. intros ? [] (a & -> & Ha). by apply Hf. Qed.

Lemma gets_map_errp {A E F} (f : E → F) (p : prog I (result A E)) P : WP p (gets P) → WP (map_errp f p) (gets P).
Proof. intros Hp. apply wp_map_errp. eapply wp_mono; [exact Hp|]. intros ? [] (a & -> & Ha). by exists a. Qed.

Lemma gets_call {A E} (e : eff I (result A E)) P :
  (∀ x, as_recorded cfg machine im r e x → gets P x) → WP (call e) (gets P).
Proof. intros H. split; [done|]. intros x Hx. by apply H. Qed.

Lemma gets_ret {A E} (a : A) (P : A → Prop) : P a → WP (Ret (Ok (E:=E) a)) (gets P).
Proof. intros Ha. by exists a. Qed.

Lemma helper_spec_gets op file :
  WP (helper_spec cfg machine op (Some file)) (gets (λ spec, cs_name spec = NAME_DB_HELPER ∧
    is_ok (parse_image debug_str (cs_image spec)) = true)).
Proof.
  unfold helper_spec. destruct (database (m_inputs machine)) as [d|] eqn:Hd; [|by unfold owned_database in Howned; rewrite Hd in Howned].
  apply (gets_bind_ok _ _ (λ _, True)); [by apply gets_ret|]. intros ? _.
  apply (gets_bind_ok _ _ (λ image, is_ok (parse_image debug_str (reference image)) = true)).
  { apply gets_map_errp. unfold helper_image. rewrite Howned. split; [done|]. intros x Hx. cbn [bind].
    destruct (match x with Ok (Some s) => Some (sr_image s) | _ => _ end) as [image|] eqn:Ei.
    - apply gets_ret. by apply Hx.
    - destruct (parse_image debug_str DEFAULT_POSTGRES_IMAGE) as [d0|] eqn:Ed; vm_compute in Ed; [|done].
      injection Ed as <-. apply gets_ret. vm_compute. reflexivity. }
  intros image Himg. cbv zeta. destruct (reads_file op); [|by apply gets_ret].
  apply (gets_bind_ok _ _ (λ _, True)); [by apply gets_ret|]. intros ? _.
  apply (gets_bind_ok _ _ (λ _, True)); [|intros dir _; by apply gets_ret].
  unfold machine_host_dir. destruct (machine_dir_host cfg) as [path|]; [by apply gets_ret|].
  destruct Hdir as [[? ?]|[me Hme]]; [done|]. rewrite Hme.
  apply (gets_bind_ok _ _ (λ n, n = me)); [by apply gets_ret|]. intros ? ->.
  apply (gets_bind_ok _ _ (λ o, ∃ c m, o = Some c ∧ find_first (λ m, str_eqb m.1.2 MACHINE_DIR) (c_mounts c) = Some m ∧ starts_with "/" m.1.1 = true)).
  { apply gets_map_errp, gets_call. intros x (_ & _ & _ & H). destruct (H Hme) as (c & m & -> & Hm). exists (Some c).
    split; [done|]. by exists c, m. }
  intros ? (c & m & -> & Hm & Hs). apply (gets_bind_ok _ _ (λ a, a = c)); [by apply gets_ret|]. intros ? ->. rewrite Hm.
  apply (gets_bind_ok _ _ (λ a, a = m)); [by apply gets_ret|]. intros ? ->. cbv zeta. rewrite Hs. by apply gets_ret.
Qed.

Lemma ensure_image_gets failed image :
  WP (ensure_image failed image) (gets (λ im', dr_control_plane r = Some image → im' = im)).
Proof.
  unfold ensure_image. cbv zeta.
  apply (gets_bind_ok _ _ (λ o, ∃ im', o = Some im' ∧ (dr_control_plane r = Some image → im' = im))).
  - apply gets_map_errp, gets_call. intros x (im' & -> & H). exists (Some im'). split; [done|]. exists im'. split; [done|].
    intros Hc. apply H. by rewrite Hc.
  - intros ? (im' & -> & H). by apply gets_ret.
Qed.

Lemma helper_ran_gets id spec t :
  WP (helper_ran id spec t) (gets (λ x, x.1 = 0 ∧ parse_schema x.2 = Some (mkSchema (dr_schema_version r) false))).
Proof.
  unfold helper_ran. apply (gets_bind_ok _ _ (λ _, True)).
  { apply gets_map_errp, gets_call. intros x ->. by exists (). }
  intros ? _. split; [done|]. intros x ->. split; [done|]. intros x (out & -> & Hout). by exists (0, out).
Qed.

Lemma run_db_gets op file :
  WP (run_db cfg machine op (Some file)) (gets (λ x, x.1 = 0 ∧ parse_schema x.2 = Some (mkSchema (dr_schema_version r) false))).
Proof.
  unfold run_db. eapply gets_bind_ok; [apply helper_spec_gets|]. intros spec [Hn Hi].
  apply (gets_bind_ok _ _ (λ _, True)).
  { destruct (parse_image _ _); [by apply gets_ret|done]. }
  intros image _. eapply gets_bind_ok; [apply ensure_image_gets|]. intros im' _.
  unfold run_helper. cbv zeta. rewrite Hn.
  apply (gets_bind_ok _ _ (λ o, o = None)).
  { apply gets_map_errp, gets_call. intros x (H & _). rewrite (H eq_refl). by exists None. }
  intros ? ->. apply (gets_bind_ok _ _ (λ _, True)); [by apply gets_ret|]. intros ? _.
  apply (gets_bind_ok _ _ (λ _, True)).
  { apply gets_map_errp, gets_call. intros x (id & ->). by exists id. }
  intros id _. apply wp_bind. eapply wp_mono; [apply helper_ran_gets|].
  intros ? [] ([code out] & -> & H). split; [done|]. intros x ->. by exists (code, out).
Qed.

Lemma check_dump_gets name p :
  r_schema_version p = Some (dr_schema_version r) →
  WP (check_dump cfg machine name p) (gets (λ s, s = mkSchema (dr_schema_version r) false)).
Proof.
  intros Hv. unfold check_dump.
  apply (gets_bind_ok _ _ (λ o, ∀ r', o = Some r' → dr_sha256 r' = dr_sha256 r)).
  { destruct (r_imported p); [by apply gets_ret|].
    apply (gets_bind_ok _ _ (λ o, ∃ r', o = Some r' ∧ dr_sha256 r' = dr_sha256 r)).
    { apply gets_map_errp, gets_call. intros x (r' & -> & Hs). eexists. split; [done|]. by exists r'. }
    intros ? (r' & -> & Hs). apply (gets_bind_ok _ _ (λ o, o = r')); [by apply gets_ret|]. intros ? ->.
    apply gets_ret. by intros ? [= <-]. }
  intros rec Hrec. apply (gets_bind_ok _ _ (λ ex, ex.1.2 = dr_sha256 r ∧ ex.2 = true)).
  { apply gets_map_errp, gets_call. intros x (size & ->). by eexists. }
  intros [[size sha] magic] [H1 H2]. cbn [fst snd] in H1, H2. subst. cbn [negb].
  assert (match rec with Some r' => negb (str_eqb (dr_sha256 r') (dr_sha256 r)) | None => false end = false) as ->.
  { destruct rec as [r'|]; [|done]. by rewrite (Hrec r' eq_refl), str_eqb_refl. }
  eapply gets_bind_ok; [apply gets_map_errp, run_db_gets|]. intros [code out] [H1 H2]. cbn [fst snd] in H1, H2. subst code.
  rewrite H2. apply (gets_bind_ok _ _ (λ s, s = mkSchema (dr_schema_version r) false)); [by apply gets_ret|].
  intros ? ->. rewrite Hv. cbn [sch_version]. rewrite Z.eqb_refl. by apply gets_ret.
Qed.

Lemma check_owner_gets names :
  (∀ n, n ∈ names → n ∈ control_planes) → WP (check_owner machine names) (gets (λ _, True)).
Proof.
  induction names as [|n names IH]; intros Hn; cbn [check_owner]; [by apply gets_ret|].
  apply (gets_bind_ok _ _ (λ o, match o with Some c => is_ours machine c ControlPlane = true | None => True end)).
  { apply gets_map_errp, gets_call. intros x (_ & _ & H & _). destruct (H (Hn n ltac:(left))) as [->|(c & -> & Hc)]; by eexists. }
  assert (WP (check_owner machine names) (gets (λ _, True))) as Hrest by (apply IH; intros; apply Hn; by right).
  intros [c|] Hc; [by rewrite Hc|done].
Qed.

(** Checking accepts the restore of a dump whose control plane declared its schema. *)
Lemma check_restore_gets j name rev :
  let p := plan_of j in
  r_dump p = Some name → r_imported p = false → dr_control_plane r = Some (r_control_plane p) →
  r_recipe_revision p = Some rev → book_supports ControlPlane rev = true →
  r_schema_version p = Some (dr_schema_version r) → image_schema im = Some (dr_schema_version r) →
  WP (check_restore cfg j) (λ x, x = Ok (update_plan (rs_checked rev (dr_schema_version r) (r_migrates_to p)) j)).
Proof.
  intros p Hd Hi Hc Hrev Hb Hv Him. unfold check_restore. cbv zeta. fold p.
  apply (gets_bind_ok _ _ (λ m, m = machine)).
  { apply gets_map_errp. unfold restore_machine. split; [done|]. intros x ->. by eexists. }
  intros ? ->. eapply gets_bind_ok; [apply gets_map_errp, ensure_image_gets|]. intros im' Him'. rewrite (Him' Hc).
  assert (check_target p im = Ok (rev, dr_schema_version r)) as ->.
  { unfold check_target. rewrite Hrev. by rewrite Hb, Him. }
  apply (gets_bind_ok _ _ (λ x, x = (rev, dr_schema_version r))); [by apply gets_ret|]. intros ? ->.
  unfold check_source. rewrite Hd. eapply gets_bind_ok; [by apply check_dump_gets|]. intros ? ->.
  assert (check_match p (mkSchema (dr_schema_version r) false) (dr_schema_version r) = Ok tt) as ->.
  { unfold check_match. cbn [sch_dirty sch_version]. by rewrite Hi, Z.eqb_refl. }
  apply (gets_bind_ok _ _ (λ _, True)); [by apply gets_ret|]. intros ? _. rewrite Howned.
  apply (gets_bind_ok _ _ (λ _, True)).
  { apply (gets_bind_ok _ _ (λ o, ∃ c, o = Some c ∧ c_running c = true)).
    - apply gets_map_errp, gets_call. intros x (_ & H & _). destruct (H eq_refl) as (c & -> & Hr). eexists. split; [done|]. by exists c.
    - intros ? (c & -> & ->). by apply gets_ret. }
  intros ? _. eapply gets_bind_ok; [by apply check_owner_gets|]. intros ? _. by rewrite Hi.
Qed.
End accepting.

(** An execution all of whose answers are those of a machine that is as it was. *)
Definition unchanged (cfg : Config) (machine : Machine I) (im : Image) (r : DumpRecord) (l : list (event I)) : Prop :=
  Forall (λ ev, as_recorded cfg machine im r (ev_call ev) (ev_answer ev)) l.

Lemma unchanged_lawful cfg machine im r l : unchanged cfg machine im r l → lawful (recorded_world cfg machine im r) () l.
Proof. induction 1 as [|ev l H _ IH]; [done|]. by split. Qed.

End roundtrip.
