(* ===== verification/RestoreRefusals.v ===== *)
(** * Admission and refusal of a restore

    What [submit_restore] admits is well formed and excludes every other attempt, and what
    [checking] refuses it refuses with a reason and the words that nothing was changed; a dump of a
    control plane whose image declares no schema is kept, and refused whenever it is restored. *)
From S2P Require Import Prelude Platform Wire Journal Settle Trust Effects DumpDir Replace Submit SubmitProofs Database Frames DumpRun Restore RestoreWaits RestoreSpec.

(** ** Refusals *)

Definition mentions (t s : string) : Prop := ∃ a b, s = a +:+ t +:+ b.

Lemma mentions_app t a s : mentions t s → mentions t (a +:+ s).
Proof. intros (x & y & ->). exists (a +:+ x), y. by rewrite !sapp_assoc. Qed.

(** The words a refusal at [checking] has, and its reasons. *)
Definition unchanged_words : string := "Nothing was changed".

Record refused (h : Halt) : Prop := mkRefused {
  rf_reason : match h with Died => True | HFail f => fl_reason f ∈ [Invalid; RecipeUnsupported; OwnerConflict] end;
  rf_words : match h with Died => True | HFail f => mentions unchanged_words (fl_detail f) end }.

Lemma nothing_changed_refused why : refused (nothing_changed why).
Proof.
  split; [by left|]. apply mentions_app.
  exists ". ", ": the database and the control plane are as they were". reflexivity.
Qed.

Lemma check_halt_refused what e : refused (check_halt what e).
Proof. destruct e; [by split|apply nothing_changed_refused]. Qed.

Lemma checking_engine_refused e : refused (checking_engine e).
Proof. destruct e; [apply nothing_changed_refused|apply nothing_changed_refused|by split]. Qed.

Lemma check_target_refused p im : match check_target p im with Ok _ => True | Err h => refused h end.
Proof.
  unfold check_target.
  destruct (r_recipe_revision p) as [rev|].
  2: { destruct (control_plane_revision im) as [rev|]; [|apply nothing_changed_refused]. cbn [ok_or].
       destruct (negb (book_supports ControlPlane rev)) eqn:E; [|destruct (image_schema im); [done|apply nothing_changed_refused]].
       split; [by right; left|]. do 4 apply mentions_app. by exists "). ", EmptyString. }
  destruct (negb (book_supports ControlPlane rev)) eqn:E; [|destruct (image_schema im); [done|apply nothing_changed_refused]].
  split; [by right; left|]. do 4 apply mentions_app. by exists "). ", EmptyString.
Qed.

Lemma check_match_refused p s t : match check_match p s t with Ok _ => True | Err h => refused h end.
Proof.
  unfold check_match. destruct (sch_dirty s); [apply nothing_changed_refused|].
  destruct (if r_imported p then _ else _); [done|apply nothing_changed_refused].
Qed.

Section refusals.
Context {I : Type} `{!ReplaceDeps I} {DD : DumpDeps} (cfg : Config).
Implicit Types (g : list (event I)).

Local Abbreviation WP q g Q := (wp (recorder I) True q g Q).

(** A procedure whose every error is a refusal. *)
Definition refuses {A} (r : result A Halt) (_ : list (event I)) : Prop :=
  match r with Ok _ => True | Err h => refused h end.

Lemma refuses_bind_ok {A B} (p : prog I (result A Halt)) (f : A → prog I (result B Halt)) g :
  WP p g refuses → (∀ a g', WP (f a) g' refuses) → WP (bind_ok p f) g refuses.
Proof. intros Hp Hf. apply wp_bind_ok. eapply wp_mono; [exact Hp|]. by intros [a|h] g'; [intros _; apply Hf|]. Qed.

Lemma refuses_map_errp {A E} (h : E → Halt) (p : prog I (result A E)) g :
  (∀ e, refused (h e)) → WP (map_errp h p) g refuses.
Proof.
  intros Hh. apply wp_map_errp. eapply wp_mono; [apply (grows p)|]. intros [a|e] g' _; [done|]. apply Hh.
Qed.

Lemma refuses_ret {A} (r : result A Halt) g : (∀ h, r = Err h → refused h) → WP (Ret r) g refuses.
Proof. destruct r; [done|]. intros H. by apply H. Qed.

Ltac by_refusal :=
  first [apply nothing_changed_refused|apply check_halt_refused|apply checking_engine_refused].
Ltac refuse_step :=
  match goal with
  | |- wp _ _ (bind_ok _ _) _ _ => apply refuses_bind_ok; [|intros ? ?]
  | |- wp _ _ (map_errp _ _) _ _ => apply refuses_map_errp; intros; by_refusal
  | |- wp _ _ (Ret (Ok _)) _ _ => exact Logic.I
  | |- wp _ _ (Ret (Err _)) _ _ => apply refuses_ret; intros ? [= <-]; by_refusal
  | |- wp _ _ (Ret (ok_or ?o _)) _ _ => destruct o; cbn [ok_or]
  | |- wp _ _ (Ret (check_target _ _)) _ _ => apply check_target_refused
  | |- wp _ _ (Ret (check_match _ _ _)) _ _ => apply check_match_refused
  | |- wp _ _ (Ret (if ?x then _ else _)) _ _ => destruct x
  | |- wp _ _ (Ret (match ?x with _ => _ end)) _ _ => destruct x
  | |- wp _ _ (let _ := _ in _) _ _ => cbv zeta
  | |- wp _ _ (match ?x with _ => _ end) _ _ => destruct x
  end.

Lemma no_control_plane_running_refuses names g : WP (no_control_plane_running names) g refuses.
Proof. revert g. induction names as [|n l IH]; intros g; cbn [no_control_plane_running]; repeat (apply IH || refuse_step). Qed.

Lemma check_owner_refuses machine names g : WP (check_owner machine names) g refuses.
Proof.
  revert g. induction names as [|n l IH]; intros g; cbn [check_owner]; [done|].
  refuse_step; [refuse_step|]. destruct a as [c|]; [|apply IH]. destruct (is_ours _ _ _); cbn [negb]; [apply IH|].
  split; [by right; right; left|]. do 4 apply mentions_app.
  by exists ") is not this installation's; it is never acted on. Remove it, then run the command again. ", EmptyString.
Qed.

Lemma check_source_refuses machine plan g : WP (check_source cfg machine plan) g refuses.
Proof. unfold check_source, check_dump. repeat (apply no_control_plane_running_refuses || refuse_step). Qed.

Lemma check_restore_refuses j g : WP (check_restore cfg j) g refuses.
Proof. unfold check_restore. repeat (apply check_source_refuses || apply check_owner_refuses || refuse_step). Qed.

(** (C13) Whatever checking a restore finds wrong, it refuses with one of three reasons and with the
    words that nothing was changed; it has no other error but the process's end. *)
Theorem check_refusals j l f :
  reaches (check_restore cfg j) l (Ret (Err (HFail f))) →
  fl_reason f ∈ [Invalid; RecipeUnsupported; OwnerConflict] ∧ mentions unchanged_words (fl_detail f).
Proof.
  intros Hr. pose proof (wp_reaches _ _ _ _ _ _ _ (check_restore_refuses j []) Hr (all_lawful _ _)) as [H1 H2].
  by split.
Qed.
End refusals.

(** ** Admission *)

(** What [submit_restore] may write, by the calls it made. *)
Definition admissible {I} `{!ReplaceDeps I} (req : Request) (g : list (event I)) (j : Journal) : Prop :=
  is_uuid (request_id req) = true ∧ rq_kind req = KRestore ∧ components req = [] ∧
  saw g (LoadJournal (request_id req)) (Ok None) ∧ saw g (WasUsed (request_id req)) (Ok false) ∧ saw g Resuming false ∧
  (∃ sc, saw g ScanJournals sc ∧ scan_open_id sc = None) ∧ (∃ sc, saw g ScanJournals sc ∧ j_seq j = next_seq sc) ∧
  (∃ m, saw g LoadMachine (Ok (Some m)) ∧ m_role m ≠ Gpu ∧ is_Some (database (m_inputs m))) ∧
  is_restore j ∧ r_phase (plan_of j) = RpAdmitted ∧ is_open j = true ∧ request_id (j_request j) = request_id req.

(** The calls, and that a journal is written only when admissible. *)
Definition admits (I : Type) `{!ReplaceDeps I} (req : Request) : Monitor I (list (event I)) :=
  mkMonitor I (list (event I))
    (λ X g e, match e with StoreJournal j => admissible req g j | _ => True end)
    (λ X g e x, True) (λ X g e x, mkEvent e x :: g).

Definition no_store {I X} (e : eff I X) : Prop := match e with StoreJournal _ => False | _ => True end.

Definition admitting (I : Type) `{!ReplaceDeps I} (req : Request) : Frame (admits I req).
Proof.
  refine (mkFrame I _ (admits I req) grew _ (λ X g e, no_store e) _
    (λ X g e x _ _ ev H, proj2 (elem_of_cons g ev (mkEvent e x)) (or_intror H)) (λ X g g' e _ H, H) _).
  - by intros X g e; destruct e.
  - done.
Defined.

Section admission.
Context {I : Type} `{!ReplaceDeps I} (req : Request).
Implicit Types (g : list (event I)).

Local Abbreviation F := (admitting I req).
Local Abbreviation WP q g Q := (wp (admits I req) True q g Q).

Ltac k_step :=
  match goal with
  | |- wp _ _ (call _) _ (keeps_frame _ _) => apply (kf_call F); exact Logic.I
  | |- wp _ _ (Ret _) _ (keeps_frame _ _) => apply kf_ret
  | |- wp _ _ (map_errp _ _) _ (keeps_frame _ _) => apply kf_map_errp
  | |- wp _ _ (bind_ok _ _) _ (keeps_frame _ _) => apply kf_bind_ok; [|intros ? ? ?]
  | |- wp _ _ (bind _ _) _ (keeps_frame _ _) => apply kf_bind; [|intros ? ? ?]
  end.

Definition planned (p : RestoreJ) (_ : list (event I)) : Prop := r_phase p = RpAdmitted ∧ plan_wf p.

Lemma admitted_wf p :
  r_phase p = RpAdmitted → r_fresh_install p = r_imported p → (r_imported p = true → is_Some (r_dump p)) → plan_wf p.
Proof. intros Hp Hf Hi. split; rewrite ?Hp; done. Qed.

Lemma plan_import_gives machine name to g :
  WP (plan_import machine (mkRestoreJ RpAdmitted (Some name) false false None dummy_image None None None None None) to)
    g (gives F planned g).
Proof.
  unfold plan_import. apply (gives_skip F); [unfold control_plane_never_created; repeat k_step|].
  intros never g1 _. destruct (negb never).
  - apply (gives_bind F); [k_step|]. intros over g2 _. by apply (gives_ret F).
  - destruct to; [by apply (gives_ret F)|]. apply (gives_ret F).
    destruct (m_install_images machine !! _); [|done]. split; [done|]. by apply admitted_wf.
Qed.

Lemma plan_restore_gives machine g : WP (plan_restore machine req) g (gives F planned g).
Proof.
  unfold plan_restore. cbv zeta. set (to := match rel_version _ with Some v => _ | None => None end). clearbody to.
  destruct (rq_dump req) as [name|], (owned_database (m_inputs machine)); try by apply (gives_ret F).
  - destruct (negb (valid_name name)); [by apply (gives_ret F)|].
    apply (gives_bind F); [k_step|]. intros there g1 _. destruct (negb there); [by apply (gives_ret F)|].
    destruct (is_import name); [apply plan_import_gives|].
    apply (gives_skip F); [repeat k_step|]. intros r g2 _. apply (gives_skip F); [k_step|]. intros rec g3 _.
    apply (gives_ret F). destruct (plan_record _ _ _ _) as [p|] eqn:Hp; [|done].
    destruct (plan_record_fields _ _ _ _ _ Hp) as (H1 & H2 & H3 & H4 & _). split; [done|].
    apply admitted_wf; [done|congruence|]. by rewrite H3.
  - apply (gives_skip F); [k_step|]. intros t g1 _. apply (gives_skip F); [repeat k_step|]. intros p g2 _.
    apply (gives_skip F); [k_step|]. intros q g3 _. apply (gives_ret F).
    destruct (negb _); [done|]. split; [done|]. by apply admitted_wf.
Qed.

(** The guards. *)
Lemma grade_restore_gives g :
  WP (grade_restore req) g (gives F (λ _ g', rq_kind req = KRestore ∧ components req = [] ∧
    saw g' (WasUsed (request_id req)) (Ok false) ∧ saw g' Resuming false ∧
    ∃ sc, saw g' ScanJournals sc ∧ scan_open_id sc = None) g).
Proof.
  unfold grade_restore. apply wp_bind, (fr_call F); [done|]. intros used _ Hf1. cbn [advance_ghost admits] in *.
  destruct used as [[]|]; [by split| |by split].
  apply wp_bind, (fr_call F); [done|]. intros r _ Hf2. cbn [advance_ghost admits] in *.
  destruct r; [split; [by etransitivity|done]|].
  destruct (bool_decide (rq_kind req = KRestore)) eqn:Hk; cbn [negb orb]; [|split; [by etransitivity|done]].
  destruct (bool_decide (components req = [])) eqn:Hc; cbn [negb]; [|split; [by etransitivity|done]].
  apply wp_bind, (fr_call F); [done|]. intros sc _ Hf3. cbn [advance_ghost admits] in *.
  split; [by do 2 (etransitivity; [eassumption|])|]. destruct (scan_open_id sc) eqn:Hs; [done|].
  apply bool_decide_eq_true in Hk, Hc. split_and!; [done|done| | |].
  - apply Hf3, Hf2. by left.
  - apply Hf3. by left.
  - exists sc. split; [by left|done].
Qed.

Lemma submit_restore_spec g : WP (submit_restore req) g (λ _ _, True).
Proof.
  unfold submit_restore. destruct (is_uuid (request_id req)) eqn:Hu; cbn [negb]; [|done].
  apply wp_bind, (fr_call F); [done|]. intros known _ Hf1.
  set (g1 := advance_ghost _ _ _ _) in *. assert (saw g1 (LoadJournal (request_id req)) known) as Hkn by (by left). clearbody g1.
  destruct known as [[j|]|]; [done| |done].
  apply wp_bind_ok. eapply wp_mono; [apply grade_restore_gives|]. intros [[]|] g2 [Hf2 H2]; [|done].
  destruct H2 as (Hk & Hc & Hus & Hre & sc & Hsc & Hno).
  apply wp_bind, (fr_call F); [done|]. intros m _ Hf3.
  set (g3 := advance_ghost _ _ _ _) in *. assert (saw g3 LoadMachine m) as Hm by (by left). clearbody g3.
  apply wp_bind_ok. destruct (restorable_machine req m) as [machine|] eqn:Hrm; [|done].
  assert (m = Ok (Some machine) ∧ m_role machine ≠ Gpu ∧ is_Some (database (m_inputs machine))) as (-> & Hrole & Hdb).
  { unfold restorable_machine in Hrm. destruct m as [[m|]|]; try done.
    destruct (bool_decide (m_role m = Gpu)) eqn:E1; [done|]. destruct (bool_decide (is_Some _)) eqn:E2; [|done].
    injection Hrm as ->. apply bool_decide_eq_false in E1. by apply bool_decide_eq_true in E2. }
  change (WP (do? plan <- map_errp (refuse req Invalid) (plan_restore machine req);
      do now <- call NowStamp; do sc <- call ScanJournals;
      do r <- call (StoreJournal (restore_journal req (next_seq sc) now plan));
      match r with
      | Err e => Ret (Err (refuse req Busy ("the journal could not be written (" +:+ e +:+ "); nothing was admitted")))
      | Ok _ =>
          do _ <- call (MarkUsed (request_id req));
          do _ <- call (SpawnDriver (request_id req));
          Ret (Ok (mkAccepted (request_id req) []))
      end) g3 (λ _ _, True)).
  apply wp_bind_ok. eapply wp_mono; [eapply (gives_map_errp F), plan_restore_gives|]. intros [plan|] g4 [Hf4 Hp]; [|done].
  destruct Hp as [Hp Hw].
  apply wp_bind, (fr_call F); [done|]. intros now _ Hf5. set (g5 := advance_ghost _ _ _ _) in *. clearbody g5.
  apply wp_bind, (fr_call F); [done|]. intros sc' _ Hf6.
  set (g6 := advance_ghost _ _ _ _) in *. assert (saw g6 ScanJournals sc') as Hsc' by (by left). clearbody g6.
  assert (frame F g3 g6) as H36 by (do 2 (etransitivity; [eassumption|]); exact Hf6).
  assert (frame F g2 g6) as H26 by (etransitivity; [exact Hf3|exact H36]).
  assert (frame F g1 g6) as H16 by (etransitivity; [exact Hf2|exact H26]).
  apply wp_bind. split; [|intros [u|e] _; [|done]; repeat (split; [done|]; intros ? _); done].
  split_and!; try done.
  - by apply H16.
  - by apply H26.
  - by apply H26.
  - exists sc. split; [by apply H26|done].
  - by exists sc'.
  - exists machine. split; [by apply H36|done].
  - split; [done|]. by exists plan.
Qed.

(** A restore's journal is written only for a new request of the operator's that names no
    component, when the machine has settled its start, no attempt is open and the machine has a
    database; and it is well formed, with the next number of the journals and nothing touched yet:
    it is a journal the machine of [RestoreSafety] starts from. *)
Theorem submit_restore_admits j l k :
  reaches (submit_restore req) l (Vis (StoreJournal j) k) →
  admissible req (history (recorder I) [] l) j.
Proof.
  intros Hr.
  assert (∀ g l', lawful (admits I req) g l') as Hl by (intros g l'; revert g; induction l'; [done|by split]).
  destruct (wp_reaches _ _ _ _ _ _ _ (submit_restore_spec []) Hr (Hl _ _)) as [Hreq _].
  assert (∀ g, history (admits I req) g l = history (recorder I) g l) as He.
  { clear. induction l as [|ev l IH]; intros g; [done|]. simpl. apply IH. }
  by rewrite He in Hreq.
Qed.
End admission.

(** ** A dump that no restore can use *)

Lemma reaches_first {I A} (p : prog I A) l b :
  reaches p l (Ret b) →
  match p with
  | Ret a => l = [] ∧ a = b
  | Spin => False
  | Vis e k => ∃ x l', l = mkEvent e x :: l' ∧ reaches (k x) l' (Ret b)
  end.
Proof.
  intros H. remember (Ret b) as q eqn:E. destruct H as [p|X e k x l p' H]; subst; [done|]. by exists x, l.
Qed.

Lemma reaches_bind_ret {I A B} (p : prog I A) (f : A → prog I B) l b :
  reaches (bind p f) l (Ret b) → ∃ a l1 l2, l = l1 ++ l2 ∧ reaches p l1 (Ret a) ∧ reaches (f a) l2 (Ret b).
Proof.
  revert l. induction p as [a| |X e k IH]; intros l H; cbn [bind] in H.
  - exists a, [], l. split; [done|]. split; [constructor|done].
  - by apply reaches_first in H.
  - apply reaches_first in H as (x & l' & -> & H'). destruct (IH x l' H') as (a & l1 & l2 & -> & H1 & H2).
    exists a, (mkEvent e x :: l1), l2. split; [done|]. split; [by constructor|done].
Qed.

Lemma reaches_bound {I A B} (p : prog I A) (f : A → prog I B) l1 l2 a q :
  reaches p l1 (Ret a) → reaches (f a) l2 q → reaches (bind p f) (l1 ++ l2) q.
Proof.
  intros H. remember (Ret a) as r eqn:E. revert E. induction H as [p|X e k x l p' H IH]; intros -> H2; [done|].
  cbn. constructor. by apply IH.
Qed.

Section unlabelled.
Context {I : Type} `{!ReplaceDeps I} {DD : DumpDeps}.

(** Whatever calls and answers make [p] succeed make [q] succeed with the same. *)
Definition succeeds_as {A E} (p q : prog I (result A E)) : Prop :=
  ∀ l a, reaches p l (Ret (Ok a)) → reaches q l (Ret (Ok a)).

Lemma succeeds_bind {A B E} (p : prog I A) (f f' : A → prog I (result B E)) :
  (∀ a, succeeds_as (f a) (f' a)) → succeeds_as (bind p f) (bind p f').
Proof. intros H l b (a & l1 & l2 & -> & H1 & H2)%reaches_bind_ret. eapply reaches_bound; [done|]. by apply H. Qed.

Lemma succeeds_bind_ok {A B E} (p p' : prog I (result A E)) (f f' : A → prog I (result B E)) :
  succeeds_as p p' → (∀ a, succeeds_as (f a) (f' a)) → succeeds_as (bind_ok p f) (bind_ok p' f').
Proof.
  intros Hp H l b ([a|e] & l1 & l2 & -> & H1 & H2)%reaches_bind_ret; [|by apply reaches_first in H2 as [_ ?]].
  eapply reaches_bound; [by apply Hp|]. by apply H.
Qed.

Lemma cleanup_fails {A} pending why l (a : A) : ¬ reaches (I:=I) (cleanup pending why) l (Ret (Ok a)).
Proof. intros (x & l1 & l2 & _ & _ & H)%reaches_bind_ret. by apply reaches_first in H as [_ ?]. Qed.

Lemma write_dump_unlabelled cfg machine found im to pending :
  image_schema im = None → succeeds_as (write_dump (I:=I) cfg machine found to pending) (write_dump cfg machine (Some im) to pending).
Proof.
  intros Him. unfold write_dump. cbv zeta. apply succeeds_bind_ok; [by intros l a H|]. intros [code out].
  destruct (negb _); [by intros l a ?%cleanup_fails|]. apply succeeds_bind. intros [[[bytes sha] magic]|e]; [|by intros l a ?%cleanup_fails].
  destruct (negb magic); [by intros l a ?%cleanup_fails|]. apply succeeds_bind_ok; [by intros l a H|]. intros [code' out'].
  destruct (parse_schema out') as [s|]; [|by intros l a ?%cleanup_fails].
  destruct (negb _); [by intros l a ?%cleanup_fails|]. destruct (sch_dirty s); [by intros l a ?%cleanup_fails|].
  cbn [mbind option_bind]. rewrite Him.
  destruct (found ≫= image_schema) as [w|]; [destruct (w =? sch_version s)%Z|];
    first [by intros l a ?%cleanup_fails|by intros l a H].
Qed.

(** The control plane's image is what checking goes by. *)
Definition only_unlabelled (ref : string) : Monitor I unit :=
  mkMonitor I unit (λ _ _ _, True)
    (λ X _ e, match e in eff _ X return X → Prop with
              | InspectImage n => λ r, ∀ im, n = ref → r = Ok (Some im) → image_schema im = None
              | _ => λ _, True
              end) (λ _ _ _ _, ()).

Lemma unlabelled_checking cfg j :
  wp (only_unlabelled (reference (r_control_plane (plan_of j)))) True (check_restore cfg j) ()
    (λ x _, is_ok x = false).
Proof.
  unfold check_restore. apply wp_bind_ok, wp_map_errp. split; [done|]. intros m _. cbn [wp].
  destruct m as [[m|]|]; try done. cbn [map_err]. cbv zeta. apply wp_bind_ok, wp_map_errp.
  unfold image_labels, ensure_image. cbv zeta.
  assert (∀ im, image_schema im = None → is_ok (check_target (plan_of j) im) = false) as Ht.
  { intros im Him. unfold check_target. rewrite Him.
    destruct (r_recipe_revision (plan_of j)) as [rv|]; [|destruct (control_plane_revision im) as [rv|]; [|done]];
      cbn [ok_or]; by destruct (negb (book_supports ControlPlane rv)). }
  assert (∀ im f, image_schema im = None →
    wp (only_unlabelled (reference (r_control_plane (plan_of j)))) True
      (bind_ok (Ret (check_target (plan_of j) im)) f) () (λ x : result Journal Halt, λ _, is_ok x = false)) as Hend.
  { intros im f Him. specialize (Ht im Him). by destruct (check_target _ im). }
  apply wp_bind_ok, wp_map_errp. split; [done|]. intros r Hr. cbn [map_err].
  destruct r as [[im|]|e]; [apply Hend; by apply (Hr im)| |by destruct e].
  apply wp_bind_ok, wp_map_errp. split; [done|]. intros r1 _. destruct r1 as [[]|e]; [|by destruct e].
  apply wp_bind_ok, wp_map_errp. split; [done|]. intros r2 Hr2.
  destruct r2 as [[im|]|e]; [apply Hend; by apply (Hr2 im)|done|by destruct e].
Qed.

Lemma unlabelled_lawful ref (l : list (event I)) :
  (∀ im, mkEvent (InspectImage ref) (Ok (Some im)) ∈ l → image_schema im = None) → lawful (only_unlabelled ref) () l.
Proof.
  induction l as [|[X e x] l IH]; intros H; [done|]. split; [|apply IH; intros im Hin; apply H; by right].
  destruct e; try done. cbn. intros im -> ->. apply H. by left.
Qed.

(** (C17) A dump no restore can use is kept. [dump_now] compares the database's schema with the one
    the running control plane's image declares, and takes the dump without when that image declares
    none: the very calls and answers that keep a dump beside any other image keep the same dump
    beside this one. But the restore of it has to start that control plane: whatever plan its
    record makes, forced or not, checking refuses it in every execution in which the engine's image
    of that reference is one that declares no schema. *)
Theorem unlabelled_dump_never_restores cfg machine j old im rev to protect l r :
  image_schema im = None →
  (∀ found, reaches (dump_now (I:=I) cfg machine j old found rev to protect) l (Ret (Ok r)) →
     reaches (dump_now (I:=I) cfg machine j old (Some im) rev to protect) l (Ret (Ok r))) ∧
  (reaches (dump_now (I:=I) cfg machine j old (Some im) rev to protect) l (Ret (Ok r)) →
   ∀ cfg' name force_ to' p j' l' x,
     plan_record name force_ to' r = Ok p → plan_of j' = rs_set_phase RpChecking p →
     reaches (check_restore cfg' j') l' (Ret x) →
     (∀ im', mkEvent (InspectImage (reference old)) (Ok (Some im')) ∈ l' → image_schema im' = None) →
     ∃ h, x = Err h ∧ refused h).
Proof.
  intros Him. split.
  - intros found. revert l r. apply succeeds_bind_ok; [by intros l a H|]. intros _u.
    apply succeeds_bind_ok; [by intros l a H|]. intros _u'.
    apply succeeds_bind_ok; [by apply write_dump_unlabelled|]. by intros x l a H.
  - intros Hr cfg' name force_ to' p j' l' x Hp Hj Hx Hl.
    pose proof (wp_reaches _ _ _ _ _ _ _ (dump_now_gives cfg machine j old (Some im) rev to protect []) Hr (all_lawful _ _))
      as (_ & _ & _ & _ & _ & _ & _ & _ & Hold & _).
    destruct (plan_record_fields _ _ _ _ _ Hp) as (_ & _ & _ & _ & Hc & _). rewrite Hold in Hc. injection Hc as Hc.
    assert (r_control_plane (plan_of j') = old) as Hcp by (by rewrite Hj).
    pose proof (unlabelled_checking cfg' j') as Hw. rewrite Hcp in Hw.
    pose proof (wp_reaches _ _ _ _ _ _ _ Hw Hx (unlabelled_lawful _ _ Hl)) as Hbad. cbn in Hbad.
    pose proof (wp_reaches _ _ _ _ _ _ _ (check_restore_refuses cfg' j' []) Hx (all_lawful _ _)) as Href.
    destruct x as [|h]; [done|]. by exists h.
Qed.
End unlabelled.
