(* ===== verification/RestoreExamples.v ===== *)
(** * Restores that run

    A container engine, a database and a machine's files in memory: a restore that succeeds, one
    whose process dies while it loads and is continued by the next, one that is refused; the dump
    they load being taken; and the executions at which the theorems are instantiated. *)
From S2P Require Import Prelude Platform Wire Journal Settle Trust Effects Replace Waits DumpDir Submit Database DumpRun Restore RestoreWaits RestoreSpec RestoreRefusals RestoreMachine RestoreSafety.

(** ** The machine in memory *)

#[local] Instance one_deps : ReplaceDeps unit := {|
  nvidia_shape := λ _, false;
  trust_recorded := λ _, false;
  database := λ _, Some OwnedDatabase;
  render := λ role rev _ image _, Ok (mkContainerSpec (container_name role) (reference image) None None ∅
    {[ LABEL_INSTALLATION := "inst"; LABEL_PLATFORM_SERVICE := role_str role; LABEL_SPEC := "digest" ]}
    None [] [] [] [] [] [] false UnlessStopped [] None);
  carry_forward := λ spec _ _, spec;
  debug_str := λ s, s;
  debug_duration := λ _, "60s" |}.
#[local] Instance one_dumps : DumpDeps := {| human := pretty |}.
#[local] Instance one_node : NodeName unit := {| node_name := λ _, "node" |}.

Record Host := mkHost {
  host_conts : gmap string Container;
  host_next : nat;
  host_hold : option Hold;
  host_floor : option SchemaFloor;
  host_clock : Z;
  host_schema : option string }.

Definition host_with (m : gmap string Container) (h : Host) : Host :=
  mkHost m (host_next h) (host_hold h) (host_floor h) (host_clock h) (host_schema h).

Definition host_find (h : Host) (n : string) : option Container :=
  match host_conts h !! n with
  | Some c => Some c
  | None => snd <$> head (List.filter (λ x, str_eqb (c_name x.2) n) (map_to_list (host_conts h)))
  end.

Definition set_state (running : bool) (restart : option RestartPolicy) (c : Container) : Container :=
  mkContainer (c_id c) (c_name c) (c_image c) (c_image_id c) (c_labels c)
    (if running then "running" else "exited") running (c_health c) restart (c_mounts c)
    (c_command c) (c_env c) (c_created c) (c_started_at c).

(** The control plane's image, with the schema it declares; and what a helper prints. *)
Definition host_image (h : Host) : Image :=
  mkImage "img" [] (match host_schema h with Some s => {[ LABEL_IMAGE_RECIPE := "1"; LABEL_IMAGE_SCHEMA := s ]}
                    | None => {[ LABEL_IMAGE_RECIPE := "1" ]} end).
Definition helper_says (c : Container) : string :=
  if bool_decide (c_labels c !! LABEL_HELPER = Some (op_label DbSize)) then "1000" else "schema=12 dirty=f".

Definition old_image : ImageRef := mkImageRef "repo" "sha256:00".
Definition dump_name_12 : string := "20260101T000000Z-schema-12".
Definition kept_record : DumpRecord :=
  mkDumpRecord dump_name_12 12 "2026-01-01T00:00:00Z" 10 "aa" (Some "req-0") (Some old_image) (Some 1%Z) (Some "v1") None None.

Definition one_machine : Machine unit := mkMachine "inst" Combined () ∅.

(** The answer to each call, given the journal on disk. *)
Definition host_answer {X} (d : Journal) (h : Host) (e : eff unit X) : option (Host * X) :=
  match e in eff _ X return option (Host * X) with
  | InspectImage _ => Some (h, Ok (Some (host_image h)))
  | InspectContainer n => Some (h, Ok (host_find h n))
  | CreateContainer sp =>
      let id := "c" +:+ pretty (host_next h) in
      let c := mkContainer id (cs_name sp) (cs_image sp) "img" (cs_labels sp) "created" false (Some "healthy")
                 (Some (cs_restart sp)) [] [] [] None None in
      Some (mkHost (<[id := c]> (host_conts h)) (S (host_next h)) (host_hold h) (host_floor h) (host_clock h) (host_schema h), Ok id)
  | StartContainer id => Some (host_with (alter (λ c, set_state true (c_restart c) c) id (host_conts h)) h, Ok ())
  | StopContainer id _ => Some (host_with (alter (λ c, set_state false (c_restart c) c) id (host_conts h)) h, Ok ())
  | SetRestartPolicy id p => Some (host_with (alter (λ c, set_state (c_running c) (Some p) c) id (host_conts h)) h, Ok ())
  | RemoveContainer id => Some (host_with (delete id (host_conts h)) h, Ok ())
  | WaitContainer _ _ => Some (h, Ok 0%Z)
  | LogsTail id _ => Some (h, Ok (match host_conts h !! id with Some c => helper_says c | None => EmptyString end))
  | StoreJournal _ => Some (h, Ok ())
  | LoadJournal id => Some (h, Ok (if str_eqb id (request_id (j_request d)) then Some d else None))
  | ScanJournals => Some (h, mkScan [d] [])
  | PruneJournals => Some (h, ())
  | ForgetReady _ => Some (h, ())
  | LoadMachine => Some (h, Ok (Some one_machine))
  | LoadService _ => Some (h, Ok None)
  | StoreService _ => Some (h, Ok ())
  | LoadFloor => Some (h, Ok (host_floor h))
  | StoreFloor f => Some (mkHost (host_conts h) (host_next h) (host_hold h) (Some f) (host_clock h) (host_schema h), Ok ())
  | LoadPoint => Some (h, Ok None)
  | LoadSecret _ => Some (h, Ok None)
  | LoadHold => Some (h, Ok (host_hold h))
  | StoreHold x => Some (mkHost (host_conts h) (host_next h) (Some x) (host_floor h) (host_clock h) (host_schema h), Ok ())
  | ClearHold => Some (mkHost (host_conts h) (host_next h) None (host_floor h) (host_clock h) (host_schema h), Ok ())
  | LoadDump _ => Some (h, Ok (Some kept_record))
  | StoreDump _ => Some (h, Ok ())
  | ExamineDump _ => Some (h, Ok (10%Z, "aa", true))
  | DumpExists _ => Some (h, true)
  | PrepareDumps => Some (h, Ok ())
  | FreeSpace => Some (h, Ok 1000000000%Z)
  | DumpTaken _ => Some (h, false)
  | CompleteDump _ _ => Some (h, Ok ())
  | PruneDumps _ _ => Some (h, Ok [])
  | DeliverSecrets _ _ _ => Some (h, Ok ())
  | WasUsed _ => Some (h, Ok false)
  | MarkUsed _ => Some (h, Ok ())
  | Resuming => Some (h, false)
  | SpawnDriver _ => Some (h, ())
  | Killed => Some (h, false)
  | MarkDied => Some (h, ())
  | NowStamp => Some (h, "2026-01-01T00:00:00Z")
  | Now => Some (h, host_clock h)
  | Sleep t => Some (mkHost (host_conts h) (host_next h) (host_hold h) (host_floor h) (host_clock h + t) (host_schema h), ())
  | _ => None
  end.

Definition running_container (id name : string) (role : string) : Container :=
  mkContainer id name "repo@sha256:99" "img9"
    {[ LABEL_INSTALLATION := "inst"; LABEL_PLATFORM_SERVICE := role ]}
    "running" true (Some "healthy") (Some UnlessStopped) [] [] [] None None.

(** A control plane that failed after an update, and the database. *)
Definition one_host (schema : option string) : Host :=
  mkHost {[ "cp" := running_container "cp" NAME_CONTROL_PLANE "control-plane";
            "pg" := running_container "pg" NAME_POSTGRES "postgres" ]} 0 None
    (Some (mkSchemaFloor 15 "req-0" "t")) 0 schema.

Definition one_cfg : Config := mkConfig default_timing None default_handover Combined (Some "/srv/machine") (secs 7200).

(** ** One procedure *)

(** A procedure run to a call that passes a test, or to where the machine has no answer. *)
Fixpoint run_to {A} (stop : ∀ X, eff unit X → bool) (d : Journal) (p : prog unit A) (h : Host) : list (event unit) * prog unit A :=
  match p with
  | Vis e k =>
      if stop _ e then ([], p)
      else match host_answer d h e with
           | Some (h', x) => let (l, p') := run_to stop d (k x) h' in (mkEvent e x :: l, p')
           | None => ([], p)
           end
  | _ => ([], p)
  end.

Lemma run_to_reaches {A} stop d (p : prog unit A) h :
  reaches p (run_to stop d p h).1 (run_to stop d p h).2.
Proof.
  revert h. induction p as [a| |X e k IH]; intros h; [constructor|constructor|]. cbn [run_to].
  destruct (stop X e); [constructor|]. destruct (host_answer d h e) as [[h' x]|]; [|constructor].
  specialize (IH x h'). destruct (run_to stop d (k x) h') as [l p']. by constructor.
Qed.

Definition never {X} (_ : eff unit X) : bool := false.
Definition ended {A} (p : prog unit A) : option A := match p with Ret a => Some a | _ => None end.
Lemma ended_ret {A} (p : prog unit A) a : ended p = Some a → p = Ret a.
Proof. destruct p; simpl; congruence. Qed.

(** ** The machine of [RestoreSafety] *)

Definition allowedb {X} (g : RWorld) (e : eff unit X) : X → bool :=
  match e in eff _ X return X → bool with
  | CreateContainer _ => λ r, match r with
      | Ok id => bool_decide (w_ops g !! id = None) && bool_decide (w_ran g !! id = None) | Err _ => true end
  | InspectContainer n => λ r, match r with Ok (Some c) => bool_decide (w_ops g !! c_id c = None) || negb (bool_decide (n ∈ control_planes)) | _ => true end
  | LoadFloor => λ r, match r, w_floor g with
      | Ok f, Some s => bool_decide (floor_schema <$> f = Some s) | _, _ => true end
  | _ => λ _, true
  end.

Lemma answer_allowed {X} g h (e : eff unit X) h' x :
  host_answer (w_dur g) h e = Some (h', x) → allowedb g e x = true → r_allows g e x.
Proof.
  intros Ha Hb. destruct e; simpl in *; simplify_eq; try done.
  - destruct (host_find h' name_or_id); [|done]. intros Hn. apply orb_true_iff in Hb as [Hb|Hb].
    + by apply bool_decide_eq_true in Hb.
    + by rewrite bool_decide_eq_true_2 in Hb.
  - apply andb_true_iff in Hb as [H1 H2]. by apply bool_decide_eq_true in H1, H2.
  - by destruct (str_eqb _ _).
  - unfold scan_open. simpl. by destruct (is_open (w_dur g)).
  - intros s Hs. rewrite Hs in Hb. by apply bool_decide_eq_true in Hb.
Qed.

Definition next_is (m : RMachine (I:=unit)) (t : ∀ X, eff unit X → bool) : bool :=
  match rm_left m with Some (@Vis _ _ X e _) => t X e | _ => false end.

Definition act (st : RMachine (I:=unit) * Host) : option (RMachine * Host) :=
  let (m, h) := st in
  match rm_left m with
  | Some (Vis e k) =>
      match host_answer (w_dur (rm_world m)) h e with
      | Some (h', x) =>
          if allowedb (rm_world m) e x
          then Some (mkRMachine (r_advance (rm_world m) e x) (Some (k x)), h') else None
      | None => None
      end
  | _ => Some (m, h)
  end.

(** A schedule: a process starts, runs up to a call or to its end, or dies. *)
Inductive move_ := Start (w : rlife) | Upto (t : RMachine (I:=unit) → bool) | Die.

Fixpoint act_upto (n : nat) (t : RMachine → bool) (st : RMachine (I:=unit) * Host) : option (RMachine * Host) :=
  if t st.1 then Some st
  else match n with
       | O => Some st
       | S n' => match act st with Some st' => act_upto n' t st' | None => None end
       end.

Definition do_move (mv : move_) (st : RMachine (I:=unit) * Host) : option (RMachine * Host) :=
  let (m, h) := st in
  match mv with
  | Start w =>
      match rm_left m with
      | None => Some (mkRMachine (w_with_dur (w_dur (rm_world m)) None (rm_world m)) (Some (restore_process one_cfg 8 200 w)), h)
      | Some _ => None
      end
  | Upto t => act_upto 200 t st
  | Die => Some (mkRMachine (rm_world m) None, h)
  end.

Fixpoint moves (l : list move_) (st : RMachine (I:=unit) * Host) : option (RMachine * Host) :=
  match l with
  | [] => Some st
  | mv :: l' => match do_move mv st with Some st' => moves l' st' | None => None end
  end.

Lemma act_sound st st' : act st = Some st' → rtc rm_step st.1 st'.1.
Proof.
  destruct st as [m h]. unfold act. destruct (rm_left m) as [[a| |X e k]|] eqn:El; try by intros [= <-].
  destruct (host_answer _ h e) as [[h' x]|] eqn:Ea; [|done]. destruct (allowedb _ e x) eqn:Eb; [|done].
  intros [= <-]. apply rtc_once. eapply rm_acts; [done|]. by eapply answer_allowed.
Qed.

Lemma act_upto_sound n t st st' : act_upto n t st = Some st' → rtc rm_step st.1 st'.1.
Proof.
  revert st. induction n as [|n IH]; intros st; simpl; (destruct (t st.1); [by intros [= <-]|]); [by intros [= <-]|].
  destruct (act st) as [st2|] eqn:E2; [|done]. intros H. etransitivity; [by apply act_sound|by apply IH].
Qed.

Lemma moves_sound l st st' : moves l st = Some st' → rtc rm_step st.1 st'.1.
Proof.
  revert st. induction l as [|mv l IH]; intros st; cbn [moves]; [by intros [= <-]|].
  destruct (do_move mv st) as [st1|] eqn:E; [|done]. intros H. etransitivity; [|by apply IH].
  clear H IH. destruct st as [m h], mv as [w|t|]; unfold do_move in E.
  - destruct (rm_left m) eqn:El; [done|]. injection E as <-. apply rtc_once.
    apply (rm_starts m one_cfg 8 200 w); [done|done|by left].
  - by apply act_upto_sound in E.
  - injection E as <-. apply rtc_once, rm_dies.
Qed.

(** ** Restores that run *)

Definition restore_request : Request :=
  mkRequest "11111111-2222-3333-4444-555555555555" KRestore [] (mkRelease EmptyString (Some "v1") EmptyString) false None false
    (Some dump_name_12) false None 0 false.

Definition admitted_plan : RestoreJ :=
  mkRestoreJ RpAdmitted (Some dump_name_12) false false None old_image (Some 1%Z) (Some 12%Z) (Some "v1")
    (Some "2026-01-01T00:00:00Z") None.

Definition first_journal : Journal := restore_journal restore_request 7 "2026-01-01T00:00:00Z" admitted_plan.

Definition first_world : RWorld := mkRWorld first_journal None false (Some 15%Z) None ∅ ∅ ∅ [] ∅ ∅ ∅.

Definition first_point (schema : option string) : RMachine (I:=unit) * Host := (mkRMachine first_world None, one_host schema).

Lemma first_submitted : submitted first_world.
Proof. split; [done|]. exists restore_request, 7%Z, "2026-01-01T00:00:00Z", admitted_plan. by split_and!. Qed.

(** What is left: the phase and the outcome on disk, the hold, the floor, and the containers with
    their images and whether they run. *)
Definition left_by (r : option (RMachine (I:=unit) * Host)) :
  option (RestorePhase * State * bool * option Z * list (string * string * bool)) :=
  (λ x, (w_phase (rm_world x.1), res_state (j_result (w_dur (rm_world x.1))), bool_decide (is_Some (host_hold x.2)),
         floor_schema <$> host_floor x.2,
         (λ y, (c_name y.2, c_image y.2, c_running y.2)) <$> map_to_list (host_conts x.2))) <$> r.

(** Points of an execution, by the call that is next. *)
Definition at_ (t : RWorld → ∀ X, eff unit X → bool) (m : RMachine (I:=unit)) : bool := next_is m (t (rm_world m)).
Definition the_end (m : RMachine (I:=unit)) : bool := false.
Definition is_load (g : RWorld) X (e : eff unit X) : bool :=
  match e with
  | StartContainer id => match w_ops g !! id with Some (op, _) => loads op | None => false end
  | _ => false
  end.
Definition is_load_wait (g : RWorld) X (e : eff unit X) : bool :=
  match e with
  | WaitContainer id _ => match w_ops g !! id with Some (op, _) => loads op | None => false end
  | _ => false
  end.
Definition is_helper_start (g : RWorld) X (e : eff unit X) : bool :=
  match e with StartContainer id => bool_decide (is_Some (w_ops g !! id)) | _ => false end.
Definition is_creation (g : RWorld) X (e : eff unit X) : bool :=
  match e with CreateContainer spec => negb (is_helper spec) | _ => false end.
Definition is_release (g : RWorld) X (e : eff unit X) : bool := match e with ClearHold => true | _ => false end.

Definition drives : move_ := Start (RDrives "11111111-2222-3333-4444-555555555555").

Example restore_succeeds :
  left_by (moves [drives; Upto the_end] (first_point (Some "12")))
  = Some (RpDone, StSucceeded, false, Some 12%Z,
      [(NAME_CONTROL_PLANE, reference old_image, true); (NAME_POSTGRES, "repo@sha256:99", true)]).
Proof. vm_compute. reflexivity. Qed.

(** The process dies while the database is loaded; the next loads it again. *)
Definition cut : list move_ := [drives; Upto (at_ is_load_wait); Die].

Example restore_cut :
  left_by (moves cut (first_point (Some "12")))
  = Some (RpLoading, StRecreating, true, Some 15%Z,
      [(NAME_DB_HELPER, DEFAULT_POSTGRES_IMAGE, true); (NAME_CONTROL_PLANE, "repo@sha256:99", false);
       (NAME_POSTGRES, "repo@sha256:99", true)]).
Proof. vm_compute. reflexivity. Qed.

Example restore_continued :
  left_by (moves (cut ++ [Start RSettles; Upto the_end]) (first_point (Some "12")))
  = Some (RpDone, StSucceeded, false, Some 12%Z,
      [(NAME_CONTROL_PLANE, reference old_image, true); (NAME_POSTGRES, "repo@sha256:99", true)]).
Proof. vm_compute. reflexivity. Qed.

(** A control plane of another schema: refused, and the machine as it was. *)
Example restore_refused :
  left_by (moves [drives; Upto the_end] (first_point (Some "15")))
  = Some (RpChecking, StFailed, false, Some 15%Z,
      [(NAME_CONTROL_PLANE, "repo@sha256:99", true); (NAME_POSTGRES, "repo@sha256:99", true)]).
Proof. vm_compute. reflexivity. Qed.

(** ** The theorems at these executions *)

(** A machine such a schedule reaches. *)
Lemma at_moves l schema (t : RMachine → bool) :
  match moves l (first_point schema) with Some st => t st.1 | None => false end = true →
  ∃ m, rtc rm_step (mkRMachine first_world None) m ∧ t m = true.
Proof.
  destruct (moves l (first_point schema)) as [st|] eqn:E; [|done]. intros Ht. exists st.1.
  split; [by apply moves_sound in E|done].
Qed.

Lemma one_render rev i image secrets spec :
  render ControlPlane rev i image secrets = Ok spec → cs_name spec = container_name ControlPlane.
Proof. by intros [= <-]. Qed.

Lemma next_about m (t : ∀ X, eff unit X → bool) :
  next_is m t = true → ∃ X (e : eff unit X), about m e ∧ t X e = true.
Proof.
  unfold next_is, about. destruct (rm_left m) as [[| |X e k]|]; try done. intros H. exists X, e. split; [by exists k|done].
Qed.

Lemma next_load m : next_is m (is_load (rm_world m)) = true →
  ∃ id op f, about m (StartContainer (I:=unit) id) ∧ w_ops (rm_world m) !! id = Some (op, f) ∧ loads op = true.
Proof.
  intros (X & e & Ha & Ht)%next_about. destruct e; try done. simpl in Ht.
  destruct (w_ops (rm_world m) !! id) as [[op f]|] eqn:Ho; [|done]. by exists id, op, f.
Qed.

Definition point (t : RWorld → ∀ X, eff unit X → bool) : list move_ := [drives; Upto (at_ t)].

Lemma load_guarded_witness :
  ∃ m, rtc rm_step (mkRMachine first_world None) m ∧ w_hold (rm_world m) = true ∧
    r_dump (w_plan (rm_world m)) = Some dump_name_12.
Proof.
  destruct (at_moves (point is_load) (Some "12") (λ m, at_ is_load m
    && bool_decide (r_dump (w_plan (rm_world m)) = Some dump_name_12))) as (m & Hr & Ht); [vm_compute; reflexivity|].
  apply andb_true_iff in Ht as [Ht Hd]. apply bool_decide_eq_true in Hd.
  destruct (next_load _ Ht) as (id & op & f & Ha & Ho & Hl). exists m. split; [done|]. split; [|done].
  by apply (load_guarded one_render first_world m id op f first_submitted Hr Ha Ho Hl).
Defined.

Lemma starts_only_loaded_witness :
  ∃ m, rtc rm_step (mkRMachine first_world None) m ∧ loaded (rm_world m) (w_plan (rm_world m)).
Proof.
  destruct (at_moves (point is_creation) (Some "12") (at_ is_creation)) as (m & Hr & Ht); [vm_compute; reflexivity|].
  destruct (next_about _ _ Ht) as (X & e & Ha & He). exists m. split; [done|].
  refine (proj1 (proj2 (starts_only_loaded one_render first_world m e first_submitted Hr Ha _))).
  destruct e; try done. by apply negb_true_iff in He.
Defined.

Lemma hold_until_loaded_witness :
  ∃ m, rtc rm_step (mkRMachine first_world None) m ∧ rm_left m = None ∧ w_hold (rm_world m) = true.
Proof.
  destruct (at_moves cut (Some "12") (λ m, match rm_left m with None => true | Some _ => false end
    && is_open (w_dur (rm_world m)) && bool_decide (w_phase (rm_world m) = RpLoading))) as (m & Hr & Ht); [vm_compute; reflexivity|].
  apply andb_true_iff in Ht as [[Hl Ho]%andb_true_iff Hp]. apply bool_decide_eq_true in Hp.
  exists m. split_and!; [done|by destruct (rm_left m)|].
  by apply (proj1 (hold_until_loaded one_render first_world m first_submitted Hr) Ho Hp).
Defined.

Lemma restore_refines_witness :
  ∃ m, rtc rm_step (mkRMachine first_world None) m ∧ rtc rs_step first_journal (w_dur (rm_world m)) ∧
    res_state (j_result (w_dur (rm_world m))) = StSucceeded.
Proof.
  destruct (at_moves (cut ++ [Start RSettles; Upto the_end]) (Some "12")
    (λ m, bool_decide (res_state (j_result (w_dur (rm_world m))) = StSucceeded))) as (m & Hr & Ht); [vm_compute; reflexivity|].
  apply bool_decide_eq_true in Ht. exists m. split_and!; [done| |done].
  exact (proj1 (restore_refines one_render first_world m first_submitted Hr)).
Defined.

Lemma restore_well_formed_witness :
  ∃ m, rtc rm_step (mkRMachine first_world None) m ∧ w_phase (rm_world m) = RpLoading ∧ is_restore (w_dur (rm_world m)).
Proof.
  destruct (at_moves cut (Some "12") (λ m, bool_decide (w_phase (rm_world m) = RpLoading))) as (m & Hr & Ht); [vm_compute; reflexivity|].
  apply bool_decide_eq_true in Ht. exists m. split_and!; [done|done|].
  exact (restore_well_formed one_render first_world m (w_dur (rm_world m)) first_submitted Hr (or_introl eq_refl)).
Defined.

Lemma nothing_changed_before_stopping_witness :
  ∃ m X (e : eff unit X), rtc rm_step (mkRMachine first_world None) m ∧ about m e ∧ ¬ changes (rm_world m) e.
Proof.
  destruct (at_moves (point is_helper_start) (Some "12") (λ m, at_ is_helper_start m
    && negb (restore_touched (w_phase (rm_world m))))) as (m & Hr & Ht); [vm_compute; reflexivity|].
  apply andb_true_iff in Ht as [Ht Hp]. apply negb_true_iff in Hp.
  destruct (next_about _ _ Ht) as (X & e & Ha & He). exists m, X, e. split_and!; [done|done|].
  exact (nothing_changed_before_stopping one_render first_world m e first_submitted Hr Ha Hp).
Defined.

(** The limits the actor runs with: three minutes' verification, looked at twice a second. *)
Lemma run_restore_terminates_witness :
  run_restore (I:=unit) one_cfg 7 400 first_journal ≠ Spin.
Proof.
  apply (run_restore_terminates (I:=unit) one_cfg 7 400 399 first_journal 0 []).
  - lia.
  - vm_compute. discriminate.
  - lia.
  - apply reaches_here.
  - exact Logic.I.
Defined.

(** ** Single procedures *)

Definition stop_never X (_ : eff unit X) : bool := false.
Definition at_store X (e : eff unit X) : bool := match e with StoreJournal _ => true | _ => false end.

(** The pre-update dump of a control plane whose image declares [schema]. *)
Definition dumping (schema : option string) : prog unit (result DumpRecord Halt) :=
  dump_now one_cfg one_machine first_journal old_image (Some (host_image (one_host schema))) 1 "v1" None.

Definition dumped : DumpRecord :=
  mkDumpRecord dump_name_12 12 "2026-01-01T00:00:00Z" 10 "aa" (Some (request_id restore_request))
    (Some old_image) (Some 1%Z) (Some "v1") None None.

Lemma dumping_ends schema :
  ended (run_to stop_never first_journal (dumping schema) (one_host schema)).2 = Some (Ok dumped) →
  reaches (dumping schema) (run_to stop_never first_journal (dumping schema) (one_host schema)).1 (Ret (Ok dumped)).
Proof. intros H. apply ended_ret in H. rewrite <-H. apply run_to_reaches. Qed.

Lemma dump_now_verified_witness : ∃ l, kept first_journal old_image 1 "v1" dumped (history (recorder unit) [] l).
Proof.
  eexists. eapply (dump_now_verified one_cfg one_machine first_journal old_image (Some (host_image (one_host (Some "12")))) 1 "v1" None).
  apply (dumping_ends (Some "12")). vm_compute. reflexivity.
Defined.

(** Checking at an image of another schema. *)
Definition checking_journal : Journal := set_restore (rs_set_phase RpChecking admitted_plan) first_journal.

Definition refusal_of (x : list (event unit) * prog unit (result Journal Halt)) : option Failure :=
  match ended x.2 with Some (Err (HFail f)) => Some f | _ => None end.

Lemma check_refusals_witness :
  ∃ f, mentions unchanged_words (fl_detail f) ∧ fl_reason f = Invalid.
Proof.
  destruct (refusal_of (run_to stop_never checking_journal (check_restore one_cfg checking_journal) (one_host (Some "15")))) as [f|] eqn:E;
    [|by vm_compute in E].
  assert (fl_reason f = Invalid) as Hi.
  { assert (fl_reason <$> refusal_of (run_to stop_never checking_journal (check_restore one_cfg checking_journal) (one_host (Some "15")))
      = Some Invalid) as H by (vm_compute; reflexivity). rewrite E in H. by injection H. }
  exists f. split; [|done].
  apply (check_refusals one_cfg checking_journal
    (run_to stop_never checking_journal (check_restore one_cfg checking_journal) (one_host (Some "15"))).1 f).
  unfold refusal_of in E.
  destruct (ended _) as [[|[]]|] eqn:En; [done|done| |done]. injection E as ->. apply ended_ret in En.
  rewrite <-En. apply run_to_reaches.
Defined.

(** A restore admitted on a machine whose one journal is another's, and closed. *)
Definition closed_journal : Journal :=
  finished_journal StFailed (Some Invalid) EmptyString false "2026-01-01T00:00:00Z"
    (restore_journal (mkRequest "req-0" KRestore [] (mkRelease EmptyString None EmptyString) false None false
      None false None 0 false) 6 "2026-01-01T00:00:00Z" admitted_plan).

Definition admission : list (event unit) * prog unit (result Accepted Rejection) :=
  run_to at_store closed_journal (submit_restore restore_request) (one_host (Some "12")).

Lemma submit_restore_admits_witness :
  ∃ j, admissible restore_request (history (recorder unit) [] admission.1) j ∧ j_seq j = 7%Z.
Proof.
  assert (∃ j k, admission.2 = Vis (StoreJournal j) k ∧ j_seq j = 7%Z) as (j & k & E & Hs).
  { eexists _, _. vm_compute. split; reflexivity. }
  exists j. split; [|done]. apply (submit_restore_admits restore_request j admission.1 k).
  rewrite <-E. apply run_to_reaches.
Defined.

(** Checking the dump that was taken, on the machine it was taken on. *)
Definition checked_dump : list (event unit) * prog unit (result Journal Halt) :=
  run_to stop_never checking_journal (check_restore one_cfg checking_journal) (one_host (Some "12")).

Definition dumped_image : Image := host_image (one_host (Some "12")).

#[local] Instance Image_eq_dec : EqDecision Image.
Proof. solve_decision. Defined.
#[local] Instance Schema_eq_dec : EqDecision Schema.
Proof. solve_decision. Defined.

(** [as_recorded], decided on this machine. *)
Definition as_it_was {X} (e : eff unit X) : X → bool :=
  match e in eff _ X return X → bool with
  | LoadMachine => λ a, match a with
      | Ok (Some m) => bool_decide (m_installation_id m = "inst") && bool_decide (m_role m = Combined)
                       && bool_decide (m_install_images m = ∅)
      | _ => false end
  | InspectImage ref => λ a, match a with Ok (Some im) => bool_decide (im = dumped_image) | _ => false end
  | LoadDump _ => λ a, match a with Ok (Some r) => str_eqb (dr_sha256 r) (dr_sha256 dumped) | _ => false end
  | ExamineDump _ => λ a, match a with Ok (_, sha, magic) => str_eqb sha (dr_sha256 dumped) && magic | _ => false end
  | LoadService _ => λ a, match a with Ok None => true | _ => false end
  | InspectContainer n => λ a,
      (negb (str_eqb n NAME_DB_HELPER) || match a with Ok None => true | _ => false end)
      && (negb (str_eqb n NAME_POSTGRES) || match a with Ok (Some c) => c_running c | _ => false end)
      && (negb (bool_decide (n ∈ control_planes))
          || match a with Ok (Some c) => is_ours one_machine c ControlPlane | Ok None => true | _ => false end)
  | CreateContainer _ => λ a, is_ok a
  | StartContainer _ => λ a, is_ok a
  | WaitContainer _ _ => λ a, match a with Ok code => (code =? 0)%Z | _ => false end
  | LogsTail _ _ => λ a, match a with
      | Ok out => bool_decide (parse_schema out = Some (mkSchema (dr_schema_version dumped) false)) | _ => false end
  | RemoveContainer _ => λ a, is_ok a
  | _ => λ _, true
  end.

Lemma as_it_was_recorded {X} (e : eff unit X) a : as_it_was e a = true → as_recorded one_cfg one_machine dumped_image dumped e a.
Proof.
  destruct e; cbn [as_it_was as_recorded]; intros H; try done.
  - destruct a as [[im|]|]; try done. apply bool_decide_eq_true in H as ->. by eexists.
  - apply andb_true_iff in H as [[H1 H2]%andb_true_iff H3]. repeat split; intros Hn; [| | |done].
    + rewrite Hn in H1. by destruct a as [[]|].
    + rewrite Hn in H2. destruct a as [[c|]|]; try done. by exists c.
    + rewrite bool_decide_eq_true_2 in H3 by done. destruct a as [[c|]|]; try done; [right; by exists c|by left].
  - destruct a; try done. by eexists.
  - by destruct a as [[]|].
  - by destruct a as [[]|].
  - destruct a as [out|]; try done. apply bool_decide_eq_true in H. by exists out.
  - destruct a as [[m|]|]; try done. apply andb_true_iff in H as [[H1 H2]%andb_true_iff H3].
    apply bool_decide_eq_true in H1, H2, H3. destruct m as [x y [] z]. simpl in *. by subst.
  - destruct a as [[]|]; try done.
  - destruct a as [[r|]|]; try done. apply str_eqb_true in H. by exists r.
  - destruct a as [[[size sha] magic]|]; try done. apply andb_true_iff in H as [->%str_eqb_true ->]. by exists size.
  - destruct a as [code|]; [|done]. by apply Z.eqb_eq in H as ->.
Qed.

Lemma machine_unchanged : unchanged one_cfg one_machine dumped_image dumped checked_dump.1.
Proof.
  assert (List.forallb (λ ev, as_it_was (ev_call ev) (ev_answer ev)) checked_dump.1 = true) as H by (vm_compute; reflexivity).
  rewrite List.forallb_forall in H. apply Forall_forall. intros ev Hin. by apply as_it_was_recorded, H, list_elem_of_In.
Qed.


Definition unlabelled_answer (ev : event unit) : bool :=
  match ev_call ev in eff _ X return X → bool with
  | InspectImage _ => λ r, match r with Ok (Some im) => bool_decide (image_schema im = None) | _ => true end
  | _ => λ _, true
  end (ev_answer ev).

(** A dump taken beside an image that declares no schema, and the refusal of its restore. *)
Lemma unlabelled_dump_never_restores_witness :
  ∃ h, ended (run_to stop_never checking_journal (check_restore one_cfg checking_journal) (one_host None)).2 = Some (Err h) ∧ refused h.
Proof.
  destruct (unlabelled_dump_never_restores one_cfg one_machine first_journal old_image (host_image (one_host None)) 1 "v1" None
    (run_to stop_never first_journal (dumping None) (one_host None)).1 dumped ltac:(vm_compute; reflexivity)) as [_ H].
  destruct (ended (run_to stop_never checking_journal (check_restore one_cfg checking_journal) (one_host None)).2) as [x|] eqn:E;
    [|by vm_compute in E]. apply ended_ret in E.
  destruct (H (dumping_ends None ltac:(vm_compute; reflexivity)) one_cfg dump_name_12 false (Some "v1") admitted_plan checking_journal
    (run_to stop_never checking_journal (check_restore one_cfg checking_journal) (one_host None)).1 x eq_refl eq_refl) as (h & -> & Hh).
  - rewrite <-E. apply run_to_reaches.
  - intros im Hin. assert (List.forallb unlabelled_answer
      (run_to stop_never checking_journal (check_restore one_cfg checking_journal) (one_host None)).1 = true) as Hall by (vm_compute; reflexivity).
    rewrite List.forallb_forall in Hall. apply list_elem_of_In, Hall in Hin. by apply bool_decide_eq_true in Hin.
  - by exists h.
Defined.
