(* ===== verification/Admission.v ===== *)
(** * What [submit] promises

    [submit] checked against every state the attempts directory may be in: the driver of an
    earlier attempt writes to it while [submit] runs (the gate keeps other submissions out, not
    the driver), and a failed write may have happened. The history is therefore the set of the
    directories the disk may hold ([k_disk]), with the calls made so far ([k_log]). Whether the
    directory can be listed meanwhile is a parameter ([Listing]): the promises are for [Listed]. *)
From S2P Require Import Prelude Platform Wire Journal Settle Base64 GoText Trust TrustProofs RaceGuard Effects Replace Submit SubmitProofs.

(** ** The attempts directory while [submit] runs *)

(** What the driver of an earlier attempt may do to the directory: rewrite a journal of that
    attempt, never reopening it, and prune finished ones, whose ids stay recorded. It creates no
    file and breaks none. *)
Record rely (d d' : JournalDir) : Prop := mkRely {
  rl_file : ∀ id f', jd_files d' !! id = Some f' →
    jd_files d !! id = Some f' ∨
    ∃ j j', jd_files d !! id = Some (Parsed j) ∧ f' = Parsed j' ∧
      request_id (j_request j') = request_id (j_request j) ∧
      format_known j' = format_known j ∧ (is_open j' = true → is_open j = true);
  rl_pruned : ∀ id j, jd_files d !! id = Some (Parsed j) → jd_files d' !! id = None → id ∈ used_ids d';
  rl_recorded : used_ids d ⊆ used_ids d';
  rl_used : ∀ id, id ∈ used_ids d' → id ∈ used_ids d ∨ is_Some (jd_files d !! id) }.

#[global] Instance rely_preorder : PreOrder rely.
Proof.
  split.
  - intros d. split; [by left|congruence|done|by left].
  - intros d1 d2 d3 R1 R2. split.
    + intros id f [H|(j2 & j3 & H & -> & H1 & H2 & H3)]%(rl_file _ _ R2).
      * by apply (rl_file _ _ R1).
      * apply (rl_file _ _ R1) in H as [H|(j1 & j2' & H & [= <-] & ? & ? & ?)].
        -- right. by exists j2, j3.
        -- right. exists j1, j3. split_and!; try congruence; auto.
    + intros id j H1 H3. destruct (jd_files d2 !! id) as [f|] eqn:E.
      * assert (∃ j', f = Parsed j') as [j' ->].
        { apply (rl_file _ _ R1) in E as [E|(?&?&_&->&_)]; [|by eexists]. rewrite E in H1. by simplify_eq; eexists. }
        by apply (rl_pruned _ _ R2 id j').
      * apply (rl_recorded _ _ R2). by apply (rl_pruned _ _ R1 id j).
    + pose proof (rl_recorded _ _ R1). pose proof (rl_recorded _ _ R2). set_solver.
    + intros id [H|[f H]]%(rl_used _ _ R2); [by apply (rl_used _ _ R1)|right].
      apply (rl_file _ _ R1) in H as [H|(?&?&H&_)]; by eexists.
Qed.

(** The listing of a directory that could be read. *)
Definition lists (d : JournalDir) (entries : list string) : Prop :=
  ∀ id, id ∈ entries ↔ is_Some (jd_files d !! id).

(** Whether the attempts directory can be listed, as long as the admission runs. Where it cannot,
    [read_dir] fails, or some of the entries are lost on the way ([entries.flatten()]). *)
Inductive Listing := Listed | Unlisted.

Definition listing_of (ls : Listing) (d : JournalDir) (listing : option (list string)) : Prop :=
  match ls, listing with
  | Listed, Some entries => lists d entries
  | Listed, None => False
  | Unlisted, Some entries => ∀ id, id ∈ entries → is_Some (jd_files d !! id)
  | Unlisted, None => True
  end.

(** What a call may answer of a directory. A file that cannot be read is an error; a scan says
    which files it could not read. *)
Definition answers {I X} (ls : Listing) (d : JournalDir) (e : eff I X) : X → Prop :=
  match e in eff _ X return X → Prop with
  | LoadJournal id => λ r, r = load d id ∨ is_ok r = false
  | WasUsed id => λ r, r = was_used d id ∨ is_ok r = false
  | ScanJournals => λ sc, sc_unreadable sc ≠ [] ∨ ∃ listing, listing_of ls d listing ∧ sc = scan_listing d listing
  | _ => λ _, True
  end.

(** What a call may leave of it. A write that failed may have happened. *)
Definition leaves {I X} (d : JournalDir) (e : eff I X) : X → JournalDir → Prop :=
  match e in eff _ X return X → JournalDir → Prop with
  | StoreJournal j => λ r d', d' = store j d ∨ is_ok r = false ∧ d' = d
  | MarkUsed id => λ r d', mark_used true id d = Ok d' ∨ is_ok r = false ∧ d' = d
  | _ => λ _ d', d' = d
  end.

Record Desk (I : Type) := mkDesk {
  k_disk : JournalDir → Prop;
  k_log : list (event I) }.
Arguments mkDesk {I} _ _.
Arguments k_disk {I} _ _.
Arguments k_log {I} _.

Definition after_call {I X} (ls : Listing) (k : Desk I) (e : eff I X) (x : X) : Desk I :=
  mkDesk (λ d', ∃ d d1, k_disk k d ∧ answers ls d e x ∧ leaves d e x d1 ∧ rely d1 d')
         (k_log k ++ [mkEvent e x]).

(** ** What admission requires *)

(** No attempt is open and no journal is unreadable. *)
Definition idle (d : JournalDir) : Prop :=
  ∀ id f, jd_files d !! id = Some f → ∃ j, f = Parsed j ∧ format_known j = true ∧ is_open j = false.

Definition unspent (id : string) (d : JournalDir) : Prop :=
  jd_files d !! id = None ∧ id ∉ used_ids d.

(** The calls that only look. *)
Definition reads {I X} (e : eff I X) : bool :=
  match e with
  | InspectContainer _ | ListContainers | LoadJournal _ | ScanJournals | LoadMachine | WasUsed _
  | Resuming | Uninstalled | LoadTrust | GatherEvidence _ | LoadHold | NowStamp => true
  | _ => false
  end.

Definition looked {I} (ev : event I) : bool := reads (ev_call ev).

Section desk.
Context {I : Type} `{!ReplaceDeps I, !TrustDeps} (ls : Listing) (cfg : Config) (caller : Caller) (req : Request).

(** The trust gates passed, on the settings and the evidence that were read. *)
Definition trusted (log : list (event I)) : Prop :=
  ∃ ns pol evidence, mkEvent LoadTrust (Ok (ns, pol)) ∈ log ∧
    (∀ e, evidence = Some e → mkEvent (GatherEvidence req) e ∈ log) ∧
    components req ≠ [] ∧ NoDup (map comp_name (components req)) ∧
    Forall (λ c, component_ok caller req (mkTrustConfig ns None pol) c ∧
                 repository_well_formed (comp_image c) = true) (components req) ∧
    signature_ok req pol evidence.

(** The socket's own rules: what it may ask for and name, by the machine's role. *)
Definition caller_may (log : list (event I)) : Prop :=
  rq_kind req = KReplace ∧ Forall (λ c, may_name caller (comp_name c) = true) (components req) ∧
  ∃ role, (role = config_role cfg ∨ ∃ m, mkEvent LoadMachine (Ok (Some m)) ∈ log ∧ role = m_role m) ∧
    (names_component "control-plane" req = true → role ≠ Gpu) ∧
    (names_component "recovery-actor" req = true →
       match caller with
       | CallerControlPlane => names_component "control-plane" req = true
       | CallerAgent => role = Gpu
       end).

(** The machine was looked at: nothing on it is another manager's, nothing carries this id, and
    no restore holds the database a control plane would use. *)
Definition machine_clear (log : list (event I)) : Prop :=
  ∃ m all, mkEvent LoadMachine (Ok (Some m)) ∈ log ∧ mkEvent ListContainers (Ok all) ∈ log ∧
    conflicts all (Some (m_installation_id m)) (self_container cfg) = [] ∧
    Forall (λ c, c_labels c !! LABEL_ATTEMPT ≠ Some (request_id req)) all ∧
    (names_component "control-plane" req = true →
       mkEvent LoadHold (Ok None) ∈ log ∧
       (migrates req = true → owned_database (m_inputs m) = true ∨ external_backup_confirmed req = true)).

(** What a stored journal may be: a fresh attempt of this request. *)
Definition fresh_journal (j : Journal) : Prop :=
  j_request j = req ∧ j_caller j = caller_tag caller ∧ is_open j = true ∧ j_restore j = None ∧
  format_known j = true ∧
  map st_name (j_steps j) = map comp_name (components req) ∧
  Forall (λ s, st_phase s = PhAdmitted ∧ old_container s = None ∧ new_container s = None) (j_steps j).

Definition may_store (k : Desk I) (j : Journal) : Prop :=
  fresh_journal j ∧ is_uuid (request_id req) = true ∧
  (∀ d, k_disk k d → idle d ∧ unspent (request_id req) d) ∧
  caller_may (k_log k) ∧ trusted (k_log k) ∧ machine_clear (k_log k).

Definition desk_requires {X} (k : Desk I) (e : eff I X) : Prop :=
  match e with
  | StoreJournal j => may_store k j
  | MarkUsed id | SpawnDriver id =>
      id = request_id req ∧ ∃ j, fresh_journal j ∧ mkEvent (StoreJournal j) (Ok ()) ∈ k_log k
  | SubmitRemove c r => c = caller ∧ r = req ∧ rq_kind req = KRemove
  | e => reads e = true
  end.

Definition desk : Monitor I (Desk I) := {|
  require X k e := desk_requires k e;
  allow X k e x := ∃ d, k_disk k d ∧ answers ls d e x;
  advance_ghost X k e x := after_call ls k e x |}.
End desk.

(** ** Facts that survive the driver *)

Definition stable (P : JournalDir → Prop) : Prop := ∀ d d', P d → rely d d' → P d'.
Definition surely {I} (k : Desk I) (P : JournalDir → Prop) : Prop := ∀ d, k_disk k d → P d.

(** A directory [submit] may find: files named by their journals' ids, none of them empty. *)
Definition named_dir (d : JournalDir) : Prop := dir_wf d ∧ jd_files d !! EmptyString = None.

Lemma stable_absent id : stable (λ d, jd_files d !! id = None).
Proof.
  intros d d' Hn Hr. destruct (jd_files d' !! id) as [f|] eqn:E; [|done].
  apply (rl_file _ _ Hr) in E as [E|(j & j' & E & _)]; congruence.
Qed.

Lemma stable_unspent id : stable (unspent id).
Proof.
  intros d d' [Hn Hu] Hr. split; [by apply (stable_absent id d d')|].
  intros [H|[f H]]%(rl_used _ _ Hr); [done|congruence].
Qed.

Lemma stable_idle : stable idle.
Proof.
  intros d d' Hi Hr id f' Hf. apply (rl_file _ _ Hr) in Hf as [Hf|(j & j' & Hf & -> & _ & Hk & Ho)].
  - by apply Hi in Hf.
  - apply Hi in Hf as (j0 & [= <-] & H1 & H2). exists j'. split_and!; [done|congruence|].
    destruct (is_open j'); [|done]. by rewrite Ho in H2.
Qed.

Lemma stable_named : stable named_dir.
Proof.
  intros d d' [Hw Hn] Hr. split; [|by apply (stable_absent EmptyString d d')].
  intros id j Hj. apply (rl_file _ _ Hr) in Hj as [Hj|(j1 & j' & Hj & [= <-] & Hid & _)].
  - by apply Hw.
  - rewrite Hid. by apply Hw.
Qed.

Lemma stable_impl (A : Prop) P : stable P → stable (λ d, A → P d).
Proof. intros HP d d' H Hr HA. by apply (HP d); [apply H|]. Qed.

#[export] Hint Resolve stable_absent stable_unspent stable_idle stable_named stable_impl : quasar.

(** What the driver does is within [rely]: it rewrites its journal, and prunes. *)
Lemma store_within_rely j j' d :
  jd_files d !! req_id j' = Some (Parsed j) → req_id j' = req_id j →
  format_known j' = format_known j → (is_open j' = true → is_open j = true) → rely d (store j' d).
Proof.
  intros Hj Hid Hf Ho. split; simpl; [|intros id k H|done|by left].
  - intros id f. rewrite lookup_insert_Some. intros [[<- <-]|[_ H]]; [right|by left].
    exists j, j'. by split_and!.
  - rewrite lookup_insert_None. intros [H' _]. congruence.
Qed.

Lemma prune_one_rely u r d j : is_Some (jd_files d !! req_id j) → rely d (prune_one u r d j).
Proof.
  intros Hj. destruct (prune_one_spec u r d j) as [Hu Hf]. split.
  - intros id f H. destruct (Hf id) as [E|[E _]]; [left|]; congruence.
  - intros id j' H H'. destruct (Hf id) as [E|[_ E]]; [congruence|done].
  - done.
  - intros id. unfold prune_one. destruct (mark_used _ _ d) as [d'|] eqn:E; [|by left].
    assert (id ∈ used_ids d' → id ∈ used_ids d ∨ is_Some (jd_files d !! id)) as H; [|by destruct (r _)].
    revert E. unfold mark_used, used_ids. destruct d as [fs [[ids|w]|]]; simpl in *; [|done|].
    + case_bool_decide; [intros [= <-]; by left|]. destruct (u _); [|done]. intros [= <-]. simpl.
      rewrite elem_of_app, list_elem_of_singleton. intros [?| ->]; [by left|by right].
    + destruct (u _); [|done]. intros [= <-]. simpl.
      rewrite list_elem_of_singleton. intros ->. by right.
Qed.

Lemma prune_fold_rely u r vs d :
  Forall (λ j, is_Some (jd_files d !! req_id j)) vs → NoDup (map req_id vs) →
  rely d (foldl (prune_one u r) d vs).
Proof.
  revert d. induction vs as [|j vs IH]; intros d Hv Hnd; simpl in *; [done|].
  apply Forall_cons in Hv as [Hj Hv]. apply NoDup_cons in Hnd as [Hn Hnd].
  etransitivity; [by apply prune_one_rely|]. apply IH; [|done].
  rewrite Forall_forall in *. intros j' Hj'. rewrite prune_one_other; [by apply Hv|].
  intros E. apply Hn. rewrite <- E. apply list_elem_of_fmap. by exists j'.
Qed.

Lemma prune_within_rely used_io rm_io entries d :
  dir_wf d → NoDup entries → rely d (prune used_io rm_io entries d).
Proof.
  intros Hwf Hnd. apply prune_fold_rely.
  - apply Forall_forall. intros j Hj. unfold prune_victims in Hj.
    apply elem_of_take in Hj as (n & Hj%list_elem_of_lookup_2 & _).
    apply finished_elem in Hj as [_ ->]; [by eexists|done].
  - unfold prune_victims. rewrite <- firstn_map. eapply sublist_NoDup; [|apply sublist_take].
    by apply finished_NoDup.
Qed.

(** A scan that could read everything and found no open attempt leaves the directory idle. *)
Lemma scan_idle d entries :
  lists d entries → sc_unreadable (scan d entries) = [] → scan_open (scan d entries) = None → idle d.
Proof.
  intros Hl Hu Ho id f Hf.
  assert (id ∈ entries) as Hin by (apply Hl; by eexists).
  unfold scan in Hu. simpl in Hu.
  assert (id ∉ scan_unreadable d entries) as Hnu.
  { intros H. rewrite <- (sort_by_perm str_leb) in H. rewrite Hu in H. by apply elem_of_nil in H. }
  assert (∃ j, load d id = Ok (Some j)) as [j Hj].
  { destruct (load d id) as [[j|]|why] eqn:E; [by eexists| |].
    - unfold load in E. rewrite Hf in E. by repeat case_match.
    - destruct Hnu. unfold scan_unreadable. apply list_elem_of_omap. exists id. by rewrite E. }
  exists j. pose proof (load_Some _ _ _ Hj) as Hp. rewrite Hf in Hp. injection Hp as ->.
  split_and!; [done| |].
  - unfold load in Hj. rewrite Hf in Hj. by destruct (format_known j).
  - assert (j ∈ sc_journals (scan d entries)) as Hsj by (apply scan_journals_elem; by exists id).
    unfold scan_open in Ho. apply find_first_None in Ho. rewrite Forall_forall in Ho.
    apply Ho. by apply elem_of_reverse.
Qed.

Lemma scan_open_elem d entries j :
  scan_open (scan d entries) = Some j →
  ∃ id, jd_files d !! id = Some (Parsed j).
Proof.
  unfold scan_open. intros [H _]%find_first_Some. rewrite elem_of_reverse in H.
  apply scan_journals_elem in H as (id & _ & H). exists id. by apply load_Some.
Qed.

(** ** Rules *)

(** Some looking later: the log grew by reads, and what survives the driver still holds. *)
Record later {I} (k k' : Desk I) : Prop := mkLater {
  lt_log : ∃ l, k_log k' = k_log k ++ l ∧ Forall (λ ev, looked ev = true) l;
  lt_disk : ∀ P, stable P → surely k P → surely k' P }.

#[global] Instance later_preorder {I} : PreOrder (@later I).
Proof.
  split.
  - intros k. split; [by exists []; rewrite app_nil_r|done].
  - intros k1 k2 k3 [(l1 & E1 & H1) D1] [(l2 & E2 & H2) D2]. split; [|by auto].
    exists (l1 ++ l2). by rewrite E2, E1, app_assoc, Forall_app.
Qed.

Lemma later_seen {I} (k k' : Desk I) ev : later k k' → ev ∈ k_log k → ev ∈ k_log k'.
Proof. intros [(l & -> & _) _]. set_solver. Qed.

Lemma leaves_read {I X} d (e : eff I X) x d' : reads e = true → leaves d e x d' → d' = d.
Proof. by destruct e. Qed.

Lemma after_read {I X} (k : Desk I) (e : eff I X) x : reads e = true → later k (after_call Listed k e x).
Proof.
  intros He. split; [exists [mkEvent e x]; split; [done|by constructor]|].
  intros P HP Hk d' (d & d1 & Hd & _ & ->%leaves_read & Hr); [|done].
  eapply HP; [|done]. by apply Hk.
Qed.

(** What an answer says of the directory that gave it. *)
Lemma surely_answer {I X} (k : Desk I) (e : eff I X) x P :
  reads e = true → stable P → (∀ d, k_disk k d → answers Listed d e x → P d) → surely (after_call Listed k e x) P.
Proof.
  intros He HP Hk d' (d & d1 & Hd & Ha & ->%leaves_read & Hr); [|done].
  eapply HP; [|done]. by apply Hk.
Qed.

Lemma answer_logged {I X} (k : Desk I) (e : eff I X) x : mkEvent e x ∈ k_log (after_call Listed k e x).
Proof. simpl. set_solver. Qed.

Section rules.
Context {I : Type} `{!ReplaceDeps I, !TrustDeps} {cfg : Config} {caller : Caller} {req : Request}.
Implicit Types (k : Desk I).

Local Abbreviation WP p k Q := (wp (desk Listed cfg caller req) False p k Q).

(** A procedure that only looks, and ends with [Φ]. *)
Definition asks {A} (p : prog I A) k (Φ : A → Desk I → Prop) : Prop :=
  WP p k (λ a k', later k k' ∧ Φ a k').

Lemma asks_ret {A} (a : A) k Φ : Φ a k → asks (Ret a) k Φ.
Proof. by split. Qed.

Lemma reads_required {X} k (e : eff I X) : reads e = true → desk_requires cfg caller req k e.
Proof. by destruct e. Qed.

Lemma asks_call {X A} (e : eff I X) (f : X → prog I A) k Φ :
  reads e = true →
  (∀ x, (∃ d, k_disk k d ∧ answers Listed d e x) → later k (after_call Listed k e x) →
        mkEvent e x ∈ k_log (after_call Listed k e x) → asks (f x) (after_call Listed k e x) Φ) →
  asks (bind (call e) f) k Φ.
Proof.
  intros He Hf. split; [by apply reads_required|]. intros x Hx.
  eapply wp_mono; [apply Hf; [done|by apply after_read|by apply answer_logged]|].
  intros a k' [Hl HΦ]. split; [|done]. etransitivity; [by apply (after_read k e x)|done].
Qed.

Lemma asks_seq {A B} (p : prog I A) (f : A → prog I B) k Ψ Φ :
  asks p k Ψ → (∀ a k', later k k' → Ψ a k' → asks (f a) k' Φ) → asks (bind p f) k Φ.
Proof.
  intros Hp Hf. apply wp_bind. eapply wp_mono; [exact Hp|]. intros a k' [Hl Ha].
  eapply wp_mono; [by apply Hf|]. intros b k'' [Hl' Hb]. split; [|done]. by etransitivity.
Qed.

Lemma asks_mono {A} (p : prog I A) k (Φ Ψ : A → Desk I → Prop) :
  asks p k Φ → (∀ a k', later k k' → Φ a k' → Ψ a k') → asks p k Ψ.
Proof. intros Hp HΦ. eapply wp_mono; [exact Hp|]. intros a k' [Hl Ha]. split; [done|]. by apply HΦ. Qed.

Lemma wp_asks {A B} (p : prog I A) (f : A → prog I B) k Ψ Q :
  asks p k Ψ → (∀ a k', later k k' → Ψ a k' → WP (f a) k' Q) → WP (bind p f) k Q.
Proof.
  intros Hp Hf. apply wp_bind. eapply wp_mono; [exact Hp|]. intros a k' [Hl Ha]. by apply Hf.
Qed.

(** The end of a check: [Ψ], or a refusal of this very request. *)
Definition graded {A} (Ψ : A → Desk I → Prop) (r : result A Rejection) k : Prop :=
  match r with Ok a => Ψ a k | Err e => rej_request_id e = request_id req end.

Lemma wp_asks_ok {A B} (p : prog I (result A Rejection)) (f : A → prog I (result B Rejection)) k Ψ Q :
  asks p k (graded Ψ) →
  (∀ e k', later k k' → rej_request_id e = request_id req → Q (Err e) k') →
  (∀ a k', later k k' → Ψ a k' → WP (f a) k' Q) → WP (bind_ok p f) k Q.
Proof.
  intros Hp He Hf. eapply wp_asks; [exact Hp|]. intros [a|e] k' Hl Ha; [by apply Hf|by apply He].
Qed.

Lemma asks_ok {A B} (p : prog I (result A Rejection)) (f : A → prog I (result B Rejection)) k Ψ Φ :
  asks p k (graded Ψ) →
  (∀ a k', later k k' → Ψ a k' → asks (f a) k' (graded Φ)) → asks (bind_ok p f) k (graded Φ).
Proof.
  intros Hp Hf. eapply asks_seq; [exact Hp|].
  intros [a|e] k' Hl Ha; [by apply Hf|]. by apply asks_ret.
Qed.
End rules.
Arguments asks {I _ _} cfg caller req {A} p k Φ.
Arguments graded {I} req {A} Ψ r k.

Ltac ask := apply asks_call; [reflexivity|intros ?x ?Hanswer ?Hlater ?Hlogged].

(** ** The checks of [submit] *)

Lemma was_used_false d id : was_used d id = Ok false → id ∉ used_ids d.
Proof.
  unfold was_used, used_ids. destruct (jd_used d) as [[ids|]|]; [|done|set_solver].
  intros [= H]. by apply bool_decide_eq_false in H.
Qed.

Lemma load_None d id : load d id = Ok None → jd_files d !! id = None.
Proof. unfold load. destruct (jd_files d !! id) as [[j|]|]; [by destruct (format_known j)|done..]. Qed.

Section submit_checks.
Context {I : Type} `{!ReplaceDeps I, !TrustDeps} {cfg : Config} {caller : Caller} {req : Request}.
Implicit Types (k : Desk I).

Local Abbreviation ASKS p k Φ := (asks cfg caller req p k Φ).

Definition reposted (acc : Accepted) k : Prop :=
  acc_request_id acc = request_id req ∧
  ∃ known, mkEvent (LoadJournal (request_id req)) (Ok (Some known)) ∈ k_log k ∧
    j_caller known = caller_tag caller ∧ acc_previous acc = res_previous (j_result known).

Lemma answer_repost_spec k :
  ASKS (answer_repost caller req) k (λ o k',
    match o with
    | None => is_uuid (request_id req) = true → surely k' (unspent (request_id req))
    | Some r => graded req reposted r k'
    end).
Proof.
  unfold answer_repost. destruct (is_uuid (request_id req)); simpl; [|by apply asks_ret].
  ask. destruct x as [[j|]|why].
  - apply asks_ret. case_bool_decide; [|by destruct (is_open j)]. split; [done|]. by exists j.
  - set (id := request_id req) in *.
    assert (surely (after_call Listed k (LoadJournal id) (Ok None)) (λ d, jd_files d !! id = None)) as Hs.
    { apply surely_answer; [done|auto with quasar|]. intros d _ [E|E]; [|done]. by apply load_None. }
    ask. apply asks_ret. destruct x as [[]|why]; [done| |done]. intros _.
    apply surely_answer; [done|auto with quasar|]. intros d Hd [E|E]; [|done].
    split; [by apply Hs|by apply was_used_false].
  - by apply asks_ret.
Qed.

Lemma name_rules_ok l : name_rules caller req l = Ok tt →
  Forall (λ c, comp_name c ∈ ["node-agent"; "recovery-actor"; "control-plane"] →
               may_name caller (comp_name c) = true) l.
Proof.
  induction l as [|c l IH]; simpl; [done|]. case_bool_decide as Hin; simpl.
  - destruct (may_name caller (comp_name c)) eqn:E; simpl; [|done]. intros H'. constructor; auto.
  - intros H'. constructor; [done|auto].
Qed.

Lemma name_rules_err l e : name_rules caller req l = Err e → rej_request_id e = request_id req.
Proof.
  induction l as [|c l IH]; simpl; [done|]. destruct (_ && _); [by intros [= <-]|done].
Qed.

(** What the caller's rules let through, and that a refusal is of this request. *)
Lemma caller_rules_spec role k :
  (rq_kind req = KRemove → is_uuid (request_id req) = false) →
  graded req (λ _ k, is_uuid (request_id req) = true →
    rq_kind req = KReplace ∧
    Forall (λ c, comp_name c ∈ ["node-agent"; "recovery-actor"; "control-plane"] →
                 may_name caller (comp_name c) = true) (components req) ∧
    (names_component "control-plane" req = true → role ≠ Gpu) ∧
    (names_component "recovery-actor" req = true →
       match caller with
       | CallerControlPlane => names_component "control-plane" req = true
       | CallerAgent => role = Gpu
       end)) (kind_and_caller_rules caller req role) k.
Proof.
  intros Hrm. unfold kind_and_caller_rules.
  destruct (kind_rules caller req) as [[]|e] eqn:Ek;
    [|unfold kind_rules in Ek; by destruct caller, (rq_kind req); simplify_eq/=].
  destruct (name_rules caller req (components req)) as [[]|e] eqn:En;
    [|by apply name_rules_err in En].
  apply name_rules_ok in En.
  destruct (names_component "recovery-actor" req), (names_component "control-plane" req) eqn:Ec;
    unfold kind_rules in Ek; destruct caller, role; simpl; try done; intros Hu; split_and!; try done;
    destruct (rq_kind req); try done; by rewrite Hrm in Hu.
Qed.

Lemma grade_caller_spec k :
  (rq_kind req = KRemove → is_uuid (request_id req) = false) →
  ASKS (grade_caller cfg caller req) k (graded req (λ _ k', is_uuid (request_id req) = true →
    Forall (λ c, comp_name c ∈ ["node-agent"; "recovery-actor"; "control-plane"]) (components req) →
    caller_may cfg caller req (k_log k'))).
Proof.
  intros Hrm. unfold grade_caller. destruct (is_uuid (request_id req)) eqn:Eu; simpl; [|by apply asks_ret].
  ask. apply asks_ret.
  set (role := match x with Ok (Some m) => m_role m | _ => config_role cfg end).
  pose proof (caller_rules_spec role (after_call Listed k LoadMachine x)) as Hc. rewrite Eu in Hc.
  specialize (Hc Hrm). destruct (kind_and_caller_rules caller req role); [|done]. simpl in *.
  intros _ Hnames. destruct (Hc eq_refl) as (Hk & Hmay & Hcp & Hra). split_and!; [done| |].
  - rewrite Forall_forall in *. intros c Hin. by apply Hmay, Hnames.
  - exists role. split_and!; [|done..]. subst role. destruct x as [[m|]|]; [right|by left..]. by exists m.
Qed.

Lemma grade_images_spec l k :
  graded req (λ _ _, Forall (λ c, repository_well_formed (comp_image c) = true) l)
    (grade_images req l) k.
Proof.
  induction l as [|c l IH]; simpl; [constructor|].
  destruct (repository_well_formed (comp_image c)) eqn:E; [|done].
  destruct (grade_images req l) as [[]|]; simpl in *; [by constructor|done].
Qed.

Lemma component_known_named c :
  component_known caller req (comp_name c) = true →
  comp_name c ∈ ["node-agent"; "recovery-actor"; "control-plane"].
Proof.
  unfold component_known. rewrite orb_true_iff, andb_true_iff, bool_decide_eq_true, str_eqb_true.
  intros [H'|[-> _]]; [|set_solver]. unfold COMPONENTS in H'. set_solver.
Qed.

Definition gates_passed k : Prop :=
  is_uuid (request_id req) = true ∧ surely k idle ∧ surely k (unspent (request_id req)) ∧
  trusted caller req (k_log k) ∧
  Forall (λ c, comp_name c ∈ ["node-agent"; "recovery-actor"; "control-plane"]) (components req).

(** The in-flight id the trust gates see is that of the open attempt, whatever the directory. *)
Lemma in_flight_clear k sc :
  surely k named_dir → surely k (unspent (request_id req)) → sc_unreadable sc = [] →
  (∃ d, k_disk k d ∧ answers Listed d (@ScanJournals I) sc) →
  (∀ id, (λ j, request_id (j_request j)) <$> scan_open sc = Some id → id = EmptyString ∨ id = request_id req) →
  surely (after_call Listed k ScanJournals sc) idle.
Proof.
  intros Hn Hu Hsc (d0 & Hd0 & [Ha0|([en0|] & Hl0 & E0)]) Hid; [done| |done]. cbn in Hl0, E0.
  assert (scan_open sc = None) as Ho.
  { destruct (scan_open sc) as [j|] eqn:Ho; [exfalso|done]. rewrite E0 in Ho.
    apply scan_open_elem in Ho as [id Hj]. destruct (Hn d0 Hd0) as [Hwf Hempty].
    pose proof (Hwf _ _ Hj) as Hjid. destruct (Hid _ eq_refl) as [E|E]; rewrite Hjid in E; subst id.
    - congruence.
    - destruct (Hu d0 Hd0) as [Hnone _]. congruence. }
  apply surely_answer; [done|auto with quasar|]. intros d _ [Ha|([en|] & Hl & ->)]; [done| |done].
  by apply (scan_idle d en).
Qed.

Lemma grade_trust_spec k :
  surely k named_dir → (is_uuid (request_id req) = true → surely k (unspent (request_id req))) →
  ASKS (grade_trust caller req) k (graded req (λ _ k', gates_passed k')).
Proof.
  intros Hn Hu. unfold grade_trust. apply asks_call; [reflexivity|]. intros sc Hsc Hl1 _.
  destruct (sc_unreadable sc) as [|id ids] eqn:Eun; [|by apply asks_ret].
  eapply asks_ok; [apply asks_ret, grade_images_spec|]. intros ? k1 Hk1 Himg.
  apply asks_ok with (Ψ := λ s k', mkEvent LoadTrust (Ok s) ∈ k_log k').
  { unfold map_errp. ask. apply asks_ret. by destruct x. }
  intros [ns pol] k2 Hk2 Htrust. cbn [fst snd].
  set (tc := mkTrustConfig _ _ _).
  apply asks_seq with (Ψ := λ o k', ∀ e, o = Some e → mkEvent (GatherEvidence req) e ∈ k_log k').
  { destruct (wants_signature_evidence tc (request_id req)); [|by apply asks_ret].
    ask. apply asks_ret. by intros e [= <-]. }
  intros ev k3 Hk3 Hev. apply asks_ret.
  pose proof (trust_decision_spec caller req tc ev) as Ht.
  destruct (trust_decision caller req tc ev); [|done]. simpl in *.
  destruct (proj1 Ht eq_refl) as (Huu & Hfl & Hne & Hnd & Hok & Hsig). rewrite <- is_uuid_spec in Huu.
  assert (later (after_call Listed k ScanJournals sc) k3) as Hlt by (etransitivity; [exact Hk1|by etransitivity]).
  split_and!; [done| | | |].
  - apply (lt_disk _ _ Hlt); [auto with quasar|]. apply in_flight_clear; auto.
  - apply (lt_disk _ _ Hlt); [auto with quasar|]. apply (lt_disk _ _ Hl1); auto with quasar.
  - exists ns, pol, ev. split_and!; [by apply (later_seen k2)|done..| |done].
    rewrite Forall_forall in *. intros c Hc. split; [|by apply Himg]. by apply Hok.
  - rewrite Forall_forall in *. intros c Hc. apply component_known_named. by apply Hok.
Qed.

Lemma grade_database_spec m k :
  ASKS (grade_database req m) k (graded req (λ _ k',
    names_component "control-plane" req = true →
    mkEvent LoadHold (Ok None) ∈ k_log k' ∧
    (migrates req = true → owned_database (m_inputs m) = true ∨ external_backup_confirmed req = true))).
Proof.
  unfold grade_database. destruct (names_component "control-plane" req); simpl; [|by apply asks_ret].
  destruct (migrates req && _ && _) eqn:E; [by apply asks_ret|]. ask. apply asks_ret.
  destruct x as [[]|]; [done| |done]. intros _. split; [done|]. intros Hm. rewrite Hm in E. simpl in E.
  destruct (owned_database (m_inputs m)); [by left|right]. by destruct (external_backup_confirmed req).
Qed.

Lemma grade_listing_spec m k :
  ASKS (grade_listing cfg req m) k (graded req (λ _ k',
    ∃ all, mkEvent ListContainers (Ok all) ∈ k_log k' ∧
      conflicts all (Some (m_installation_id m)) (self_container cfg) = [] ∧
      Forall (λ c, c_labels c !! LABEL_ATTEMPT ≠ Some (request_id req)) all)).
Proof.
  unfold grade_listing. ask. apply asks_ret. destruct x as [all|e]; [|done].
  destruct (conflicts all _ _) eqn:Ec; [|done].
  destruct (find_first _ all) eqn:Ef; [done|]. exists all. split_and!; [done..|].
  apply find_first_None in Ef. eapply Forall_impl; [exact Ef|]. intros c Hc.
  by apply bool_decide_eq_false in Hc.
Qed.

Lemma grade_names_spec m role names od k :
  ASKS (grade_names cfg req m role od names) k (graded req (λ _ _, True)).
Proof.
  revert od k. induction names as [|n names IH]; intros od k; cbn [grade_names]; [by apply asks_ret|].
  ask. destruct x as [[c|]|e]; [| |by apply asks_ret]; [|by apply IH].
  eapply asks_ok with (Ψ := λ _ _, True); [|intros; apply IH].
  apply asks_ret. unfold grade_holder. by repeat case_match.
Qed.

(** The plan of an admitted request: one step per component, none begun. *)
Definition planned (l : list Component) (sp : list Step * list Previous) : Prop :=
  map st_name sp.1 = map comp_name l ∧
  Forall (λ s, st_phase s = PhAdmitted ∧ old_container s = None ∧ new_container s = None) sp.1.

Lemma plan_spec m l done_l steps prev k :
  planned done_l (steps, prev) →
  ASKS (plan cfg req m steps prev l) k (graded req (λ sp _, planned (done_l ++ l) sp)).
Proof.
  revert done_l steps prev k. induction l as [|c l IH]; intros done_l steps prev k Hp; cbn [plan].
  { apply asks_ret. simpl. by rewrite app_nil_r. }
  eapply asks_ok with (Ψ := λ _ _, True); [apply asks_ret; by destruct (role_parse _)|].
  intros role k1 _ _. eapply asks_ok; [apply grade_names_spec|]. intros od k2 _ _.
  destruct (_ && _); [by apply asks_ret|].
  replace (done_l ++ c :: l) with ((done_l ++ [c]) ++ l) by (by rewrite <- app_assoc).
  apply IH. destruct Hp as [Hn Hs]. split; simpl in *; [by rewrite !map_app, Hn|].
  apply Forall_app. split; [done|]. by repeat constructor.
Qed.

(** ** Starting the attempt *)

Definition started (acc : Accepted) (l : list (event I)) : Prop :=
  acc_request_id acc = request_id req ∧
  ∃ j, fresh_journal caller req j ∧ acc_previous acc = res_previous (j_result j) ∧
    mkEvent (StoreJournal j) (Ok ()) ∈ l ∧ mkEvent (SpawnDriver (request_id req)) () ∈ l.

(** Everything refused was only looked at; the last call may have been a write of the journal
    that failed. *)
Definition only_looked (l : list (event I)) : Prop :=
  ∃ seen tried, l = seen ++ tried ∧ Forall (λ ev, looked ev = true) seen ∧
    (tried = [] ∨ ∃ j why, tried = [mkEvent (StoreJournal j) (Err why)]).

(** How [submit] ends: a re-post answered from its journal, an attempt on disk with its driver
    started, or a refusal that changed nothing; a removal's end is its own component's. *)
Definition submit_ends k0 (r : result Accepted Rejection) k : Prop :=
  ∃ l, k_log k = k_log k0 ++ l ∧
  ((∃ l', l = l' ++ [mkEvent (SubmitRemove caller req) r] ∧ rq_kind req = KRemove) ∨
   match r with
   | Ok acc => reposted acc k ∧ Forall (λ ev, looked ev = true) l ∨ started acc l
   | Err e => rej_request_id e = request_id req ∧ only_looked l
   end).

Lemma refused_ends k0 k e :
  later k0 k → rej_request_id e = request_id req → submit_ends k0 (Err e) k.
Proof.
  intros [(l & E & Hl) _] He. exists l. split; [done|right]. split; [done|].
  exists l, []. rewrite app_nil_r. by split_and!; [..|left].
Qed.

Lemma admitted_fresh sp seq now :
  is_uuid (request_id req) = true → planned (components req) sp →
  fresh_journal caller req (admitted_journal caller req seq sp.1 sp.2 now).
Proof. intros _ [Hn Hs]. by split_and!. Qed.

Lemma seen_mono k k' :
  later k k' →
  (caller_may cfg caller req (k_log k) → caller_may cfg caller req (k_log k')) ∧
  (trusted caller req (k_log k) → trusted caller req (k_log k')) ∧
  (machine_clear cfg req (k_log k) → machine_clear cfg req (k_log k')).
Proof.
  intros Hl. assert (∀ ev, ev ∈ k_log k → ev ∈ k_log k') as Hs by (intros ev; by apply later_seen).
  split_and!.
  - intros (Hk & Hn & role & Hr & Hrest). split_and!; [done..|]. exists role. split; [|done].
    destruct Hr as [->|(m & Hm & ->)]; [by left|right]. exists m. auto.
  - intros (ns & pol & ev & Ht & He & Hrest). exists ns, pol, ev. split; [auto|]. split; [auto|done].
  - intros (m & all & Hm & Ha & H1 & H2 & H3). exists m, all. split_and!; [auto..|].
    intros Hc. destruct (H3 Hc). auto.
Qed.

Lemma start_attempt_spec sp k0 k :
  later k0 k → gates_passed k → caller_may cfg caller req (k_log k) → machine_clear cfg req (k_log k) →
  planned (components req) sp →
  wp (desk Listed cfg caller req) False (start_attempt caller req sp.1 sp.2) k (submit_ends k0).
Proof.
  intros Hk (Huu & Hidle & Hun & Htr & _) Hcm Hmc Hp. unfold start_attempt.
  apply wp_bind, wp_call; [done|]. intros now _.
  assert (later k (after_call Listed k NowStamp now)) as L1 by (by apply after_read).
  set (k1 := after_call Listed k NowStamp now) in *.
  apply wp_bind, wp_call; [done|]. intros sc _.
  assert (later k1 (after_call Listed k1 ScanJournals sc)) as L2 by (by apply after_read).
  set (k2 := after_call Listed k1 ScanJournals sc) in *.
  assert (later k k2) as L by (by etransitivity).
  assert (later k0 k2) as [(seen & E & Hseen) _] by (by etransitivity).
  set (j := admitted_journal _ _ _ _ _ _).
  assert (fresh_journal caller req j) as Hj by (by apply admitted_fresh).
  destruct (seen_mono _ _ L) as (H1 & H2 & H3).
  apply wp_bind, wp_call.
  { split_and!; [done|done| |auto..]. intros d Hd. split.
    - by apply (lt_disk _ _ L); [auto with quasar| |].
    - by apply (lt_disk _ _ L); [auto with quasar| |]. }
  intros [[]|why] _; simpl advance_ghost.
  - pose (k3 := after_call Listed k2 (StoreJournal j) (Ok ())).
    assert (mkEvent (StoreJournal j) (Ok ()) ∈ k_log k3) as Hst by apply answer_logged.
    apply wp_bind, wp_call; [by split; [|exists j]|]. intros used _; simpl advance_ghost.
    pose (k4 := after_call Listed k3 (MarkUsed (request_id req)) used).
    apply wp_bind, wp_call; [split; [done|]; exists j; split; [done|]; simpl; set_solver|].
    intros [] _; simpl advance_ghost.
    exists (seen ++ [mkEvent (StoreJournal j) (Ok ()); mkEvent (MarkUsed (request_id req)) used;
             mkEvent (SpawnDriver (request_id req)) ()]).
    split.
    { transitivity (((k_log k2 ++ [mkEvent (StoreJournal j) (Ok ())])
        ++ [mkEvent (MarkUsed (request_id req)) used]) ++ [mkEvent (SpawnDriver (request_id req)) ()]);
        [reflexivity|]. rewrite E. by rewrite <- !app_assoc. }
    right. right.
    split; [done|]. exists j. split_and!; [done|done|set_solver..].
  - exists (seen ++ [mkEvent (StoreJournal j) (Err why)]). split.
    { transitivity (k_log k2 ++ [mkEvent (StoreJournal j) (Err why)]); [reflexivity|].
      rewrite E. by rewrite app_assoc. }
    right. split; [done|]. exists seen, [mkEvent (StoreJournal j) (Err why)]. split_and!; [done..|].
    right. by eexists _, _.
Qed.

(** ** [submit] *)

Lemma submit_replace_spec k0 k :
  later k0 k → surely k named_dir → (rq_kind req = KRemove → is_uuid (request_id req) = false) →
  (is_uuid (request_id req) = true → surely k (unspent (request_id req))) →
  wp (desk Listed cfg caller req) False (submit_replace cfg caller req) k (submit_ends k0).
Proof.
  intros Hk Hn Hrm Hun. unfold submit_replace.
  assert (∀ k', later k k' → ∀ e, rej_request_id e = request_id req → submit_ends k0 (Err e) k') as Hend.
  { intros k' L e He. apply refused_ends; [|done]. by etransitivity. }
  eapply wp_asks_ok; [by apply grade_caller_spec|by eauto|]. intros ? k1 L1 Hcm.
  eapply wp_asks_ok; [apply grade_trust_spec| |].
  { by apply (lt_disk _ _ L1); [auto with quasar|]. }
  { intros Hu. by apply (lt_disk _ _ L1); [auto with quasar|auto]. }
  { intros e k' L' He. apply Hend; [by etransitivity|done]. }
  intros ? k2 L2 Hg. assert (later k k2) as L by (by etransitivity).
  apply wp_asks with (Ψ := λ x k', mkEvent LoadMachine x ∈ k_log k').
  { apply (asks_call LoadMachine Ret); [done|]. intros x _ _ Hx. by apply asks_ret. }
  intros x k3 L3 Hx. assert (later k k3) as L' by (by etransitivity).
  eapply wp_asks_ok with (Ψ := λ m k', x = Ok (Some m)).
  { apply asks_ret. by destruct x as [[m|]|]. }
  { intros e k' ? He. apply Hend; [by etransitivity|done]. }
  intros m k4 L4 ->. assert (later k k4) as L'' by (by etransitivity).
  eapply wp_asks_ok; [apply (grade_database_spec m)| |].
  { intros e k' ? He. apply Hend; [by etransitivity|done]. }
  intros ? k5 L5 Hdb. assert (later k k5) as L5' by (by etransitivity).
  eapply wp_asks_ok; [apply (grade_listing_spec m)| |].
  { intros e k' ? He. apply Hend; [by etransitivity|done]. }
  intros ? k6 L6 (all & Hall & Hconf & Hlab). assert (later k k6) as L6' by (by etransitivity).
  eapply wp_asks_ok; [by apply (plan_spec m (components req) [] [] [])| |].
  { intros e k' ? He. apply Hend; [by etransitivity|done]. }
  intros sp k7 L7 Hsp. assert (later k2 k7) as L27 by (by do 5 (etransitivity; [done|])).
  apply start_attempt_spec; [by do 2 (etransitivity; [done|])| | | |done].
  - destruct Hg as (? & ? & ? & ? & ?). destruct (seen_mono _ _ L27) as (_ & Htr & _).
    split_and!; [done|by apply (lt_disk _ _ L27); [auto with quasar|]..|auto|done].
  - destruct (seen_mono _ _ L27) as (Hc & _ & _). apply Hc.
    destruct (seen_mono _ _ L2) as (Hc' & _ & _). apply Hc'. apply Hcm; apply Hg.
  - exists m, all. split_and!; [|by apply (later_seen k6)|done..|].
    + apply (later_seen k3); [|done]. by do 4 (etransitivity; [done|]).
    + intros Hcp. destruct (Hdb Hcp) as [Hh Hb]. split; [|done].
      apply (later_seen k5); [by etransitivity|done].
Qed.

Lemma submit_spec k :
  surely k named_dir → wp (desk Listed cfg caller req) False (submit cfg caller req) k (submit_ends k).
Proof.
  intros Hn. unfold submit. eapply wp_asks; [apply answer_repost_spec|].
  intros o k1 L1 Ho. destruct o as [r|].
  { destruct r as [acc|e]; [|by apply refused_ends].
    destruct L1 as [(l & E & Hl) _]. exists l. split; [done|]. right. by left. }
  apply wp_asks with (Ψ := λ _ _, True).
  { apply (asks_call Resuming Ret); [done|]. intros. by apply asks_ret. }
  intros resuming k2 L2 _. assert (later k k2) as L by (by etransitivity).
  destruct resuming; [by apply refused_ends|].
  destruct (bool_decide (rq_kind req = KRemove) && is_uuid (request_id req)) eqn:Erm.
  { apply andb_true_iff in Erm as [Erm%bool_decide_eq_true _]. apply wp_call; [done|].
    intros r _. destruct L as [(l & E & _) _].
    exists (l ++ [mkEvent (SubmitRemove caller req) r]). split.
    { transitivity (k_log k2 ++ [mkEvent (SubmitRemove caller req) r]); [reflexivity|].
      by rewrite E, app_assoc. }
    left. by exists l. }
  apply wp_asks with (Ψ := λ _ _, True).
  { apply (asks_call Uninstalled Ret); [done|]. intros. by apply asks_ret. }
  intros [why|] k3 L3 _; [apply refused_ends; [by etransitivity|done]|].
  assert (later k1 k3) as L13 by (by etransitivity).
  apply submit_replace_spec; [by etransitivity| | |].
  - apply (lt_disk k k3); [by etransitivity|auto with quasar|done].
  - intros Hk. destruct (is_uuid (request_id req)); [|done]. by rewrite bool_decide_eq_true_2 in Erm.
  - intros Hu. apply (lt_disk _ _ L13); [auto with quasar|auto].
Qed.
End submit_checks.

(** ** The promises *)

Definition one_open (d : JournalDir) : Prop :=
  ∀ id1 id2 j1 j2, jd_files d !! id1 = Some (Parsed j1) → jd_files d !! id2 = Some (Parsed j2) →
    is_open j1 = true → is_open j2 = true → id1 = id2.

Definition orderly (d : JournalDir) : Prop := named_dir d ∧ one_open d.

Lemma stable_orderly : stable orderly.
Proof.
  intros d d' [Hn Ho] Hr. split; [by apply (stable_named d)|].
  intros id1 id2 j1 j2 H1 H2 O1 O2.
  assert (∀ id j, jd_files d' !! id = Some (Parsed j) → is_open j = true →
    ∃ j0, jd_files d !! id = Some (Parsed j0) ∧ is_open j0 = true) as Hback.
  { intros id j Hj Hop. apply (rl_file _ _ Hr) in Hj as [Hj|(j0 & j' & Hj & [= <-] & _ & _ & Himp)]; eauto. }
  destruct (Hback _ _ H1 O1) as (? & ? & ?), (Hback _ _ H2 O2) as (? & ? & ?). by eapply Ho.
Qed.
#[export] Hint Resolve stable_orderly : quasar.

Lemma store_orderly j d :
  req_id j ≠ EmptyString → idle d → orderly d → orderly (store j d).
Proof.
  intros Hid Hi [[Hw He] _]. split; [split; [by apply store_wf|by apply lookup_insert_None]|].
  intros id1 id2 j1 j2. simpl. rewrite !lookup_insert_Some.
  intros [[<- [= <-]]|[_ H1]] [[<- [= <-]]|[_ H2]] O1 O2; [done|..].
  - by apply Hi in H2 as (? & [= <-] & _ & ?); congruence.
  - by apply Hi in H1 as (? & [= <-] & _ & ?); congruence.
  - by apply Hi in H1 as (? & [= <-] & _ & ?); congruence.
Qed.

Section promises.
Context {I : Type} `{!ReplaceDeps I, !TrustDeps} (cfg : Config) (caller : Caller) (req : Request).
Implicit Types (k : Desk I) (d : JournalDir).

Local Abbreviation DESK := (desk Listed cfg caller req).

Lemma desk_keeps_orderly k X (e : eff I X) x :
  surely k orderly → desk_requires cfg caller req k e → surely (after_call Listed k e x) orderly.
Proof.
  intros Hk Hreq d' (d & d1 & Hd & _ & Hlv & Hr). apply (stable_orderly d1); [|done].
  specialize (Hk d Hd). destruct e; simpl in *; try (by subst d1).
  - destruct Hreq as (Hf & Hu & Hdisk & _). destruct Hlv as [->|[_ ->]]; [|done].
    apply store_orderly; [|by apply Hdisk|done]. unfold req_id. destruct Hf as (-> & _).
    intros E. by rewrite E in Hu.
  - destruct Hlv as [Hm|[_ ->]]; [|done]. apply mark_used_ok in Hm as (Hf & _).
    destruct Hk as [[Hw Hn] Ho]. unfold orderly, named_dir, dir_wf, one_open. by rewrite Hf.
Qed.

Lemma history_log k l : k_log (history DESK k l) = k_log k ++ l.
Proof.
  revert k. induction l as [|[X e x] l IH]; intros k; simpl; [by rewrite app_nil_r|].
  rewrite IH. simpl. by rewrite <- app_assoc.
Qed.

Lemma surely_named k : surely k orderly → surely k named_dir.
Proof. intros Hk d Hd. by apply Hk. Qed.

(** (C18) Single flight, as long as the attempts directory can be listed ([Listed]: each scan
    answers with every entry, or with a file it could not read): whatever the driver of an earlier
    attempt does meanwhile, whichever call the process dies at, and whether or not a failed write
    reached the disk, [submit] leaves at most one open attempt in a directory that had at most one.
    (A directory that cannot be listed is scanned as an empty one, and single flight is lost.) *)
Theorem submit_single_flight k l d :
  surely k orderly → trace (submit cfg caller req) l → lawful DESK k l →
  k_disk (history DESK k l) d →
  orderly d.
Proof.
  intros Hk Ht Hl Hd.
  assert (surely (history DESK k l) orderly) as Hs; [|by apply Hs].
  eapply (history_invariant DESK (λ k, surely k orderly)); [|done| |done|done].
  - intros k' X e x Hk' Hreq _. by apply desk_keeps_orderly.
  - by apply submit_spec, surely_named.
Qed.

(** Nothing reaches the disk ungraded: a journal is written only for a uuid that was never
    used, while no attempt is open and every journal is readable; within the socket's own rules;
    for components that passed the trust gates on the settings and evidence that were read; and
    on a machine whose listing shows no foreign platform service and no container of that id. *)
Theorem submit_stores_graded k l1 l2 j r :
  k_log k = [] → surely k orderly →
  trace (submit cfg caller req) (l1 ++ mkEvent (StoreJournal j) r :: l2) →
  lawful DESK k (l1 ++ mkEvent (StoreJournal j) r :: l2) →
  fresh_journal caller req j ∧ is_uuid (request_id req) = true ∧
  (∀ d, k_disk (history DESK k l1) d → idle d ∧ unspent (request_id req) d) ∧
  caller_may cfg caller req l1 ∧ trusted caller req l1 ∧ machine_clear cfg req l1.
Proof.
  intros Hlog Hk Ht Hl.
  pose proof (wp_sound DESK False _ _ _ _ _ _ (submit_spec k (surely_named k Hk)) Ht Hl) as H'.
  simpl in H'. destruct H' as (H1 & H2 & H3 & H4 & H5 & H6).
  rewrite history_log, Hlog in H4, H5, H6. by split_and!.
Qed.

(** The attempt is on disk before anything drives it: a driver is started, and an id
    recorded as used, only after the journal of that very request was written durably. *)
Theorem submit_commits_first k l1 l2 ev id :
  k_log k = [] → surely k orderly →
  ev = mkEvent (SpawnDriver id) () ∨ ev = mkEvent (MarkUsed id) (Ok ()) →
  trace (submit cfg caller req) (l1 ++ ev :: l2) → lawful DESK k (l1 ++ ev :: l2) →
  id = request_id req ∧ ∃ j, fresh_journal caller req j ∧ mkEvent (StoreJournal j) (Ok ()) ∈ l1.
Proof.
  intros Hlog Hk Hev Ht Hl.
  pose proof (wp_sound DESK False _ _ _ _ _ _ (submit_spec k (surely_named k Hk)) Ht Hl) as H'.
  destruct Hev as [->| ->]; simpl in H'; by rewrite history_log, Hlog in H'.
Qed.

(** How [submit] answers, always: a re-post by the caller that posted it is answered from
    its journal; an accepted request is on disk with its driver started, and told what it
    replaces; a refusal names the request and changed nothing, the last call at most a write of
    the journal that failed. *)
Theorem submit_answers k l p :
  k_log k = [] → surely k orderly → rq_kind req ≠ KRemove →
  reaches (submit cfg caller req) l p → lawful DESK k l →
  p ≠ Spin ∧
  ∀ r, p = Ret r →
    match r with
    | Ok acc => reposted (caller := caller) (req := req) acc (mkDesk (λ _, True) l) ∧
                Forall (λ ev, looked ev = true) l ∨
                started (caller := caller) (req := req) acc l
    | Err e => rej_request_id e = request_id req ∧ only_looked l
    end.
Proof.
  intros Hlog Hk Hrm Hr Hl.
  pose proof (wp_reaches DESK False _ _ _ _ _ (submit_spec k (surely_named k Hk)) Hr Hl) as Hwp.
  split; [intros ->; exact Hwp|]. intros r ->. simpl in Hwp.
  destruct Hwp as (l' & El & Hend). pose proof El as El'. rewrite history_log, Hlog in El'.
  simpl in El'. subst l'.
  destruct Hend as [(l' & _ & ?)|Hend]; [done|]. destruct r as [acc|e]; [|exact Hend].
  destruct Hend as [[[Ha (known & Hin & Hrest)] Hf]|Hst]; [|by right].
  left. split; [|done]. split; [done|]. exists known. split; [|done].
  by rewrite history_log, Hlog in Hin.
Qed.
End promises.
