(* ===== verification/AdmissionExamples.v ===== *)
(** * Journals and submissions at concrete inputs

    The witnesses of [Journal], [Settle] and [Admission], and a second attempt admitted beside an
    open one where the attempts directory cannot be listed. *)
From S2P Require Import Prelude Platform Wire Journal Settle Base64 GoText Trust TrustProofs RaceGuard Effects Replace ReplaceExamples Submit SubmitProofs Admission.

(** * Journals at concrete inputs

    The directories and journals at which the theorems of [Journal] and [Settle] are
    instantiated. *)

Definition small_request (id : string) : Request :=
  mkRequest id KReplace [] (mkRelease "r" None "c") false None false None false None 0 false.
Definition small_result (id : string) (st : State) : AttemptResult :=
  mkAttemptResult id st None [] [] EmptyString "t" "t" None false (mkRelease "r" None "c") None.
Definition small_step (name : string) (p : Phase) (starts : Z) : Step :=
  mkStep name (mkImageRef "repo" "sha256:aa") p (Some "old1") None None (Some 1%Z) None None
    None starts false None.
Definition small_journal (id : string) (seq : Z) (st : State) (steps : list Step) : Journal :=
  mkJournal FORMAT seq TagOperator (small_request id) steps (small_result id st) None.

(** At a directory of seventeen finished attempts: the oldest is pruned. *)
Definition old_ids : list string := (λ n, "id" +:+ pretty n) <$> seq 0 17.
Definition full_dir : JournalDir :=
  mkJournalDir (list_to_map ((λ n, ("id" +:+ pretty n,
    Parsed (small_journal ("id" +:+ pretty n) (Z.of_nat n) StSucceeded []))) <$> seq 0 17)) None.

Lemma full_dir_wf : dir_wf full_dir.
Proof.
  intros id j H. apply elem_of_list_to_map_2, list_elem_of_fmap in H as (n & [= -> ->] & _). done.
Qed.

Lemma prune_safe_witness :
  was_used (prune (λ _, true) (λ _, true) old_ids full_dir) "id0" = Ok true.
Proof.
  assert (NoDup old_ids) as Hnd by (by apply (bool_decide_unpack _); vm_compute).
  apply (prune_safe (λ _, true) (λ _, true) old_ids full_dir "id0"
    (Parsed (small_journal "id0" 0 StSucceeded [])) full_dir_wf Hnd).
  - vm_compute. reflexivity.
  - vm_compute. reflexivity.
Defined.

(** At an attempt a restart left at [pulling]. *)
Lemma settle_interrupted_untouched_witness :
  touched (small_journal "id0" 1 StPulling [small_step "node-agent" PhPulling 0]) = false.
Proof. apply (settle_interrupted_untouched _ Old). reflexivity. Defined.

(** At a hand-over its successor continues. *)
Lemma settle_handover_driver_witness :
  Successor = Successor ∨ (Successor = Stranger true ∧ PhStarted ∈ [PhVerified; PhOldDiscarded]).
Proof.
  exact (settle_handover_driver
    (small_journal "id0" 1 StRecreating [small_step "recovery-actor" PhStarted 0]) 0
    (small_step "recovery-actor" PhStarted 0) Successor eq_refl eq_refl eq_refl eq_refl eq_refl).
Defined.

(** At the third start of a successor that does not verify. *)
Lemma successor_gives_back_witness :
  (successor_start (Some "me") (small_journal "id0" 1 StRecreating [small_step "recovery-actor" PhStarted 2])).2
  = SettleRestore.
Proof.
  destruct (successor_gives_back (Some "me")
    (small_journal "id0" 1 StRecreating [small_step "recovery-actor" PhStarted 2]) 0
    (small_step "recovery-actor" PhStarted 2) eq_refl eq_refl eq_refl eq_refl eq_refl eq_refl)
    as (s' & _ & _ & _ & H).
  apply H. vm_compute. discriminate.
Defined.

(** * A submission that runs

    A node agent's request admitted on an idle machine, call by call: the concrete execution at
    which the theorems of [Admission] are instantiated. *)

#[local] Existing Instance fake_deps.
#[local] Instance fake_trust : TrustDeps := {|
  ed25519_verify := λ _ _ _, false;
  decode_signature_document := λ _, Err TrailingContent;
  unmarshal_signed_manifest := λ _, Err "no manifest" |}.

Definition post_id : string := "0f8fad5b-d9cb-469f-a165-70867728950e".
Definition post_digest : string := "sha256:" +:+ concat_str (repeat "0123456789abcdef" 4).
Definition post_component : Component :=
  mkComponent "node-agent" "ghcr.io/accreleus/quasar/node-agent" post_digest.
Definition post_request : Request :=
  mkRequest post_id KReplace [post_component] (mkRelease "r" None "c") false None false None false None 0 false.
Definition empty_dir : JournalDir := mkJournalDir ∅ None.
Definition empty_desk : Desk unit := mkDesk (λ d, d = empty_dir) [].
Definition policy_off : SignaturePolicy := mkSignaturePolicy SigOff [].
Definition gpu_machine : Machine unit := mkMachine "inst" Gpu () ∅.
Definition running_agent : Container := agent_container "old1" NAME_NODE_AGENT true.

Definition post_steps : list Step := [admitted_step post_component (Some "sha256:00")].
Definition post_previous : list Previous := [mkPrevious "node-agent" (Some "sha256:00")].
Definition post_journal : Journal :=
  admitted_journal CallerAgent post_request 1 post_steps post_previous "t".

Definition grading_calls : list (event unit) :=
  [mkEvent (LoadJournal post_id) (Ok None); mkEvent (WasUsed post_id) (Ok false);
   mkEvent Resuming false; mkEvent Uninstalled None; mkEvent LoadMachine (Ok (Some gpu_machine));
   mkEvent ScanJournals (mkScan [] []);
   mkEvent LoadTrust (Ok (DEFAULT_ALLOWED_NAMESPACES, policy_off));
   mkEvent LoadMachine (Ok (Some gpu_machine)); mkEvent ListContainers (Ok [running_agent]);
   mkEvent (InspectContainer NAME_NODE_AGENT) (Ok (Some running_agent));
   mkEvent (InspectContainer (kept_name NAME_NODE_AGENT)) (Ok None);
   mkEvent NowStamp "t"; mkEvent ScanJournals (mkScan [] [])].
Definition commit_calls : list (event unit) :=
  [mkEvent (MarkUsed post_id) (Ok ()); mkEvent (SpawnDriver post_id) ()].
Definition post_calls : list (event unit) :=
  grading_calls ++ mkEvent (StoreJournal post_journal) (Ok ()) :: commit_calls.

Lemma post_reaches :
  reaches (submit fake_cfg CallerAgent post_request) post_calls (Ret (Ok (mkAccepted post_id post_previous))).
Proof. unfold post_calls. walk_to. Qed.

Lemma post_trace l1 l2 : post_calls = l1 ++ l2 → trace (submit fake_cfg CallerAgent post_request) (l1 ++ l2).
Proof.
  intros <-. pose proof post_reaches as H. remember (Ret _) as p eqn:E. clear E.
  induction H; by constructor.
Qed.

(** One call of a lawful execution, at a directory the disk may hold. *)
Lemma desk_step {X} ls (e : eff unit X) x l (k : Desk unit) d d1 d2 :
  k_disk k d → answers ls d e x → leaves d e x d1 →
  (∀ k', k_disk k' d1 → lawful (desk ls fake_cfg CallerAgent post_request) k' l ∧
     k_disk (history (desk ls fake_cfg CallerAgent post_request) k' l) d2) →
  lawful (desk ls fake_cfg CallerAgent post_request) k (mkEvent e x :: l) ∧
  k_disk (history (desk ls fake_cfg CallerAgent post_request) k (mkEvent e x :: l)) d2.
Proof.
  intros Hd Ha Hl Hk. destruct (Hk (after_call ls k e x)) as [H1 H2]; [by exists d, d1|].
  split; [|done]. split; [by exists d|done].
Qed.

Lemma empty_scan : answers Listed empty_dir (@ScanJournals unit) (mkScan [] []).
Proof. right. exists (Some []). split; [|done]. intros id. split; [by intros ?%elem_of_nil|by intros [? ?]]. Qed.

(** The whole admission, in a directory where the answers to it are the ones above. *)
Lemma post_runs ls (k : Desk unit) d d1 :
  k_disk k d → load d post_id = Ok None → was_used d post_id = Ok false →
  answers ls d (@ScanJournals unit) (mkScan [] []) → mark_used true post_id (store post_journal d) = Ok d1 →
  lawful (desk ls fake_cfg CallerAgent post_request) k post_calls ∧
  k_disk (history (desk ls fake_cfg CallerAgent post_request) k post_calls) d1.
Proof.
  intros Hd Hload Hused Hscan Hm.
  eapply desk_step; [done|by left|done|intros ? ?].
  eapply desk_step; [done|by left|done|intros ? ?].
  do 3 (eapply desk_step; [done|done|done|intros ? ?]).
  eapply desk_step; [done|exact Hscan|done|intros ? ?].
  do 6 (eapply desk_step; [done|done|done|intros ? ?]).
  eapply desk_step; [done|exact Hscan|done|intros ? ?].
  eapply desk_step; [done|done|by left|intros ? ?].
  eapply desk_step; [done|done|left; exact Hm|intros ? ?].
  by eapply desk_step.
Qed.

Lemma post_lawful : lawful (desk Listed fake_cfg CallerAgent post_request) empty_desk post_calls.
Proof. eapply (post_runs Listed empty_desk empty_dir); [done|done|done|exact empty_scan|reflexivity]. Qed.

Lemma empty_orderly : surely empty_desk orderly.
Proof. intros d ->. split; [split; [by intros ?? ?|done]|by intros ?? ?? ?]. Qed.

(** At the directory the admission leaves. *)
Lemma submit_single_flight_witness :
  surely (history (desk Listed fake_cfg CallerAgent post_request) empty_desk post_calls) orderly.
Proof.
  intros d Hd.
  exact (submit_single_flight fake_cfg CallerAgent post_request empty_desk post_calls d
    empty_orderly (post_trace post_calls [] ltac:(by rewrite app_nil_r)) post_lawful Hd).
Defined.

(** In a directory that cannot be listed, single flight is lost: an attempt is open, the scan
    that should see it is empty, and a second one is admitted beside it. *)
Definition busy_dir : JournalDir :=
  mkJournalDir {[ "id0" := Parsed (small_journal "id0" 1 StPulling [small_step "node-agent" PhPulling 0]) ]} None.

Theorem unlisted_directory_breaks_single_flight :
  orderly busy_dir ∧
  ∃ d, lawful (desk Unlisted fake_cfg CallerAgent post_request) (mkDesk (λ d, d = busy_dir) []) post_calls ∧
    trace (submit fake_cfg CallerAgent post_request) post_calls ∧
    k_disk (history (desk Unlisted fake_cfg CallerAgent post_request) (mkDesk (λ d, d = busy_dir) []) post_calls) d ∧
    ¬ one_open d.
Proof.
  split.
  { split; [split; [|done]|].
    - intros id j H. unfold busy_dir in H. simpl in H. by apply lookup_singleton_Some in H as [<- [= <-]].
    - intros id1 id2 j1 j2 H1 H2 _ _. unfold busy_dir in H1, H2. simpl in H1, H2. apply lookup_singleton_Some in H1 as [<- _], H2 as [<- _]. done. }
  destruct (mark_used true post_id (store post_journal busy_dir)) as [d1|] eqn:Hm; [|by vm_compute in Hm].
  exists d1. destruct (post_runs Unlisted (mkDesk (λ d, d = busy_dir) []) busy_dir d1) as [H1 H2]; try done.
  { right. by exists None. }
  split; [done|]. split; [by apply (post_trace post_calls []); rewrite app_nil_r|]. split; [done|].
  intros Hone. apply mark_used_ok in Hm as (Hf & _).
  assert ("id0" = post_id); [|done].
  apply (Hone _ _ (small_journal "id0" 1 StPulling [small_step "node-agent" PhPulling 0]) post_journal); rewrite ?Hf; done.
Qed.

Lemma submit_stores_graded_witness :
  trusted CallerAgent post_request grading_calls ∧ machine_clear fake_cfg post_request grading_calls.
Proof.
  destruct (submit_stores_graded fake_cfg CallerAgent post_request empty_desk grading_calls commit_calls
    post_journal (Ok ()) eq_refl empty_orderly (post_trace grading_calls _ eq_refl) post_lawful)
    as (_ & _ & _ & _ & H5 & H6).
  by split.
Defined.

Lemma submit_commits_first_witness :
  ∃ j, fresh_journal CallerAgent post_request j ∧
    mkEvent (StoreJournal j) (Ok ()) ∈ grading_calls ++ [mkEvent (StoreJournal post_journal) (Ok ());
      mkEvent (MarkUsed post_id) (Ok ())].
Proof.
  apply (submit_commits_first fake_cfg CallerAgent post_request empty_desk
    (grading_calls ++ [mkEvent (StoreJournal post_journal) (Ok ()); mkEvent (MarkUsed post_id) (Ok ())]) []
    (mkEvent (SpawnDriver post_id) ()) post_id eq_refl empty_orderly (or_introl eq_refl)
    (post_trace (grading_calls ++ [mkEvent (StoreJournal post_journal) (Ok ()); mkEvent (MarkUsed post_id) (Ok ())])
       [mkEvent (SpawnDriver post_id) ()] eq_refl) post_lawful).
Defined.

Lemma submit_answers_witness :
  reposted (caller := CallerAgent) (req := post_request) (mkAccepted post_id post_previous)
    (mkDesk (λ _, True) post_calls) ∧ Forall (λ ev, looked ev = true) post_calls ∨
  started (caller := CallerAgent) (req := post_request) (mkAccepted post_id post_previous) post_calls.
Proof.
  exact (proj2 (submit_answers fake_cfg CallerAgent post_request empty_desk post_calls
    (Ret (Ok (mkAccepted post_id post_previous))) eq_refl empty_orderly ltac:(done) post_reaches post_lawful)
    _ eq_refl).
Defined.
