(* ===== verification/Float64.v ===== *)
(** * Rust's [f64]

    IEEE 754 binary64 as the Standard Library specifies it ([SpecFloat] at precision 53 and
    exponent 1024), with the operations and conversions the streaming code uses: comparisons,
    [f64::max], [f64::min], [f64::clamp], [round], and the saturating casts. A decimal literal
    is the quotient of two exact integers, which is the double nearest to it. *)
From Stdlib Require Import Floats.SpecFloat.
From S2P Require Import Prelude.

Definition f64 : Type := spec_float.

Definition fadd : f64 → f64 → f64 := SFadd 53 1024.
Definition fsub : f64 → f64 → f64 := SFsub 53 1024.
Definition fmul : f64 → f64 → f64 := SFmul 53 1024.
Definition fdiv : f64 → f64 → f64 := SFdiv 53 1024.

(** [x as f64] of an integer. *)
Definition f64_of (z : Z) : f64 := binary_normalize 53 1024 z 0 false.

(** The literal [m / 10^d]. *)
Definition lit (m : Z) (d : Z) : f64 := fdiv (f64_of m) (f64_of (10 ^ d)).

Definition flt (a b : f64) : bool := SFltb a b.
Definition fle (a b : f64) : bool := SFleb a b.
Definition fgt (a b : f64) : bool := SFltb b a.
Definition fge (a b : f64) : bool := SFleb b a.

Definition is_nan (x : f64) : bool := match x with S754_nan => true | _ => false end.

(** [a.max(b)] and [a.min(b)]: a NaN gives way to the other. *)
Definition fmax (a b : f64) : f64 :=
  if is_nan a then b else if is_nan b then a else if flt a b then b else a.
Definition fmin (a b : f64) : f64 :=
  if is_nan a then b else if is_nan b then a else if flt b a then b else a.

(** [x.clamp(lo, hi)] *)
Definition fclamp (lo hi x : f64) : f64 :=
  if flt x lo then lo else if flt hi x then hi else x.

(** [x.round()], half away from zero, then a saturating cast; NaN is zero. *)
Definition round_mag (m e : Z) : Z :=
  if (0 <=? e)%Z then (m * 2 ^ e)%Z else ((m + 2 ^ (- e - 1)) / 2 ^ (- e))%Z.

Definition round_cast (lo hi : Z) (x : f64) : Z :=
  match x with
  | S754_nan => 0
  | S754_zero _ => 0
  | S754_infinity s => if s then lo else hi
  | S754_finite s m e =>
      let v := round_mag (Zpos m) e in
      zclamp lo hi (if s then - v else v)%Z
  end.

Definition round_i64 : f64 → Z := round_cast I64_MIN I64_MAX.
Definition round_u32 : f64 → Z := round_cast 0 U32_MAX.

Lemma round_cast_range lo hi x : (lo <= 0 <= hi → lo <= round_cast lo hi x <= hi)%Z.
Proof.
  intros H. destruct x as [s|s| |s m e]; simpl; [lia|destruct s; lia|lia|].
  apply zclamp_range. lia.
Qed.

Lemma SFcompare_swap a b : SFcompare b a = CompOpp <$> SFcompare a b.
Proof.
  destruct a as [sa|sa| |sa ma ea], b as [sb|sb| |sb mb eb]; try destruct sa; try destruct sb;
    try reflexivity; cbn [SFcompare];
    rewrite (Z.compare_antisym ea eb); destruct (ea ?= eb)%Z; try reflexivity;
    cbn [CompOpp fmap option_fmap option_map];
    change (Pos.compare_cont Eq ?x ?y) with (Pos.compare x y);
    rewrite (Pos.compare_antisym ma mb); by destruct (Pos.compare ma mb).
Qed.

(** Below and at least are exclusive. *)
Lemma flt_not_fge a b : flt a b = true → fge a b = false.
Proof.
  unfold flt, fge, SFltb, SFleb. rewrite (SFcompare_swap a b).
  by destruct (SFcompare a b) as [[]|].
Qed.

Example literals : (fle (lit 85 2) (lit 85 2), flt (lit 1 1) (lit 15 2), round_i64 (fmul (f64_of 8000) (lit 875 3)))
  = (true, true, 7000%Z).
Proof. vm_compute. reflexivity. Qed.
