(* ===== verification/Rungs.v ===== *)
(** * External resolution rungs

    [src/session/rungs.rs]: the sizes a session may be stepped to live, from the size it was
    launched at. *)
From S2P Require Import Prelude.
Local Open Scope Z_scope.

Definition Rung : Type := Z * Z.
Definition Ratio : Type := Z * Z.

Definition RUNGS_16X9 : list Rung :=
  [(3840, 2160); (2560, 1440); (1920, 1080); (1600, 900); (1280, 720)].
Definition RUNGS_16X10 : list Rung :=
  [(2560, 1600); (1920, 1200); (1680, 1050); (1440, 900); (1280, 800)].
Definition RUNGS_21X9 : list Rung := [(3440, 1440); (2560, 1080)].
Definition RUNGS_4X3 : list Rung := [(1600, 1200); (1280, 960); (1024, 768)].

Definition FAMILIES : list (list Ratio * list Rung) :=
  [([(16, 9)], RUNGS_16X9);
   ([(8, 5)], RUNGS_16X10);
   ([(43, 18); (64, 27); (7, 3)], RUNGS_21X9);
   ([(4, 3)], RUNGS_4X3)].

(** [gcd]: the loop runs at most [|b| + 1] times, as the remainders shrink. *)
Fixpoint gcd_loop (fuel : nat) (a b : Z) : Z :=
  match fuel with
  | O => Z.abs a
  | S fuel => if b =? 0 then Z.abs a else gcd_loop fuel b (Z.rem a b)
  end.
Definition gcd (a b : Z) : Z := gcd_loop (S (Z.to_nat (Z.abs b))) a b.

(** [reduce] *)
Definition reduce (w h : Z) : Ratio :=
  let g := gcd w h in if g =? 0 then (w, h) else (Z.quot w g, Z.quot h g).

(** [family] *)
Definition family (w h : Z) : list Rung :=
  if (w <=? 0) || (h <=? 0) then [(w, h)]
  else match find_first (λ f, bool_decide (reduce w h ∈ f.1)) FAMILIES with
       | Some f => f.2
       | None => [(w, h)]
       end.

(** [available_rungs]; [below] is the loop's condition on one entry. *)
Definition below (w h : Z) (r : Rung) : bool :=
  negb ((w <? r.1) || (h <? r.2) || ((r.1 =? w) && (r.2 =? h))).
Definition available_rungs (w h : Z) : list Rung := (w, h) :: List.filter (below w h) (family w h).

(** [is_rung] *)
Definition is_rung (w h launch_w launch_h : Z) : bool :=
  bool_decide ((w, h) ∈ available_rungs launch_w launch_h).

(** [format_ladder] *)
Definition format_ladder (rungs : list Rung) : string :=
  join "," (map (λ r, pretty r.1 +:+ "x" +:+ pretty r.2) rungs).

Example ladder_1080p :
  format_ladder (available_rungs 1920 1080) = "1920x1080,1600x900,1280x720" ∧
  available_rungs 2000 1125 = [(2000, 1125); (1920, 1080); (1600, 900); (1280, 720)] ∧
  is_rung 1440 900 1920 1080 = false.
Proof. split_and!; vm_compute; reflexivity. Qed.

(** ** The ladder *)

Lemma gcd_loop_spec fuel a b : Z.abs b < Z.of_nat fuel → gcd_loop fuel a b = Z.gcd a b.
Proof.
  revert a b. induction fuel as [|fuel IH]; intros a b Hf; [lia|]. cbn [gcd_loop].
  destruct (Z.eqb_spec b 0) as [->|Hb]; [by rewrite Z.gcd_0_r|].
  rewrite IH.
  - rewrite Z.gcd_comm, (Z.gcd_comm a). by apply Z.gcd_rem.
  - pose proof (Z.rem_bound_abs a b Hb). lia.
Qed.

Lemma gcd_spec a b : gcd a b = Z.gcd a b.
Proof. apply gcd_loop_spec. lia. Qed.

(** One size no larger than another in both dimensions, and not equal to it. *)
Definition smaller (a b : Rung) : Prop := b.1 <= a.1 ∧ b.2 <= a.2 ∧ a ≠ b.

Lemma below_spec w h r : below w h r = true ↔ smaller (w, h) r.
Proof.
  unfold below, smaller. destruct r as [a b]. simpl.
  rewrite negb_true_iff, !orb_false_iff, !Z.ltb_ge, andb_false_iff, !Z.eqb_neq.
  split; [intros ([? ?] & [?|?]); split_and!; try done; congruence|].
  intros (? & ? & Hne). split; [done|]. destruct (decide (a = w)) as [->|]; [right|by left]. congruence.
Qed.

Lemma family_cases w h : family w h ∈ [RUNGS_16X9; RUNGS_16X10; RUNGS_21X9; RUNGS_4X3; [(w, h)]].
Proof.
  unfold family. destruct ((w <=? 0) || (h <=? 0)); [set_solver|].
  simpl. repeat (case_match; simplify_eq/=; try set_solver).
Qed.

Lemma smaller_trans a b c : smaller a b → smaller b c → smaller a c.
Proof.
  intros (H1 & H2 & H3) (H4 & H5 & H6). split_and!; [lia..|]. intros ->.
  apply H6. destruct b as [b1 b2], c as [c1 c2]. simpl in *. f_equal; lia.
Qed.

Lemma family_sorted w h : StronglySorted smaller (family w h).
Proof.
  pose proof (family_cases w h) as H. repeat (apply elem_of_cons in H as [->|H]); try by apply elem_of_nil in H.
  all: repeat (constructor; try (split_and!; simpl; [lia|lia|congruence])).
Qed.

Lemma available_sorted w h : StronglySorted smaller (available_rungs w h).
Proof.
  unfold available_rungs. constructor.
  - pose proof (family_sorted w h) as H. induction H as [|x l Hl IH Hx]; simpl; [constructor|].
    destruct (below w h x); [|done]. constructor; [done|].
    rewrite Forall_forall in *. intros y Hy%list_elem_of_In%filter_In. apply Hx.
    by apply list_elem_of_In, Hy.
  - apply Forall_forall. intros r Hr%list_elem_of_In%filter_In. by apply below_spec, Hr.
Qed.

(** From any entry of a canonical table on, the ladder is the rest of the table. *)
Definition closed (l : list Rung) : Prop :=
  ∀ l1 r l2, l = l1 ++ r :: l2 → available_rungs r.1 r.2 = r :: l2.

Lemma tables_closed l : l ∈ [RUNGS_16X9; RUNGS_16X10; RUNGS_21X9; RUNGS_4X3] → closed l.
Proof.
  intros H. repeat (apply elem_of_cons in H as [->|H]); try by apply elem_of_nil in H.
  all: intros l1 r l2 E; repeat (destruct l1 as [|? l1]; [injection E as <- <-; vm_compute; reflexivity|injection E as _ E]);
    by destruct l1.
Qed.

Lemma filter_below_rest w h l1 r l2 :
  StronglySorted smaller (l1 ++ r :: l2) → smaller (w, h) r →
  List.filter (below w h) (l1 ++ r :: l2) = List.filter (below w h) l1 ++ r :: l2.
Proof.
  intros Hs Hr. rewrite List.filter_app. f_equal. simpl. rewrite (proj2 (below_spec w h r) Hr). f_equal.
  assert (StronglySorted smaller (r :: l2)) as Hrl.
  { clear Hr. induction l1 as [|x l1 IH]; [done|]. apply IH. by inversion Hs. }
  inversion Hrl as [|?? _ Hall]; subst. clear Hs Hrl. induction l2 as [|y l2 IH]; [done|].
  apply Forall_cons in Hall as [Hy Hall]. simpl.
  rewrite (proj2 (below_spec w h y)); [|by eapply smaller_trans]. by rewrite IH.
Qed.

(** A session's ladder starts at its launch size and only shrinks, and it is closed: the
    ladder of any size it offers is the rest of the same ladder, so that a step never opens a
    size the launch did not, and a greatest common divisor is what tells the families apart. *)
Theorem ladder_closed w h :
  StronglySorted smaller (available_rungs w h) ∧
  hd_error (available_rungs w h) = Some (w, h) ∧
  (∀ a b, is_rung a b w h = true → ∃ above, available_rungs w h = above ++ available_rungs a b) ∧
  gcd w h = Z.gcd w h.
Proof.
  split_and!; [apply available_sorted|done| |apply gcd_spec].
  intros a b Hab%bool_decide_eq_true. unfold available_rungs in Hab.
  apply elem_of_cons in Hab as [[= -> ->]|Hab]; [by exists []|].
  apply list_elem_of_In, filter_In in Hab as [Hin%list_elem_of_In Hb%below_spec].
  pose proof (family_cases w h) as Hc. pose proof (family_sorted w h) as Hs.
  assert (family w h ∈ [RUNGS_16X9; RUNGS_16X10; RUNGS_21X9; RUNGS_4X3]) as Ht.
  { repeat (apply elem_of_cons in Hc as [Hc|Hc]; [rewrite Hc; set_solver|]).
    apply list_elem_of_singleton in Hc. rewrite Hc in Hin. apply list_elem_of_singleton in Hin. by destruct Hb as (_ & _ & []). }
  unfold available_rungs at 1. apply list_elem_of_split in Hin as (l1 & l2 & E).
  rewrite E in Hs |- *. rewrite (filter_below_rest _ _ _ _ _ Hs Hb).
  exists ((w, h) :: List.filter (below w h) l1).
  pose proof (tables_closed _ Ht _ _ _ E) as Hcl. simpl in Hcl. by rewrite Hcl.
Qed.
