(* ===== verification/Adaptation.v ===== *)
(** * The live adaptation classifier

    [src/session/adaptation.rs]: one metrics window's signals, labelled by which bottleneck a
    degradation has. *)
From S2P Require Import Prelude Float64.

Inductive AdaptationState := Healthy | NetworkCongested | EncoderSaturated | Unknown.

#[global] Instance AdaptationState_eq_dec : EqDecision AdaptationState.
Proof. solve_decision. Defined.

Definition adaptation_str (s : AdaptationState) : string :=
  match s with
  | Healthy => "healthy"
  | NetworkCongested => "network_congested"
  | EncoderSaturated => "encoder_saturated"
  | Unknown => "unknown"
  end.

Record AdaptationSignals := mkAdaptationSignals {
  target_fps : Z;
  sig_fps : f64;
  encode_ms_p50 : option f64;
  encode_ms_p95 : option f64;
  frames_dropped : Z;
  gcc_estimate_kbps : option f64;
  sig_setpoint_kbps : option f64;
  bitrate_kbps : f64;
  gcc_downshifted : bool }.

Record ClassifierConfig := mkClassifierConfig {
  encode_budget_frac : f64;
  fps_steady_frac : f64;
  gcc_below_setpoint_frac : f64;
  send_at_cap_frac : f64 }.

Definition ENCODE_BUDGET_FRAC : f64 := lit 70 2.
Definition FPS_STEADY_FRAC : f64 := lit 85 2.
Definition GCC_BELOW_SETPOINT_FRAC : f64 := lit 85 2.
Definition SEND_AT_CAP_FRAC : f64 := lit 85 2.

Definition default_classifier : ClassifierConfig :=
  mkClassifierConfig ENCODE_BUDGET_FRAC FPS_STEADY_FRAC GCC_BELOW_SETPOINT_FRAC SEND_AT_CAP_FRAC.

(** [classify_with]; the four conditions its branches share. *)
Definition target (s : AdaptationSignals) : f64 := f64_of (Z.max (target_fps s) 1).
Definition fps_steady (s : AdaptationSignals) (cfg : ClassifierConfig) : bool :=
  fge (sig_fps s) (fmul (target s) (fps_steady_frac cfg)).
Definition encode_ms (s : AdaptationSignals) : option f64 :=
  match encode_ms_p95 s with Some e => Some e | None => encode_ms_p50 s end.
Definition encode_near_budget (s : AdaptationSignals) (cfg : ClassifierConfig) : bool :=
  match encode_ms s with
  | Some e => fge e (fmul (fdiv (f64_of 1000) (target s)) (encode_budget_frac cfg))
  | None => false
  end.

Definition congested (s : AdaptationSignals) (cfg : ClassifierConfig) : bool :=
  match gcc_estimate_kbps s, sig_setpoint_kbps s with
  | Some gcc, Some sp =>
      flt gcc (fmul sp (gcc_below_setpoint_frac cfg))
      && (fge (bitrate_kbps s) (fmul sp (send_at_cap_frac cfg)) || gcc_downshifted s)
      && negb (encode_near_budget s cfg)
  | _, _ => false
  end.

Definition gcc_ok (s : AdaptationSignals) (cfg : ClassifierConfig) : bool :=
  match gcc_estimate_kbps s, sig_setpoint_kbps s with
  | Some gcc, Some sp => fge gcc (fmul sp (gcc_below_setpoint_frac cfg))
  | _, _ => true
  end.

Definition classify_with (s : AdaptationSignals) (cfg : ClassifierConfig) : AdaptationState :=
  if encode_near_budget s cfg && (negb (fps_steady s cfg) || (0 <? frames_dropped s)%Z)
  then EncoderSaturated
  else if congested s cfg then NetworkCongested
  else if fps_steady s cfg && negb (encode_near_budget s cfg)
          && (frames_dropped s =? 0)%Z && gcc_ok s cfg
  then Healthy
  else Unknown.

(** [classify] *)
Definition classify (s : AdaptationSignals) : AdaptationState := classify_with s default_classifier.

(** A host that encodes late is never blamed on the network, and a window is healthy only when
    nothing drops and the estimate does not drag. *)
Lemma classify_blame s cfg :
  (classify_with s cfg = NetworkCongested → encode_near_budget s cfg = false ∧
     is_Some (gcc_estimate_kbps s) ∧ is_Some (sig_setpoint_kbps s)) ∧
  (classify_with s cfg = Healthy → frames_dropped s = 0%Z ∧ fps_steady s cfg = true ∧
     encode_near_budget s cfg = false ∧ gcc_ok s cfg = true).
Proof.
  unfold classify_with. destruct (encode_near_budget s cfg && _) eqn:E1; [done|].
  destruct (congested s cfg) eqn:E2.
  - split; [|done]. intros _. unfold congested in E2.
    destruct (gcc_estimate_kbps s), (sig_setpoint_kbps s); try done.
    apply andb_true_iff in E2 as [_ E2%negb_true_iff]. by split_and!; [|eexists|eexists].
  - destruct (fps_steady s cfg && _ && _ && _) eqn:E3; [|done]. split; [done|]. intros _.
    rewrite !andb_true_iff, negb_true_iff, Z.eqb_eq in E3. naive_solver.
Qed.

(** The coupled loop of a saturated encoder: late frames and a trailing down-shift are the
    encoder's, not the network's. *)
Example coupled_loop :
  classify (mkAdaptationSignals 60 (lit 48 0) (Some (lit 9 0)) (Some (lit 19 0)) 3
    (Some (lit 3000 0)) (Some (lit 8000 0)) (lit 7900 0) true) = EncoderSaturated.
Proof. vm_compute. reflexivity. Qed.
