(* ===== verification/Fec.v ===== *)
(** * Error correction, armed by loss

    [src/session/fec.rs]: the mode and plan of a session, and the controller that arms and
    disarms [ulp-red] by the loss of each window. *)
From S2P Require Import Prelude Float64.
Local Open Scope Z_scope.

Inductive FecMode := FecOff | FecFixed | FecAuto.
Inductive FecModeEnv := Recognised (m : FecMode) | UnsetOrEmpty | Unrecognised.

(** [FecMode::parse_env] *)
Definition parse_env (s : string) : option FecMode :=
  let l := to_ascii_lowercase s in
  if str_eqb l "off" then Some FecOff
  else if str_eqb l "fixed" then Some FecFixed
  else if str_eqb l "auto" then Some FecAuto
  else None.

(** [FecMode::as_str] *)
Definition fec_mode_str (m : FecMode) : string :=
  match m with FecOff => "off" | FecFixed => "fixed" | FecAuto => "auto" end.

(** [FecMode::classify_env] *)
Definition classify_env (raw : option string) : FecModeEnv :=
  match trim <$> raw with
  | None => UnsetOrEmpty
  | Some EmptyString => UnsetOrEmpty
  | Some s => match parse_env s with Some m => Recognised m | None => Unrecognised end
  end.

Record FecPlan := mkFecPlan {
  negotiate : bool; initial_pct : Z; controller_enabled : bool; plan_armed_pct : Z }.

Definition DEFAULT_ARMED_PCT : Z := 20.

(** [derive_plan] *)
Definition derive_plan (mode : FecMode) (percentage : Z) : FecPlan :=
  match mode with
  | FecOff => mkFecPlan false 0 false 0
  | FecFixed => mkFecPlan (0 <? percentage) percentage false percentage
  | FecAuto => mkFecPlan true 0 true (if 0 <? percentage then percentage else DEFAULT_ARMED_PCT)
  end.

Record FecControllerConfig := mkFecControllerConfig {
  arm_loss_pct : f64; arm_windows : Z; disarm_windows : Z; max_flaps : Z; armed_pct : Z; window_s : Z }.

Definition DEFAULT_ARM_LOSS_PCT : f64 := lit 5 1.
Definition CLEAN_LOSS_PCT : f64 := lit 1 1.

Inductive FecAction := Arm (pct : Z) | Disarm.

Record FecController := mkFecController {
  fc_cfg : FecControllerConfig;
  armed : bool; over_count : Z; clean_count : Z; flaps : Z; latched : bool }.

(** [FecController::new] *)
Definition fec_new (cfg : FecControllerConfig) : FecController := mkFecController cfg false 0 0 0 false.

Definition lossy (cfg : FecControllerConfig) (loss : f64) : bool := fge loss (arm_loss_pct cfg).
Definition clean (cfg : FecControllerConfig) (loss : f64) : bool :=
  negb (lossy cfg loss) && flt loss CLEAN_LOSS_PCT.

(** The streaks after one window. *)
Definition count_window (c : FecController) (loss : f64) : FecController :=
  if lossy (fc_cfg c) loss
  then mkFecController (fc_cfg c) (armed c) (sat_add U32_MAX (over_count c) 1) 0 (flaps c) (latched c)
  else if flt loss CLEAN_LOSS_PCT
  then mkFecController (fc_cfg c) (armed c) 0 (sat_add U32_MAX (clean_count c) 1) (flaps c) (latched c)
  else mkFecController (fc_cfg c) (armed c) 0 0 (flaps c) (latched c).

(** [FecController::observe] *)
Definition fec_observe (c : FecController) (loss : f64) : FecController * option FecAction :=
  let c := count_window c loss in
  let cfg := fc_cfg c in
  if negb (armed c)
  then if arm_windows cfg <=? over_count c
       then let flaps' := sat_add U32_MAX (flaps c) 1 in
            (mkFecController cfg true 0 0 flaps' (latched c || (max_flaps cfg <=? flaps')),
             Some (Arm (armed_pct cfg)))
       else (c, None)
  else if negb (latched c) && (disarm_windows cfg <=? clean_count c)
       then (mkFecController cfg false 0 0 (flaps c) (latched c), Some Disarm)
       else (c, None).

(** [window_loss_pct]; [delta_lost] is an [i64], [delta_sent] a [u64]. *)
Definition window_loss_pct (delta_lost delta_sent : Z) : f64 :=
  if delta_lost <=? 0 then f64_of 0
  else fdiv (fmul (f64_of 100) (f64_of delta_lost)) (f64_of (Z.max delta_sent 1)).

(** A session's windows, oldest first: the transition of each. *)
Fixpoint fec_run (c : FecController) (losses : list f64) : FecController * list (option FecAction) :=
  match losses with
  | [] => (c, [])
  | l :: losses' =>
      let (c1, a) := fec_observe c l in
      let (c2, acts) := fec_run c1 losses' in (c2, a :: acts)
  end.

(** ** A mode is read back from its own name *)

Lemma parse_env_str m : parse_env (fec_mode_str m) = Some m.
Proof. by destruct m. Qed.

(** ** The controller *)

(** What a controller's counts say of the windows seen, newest first: each streak is at least
    as long as its count, and only an armed controller is latched. *)
Record fec_ok (c : FecController) (seen : list f64) : Prop := mkFecOk {
  fo_over : streak (lossy (fc_cfg c)) (over_count c) seen;
  fo_clean : streak (clean (fc_cfg c)) (clean_count c) seen;
  fo_latched : latched c = true → armed c = true }.

Lemma count_window_ok c seen l : fec_ok c seen → fec_ok (count_window c l) (l :: seen).
Proof.
  intros [Ho Hc Hl]. unfold count_window. destruct (lossy (fc_cfg c) l) eqn:E1.
  - split; simpl; [by apply streak_next; [unfold U32_MAX; lia|..]|apply streak_zero|done].
  - destruct (flt l CLEAN_LOSS_PCT) eqn:E2; split; simpl; try apply streak_zero; try done.
    apply streak_next; [unfold U32_MAX; lia| |done]. unfold clean. by rewrite E1, E2.
Qed.

Lemma count_window_same c l :
  fc_cfg (count_window c l) = fc_cfg c ∧ armed (count_window c l) = armed c ∧
  flaps (count_window c l) = flaps c ∧ latched (count_window c l) = latched c.
Proof. unfold count_window. by repeat case_match. Qed.

(** What one window does: a transition toggles [armed] and is earned by a full streak. *)
Lemma fec_observe_ok c seen l :
  fec_ok c seen →
  let r := fec_observe c l in
  fec_ok r.1 (l :: seen) ∧ fc_cfg r.1 = fc_cfg c ∧
  match r.2 with
  | None => armed r.1 = armed c ∧ flaps r.1 = flaps c ∧ latched r.1 = latched c
  | Some (Arm p) => armed c = false ∧ armed r.1 = true ∧ p = armed_pct (fc_cfg c) ∧
      flaps r.1 = sat_add U32_MAX (flaps c) 1 ∧
      (latched r.1 = true ↔ latched c = true ∨ max_flaps (fc_cfg c) <= flaps r.1) ∧
      (0 <= arm_windows (fc_cfg c) → streak (lossy (fc_cfg c)) (arm_windows (fc_cfg c)) (l :: seen))
  | Some Disarm => armed c = true ∧ armed r.1 = false ∧ latched c = false ∧ latched r.1 = false ∧
      flaps r.1 = flaps c ∧
      (0 <= disarm_windows (fc_cfg c) → streak (clean (fc_cfg c)) (disarm_windows (fc_cfg c)) (l :: seen))
  end.
Proof.
  intros Hok. pose proof (count_window_ok c seen l Hok) as Hok'.
  destruct (count_window_same c l) as (E1 & E2 & E3 & E4). unfold fec_observe.
  destruct Hok' as [Ho Hc Hl]. pose proof (mkFecOk _ _ Ho Hc Hl) as Hsame.
  rewrite E1 in Ho, Hc. rewrite E2, E4 in Hl. rewrite E1, E2, E3, E4.
  destruct (armed c) eqn:Ea; simpl.
  - destruct (latched c) eqn:El; simpl; [by split_and!|].
    destruct (Z.leb_spec (disarm_windows (fc_cfg c)) (clean_count (count_window c l))); simpl; [|by split_and!].
    split_and!; try done; [by split; simpl; [apply streak_zero|apply streak_zero|]|].
    intros Hd. eapply streak_le; [|done]; lia.
  - destruct (Z.leb_spec (arm_windows (fc_cfg c)) (over_count (count_window c l))); simpl; [|by split_and!].
    rewrite orb_true_iff, Z.leb_le. split_and!; try done.
    + by split; simpl; [apply streak_zero|apply streak_zero|].
    + intros Hd. eapply streak_le; [|done]; lia.
Qed.

(** ** A session *)

Fixpoint alternates (on : bool) (acts : list (option FecAction)) : Prop :=
  match acts with
  | [] => True
  | None :: acts' => alternates on acts'
  | Some (Arm _) :: acts' => on = false ∧ alternates true acts'
  | Some Disarm :: acts' => on = true ∧ alternates false acts'
  end.

Definition is_arm (a : option FecAction) : bool := match a with Some (Arm _) => true | _ => false end.
Definition arms (acts : list (option FecAction)) : Z := Z.of_nat (length (List.filter is_arm acts)).

Definition flaps_ok (c : FecController) : Prop :=
  0 <= flaps c <= max_flaps (fc_cfg c) ∧ max_flaps (fc_cfg c) <= U32_MAX ∧
  (latched c = true ↔ max_flaps (fc_cfg c) <= flaps c).

Lemma fec_run_ok c seen losses :
  fec_ok c seen → flaps_ok c →
  let r := fec_run c losses in
  fc_cfg r.1 = fc_cfg c ∧ fec_ok r.1 (rev losses ++ seen) ∧ flaps_ok r.1 ∧
  flaps r.1 = flaps c + arms r.2 ∧ alternates (armed c) r.2 ∧ length r.2 = length losses.
Proof.
  revert c seen. induction losses as [|l losses IH]; intros c seen Hok Hf; cbn [fec_run].
  { split_and!; try done. unfold arms. simpl. lia. }
  pose proof (fec_observe_ok c seen l Hok) as Hobs. simpl in Hobs.
  destruct (fec_observe c l) as [c1 a]. simpl in Hobs. destruct Hobs as (Hok1 & Hcfg & Ha).
  assert (flaps_ok c1 ∧ flaps c1 = flaps c + (if is_arm a then 1 else 0) ∧
          (∀ acts, alternates (armed c1) acts → alternates (armed c) (a :: acts))) as (Hf1 & Hfl & Halt).
  { unfold flaps_ok in *. rewrite Hcfg. destruct Hf as ([Hlo Hhi] & Hmax & Hlat).
    destruct a as [[p|]|]; simpl in *.
    - destruct Ha as (H1 & H2 & _ & H3 & H4 & _). rewrite H1, H2.
      assert (flaps c < max_flaps (fc_cfg c)) as Hlt.
      { destruct (Z.le_gt_cases (max_flaps (fc_cfg c)) (flaps c)) as [Hle|]; [|lia].
        apply Hlat in Hle. apply (fo_latched _ _ Hok) in Hle. congruence. }
      assert (flaps c1 = flaps c + 1) as E by (rewrite H3; unfold sat_add; lia).
      split_and!; [lia|lia|lia| |done|by split]. rewrite H4, Hlat. lia.
    - destruct Ha as (H1 & H2 & H3 & H4 & H5 & _). rewrite H1, H2, H5, H4.
      split_and!; [lia|lia|lia| |lia|by split]. rewrite <- Hlat. by rewrite H3.
    - destruct Ha as (H1 & H2 & H3). rewrite H1, H2, H3. split_and!; [lia|lia|lia|done|lia|done]. }
  specialize (IH c1 (l :: seen) Hok1 Hf1). simpl in IH. destruct (fec_run c1 losses) as [c2 acts].
  simpl in *. destruct IH as (E1 & E2 & E3 & E4 & E5 & E6). split_and!.
  - congruence.
  - by rewrite <- app_assoc.
  - done.
  - rewrite E4, Hfl. unfold arms. simpl. destruct (is_arm a); simpl; lia.
  - by apply Halt.
  - by f_equal.
Qed.

Lemma fec_new_ok cfg : fec_ok (fec_new cfg) [].
Proof. split; simpl; [apply streak_zero..|done]. Qed.

Lemma fec_new_flaps cfg : 1 <= max_flaps cfg <= U32_MAX → flaps_ok (fec_new cfg).
Proof. intros H. unfold flaps_ok. simpl. split_and!; [lia..|]. split; [done|lia]. Qed.

(** The controller cannot oscillate: over any session its transitions alternate between
    arming and disarming, starting with an arming; it arms at most [max_flaps] times, and once
    it has armed that often it stays armed. *)
Theorem fec_flaps_bounded cfg losses :
  1 <= max_flaps cfg <= U32_MAX →
  alternates false (fec_run (fec_new cfg) losses).2 ∧
  arms (fec_run (fec_new cfg) losses).2 <= max_flaps cfg ∧
  (arms (fec_run (fec_new cfg) losses).2 = max_flaps cfg → armed (fec_run (fec_new cfg) losses).1 = true).
Proof.
  intros Hm.
  destruct (fec_run_ok (fec_new cfg) [] losses (fec_new_ok cfg) (fec_new_flaps cfg Hm))
    as (E1 & E2 & (Hf & _ & Hlat) & E4 & E5 & _). simpl in *. rewrite E1 in *.
  split_and!; [done|lia|]. intros E. apply (fo_latched _ _ E2), Hlat. lia.
Qed.

Lemma fec_run_snoc c losses l :
  fec_run c (losses ++ [l]) =
  let r := fec_run c losses in let o := fec_observe r.1 l in (o.1, r.2 ++ [o.2]).
Proof.
  revert c. induction losses as [|x losses IH]; intros c; simpl.
  - by destruct (fec_observe c l).
  - destruct (fec_observe c x) as [c1 a]. rewrite IH. simpl. by destruct (fec_run c1 losses).
Qed.

(** Every transition is earned by a full, unbroken streak: repair data starts only after
    [arm_windows] windows in a row at or above the loss threshold, to the configured
    percentage, and stops only after [disarm_windows] windows in a row under the clean one. *)
Theorem fec_transitions_earned cfg losses l a :
  1 <= max_flaps cfg <= U32_MAX → 0 <= arm_windows cfg → 0 <= disarm_windows cfg →
  last (fec_run (fec_new cfg) (losses ++ [l])).2 = Some (Some a) →
  match a with
  | Arm p => p = armed_pct cfg ∧ streak (lossy cfg) (arm_windows cfg) (l :: rev losses)
  | Disarm => streak (clean cfg) (disarm_windows cfg) (l :: rev losses)
  end.
Proof.
  intros Hm Ha Hd. rewrite fec_run_snoc. simpl. rewrite last_snoc. intros [= Hact].
  destruct (fec_run_ok (fec_new cfg) [] losses (fec_new_ok cfg) (fec_new_flaps cfg Hm))
    as (E1 & E2 & _). simpl in *. rewrite app_nil_r in E2.
  destruct (fec_observe_ok _ _ l E2) as (_ & _ & Hobs). rewrite Hact, E1 in Hobs. simpl in Hobs.
  destruct a as [p|]; naive_solver.
Qed.

Definition default_fec : FecControllerConfig := mkFecControllerConfig DEFAULT_ARM_LOSS_PCT 2 6 4 20 5.

(** A lossy link arms after two windows and disarms after six clean ones. *)
Example fec_ramp :
  (fec_run (fec_new default_fec) ([lit 1 0; lit 1 0] ++ repeat (lit 0 0) 6)).2 =
  [None; Some (Arm 20)] ++ repeat None 5 ++ [Some Disarm].
Proof. vm_compute. reflexivity. Qed.

Lemma fec_flaps_bounded_witness :
  alternates false (fec_run (fec_new default_fec) [lit 1 0; lit 1 0]).2.
Proof. apply (fec_flaps_bounded default_fec [lit 1 0; lit 1 0]). vm_compute. by split. Defined.

Lemma fec_transitions_earned_witness : streak (lossy default_fec) 2 [lit 1 0; lit 1 0].
Proof.
  apply (fec_transitions_earned default_fec [lit 1 0] (lit 1 0) (Arm 20)); [..|vm_compute; reflexivity];
    vm_compute; done.
Defined.
