(* ===== verification/Abr.v ===== *)
(** * The adaptive bitrate governor

    [src/session/abr.rs]: the estimate of the network's rate in, the encoder's setpoint out.
    Times are nanoseconds; rates are kbit/s, a [u32] as [Z]. *)
From S2P Require Import Prelude Float64.
Local Open Scope Z_scope.

Inductive DownPolicy := Protective | Smooth.

#[global] Instance DownPolicy_eq_dec : EqDecision DownPolicy.
Proof. solve_decision. Defined.

Record AdaptationHint := mkAdaptationHint { network_congested : bool; encoder_saturation_fresh : bool }.

Definition default_hint : AdaptationHint := mkAdaptationHint false false.

Record AbrConfig := mkAbrConfig {
  floor_kbps : Z; ceiling_kbps : Z; abr_fps : Z; ewma_alpha : f64; min_interval : Z; deadband : f64;
  max_up_step : f64; down_policy : DownPolicy; max_down_step : f64; down_dwell : Z; cliff_guard_frac : f64 }.

Definition from_millis (ms : Z) : Z := ms * 1000000.

Definition DEFAULT_ALPHA : f64 := lit 3 1.
Definition DEFAULT_DEADBAND : f64 := lit 15 2.
Definition DEFAULT_MAX_UP_STEP : f64 := lit 25 2.
Definition DEFAULT_MAX_DOWN_STEP : f64 := lit 125 3.
Definition DEFAULT_CLIFF_GUARD_FRAC : f64 := lit 50 2.
Definition DEFAULT_MIN_INTERVAL_MS : Z := 1000.
Definition DEFAULT_DOWN_DWELL_MS : Z := 7000.

(** [AbrConfig::new] and [AbrConfig::new_smooth] *)
Definition abr_new_with (p : DownPolicy) (floor ceiling fps : Z) : AbrConfig :=
  mkAbrConfig floor ceiling fps DEFAULT_ALPHA (from_millis DEFAULT_MIN_INTERVAL_MS) DEFAULT_DEADBAND
    DEFAULT_MAX_UP_STEP p DEFAULT_MAX_DOWN_STEP (from_millis DEFAULT_DOWN_DWELL_MS) DEFAULT_CLIFF_GUARD_FRAC.
Definition abr_new : Z → Z → Z → AbrConfig := abr_new_with Protective.
Definition abr_new_smooth : Z → Z → Z → AbrConfig := abr_new_with Smooth.

(** The governor's knobs, and [AbrGovernorSettings::apply_to]. *)
Record AbrGovernorSettings := mkAbrGovernorSettings {
  set_ewma_alpha : f64; set_deadband : f64; set_max_up_step : f64; set_min_interval_ms : Z;
  set_max_down_step : f64; set_down_dwell_ms : Z; set_cliff_guard_frac : f64 }.

Definition apply_to (s : AbrGovernorSettings) (cfg : AbrConfig) : AbrConfig :=
  mkAbrConfig (floor_kbps cfg) (ceiling_kbps cfg) (abr_fps cfg) (set_ewma_alpha s)
    (from_millis (set_min_interval_ms s)) (set_deadband s) (set_max_up_step s) (down_policy cfg)
    (set_max_down_step s) (from_millis (set_down_dwell_ms s)) (set_cliff_guard_frac s).

Record Governor := mkGovernor {
  gov_cfg : AbrConfig;
  ewma : option f64;
  setpoint : Z;
  last_retarget : Z;
  last_down : option Z;
  gov_hint : AdaptationHint }.

(** [Governor::new] *)
Definition governor_new (cfg : AbrConfig) (start : Z) : Governor :=
  mkGovernor cfg None (ceiling_kbps cfg) start None default_hint.

Definition with_floor_kbps (f : Z) (c : AbrConfig) : AbrConfig :=
  mkAbrConfig f (ceiling_kbps c) (abr_fps c) (ewma_alpha c) (min_interval c) (deadband c)
    (max_up_step c) (down_policy c) (max_down_step c) (down_dwell c) (cliff_guard_frac c).

(** [set_floor_kbps]; its [clamp] panics on a ceiling of zero. *)
Definition set_floor_kbps (g : Governor) (floor : Z) : Governor * option Z :=
  let floor := zclamp 1 (ceiling_kbps (gov_cfg g)) floor in
  if floor =? floor_kbps (gov_cfg g) then (g, None)
  else
  let cfg := with_floor_kbps floor (gov_cfg g) in
  if setpoint g <? floor
  then (mkGovernor cfg (ewma g) floor (last_retarget g) (last_down g) (gov_hint g), Some floor)
  else (mkGovernor cfg (ewma g) (setpoint g) (last_retarget g) (last_down g) (gov_hint g), None).

(** [set_adaptation_hint] *)
Definition set_adaptation_hint (g : Governor) (h : AdaptationHint) : Governor :=
  mkGovernor (gov_cfg g) (ewma g) (setpoint g) (last_retarget g) (last_down g) h.

(** [now.saturating_duration_since(t)] *)
Definition since (now t : Z) : Z := Z.max 0 (now - t).

(** The [clamp] of [observe]: it panics when the floor is above the ceiling. *)
Definition clamp_target (cfg : AbrConfig) (target : f64) : Z :=
  zclamp (floor_kbps cfg) (ceiling_kbps cfg) (round_i64 target).

Definition one : f64 := f64_of 1.

Definition smooth_of (g : Governor) (estimate : f64) : f64 :=
  let a := ewma_alpha (gov_cfg g) in
  match ewma g with
  | Some prev => fadd (fmul a estimate) (fmul (fsub one a) prev)
  | None => estimate
  end.

(** Whether the dwell holds a down-step that is no emergency. *)
Definition dwelling (g : Governor) (now : Z) : bool :=
  match last_down g with
  | Some t => since now t <? down_dwell (gov_cfg g)
  | None => false
  end.

(** The rate a smooth down-step wants. *)
Definition smooth_want (g : Governor) (estimate smoothed : f64) : f64 :=
  let cfg := gov_cfg g in
  let sp := f64_of (setpoint g) in
  let fresh := encoder_saturation_fresh (gov_hint g) in
  let basis := if fresh then smoothed else estimate in
  let want := fmax basis (fmul sp (fsub one (max_down_step cfg))) in
  if fresh then fmax want (fmul sp (cliff_guard_frac cfg)) else want.

(** The target of a window past the anti-thrash gate, and whether it is a smooth down-step
    that is no emergency; [None] where [observe] holds. *)
Definition aim (g : Governor) (estimate smoothed : f64) (now : Z) : option (Z * bool) :=
  let cfg := gov_cfg g in
  let sp := f64_of (setpoint g) in
  let ceiling := f64_of (ceiling_kbps cfg) in
  let ceiling_headroom := fge estimate ceiling && flt sp ceiling in
  if flt estimate (fmul sp (fsub one (deadband cfg)))
  then match down_policy cfg with
       | Protective => Some (clamp_target cfg estimate, false)
       | Smooth =>
           if network_congested (gov_hint g) then Some (clamp_target cfg estimate, false)
           else if dwelling g now then None
           else Some (clamp_target cfg (smooth_want g estimate smoothed), true)
       end
  else if fgt smoothed (fmul sp (fadd one (deadband cfg))) || ceiling_headroom
  then Some (clamp_target cfg (fmin (fmul sp (fadd one (max_up_step cfg)))
                                 (if ceiling_headroom then ceiling else smoothed)), false)
  else None.

(** [Governor::observe] *)
Definition observe (g : Governor) (estimate : f64) (now : Z) : Governor * option Z :=
  let smoothed := smooth_of g estimate in
  let g := mkGovernor (gov_cfg g) (Some smoothed) (setpoint g) (last_retarget g) (last_down g) (gov_hint g) in
  if since now (last_retarget g) <? min_interval (gov_cfg g) then (g, None)
  else match aim g estimate smoothed now with
       | None => (g, None)
       | Some (target, nonemergency) =>
           if target =? setpoint g then (g, None)
           else (mkGovernor (gov_cfg g) (ewma g) target now
                   (if nonemergency then Some now else last_down g) (gov_hint g),
                 Some target)
       end.

(** ** A session's inputs *)

Inductive abr_input :=
| Estimate (kbps : f64) (now : Z)
| SetFloor (kbps : Z)
| Hint (h : AdaptationHint).

Definition abr_step (g : Governor) (i : abr_input) : Governor * option Z :=
  match i with
  | Estimate e now => observe g e now
  | SetFloor f => set_floor_kbps g f
  | Hint h => (set_adaptation_hint g h, None)
  end.

Fixpoint abr_run (g : Governor) (l : list abr_input) : list (Governor * abr_input * Governor * option Z) :=
  match l with
  | [] => []
  | i :: l' => let r := abr_step g i in (g, i, r.1, r.2) :: abr_run r.1 l'
  end.

Definition secs_ns (s : Z) : Z := s * 1000000000.

(** The governor on the inputs its tests use: a smooth down-step, its dwell, and the emergency
    that bypasses both. *)
Example smooth_steps :
  (λ x, x.2) <$> abr_run (governor_new (abr_new_smooth 2500 8000 60) 0)
    [Estimate (lit 8000 0) (secs_ns 1); Estimate (lit 4000 0) (secs_ns 4);
     Estimate (lit 4000 0) (secs_ns 6); Hint (mkAdaptationHint true false);
     Estimate (lit 2000 0) (secs_ns 8)]
  = [None; Some 7000; None; None; Some 2500].
Proof. vm_compute. reflexivity. Qed.

(** ** The setpoint *)

Record gov_ok (c : AbrConfig) (g : Governor) : Prop := mkGovOk {
  go_ceiling : ceiling_kbps (gov_cfg g) = ceiling_kbps c;
  go_interval : min_interval (gov_cfg g) = min_interval c;
  go_dwell : down_dwell (gov_cfg g) = down_dwell c;
  go_floor : floor_kbps (gov_cfg g) <= ceiling_kbps c;
  go_setpoint : floor_kbps (gov_cfg g) <= setpoint g <= ceiling_kbps c }.

Lemma clamp_target_range cfg x :
  floor_kbps cfg <= ceiling_kbps cfg → floor_kbps cfg <= clamp_target cfg x <= ceiling_kbps cfg.
Proof. apply zclamp_range. Qed.

Lemma aim_range g e s now t b :
  floor_kbps (gov_cfg g) <= ceiling_kbps (gov_cfg g) → aim g e s now = Some (t, b) →
  floor_kbps (gov_cfg g) <= t <= ceiling_kbps (gov_cfg g).
Proof.
  intros Hf. unfold aim.
  repeat case_match; intros ?; simplify_eq; by apply clamp_target_range.
Qed.

(** How a step leaves the governor: the setpoint is what it answers, or unchanged. *)
Lemma abr_step_ok c g i :
  1 <= ceiling_kbps c → gov_ok c g →
  gov_ok c (abr_step g i).1 ∧
  setpoint (abr_step g i).1 = default (setpoint g) (abr_step g i).2.
Proof.
  intros Hc [H1 H2 H3 H4 H5]. destruct i as [e now|f|h]; simpl.
  - unfold observe. simpl. destruct (_ <? _); [by split|].
    destruct (aim _ e _ now) as [[t b]|] eqn:Ea; [|by split].
    apply aim_range in Ea; [|simpl; lia]. simpl in Ea. destruct (_ =? _); [by split|].
    split; [|done]. split; simpl; try done. lia.
  - unfold set_floor_kbps. rewrite H1.
    assert (1 <= zclamp 1 (ceiling_kbps c) f <= ceiling_kbps c) by (by apply zclamp_range).
    destruct (_ =? _); [by split|]. destruct (Z.ltb_spec (setpoint g) (zclamp 1 (ceiling_kbps c) f)); simpl;
      (split; [split; simpl; try done; lia|done]).
  - by split.
Qed.

Lemma governor_new_ok c start : floor_kbps c <= ceiling_kbps c → gov_ok c (governor_new c start).
Proof. intros H. split; simpl; [done|done|done|done|lia]. Qed.

Lemma abr_run_ok c g l g1 i g2 o :
  1 <= ceiling_kbps c → gov_ok c g → (g1, i, g2, o) ∈ abr_run g l →
  gov_ok c g1 ∧ gov_ok c g2 ∧ setpoint g2 = default (setpoint g1) o.
Proof.
  intros Hc. revert g. induction l as [|x l IH]; intros g Hg; simpl; [by intros ?%elem_of_nil|].
  destruct (abr_step_ok c g x Hc Hg) as [Hok Hsp].
  intros [[= -> -> -> ->]|Hin]%elem_of_cons; [done|]. by apply (IH _ Hok).
Qed.

(** (C40) The setpoint never leaves the band: from any tier whose floor is within its ceiling,
    whatever the estimates (not a number, infinite or negative included), the floor moves and
    the hints, in any order, the setpoint stays between the floor of the moment and the
    configured ceiling, and what the governor answers is what it then holds. *)
Theorem governor_bounded cfg start l g1 i g2 o :
  1 <= ceiling_kbps cfg → floor_kbps cfg <= ceiling_kbps cfg →
  (g1, i, g2, o) ∈ abr_run (governor_new cfg start) l →
  floor_kbps (gov_cfg g2) <= setpoint g2 <= ceiling_kbps cfg ∧
  match o with Some v => v = setpoint g2 | None => setpoint g2 = setpoint g1 end.
Proof.
  intros Hc Hf Hin.
  destruct (abr_run_ok cfg _ l g1 i g2 o Hc (governor_new_ok cfg start Hf) Hin) as (_ & H2 & Hsp).
  split; [apply H2|]. by destruct o.
Qed.

(** ** Its pace *)

(** The times at which estimates moved the setpoint. *)
Fixpoint retarget_times (r : list (Governor * abr_input * Governor * option Z)) : list Z :=
  match r with
  | [] => []
  | (_, Estimate _ now, _, Some _) :: r' => now :: retarget_times r'
  | _ :: r' => retarget_times r'
  end.

(** A down-step that is no emergency, under the smooth policy. *)
Definition eases (g : Governor) (e : f64) : bool :=
  bool_decide (down_policy (gov_cfg g) = Smooth) && negb (network_congested (gov_hint g))
  && flt e (fmul (f64_of (setpoint g)) (fsub one (deadband (gov_cfg g)))).

Fixpoint easing_times (r : list (Governor * abr_input * Governor * option Z)) : list Z :=
  match r with
  | [] => []
  | (g, Estimate e now, _, Some _) :: r' => if eases g e then now :: easing_times r' else easing_times r'
  | _ :: r' => easing_times r'
  end.

Definition apart (d : Z) (a b : Z) : Prop := d <= b - a.

Lemma aim_eases g g' e s now t b :
  gov_cfg g' = gov_cfg g → setpoint g' = setpoint g → gov_hint g' = gov_hint g →
  aim g' e s now = Some (t, b) → b = eases g e ∧ (b = true → dwelling g' now = false).
Proof.
  intros E1 E2 E3. unfold aim, eases. rewrite E1, E2, E3.
  destruct (flt e _) eqn:Ef; [|rewrite andb_false_r; destruct (_ || _); [by intros [= <- <-]|done]].
  destruct (down_policy (gov_cfg g)) eqn:Ep; simpl; [by intros [= <- <-]|].
  destruct (network_congested (gov_hint g)); simpl; [by intros [= <- <-]|].
  destruct (dwelling g' now) eqn:Ed; [done|]. by intros [= <- <-].
Qed.

Lemma since_at_least d now t : 0 < d → (since now t <? d) = false → apart d t now.
Proof. unfold since, apart. intros Hd H. apply Z.ltb_ge in H. lia. Qed.

(** One estimate: what it does to the two clocks. *)
Lemma observe_clocks g e now :
  0 < min_interval (gov_cfg g) → 0 < down_dwell (gov_cfg g) →
  let r := observe g e now in
  gov_cfg r.1 = gov_cfg g ∧
  match r.2 with
  | None => last_retarget r.1 = last_retarget g ∧ last_down r.1 = last_down g
  | Some _ => last_retarget r.1 = now ∧ apart (min_interval (gov_cfg g)) (last_retarget g) now ∧
      last_down r.1 = (if eases g e then Some now else last_down g) ∧
      (eases g e = true → ∀ t, last_down g = Some t → apart (down_dwell (gov_cfg g)) t now)
  end.
Proof.
  intros Hm Hd. unfold observe. simpl. destruct (since now (last_retarget g) <? _) eqn:Es; [done|].
  destruct (aim _ e _ now) as [[t b]|] eqn:Ea; [|done].
  destruct (t =? setpoint g); [done|]. simpl.
  apply (aim_eases g) in Ea as [-> Hdw]; [|done..]. split_and!; [done|done| |done|].
  - by apply since_at_least.
  - intros He t' Ht. specialize (Hdw He). unfold dwelling in Hdw. simpl in Hdw. rewrite Ht in Hdw.
    by apply since_at_least.
Qed.

Lemma abr_run_paced c g l :
  0 < min_interval c → 0 < down_dwell c →
  min_interval (gov_cfg g) = min_interval c → down_dwell (gov_cfg g) = down_dwell c →
  Sorted (apart (min_interval c)) (last_retarget g :: retarget_times (abr_run g l)) ∧
  Sorted (apart (down_dwell c)) (from_option (λ t, [t]) [] (last_down g) ++ easing_times (abr_run g l)).
Proof.
  intros Hm Hd. revert g. induction l as [|i l IH]; intros g E1 E2; simpl.
  { split; [by repeat constructor|]. destruct (last_down g); simpl; by repeat constructor. }
  destruct i as [e now|f|h]; simpl.
  - pose proof (observe_clocks g e now) as Ho. rewrite E1, E2 in Ho. specialize (Ho Hm Hd). simpl in Ho.
    destruct (observe g e now) as [g' [v|]]; simpl in *; destruct Ho as [Ec Ho].
    + destruct Ho as (Hlr & Hap & Hld & Hdw). destruct (IH g') as [IH1 IH2]; [congruence..|].
      rewrite Hlr in IH1. split; [by constructor; [|constructor]|].
      rewrite Hld in IH2. destruct (eases g e); [|done]. simpl in IH2.
      destruct (last_down g) as [t|]; simpl; [|done]. constructor; [done|]. constructor. by apply Hdw.
    + destruct Ho as [Hlr Hld]. destruct (IH g') as [IH1 IH2]; [congruence..|]. by rewrite Hlr, Hld in *.
  - assert (gov_cfg (set_floor_kbps g f).1 = gov_cfg g ∨
      gov_cfg (set_floor_kbps g f).1 = with_floor_kbps (zclamp 1 (ceiling_kbps (gov_cfg g)) f) (gov_cfg g)) as Hc.
    { unfold set_floor_kbps. repeat case_match; first [by left|by right]. }
    assert (last_retarget (set_floor_kbps g f).1 = last_retarget g ∧
            last_down (set_floor_kbps g f).1 = last_down g) as [Hlr Hld].
    { unfold set_floor_kbps. by repeat case_match. }
    destruct (IH (set_floor_kbps g f).1) as [IH1 IH2];
      [by destruct Hc as [-> | ->]|by destruct Hc as [-> | ->]|].
    rewrite Hlr in IH1. rewrite Hld in IH2. by destruct (set_floor_kbps g f) as [g' [v|]].
  - by apply (IH (set_adaptation_hint g h)).
Qed.

(** The governor cannot thrash: two retargets, in either direction, are at least
    [min_interval] apart, the first that far from the start, and two smooth down-steps that are
    no emergency are at least [down_dwell] apart, whatever happens between them; a moved floor
    and a hint spend neither clock. *)
Theorem governor_paced cfg start l :
  0 < min_interval cfg → 0 < down_dwell cfg →
  Sorted (apart (min_interval cfg)) (start :: retarget_times (abr_run (governor_new cfg start) l)) ∧
  Sorted (apart (down_dwell cfg)) (easing_times (abr_run (governor_new cfg start) l)).
Proof. intros Hm Hd. by apply (abr_run_paced cfg (governor_new cfg start) l). Qed.

Definition dip : list abr_input := [Estimate (lit 8000 0) (secs_ns 1); Estimate (lit 4000 0) (secs_ns 4)].

Lemma governor_bounded_witness :
  ∃ g, (floor_kbps (gov_cfg g) <= setpoint g <= 8000) ∧ setpoint g = 7000.
Proof.
  set (r := abr_run (governor_new (abr_new_smooth 2500 8000 60) 0) dip).
  destruct (r !! 1%nat) as [[[[g1 i] g2] o]|] eqn:E; [|vm_compute in E; done].
  exists g2. split.
  - apply (governor_bounded (abr_new_smooth 2500 8000 60) 0 dip g1 i g2 o); [done|done|].
    by eapply list_elem_of_lookup_2.
  - vm_compute in E. by simplify_eq.
Defined.

Lemma governor_paced_witness :
  Sorted (apart (from_millis 1000)) (0 :: retarget_times (abr_run (governor_new (abr_new_smooth 2500 8000 60) 0) dip)).
Proof. by apply (governor_paced (abr_new_smooth 2500 8000 60) 0 dip). Defined.
