(* ===== verification/Ladder.v ===== *)
(** * The adaptation ladder

    [src/session/ladder.rs]: the encoder-speed bias, the resolution and frame-rate rungs with
    their common hysteresis, the planner that gives each window to one lever, and the bitrate
    floor that follows the rung. Times are nanoseconds. [f64::powf] is a parameter: its
    precision is the platform's. *)
From S2P Require Import Prelude Float64 Adaptation Abr.
Local Open Scope Z_scope.

Inductive LadderOrder := Hybrid | ResFirst | FpsFirst.

#[global] Instance LadderOrder_eq_dec : EqDecision LadderOrder.
Proof. solve_decision. Defined.

Definition order_str (o : LadderOrder) : string :=
  match o with Hybrid => "hybrid" | ResFirst => "res_first" | FpsFirst => "fps_first" end.

Record ResolutionPolicy := mkResolutionPolicy {
  exponent : f64; engage_frac : f64; recover_frac : f64; engage_dwell : Z; recover_dwell : Z;
  min_step_s : Z; min_height : Z; settle_windows : Z }.

(** [ResolutionPolicy::new] *)
Definition default_policy : ResolutionPolicy :=
  mkResolutionPolicy (lit 75 2) (lit 6 1) (lit 8 1) 2 2 10 720 1.

Record LadderConfig := mkLadderConfig {
  lc_max_bias : Z; lc_engage_dwell : Z; lc_recover_dwell : Z; lc_fps_enabled : bool;
  resolution_enabled : bool; floor_follows_rung : bool; lc_res : ResolutionPolicy; lc_order : LadderOrder }.

(** [LadderConfig::new] *)
Definition ladder_config_new : LadderConfig := mkLadderConfig 2 2 2 false false true default_policy Hybrid.

(** ** The encoder-speed bias *)

Record Ladder := mkLadder { l_cfg : LadderConfig; bias : Z; saturated_run : Z; healthy_run : Z }.

Definition ladder_new (cfg : LadderConfig) : Ladder := mkLadder cfg 0 0 0.

(** [Ladder::observe] *)
Definition ladder_observe (l : Ladder) (st : AdaptationState) : Ladder * option Z :=
  let cfg := l_cfg l in
  if lc_max_bias cfg =? 0 then (l, None)
  else match st with
  | EncoderSaturated =>
      let run := sat_add U8_MAX (saturated_run l) 1 in
      if (lc_engage_dwell cfg <=? run) && (bias l <? lc_max_bias cfg)
      then (mkLadder cfg (bias l + 1) 0 0, Some (bias l + 1))
      else (mkLadder cfg (bias l) run 0, None)
  | Healthy =>
      let run := sat_add U8_MAX (healthy_run l) 1 in
      if (lc_recover_dwell cfg <=? run) && (0 <? bias l)
      then (mkLadder cfg (bias l - 1) 0 0, Some (bias l - 1))
      else (mkLadder cfg (bias l) 0 run, None)
  | NetworkCongested | Unknown => (mkLadder cfg (bias l) 0 0, None)
  end.

(** ** The machine both rungs run *)

Inductive StepReason := Engage | Recover | Emergency.

#[global] Instance StepReason_eq_dec : EqDecision StepReason.
Proof. solve_decision. Defined.

Definition reason_name (r : StepReason) : string :=
  match r with Engage => "engage" | Recover => "recover" | Emergency => "emergency" end.

Record StepDecision := mkStepDecision { sd_from : Z; sd_to : Z; sd_reason : StepReason }.

Inductive StepDir := DirDown | DirUp.

#[global] Instance StepDir_eq_dec : EqDecision StepDir.
Proof. solve_decision. Defined.

Inductive Intent := IEmergency | IEngage | IRecover | IHold.

(** [Intent::direction] *)
Definition direction (i : Intent) : option StepDir :=
  match i with IEmergency | IEngage => Some DirDown | IRecover => Some DirUp | IHold => None end.

(** What [ResolutionRung] and [FpsRung] both hold: the position and the hysteresis. *)
Record Steps := mkSteps {
  s_current : nat; engage_run : Z; recover_run : Z; settle_left : Z; last_step : Z; pinned : bool }.

Definition with_pinned (b : bool) (s : Steps) : Steps :=
  mkSteps (s_current s) (engage_run s) (recover_run s) (settle_left s) (last_step s) b.
Definition with_runs (e r : Z) (s : Steps) : Steps :=
  mkSteps (s_current s) e r (settle_left s) (last_step s) (pinned s).

Definition SECOND : Z := 1000000000.

(** A rung starts as if it had last stepped long enough ago. *)
Definition steps_new (p : ResolutionPolicy) (now : Z) : Steps :=
  mkSteps 0 0 0 0 (now - (min_step_s p + 1) * SECOND) false.

(** [step_to] *)
Definition step_to (p : ResolutionPolicy) (to : nat) (now : Z) (s : Steps) : Steps :=
  mkSteps to (engage_run s) (recover_run s) (settle_windows p) now (pinned s).

(** [observe] of both rungs, given what the window's signal asks for: the machine after it, and
    the position and reason of a step. *)
Definition window (p : ResolutionPolicy) (active : bool) (st : AdaptationState) (it : Intent) (now : Z)
    (s : Steps) : Steps * option (nat * StepReason) :=
  if negb active then (s, None)
  else if 0 <? settle_left s
  then (mkSteps (s_current s) (engage_run s) (recover_run s) (settle_left s - 1) (last_step s) (pinned s), None)
  else if bool_decide (st = Unknown) then (with_runs 0 0 s, None)
  else
  let can_step := min_step_s p <=? since now (last_step s) / SECOND in
  let held := pinned s || negb can_step in
  match it with
  | IEmergency =>
      if held then (s, None)
      else (step_to p (s_current s + 1) now s, Some ((s_current s + 1)%nat, Emergency))
  | IEngage =>
      let run := sat_add U8_MAX (engage_run s) 1 in
      let s := with_runs run 0 s in
      if negb (engage_dwell p <=? run) || held then (s, None)
      else (step_to p (s_current s + 1) now (with_runs 0 0 s), Some ((s_current s + 1)%nat, Engage))
  | IRecover =>
      let run := sat_add U8_MAX (recover_run s) 1 in
      let s := with_runs 0 run s in
      if negb (recover_dwell p <=? run) || held then (s, None)
      else (step_to p (s_current s - 1) now (with_runs 0 0 s), Some ((s_current s - 1)%nat, Recover))
  | IHold => (with_runs 0 0 s, None)
  end.

Section ladder.
Context (powf : f64 → f64 → f64).

(** [comfort_kbps] *)
Definition comfort_kbps (ceiling launch_px rung_px : Z) (k : f64) : f64 :=
  if (launch_px <=? 0) || (rung_px <=? 0) then f64_of ceiling
  else fmul (f64_of ceiling) (powf (fdiv (f64_of rung_px) (f64_of launch_px)) k).

(** [HALF_RATE_BITRATE_RATIO] *)
Definition HALF_RATE_BITRATE_RATIO : f64 := lit 6 1.
Definition MIN_LAUNCH_FPS : Z := 120.

(** ** The floor that follows the rung *)

Record FloorFollow := mkFloorFollow {
  ff_enabled : bool; launch_floor_kbps : Z; operator_floor_kbps : option Z; ff_ceiling_kbps : Z;
  ff_launch_px : Z; ff_exponent : f64 }.

Definition HARD_MIN_KBPS : Z := 300.

(** [FloorFollow::floor_for] *)
Definition floor_for (f : FloorFollow) (rung_px : Z) (fps_engaged : bool) : Z :=
  if negb (ff_enabled f) || (ff_ceiling_kbps f =? 0) then launch_floor_kbps f
  else
  let b := comfort_kbps (ff_ceiling_kbps f) (ff_launch_px f) rung_px (ff_exponent f) in
  let b_eff := if fps_engaged then fmul b HALF_RATE_BITRATE_RATIO else b in
  let scale := fclamp (f64_of 0) (f64_of 1) (fdiv b_eff (f64_of (ff_ceiling_kbps f))) in
  let follow := round_u32 (fmul (f64_of (launch_floor_kbps f)) scale) in
  let floor := Z.max follow HARD_MIN_KBPS in
  let floor := match operator_floor_kbps f with Some o => Z.max floor o | None => floor end in
  Z.max (Z.min floor (launch_floor_kbps f)) 1.

(** [ResolutionPolicy::validate]; the text of an error is not modelled. *)
Inductive PolicyError :=
| ExponentRange | EngageRange | RecoverRange | EngageDwell | RecoverDwell | MinHeight
| HysteresisFloor | BandCollapses (upper lower : Z * Z).

Definition between (lo hi x : f64) : bool := fle lo x && fle x hi.

Definition px (r : Z * Z) : Z := r.1 * r.2.

Fixpoint validate_pairs (p : ResolutionPolicy) (ceiling launch_px : Z) (rungs : list (Z * Z)) :
  result unit PolicyError :=
  match rungs with
  | a :: ((b :: _) as rest) =>
      let c := comfort_kbps ceiling launch_px (px a) (exponent p) in
      if fge (fmul (engage_frac p) c) (fmul (recover_frac p) c) then Err (BandCollapses a b)
      else validate_pairs p ceiling launch_px rest
  | _ => Ok tt
  end.

Definition validate (p : ResolutionPolicy) (rungs : list (Z * Z)) (ceiling : Z) : result unit PolicyError :=
  if negb (between (lit 5 1) (lit 1 0) (exponent p)) then Err ExponentRange
  else if negb (between (lit 2 1) (lit 95 2) (engage_frac p)) then Err EngageRange
  else if negb (between (lit 3 1) (lit 1 0) (recover_frac p)) then Err RecoverRange
  else if engage_dwell p =? 0 then Err EngageDwell
  else if recover_dwell p =? 0 then Err RecoverDwell
  else if min_height p <? 360 then Err MinHeight
  else if flt (fsub (recover_frac p) (engage_frac p)) (lit 5 2) then Err HysteresisFloor
  else validate_pairs p ceiling (from_option px 0 (head rungs)) rungs.

(** ** The resolution rung *)

Record ResolutionRung := mkResolutionRung {
  r_policy : ResolutionPolicy; rungs : list (Z * Z); floor_rung : nat; r_ceiling_kbps : Z;
  launch_px : Z; r_steps : Steps }.

(** The deepest index whose height the policy allows. *)
Fixpoint deepest (p : ResolutionPolicy) (i : nat) (best : nat) (l : list (Z * Z)) : nat :=
  match l with
  | [] => best
  | (_, h) :: l' => deepest p (S i) (if min_height p <=? h then i else best) l'
  end.

Definition resolution_new (p : ResolutionPolicy) (rs : list (Z * Z)) (ceiling now : Z) : ResolutionRung :=
  mkResolutionRung p rs (deepest p 0 0 rs) ceiling (from_option px 0 (head rs)) (steps_new p now).

Definition with_r_steps (s : Steps) (r : ResolutionRung) : ResolutionRung :=
  mkResolutionRung (r_policy r) (rungs r) (floor_rung r) (r_ceiling_kbps r) (launch_px r) s.

(** [size] *)
Definition size (r : ResolutionRung) : Z * Z :=
  default (0, 0) (match rungs r !! s_current (r_steps r) with Some x => Some x | None => last (rungs r) end).

Definition res_set_pinned (b : bool) (r : ResolutionRung) : ResolutionRung :=
  with_r_steps (with_pinned b (r_steps r)) r.

(** [sync_rung] *)
Definition sync_rung (sz : Z * Z) (r : ResolutionRung) : ResolutionRung :=
  match position (λ x, bool_decide (x = sz)) (rungs r) with
  | Some i => let s := r_steps r in
              with_r_steps (mkSteps i 0 0 (settle_left s) (last_step s) (pinned s)) r
  | None => r
  end.

(** [comfort]; an index outside the ladder, on which the code panics, reads as size zero. *)
Definition res_comfort (r : ResolutionRung) (idx : nat) : f64 :=
  comfort_kbps (r_ceiling_kbps r) (launch_px r) (px (default (0, 0) (rungs r !! idx))) (exponent (r_policy r)).

Definition at_floor (setpoint floor : f64) : bool := fle setpoint (fmul floor (lit 105 2)).

Definition res_active (r : ResolutionRung) : bool := (2 <=? length (rungs r))%nat.

(** [ResolutionRung::intent] *)
Definition res_intent (r : ResolutionRung) (st : AdaptationState) (setpoint floor : f64) : Intent :=
  let cur := s_current (r_steps r) in
  if negb (res_active r) || bool_decide (st = Unknown) then IHold
  else if bool_decide (st = NetworkCongested) && at_floor setpoint floor && (cur <? floor_rung r)%nat
  then IEmergency
  else if flt setpoint (fmul (engage_frac (r_policy r)) (res_comfort r cur)) && (cur <? floor_rung r)%nat
  then IEngage
  else if (0 <? cur)%nat && fge setpoint (fmul (recover_frac (r_policy r)) (res_comfort r (cur - 1)))
  then IRecover
  else IHold.

Definition res_wants (r : ResolutionRung) (st : AdaptationState) (setpoint floor : f64) : option StepDir :=
  direction (res_intent r st setpoint floor).

(** [ResolutionRung::can_step] *)
Definition res_can_step (r : ResolutionRung) (d : StepDir) : bool :=
  res_active r && match d with
                  | DirDown => (s_current (r_steps r) <? floor_rung r)%nat
                  | DirUp => (0 <? s_current (r_steps r))%nat
                  end.

(** [ResolutionRung::observe] *)
Definition res_observe (r : ResolutionRung) (st : AdaptationState) (setpoint floor : f64) (now : Z) :
  ResolutionRung * option StepDecision :=
  let s := r_steps r in
  let (s', d) := window (r_policy r) (res_active r) st (res_intent r st setpoint floor) now s in
  (with_r_steps s' r,
   (λ x, mkStepDecision (Z.of_nat (s_current s)) (Z.of_nat x.1) x.2) <$> d).

(** ** The frame-rate rung *)

Record FpsRung := mkFpsRung { f_policy : ResolutionPolicy; f_rates : list Z; f_ceiling_kbps : Z; f_steps : Steps }.

Definition fps_new (p : ResolutionPolicy) (launch_fps ceiling now : Z) : FpsRung :=
  mkFpsRung p (if MIN_LAUNCH_FPS <=? launch_fps then [launch_fps; Z.quot launch_fps 2] else [Z.max launch_fps 1])
    ceiling (steps_new p now).

Definition with_f_steps (s : Steps) (f : FpsRung) : FpsRung :=
  mkFpsRung (f_policy f) (f_rates f) (f_ceiling_kbps f) s.

Definition fps_set_pinned (b : bool) (f : FpsRung) : FpsRung := with_f_steps (with_pinned b (f_steps f)) f.

(** [FpsRung::fps] and [is_active] *)
Definition rate_at (f : FpsRung) (i : nat) : Z := default 0 (f_rates f !! i).
Definition fps (f : FpsRung) : Z := rate_at f (s_current (f_steps f)).
Definition is_active (f : FpsRung) : bool := (2 <=? length (f_rates f))%nat.

Definition fps_comfort (f : FpsRung) (idx : nat) : f64 :=
  let base := f64_of (f_ceiling_kbps f) in
  if (idx =? 0)%nat then base else fmul base HALF_RATE_BITRATE_RATIO.

(** [FpsRung::intent] *)
Definition fps_intent (f : FpsRung) (st : AdaptationState) (setpoint floor : f64) : Intent :=
  let cur := s_current (f_steps f) in
  if negb (is_active f) || bool_decide (st = Unknown) then IHold
  else
  let bottom := (length (f_rates f) - 1)%nat in
  if bool_decide (st = NetworkCongested) && at_floor setpoint floor && (cur <? bottom)%nat
  then IEmergency
  else if flt setpoint (fmul (engage_frac (f_policy f)) (fps_comfort f cur)) && (cur <? bottom)%nat
  then IEngage
  else if (0 <? cur)%nat && fge setpoint (fmul (recover_frac (f_policy f)) (fps_comfort f (cur - 1)))
  then IRecover
  else IHold.

Definition fps_wants (f : FpsRung) (st : AdaptationState) (setpoint floor : f64) : option StepDir :=
  direction (fps_intent f st setpoint floor).

(** [FpsRung::can_step] *)
Definition fps_can_step (f : FpsRung) (d : StepDir) : bool :=
  is_active f && match d with
                 | DirDown => (s_current (f_steps f) <? length (f_rates f) - 1)%nat
                 | DirUp => (0 <? s_current (f_steps f))%nat
                 end.

(** [FpsRung::observe]; its decision names frame rates. *)
Definition fps_observe (f : FpsRung) (st : AdaptationState) (setpoint floor : f64) (now : Z) :
  FpsRung * option StepDecision :=
  let s := f_steps f in
  let (s', d) := window (f_policy f) (is_active f) st (fps_intent f st setpoint floor) now s in
  (with_f_steps s' f,
   (λ x, mkStepDecision (fps f) (rate_at f x.1) x.2) <$> d).

(** ** The planner *)

Inductive PlannedStep := Resolution (d : StepDecision) | Fps (d : StepDecision).
Inductive Lever := LRes | LFps.

#[global] Instance Lever_eq_dec : EqDecision Lever.
Proof. solve_decision. Defined.

Record LadderPlanner := mkLadderPlanner {
  p_res : ResolutionRung; p_fps : FpsRung; p_order : LadderOrder; p_fps_enabled : bool;
  res_retired : bool; fps_retired : bool }.

Definition HYBRID_PIVOT_HEIGHT : Z := 1080.

Definition planner_new (cfg : LadderConfig) (rs : list (Z * Z)) (launch_fps ceiling now : Z) : LadderPlanner :=
  mkLadderPlanner (resolution_new (lc_res cfg) rs ceiling now) (fps_new (lc_res cfg) launch_fps ceiling now)
    (lc_order cfg) (lc_fps_enabled cfg) false false.

Definition with_rungs (r : ResolutionRung) (f : FpsRung) (p : LadderPlanner) : LadderPlanner :=
  mkLadderPlanner r f (p_order p) (p_fps_enabled p) (res_retired p) (fps_retired p).

(** [fps_rung_active] *)
Definition fps_rung_active (p : LadderPlanner) : bool := p_fps_enabled p && is_active (p_fps p).

(** [LadderPlanner::set_pinned] *)
Definition set_pinned (b : bool) (p : LadderPlanner) : LadderPlanner :=
  with_rungs (res_set_pinned (b || res_retired p) (p_res p)) (fps_set_pinned (b || fps_retired p) (p_fps p)) p.

Definition set_res_retired (b : bool) (p : LadderPlanner) : LadderPlanner :=
  mkLadderPlanner (res_set_pinned b (p_res p)) (p_fps p) (p_order p) (p_fps_enabled p) b (fps_retired p).
Definition set_fps_retired (b : bool) (p : LadderPlanner) : LadderPlanner :=
  mkLadderPlanner (p_res p) (fps_set_pinned b (p_fps p)) (p_order p) (p_fps_enabled p) (res_retired p) b.

Definition sync_res (sz : Z * Z) (p : LadderPlanner) : LadderPlanner :=
  with_rungs (sync_rung sz (p_res p)) (p_fps p) p.

Definition at_or_below_pivot (p : LadderPlanner) : bool := (size (p_res p)).2 <=? HYBRID_PIVOT_HEIGHT.

(** [down_priority] and [up_priority] *)
Definition down_priority (p : LadderPlanner) : list Lever :=
  match p_order p with
  | ResFirst => [LRes; LFps]
  | FpsFirst => [LFps; LRes]
  | Hybrid => if at_or_below_pivot p then [LFps; LRes] else [LRes; LFps]
  end.

Definition up_priority (p : LadderPlanner) : list Lever :=
  match p_order p with
  | ResFirst => [LFps; LRes]
  | FpsFirst => [LRes; LFps]
  | Hybrid =>
      if (0 <? s_current (f_steps (p_fps p)))%nat && (HYBRID_PIVOT_HEIGHT <=? (size (p_res p)).2)
      then [LFps; LRes] else [LRes; LFps]
  end.

(** [LadderPlanner::can_step] *)
Definition planner_can_step (p : LadderPlanner) (d : StepDir) (l : Lever) : bool :=
  match l with
  | LRes => negb (res_retired p) && res_can_step (p_res p) d
  | LFps => negb (fps_retired p) && fps_rung_active p && fps_can_step (p_fps p) d
  end.

(** The direction of a window, and the lever it is given to. *)
Definition window_dir (p : LadderPlanner) (st : AdaptationState) (setpoint floor : f64) : option StepDir :=
  match res_wants (p_res p) st setpoint floor with
  | Some d => Some d
  | None => if fps_rung_active p && negb (fps_retired p) then fps_wants (p_fps p) st setpoint floor else None
  end.

Definition lever_for (p : LadderPlanner) (d : StepDir) : option Lever :=
  find_first (planner_can_step p d) (match d with DirDown => down_priority p | DirUp => up_priority p end).

(** [LadderPlanner::observe] *)
Definition planner_observe (p : LadderPlanner) (st : AdaptationState) (setpoint floor : f64) (now : Z) :
  LadderPlanner * option PlannedStep :=
  match window_dir p st setpoint floor with
  | None =>
      let (r, a) := res_observe (p_res p) st setpoint floor now in
      let fb := if fps_rung_active p && negb (fps_retired p)
                then fps_observe (p_fps p) st setpoint floor now else (p_fps p, None) in
      (with_rungs r fb.1 p, match a with Some d => Some (Resolution d) | None => Fps <$> fb.2 end)
  | Some d =>
      match lever_for p d with
      | None => (p, None)
      | Some LRes => let (r, a) := res_observe (p_res p) st setpoint floor now in
                     (with_rungs r (p_fps p) p, Resolution <$> a)
      | Some LFps => let (f, a) := fps_observe (p_fps p) st setpoint floor now in
                     (with_rungs (p_res p) f p, Fps <$> a)
      end
  end.
End ladder.
