(* ===== verification/LadderProofs.v ===== *)
(** * What the ladder promises

    The bias ([ladder_observe]); one window of the machine both rungs run ([window_spec]); the
    resolution rung over a session of windows, pins and manual sizes ([res_run]); the planner's
    one lever per window; the order in which recovery takes engagements back ([unwinds]), by
    the relation [engaged] that says how a planner got where it is; the floor. *)
From S2P Require Import Prelude Float64 Adaptation Abr Ladder.
Local Open Scope Z_scope.

(** ** The bias *)

Definition is_state (s : AdaptationState) (x : AdaptationState) : bool := bool_decide (x = s).

Fixpoint ladder_run (l : Ladder) (windows : list AdaptationState) : Ladder :=
  match windows with [] => l | w :: ws => ladder_run (ladder_observe l w).1 ws end.

Record ladder_ok (cfg : LadderConfig) (l : Ladder) (seen : list AdaptationState) : Prop := mkLadderOk {
  lo_cfg : l_cfg l = cfg;
  lo_bias : 0 <= bias l <= lc_max_bias cfg;
  lo_saturated : streak (is_state EncoderSaturated) (saturated_run l) seen;
  lo_healthy : streak (is_state Healthy) (healthy_run l) seen }.

Lemma U8_nonneg : 0 <= U8_MAX. Proof. done. Qed.
#[local] Hint Resolve U8_nonneg : quasar.

Lemma ladder_observe_ok cfg l seen w :
  ladder_ok cfg l seen → lc_max_bias cfg ≠ 0 →
  ladder_ok cfg (ladder_observe l w).1 (w :: seen) ∧
  ∀ b, (ladder_observe l w).2 = Some b → bias (ladder_observe l w).1 = b ∧
    (b = bias l + 1 ∧ (0 <= lc_engage_dwell cfg → streak (is_state EncoderSaturated) (lc_engage_dwell cfg) (w :: seen)) ∨
     b = bias l - 1 ∧ (0 <= lc_recover_dwell cfg → streak (is_state Healthy) (lc_recover_dwell cfg) (w :: seen))).
Proof.
  intros [E Hb Hs Hh] Hm. unfold ladder_observe. rewrite E. destruct (Z.eqb_spec (lc_max_bias cfg) 0); [done|].
  destruct w; simpl.
  - assert (streak (is_state Healthy) (sat_add U8_MAX (healthy_run l) 1) (Healthy :: seen)) as Hn
      by auto with quasar.
    destruct (Z.leb_spec (lc_recover_dwell cfg) (sat_add U8_MAX (healthy_run l) 1)); simpl.
    + destruct (Z.ltb_spec 0 (bias l)); simpl; (split; [split; simpl; auto with quasar; lia|]); [|done].
      intros b [= <-]. split; [done|right]. split; [done|]. intros Hd. eapply streak_le; [|done]; lia.
    + split; [|done]. split; simpl; auto with quasar; lia.
  - split; [|done]. split; simpl; auto with quasar; lia.
  - assert (streak (is_state EncoderSaturated) (sat_add U8_MAX (saturated_run l) 1) (EncoderSaturated :: seen)) as Hn
      by auto with quasar.
    destruct (Z.leb_spec (lc_engage_dwell cfg) (sat_add U8_MAX (saturated_run l) 1)); simpl.
    + destruct (Z.ltb_spec (bias l) (lc_max_bias cfg)); simpl; (split; [split; simpl; auto with quasar; lia|]); [|done].
      intros b [= <-]. split; [done|left]. split; [done|]. intros Hd. eapply streak_le; [|done]; lia.
    + split; [|done]. split; simpl; auto with quasar; lia.
  - split; [|done]. split; simpl; auto with quasar; lia.
Qed.

Lemma ladder_run_ok cfg l seen ws :
  ladder_ok cfg l seen → lc_max_bias cfg ≠ 0 → ladder_ok cfg (ladder_run l ws) (rev ws ++ seen).
Proof.
  revert l seen. induction ws as [|w ws IH]; intros l seen Hok Hm; simpl; [done|].
  rewrite <- app_assoc. apply IH; [|done]. by apply ladder_observe_ok.
Qed.

(** The encoder is biased one level at a time, never past [max_bias] and never below the
    baseline: up only after [engage_dwell] saturated windows in a row, down only after
    [recover_dwell] healthy ones in a row; a congested or unclear window breaks both streaks. *)
Theorem bias_earned cfg ws w b :
  1 <= lc_max_bias cfg → 0 <= lc_engage_dwell cfg → 0 <= lc_recover_dwell cfg →
  (ladder_observe (ladder_run (ladder_new cfg) ws) w).2 = Some b →
  0 <= b <= lc_max_bias cfg ∧
  (b = bias (ladder_run (ladder_new cfg) ws) + 1 ∧
     streak (is_state EncoderSaturated) (lc_engage_dwell cfg) (w :: rev ws) ∨
   b = bias (ladder_run (ladder_new cfg) ws) - 1 ∧
     streak (is_state Healthy) (lc_recover_dwell cfg) (w :: rev ws)).
Proof.
  intros Hm He Hr Hb.
  assert (ladder_ok cfg (ladder_run (ladder_new cfg) ws) (rev ws)) as Hok.
  { rewrite <- (app_nil_r (rev ws)). apply ladder_run_ok; [|lia]. split; simpl; auto with quasar; lia. }
  destruct (ladder_observe_ok cfg _ _ w Hok) as [Hok' Hst]; [lia|].
  destruct (Hst b Hb) as [<- Hor]. split; [apply Hok'|]. naive_solver.
Qed.

(** ** One window of the common machine *)

(** What a step of the machine is: allowed by the intent, by one position, not while pinned or
    settling, and far enough from the last. *)
Record stepped (p : ResolutionPolicy) (active : bool) (st : AdaptationState) (it : Intent) (now : Z)
    (s s' : Steps) (to : nat) (why : StepReason) : Prop := mkStepped {
  sp_active : active = true;
  sp_known : st ≠ Unknown;
  sp_pinned : pinned s = false;
  sp_settled : settle_left s <= 0;
  sp_apart : min_step_s p <= since now (last_step s) / SECOND;
  sp_to : s_current s' = to;
  sp_last : last_step s' = now;
  sp_settle : settle_left s' = settle_windows p;
  sp_same : pinned s' = pinned s;
  sp_why : match it with
           | IEmergency => why = Emergency ∧ to = S (s_current s)
           | IEngage => why = Engage ∧ to = S (s_current s)
           | IRecover => why = Recover ∧ to = (s_current s - 1)%nat
           | IHold => False
           end }.

Lemma window_spec p active st it now s :
  let r := window p active st it now s in
  match r.2 with
  | Some (to, why) => stepped p active st it now s r.1 to why
  | None => s_current r.1 = s_current s ∧ last_step r.1 = last_step s ∧ pinned r.1 = pinned s ∧
      (settle_left r.1 = settle_left s ∨ 0 < settle_left s ∧ settle_left r.1 = settle_left s - 1)
  end.
Proof.
  unfold window. destruct active; simpl; [|split_and!; by try left].
  destruct (Z.ltb_spec 0 (settle_left s)); simpl; [split_and!; try done; by right|].
  destruct (bool_decide_reflect (st = Unknown)); simpl; [split_and!; by try left|].
  destruct (Z.leb_spec (min_step_s p) (since now (last_step s) / SECOND)) as [Hap|Hap], (pinned s) eqn:Ep;
    destruct it; simpl; rewrite ?orb_true_r, ?orb_false_r; try (by split_and!; try left; simpl).
  - by split; simpl; rewrite ?Nat.add_1_r.
  - destruct (negb _); simpl; [by split_and!; try left; simpl|].
    by split; simpl; rewrite ?Nat.add_1_r.
  - destruct (negb _); simpl; [by split_and!; try left; simpl|]. by split.
Qed.

(** ** The resolution rung over a session *)

Section resolution.
Context (powf : f64 → f64 → f64).
Implicit Types (r : ResolutionRung).

Inductive res_input :=
| RWindow (st : AdaptationState) (setpoint floor : f64) (now : Z)
| RPin (b : bool)
| RSync (sz : Z * Z).

Definition res_step r (i : res_input) : ResolutionRung * option StepDecision :=
  match i with
  | RWindow st sp fl now => res_observe powf r st sp fl now
  | RPin b => (res_set_pinned b r, None)
  | RSync sz => (sync_rung sz r, None)
  end.

Fixpoint res_run r (l : list res_input) : list (ResolutionRung * res_input * ResolutionRung * option StepDecision) :=
  match l with
  | [] => []
  | i :: l' => let o := res_step r i in (r, i, o.1, o.2) :: res_run o.1 l'
  end.

(** What no input changes, and the positions the ladder may be read at. *)
Record res_ok (pol : ResolutionPolicy) (rs : list (Z * Z)) r : Prop := mkResOk {
  ro_policy : r_policy r = pol;
  ro_rungs : rungs r = rs;
  ro_floor : floor_rung r = deepest pol 0 0 rs;
  ro_current : (s_current (r_steps r) < Nat.max 1 (length rs))%nat }.

Lemma deepest_bound p i best l : (best <= i)%nat → (deepest p i best l < Nat.max (S best) (i + length l))%nat.
Proof.
  revert i best. induction l as [|[w h] l IH]; intros i best Hb; simpl; [lia|].
  destruct (min_height p <=? h); [pose proof (IH (S i) i ltac:(lia))|pose proof (IH (S i) best ltac:(lia))]; lia.
Qed.

Lemma deepest_tall p i best l :
  (i <= deepest p i best l)%nat → deepest p i best l ≠ best →
  ∃ x, l !! (deepest p i best l - i)%nat = Some x ∧ min_height p <= x.2.
Proof.
  revert i best. induction l as [|[w h] l IH]; intros i best Hi Hne; simpl in *; [done|].
  destruct (Z.leb_spec (min_height p) h) as [Hh|Hh].
  - destruct (decide (deepest p (S i) i l = i)) as [E|E].
    + rewrite E, Nat.sub_diag. by exists (w, h).
    + assert (S i <= deepest p (S i) i l)%nat as Hs by lia.
      destruct (IH (S i) i Hs E) as (x & Hx & Hm). exists x. split; [|done].
      by replace (deepest p (S i) i l - i)%nat with (S (deepest p (S i) i l - S i)) by lia.
  - destruct (decide (deepest p (S i) best l = i)) as [E|E].
    + exfalso. clear IH. revert E Hne Hi. generalize best. clear.
      assert (∀ k b, (deepest p k b l = b ∨ k <= deepest p k b l)%nat) as Hk.
      { induction l as [|[w h] l IH]; intros k b; simpl; [by left|].
        destruct (min_height p <=? h); [destruct (IH (S k) k); lia|destruct (IH (S k) b); lia]. }
      intros b E Hne _. destruct (Hk (S i) b); lia.
    + assert (S i <= deepest p (S i) best l)%nat as Hs by lia.
      destruct (IH (S i) best Hs Hne) as (x & Hx & Hm). exists x. split; [|done].
      by replace (deepest p (S i) best l - i)%nat with (S (deepest p (S i) best l - S i)) by lia.
Qed.

(** What a window asks for has somewhere to go. *)
Lemma res_intent_room r st sp fl :
  match res_intent powf r st sp fl with
  | IEmergency | IEngage => (s_current (r_steps r) < floor_rung r)%nat
  | IRecover => (0 < s_current (r_steps r))%nat
  | IHold => True
  end.
Proof.
  unfold res_intent.
  destruct (Nat.ltb_spec (s_current (r_steps r)) (floor_rung r)), (Nat.ltb_spec 0 (s_current (r_steps r)));
    rewrite ?andb_true_r, ?andb_false_r; by repeat case_match.
Qed.

(** One resolution step, as a claim on the ladder before and after. *)
Record res_stepped (pol : ResolutionPolicy) (rs : list (Z * Z)) r1 (now : Z) r2 (d : StepDecision) : Prop := mkResStepped {
  rs_from : sd_from d = Z.of_nat (s_current (r_steps r1));
  rs_to : sd_to d = Z.of_nat (s_current (r_steps r2));
  rs_ladder : (2 <= length rs)%nat;
  rs_unpinned : pinned (r_steps r1) = false;
  rs_one : match sd_reason d with
           | Recover => sd_to d = sd_from d - 1
           | Engage | Emergency => sd_to d = sd_from d + 1 ∧ sd_to d <= Z.of_nat (deepest pol 0 0 rs)
           end;
  rs_settled : settle_left (r_steps r1) <= 0;
  rs_apart : min_step_s pol <= since now (last_step (r_steps r1)) / SECOND;
  rs_last : last_step (r_steps r2) = now;
  rs_settle : settle_left (r_steps r2) = settle_windows pol }.

Lemma sync_rung_steps sz r :
  last_step (r_steps (sync_rung sz r)) = last_step (r_steps r) ∧
  settle_left (r_steps (sync_rung sz r)) = settle_left (r_steps r).
Proof. unfold sync_rung. by destruct (position _ _). Qed.

Lemma res_step_ok pol rs r i :
  res_ok pol rs r →
  res_ok pol rs (res_step r i).1 ∧
  match i, (res_step r i).2 with
  | RWindow _ _ _ now, Some d => res_stepped pol rs r now (res_step r i).1 d
  | RWindow _ _ _ _, None => last_step (r_steps (res_step r i).1) = last_step (r_steps r) ∧
      (settle_left (r_steps (res_step r i).1) = settle_left (r_steps r) ∨
       settle_left (r_steps (res_step r i).1) = settle_left (r_steps r) - 1)
  | _, o => o = None ∧ last_step (r_steps (res_step r i).1) = last_step (r_steps r) ∧
      settle_left (r_steps (res_step r i).1) = settle_left (r_steps r)
  end.
Proof.
  intros [H1 H2 H3 H4]. destruct i as [st sp fl now|b|sz]; simpl.
  - unfold res_observe. pose proof (res_intent_room r st sp fl) as Hroom.
    pose proof (window_spec (r_policy r) (res_active r) st (res_intent powf r st sp fl) now (r_steps r)) as Hw.
    simpl in Hw. destruct (window _ _ _ _ _ _) as [s' [[to why]|]]; simpl in *.
    + destruct Hw as [Ha _ Hp Hs Hap Hto Hla Hse _ Hwhy]. unfold res_active in Ha. rewrite H2 in Ha.
      apply Nat.leb_le in Ha. pose proof (deepest_bound pol 0 0 rs (le_n 0)) as Hd.
      assert ((to < length rs)%nat ∧ match why with
              | Recover => Z.of_nat to = Z.of_nat (s_current (r_steps r)) - 1
              | Engage | Emergency => Z.of_nat to = Z.of_nat (s_current (r_steps r)) + 1 ∧
                  Z.of_nat to <= Z.of_nat (deepest pol 0 0 rs) end) as [Hlt Hone].
      { rewrite H3 in Hroom. destruct (res_intent powf r st sp fl); [..|done];
          destruct Hwhy as [-> ->]; split; lia. }
      split; [split; simpl; try done; lia|].
      split; simpl; try done; [by rewrite Hto|by rewrite <- H1|by rewrite <- H1].
    + destruct Hw as (Hc & Hl & _ & Hs). split; [split; simpl; try done; by rewrite Hc|].
      split; [done|]. destruct Hs as [?|[_ ?]]; [by left|by right].
  - split; [by split|done].
  - split; [|destruct (sync_rung_steps sz r); by split_and!].
    unfold sync_rung. rewrite H2. destruct (position _ rs) as [k|] eqn:E; [|by split].
    apply position_lookup in E as (x & Hx & _). apply lookup_lt_Some in Hx.
    split; simpl; try done. lia.
Qed.

Lemma res_run_in pol rs r l r1 i r2 o :
  res_ok pol rs r → (r1, i, r2, o) ∈ res_run r l → res_ok pol rs r1 ∧ res_step r1 i = (r2, o).
Proof.
  revert r. induction l as [|x l IH]; intros r Hok; simpl; [by intros ?%elem_of_nil|].
  intros [[= -> -> -> ->]|Hin]%elem_of_cons; [by split; [|destruct (res_step _ _)]|].
  apply (IH (res_step r x).1); [|done]. by apply res_step_ok.
Qed.

Lemma resolution_new_ok pol rs ceiling start : res_ok pol rs (resolution_new pol rs ceiling start).
Proof. split; simpl; try done. lia. Qed.

(** Heights that only shrink down the ladder. *)
Definition descending (rs : list (Z * Z)) : Prop :=
  ∀ i j a b, (i <= j)%nat → rs !! i = Some a → rs !! j = Some b → b.2 <= a.2.

(** The picture moves one rung at a time and stays on the ladder: whatever windows, pins
    and manual sizes a session brings, every step goes between neighbours, from where the rung
    was to where it then is, never while a human pinned the size, and never down to a rung
    shorter than the policy's minimum height. *)
Theorem resolution_steps_bounded pol rs ceiling start l r1 st sp fl now r2 d :
  descending rs →
  (r1, RWindow st sp fl now, r2, Some d) ∈ res_run (resolution_new pol rs ceiling start) l →
  sd_from d = Z.of_nat (s_current (r_steps r1)) ∧ sd_to d = Z.of_nat (s_current (r_steps r2)) ∧
  0 <= sd_to d < Z.of_nat (length rs) ∧ pinned (r_steps r1) = false ∧
  (sd_to d = sd_from d - 1 ∧ sd_reason d = Recover ∨
   sd_to d = sd_from d + 1 ∧ sd_reason d ≠ Recover ∧ min_height pol <= (size r2).2).
Proof.
  intros Hdesc Hin. apply (res_run_in pol rs) in Hin as [Hok E]; [|apply resolution_new_ok].
  pose proof (res_step_ok pol rs r1 (RWindow st sp fl now) Hok) as Hst. simpl in E, Hst. rewrite E in Hst. simpl in Hst.
  destruct Hst as [Hok2 [H1 H2 H3 H4 H5 _ _ _ _]].
  assert (s_current (r_steps r2) < length rs)%nat as Hlt by (destruct Hok2 as [_ _ _ H]; lia).
  split_and!; [done|done|lia|lia|done|].
  destruct (sd_reason d) eqn:Er; [|by left|]; right; destruct H5 as [H5 H6]; (split_and!; [done|done|]).
  all: destruct (deepest_tall pol 0 0 rs) as (x & Hx & Hm); [lia|lia|]; rewrite Nat.sub_0_r in Hx;
    destruct (lookup_lt_is_Some_2 rs _ Hlt) as [y Hy];
    pose proof (Hdesc (s_current (r_steps r2)) (deepest pol 0 0 rs) y x ltac:(lia) Hy Hx) as Hle; unfold size;
    rewrite (ro_rungs _ _ _ Hok2), Hy; simpl; lia.
Qed.

(** The times of the steps, and the numbers of the windows they were taken in, from [n]. *)
Fixpoint step_times (run : list (ResolutionRung * res_input * ResolutionRung * option StepDecision)) : list Z :=
  match run with
  | [] => []
  | (_, RWindow _ _ _ now, _, Some _) :: run' => now :: step_times run'
  | _ :: run' => step_times run'
  end.

Fixpoint step_windows (n : Z) (run : list (ResolutionRung * res_input * ResolutionRung * option StepDecision)) : list Z :=
  match run with
  | [] => []
  | (_, RWindow _ _ _ _, _, o) :: run' =>
      match o with Some _ => n :: step_windows (n + 1) run' | None => step_windows (n + 1) run' end
  | _ :: run' => step_windows n run'
  end.

Lemma res_run_times pol rs r l :
  0 < min_step_s pol → res_ok pol rs r →
  Sorted (apart (min_step_s pol * SECOND)) (last_step (r_steps r) :: step_times (res_run r l)).
Proof.
  intros Hm. revert r. induction l as [|i l IH]; intros r Hok; simpl; [by repeat constructor|].
  destruct (res_step_ok pol rs r i Hok) as [Hok' Hst]. specialize (IH _ Hok').
  destruct i as [st sp fl now|b|sz]; simpl in *.
  - destruct (res_observe powf r st sp fl now) as [r' [d|]]; simpl in *.
    + destruct Hst as [_ _ _ _ _ _ Hap Hla _]. rewrite Hla in IH. constructor; [done|]. constructor.
      unfold apart, since in *. assert (min_step_s pol * SECOND <= Z.max 0 (now - last_step (r_steps r))); [|unfold SECOND in *; lia].
      pose proof (Z.mul_div_le (Z.max 0 (now - last_step (r_steps r))) SECOND). unfold SECOND in *. lia.
    + destruct Hst as [<- _]. done.
  - done.
  - by destruct (sync_rung_steps sz r) as [<- _].
Qed.

Lemma res_run_windows pol rs r l n k :
  res_ok pol rs r → settle_windows pol - (n - k - 1) <= settle_left (r_steps r) →
  Sorted (apart (settle_windows pol + 1)) (k :: step_windows n (res_run r l)).
Proof.
  revert r n k. induction l as [|i l IH]; intros r n k Hok Hk; simpl; [by repeat constructor|].
  destruct (res_step_ok pol rs r i Hok) as [Hok' Hst].
  destruct i as [st sp fl now|b|sz]; simpl in *.
  - destruct (res_observe powf r st sp fl now) as [r' [d|]]; simpl in *.
    + destruct Hst as [_ _ _ _ _ Hse _ _ Hs]. constructor; [apply IH; [done|lia]|].
      constructor. unfold apart. lia.
    + apply IH; [done|]. destruct Hst as [_ [->| ->]]; lia.
  - by apply IH.
  - apply IH; [done|]. by destruct (sync_rung_steps sz r) as [_ ->].
Qed.

(** The picture cannot pump: any two steps of a session, in either direction and whatever
    pins and manual sizes come between, are at least [min_step_s] seconds apart, and at least
    [settle_windows] windows pass unread after each. *)
Theorem resolution_paced pol rs ceiling start l :
  0 < min_step_s pol →
  Sorted (apart (min_step_s pol * SECOND)) (step_times (res_run (resolution_new pol rs ceiling start) l)) ∧
  Sorted (apart (settle_windows pol + 1)) (step_windows 0 (res_run (resolution_new pol rs ceiling start) l)).
Proof.
  intros Hm. split.
  - pose proof (res_run_times pol rs _ l Hm (resolution_new_ok pol rs ceiling start)) as H. by inversion H.
  - assert (Sorted (apart (settle_windows pol + 1)) (- settle_windows pol - 1 ::
      step_windows 0 (res_run (resolution_new pol rs ceiling start) l))) as H; [|by inversion H].
    apply (res_run_windows pol rs); [apply resolution_new_ok|simpl; lia].
Qed.
End resolution.

(** ** The planner *)

Lemma direction_hold i : direction i = None → i = IHold.
Proof. by destruct i. Qed.

Section planner.
Context (powf : f64 → f64 → f64).
Implicit Types (p : LadderPlanner) (r : ResolutionRung) (f : FpsRung).

Lemma res_wants_room r st sp fl d :
  res_wants powf r st sp fl = Some d → res_can_step r d = true.
Proof.
  unfold res_wants, res_can_step. pose proof (res_intent_room powf r st sp fl) as Hroom.
  assert (res_active r = false → res_intent powf r st sp fl = IHold) as Hact.
  { intros E. unfold res_intent. by rewrite E. }
  destruct (res_active r); [|rewrite Hact by done; done].
  destruct (res_intent powf r st sp fl); simpl; intros [= <-]; by apply Nat.ltb_lt.
Qed.

Lemma fps_intent_room f st sp fl :
  match fps_intent f st sp fl with
  | IEmergency | IEngage => is_active f = true ∧ (s_current (f_steps f) < length (f_rates f) - 1)%nat
  | IRecover => is_active f = true ∧ (0 < s_current (f_steps f))%nat
  | IHold => True
  end.
Proof.
  unfold fps_intent. destruct (is_active f) eqn:Ea; simpl; [|done].
  destruct (Nat.ltb_spec (s_current (f_steps f)) (length (f_rates f) - 1)), (Nat.ltb_spec 0 (s_current (f_steps f)));
    rewrite ?andb_true_r, ?andb_false_r; by repeat case_match.
Qed.

Lemma fps_wants_room f st sp fl d : fps_wants f st sp fl = Some d → fps_can_step f d = true.
Proof.
  unfold fps_wants, fps_can_step. pose proof (fps_intent_room f st sp fl) as Hroom.
  destruct (fps_intent f st sp fl); simpl; intros [= <-]; destruct Hroom as [-> ?]; by apply Nat.ltb_lt.
Qed.

Lemma res_observe_hold r st sp fl now :
  res_wants powf r st sp fl = None → (res_observe powf r st sp fl now).2 = None.
Proof.
  intros H%direction_hold. unfold res_observe. rewrite H.
  pose proof (window_spec (r_policy r) (res_active r) st IHold now (r_steps r)) as Hw.
  destruct (window _ _ _ _ _ _) as [s' [[to why]|]]; simpl in *; [|done]. by destruct Hw.
Qed.

Lemma fps_observe_hold f st sp fl now :
  fps_wants f st sp fl = None → (fps_observe f st sp fl now).2 = None.
Proof.
  intros H%direction_hold. unfold fps_observe. rewrite H.
  pose proof (window_spec (f_policy f) (is_active f) st IHold now (f_steps f)) as Hw.
  destruct (window _ _ _ _ _ _) as [s' [[to why]|]]; simpl in *; [|done]. by destruct Hw.
Qed.

(** Which way a step went, by the intent of the rung that took it. *)
Lemma res_observe_dir r st sp fl now d :
  (res_observe powf r st sp fl now).2 = Some d →
  ∃ dir, res_wants powf r st sp fl = Some dir ∧ (sd_reason d = Recover ↔ dir = DirUp).
Proof.
  unfold res_observe, res_wants.
  pose proof (window_spec (r_policy r) (res_active r) st (res_intent powf r st sp fl) now (r_steps r)) as Hw.
  destruct (window _ _ _ _ _ _) as [s' [[to why]|]]; simpl in *; [|done]. intros [= <-]. simpl.
  destruct Hw as [_ _ _ _ _ _ _ _ _ Hwhy]. destruct (res_intent powf r st sp fl); simpl in *; [..|done];
    destruct Hwhy as [-> _]; eexists; split; [done|done|done|done|done|done].
Qed.

Lemma fps_observe_dir f st sp fl now d :
  (fps_observe f st sp fl now).2 = Some d →
  ∃ dir, fps_wants f st sp fl = Some dir ∧ (sd_reason d = Recover ↔ dir = DirUp).
Proof.
  unfold fps_observe, fps_wants.
  pose proof (window_spec (f_policy f) (is_active f) st (fps_intent f st sp fl) now (f_steps f)) as Hw.
  destruct (window _ _ _ _ _ _) as [s' [[to why]|]]; simpl in *; [|done]. intros [= <-]. simpl.
  destruct Hw as [_ _ _ _ _ _ _ _ _ Hwhy]. destruct (fps_intent f st sp fl); simpl in *; [..|done];
    destruct Hwhy as [-> _]; eexists; split; [done|done|done|done|done|done].
Qed.

(** With at most two rates, a frame-rate rung that can move one way never wants the other. *)
Lemma fps_wants_unique f st sp fl d1 d2 :
  (length (f_rates f) <= 2)%nat →
  fps_can_step f d1 = true → fps_wants f st sp fl = Some d2 → d1 = d2.
Proof.
  intros Hlen H1 H2%fps_wants_room. unfold fps_can_step in *.
  apply andb_true_iff in H1 as [_ H1], H2 as [_ H2].
  destruct d1, d2; try done; apply Nat.ltb_lt in H1, H2; lia.
Qed.

(** One lever per window: a window moves at most one of the two rungs, the other is not
    even counted; the step goes the way the window asked for; a window that asks for nothing
    moves nothing, and a window that asks finds a lever unless one was retired, so neither of
    the planner's debug assertions can fail. *)
Theorem planner_one_lever p st sp fl now :
  (length (f_rates (p_fps p)) <= 2)%nat →
  match (planner_observe powf p st sp fl now).2 with
  | Some (Resolution d) => p_fps (planner_observe powf p st sp fl now).1 = p_fps p ∧
      ∃ dir, window_dir powf p st sp fl = Some dir ∧ lever_for p dir = Some LRes ∧
        (sd_reason d = Recover ↔ dir = DirUp)
  | Some (Fps d) => p_res (planner_observe powf p st sp fl now).1 = p_res p ∧
      ∃ dir, window_dir powf p st sp fl = Some dir ∧ lever_for p dir = Some LFps ∧
        (sd_reason d = Recover ↔ dir = DirUp)
  | None => True
  end ∧
  (window_dir powf p st sp fl = None → (planner_observe powf p st sp fl now).2 = None) ∧
  (∀ dir, window_dir powf p st sp fl = Some dir → lever_for p dir = None →
     res_retired p = true ∨ fps_retired p = true).
Proof.
  intros Hlen. split_and!.
  - unfold planner_observe. destruct (window_dir powf p st sp fl) as [dir|] eqn:Ed.
    + destruct (lever_for p dir) as [[]|] eqn:El; [| |done].
      * pose proof (res_observe_dir (p_res p) st sp fl now) as Hr.
        destruct (res_observe _ _ _ _ _ _) as [r' [d|]]; simpl in *; [|done]. split; [done|].
        destruct (Hr d eq_refl) as (dir' & Hw & Hd). exists dir. split_and!; [done|done|].
        unfold window_dir in Ed. rewrite Hw in Ed. by injection Ed as <-.
      * pose proof (fps_observe_dir (p_fps p) st sp fl now) as Hr.
        destruct (fps_observe _ _ _ _ _) as [f' [d|]]; simpl in *; [|done]. split; [done|].
        destruct (Hr d eq_refl) as (dir' & Hw & Hd). exists dir. split_and!; [done|done|].
        apply find_first_Some in El as [_ El]. simpl in El. rewrite !andb_true_iff in El.
        by rewrite (fps_wants_unique (p_fps p) st sp fl dir dir' Hlen) by apply El || done.
    + unfold window_dir in Ed. destruct (res_wants powf (p_res p) st sp fl) eqn:Ew; [done|].
      pose proof (res_observe_hold (p_res p) st sp fl now Ew) as Hr.
      destruct (res_observe _ _ _ _ _ _) as [r' a]; simpl in *. subst a.
      destruct (fps_rung_active p && negb (fps_retired p)); [|done].
      by rewrite (fps_observe_hold (p_fps p) st sp fl now Ed).
  - unfold planner_observe. intros Ed. rewrite Ed. unfold window_dir in Ed.
    destruct (res_wants powf (p_res p) st sp fl) eqn:Ew; [done|].
    pose proof (res_observe_hold (p_res p) st sp fl now Ew) as Hr.
    destruct (res_observe _ _ _ _ _ _) as [r' a]; simpl in *. subst a.
    destruct (fps_rung_active p && negb (fps_retired p)); [|done].
    by rewrite (fps_observe_hold (p_fps p) st sp fl now Ed).
  - intros dir Ed El. apply find_first_None in El.
    assert (planner_can_step p dir LRes = false ∧ planner_can_step p dir LFps = false) as [E1 E2].
    { rewrite Forall_forall in El. split; apply El; destruct dir;
        [unfold down_priority|unfold up_priority|unfold down_priority|unfold up_priority];
        repeat case_match; set_solver. }
    simpl in E1, E2. unfold window_dir in Ed. destruct (res_wants powf (p_res p) st sp fl) as [d'|] eqn:Ew.
    + injection Ed as ->. apply res_wants_room in Ew. rewrite Ew, andb_true_r in E1. left. by apply negb_false_iff.
    + destruct (fps_rung_active p && negb (fps_retired p)) eqn:Ea; [|done].
      apply fps_wants_room in Ed. rewrite Ed, andb_true_r, andb_comm, Ea in E2. done.
Qed.
End planner.

(** ** Unwinding *)

Definition shift_steps (f : nat → nat) (s : Steps) : Steps :=
  mkSteps (f (s_current s)) (engage_run s) (recover_run s) (settle_left s) (last_step s) (pinned s).

(** The planner with one rung moved. *)
Definition shift (l : Lever) (f : nat → nat) (p : LadderPlanner) : LadderPlanner :=
  match l with
  | LRes => with_rungs (with_r_steps (shift_steps f (r_steps (p_res p))) (p_res p)) (p_fps p) p
  | LFps => with_rungs (p_res p) (with_f_steps (shift_steps f (f_steps (p_fps p))) (p_fps p)) p
  end.

(** What a session engaged, the latest lever first, each the one the planner chooses. *)
Inductive engaged (p0 : LadderPlanner) : list Lever → LadderPlanner → Prop :=
| engaged_none : engaged p0 [] p0
| engaged_step ls p l : engaged p0 ls p → lever_for p DirDown = Some l → engaged p0 (l :: ls) (shift l S p).

Lemma shift_back l p : shift l pred (shift l S p) = p.
Proof. destruct p as [[? ? ? ? ? []] [? ? ? []] ? ? ? ?], l; done. Qed.

(** The heights [hybrid] relies on: they shrink, and the ladder does not jump over the pivot. *)
Definition pivot_kept (rs : list (Z * Z)) : Prop :=
  ∀ i a b, rs !! i = Some a → rs !! S i = Some b →
    b.2 < a.2 ∧ (HYBRID_PIVOT_HEIGHT < a.2 → b.2 <= HYBRID_PIVOT_HEIGHT → b.2 = HYBRID_PIVOT_HEIGHT).

Definition res_pos (p : LadderPlanner) : nat := s_current (r_steps (p_res p)).
Definition fps_pos (p : LadderPlanner) : nat := s_current (f_steps (p_fps p)).
Definition height (p : LadderPlanner) : Z := (size (p_res p)).2.
Definition room (p : LadderPlanner) (l : Lever) : bool := planner_can_step p DirDown l.

Section unwinding.
Context (cfg : LadderConfig) (rs : list (Z * Z)) (launch_fps ceiling start : Z).

Let p0 := planner_new cfg rs launch_fps ceiling start.

(** What engaging keeps, for each order. *)
Record unwinding (p : LadderPlanner) : Prop := mkUnwinding {
  un_order : p_order p = lc_order cfg;
  un_rates : (length (f_rates (p_fps p)) <= 2)%nat;
  un_retired : res_retired p = false ∧ fps_retired p = false;
  un_rungs : rungs (p_res p) = rs ∧ floor_rung (p_res p) = deepest (lc_res cfg) 0 0 rs;
  un_range : (res_pos p < Nat.max 1 (length rs))%nat;
  un_by_order : match lc_order cfg with
    | ResFirst => (0 < fps_pos p)%nat → room p LRes = false
    | FpsFirst => (0 < res_pos p)%nat → room p LFps = false
    | Hybrid => ((0 < res_pos p)%nat → height p < HYBRID_PIVOT_HEIGHT → room p LFps = false) ∧
                (HYBRID_PIVOT_HEIGHT < height p → (0 < fps_pos p)%nat → room p LRes = false)
    end }.

Lemma unwinding_new : unwinding p0.
Proof.
  split; try done; [simpl; case_match; simpl; lia|change (res_pos p0) with 0%nat; lia|].
  assert (res_pos p0 = 0%nat ∧ fps_pos p0 = 0%nat) as [-> ->] by done.
  destruct (lc_order cfg); [split|..]; intros; lia.
Qed.

Lemma res_can_step_spec r d :
  res_can_step r d = true ↔ (2 <= length (rungs r))%nat ∧
    match d with
    | DirDown => (s_current (r_steps r) < floor_rung r)%nat
    | DirUp => (0 < s_current (r_steps r))%nat
    end.
Proof. unfold res_can_step, res_active. rewrite andb_true_iff, Nat.leb_le. destruct d; by rewrite Nat.ltb_lt. Qed.

Lemma room_res p : room p LRes = true → (2 <= length (rungs (p_res p)))%nat ∧ (res_pos p < floor_rung (p_res p))%nat.
Proof. unfold room, planner_can_step. rewrite andb_true_iff, res_can_step_spec. naive_solver. Qed.

(** Moving one rung leaves the other's room alone. *)
Lemma room_other p f :
  room (shift LRes f p) LFps = room p LFps ∧ room (shift LFps f p) LRes = room p LRes.
Proof. done. Qed.

Lemma up_res p : unwinding p → room p LRes = true → planner_can_step (shift LRes S p) DirUp LRes = true.
Proof.
  intros [_ _ [Hr _] _ _ _] [Hlen _]%room_res. unfold planner_can_step. rewrite andb_true_iff, res_can_step_spec.
  split_and!; [simpl; by rewrite Hr|done|simpl; lia].
Qed.

Lemma up_fps p : room p LFps = true → planner_can_step (shift LFps S p) DirUp LFps = true.
Proof.
  unfold room, planner_can_step, fps_can_step. rewrite !andb_true_iff. intros [[H1 H2] [H3 _]].
  by split_and!.
Qed.

Lemma up_res_none p l f : res_pos (shift l f p) = 0%nat → planner_can_step (shift l f p) DirUp LRes = false.
Proof.
  unfold res_pos, planner_can_step, res_can_step. intros ->. simpl. by rewrite !andb_false_r.
Qed.

Lemma up_fps_none p l f : fps_pos (shift l f p) = 0%nat → planner_can_step (shift l f p) DirUp LFps = false.
Proof.
  unfold fps_pos, planner_can_step, fps_can_step. intros ->. simpl. by rewrite !andb_false_r.
Qed.

Lemma find_two {A} (g : A → bool) a b x :
  find_first g [a; b] = Some x → (g a = true ∧ x = a) ∨ (g a = false ∧ g b = true ∧ x = b).
Proof. simpl. destruct (g a), (g b); naive_solver. Qed.

(** The heights of two neighbours. *)
Lemma height_next p :
  unwinding p → room p LRes = true → pivot_kept rs →
  height (shift LRes S p) < height p ∧
  (HYBRID_PIVOT_HEIGHT < height p → height (shift LRes S p) <= HYBRID_PIVOT_HEIGHT →
   height (shift LRes S p) = HYBRID_PIVOT_HEIGHT).
Proof.
  intros [_ _ _ [Er Ef] Hrange _] [Hlen Hroom]%room_res Hp. rewrite Er in Hlen. rewrite Ef in Hroom.
  pose proof (deepest_bound (lc_res cfg) 0 0 rs (le_n 0)) as Hd.
  destruct (lookup_lt_is_Some_2 rs (res_pos p)) as [a Ha]; [lia|].
  destruct (lookup_lt_is_Some_2 rs (S (res_pos p))) as [b Hb]; [lia|].
  specialize (Hp _ _ _ Ha Hb). unfold height, size. simpl. rewrite Er.
  unfold res_pos in Ha, Hb. by rewrite Ha, Hb.
Qed.

(** One engaged step keeps the invariant, and is the one recovery would undo. *)
Lemma engage_step p l :
  unwinding p → (lc_order cfg = Hybrid → pivot_kept rs) → lever_for p DirDown = Some l →
  unwinding (shift l S p) ∧ lever_for (shift l S p) DirUp = Some l.
Proof.
  intros Hun Hpk Hl. pose proof (up_res p Hun) as Hur. pose proof (up_fps p) as Huf.
  pose proof (height_next p Hun) as Hh.
  destruct Hun as [Ho Hrates [Hr1 Hr2] [Er Ef] Hrange Hby].
  assert (room p l = true) as Hroom by (by apply find_first_Some in Hl as [_ Hl]).
  assert (l = LRes → (res_pos (shift l S p) < Nat.max 1 (length rs))%nat) as Hrange'.
  { intros ->. apply room_res in Hroom as [_ Hroom]. rewrite Ef in Hroom.
    pose proof (deepest_bound (lc_res cfg) 0 0 rs (le_n 0)). unfold res_pos in *. simpl. lia. }
  unfold lever_for, down_priority in Hl. rewrite Ho in Hl.
  assert (∀ q, p_order q = p_order p → lever_for q DirUp = find_first (planner_can_step q DirUp)
    match lc_order cfg with
    | ResFirst => [LFps; LRes] | FpsFirst => [LRes; LFps]
    | Hybrid => if (0 <? fps_pos q)%nat && (HYBRID_PIVOT_HEIGHT <=? height q) then [LFps; LRes] else [LRes; LFps]
    end) as Hup.
  { intros q Hq. unfold lever_for, up_priority. by rewrite Hq, Ho. }
  rewrite (Hup (shift l S p)) by (by destruct l). clear Hup.
  assert (unwinding (shift l S p) ↔ match lc_order cfg with
    | ResFirst => (0 < fps_pos (shift l S p))%nat → room (shift l S p) LRes = false
    | FpsFirst => (0 < res_pos (shift l S p))%nat → room (shift l S p) LFps = false
    | Hybrid => ((0 < res_pos (shift l S p))%nat → height (shift l S p) < HYBRID_PIVOT_HEIGHT →
                   room (shift l S p) LFps = false) ∧
                (HYBRID_PIVOT_HEIGHT < height (shift l S p) → (0 < fps_pos (shift l S p))%nat →
                   room (shift l S p) LRes = false) end) as ->.
  { split; [by intros []|]. intros H. split; try by destruct l. destruct l; [by apply Hrange'|done]. }
  destruct (lc_order cfg) eqn:Eo.
  - specialize (Hpk eq_refl). destruct Hby as [Hb1 Hb2]. unfold at_or_below_pivot in Hl. fold (height p) in Hl.
    destruct (Z.leb_spec (height p) HYBRID_PIVOT_HEIGHT) as [Hle|Hgt]; apply find_two in Hl as [[Hg ->]|(Hg & Hg' & ->)].
    + (* fps at or below the pivot *)
      change (height (shift LFps S p)) with (height p). change (res_pos (shift LFps S p)) with (res_pos p).
      assert ((0 < res_pos p)%nat → HYBRID_PIVOT_HEIGHT <= height p) as Hge.
      { intros H0. destruct (Z.le_gt_cases HYBRID_PIVOT_HEIGHT (height p)); [done|].
        unfold room in Hb1. rewrite Hb1 in Hg by lia. done. }
      split; [split; intros; lia|]. change (fps_pos (shift LFps S p)) with (S (fps_pos p)). cbn [Nat.ltb Nat.leb andb].
      destruct (Z.leb_spec HYBRID_PIVOT_HEIGHT (height p)); cbn [find_first]; [by rewrite Huf|].
      rewrite (up_res_none p LFps S); [by rewrite Huf|]. change (res_pos p = 0%nat). lia.
    + destruct (Hh Hroom Hpk) as [Hlt _]. specialize (Hur Hroom).
      split; [split; [by intros _ _|lia]|].
      rewrite (proj2 (Z.leb_gt _ _)) by lia. rewrite andb_false_r. cbn [find_first]. by rewrite Hur.
    + destruct (Hh Hroom Hpk) as [Hlt Hpiv]. specialize (Hur Hroom).
      assert (fps_pos p = 0%nat) as H0.
      { destruct (fps_pos p) eqn:E0; [done|]. unfold room in Hb2. rewrite Hb2 in Hg by lia. done. }
      change (fps_pos (shift LRes S p)) with (fps_pos p). rewrite H0. cbn [Nat.ltb Nat.leb andb find_first].
      rewrite Hur. split; [|done]. split; [|lia]. intros _ Hlow. lia.
    + change (height (shift LFps S p)) with (height p). change (res_pos (shift LFps S p)) with (res_pos p).
      split; [split; [lia|by intros _ _]|]. change (fps_pos (shift LFps S p)) with (S (fps_pos p)).
      cbn [Nat.ltb Nat.leb andb]. rewrite (proj2 (Z.leb_le _ _)) by lia. cbn [find_first]. by rewrite Huf.
  - apply find_two in Hl as [[Hg ->]|(Hg & Hg' & ->)].
    + assert (fps_pos p = 0%nat) as H0. { destruct (fps_pos p) eqn:E0; [done|]. unfold room in Hby. rewrite Hby in Hg; [done|lia]. }
      split; [intros H; change (fps_pos (shift LRes S p)) with (fps_pos p) in H; lia|].
      cbn [find_first]. rewrite (up_fps_none p LRes S H0). by rewrite Hur.
    + split; [done|]. cbn [find_first]. by rewrite Huf.
  - apply find_two in Hl as [[Hg ->]|(Hg & Hg' & ->)].
    + assert (res_pos p = 0%nat) as H0. { destruct (res_pos p) eqn:E0; [done|]. unfold room in Hby. rewrite Hby in Hg; [done|lia]. }
      split; [intros H; change (res_pos (shift LFps S p)) with (res_pos p) in H; lia|].
      cbn [find_first]. rewrite (up_res_none p LFps S H0). by rewrite Huf.
    + split; [done|]. cbn [find_first]. by rewrite Hur.
Qed.
End unwinding.

Lemma engaged_unwinding cfg rs launch_fps ceiling start ls p :
  (lc_order cfg = Hybrid → pivot_kept rs) →
  engaged (planner_new cfg rs launch_fps ceiling start) ls p → unwinding cfg rs p.
Proof. intros Hpk. induction 1 as [|ls p l _ IH Hl]; [apply unwinding_new|]. by eapply engage_step. Qed.

(** Recovery picks the lever engaged last, and undoing it leads back to the planner before. *)
Lemma engaged_back cfg rs launch_fps ceiling start l ls p :
  (lc_order cfg = Hybrid → pivot_kept rs) →
  engaged (planner_new cfg rs launch_fps ceiling start) (l :: ls) p →
  lever_for p DirUp = Some l ∧
  engaged (planner_new cfg rs launch_fps ceiling start) ls (shift l pred p).
Proof.
  intros Hpk He. inversion He as [|ls' p' l' He' Hl]; subst.
  rewrite shift_back. split; [|done]. eapply engage_step; [|done|done]. by eapply engaged_unwinding.
Qed.

(** Two planners at the same positions, whatever their dwell, settle, clock and pin. *)
Record same_place (p q : LadderPlanner) : Prop := mkSamePlace {
  sp_res : p_res q = with_r_steps (r_steps (p_res q)) (p_res p);
  sp_fps : p_fps q = with_f_steps (f_steps (p_fps q)) (p_fps p);
  sp_res_pos : res_pos q = res_pos p;
  sp_fps_pos : fps_pos q = fps_pos p;
  sp_order : p_order q = p_order p;
  sp_enabled : p_fps_enabled q = p_fps_enabled p;
  sp_retired : res_retired q = res_retired p ∧ fps_retired q = fps_retired p }.

Lemma same_place_lever p q d : same_place p q → lever_for q d = lever_for p d.
Proof.
  destruct p as [[? ? ? ? ? []] [? ? ? []] ? ? ? ?], q as [[? ? ? ? ? []] [? ? ? []] ? ? ? ?].
  intros [H1 H2 H3 H4 H5 H6 [H7 H8]]. unfold res_pos, fps_pos in *. simpl in *.
  injection H1. injection H2. intros. subst. reflexivity.
Qed.

Lemma same_place_refl p : same_place p p.
Proof. by destruct p as [[] [] ? ? ? ?]. Qed.

Lemma same_place_trans p q r : same_place p q → same_place q r → same_place p r.
Proof.
  intros [H1 H2 H3 H4 H5 H6 [H7 H8]] [K1 K2 K3 K4 K5 K6 [K7 K8]]. split; try congruence; [..|split; congruence].
  - rewrite K1. by rewrite H1.
  - rewrite K2. by rewrite H2.
Qed.

(** One window as positions: nothing moves, or the lever that was picked moves by one. *)
Definition moved (s : PlannedStep) : Lever := match s with Resolution _ => LRes | Fps _ => LFps end.
Definition step_reason (s : PlannedStep) : StepReason :=
  match s with Resolution d | Fps d => sd_reason d end.

Lemma res_observe_place powf r st sp fl now :
  let o := res_observe powf r st sp fl now in
  o.1 = with_r_steps (r_steps o.1) r ∧
  s_current (r_steps o.1) = match o.2 with
    | None => s_current (r_steps r)
    | Some d => if bool_decide (sd_reason d = Recover) then pred (s_current (r_steps r)) else S (s_current (r_steps r))
    end.
Proof.
  unfold res_observe. simpl.
  pose proof (window_spec (r_policy r) (res_active r) st (res_intent powf r st sp fl) now (r_steps r)) as Hw.
  destruct (window _ _ _ _ _ _) as [s' [[to why]|]]; simpl in *; (split; [done|]); [|by destruct Hw].
  destruct Hw as [_ _ _ _ _ -> _ _ _ Hwhy]. destruct (res_intent powf r st sp fl); [..|done];
    destruct Hwhy as [-> ->]; case_bool_decide; try done; lia.
Qed.

Lemma fps_observe_place f st sp fl now :
  let o := fps_observe f st sp fl now in
  o.1 = with_f_steps (f_steps o.1) f ∧
  s_current (f_steps o.1) = match o.2 with
    | None => s_current (f_steps f)
    | Some d => if bool_decide (sd_reason d = Recover) then pred (s_current (f_steps f)) else S (s_current (f_steps f))
    end.
Proof.
  unfold fps_observe. simpl.
  pose proof (window_spec (f_policy f) (is_active f) st (fps_intent f st sp fl) now (f_steps f)) as Hw.
  destruct (window _ _ _ _ _ _) as [s' [[to why]|]]; simpl in *; (split; [done|]); [|by destruct Hw].
  destruct Hw as [_ _ _ _ _ -> _ _ _ Hwhy]. destruct (fps_intent f st sp fl); [..|done];
    destruct Hwhy as [-> ->]; case_bool_decide; try done; lia.
Qed.

(** A session between two manual sizes: windows, and pins that come and go. *)
Inductive planner_input :=
| PWindow (st : AdaptationState) (setpoint floor : f64) (now : Z)
| PPin (b : bool).

Section session.
Context (powf : f64 → f64 → f64).

Definition planner_step (p : LadderPlanner) (i : planner_input) : LadderPlanner * option PlannedStep :=
  match i with
  | PWindow st sp fl now => planner_observe powf p st sp fl now
  | PPin b => (set_pinned b p, None)
  end.

Fixpoint planner_steps (p : LadderPlanner) (l : list planner_input) : list PlannedStep :=
  match l with
  | [] => []
  | i :: l' => let (p', o) := planner_step p i in
               match o with Some s => s :: planner_steps p' l' | None => planner_steps p' l' end
  end.

(** Every recovery takes back the step on top of [stack], the latest not yet taken back. *)
Fixpoint unwinds (stack : list Lever) (steps : list PlannedStep) : Prop :=
  match steps with
  | [] => True
  | s :: steps' =>
      if bool_decide (step_reason s = Recover)
      then match stack with l :: ls => l = moved s ∧ unwinds ls steps' | [] => False end
      else unwinds (moved s :: stack) steps'
  end.

Lemma with_f_steps_id f : f = with_f_steps (f_steps f) f.
Proof. by destruct f. Qed.

Lemma with_r_steps_id r : r = with_r_steps (r_steps r) r.
Proof. by destruct r. Qed.

(** Solves [same_place] of planners built from each other, from what is known of the new rungs. *)
Local Ltac same_place := split; simpl; try done; auto using with_f_steps_id, with_r_steps_id.

(** How one window moves a planner: not at all, or the lever chosen for its direction by one. *)
Lemma planner_step_place p i :
  (length (f_rates (p_fps p)) <= 2)%nat →
  match (planner_step p i).2 with
  | None => same_place p (planner_step p i).1
  | Some s => let dir := if bool_decide (step_reason s = Recover) then DirUp else DirDown in
      lever_for p dir = Some (moved s) ∧
      same_place (shift (moved s) (if bool_decide (step_reason s = Recover) then pred else S) p) (planner_step p i).1
  end.
Proof.
  intros Hlen. destruct i as [st sp fl now|b]; [|by destruct p as [[] [] ? ? ? ?]].
  unfold planner_step, planner_observe.
  pose proof (res_observe_place powf (p_res p) st sp fl now) as [Hr Hrp].
  pose proof (fps_observe_place (p_fps p) st sp fl now) as [Hf Hfp].
  destruct (window_dir powf p st sp fl) as [dir|] eqn:Ed.
  - destruct (lever_for p dir) as [[]|] eqn:El; [| |apply same_place_refl].
    + pose proof (res_observe_dir powf (p_res p) st sp fl now) as Hd.
      destruct (res_observe _ _ _ _ _ _) as [r' [d|]]; simpl in *; [|same_place].
      destruct (Hd d eq_refl) as (dir' & Hw & Hdir). unfold window_dir in Ed. rewrite Hw in Ed. injection Ed as <-.
      destruct dir'; case_bool_decide; try naive_solver; (split; [done|same_place]).
    + pose proof (fps_observe_dir (p_fps p) st sp fl now) as Hd.
      destruct (fps_observe _ _ _ _ _) as [f' [d|]]; simpl in *; [|same_place].
      destruct (Hd d eq_refl) as (dir' & Hw & Hdir).
      pose proof El as El'. apply find_first_Some in El' as [_ El']. simpl in El'. rewrite !andb_true_iff in El'.
      rewrite <- (fps_wants_unique (p_fps p) st sp fl dir dir' Hlen) in Hdir by apply El' || done.
      destruct dir; case_bool_decide; try naive_solver; (split; [done|same_place]).
  - unfold window_dir in Ed. destruct (res_wants powf (p_res p) st sp fl) eqn:Ew; [done|].
    pose proof (res_observe_hold powf (p_res p) st sp fl now Ew) as Ha.
    destruct (res_observe _ _ _ _ _ _) as [r' a]; simpl in *. subst a.
    destruct (fps_rung_active p && negb (fps_retired p)).
    + rewrite (fps_observe_hold (p_fps p) st sp fl now Ed) in Hfp |- *. simpl. same_place.
    + same_place.
Qed.

(** What [stack] says of a planner: those levers, in that order, lead from the launch to where it is. *)
Definition stands (p0 : LadderPlanner) (stack : list Lever) (p : LadderPlanner) : Prop :=
  ∃ q, engaged p0 stack q ∧ same_place q p.

Lemma same_place_shift l f p q : same_place p q → same_place (shift l f p) (shift l f q).
Proof.
  destruct p as [[? ? ? ? ? []] [? ? ? []] ? ? ? ?], q as [[? ? ? ? ? []] [? ? ? []] ? ? ? ?].
  intros [H1 H2 H3 H4 H5 H6 [H7 H8]]. unfold res_pos, fps_pos in *. simpl in *.
  injection H1. injection H2. intros. subst. by destruct l.
Qed.

Lemma launch_cannot_recover cfg rs launch_fps ceiling start :
  lever_for (planner_new cfg rs launch_fps ceiling start) DirUp = None.
Proof.
  unfold lever_for, up_priority. simpl. destruct (lc_order cfg); simpl;
    unfold fps_can_step, res_can_step; simpl; by rewrite !andb_false_r.
Qed.

Lemma stands_step cfg rs launch_fps ceiling start stack p i :
  (lc_order cfg = Hybrid → pivot_kept rs) →
  let p0 := planner_new cfg rs launch_fps ceiling start in
  stands p0 stack p →
  match (planner_step p i).2 with
  | None => stands p0 stack (planner_step p i).1
  | Some s => if bool_decide (step_reason s = Recover)
      then ∃ ls, stack = moved s :: ls ∧ stands p0 ls (planner_step p i).1
      else stands p0 (moved s :: stack) (planner_step p i).1
  end.
Proof.
  intros Hpk p0 (q & Hq & Hs).
  pose proof (engaged_unwinding cfg rs launch_fps ceiling start stack q Hpk Hq) as Hun.
  pose proof (planner_step_place p i) as Hstep. rewrite (sp_fps _ _ Hs) in Hstep.
  specialize (Hstep (un_rates _ _ _ Hun)).
  destruct (planner_step p i) as [p' [s|]]; simpl in *;
    [|by exists q; split; [|by eapply same_place_trans]].
  rewrite (same_place_lever q p) in Hstep by done. destruct Hstep as [Hl Hp].
  case_bool_decide as Hr.
  - destruct stack as [|l ls].
    + inversion Hq; subst q. unfold p0 in Hl. by rewrite launch_cannot_recover in Hl.
    + pose proof (engaged_back cfg rs launch_fps ceiling start l ls q Hpk Hq) as [Hl' Hq'].
      rewrite Hl in Hl'. injection Hl' as <-. exists ls. split; [done|].
      exists (shift (moved s) pred q). split; [done|]. eapply same_place_trans; [|done]. by apply same_place_shift.
  - exists (shift (moved s) S q). split; [by apply engaged_step|].
    eapply same_place_trans; [|done]. by apply same_place_shift.
Qed.

Lemma stands_unwinds cfg rs launch_fps ceiling start stack p l :
  (lc_order cfg = Hybrid → pivot_kept rs) →
  stands (planner_new cfg rs launch_fps ceiling start) stack p → unwinds stack (planner_steps p l).
Proof.
  intros Hpk. revert stack p. induction l as [|i l IH]; intros stack p Hs; [done|]. cbn [planner_steps].
  pose proof (stands_step cfg rs launch_fps ceiling start stack p i Hpk Hs) as Hst. simpl in Hst.
  destruct (planner_step p i) as [p' [s|]]; simpl in *; [|by apply IH].
  case_bool_decide; [destruct Hst as (ls & -> & Hst); split; [done|]|]; by apply IH.
Qed.

(** Recovery unwinds in the exact reverse of the engage order: over any session of windows
    and pins, every recovery step moves the lever of the latest engagement not yet taken back,
    and there always is one. For [hybrid] the ladder's heights must shrink and must not jump
    over the pivot height. *)
Theorem recovery_unwinds cfg rs launch_fps ceiling start l :
  (lc_order cfg = Hybrid → pivot_kept rs) →
  unwinds [] (planner_steps (planner_new cfg rs launch_fps ceiling start) l).
Proof.
  intros Hpk. eapply stands_unwinds; [done|]. eexists. split; [apply engaged_none|apply same_place_refl].
Qed.
End session.

(** ** The floor *)

(** The bitrate floor that follows the rung never leaves its band: at least one kilobit, at
    most the launch floor, never under the hard minimum or the operator's floor unless the
    launch floor itself is, whatever the platform's [powf] returns; with the follow disabled it
    is the launch floor. *)
Theorem floor_for_banded powf f rung_px engaged :
  1 <= launch_floor_kbps f →
  let floor := floor_for powf f rung_px engaged in
  1 <= floor <= launch_floor_kbps f ∧
  Z.min HARD_MIN_KBPS (launch_floor_kbps f) <= floor ∧
  (∀ o, operator_floor_kbps f = Some o → Z.min o (launch_floor_kbps f) <= floor) ∧
  (ff_enabled f = false → floor = launch_floor_kbps f).
Proof.
  intros H. unfold floor_for. destruct (ff_enabled f); simpl; [|split_and!; try done; intros; lia].
  destruct (ff_ceiling_kbps f =? 0); [split_and!; try done; intros; lia|].
  destruct (operator_floor_kbps f); split_and!; try lia; try done; naive_solver lia.
Qed.
