(* ===== verification/LadderExamples.v ===== *)
(** * The ladder, concretely

    Inputs on which the ladder's theorems apply, and the two places where the code's order and
    dwell differ from what its comments say. *)
From S2P Require Import Prelude Float64 Adaptation Rungs Abr Ladder LadderProofs.
Local Open Scope Z_scope.

(** A stand-in for [f64::powf], exact at the exponent one. *)
Definition linear (x k : f64) : f64 := x.

Definition sixteen_nine : list (Z * Z) := [(2560, 1440); (1920, 1080); (1600, 900); (1280, 720)].
Definition sixteen_ten : list (Z * Z) := [(1920, 1200); (1680, 1050); (1440, 900); (1280, 800)].

(** Both are ladders a session gets. *)
Example session_ladders :
  sixteen_nine = available_rungs 2560 1440 ∧ sixteen_ten = available_rungs 1920 1200.
Proof. split; vm_compute; reflexivity. Qed.

Definition with_order (o : LadderOrder) : LadderConfig :=
  mkLadderConfig 2 2 2 true true true default_policy o.

(** ** Witnesses *)

Lemma bias_earned_witness :
  0 <= 1 <= 2 ∧
  (1 = 0 + 1 ∧ streak (is_state EncoderSaturated) 2 [EncoderSaturated; EncoderSaturated] ∨
   1 = 0 - 1 ∧ streak (is_state Healthy) 2 [EncoderSaturated; EncoderSaturated]).
Proof.
  apply (bias_earned ladder_config_new [EncoderSaturated] EncoderSaturated 1); [done|done|done|].
  vm_compute. reflexivity.
Defined.

(** A congested window at the floor steps down at once. *)
Definition congested_window (now : Z) : res_input := RWindow NetworkCongested (f64_of 1000) (f64_of 1000) now.

Definition first_rung : ResolutionRung := resolution_new default_policy sixteen_nine 20000 0.
Definition one_step : ResolutionRung * option StepDecision := res_step linear first_rung (congested_window SECOND).

Lemma sixteen_nine_descending : descending sixteen_nine.
Proof.
  intros i j a b Hij Ha Hb.
  destruct i as [|[|[|[|]]]], j as [|[|[|[|]]]]; simpl in *; simplify_eq; simpl; lia || done.
Qed.

Lemma resolution_steps_bounded_witness :
  0 = 0 ∧ 1 = 1 ∧ 0 <= 1 < 4 ∧ false = false ∧
  (1 = 0 - 1 ∧ Emergency = Recover ∨ 1 = 0 + 1 ∧ Emergency ≠ Recover ∧ 720 <= 1080).
Proof.
  apply (resolution_steps_bounded linear default_policy sixteen_nine 20000 0 [congested_window SECOND]
    first_rung NetworkCongested (f64_of 1000) (f64_of 1000) SECOND one_step.1 (mkStepDecision 0 1 Emergency));
    [apply sixteen_nine_descending|].
  apply elem_of_cons. left. vm_compute. reflexivity.
Defined.

(** Two congested windows ten seconds apart, with the settle window between them. *)
Definition two_steps : list res_input :=
  [congested_window SECOND; congested_window (2 * SECOND); congested_window (11 * SECOND)].

Lemma resolution_paced_witness :
  Sorted (apart (10 * SECOND)) [SECOND; 11 * SECOND] ∧ Sorted (apart 2) [0; 2].
Proof. apply (resolution_paced linear default_policy sixteen_nine 20000 0 two_steps). done. Defined.

Definition hybrid_planner : LadderPlanner := planner_new (with_order Hybrid) sixteen_nine 120 20000 0.

Lemma planner_one_lever_witness :
  lever_for hybrid_planner DirDown = Some LRes.
Proof.
  destruct (planner_one_lever linear hybrid_planner NetworkCongested (f64_of 1000) (f64_of 1000) SECOND)
    as [H _]; [vm_compute; lia|].
  vm_compute in H. destruct H as (_ & [] & [= ] & H & _). exact H.
Defined.

(** Engaged on a 1440p launch at 120 fps: down to the pivot, then the rate, then below it. *)
Lemma sixteen_nine_pivot : pivot_kept sixteen_nine.
Proof.
  intros i a b Ha Hb. destruct i as [|[|[|[|]]]]; simpl in *; simplify_eq; simpl; unfold HYBRID_PIVOT_HEIGHT; lia.
Qed.

(** Three congested windows down, then good ones up, each a step apart. *)
Definition down_and_up : list planner_input :=
  map (λ k, PWindow NetworkCongested (f64_of 1000) (f64_of 1000) (k * SECOND)) [1; 2; 21; 41] ++
  map (λ k, PWindow Healthy (f64_of 20000) (f64_of 1000) (k * SECOND)) [61; 62; 63; 81; 82; 101; 102; 103; 104; 121; 122].

Example down_and_up_levers :
  (λ s, (moved s, step_reason s)) <$> planner_steps linear hybrid_planner down_and_up =
    [(LRes, Emergency); (LFps, Emergency); (LRes, Emergency); (LRes, Recover); (LFps, Recover); (LRes, Recover)].
Proof. vm_compute. reflexivity. Qed.

Lemma recovery_unwinds_witness : unwinds [] (planner_steps linear hybrid_planner down_and_up).
Proof.
  apply (recovery_unwinds linear (with_order Hybrid) sixteen_nine 120 20000 0 down_and_up).
  intros _. apply sixteen_nine_pivot.
Defined.

Definition follow : FloorFollow := mkFloorFollow true 4000 (Some 1500) 20000 (2560 * 1440) (lit 1 0).

Lemma floor_for_banded_witness : 1500 <= floor_for linear follow (1280 * 720) true <= 4000.
Proof.
  destruct (floor_for_banded linear follow (1280 * 720) true) as (H1 & _ & H2 & _); [done|].
  split; [apply (H2 1500); reflexivity|apply H1].
Defined.

(** ** Where the code and its comments part *)

Definition sixteen_ten_planner : LadderPlanner := planner_new (with_order Hybrid) sixteen_ten 120 20000 0.

Definition skipping : list planner_input :=
  map (λ k, PWindow NetworkCongested (f64_of 1000) (f64_of 1000) (k * SECOND)) [1; 2] ++
  map (λ k, PWindow Healthy (f64_of 20000) (f64_of 1000) (k * SECOND)) [61; 62; 63].

(** A 16:10 ladder skips the pivot height, and there recovery is not the reverse of the engage
    order: from 1920x1200 at 120 frames a session that came down by resolution and then by
    frame rate gets the resolution back first. *)
Example reverse_order_needs_the_pivot :
  sixteen_ten = available_rungs 1920 1200 ∧
  ((λ s, (moved s, step_reason s)) <$> planner_steps linear sixteen_ten_planner skipping =
     [(LRes, Emergency); (LFps, Emergency); (LRes, Recover)]) ∧
  ¬ unwinds [] (planner_steps linear sixteen_ten_planner skipping).
Proof. split_and!; [vm_compute; reflexivity..|]. vm_compute. by intros []. Qed.

(** An emergency step leaves the dwell counters alone: one good window before it and one after
    make the two of [recover_dwell], though the congested window came between. *)
Definition good_window (now : Z) : res_input := RWindow Healthy (f64_of 20000) (f64_of 1000) now.

Definition uneven : list res_input :=
  [congested_window SECOND; congested_window (2 * SECOND);      (* down to 1080p, settle *)
   good_window (3 * SECOND);                                    (* recover run 1 *)
   congested_window (20 * SECOND); congested_window (21 * SECOND); (* emergency to 900p, settle *)
   good_window (40 * SECOND)].                                  (* recover run 2: up *)

Example dwell_survives_emergency :
  (λ x, x.2) <$> res_run linear first_rung uneven =
    [Some (mkStepDecision 0 1 Emergency); None; None; Some (mkStepDecision 1 2 Emergency); None;
     Some (mkStepDecision 2 1 Recover)].
Proof. vm_compute. reflexivity. Qed.
