(* ===== verification/Readiness.v ===== *)
(** * The readiness report

    [src/readiness/report.rs]: the latest local refresh merged with the checks that outlive it.
    A [SystemTime] is its nanoseconds since the epoch. *)
From S2P Require Import Prelude.
From stdpp Require Import gmap.

Definition PASS : string := "pass".
Definition FAIL : string := "fail".
Definition SKIP : string := "skip".
Definition WARN : string := "warn".
Definition UNKNOWN : string := "unknown".
Definition UNSUPPORTED : string := "unsupported".

Record ReadinessBlocks := mkBlocks { bl_scope : string; bl_gpu_index : option Z; bl_enforced_by : string }.

#[global] Instance ReadinessBlocks_eq_dec : EqDecision ReadinessBlocks.
Proof. solve_decision. Defined.

(** [ReadinessBlocks::host], [ReadinessBlocks::gpu] *)
Definition blocks_host (by_ : string) : ReadinessBlocks := mkBlocks "host" None by_.
Definition blocks_gpu (index : Z) (by_ : string) : ReadinessBlocks := mkBlocks "gpu" (Some index) by_.

Record ReadinessCheck := mkCheck {
  ck_id : string; ck_status : string; ck_summary : string; ck_remediation : string;
  ck_observed_at : option string; ck_source : option string; ck_blocks : option ReadinessBlocks }.

#[global] Instance ReadinessCheck_eq_dec : EqDecision ReadinessCheck.
Proof. solve_decision. Defined.

Definition stamped (at_ : option string) (c : ReadinessCheck) : ReadinessCheck :=
  mkCheck (ck_id c) (ck_status c) (ck_summary c) (ck_remediation c) at_ (ck_source c) (ck_blocks c).

Definition REFRESH_WARNING_ID : string := "readiness_probe".
Definition refresh_warning : ReadinessCheck :=
  mkCheck REFRESH_WARNING_ID WARN
    "Host readiness could not be refreshed; previous results are no longer current"
    "The agent will retry automatically. Check its logs if this persists." None None None.

(** ** The time of an observation *)

(** [civil_from_days]: [/] and [%] of the source truncate; every dividend here is at least zero
    except the [era]'s, which is moved down first. *)
Definition civil_from_days (z : Z) : Z * Z * Z :=
  (let z := z + 719468 in
   let era := Z.quot (if 0 <=? z then z else z - 146096) 146097 in
   let doe := z - era * 146097 in
   let yoe := Z.quot (doe - Z.quot doe 1460 + Z.quot doe 36524 - Z.quot doe 146096) 365 in
   let y := yoe + era * 400 in
   let doy := doe - (365 * yoe + Z.quot yoe 4 - Z.quot yoe 100) in
   let mp := Z.quot (5 * doy + 2) 153 in
   let d := doy - Z.quot (153 * mp + 2) 5 + 1 in
   let m := if mp <? 10 then mp + 3 else mp - 9 in
   (if m <=? 2 then y + 1 else y, m, d))%Z.

(** [{n:0width$}] of a number that is not negative. *)
Fixpoint zeros (n : nat) : string := match n with O => EmptyString | S n => String "0" (zeros n) end.
Definition padded (width : nat) (n : Z) : string :=
  let s := pretty n in zeros (width - slen s) +:+ s.

Definition NANOS : Z := 1000000000.

(** [format_observed_at]: a time before the epoch reads as the epoch. *)
Definition format_observed_at (t : Z) : string :=
  (let secs := Z.quot (Z.max 0 t) NANOS in
   let days := Z.quot secs 86400 in
   let rem := Z.rem secs 86400 in
   let '(y, mo, d) := civil_from_days days in
   padded 4 y +:+ "-" +:+ padded 2 mo +:+ "-" +:+ padded 2 d +:+ "T" +:+
   padded 2 (Z.quot rem 3600) +:+ ":" +:+ padded 2 (Z.quot (Z.rem rem 3600) 60) +:+ ":" +:+
   padded 2 (Z.rem rem 60) +:+ "Z")%Z.

(** ** The report *)

Record Retained := mkRetained { rt_check : ReadinessCheck; rt_observed_at : Z }.

Record ReadinessReport := mkReport {
  rr_checks : list ReadinessCheck; rr_checks_observed_at : option Z;
  rr_retained : list Retained; rr_refresh_failed : bool }.

Definition report_new : ReadinessReport := mkReport [] None [] false.

Definition find_check (id : string) (l : list ReadinessCheck) : option ReadinessCheck :=
  snd <$> list_find (λ c, ck_id c = id) l.

Definition MOUNTS_ID : string := "host_container_mounts".

(** The first check of the mounts, replaced by what [f] makes of it. *)
Fixpoint update_first (id : string) (f : ReadinessCheck → ReadinessCheck) (l : list ReadinessCheck) :
  list ReadinessCheck :=
  match l with
  | [] => []
  | c :: l => if str_eqb (ck_id c) id then f c :: l else c :: update_first id f l
  end.

(** [ReadinessReport::refreshed] *)
Definition refreshed (r : ReadinessReport) (checks : list ReadinessCheck) (at_ : Z) : ReadinessReport :=
  let keep incoming :=
    if str_eqb (ck_status incoming) UNKNOWN
    then match find_check MOUNTS_ID (rr_checks r) with
         | Some previous =>
             if str_eqb (ck_status previous) PASS || str_eqb (ck_status previous) FAIL
             then previous else incoming
         | None => incoming
         end
    else incoming in
  mkReport (update_first MOUNTS_ID keep checks) (Some at_) (rr_retained r) false.

Definition refresh_failed (r : ReadinessReport) : ReadinessReport :=
  mkReport (rr_checks r) (rr_checks_observed_at r) (rr_retained r) true.

Fixpoint retain_in (c : ReadinessCheck) (at_ : Z) (l : list Retained) : list Retained :=
  match l with
  | [] => [mkRetained c at_]
  | x :: l =>
      if str_eqb (ck_id (rt_check x)) (ck_id c)
      then (if (rt_observed_at x <=? at_)%Z then mkRetained c at_ else x) :: l
      else x :: retain_in c at_ l
  end.

(** [ReadinessReport::retain] *)
Definition retain (r : ReadinessReport) (c : ReadinessCheck) (at_ : Z) : ReadinessReport :=
  mkReport (rr_checks r) (rr_checks_observed_at r)
    (retain_in (stamped (Some (format_observed_at at_)) c) at_ (rr_retained r)) (rr_refresh_failed r).

Fixpoint find_retained (id : string) (l : list Retained) : option Retained :=
  match l with
  | [] => None
  | x :: l => if str_eqb (ck_id (rt_check x)) id then Some x else find_retained id l
  end.

(** [ReadinessReport::retained] *)
Definition retained (r : ReadinessReport) (id : string) : option ReadinessCheck :=
  rt_check <$> find_retained id (rr_retained r).

(** [ReadinessReport::forget] *)
Definition forget_check (r : ReadinessReport) (id : string) : ReadinessReport :=
  mkReport (rr_checks r) (rr_checks_observed_at r)
    (filter (λ x, ck_id (rt_check x) ≠ id) (rr_retained r)) (rr_refresh_failed r).

(** What [merged] says of one local check. *)
Definition merge_local (r : ReadinessReport) (local : ReadinessCheck) : ReadinessCheck :=
  match retained r (ck_id local) with
  | Some held =>
      if negb (str_eqb (ck_status local) FAIL && negb (str_eqb (ck_status held) FAIL))
      then held else stamped (format_observed_at <$> rr_checks_observed_at r) local
  | None => stamped (format_observed_at <$> rr_checks_observed_at r) local
  end.

(** [ReadinessReport::merged] *)
Definition merged (r : ReadinessReport) : list ReadinessCheck :=
  map (merge_local r) (rr_checks r) ++
  map rt_check (filter (λ x, Forall (λ c, ck_id c ≠ ck_id (rt_check x)) (rr_checks r)) (rr_retained r)) ++
  (if rr_refresh_failed r then [refresh_warning] else []).
