(* ===== verification/Probe.v ===== *)
(** * The host-probe scheduler

    [src/host_probe.rs] and [src/host_probe/decision.rs]: which host probe runs when. The
    scheduler is a state machine without input or output: [step] takes an event to the next
    state and the actions the orchestrator carries out, in order. A [BTreeSet] is a [gset]
    visited in its [Ord]'s order, a [BTreeMap] a [gmap] visited by ascending key. *)
From S2P Require Import Prelude.
From stdpp Require Import gmap sorting.

(** ** Kinds, codecs, targets *)

Inductive ProbeKind := PkInput | PkAudio | PkMedia | PkApplicationGpu.
Inductive ProbeCodec := H265 | Av1.

#[global] Instance ProbeKind_eq_dec : EqDecision ProbeKind.
Proof. solve_decision. Defined.
#[global] Instance ProbeCodec_eq_dec : EqDecision ProbeCodec.
Proof. solve_decision. Defined.

(** The place in the derived order. *)
Definition kind_idx (k : ProbeKind) : nat :=
  match k with PkInput => 0 | PkAudio => 1 | PkMedia => 2 | PkApplicationGpu => 3 end.
Definition codec_idx (c : ProbeCodec) : nat := match c with H265 => 0 | Av1 => 1 end.

#[global] Instance ProbeKind_countable : Countable ProbeKind.
Proof.
  refine (inj_countable' kind_idx
    (λ n, match n with 0 => PkInput | 1 => PkAudio | 2 => PkMedia | _ => PkApplicationGpu end) _).
  by intros [].
Defined.
#[global] Instance ProbeCodec_countable : Countable ProbeCodec.
Proof. refine (inj_countable' codec_idx (λ n, match n with 0 => H265 | _ => Av1 end) _). by intros []. Defined.

(** [ProbeKind::ALL] *)
Definition KIND_ALL : list ProbeKind := [PkInput; PkAudio; PkMedia; PkApplicationGpu].

Definition per_gpu (k : ProbeKind) : bool :=
  match k with PkMedia | PkApplicationGpu => true | _ => false end.

Definition is_container (k : ProbeKind) : bool :=
  match k with PkAudio | PkApplicationGpu => true | _ => false end.

Record ProbeTarget := mkTarget { t_kind : ProbeKind; t_gpu : option Z; t_codec : option ProbeCodec }.

#[global] Instance ProbeTarget_eq_dec : EqDecision ProbeTarget.
Proof. solve_decision. Defined.
#[global] Instance ProbeTarget_countable : Countable ProbeTarget.
Proof.
  refine (inj_countable' (λ t, (t_kind t, t_gpu t, t_codec t)) (λ p, mkTarget p.1.1 p.1.2 p.2) _).
  by intros [].
Defined.

(** [ProbeTarget::host], [ProbeTarget::gpu], [ProbeTarget::codec] *)
Definition host_target (k : ProbeKind) : ProbeTarget := mkTarget k None None.
Definition gpu_target (k : ProbeKind) (index : Z) : ProbeTarget := mkTarget k (Some index) None.
Definition codec_target (index : Z) (c : ProbeCodec) : ProbeTarget := mkTarget PkMedia (Some index) (Some c).

Definition media_floor (t : ProbeTarget) : ProbeTarget := mkTarget (t_kind t) (t_gpu t) None.

(** The derived order of [ProbeTarget]: its fields in turn, [None] before [Some]. *)
Definition cmp_opt {A} (f : A → A → comparison) (x y : option A) : comparison :=
  match x, y with
  | None, None => Eq
  | None, Some _ => Lt
  | Some _, None => Gt
  | Some a, Some b => f a b
  end.
Definition then_cmp (c d : comparison) : comparison := match c with Eq => d | _ => c end.
Definition target_cmp (a b : ProbeTarget) : comparison :=
  then_cmp (Nat.compare (kind_idx (t_kind a)) (kind_idx (t_kind b)))
    (then_cmp (cmp_opt Z.compare (t_gpu a) (t_gpu b))
       (cmp_opt (λ c d, Nat.compare (codec_idx c) (codec_idx d)) (t_codec a) (t_codec b))).
Definition target_le (a b : ProbeTarget) : Prop := target_cmp a b ≠ Gt.
#[global] Instance target_le_dec : RelDecision target_le.
Proof. unfold target_le. intros a b. apply _. Defined.
Definition codec_le (a b : ProbeCodec) : Prop := codec_idx a <= codec_idx b.
#[global] Instance codec_le_dec : RelDecision codec_le.
Proof. unfold codec_le. intros a b. apply _. Defined.
Definition kind_le (a b : ProbeKind) : Prop := kind_idx a <= kind_idx b.
#[global] Instance kind_le_dec : RelDecision kind_le.
Proof. unfold kind_le. intros a b. apply _. Defined.

(** A set or the keys of a map, in order. *)
Definition ordered {A} `{Countable A} (R : relation A) `{!RelDecision R} (X : gset A) : list A :=
  merge_sort R (elements X).
Definition keys {A} (m : gmap Z A) : list Z := ordered Z.le (dom m).

Lemma elem_of_ordered {A} `{Countable A} (R : relation A) `{!RelDecision R} (X : gset A) x :
  x ∈ ordered R X ↔ x ∈ X.
Proof. unfold ordered. rewrite merge_sort_Permutation. apply elem_of_elements. Qed.

Lemma elem_of_keys {A} (m : gmap Z A) i : i ∈ keys m ↔ is_Some (m !! i).
Proof. unfold keys. rewrite elem_of_ordered. apply elem_of_dom. Qed.

(** ** What a result depends on *)

Record ProbeInputs := mkInputs {
  pi_agent_image : string; pi_driver : string; pi_gpus : gmap Z string; pi_settings : string;
  pi_codecs : gmap Z (gset ProbeCodec) }.

#[global] Instance ProbeInputs_eq_dec : EqDecision ProbeInputs.
Proof. solve_decision. Defined.

Record EvidenceStamp := mkStamp { ev_agent_image : string; ev_driver : string; ev_settings : string; ev_gpu : string }.

#[global] Instance EvidenceStamp_eq_dec : EqDecision EvidenceStamp.
Proof. solve_decision. Defined.

(** [ProbeInputs::evidence_stamp] *)
Definition inputs_stamp (i : ProbeInputs) (gpu : Z) : option EvidenceStamp :=
  mkStamp (pi_agent_image i) (pi_driver i) (pi_settings i) <$> pi_gpus i !! gpu.

(** [inputs.codecs.get(&gpu)], empty where there is none. *)
Definition codecs_of (i : ProbeInputs) (gpu : Z) : gset ProbeCodec := default ∅ (pi_codecs i !! gpu).

Inductive Verdict := Passed | NotPassed | Inconclusive.

Inductive Event :=
| Registered (i : ProbeInputs)
| Disconnected
| InputsObserved (i : ProbeInputs)
| LaunchArrived (gpu : Z)
| SessionsChanged (live : gset Z) (launching : bool)
| LaunchFailed (gpu : Z) (explains : gset ProbeKind) (codec : option ProbeCodec)
| ProbeFinished (target : ProbeTarget) (reconciled : bool) (verdict : Verdict)
| Reconciled (kind : ProbeKind) (ok : bool)
| ProbeDeferred (target : ProbeTarget)
| EncodeGateFreed.

Inductive Action :=
| Start (target : ProbeTarget)
| Preempt (target : ProbeTarget)
| Reconcile (kind : ProbeKind)
| ActNotApplicable (kind : ProbeKind)
| Forget (target : ProbeTarget).

#[global] Instance Action_eq_dec : EqDecision Action.
Proof. solve_decision. Defined.

Record Running := mkRunning { r_target : ProbeTarget; r_preempted : bool; r_discard : bool; r_stale_evidence : bool }.

(** ** The scheduler *)

Record Scheduler := mkScheduler {
  s_kinds : list ProbeKind; s_registered : bool; s_inputs : option ProbeInputs;
  s_pending : gset ProbeTarget; s_running : option Running; s_live_gpus : gset Z;
  s_launching : bool; s_unreconciled : gset ProbeKind; s_reconciling : option ProbeKind;
  s_gate_waiting : gset ProbeTarget; s_media_passed : gset Z }.

Definition with_registered b (s : Scheduler) := mkScheduler (s_kinds s) b (s_inputs s) (s_pending s) (s_running s) (s_live_gpus s) (s_launching s) (s_unreconciled s) (s_reconciling s) (s_gate_waiting s) (s_media_passed s).
Definition with_inputs i (s : Scheduler) := mkScheduler (s_kinds s) (s_registered s) i (s_pending s) (s_running s) (s_live_gpus s) (s_launching s) (s_unreconciled s) (s_reconciling s) (s_gate_waiting s) (s_media_passed s).
Definition with_pending p (s : Scheduler) := mkScheduler (s_kinds s) (s_registered s) (s_inputs s) p (s_running s) (s_live_gpus s) (s_launching s) (s_unreconciled s) (s_reconciling s) (s_gate_waiting s) (s_media_passed s).
Definition with_running r (s : Scheduler) := mkScheduler (s_kinds s) (s_registered s) (s_inputs s) (s_pending s) r (s_live_gpus s) (s_launching s) (s_unreconciled s) (s_reconciling s) (s_gate_waiting s) (s_media_passed s).
Definition with_live_gpus l (s : Scheduler) := mkScheduler (s_kinds s) (s_registered s) (s_inputs s) (s_pending s) (s_running s) l (s_launching s) (s_unreconciled s) (s_reconciling s) (s_gate_waiting s) (s_media_passed s).
Definition with_launching b (s : Scheduler) := mkScheduler (s_kinds s) (s_registered s) (s_inputs s) (s_pending s) (s_running s) (s_live_gpus s) b (s_unreconciled s) (s_reconciling s) (s_gate_waiting s) (s_media_passed s).
Definition with_unreconciled u (s : Scheduler) := mkScheduler (s_kinds s) (s_registered s) (s_inputs s) (s_pending s) (s_running s) (s_live_gpus s) (s_launching s) u (s_reconciling s) (s_gate_waiting s) (s_media_passed s).
Definition with_reconciling r (s : Scheduler) := mkScheduler (s_kinds s) (s_registered s) (s_inputs s) (s_pending s) (s_running s) (s_live_gpus s) (s_launching s) (s_unreconciled s) r (s_gate_waiting s) (s_media_passed s).
Definition with_gate_waiting g (s : Scheduler) := mkScheduler (s_kinds s) (s_registered s) (s_inputs s) (s_pending s) (s_running s) (s_live_gpus s) (s_launching s) (s_unreconciled s) (s_reconciling s) g (s_media_passed s).
Definition with_media_passed m (s : Scheduler) := mkScheduler (s_kinds s) (s_registered s) (s_inputs s) (s_pending s) (s_running s) (s_live_gpus s) (s_launching s) (s_unreconciled s) (s_reconciling s) (s_gate_waiting s) m.

(** [Scheduler::with_kinds] *)
Definition with_kinds (kinds : list ProbeKind) : Scheduler :=
  mkScheduler kinds false None ∅ None ∅ false ∅ None ∅ ∅.

(** [Scheduler::evidence_stamp] *)
Definition evidence_stamp (s : Scheduler) (gpu : Z) : option EvidenceStamp :=
  s_inputs s ≫= λ i, inputs_stamp i gpu.

Definition exists_target (s : Scheduler) (t : ProbeTarget) : bool :=
  if negb (bool_decide (t_kind t ∈ s_kinds s)) then false
  else match t_gpu t with
  | None => negb (per_gpu (t_kind t))
  | Some index =>
      match s_inputs s with
      | None => false
      | Some i =>
          bool_decide (is_Some (pi_gpus i !! index)) &&
          match t_codec t with
          | None => true
          | Some c => bool_decide (c ∈ codecs_of i index)
          end
      end
  end.

(** The running probe is [t], and what it reports is to be thrown away. *)
Definition discards (s : Scheduler) (t : ProbeTarget) : bool :=
  match s_running s with Some r => bool_decide (r_target r = t) && r_discard r | None => false end.

Definition accepts_result (s : Scheduler) (t : ProbeTarget) : bool :=
  exists_target s t && negb (discards s t).

(** [&mut self] and [&mut actions], threaded. *)
Abbreviation St := (Scheduler * list Action)%type.
Definition upd (f : Scheduler → Scheduler) (σ : St) : St := (f σ.1, σ.2).
Definition push (a : Action) (σ : St) : St := (σ.1, σ.2 ++ [a]).
Definition enqueue (t : ProbeTarget) (σ : St) : St := upd (λ s, with_pending ({[t]} ∪ s_pending s) s) σ.

(** [for x in xs { body }] *)
Definition for_each {A} (xs : list A) (body : A → St → St) (σ : St) : St :=
  foldl (λ σ x, body x σ) σ xs.

Definition preempt (σ : St) : St :=
  match s_running σ.1 with
  | Some r =>
      if r_preempted r then σ
      else push (Preempt (r_target r))
             (upd (with_running (Some (mkRunning (r_target r) true (r_discard r) (r_stale_evidence r)))) σ)
  | None => σ
  end.

Definition queue_codecs (gpu : Z) (σ : St) : St :=
  if negb (bool_decide (PkMedia ∈ s_kinds σ.1)) then σ
  else for_each (ordered codec_le (match s_inputs σ.1 with Some i => codecs_of i gpu | None => ∅ end))
         (λ c, enqueue (codec_target gpu c)) σ.

Definition is_codec_of (gpu : Z) (t : ProbeTarget) : bool :=
  bool_decide (t_gpu t = Some gpu) && bool_decide (is_Some (t_codec t)).

Definition media_verdict (t : ProbeTarget) (v : Verdict) (σ : St) : St :=
  match t_kind t, t_gpu t, t_codec t with
  | PkMedia, Some gpu, None =>
      match v with
      | Passed =>
          let fresh := bool_decide (gpu ∉ s_media_passed σ.1) in
          let σ := upd (λ s, with_media_passed ({[gpu]} ∪ s_media_passed s) s) σ in
          if fresh then queue_codecs gpu σ else σ
      | NotPassed =>
          upd (λ s, with_gate_waiting (filter (λ t, is_codec_of gpu t = false) (s_gate_waiting s))
                      (with_pending (filter (λ t, is_codec_of gpu t = false) (s_pending s))
                         (with_media_passed (s_media_passed s ∖ {[gpu]}) s))) σ
      | Inconclusive => σ
      end
  | _, _, _ => σ
  end.

Definition queue_kinds (kinds : list ProbeKind) (i : ProbeInputs) (σ : St) : St :=
  for_each kinds (λ kind σ,
    if negb (bool_decide (kind ∈ s_kinds σ.1)) then σ
    else if negb (per_gpu kind) then enqueue (host_target kind) σ
    else if bool_decide (pi_gpus i = ∅) then push (ActNotApplicable kind) σ
    else for_each (keys (pi_gpus i)) (λ index σ,
           let σ := enqueue (gpu_target kind index) σ in
           if bool_decide (kind = PkMedia)
           then for_each (ordered codec_le (codecs_of i index)) (λ c, enqueue (codec_target index c)) σ
           else σ) σ) σ.

Definition retire (t : ProbeTarget) (σ : St) : St :=
  let σ := upd (λ s, with_gate_waiting (s_gate_waiting s ∖ {[t]}) (with_pending (s_pending s ∖ {[t]}) s)) σ in
  let σ := match s_running σ.1 with
           | Some r =>
               if bool_decide (r_target r = t)
               then preempt (upd (with_running (Some (mkRunning (r_target r) (r_preempted r) true (r_stale_evidence r)))) σ)
               else σ
           | None => σ
           end in
  push (Forget t) σ.

Definition forget_codec_evidence (new : ProbeInputs) (σ : St) : St :=
  let σ := upd (with_media_passed ∅) σ in
  let σ := match s_running σ.1 with
           | Some r => upd (with_running (Some (mkRunning (r_target r) (r_preempted r) (r_discard r) true))) σ
           | None => σ
           end in
  if negb (bool_decide (PkMedia ∈ s_kinds σ.1)) then σ
  else
    let σ := for_each (keys (pi_gpus new)) (λ index, retire (gpu_target PkMedia index)) σ in
    for_each (keys (pi_codecs new)) (λ index,
      for_each (ordered codec_le (codecs_of new index)) (λ c, retire (codec_target index c))) σ.

(** One GPU of the inventory that was. *)
Definition observe_old (old new : ProbeInputs) (index : Z) (σ : St) : St :=
  let pgk := filter (λ k, per_gpu k = true) (s_kinds σ.1) in
  let media := bool_decide (PkMedia ∈ s_kinds σ.1) in
  if bool_decide (pi_gpus new !! index = pi_gpus old !! index)
  then if media
       then for_each (ordered codec_le (codecs_of new index ∖ codecs_of old index))
              (λ c, enqueue (codec_target index c))
              (for_each (ordered codec_le (codecs_of old index ∖ codecs_of new index))
                 (λ c, retire (codec_target index c)) σ)
       else σ
  else
    let σ := upd (λ s, with_media_passed (s_media_passed s ∖ {[index]}) s) σ in
    let σ := for_each pgk (λ kind, retire (gpu_target kind index)) σ in
    if media then for_each (ordered codec_le (codecs_of old index)) (λ c, retire (codec_target index c)) σ else σ.

(** One GPU of the inventory that is. *)
Definition observe_new (old new : ProbeInputs) (index : Z) (σ : St) : St :=
  if bool_decide (pi_gpus old !! index = pi_gpus new !! index) then σ
  else
    let σ' := for_each (filter (λ k, per_gpu k = true) (s_kinds σ.1)) (λ kind, enqueue (gpu_target kind index)) σ in
    if bool_decide (PkMedia ∈ s_kinds σ.1)
    then for_each (ordered codec_le (codecs_of new index)) (λ c, enqueue (codec_target index c)) σ'
    else σ'.

(** The stack a probe runs on: everything but which GPUs there are. *)
Definition identity_changed (old new : ProbeInputs) : bool :=
  negb (bool_decide (pi_agent_image new = pi_agent_image old)) ||
  negb (bool_decide (pi_driver new = pi_driver old)) ||
  negb (bool_decide (pi_settings new = pi_settings old)).

Definition observe (new : ProbeInputs) (σ : St) : St :=
  match s_inputs σ.1 with
  | None => upd (with_inputs (Some new)) σ
  | Some old =>
      let σ := upd (with_inputs (Some new)) σ in
      let pgk := filter (λ k, per_gpu k = true) (s_kinds σ.1) in
      let σ := for_each (keys (pi_gpus old)) (observe_old old new) σ in
      let σ := if bool_decide (pi_gpus old = ∅) && negb (bool_decide (pi_gpus new = ∅))
               then for_each pgk (λ kind, push (Forget (host_target kind))) σ else σ in
      let σ := if identity_changed old new then forget_codec_evidence new σ else σ in
      if negb (bool_decide (pi_agent_image new = pi_agent_image old)) then queue_kinds KIND_ALL new σ
      else if identity_changed old new
              || (bool_decide (pi_gpus new = ∅) && negb (bool_decide (pi_gpus old = ∅)))
           then queue_kinds pgk new σ
           else for_each (keys (pi_gpus new)) (observe_new old new) σ
  end.

(** The loop of [dispatch] over the pending targets. *)
Fixpoint dispatch_loop (reconcile_failed : option ProbeKind) (ts : list ProbeTarget) (σ : St) : St :=
  match ts with
  | [] => σ
  | t :: ts =>
      let s := σ.1 in
      let take σ :=
        if bool_decide (t_kind t ∈ s_unreconciled (fst σ))
        then if bool_decide (reconcile_failed = Some (t_kind t)) then dispatch_loop reconcile_failed ts σ
             else push (Reconcile (t_kind t)) (upd (with_reconciling (Some (t_kind t))) σ)
        else push (Start t)
               (upd (λ s, with_running (Some (mkRunning t false false false)) (with_pending (s_pending s ∖ {[t]}) s)) σ) in
      match t_gpu t with
      | Some gpu =>
          if bool_decide (gpu ∈ s_live_gpus s) then dispatch_loop reconcile_failed ts σ
          else match t_codec t with
          | Some _ =>
              if bool_decide (media_floor t ∈ s_pending s) || bool_decide (media_floor t ∈ s_gate_waiting s)
              then dispatch_loop reconcile_failed ts σ
              else if negb (bool_decide (gpu ∈ s_media_passed s))
              then dispatch_loop reconcile_failed ts (upd (λ s, with_pending (s_pending s ∖ {[t]}) s) σ)
              else take σ
          | None => take σ
          end
      | None => take σ
      end
  end.

(** Codec probes last. *)
Definition dispatch_order (p : gset ProbeTarget) : list ProbeTarget :=
  let l := ordered target_le p in
  filter (λ t, t_codec t = None) l ++ filter (λ t, t_codec t ≠ None) l.

Definition dispatch (reconcile_failed : option ProbeKind) (σ : St) : St :=
  let s := σ.1 in
  if negb (s_registered s) || s_launching s || bool_decide (is_Some (s_running s))
     || bool_decide (is_Some (s_reconciling s))
  then σ
  else dispatch_loop reconcile_failed (dispatch_order (s_pending s)) σ.

(** [if self.exists(t) { self.pending.insert(t); }] *)
Definition enqueue_existing (t : ProbeTarget) (σ : St) : St := if exists_target σ.1 t then enqueue t σ else σ.

Definition queue_failed (gpu : Z) (explains : gset ProbeKind) (codec : option ProbeCodec) (σ : St) : St :=
  let σ := for_each (ordered kind_le explains) (λ kind,
             enqueue_existing (if per_gpu kind then gpu_target kind gpu else host_target kind)) σ in
  match codec with
  | Some c => if bool_decide (PkMedia ∈ explains) then enqueue_existing (codec_target gpu c) σ else σ
  | None => σ
  end.

Definition probe_finished (t : ProbeTarget) (reconciled : bool) (v : Verdict) (σ : St) : St :=
  match s_running σ.1 with
  | Some r =>
      if bool_decide (r_target r = t)
      then
        let σ := upd (with_running None) σ in
        let σ := if r_preempted r && exists_target σ.1 t then enqueue t σ else σ in
        let σ := if reconciled then σ else upd (λ s, with_unreconciled ({[t_kind t]} ∪ s_unreconciled s) s) σ in
        if negb (r_discard r) && exists_target σ.1 t
        then media_verdict t (match v with Passed => if r_stale_evidence r then Inconclusive else Passed | v => v end) σ
        else σ
      else σ
  | None => σ
  end.

(** Everything [step] does before [dispatch], and the reconcile that just failed. *)
Definition on_event (ev : Event) (σ : St) : St * option ProbeKind :=
  match ev with
  | Registered i =>
      let σ := upd (with_registered true) σ in
      let σ := upd (λ s, with_gate_waiting ∅ (with_pending (s_pending s ∪ s_gate_waiting s) s)) σ in
      (match s_inputs σ.1 with
       | None => upd (with_inputs (Some i)) (queue_kinds KIND_ALL i σ)
       | Some _ => observe i σ
       end, None)
  | Disconnected => (preempt (upd (with_registered false) σ), None)
  | InputsObserved i => (match s_inputs σ.1 with Some _ => observe i σ | None => σ end, None)
  | LaunchArrived gpu =>
      (preempt (upd (λ s, with_live_gpus ({[gpu]} ∪ s_live_gpus s) (with_launching true s)) σ), None)
  | SessionsChanged live launching => (upd (λ s, with_launching launching (with_live_gpus live s)) σ, None)
  | LaunchFailed gpu explains codec => (queue_failed gpu explains codec σ, None)
  | ProbeFinished t reconciled v => (probe_finished t reconciled v σ, None)
  | ProbeDeferred t =>
      (match s_running σ.1 with
       | Some r =>
           if bool_decide (r_target r = t)
           then let σ := upd (with_running None) σ in
                if exists_target σ.1 t then upd (λ s, with_gate_waiting ({[t]} ∪ s_gate_waiting s) s) σ else σ
           else σ
       | None => σ
       end, None)
  | EncodeGateFreed =>
      (upd (λ s, with_gate_waiting ∅
                   (with_pending (s_pending s ∪ filter (λ t, exists_target s t = true) (s_gate_waiting s)) s)) σ, None)
  | Reconciled kind ok =>
      if bool_decide (s_reconciling σ.1 = Some kind)
      then let σ := upd (with_reconciling None) σ in
           if ok then (upd (λ s, with_unreconciled (s_unreconciled s ∖ {[kind]}) s) σ, None) else (σ, Some kind)
      else (σ, None)
  end.

(** [Scheduler::step] *)
Definition step (s : Scheduler) (ev : Event) : St :=
  let '(σ, reconcile_failed) := on_event ev (s, []) in dispatch reconcile_failed σ.
