(* ===== verification/ProbeRun.v ===== *)
(** * Running host probes

    [src/host_probe/outcome.rs], [launch_failure.rs] and [orchestrator.rs]: from a probe's end to
    the readiness check, and the task that owns the scheduler and carries out its actions. *)
From S2P Require Import Prelude Readiness Probe.
From stdpp Require Import gmap.

(** ** Outcomes *)

Inductive ProbeOutcome :=
| PoPass (summary : string)
| PoFail (summary remediation : string)
| PoUnsupported (summary : string)
| PoNotApplicable (summary : string)
| PoIndeterminate (reason : string).

#[global] Instance ProbeOutcome_eq_dec : EqDecision ProbeOutcome.
Proof. solve_decision. Defined.

Inductive ChildEnd :=
| Exited (code : Z) (stdout : string) (remediation : option string)
| Signaled (signal : Z)
| Deadline (d : Z)
| ChildPreempted
| SpawnFailed (why : string).

Definition codec_str (c : ProbeCodec) : string := match c with H265 => "h265" | Av1 => "av1" end.

(** [ProbeKind::check_id], [ProbeTarget::check_id], [ProbeTarget::blocks] *)
Definition kind_check_id (k : ProbeKind) : string :=
  match k with
  | PkInput => "input_probe"
  | PkAudio => "audio_probe"
  | PkMedia => "media_probe"
  | PkApplicationGpu => "application_gpu_probe"
  end.

Definition check_id (t : ProbeTarget) : string :=
  match t_gpu t, t_codec t with
  | Some index, Some c => kind_check_id (t_kind t) +:+ "_gpu" +:+ pretty index +:+ "_" +:+ codec_str c
  | Some index, None => kind_check_id (t_kind t) +:+ "_gpu" +:+ pretty index
  | None, _ => kind_check_id (t_kind t)
  end.

Definition blocks (t : ProbeTarget) : option ReadinessBlocks :=
  match t_codec t with
  | Some _ => None
  | None =>
      match t_kind t with
      | PkMedia | PkApplicationGpu => (λ index, blocks_gpu index "control_plane") <$> t_gpu t
      | PkInput | PkAudio => Some (blocks_host "control_plane")
      end
  end.

(** The signals by which a process crashes, by their numbers on Linux. *)
Definition fault_signal (signal : Z) : option string :=
  (if signal =? 11 then Some "SIGSEGV" else if signal =? 6 then Some "SIGABRT"
   else if signal =? 7 then Some "SIGBUS" else if signal =? 4 then Some "SIGILL"
   else if signal =? 8 then Some "SIGFPE" else if signal =? 31 then Some "SIGSYS"
   else if signal =? 5 then Some "SIGTRAP" else None)%Z%string.

(** What passed, what failed, what was being exercised. *)
Definition wording (t : ProbeTarget) : string * string * string :=
  let gpu := match t_gpu t with Some i => "GPU " +:+ pretty i | None => "The GPU" end in
  match t_codec t with
  | Some c =>
      let codec := codec_str c in
      (gpu +:+ " encoded " +:+ codec,
       gpu +:+ " does not encode " +:+ codec +:+ "; sessions will not use " +:+ codec +:+ " on this GPU",
       codec +:+ " encoding on " +:+ gpu)
  | None =>
      match t_kind t with
      | PkMedia => (gpu +:+ " composited and encoded frames", gpu +:+ " could not composite and encode",
                    "compositing and encoding on " +:+ gpu)
      | PkApplicationGpu => ("An application container opened " +:+ gpu,
                             "An application container could not open " +:+ gpu, "application access to " +:+ gpu)
      | PkInput => ("Virtual input devices were created", "Virtual input devices could not be created", "virtual input")
      | PkAudio => ("The audio sidecar started", "The audio sidecar did not start", "the audio sidecar")
      end
  end.

Definition probe_log_hint : string := "`token=" +:+ dq +:+ "host-probe-` lines.".

Definition remediation (k : ProbeKind) : string :=
  match k with
  | PkMedia => "Check the render node is passed to the agent container, the driver/driver volume, and the agent log for " +:+ probe_log_hint
  | PkInput => "On a rootless engine, install Quasar's device rules (docs: Install, Device rules): they give the Quasar user Quasar's own input devices. On a rootful engine, check /dev/uinput and /dev/input are passed to the agent and device_cgroup_rules allows `c 13:* rw`."
  | PkAudio => "Check the runtime lets the agent image start the audio sidecar as a sibling container: the runtime_endpoint check, and the agent logs."
  | PkApplicationGpu => "Check /dev/dri permissions/groups (the dri_node_app_access check) and, on NVIDIA, the driver volume (driver_volume_version check)."
  end.

Definition remediation_for (t : ProbeTarget) : string :=
  match t_codec t with
  | Some c => "Sessions on this GPU use another codec until " +:+ codec_str c +:+ " passes. Check the driver and the agent log for " +:+ probe_log_hint
  | None => remediation (t_kind t)
  end.

(** [session::probe_media::UNSUPPORTED_EXIT] *)
Definition UNSUPPORTED_EXIT : Z := 4.

Definition child_outcome (t : ProbeTarget) (e : ChildEnd) : ProbeOutcome :=
  let '(passed, failed, exercising) := wording t in
  match e with
  | Exited code stdout child_remediation =>
      if (code =? 0)%Z then PoPass (passed +:+ ": " +:+ stdout)
      else if (code =? 1)%Z then PoFail (failed +:+ ": " +:+ stdout) (default (remediation_for t) child_remediation)
      else if (code =? UNSUPPORTED_EXIT)%Z then
        match t_codec t with
        | Some _ => PoUnsupported (failed +:+ ": " +:+ stdout)
        | None => PoFail (failed +:+ ": " +:+ stdout) (remediation_for t)
        end
      else PoIndeterminate ("The host probe of " +:+ exercising +:+ " exited " +:+ pretty code +:+ ": " +:+ stdout)
  | Signaled signal =>
      match fault_signal signal with
      | Some name => PoFail ("The host probe of " +:+ exercising +:+ " crashed with " +:+ name) (remediation_for t)
      | None => PoIndeterminate ("The host probe of " +:+ exercising +:+ " was killed from outside (signal " +:+ pretty signal +:+ ")")
      end
  | Deadline d =>
      PoIndeterminate ("The host probe of " +:+ exercising +:+ " did not finish within " +:+ pretty (Z.quot d NANOS) +:+ " s")
  | ChildPreempted =>
      PoIndeterminate ("A session launch took priority over the host probe of " +:+ exercising +:+ "; it will run again")
  | SpawnFailed err => PoIndeterminate ("The host probe of " +:+ exercising +:+ " could not start: " +:+ err)
  end.

(** ** The report and the ledger of codec evidence *)

Definition probe_check (t : ProbeTarget) (status summary rem : string) : ReadinessCheck :=
  mkCheck (check_id t) status summary rem None (Some "host_probe") (blocks t).

Definition definitive_status (st : string) : bool :=
  str_eqb st PASS || str_eqb st FAIL || str_eqb st UNSUPPORTED || str_eqb st SKIP.

Definition record (r : ReadinessReport) (t : ProbeTarget) (o : ProbeOutcome) (at_ : Z) : ReadinessReport :=
  match o with
  | PoPass s => retain r (probe_check t PASS s EmptyString) at_
  | PoFail s rem => retain r (probe_check t FAIL s rem) at_
  | PoUnsupported s => retain r (probe_check t UNSUPPORTED s EmptyString) at_
  | PoNotApplicable s => retain r (probe_check t SKIP s EmptyString) at_
  | PoIndeterminate reason =>
      if match retained r (check_id t) with Some c => definitive_status (ck_status c) | None => false end
      then r
      else retain r (probe_check t UNKNOWN reason
             "The agent will run the host probe again on the next input change, launch failure, or agent restart.") at_
  end.

Definition record_not_applicable (r : ReadinessReport) (k : ProbeKind) (at_ : Z) : ReadinessReport :=
  retain r (mkCheck (kind_check_id k) SKIP "This host has no GPU." EmptyString None (Some "host_probe") None) at_.

Definition codec_probe_verdict (r : ReadinessReport) (gpu : Z) (c : ProbeCodec) : option bool :=
  check ← retained r (check_id (codec_target gpu c));
  if str_eqb (ck_status check) PASS then Some true
  else if str_eqb (ck_status check) FAIL || str_eqb (ck_status check) UNSUPPORTED then Some false
  else None.

Abbreviation CodecEvidence := (gmap ProbeTarget EvidenceStamp).

(** [CodecEvidence::note] *)
Definition note (ev : CodecEvidence) (t : ProbeTarget) (o : ProbeOutcome) (stamp : option EvidenceStamp) : CodecEvidence :=
  match t_codec t with
  | None => ev
  | Some _ =>
      match o, stamp with
      | PoIndeterminate _, _ => ev
      | PoPass _, Some stamp => <[t := stamp]> ev
      | _, _ => delete t ev
      end
  end.

(** [CodecEvidence::proven] *)
Definition proven (ev : CodecEvidence) (r : ReadinessReport) (gpu : Z) (c : ProbeCodec)
    (current : option EvidenceStamp) : bool :=
  bool_decide (codec_probe_verdict r gpu c = Some true) && bool_decide (is_Some current) &&
  bool_decide (ev !! codec_target gpu c = current).

Inductive ReportUpdate :=
| Record_ (target : ProbeTarget) (outcome : ProbeOutcome) (observed_at : Z) (evidence : option EvidenceStamp)
| UpNotApplicable (kind : ProbeKind) (observed_at : Z)
| UpForget (target : ProbeTarget).

(** [apply]: how the agent loop takes an update. *)
Definition apply_update (w : ReadinessReport * CodecEvidence) (u : ReportUpdate) : ReadinessReport * CodecEvidence :=
  match u with
  | Record_ t o at_ stamp => (record w.1 t o at_, note w.2 t o stamp)
  | UpNotApplicable k at_ => (record_not_applicable w.1 k at_, w.2)
  | UpForget t => (forget_check w.1 (check_id t), delete t w.2)
  end.

(** ** Which probes could explain a failed launch *)

(** [session::vulkan_fault::reason_is_device_open_failed] *)
Definition DEVICE_OPEN_FAILED_REASON : string := "vulkan device open failed".
Definition reason_is_device_open_failed (reason : string) : bool :=
  contains_str DEVICE_OPEN_FAILED_REASON (to_ascii_lowercase reason).

Definition STAGES : list (string * list ProbeKind) :=
  [("codec/encoder resolution", [PkMedia]); ("create shared CUDA context", [PkMedia]);
   ("build source pipeline", [PkMedia]); ("start source pipeline", [PkMedia]);
   ("capture Vulkan producer contexts", [PkMedia]); ("build encode pipeline", [PkMedia]);
   ("encode set PLAYING", [PkMedia]); ("prepare session resources", [PkInput; PkAudio]);
   ("audio required but unavailable", [PkAudio]); ("container launch failed", [PkApplicationGpu])].

Definition explains (reason : string) (app_failed : bool) : gset ProbeKind :=
  if app_failed then {[PkApplicationGpu]}
  else if reason_is_device_open_failed reason then {[PkMedia]}
  else match list_find (λ s, starts_with s.1 reason = true) STAGES with
       | Some (_, (_, kinds)) => list_to_set kinds
       | None => ∅
       end.

(** ** The orchestrator *)

Inductive RunEnd := Concluded (outcome : ProbeOutcome) (reconciled : bool) | Deferred.

Inductive Msg :=
| External (ev : Event)
| RunEnded (target : ProbeTarget) (end_ : result RunEnd string)
| ReconcileEnded (kind : ProbeKind) (ok : bool).

(** The loop's state, the tasks it spawned whose message it has not handled, and the updates it
    sent. [o_preempt] is the flag of the current run's channel. *)
Record Orch := mkOrch {
  o_sched : Scheduler; o_preempt : option bool; o_run_stamp : option EvidenceStamp;
  o_runs : list ProbeTarget; o_reconciles : list ProbeKind; o_sent : list ReportUpdate }.

Definition send (u : ReportUpdate) (o : Orch) : Orch :=
  mkOrch (o_sched o) (o_preempt o) (o_run_stamp o) (o_runs o) (o_reconciles o) (o_sent o ++ [u]).

(** One action of the loop's [for]. *)
Definition carry_out (now : Z) (o : Orch) (a : Action) : Orch :=
  match a with
  | Start t =>
      let stamp := match t_codec t, t_gpu t with
                   | Some _, Some gpu => evidence_stamp (o_sched o) gpu
                   | _, _ => None
                   end in
      mkOrch (o_sched o) (Some false) stamp (t :: o_runs o) (o_reconciles o) (o_sent o)
  | Preempt _ =>
      mkOrch (o_sched o) ((λ _, true) <$> o_preempt o) (o_run_stamp o) (o_runs o) (o_reconciles o) (o_sent o)
  | Reconcile k =>
      mkOrch (o_sched o) (o_preempt o) (o_run_stamp o) (o_runs o) (k :: o_reconciles o) (o_sent o)
  | ActNotApplicable k => send (UpNotApplicable k now) o
  | Forget t => send (UpForget t) o
  end.

(** [scheduler.step(ev)], then its actions. *)
Definition drive_step (now : Z) (ev : Event) (o : Orch) : Orch :=
  let '(s, actions) := step (o_sched o) ev in
  foldl (carry_out now) (mkOrch s (o_preempt o) (o_run_stamp o) (o_runs o) (o_reconciles o) (o_sent o)) actions.

Definition verdict_of (o : ProbeOutcome) : Verdict :=
  match o with
  | PoPass _ => Passed
  | PoFail _ _ | PoUnsupported _ | PoNotApplicable _ => NotPassed
  | PoIndeterminate _ => Inconclusive
  end.

Definition remove_first {A} `{EqDecision A} (x : A) : list A → list A :=
  fix go l := match l with [] => [] | y :: l => if decide (y = x) then l else y :: go l end.

Definition task_panicked : ProbeOutcome :=
  PoIndeterminate "The host probe task ended unexpectedly; see the agent log".

(** A message of the loop. [now] is the clock's answer. *)
Definition handle (now : Z) (msg : Msg) (o : Orch) : Orch :=
  match msg with
  | External ev => drive_step now ev o
  | RunEnded t end_ =>
      let stamp := o_run_stamp o in
      let o := mkOrch (o_sched o) None None (remove_first t (o_runs o)) (o_reconciles o) (o_sent o) in
      let report outcome o :=
        if accepts_result (o_sched o) t then send (Record_ t outcome now stamp) o else o in
      match end_ with
      | Ok (Concluded outcome reconciled) =>
          drive_step now (ProbeFinished t reconciled (verdict_of outcome)) (report outcome o)
      | Ok Deferred => drive_step now (ProbeDeferred t) o
      | Err _ =>
          drive_step now (ProbeFinished t (negb (is_container (t_kind t))) Inconclusive) (report task_panicked o)
      end
  | ReconcileEnded k ok =>
      drive_step now (Reconciled k ok)
        (mkOrch (o_sched o) (o_preempt o) (o_run_stamp o) (o_runs o) (remove_first k (o_reconciles o)) (o_sent o))
  end.

(** [spawn_with_kinds] *)
Definition spawn (kinds : list ProbeKind) : Orch := mkOrch (with_kinds kinds) None None [] [] [].

(** What a [ProbeHandle] sends. *)
Definition external (ev : Event) : bool :=
  match ev with ProbeFinished _ _ _ | Reconciled _ _ | ProbeDeferred _ => false | _ => true end.

(** A message the loop can receive: one of a handle, or the end of a task it spawned. *)
Definition receivable (o : Orch) (msg : Msg) : Prop :=
  match msg with
  | External ev => external ev = true
  | RunEnded t _ => t ∈ o_runs o
  | ReconcileEnded k _ => k ∈ o_reconciles o
  end.

Inductive orch_step (o : Orch) : Orch → Prop :=
| orch_handles now msg : receivable o msg → orch_step o (handle now msg o).

Definition reachable (kinds : list ProbeKind) (o : Orch) : Prop := rtc orch_step (spawn kinds) o.
