(* ===== verification/ProbeProofs.v ===== *)
(** * What a step of the scheduler does

    The loops of the scheduler retire some targets and queue others; [effect] says which, exactly,
    and what that does to the running probe and to the actions. From it follow the target sets
    after [observe], and the invariant [wf] that every event keeps. *)
From S2P Require Import Prelude Probe.
From stdpp Require Import gmap sorting.

(** ** Effects of loops *)

(** What no loop touches. *)
Definition other (s : Scheduler) :=
  (s_kinds s, s_registered s, s_inputs s, s_live_gpus s, s_launching s, s_unreconciled s, s_reconciling s).

Lemma other_kinds s s' : other s' = other s → s_kinds s' = s_kinds s.
Proof. unfold other. by intros [=]. Qed.
Lemma other_inputs s s' : other s' = other s → s_inputs s' = s_inputs s.
Proof. unfold other. by intros [=]. Qed.

Definition is_preempt (a : Action) : Prop := match a with Preempt _ => True | _ => False end.
Definition is_dispatch (a : Action) : Prop := match a with Start _ | Reconcile _ => True | _ => False end.

(** The running probe when the targets [R] are retired and [new] is what was pushed; [B] says
    that its evidence went stale. *)
Definition run_effect (B : bool) (R : ProbeTarget → Prop) (new : list Action) (r r' : option Running) : Prop :=
  match r, r' with
  | None, None => Forall (λ a, ¬ is_preempt a) new
  | Some r, Some r' =>
      r_target r' = r_target r ∧
      (r_discard r' = true ↔ r_discard r = true ∨ R (r_target r)) ∧
      (r_preempted r' = true ↔ r_preempted r = true ∨ R (r_target r)) ∧
      (r_stale_evidence r' = r_stale_evidence r || B) ∧
      (Exists is_preempt new ↔ r_preempted r' = true ∧ r_preempted r = false)
  | _, _ => False
  end.

(** [R] is retired, [E] queued, [D] taken out of the GPUs whose media probe passed. *)
Record effect_b (B : bool) (R E : ProbeTarget → Prop) (D : Z → Prop) (σ σ' : St) : Prop := mkEffect {
  ef_other : other σ'.1 = other σ.1;
  ef_pending t : t ∈ s_pending σ'.1 ↔ (t ∈ s_pending σ.1 ∧ ¬ R t) ∨ E t;
  ef_gate t : t ∈ s_gate_waiting σ'.1 ↔ t ∈ s_gate_waiting σ.1 ∧ ¬ R t;
  ef_passed g : g ∈ s_media_passed σ'.1 ↔ g ∈ s_media_passed σ.1 ∧ ¬ D g;
  ef_actions : ∃ new, σ'.2 = σ.2 ++ new ∧ Forall (λ a, ¬ is_dispatch a) new ∧
    run_effect B R new (s_running σ.1) (s_running σ'.1) ∧
    (∀ t, R t → Forget t ∈ new) ∧ (∀ t, Forget t ∈ new → R t ∨ t_gpu t = None) }.

Abbreviation effect := (effect_b false).

Definition nil_T : ProbeTarget → Prop := λ _, False.
Definition nil_Z : Z → Prop := λ _, False.

Lemma effect_ext B R R' E E' D D' σ σ' :
  (∀ t, R t ↔ R' t) → (∀ t, E t ↔ E' t) → (∀ g, D g ↔ D' g) → effect_b B R E D σ σ' → effect_b B R' E' D' σ σ'.
Proof.
  intros HR HE HD [H1 H2 H3 H4 (new & H5 & H6 & H7 & H8 & H9)]. split; try done.
  - intros t. rewrite H2, HR, HE. done.
  - intros t. rewrite H3, HR. done.
  - intros g. rewrite H4, HD. done.
  - exists new. split_and!; try done.
    + unfold run_effect in *. repeat case_match; try done. by rewrite <- !HR.
    + intros t Ht. by apply H8, HR.
    + intros t Ht. destruct (H9 t Ht); [left; by apply HR|by right].
Qed.

Lemma effect_refl σ : effect nil_T nil_T nil_Z σ σ.
Proof.
  unfold nil_T, nil_Z. split; try done; try (intros; tauto).
  exists []. rewrite app_nil_r. split_and!; try done; try set_solver; try constructor.
  unfold run_effect. destruct (s_running σ.1); [|constructor].
  split_and!; try done; try tauto; [by rewrite orb_false_r|]. split; [by inversion 1|]. intros [H1 H2]. congruence.
Qed.

Lemma run_effect_trans B1 B2 R1 R2 n1 n2 r0 r1 r2 :
  run_effect B1 R1 n1 r0 r1 → run_effect B2 R2 n2 r1 r2 → run_effect (B1 || B2) (λ t, R1 t ∨ R2 t) (n1 ++ n2) r0 r2.
Proof.
  unfold run_effect. destruct r0 as [r0|], r1 as [r1|], r2 as [r2|]; try done.
  - intros (A1 & A2 & A3 & A4 & A5) (C1 & C2 & C3 & C4 & C5). rewrite A1 in *.
    split_and!; [congruence| | |by rewrite C4, A4, orb_assoc|].
    + rewrite C2, A2. tauto.
    + rewrite C3, A3. tauto.
    + rewrite Exists_app, A5, C5. destruct (r_preempted r0), (r_preempted r1), (r_preempted r2); intuition congruence.
  - intros A B. by apply Forall_app.
Qed.

Lemma effect_b_trans B1 R1 E1 D1 B2 R2 E2 D2 σ0 σ1 σ2 :
  effect_b B1 R1 E1 D1 σ0 σ1 → effect_b B2 R2 E2 D2 σ1 σ2 →
  effect_b (B1 || B2) (λ t, R1 t ∨ R2 t) (λ t, (E1 t ∧ ¬ R2 t) ∨ E2 t) (λ g, D1 g ∨ D2 g) σ0 σ2.
Proof.
  intros [A1 A2 A3 A4 (n1 & A5 & A6 & A7 & A8 & A9)] [C1 C2 C3 C4 (n2 & C5 & C6 & C7 & C8 & C9)]. split.
  - congruence.
  - intros t. rewrite C2, A2. tauto.
  - intros t. rewrite C3, A3. tauto.
  - intros g. rewrite C4, A4. tauto.
  - exists (n1 ++ n2). split_and!.
    + by rewrite C5, A5, app_assoc.
    + by apply Forall_app.
    + by eapply run_effect_trans.
    + intros t [H|H]; apply elem_of_app; [left|right]; auto.
    + intros t [H|H]%elem_of_app; [destruct (A9 t H)|destruct (C9 t H)]; auto.
Qed.

Lemma effect_trans R1 E1 D1 R2 E2 D2 σ0 σ1 σ2 :
  effect R1 E1 D1 σ0 σ1 → effect R2 E2 D2 σ1 σ2 →
  effect (λ t, R1 t ∨ R2 t) (λ t, (E1 t ∧ ¬ R2 t) ∨ E2 t) (λ g, D1 g ∨ D2 g) σ0 σ2.
Proof. apply (effect_b_trans false R1 E1 D1 false). Qed.

Lemma effect_kinds B R E D σ σ' : effect_b B R E D σ σ' → s_kinds σ'.1 = s_kinds σ.1.
Proof. intros H. apply other_kinds, H. Qed.

(** A loop none of whose rounds queues what another retires. *)
Lemma effect_for_each {A} (xs : list A) body (R E : A → ProbeTarget → Prop) (D : A → Z → Prop) σ :
  (∀ x σ', x ∈ xs → other σ'.1 = other σ.1 → effect (R x) (E x) (D x) σ' (body x σ')) →
  (∀ x y t, x ∈ xs → y ∈ xs → R x t → ¬ E y t) →
  effect (λ t, ∃ x, x ∈ xs ∧ R x t) (λ t, ∃ x, x ∈ xs ∧ E x t) (λ g, ∃ x, x ∈ xs ∧ D x g) σ (for_each xs body σ).
Proof.
  revert σ. induction xs as [|x xs IH]; intros σ Hb Hd.
  - eapply effect_ext; [..|apply effect_refl]; unfold nil_T, nil_Z; set_solver.
  - pose proof (Hb x σ ltac:(set_solver) eq_refl) as Hx.
    assert (other (body x σ).1 = other σ.1) as Ho by apply Hx.
    assert (effect (λ t, ∃ y, y ∈ xs ∧ R y t) (λ t, ∃ y, y ∈ xs ∧ E y t) (λ g, ∃ y, y ∈ xs ∧ D y g)
              (body x σ) (for_each xs body (body x σ))) as Hr.
    { apply IH; [|set_solver]. intros y σ' Hy Hσ'. apply Hb; [set_solver|congruence]. }
    eapply effect_ext; [..|exact (effect_trans _ _ _ _ _ _ _ _ _ Hx Hr)]; [set_solver| |set_solver].
    intros t. split; [set_solver|]. intros (y & [->|Hy]%elem_of_cons & Ht); [|set_solver].
    left. split; [done|]. intros (z & Hz & HR). apply (Hd z x t); set_solver.
Qed.

(** ** Effects of single operations *)

Lemma effect_enqueue t σ : effect nil_T (λ t', t' = t) nil_Z σ (enqueue t σ).
Proof.
  unfold nil_T, nil_Z. destruct (effect_refl σ) as [_ _ _ _ (new & H)]. split; try done; simpl; try set_solver.
Qed.

Lemma effect_push a σ :
  match a with ActNotApplicable _ => True | Forget t => t_gpu t = None | _ => False end →
  effect nil_T nil_T nil_Z σ (push a σ).
Proof.
  intros Ha. unfold nil_T, nil_Z. split; try done; simpl; try (intros; tauto). exists [a]. split_and!; try done.
  - apply Forall_singleton. destruct a; simpl in *; tauto.
  - unfold run_effect. destruct (s_running σ.1); [|apply Forall_singleton; destruct a; simpl in *; tauto].
    split_and!; try done; try tauto; [by rewrite orb_false_r|]. split; [|intros [? ?]; congruence].
    intros H. inversion H as [? ? H'|? ? H']; subst; [by destruct a|by inversion H'].
  - intros t Ht%list_elem_of_singleton. subst a. by right.
Qed.

Lemma effect_unpass g σ :
  effect nil_T nil_T (λ g', g' = g) σ (upd (λ s, with_media_passed (s_media_passed s ∖ {[g]}) s) σ).
Proof.
  unfold nil_T. destruct (effect_refl σ) as [_ _ _ _ (new & H)].
  split; try done; simpl; try (intros; tauto); [set_solver|]. by exists new.
Qed.

Lemma effect_retire t σ : effect (λ t', t' = t) nil_T nil_Z σ (retire t σ).
Proof.
  unfold nil_T, nil_Z, retire. cbn [upd push fst snd s_running with_gate_waiting with_pending].
  destruct (s_running σ.1) as [r|] eqn:Hr; [destruct (bool_decide (r_target r = t)) eqn:Ht|].
  - apply bool_decide_eq_true in Ht. subst t.
    unfold preempt. cbn [upd fst snd s_running with_running r_preempted r_target r_discard r_stale_evidence].
    destruct (r_preempted r) eqn:Hp.
    + split; try done; simpl; [set_solver..|]. exists [Forget (r_target r)]. split_and!; try done.
      * repeat constructor; simpl; tauto.
      * unfold run_effect. rewrite Hr. simpl. split_and!; try done; try tauto; [by rewrite orb_false_r|].
        split; [|intros [? ?]; congruence]. intros H. inversion H as [? ? H'|? ? H']; subst; [done|by inversion H'].
      * intros t ->. set_solver.
      * set_solver.
    + split; try done; simpl; [set_solver..|]. exists [Preempt (r_target r); Forget (r_target r)]. split_and!.
      * by rewrite <- app_assoc.
      * repeat constructor; simpl; tauto.
      * unfold run_effect. rewrite Hr. simpl. split_and!; try done; try tauto; [by rewrite orb_false_r|].
        split; [done|]. intros _. by left.
      * intros t ->. set_solver.
      * set_solver.
  - apply bool_decide_eq_false in Ht. split; try done; simpl; [set_solver..|].
    exists [Forget t]. split_and!; try done; [repeat constructor; simpl; tauto| |set_solver|set_solver].
    unfold run_effect. rewrite Hr. split_and!; try done; try tauto; [by rewrite orb_false_r|].
    split; [|intros [? ?]; congruence]. intros H. inversion H as [? ? H'|? ? H']; subst; [done|by inversion H'].
  - split; try done; simpl; [set_solver..|]. exists [Forget t].
    split_and!; try done; [repeat constructor; simpl; tauto| |set_solver|set_solver].
    unfold run_effect. rewrite Hr. repeat constructor; simpl; tauto.
Qed.

(** ** Targets there is something to probe for *)

Inductive due (K : list ProbeKind) (oi : option ProbeInputs) : ProbeTarget → Prop :=
| due_host k : k ∈ K → per_gpu k = false → due K oi (host_target k)
| due_gpu k g i : oi = Some i → k ∈ K → per_gpu k = true → is_Some (pi_gpus i !! g) → due K oi (gpu_target k g)
| due_codec g c i : oi = Some i → PkMedia ∈ K → is_Some (pi_gpus i !! g) → c ∈ codecs_of i g → due K oi (codec_target g c).

(** What [exists_target] does not look at: that a target is one the code makes. *)
Definition shaped (t : ProbeTarget) : Prop :=
  match t_gpu t, t_codec t with
  | None, c => c = None
  | Some _, None => per_gpu (t_kind t) = true
  | Some _, Some _ => t_kind t = PkMedia
  end.

Lemma due_iff s t : due (s_kinds s) (s_inputs s) t ↔ exists_target s t = true ∧ shaped t.
Proof.
  unfold exists_target, shaped. destruct t as [k [g|] oc]; simpl; split.
  - inversion 1 as [|k' g' i Hi Hk Hp Hg|g' c i Hi Hk Hg Hc]; subst; rewrite Hi.
    + rewrite !bool_decide_eq_true_2 by done. done.
    + rewrite !bool_decide_eq_true_2 by done. done.
  - destruct (bool_decide (k ∈ s_kinds s)) eqn:Hk; simpl; [|by intros [? _]].
    apply bool_decide_eq_true in Hk. destruct (s_inputs s) as [i|]; [|by intros [? _]].
    rewrite andb_true_iff, bool_decide_eq_true. destruct oc as [c|].
    + rewrite bool_decide_eq_true. intros [[Hg Hc] ->]. by eapply due_codec.
    + intros [[Hg _] Hp]. by eapply due_gpu.
  - inversion 1; subst. rewrite bool_decide_eq_true_2 by done. simpl. by rewrite negb_true_iff.
  - destruct (bool_decide (k ∈ s_kinds s)) eqn:Hk; simpl; [|by intros [? _]].
    apply bool_decide_eq_true in Hk. rewrite negb_true_iff. intros [Hp ->]. by apply due_host.
Qed.

Lemma due_kind K oi t : due K oi t → t_kind t ∈ K.
Proof. by inversion 1. Qed.

(** Only the inventory matters to a target on a GPU, and nothing to a host's. *)
Lemma due_host_any K oi oi' t : due K oi t → t_gpu t = None → due K oi' t.
Proof. inversion 1; subst; simpl; try done. intros _. by apply due_host. Qed.

(** ** Effects of the scheduler's loops *)

Lemma effect_queue_codecs gpu i σ :
  s_inputs σ.1 = Some i →
  effect nil_T (λ t, PkMedia ∈ s_kinds σ.1 ∧ ∃ c, c ∈ codecs_of i gpu ∧ t = codec_target gpu c) nil_Z σ (queue_codecs gpu σ).
Proof.
  intros Hi. unfold queue_codecs. rewrite Hi. case_bool_decide as Hm; simpl.
  - eapply effect_ext; [..|apply effect_for_each; [intros c σ' _ _; apply effect_enqueue|]];
      unfold nil_T, nil_Z; try set_solver.
    intros t. setoid_rewrite elem_of_ordered. naive_solver.
  - eapply effect_ext; [..|apply effect_refl]; unfold nil_T, nil_Z; try done. intros t. tauto.
Qed.

Lemma kind_all k : k ∈ KIND_ALL.
Proof. unfold KIND_ALL. destruct k; set_solver. Qed.

(** The targets of one kind. *)
Lemma effect_queue_kinds kinds i σ :
  effect nil_T (λ t, t_kind t ∈ kinds ∧ due (s_kinds σ.1) (Some i) t) nil_Z σ (queue_kinds kinds i σ).
Proof.
  unfold queue_kinds.
  eapply effect_ext; [..|apply (effect_for_each kinds _ (λ _, nil_T)
     (λ kind t, t_kind t = kind ∧ due (s_kinds σ.1) (Some i) t) (λ _, nil_Z))]; unfold nil_T, nil_Z; try set_solver.
  intros kind σ' Hk Ho. apply other_kinds in Ho. rewrite Ho.
  case_bool_decide as Hin; simpl.
  2: { eapply effect_ext; [..|apply effect_refl]; unfold nil_T, nil_Z; try done.
       intros t. split; [done|]. intros [<- H]. by apply Hin, (due_kind _ _ _ H). }
  destruct (per_gpu kind) eqn:Hp; simpl.
  2: { eapply effect_ext; [..|apply effect_enqueue]; unfold nil_T, nil_Z; try done. intros t. split.
       - intros ->. split; [done|]. by apply due_host.
       - intros [<- H]. inversion H; subst; simpl in *; [done|congruence..]. }
  case_bool_decide as He.
  { eapply effect_ext; [..|by apply effect_push]; unfold nil_T, nil_Z; try done.
    intros t. split; [done|]. intros [<- H]. inversion H as [|k g i' [= <-] ? ? Hg|g c i' [= <-] ? Hg ?]; subst; simpl in *;
      [congruence|rewrite He, lookup_empty in Hg; by destruct Hg..]. }
  eapply effect_ext; [..|apply (effect_for_each _ _ (λ _, nil_T)
     (λ index t, t = gpu_target kind index ∨ (kind = PkMedia ∧ ∃ c, c ∈ codecs_of i index ∧ t = codec_target index c)) (λ _, nil_Z))];
    unfold nil_T, nil_Z; try set_solver.
  - intros t. setoid_rewrite elem_of_keys. split.
    + intros (g & Hg & [->|(-> & c & Hc & ->)]); (split; [done|]); [by eapply due_gpu|by eapply due_codec].
    + intros [<- H]. inversion H as [|k g i' [= <-] ? ? Hg|g c i' [= <-] ? Hg ?]; subst; simpl in *;
        [congruence|exists g; eauto..]. split; [done|]. right. eauto.
  - intros g σ1 Hg _. case_bool_decide as Hm.
    + eapply effect_ext; [..|eapply effect_trans; [apply effect_enqueue|
        apply (effect_for_each _ _ (λ _, nil_T) (λ c t, t = codec_target g c) (λ _, nil_Z));
          [intros c σ2 _ _; apply effect_enqueue|done]]]; unfold nil_T, nil_Z; try set_solver.
      intros t. setoid_rewrite elem_of_ordered. set_solver.
    + eapply effect_ext; [..|apply effect_enqueue]; unfold nil_T, nil_Z; try done. intros t. naive_solver.
Qed.

Lemma effect_codecs_retired index X σ :
  effect (λ t, ∃ c, c ∈ X ∧ t = codec_target index c) nil_T nil_Z σ
    (for_each (ordered codec_le X) (λ c, retire (codec_target index c)) σ).
Proof.
  eapply effect_ext; [..|apply effect_for_each; [intros c σ' _ _; apply effect_retire|]];
    unfold nil_T, nil_Z; try set_solver.
  intros t. by setoid_rewrite elem_of_ordered.
Qed.

Lemma effect_codecs_queued index X σ :
  effect nil_T (λ t, ∃ c, c ∈ X ∧ t = codec_target index c) nil_Z σ
    (for_each (ordered codec_le X) (λ c, enqueue (codec_target index c)) σ).
Proof.
  eapply effect_ext; [..|apply effect_for_each; [intros c σ' _ _; apply effect_enqueue|]];
    unfold nil_T, nil_Z; try set_solver.
  intros t. by setoid_rewrite elem_of_ordered.
Qed.

(** The same, of a scheduler that may not know the media kind. *)
Lemma effect_if_media_retired (K : list ProbeKind) index X σ :
  effect (λ t, PkMedia ∈ K ∧ ∃ c, c ∈ X ∧ t = codec_target index c) nil_T nil_Z σ
    (if bool_decide (PkMedia ∈ K) then for_each (ordered codec_le X) (λ c, retire (codec_target index c)) σ else σ).
Proof.
  case_bool_decide; (eapply effect_ext; [..|apply effect_codecs_retired || apply effect_refl]); unfold nil_T, nil_Z; naive_solver.
Qed.

Lemma effect_if_media_queued (K : list ProbeKind) index X σ :
  effect nil_T (λ t, PkMedia ∈ K ∧ ∃ c, c ∈ X ∧ t = codec_target index c) nil_Z σ
    (if bool_decide (PkMedia ∈ K) then for_each (ordered codec_le X) (λ c, enqueue (codec_target index c)) σ else σ).
Proof.
  case_bool_decide; (eapply effect_ext; [..|apply effect_codecs_queued || apply effect_refl]); unfold nil_T, nil_Z; naive_solver.
Qed.

(** A loop of [retire] or [enqueue] over the per-GPU kinds of one GPU. *)
Lemma effect_kinds_retired (K : list ProbeKind) index σ :
  effect (λ t, ∃ k, k ∈ K ∧ per_gpu k = true ∧ t = gpu_target k index) nil_T nil_Z σ
    (for_each (filter (λ k, per_gpu k = true) K) (λ k, retire (gpu_target k index)) σ).
Proof.
  eapply effect_ext; [..|apply effect_for_each; [intros k σ' _ _; apply effect_retire|]];
    unfold nil_T, nil_Z; try set_solver.
  intros t. setoid_rewrite list_elem_of_filter. naive_solver.
Qed.

Lemma effect_kinds_queued (K : list ProbeKind) index σ :
  effect nil_T (λ t, ∃ k, k ∈ K ∧ per_gpu k = true ∧ t = gpu_target k index) nil_Z σ
    (for_each (filter (λ k, per_gpu k = true) K) (λ k, enqueue (gpu_target k index)) σ).
Proof.
  eapply effect_ext; [..|apply effect_for_each; [intros k σ' _ _; apply effect_enqueue|]];
    unfold nil_T, nil_Z; try set_solver.
  intros t. setoid_rewrite list_elem_of_filter. naive_solver.
Qed.

(** The targets of one GPU, taken apart. *)
Lemma due_on K i g t :
  is_Some (pi_gpus i !! g) →
  t_gpu t = Some g ∧ due K (Some i) t ↔
  (∃ k, k ∈ K ∧ per_gpu k = true ∧ t = gpu_target k g) ∨ (PkMedia ∈ K ∧ ∃ c, c ∈ codecs_of i g ∧ t = codec_target g c).
Proof.
  intros Hg. split.
  - intros [Ht H]. inversion H as [|k g' i' [= <-] ? ? ?|g' c i' [= <-] ? ? ?]; subst; simpl in *; [done|..];
      injection Ht as ->; [left|right]; eauto 6.
  - intros [(k & ? & ? & ->)|(? & c & ? & ->)]; (split; [done|]); [by eapply due_gpu|by eapply due_codec].
Qed.

Definition moved_gpu (old new : ProbeInputs) (g : Z) : Prop := pi_gpus new !! g ≠ pi_gpus old !! g.

Lemma due_old_only K old new g t :
  is_Some (pi_gpus old !! g) → is_Some (pi_gpus new !! g) → t_gpu t = Some g →
  due K (Some old) t ∧ ¬ due K (Some new) t ↔
  PkMedia ∈ K ∧ ∃ c, c ∈ codecs_of old g ∖ codecs_of new g ∧ t = codec_target g c.
Proof.
  intros Ho Hn Ht. pose proof (due_on K old g t Ho) as H1. pose proof (due_on K new g t Hn) as H2. split.
  - intros [Hd Hnd]. destruct (proj1 H1 (conj Ht Hd)) as [Hk|(Hm & c & Hc & ->)].
    + destruct Hnd. apply H2. by left.
    + split; [done|]. exists c. split; [|done]. apply elem_of_difference. split; [done|].
      intros Hc'. apply Hnd, H2. right. eauto.
  - intros (Hm & c & [Hc Hc']%elem_of_difference & ->). split; [by eapply due_codec|].
    inversion 1; subst. by simplify_eq.
Qed.

Lemma effect_observe_old old new index σ :
  is_Some (pi_gpus old !! index) →
  effect
    (λ t, t_gpu t = Some index ∧ due (s_kinds σ.1) (Some old) t ∧
          (moved_gpu old new index ∨ ¬ due (s_kinds σ.1) (Some new) t))
    (λ t, t_gpu t = Some index ∧ ¬ moved_gpu old new index ∧
          due (s_kinds σ.1) (Some new) t ∧ ¬ due (s_kinds σ.1) (Some old) t)
    (λ g, g = index ∧ moved_gpu old new index) σ (observe_old old new index σ).
Proof.
  intros Ho. unfold observe_old. case_bool_decide as Heq.
  - assert (¬ moved_gpu old new index) as Hm by (unfold moved_gpu; tauto).
    assert (is_Some (pi_gpus new !! index)) as Hn by (by rewrite Heq).
    case_bool_decide as Hmedia.
    + eapply effect_ext; [..|eapply effect_trans; [apply effect_codecs_retired|apply effect_codecs_queued]];
        unfold nil_T, nil_Z; [| |naive_solver].
      * intros t. split.
        -- intros [(c & Hc & ->)|[]]. split; [done|].
           destruct (proj2 (due_old_only (s_kinds σ.1) old new index (codec_target index c) Ho Hn eq_refl)); eauto 8.
        -- intros (Ht & Hd & [?|Hnd]); [done|]. left.
           by destruct (proj1 (due_old_only (s_kinds σ.1) old new index t Ho Hn Ht) (conj Hd Hnd)) as [_ ?].
      * intros t. split.
        -- intros [[[] _]|(c & Hc & ->)]. split_and!; [done|done|..];
           destruct (proj2 (due_old_only (s_kinds σ.1) new old index (codec_target index c) Hn Ho eq_refl)); eauto 8.
        -- intros (Ht & _ & Hd & Hnd). right.
           by destruct (proj1 (due_old_only (s_kinds σ.1) new old index t Hn Ho Ht) (conj Hd Hnd)) as [_ ?].
    + eapply effect_ext; [..|apply effect_refl]; unfold nil_T, nil_Z; [..|naive_solver].
      * intros t. split; [done|]. intros (Ht & Hd & [?|Hnd]); [done|].
        by destruct (proj1 (due_old_only (s_kinds σ.1) old new index t Ho Hn Ht) (conj Hd Hnd)).
      * intros t. split; [done|]. intros (Ht & _ & Hd & Hnd).
        by destruct (proj1 (due_old_only (s_kinds σ.1) new old index t Hn Ho Ht) (conj Hd Hnd)).
  - assert (moved_gpu old new index) as Hm by done.
    eapply effect_ext with (R := λ t, (nil_T t ∨ (∃ k, k ∈ s_kinds σ.1 ∧ per_gpu k = true ∧ t = gpu_target k index)) ∨
        (PkMedia ∈ s_kinds σ.1 ∧ ∃ c, c ∈ codecs_of old index ∧ t = codec_target index c)) (E := nil_T)
      (D := λ g, g = index).
    + intros t. pose proof (due_on (s_kinds σ.1) old index t Ho). unfold nil_T. tauto.
    + unfold nil_T. naive_solver.
    + naive_solver.
    + eapply effect_ext; [..|eapply effect_trans; [eapply effect_trans; [apply effect_unpass|apply effect_kinds_retired]|
        by apply effect_if_media_retired]]; unfold nil_T, nil_Z; set_solver.
Qed.

Lemma effect_observe_new old new index σ :
  is_Some (pi_gpus new !! index) →
  effect nil_T (λ t, t_gpu t = Some index ∧ due (s_kinds σ.1) (Some new) t ∧ moved_gpu old new index) nil_Z σ
    (observe_new old new index σ).
Proof.
  intros Hn. unfold observe_new, moved_gpu. case_bool_decide as Heq.
  - eapply effect_ext; [..|apply effect_refl]; unfold nil_T, nil_Z; naive_solver.
  - eapply effect_ext; [..|eapply effect_trans; [apply effect_kinds_queued|apply effect_if_media_queued]];
      unfold nil_T, nil_Z; [tauto| |tauto].
    intros t. pose proof (due_on (s_kinds σ.1) new index t Hn).
    assert (pi_gpus new !! index ≠ pi_gpus old !! index) by congruence. tauto.
Qed.

(** What a change of stack retires: every media probe of the new inventory. *)
Definition media_targets (K : list ProbeKind) (new : ProbeInputs) (t : ProbeTarget) : Prop :=
  PkMedia ∈ K ∧ ((∃ g, is_Some (pi_gpus new !! g) ∧ t = gpu_target PkMedia g) ∨
                 (∃ g c, c ∈ codecs_of new g ∧ t = codec_target g c)).

Lemma effect_forget new σ :
  effect_b true (media_targets (s_kinds σ.1) new) nil_T (λ _, True) σ (forget_codec_evidence new σ).
Proof.
  unfold forget_codec_evidence.
  set (σ1 := upd (with_media_passed ∅) σ).
  set (σ2 := match s_running σ1.1 with Some r => _ | None => σ1 end).
  assert (effect_b true nil_T nil_T (λ _, True) σ σ2) as H2.
  { unfold σ2, σ1, nil_T. cbn [upd fst snd s_running with_media_passed].
    destruct (s_running σ.1) as [r|] eqn:Hr; (split; try done; simpl; [set_solver..|]); exists [];
      rewrite app_nil_r; (split_and!; try done; try constructor; try set_solver); unfold run_effect; rewrite Hr; simpl; [|done].
    split_and!; try done; try tauto; [by rewrite orb_true_r|].
    split; [by inversion 1|]. intros [? ?]. congruence. }
  assert (s_kinds σ2.1 = s_kinds σ.1) as Hk by apply other_kinds, H2.
  rewrite Hk. case_bool_decide as Hm; simpl.
  2: { eapply effect_ext; [..|exact H2]; unfold media_targets, nil_T; naive_solver. }
  assert (∀ xs σ, effect (λ t, ∃ g, g ∈ xs ∧ t = gpu_target PkMedia g) nil_T nil_Z σ
            (for_each xs (λ index, retire (gpu_target PkMedia index)) σ)) as Hf.
  { intros xs σ'. eapply effect_ext; [..|apply (effect_for_each xs _ (λ g t, t = gpu_target PkMedia g) (λ _, nil_T) (λ _, nil_Z))];
      try (intros g σ'' _ _; apply effect_retire); unfold nil_T, nil_Z; naive_solver. }
  assert (∀ xs σ, effect (λ t, ∃ g, g ∈ xs ∧ ∃ c, c ∈ codecs_of new g ∧ t = codec_target g c) nil_T nil_Z σ
            (for_each xs (λ index, for_each (ordered codec_le (codecs_of new index)) (λ c, retire (codec_target index c))) σ)) as Hc.
  { intros xs σ'. eapply effect_ext; [..|apply (effect_for_each xs _ (λ g t, ∃ c, c ∈ codecs_of new g ∧ t = codec_target g c) (λ _, nil_T) (λ _, nil_Z))];
      try (intros g σ'' _ _; apply effect_codecs_retired); unfold nil_T, nil_Z; naive_solver. }
  eapply effect_ext; [..|eapply (effect_b_trans true _ _ _ false); [exact H2|eapply effect_trans; [apply Hf|apply Hc]]];
    unfold nil_T, nil_Z; [|naive_solver|naive_solver].
  intros t. unfold media_targets. setoid_rewrite elem_of_keys. split.
  - intros [[]|[(g & Hg & ->)|(g & _ & c & Hx & ->)]]; (split; [done|]); [left|right]; eauto.
  - intros (_ & [(g & Hg & ->)|(g & c & Hx & ->)]); right; [left; eauto|right].
    exists g. split; [|eauto]. unfold codecs_of in Hx.
    destruct (pi_codecs new !! g); [by eexists|]. by apply not_elem_of_empty in Hx.
Qed.

(** ** What [observe] does to the targets *)

Section observe.
Context (K : list ProbeKind) (old new : ProbeInputs).

(** Retired because the GPU or the codec is gone, or because the stack changed. *)
Definition retired (t : ProbeTarget) : Prop :=
  (∃ g, t_gpu t = Some g ∧ due K (Some old) t ∧ (moved_gpu old new g ∨ ¬ due K (Some new) t)) ∨
  (identity_changed old new = true ∧ media_targets K new t).

Definition unpassed (g : Z) : Prop :=
  (is_Some (pi_gpus old !! g) ∧ moved_gpu old new g) ∨ identity_changed old new = true.

(** Queued because the GPU or the codec is new, or because the stack changed. *)
Definition requeued (t : ProbeTarget) : Prop :=
  due K (Some new) t ∧
  (pi_agent_image new ≠ pi_agent_image old ∨
   (∃ g, t_gpu t = Some g ∧
      (identity_changed old new = true ∨ moved_gpu old new g ∨ ¬ due K (Some old) t))).
End observe.

Lemma per_gpu_due K i t : due K (Some i) t → per_gpu (t_kind t) = true ↔ is_Some (t_gpu t).
Proof. inversion 1; subst; simpl; [split; [congruence|by intros [? ?]]|by split; eauto..]. Qed.

Lemma due_gpu_some K i t g : due K (Some i) t → t_gpu t = Some g → is_Some (pi_gpus i !! g).
Proof. inversion 1; subst; simpl; [done|..]; intros [= ->]; by simplify_eq. Qed.

Lemma not_moved_some old new g : ¬ moved_gpu old new g → is_Some (pi_gpus old !! g) ↔ is_Some (pi_gpus new !! g).
Proof.
  unfold moved_gpu. intros H. assert (pi_gpus new !! g = pi_gpus old !! g) as -> by (by apply dec_stable). done.
Qed.

#[global] Instance moved_gpu_dec old new g : Decision (moved_gpu old new g).
Proof. unfold moved_gpu. apply _. Defined.

#[global] Instance shaped_dec t : Decision (shaped t).
Proof. unfold shaped. destruct (t_gpu t), (t_codec t); apply _. Defined.

#[global] Instance due_dec K i t : Decision (due K (Some i) t).
Proof.
  destruct (decide (exists_target (with_inputs (Some i) (with_kinds K)) t = true ∧ shaped t)) as [H|H];
    [left|right]; by rewrite (due_iff (with_inputs (Some i) (with_kinds K))).
Defined.

Lemma effect_observe_olds old new σ :
  effect (λ t, ∃ g, t_gpu t = Some g ∧ due (s_kinds σ.1) (Some old) t ∧ (moved_gpu old new g ∨ ¬ due (s_kinds σ.1) (Some new) t))
    (λ t, ∃ g, t_gpu t = Some g ∧ ¬ moved_gpu old new g ∧ due (s_kinds σ.1) (Some new) t ∧ ¬ due (s_kinds σ.1) (Some old) t)
    (λ g, is_Some (pi_gpus old !! g) ∧ moved_gpu old new g) σ
    (for_each (keys (pi_gpus old)) (observe_old old new) σ).
Proof.
  eapply effect_ext; [..|apply (effect_for_each _ _
    (λ g t, t_gpu t = Some g ∧ due (s_kinds σ.1) (Some old) t ∧ (moved_gpu old new g ∨ ¬ due (s_kinds σ.1) (Some new) t))
    (λ g t, t_gpu t = Some g ∧ ¬ moved_gpu old new g ∧ due (s_kinds σ.1) (Some new) t ∧ ¬ due (s_kinds σ.1) (Some old) t)
    (λ g g', g' = g ∧ moved_gpu old new g))].
  - intros t. setoid_rewrite elem_of_keys. split; [naive_solver|]. intros (g & Ht & Hd & H).
    exists g. split; [by eapply due_gpu_some|done].
  - intros t. setoid_rewrite elem_of_keys. split; [naive_solver|]. intros (g & Ht & Hm & Hd & H).
    exists g. split; [|done]. rewrite (not_moved_some old new g Hm). by eapply due_gpu_some.
  - intros g. setoid_rewrite elem_of_keys. naive_solver.
  - intros g σ' Hg Ho. apply elem_of_keys in Hg. rewrite <- (other_kinds _ _ Ho). by apply effect_observe_old.
  - intros x y t _ _ (Hx & Hd & _) (Hy & _ & _ & Hnd). done.
Qed.

Lemma effect_observe_news old new σ :
  effect nil_T (λ t, ∃ g, t_gpu t = Some g ∧ due (s_kinds σ.1) (Some new) t ∧ moved_gpu old new g) nil_Z σ
    (for_each (keys (pi_gpus new)) (observe_new old new) σ).
Proof.
  eapply effect_ext; [..|apply (effect_for_each _ _ (λ _, nil_T)
    (λ g t, t_gpu t = Some g ∧ due (s_kinds σ.1) (Some new) t ∧ moved_gpu old new g) (λ _, nil_Z))];
    unfold nil_T, nil_Z; try naive_solver.
  - intros t. setoid_rewrite elem_of_keys. split; [naive_solver|]. intros (g & Ht & Hd & H).
    exists g. split; [by eapply due_gpu_some|done].
  - intros g σ' Hg Ho. apply elem_of_keys in Hg. rewrite <- (other_kinds _ _ Ho). by apply effect_observe_new.
Qed.

Lemma effect_host_forgets ks σ :
  effect nil_T nil_T nil_Z σ (for_each ks (λ kind, push (Forget (host_target kind))) σ).
Proof.
  eapply effect_ext; [..|apply (effect_for_each _ _ (λ _, nil_T) (λ _, nil_T) (λ _, nil_Z))];
    unfold nil_T, nil_Z; try naive_solver.
  intros k σ' _ _. by apply effect_push.
Qed.

Lemma effect_observe old new σ :
  s_inputs σ.1 = Some old →
  let K := s_kinds σ.1 in
  effect_b (identity_changed old new) (retired K old new) (requeued K old new) (unpassed old new)
    (upd (with_inputs (Some new)) σ) (observe new σ).
Proof.
  intros Hi K. unfold observe. rewrite Hi. set (σ0 := upd (with_inputs (Some new)) σ).
  change (s_kinds σ0.1) with K.
  pose proof (effect_observe_olds old new σ0) as H1. change (s_kinds σ0.1) with K in H1.
  set (σ1 := for_each (keys (pi_gpus old)) (observe_old old new) σ0) in *.
  set (σ2 := if bool_decide (pi_gpus old = ∅) && _ then _ else σ1).
  assert (effect nil_T nil_T nil_Z σ1 σ2) as H2.
  { unfold σ2. case_match; [apply effect_host_forgets|apply effect_refl]. }
  pose proof (effect_trans _ _ _ _ _ _ _ _ _ H1 H2) as H12. clear H1 H2.
  assert (s_kinds σ2.1 = K) as Hk2 by exact (effect_kinds _ _ _ _ _ _ H12).
  set (σ3 := if identity_changed old new then forget_codec_evidence new σ2 else σ2).
  assert (effect_b (identity_changed old new) (λ t, identity_changed old new = true ∧ media_targets K new t) nil_T
            (λ _, identity_changed old new = true) σ2 σ3) as H3.
  { unfold σ3. destruct (identity_changed old new).
    - eapply effect_ext; [..|apply effect_forget]; rewrite ?Hk2; unfold nil_T; naive_solver.
    - eapply effect_ext; [..|apply effect_refl]; unfold nil_T, nil_Z; naive_solver. }
  pose proof (effect_b_trans _ _ _ _ _ _ _ _ _ _ _ H12 H3) as H13. clear H12 H3.
  assert (s_kinds σ3.1 = K) as Hk3 by exact (effect_kinds _ _ _ _ _ _ H13).
  clearbody σ3. match goal with |- effect_b _ _ _ _ _ ?x => set (σ4 := x) end.
  assert (effect nil_T (λ t, due K (Some new) t ∧
     if bool_decide (pi_agent_image new = pi_agent_image old)
     then if identity_changed old new || (bool_decide (pi_gpus new = ∅) && negb (bool_decide (pi_gpus old = ∅)))
          then per_gpu (t_kind t) = true
          else ∃ g, t_gpu t = Some g ∧ moved_gpu old new g
     else True) nil_Z σ3 σ4) as H4.
  { unfold σ4. case_bool_decide as Himg; cbn [negb]; [destruct (identity_changed old new || _) eqn:Hid|].
    - eapply effect_ext; [..|apply effect_queue_kinds]; rewrite ?Hk3; [done| |done].
      intros t. rewrite list_elem_of_filter. pose proof (due_kind K (Some new) t). tauto.
    - eapply effect_ext; [..|apply effect_observe_news]; rewrite ?Hk3; [done| |done].
      intros t. cbv beta. split; [intros (g & ? & ? & ?); eauto|intros (? & g & ? & ?); eauto].
    - eapply effect_ext; [..|apply effect_queue_kinds]; rewrite ?Hk3; [done| |done].
      intros t. split; [tauto|]. intros [Hd _]. split; [|done].
      apply kind_all. }
  pose proof (effect_b_trans _ _ _ _ _ _ _ _ _ _ _ H13 H4) as H. clear H13 H4.
  rewrite orb_false_r in H. eapply effect_ext; [..|exact H]; unfold nil_T, nil_Z; clear H.
  - intros t. unfold retired. tauto.
  - intros t. clear -Hi. unfold requeued. split.
    + intros [[Hl _]|[Hd H]].
      * destruct Hl as [[Hl _]|[]]. destruct Hl as [[Hl _]|[]].
        destruct Hl as (g & Ht & Hm & Hd & Hnd). split; [done|]. right. eauto.
      * split; [done|]. case_bool_decide as Himg; [right|by left].
        destruct (identity_changed old new) eqn:Hid; simpl in H.
        -- apply (per_gpu_due _ _ _ Hd) in H as [g Hg]. eauto.
        -- destruct (bool_decide (pi_gpus new = ∅)) eqn:He; simpl in H.
           ++ apply bool_decide_eq_true in He. destruct (bool_decide (pi_gpus old = ∅)); simpl in H.
              ** destruct H as (g & Ht & Hm). eauto.
              ** apply (per_gpu_due _ _ _ Hd) in H as [g Hg].
                 pose proof (due_gpu_some _ _ _ _ Hd Hg) as Hs. rewrite He, lookup_empty in Hs. by destruct Hs.
           ++ destruct H as (g & Ht & Hm). eauto.
    + intros [Hd H]. destruct (bool_decide (pi_agent_image new = pi_agent_image old)) eqn:Himg; [|by right].
      destruct H as [H|(g & Ht & H)]; [by apply bool_decide_eq_true in Himg|].
      destruct (identity_changed old new) eqn:Hid; simpl.
      * right. split; [done|]. apply (per_gpu_due _ _ _ Hd). eauto.
      * pose proof (due_gpu_some _ _ _ _ Hd Ht) as Hs.
        rewrite (bool_decide_eq_false_2 (pi_gpus new = ∅)); [simpl|intros He; rewrite He, lookup_empty in Hs; by destruct Hs].
        destruct (decide (moved_gpu old new g)) as [Hm|Hm]; [right; eauto|left].
        destruct H as [?|[?|Hnd]]; [done|done|]. split; [left|tauto].
        split; [left; split; [|tauto]; eauto|]. intros [? _]. done.
  - intros g. unfold unpassed. tauto.
Qed.
