(* ===== verification/ProbeInv.v ===== *)
(** * The scheduler's invariant

    What dispatching does ([dispatched]), the invariant of the scheduler ([wf]) and that every
    event keeps it. *)
From S2P Require Import Prelude Probe ProbeProofs.
From stdpp Require Import gmap.

(** ** Dispatching *)

(** Something may be started. *)
Definition idle (s : Scheduler) : Prop :=
  s_registered s = true ∧ s_launching s = false ∧ s_running s = None ∧ s_reconciling s = None.

Definition floor_due (s : Scheduler) (t : ProbeTarget) : Prop :=
  media_floor t ∈ s_pending s ∨ media_floor t ∈ s_gate_waiting s.

(** [t] may run now, but for an earlier container of its kind. *)
Definition ready (s : Scheduler) (t : ProbeTarget) : Prop :=
  ∀ g, t_gpu t = Some g → (g ∉ s_live_gpus s) ∧ (is_Some (t_codec t) → (¬ floor_due s t) ∧ g ∈ s_media_passed s).

(** A codec target whose GPU's media probe concluded without a pass. *)
Definition droppable (s : Scheduler) (t : ProbeTarget) : Prop :=
  ∃ g, t_gpu t = Some g ∧ is_Some (t_codec t) ∧ (g ∉ s_live_gpus s) ∧ (¬ floor_due s t) ∧ g ∉ s_media_passed s.

(** Why a pending target does not run while nothing else does. *)
Definition waits (rf : option ProbeKind) (s : Scheduler) (t : ProbeTarget) : Prop :=
  (∃ g, t_gpu t = Some g ∧ (g ∈ s_live_gpus s ∨ (is_Some (t_codec t) ∧ floor_due s t))) ∨
  (t_kind t ∈ s_unreconciled s ∧ rf = Some (t_kind t)).

Definition dropping (drop : gset ProbeTarget) (s : Scheduler) : Scheduler := with_pending (s_pending s ∖ drop) s.
Definition starting (t : ProbeTarget) (s : Scheduler) : Scheduler :=
  with_running (Some (mkRunning t false false false)) (with_pending (s_pending s ∖ {[t]}) s).

Inductive dispatched (rf : option ProbeKind) (σ : St) : St → Prop :=
| dp_busy : ¬ idle σ.1 → dispatched rf σ σ
| dp_none drop :
    idle σ.1 → (∀ t, t ∈ drop → t ∈ s_pending σ.1 ∧ droppable σ.1 t) →
    (∀ t, t ∈ s_pending σ.1 → t ∉ drop → waits rf σ.1 t) →
    dispatched rf σ (upd (dropping drop) σ)
| dp_start drop t :
    idle σ.1 → (∀ t, t ∈ drop → t ∈ s_pending σ.1 ∧ droppable σ.1 t) →
    t ∈ s_pending σ.1 → t ∉ drop → ready σ.1 t → t_kind t ∉ s_unreconciled σ.1 →
    dispatched rf σ (push (Start t) (upd (starting t) (upd (dropping drop) σ)))
| dp_reconcile drop t :
    idle σ.1 → (∀ t, t ∈ drop → t ∈ s_pending σ.1 ∧ droppable σ.1 t) →
    t ∈ s_pending σ.1 → t ∉ drop → ready σ.1 t → t_kind t ∈ s_unreconciled σ.1 → rf ≠ Some (t_kind t) →
    dispatched rf σ (push (Reconcile (t_kind t)) (upd (with_reconciling (Some (t_kind t))) (upd (dropping drop) σ))).

Lemma dispatch_order_elem p t : t ∈ dispatch_order p ↔ t ∈ p.
Proof.
  unfold dispatch_order. rewrite elem_of_app, !list_elem_of_filter, elem_of_ordered.
  destruct (decide (t_codec t = None)); tauto.
Qed.

Lemma floor_not_codec t : t_codec (media_floor t) = None.
Proof. done. Qed.

(** The loop has dropped [drop] of what was pending and has [ts] left. *)
Lemma dispatch_loop_spec rf σ ts drop :
  idle σ.1 → (∀ t, t ∈ drop → t ∈ s_pending σ.1 ∧ droppable σ.1 t) →
  NoDup ts → (∀ t, t ∈ ts → t ∈ s_pending σ.1 ∧ t ∉ drop) →
  (∀ t, t ∈ s_pending σ.1 → t ∉ drop → t ∉ ts → waits rf σ.1 t) →
  dispatched rf σ (dispatch_loop rf ts (upd (dropping drop) σ)).
Proof.
  intros Hidle. revert drop. induction ts as [|t ts IH]; intros drop Hdrop Hnd Hts Hrest; cbn [dispatch_loop].
  { apply dp_none; [done|done|]. intros t Ht Hn. apply Hrest; [done|done|]. apply not_elem_of_nil. }
  apply NoDup_cons in Hnd as [Hni Hnd].
  assert (∀ t', t_codec t' = None → t' ∈ s_pending (dropping drop σ.1) ↔ t' ∈ s_pending σ.1) as Hfl.
  { intros t' Hc. simpl. rewrite elem_of_difference. split; [tauto|]. intros H. split; [done|].
    intros (_ & g & _ & [c Hc'] & _)%Hdrop. congruence. }
  assert (∀ t', t_codec t' = None → bool_decide (t' ∈ s_pending (dropping drop σ.1)) || bool_decide (t' ∈ s_gate_waiting (dropping drop σ.1)) = true
     ↔ t' ∈ s_pending σ.1 ∨ t' ∈ s_gate_waiting σ.1) as Hfd.
  { intros t' Hc. rewrite orb_true_iff, !bool_decide_eq_true, (Hfl t' Hc). done. }
  destruct (Hts t ltac:(apply elem_of_cons; by left)) as [Htp Htd].
  assert (waits rf σ.1 t → dispatched rf σ (dispatch_loop rf ts (upd (dropping drop) σ))) as Hskip.
  { intros Hw. apply IH; [done|done| |].
    - intros t' Ht'. apply Hts, elem_of_cons. by right.
    - intros t' H1 H2 H3. destruct (decide (t' = t)) as [->|Hne]; [done|]. apply Hrest; [done|done|].
      rewrite elem_of_cons. tauto. }
  cbn [upd fst snd].
  set (take := if bool_decide (t_kind t ∈ s_unreconciled (dropping drop σ.1)) then _ else _).
  assert (ready σ.1 t → dispatched rf σ take) as Htake.
  { intros Hr. unfold take. cbn [dropping with_pending s_unreconciled]. case_bool_decide as Hu; [case_bool_decide as Hrf|].
    - apply Hskip. by right.
    - by apply (dp_reconcile rf σ drop t).
    - by apply (dp_start rf σ drop t). }
  destruct (t_gpu t) as [g|] eqn:Hg.
  2: { apply Htake. intros g' Hg'. congruence. }
  cbn [dropping with_pending s_live_gpus s_media_passed]. case_bool_decide as Hl.
  { apply Hskip. left. eauto. }
  destruct (t_codec t) as [c|] eqn:Hc.
  2: { apply Htake. intros g' Hg'. simplify_eq. split; [done|]. intros [? ?]. congruence. }
  destruct (bool_decide (media_floor t ∈ _) || _) eqn:Hfloor.
  { apply Hskip. left. exists g. split; [done|]. right. split; [by eexists|]. by apply Hfd. }
  assert (¬ floor_due σ.1 t) as Hnf.
  { intros H. apply (Hfd (media_floor t) eq_refl) in H. by rewrite H in Hfloor. }
  clear Hfloor. case_bool_decide as Hp; cbn [negb].
  { apply Htake. intros g' Hg'. by simplify_eq. }
  match goal with |- dispatched _ _ (dispatch_loop _ _ ?x) =>
    replace x with (upd (dropping ({[t]} ∪ drop)) σ) end.
  2: { unfold upd, dropping, with_pending. cbn. do 2 f_equal. set_solver. }
  apply IH; [|done| |].
  - intros t' [->%elem_of_singleton|H]%elem_of_union; [|by apply Hdrop]. split; [done|].
    exists g. by split_and!.
  - intros t' Ht'. destruct (Hts t' ltac:(apply elem_of_cons; by right)). set_solver.
  - intros t' H1 H2 H3. apply Hrest; [done|set_solver|set_solver].
Qed.

Lemma dispatch_spec rf σ : dispatched rf σ (dispatch rf σ).
Proof.
  unfold dispatch. destruct (_ || _) eqn:Hb.
  - apply dp_busy. intros (H1 & H2 & H3 & H4). by rewrite H1, H2, H3, H4 in Hb.
  - assert (idle σ.1) as Hi.
    { unfold idle. apply orb_false_iff in Hb as [[[H1 H2]%orb_false_iff H3]%orb_false_iff H4].
      apply negb_false_iff in H1. apply bool_decide_eq_false in H3. apply bool_decide_eq_false in H4.
      split_and!; [done..| |]; by apply eq_None_not_Some. }
    assert (upd (dropping ∅) σ = σ) as Hσ.
    { destruct σ as [[] a]. unfold upd, dropping, with_pending. cbn. do 2 f_equal. set_solver. }
    pose proof (dispatch_loop_spec rf σ (dispatch_order (s_pending σ.1)) ∅) as H. rewrite Hσ in H.
    apply H; [done|set_solver| | |].
    + unfold dispatch_order, ordered. apply NoDup_app. split_and!.
      * apply NoDup_filter. rewrite sorting.merge_sort_Permutation. apply NoDup_elements.
      * intros t [Ht _]%list_elem_of_filter [Ht' _]%list_elem_of_filter. done.
      * apply NoDup_filter. rewrite sorting.merge_sort_Permutation. apply NoDup_elements.
    + intros t. rewrite dispatch_order_elem. set_solver.
    + intros t Ht _ H'. by rewrite dispatch_order_elem in H'.
Qed.

(** ** The invariant *)

Record wf_running (s : Scheduler) (r : Running) : Prop := mkWfRunning {
  wr_shaped : shaped (r_target r);
  wr_due : r_discard r = false → due (s_kinds s) (s_inputs s) (r_target r);
  wr_preempted : r_discard r = true → r_preempted r = true;
  wr_stale : r_stale_evidence r = true → t_kind (r_target r) = PkMedia → r_discard r = true;
  wr_alone : s_reconciling s = None }.

Record wf (s : Scheduler) : Prop := mkWf {
  wf_pending t : t ∈ s_pending s → due (s_kinds s) (s_inputs s) t;
  wf_gate t : t ∈ s_gate_waiting s → due (s_kinds s) (s_inputs s) t;
  wf_run r : s_running s = Some r → wf_running s r;
  wf_passed g : g ∈ s_media_passed s → PkMedia ∈ s_kinds s ∧ ∃ i, s_inputs s = Some i ∧ is_Some (pi_gpus i !! g);
  wf_reconciling k : s_reconciling s = Some k → k ∈ s_unreconciled s }.

Lemma wf_fresh kinds : wf (with_kinds kinds).
Proof. by split. Qed.

(** The parts of the state the invariant reads. *)
Lemma wf_ext s s' :
  s_kinds s' = s_kinds s → s_inputs s' = s_inputs s → s_reconciling s' = s_reconciling s →
  s_unreconciled s' = s_unreconciled s →
  (∀ t, t ∈ s_pending s' → t ∈ s_pending s ∨ t ∈ s_gate_waiting s ∨ due (s_kinds s) (s_inputs s) t) →
  (∀ t, t ∈ s_gate_waiting s' → t ∈ s_gate_waiting s ∨ due (s_kinds s) (s_inputs s) t) →
  (∀ g, g ∈ s_media_passed s' → g ∈ s_media_passed s ∨ PkMedia ∈ s_kinds s ∧ ∃ i, s_inputs s = Some i ∧ is_Some (pi_gpus i !! g)) →
  (∀ r', s_running s' = Some r' → ∃ r, s_running s = Some r ∧ r_target r' = r_target r ∧ r_discard r' = r_discard r ∧
     (r_preempted r = true → r_preempted r' = true) ∧ r_stale_evidence r' = r_stale_evidence r) →
  wf s → wf s'.
Proof.
  intros Hk Hi Hrc Hu Hp Hg Hm Hr [W1 W2 W3 W4 W5]. split; rewrite ?Hk, ?Hi, ?Hu, ?Hrc; try done.
  - intros t [H|[H|H]]%Hp; auto.
  - intros t [H|H]%Hg; auto.
  - intros r' (r & H & E1 & E2 & E3 & E4)%Hr. destruct (W3 r H) as [V1 V2 V3 V4 V5].
    split; rewrite ?E1, ?E2, ?E4, ?Hk, ?Hi, ?Hrc; auto.
  - intros g [H|H]%Hm; auto.
Qed.

Lemma wf_dispatched rf σ σ' : wf σ.1 → dispatched rf σ σ' → wf σ'.1.
Proof.
  intros W [?|drop Hi|drop t Hi _ Ht _|drop t Hi _ Ht _ _ Hu]; [done|..]; destruct Hi as (_ & _ & Hr & Hrc).
  - eapply wf_ext; [..|exact W]; simpl; try done; [set_solver..|]. intros r'. rewrite Hr. done.
  - destruct W as [W1 W2 W3 W4 W5]. split; simpl; try done; [set_solver|].
    intros r [= <-]. pose proof (W1 t Ht) as Hd.
    split; simpl; try done. by destruct (proj1 (due_iff _ _) Hd).
  - destruct W as [W1 W2 W3 W4 W5]. split; simpl; try done; [set_solver| |].
    + intros r. rewrite Hr. done.
    + intros k [= <-]. done.
Qed.

Lemma media_of_due K i t : due K (Some i) t → t_kind t = PkMedia → media_targets K i t.
Proof.
  intros Hd Hk. split; [rewrite <- Hk; by eapply due_kind|].
  inversion Hd as [|k g i' [= <-] ? ? Hg|g c i' [= <-] ? Hg Hc]; subst; simpl in *; subst; [done|left; eauto|right; eauto].
Qed.

(** A running probe the inventory's change leaves alone is still due. *)
Lemma due_kept K old new t :
  due K (Some old) t → ¬ retired K old new t → due K (Some new) t ∧
  (∀ g, t_gpu t = Some g → ¬ moved_gpu old new g) ∧ (identity_changed old new = true → t_kind t ≠ PkMedia).
Proof.
  intros Hd Hn. assert (due K (Some new) t) as Hd'.
  { destruct (t_gpu t) as [g|] eqn:Hg; [|by eapply due_host_any].
    apply dec_stable. intros H. apply Hn. left. eauto. }
  split_and!; [done| |].
  - intros g Hg Hm. apply Hn. left. eauto.
  - intros Hid Hk. apply Hn. right. split; [done|]. by apply media_of_due.
Qed.

Lemma wf_observe new σ : wf σ.1 → is_Some (s_inputs σ.1) → wf (observe new σ).1.
Proof.
  intros [W1 W2 W3 W4 W5] [old Hi]. rewrite Hi in W1, W2, W4.
  destruct (effect_observe old new σ Hi) as [Ho Hp Hg Hm (acts & _ & _ & Hr & _)].
  set (K := s_kinds σ.1) in *. set (σ' := observe new σ) in *. clearbody σ'.
  unfold other in Ho. cbn [upd fst snd with_inputs s_kinds s_registered s_inputs s_live_gpus s_launching s_unreconciled s_reconciling] in Ho.
  injection Ho as Ek _ Ei _ _ Eu Er.
  assert (∀ t, due K (Some old) t → ¬ retired K old new t → due K (Some new) t) as Hkeep.
  { intros t H1 H2. by destruct (due_kept K old new t H1 H2). }
  split; rewrite ?Ek, ?Ei, ?Er, ?Eu; fold K.
  - intros t [[H Hn]|[H _]]%Hp; [|done]. by apply Hkeep; [apply W1|].
  - intros t [H Hn]%Hg. by apply Hkeep; [apply W2|].
  - intros r' Hr'. rewrite Hr' in Hr. cbn [upd fst snd with_inputs s_running] in Hr. unfold run_effect in Hr.
    destruct (s_running σ.1) as [r|] eqn:Hrun; [|done]. destruct Hr as (E1 & E2 & E3 & E4 & _).
    destruct (W3 r eq_refl) as [V1 V2 V3 V4 V5]. rewrite Hi in V2. fold K in V2.
    split; rewrite ?E1, ?Ek, ?Ei; fold K; [done|..].
    + intros Hd. assert (¬ (r_discard r = true ∨ retired K old new (r_target r))) as Hn by (rewrite <- E2; congruence).
      apply Hkeep; [|tauto]. apply V2. destruct (r_discard r); tauto.
    + rewrite E2, E3. tauto.
    + rewrite E4, orb_true_iff, E2. intros [H|Hid] Hk; [left; by apply V4|].
      destruct (r_discard r) eqn:Hd; [by left|right].
      destruct (decide (t_gpu (r_target r) = None ∨ due K (Some new) (r_target r))) as [[H|H]|H].
      * specialize (V2 eq_refl). inversion V2 as [k Hkk Hp' Heq|k g i ? ? ? ? Heq|g c i ? ? ? ? Heq]; rewrite <- Heq in *; simpl in *; [|done..].
        by subst k.
      * right. split; [done|]. by apply media_of_due.
      * left. destruct (t_gpu (r_target r)) as [g|] eqn:Hgpu; [|tauto]. exists g. split_and!; [done|by apply V2|]. tauto.
    + by rewrite Er.
  - intros g [H Hn]%Hm. destruct (W4 g H) as [HM (i & [= <-] & Hs)]. split; [done|]. exists new. split; [done|].
    apply (not_moved_some old new g); [|done]. intros Hmv. apply Hn. left. done.
  - done.
Qed.

(** ** What an event does *)

(** The running probe over an event, and the actions [new] it pushed. *)
Definition run_change (new : list Action) (r r' : option Running) : Prop :=
  match r, r' with
  | Some r, Some r' =>
      r_target r' = r_target r ∧ (r_discard r = true → r_discard r' = true) ∧
      (r_preempted r = true → r_preempted r' = true) ∧
      (Exists is_preempt new ↔ r_preempted r' = true ∧ r_preempted r = false)
  | _, None => Forall (λ a, ¬ is_preempt a) new
  | None, Some _ => False
  end.

Definition stamp_of (i : option ProbeInputs) (g : Z) : option EvidenceStamp := i ≫= λ i, inputs_stamp i g.

(** The inventory over an event: what is not forgotten keeps its stack. *)
Record event_effect (s s' : Scheduler) (new : list Action) : Prop := mkEventEffect {
  ev_wf : wf s';
  ev_kinds : s_kinds s' = s_kinds s;
  ev_plain : Forall (λ a, ¬ is_dispatch a) new;
  ev_run : run_change new (s_running s) (s_running s');
  ev_reconciling : s_reconciling s' = s_reconciling s ∨ s_reconciling s' = None;
  ev_kept t g : due (s_kinds s) (s_inputs s) t → t_gpu t = Some g → t_kind t = PkMedia → Forget t ∉ new →
    due (s_kinds s) (s_inputs s') t ∧ evidence_stamp s' g = evidence_stamp s g;
  ev_discard r r' : s_running s = Some r → s_running s' = Some r' → r_discard r' = false →
    is_Some (t_gpu (r_target r)) → Forget (r_target r) ∉ new }.

(** An event that leaves the inventory and what passed alone. *)
Lemma event_plain s s' new :
  wf s' → s_kinds s' = s_kinds s → s_inputs s' = s_inputs s →
  (s_reconciling s' = s_reconciling s ∨ s_reconciling s' = None) →
  Forall (λ a, match a with Preempt _ => True | _ => False end) new →
  run_change new (s_running s) (s_running s') → event_effect s s' new.
Proof.
  intros W Hk Hi Hrc Hn Hr. split; try done.
  - eapply Forall_impl; [exact Hn|]. intros []; simpl; tauto.
  - intros t g Hd _ _ _. unfold evidence_stamp. rewrite Hi. done.
  - intros r r' _ _ _ _ Hf. rewrite Forall_forall in Hn. by apply Hn in Hf.
Qed.

Lemma run_change_same r : run_change [] r r.
Proof.
  unfold run_change. destruct r; [|constructor]. split_and!; try done. split; [by inversion 1|]. intros [? ?]. congruence.
Qed.

Lemma wf_preempt σ : wf σ.1 → wf (preempt σ).1.
Proof.
  intros W. unfold preempt. destruct (s_running σ.1) as [r|] eqn:Hr; [|done]. destruct (r_preempted r) eqn:Hp; [done|].
  eapply wf_ext; [..|exact W]; simpl; try done; [auto..|]. intros r' [= <-]. by exists r.
Qed.

Lemma event_preempt s f :
  wf s → (∀ s, wf s → wf (f s)) → other (f s) = (s_kinds s, s_registered (f s), s_inputs s, s_live_gpus (f s), s_launching (f s), s_unreconciled s, s_reconciling s) →
  s_running (f s) = s_running s →
  ∃ new, (preempt (upd f (s, []))).2 = new ∧ event_effect s (preempt (upd f (s, []))).1 new ∧
    Forall (λ a, ∃ t, a = Preempt t) new ∧ s_media_passed (preempt (upd f (s, []))).1 = s_media_passed (f s).
Proof.
  intros W Hf Ho Hr. eexists. split; [done|].
  assert (wf (preempt (upd f (s, []))).1) as W' by (by apply wf_preempt, Hf).
  unfold other in Ho. injection Ho as E1 E2 E3 E4. revert W'. unfold preempt. simpl. rewrite Hr.
  destruct (s_running s) as [r|] eqn:Hrun; [destruct (r_preempted r) eqn:Hp|]; simpl; intros W'.
  - split_and!; [|constructor|done]. apply event_plain; [done|done|done|by left|by constructor|].
    rewrite Hr, Hrun. apply run_change_same.
  - split_and!; [|by repeat econstructor|done]. apply event_plain; [done|done|done|by left|by repeat constructor|].
    simpl. rewrite Hrun. unfold run_change. simpl. split_and!; try done.
    split; [done|]. intros _. by constructor.
  - split_and!; [|constructor|done]. apply event_plain; [done|done|done|by left|by constructor|].
    rewrite Hr, Hrun. apply run_change_same.
Qed.

(** A new inventory. *)
Lemma event_observe i s :
  wf s → is_Some (s_inputs s) → event_effect s (observe i (s, [])).1 (observe i (s, [])).2.
Proof.
  intros W [old Hi]. assert (wf (observe i (s, [])).1) as W' by (apply wf_observe; [done|by eexists]).
  destruct (effect_observe old i (s, []) Hi) as [Ho _ _ _ (new & E & Hn & Hr & Hf & Hf')].
  simpl in E. rewrite E. simpl in Ho, Hr. unfold other in Ho. injection Ho as Ek _ Ei _ _ _ Erc. split; try done.
  - unfold run_effect in Hr. unfold run_change. destruct (s_running s), (s_running (observe i (s, [])).1); try done.
    destruct Hr as (? & H2 & H3 & _ & ?). split_and!; try done; [rewrite H2|rewrite H3]; tauto.
  - left. done.
  - intros t g Hd Hg Hk Hnf. rewrite Hi in Hd.
    destruct (due_kept _ old i t Hd) as (Hd' & Hm & Hid); [intros H; by apply Hnf, Hf|].
    rewrite Ei. split; [done|]. unfold evidence_stamp. rewrite Ei, Hi. simpl. unfold inputs_stamp.
    assert (identity_changed old i = false) as Hic by (by destruct (identity_changed old i); [destruct (Hid eq_refl)|]).
    unfold identity_changed in Hic. rewrite !orb_false_iff, !negb_false_iff, !bool_decide_eq_true in Hic.
    destruct Hic as [[-> ->] ->]. specialize (Hm g Hg). unfold moved_gpu in Hm. apply dec_stable in Hm. by rewrite Hm.
  - intros r r' Hrr Hrr' Hd Hg Hfo. unfold run_effect in Hr. rewrite Hrr, Hrr' in Hr. destruct Hr as (_ & H2 & _).
    destruct (Hf' _ Hfo) as [H|H]; [|rewrite H in Hg; by destruct Hg].
    assert (r_discard r' = true) by (apply H2; by right). congruence.
Qed.

(** Targets added to the pending ones, and nothing else. *)
Definition grown (X : ProbeTarget → Prop) (σ σ' : St) : Prop :=
  ∃ p, σ' = upd (with_pending p) σ ∧ (∀ t, t ∈ p ↔ t ∈ s_pending σ.1 ∨ X t).

Lemma grown_refl σ : grown (λ _, False) σ σ.
Proof. exists (s_pending σ.1). split; [by destruct σ as [[] ?]|tauto]. Qed.

Lemma grown_ext X Y σ σ' : (∀ t, X t ↔ Y t) → grown X σ σ' → grown Y σ σ'.
Proof. intros H (p & -> & Hp). exists p. split; [done|]. intros t. by rewrite Hp, H. Qed.

Lemma grown_enqueue t σ : grown (λ t', t' = t) σ (enqueue t σ).
Proof. exists ({[t]} ∪ s_pending σ.1). split; [done|]. set_solver. Qed.

Lemma grown_trans X Y σ0 σ1 σ2 : grown X σ0 σ1 → grown Y σ1 σ2 → grown (λ t, X t ∨ Y t) σ0 σ2.
Proof.
  intros (p & -> & Hp) (q & -> & Hq). exists q. split; [done|]. intros t. rewrite Hq. simpl. rewrite Hp. tauto.
Qed.

Lemma grown_for_each {A} (xs : list A) body (X : A → ProbeTarget → Prop) σ :
  (∀ x p, x ∈ xs → grown (X x) (upd (with_pending p) σ) (body x (upd (with_pending p) σ))) →
  grown (λ t, ∃ x, x ∈ xs ∧ X x t) σ (for_each xs body σ).
Proof.
  intros H. assert (∀ p, grown (λ t, ∃ x, x ∈ xs ∧ X x t) (upd (with_pending p) σ) (for_each xs body (upd (with_pending p) σ))) as Hp.
  { induction xs as [|x xs IH]; intros p.
    - eapply grown_ext; [|apply grown_refl]. set_solver.
    - assert (∀ y p, y ∈ xs → grown (X y) (upd (with_pending p) σ) (body y (upd (with_pending p) σ))) as H' by set_solver.
      destruct (H x p ltac:(set_solver)) as (q & Eq & Hq). unfold for_each in *. cbn [foldl].
      change (upd (with_pending q) (upd (with_pending p) σ)) with (upd (with_pending q) σ) in Eq. rewrite Eq.
      destruct (IH H' q) as (q' & Eq' & Hq'). exists q'. split; [exact Eq'|]. intros t. rewrite Hq'. simpl. rewrite Hq. set_solver. }
  specialize (Hp (s_pending σ.1)). by destruct σ as [[] ?].
Qed.

Lemma grown_queue_codecs gpu σ :
  grown (λ t, PkMedia ∈ s_kinds σ.1 ∧ ∃ i c, s_inputs σ.1 = Some i ∧ c ∈ codecs_of i gpu ∧ t = codec_target gpu c)
    σ (queue_codecs gpu σ).
Proof.
  unfold queue_codecs. case_bool_decide as Hm; simpl.
  - eapply grown_ext; [|apply grown_for_each; intros c p _; apply grown_enqueue].
    intros t. cbv beta. setoid_rewrite elem_of_ordered. destruct (s_inputs σ.1); set_solver.
  - eapply grown_ext; [|apply grown_refl]. naive_solver.
Qed.

Definition failed_targets (s : Scheduler) (gpu : Z) (explains : gset ProbeKind) (codec : option ProbeCodec) (t : ProbeTarget) : Prop :=
  exists_target s t = true ∧
  ((∃ k, k ∈ explains ∧ t = if per_gpu k then gpu_target k gpu else host_target k) ∨
   (PkMedia ∈ explains ∧ ∃ c, codec = Some c ∧ t = codec_target gpu c)).

Lemma exists_with_pending p s t : exists_target (with_pending p s) t = exists_target s t.
Proof. done. Qed.

Lemma grown_queue_failed gpu explains codec σ :
  grown (failed_targets σ.1 gpu explains codec) σ (queue_failed gpu explains codec σ).
Proof.
  unfold queue_failed.
  assert (∀ t (p : gset ProbeTarget), grown (λ t', t' = t ∧ exists_target σ.1 t' = true) (upd (with_pending p) σ) (enqueue_existing t (upd (with_pending p) σ))) as Henq.
  { intros t p. unfold enqueue_existing. simpl. rewrite exists_with_pending. destruct (exists_target σ.1 t) eqn:He.
    - eapply grown_ext; [|apply grown_enqueue]. intros t'. split; [intros ->; done|by intros [-> _]].
    - eapply grown_ext; [|apply grown_refl]. intros t'. split; [done|]. intros [-> ?]. congruence. }
  pose proof (grown_for_each (ordered kind_le explains)
     (λ kind, enqueue_existing (if per_gpu kind then gpu_target kind gpu else host_target kind))
     _ σ (λ k p _, Henq _ p)) as Hg.
  destruct codec as [c|]; [case_bool_decide as Hm|].
  - destruct Hg as (p & -> & Hp). eapply grown_ext; [|eapply grown_trans; [exists p; split; [done|exact Hp]|apply Henq]].
    intros t. cbv beta. setoid_rewrite elem_of_ordered. unfold failed_targets. naive_solver.
  - eapply grown_ext; [|exact Hg]. intros t. cbv beta. setoid_rewrite elem_of_ordered. unfold failed_targets. naive_solver.
  - eapply grown_ext; [|exact Hg]. intros t. cbv beta. setoid_rewrite elem_of_ordered. unfold failed_targets. naive_solver.
Qed.

Lemma failed_targets_due s gpu explains codec t :
  failed_targets s gpu explains codec t → due (s_kinds s) (s_inputs s) t.
Proof.
  intros [He H]. apply due_iff. split; [done|]. destruct H as [(k & _ & ->)|(_ & c & _ & ->)]; [|done].
  destruct (per_gpu k) eqn:Hp; [by unfold shaped; simpl|done].
Qed.

Lemma wf_grown X σ σ' : wf σ.1 → grown X σ σ' → (∀ t, X t → due (s_kinds σ.1) (s_inputs σ.1) t) → wf σ'.1.
Proof.
  intros W (p & -> & Hp) HX. eapply wf_ext; [..|exact W]; simpl; try done; [|auto..|].
  - intros t [H|H]%Hp; auto.
  - intros r Hr. by exists r.
Qed.

(** What a media probe's end says of its GPU; [None] for everything else. *)
Definition floor_verdict (s : Scheduler) (ev : Event) : option (Z * Verdict) :=
  match ev with
  | ProbeFinished t _ v =>
      match s_running s, t_kind t, t_gpu t, t_codec t with
      | Some r, PkMedia, Some g, None =>
          if bool_decide (r_target r = t) && accepts_result s t then Some (g, v) else None
      | _, _, _, _ => None
      end
  | _ => None
  end.

(** The GPUs whose media probe passed: forgotten with the check, and moved by a verdict. *)
Definition passed_effect (ev : Event) (s s' : Scheduler) (new : list Action) : Prop :=
  ∀ g, g ∈ s_media_passed s' ↔
    match floor_verdict s ev with
    | Some (g', v) =>
        if decide (g = g') then match v with Passed => True | NotPassed => False | Inconclusive => g ∈ s_media_passed s end
        else g ∈ s_media_passed s
    | None => g ∈ s_media_passed s
    end ∧ Forget (gpu_target PkMedia g) ∉ new.

Lemma passed_same ev s s' new :
  floor_verdict s ev = None → s_media_passed s' = s_media_passed s → Forall (λ a, ∃ t, a = Preempt t) new →
  passed_effect ev s s' new.
Proof.
  intros Hv Hs Hn g. rewrite Hv, Hs. split; [|tauto]. intros H. split; [done|].
  rewrite Forall_forall in Hn. by intros [t ?]%Hn.
Qed.

Lemma passed_observe i s ev :
  wf s → is_Some (s_inputs s) → floor_verdict s ev = None →
  passed_effect ev s (observe i (s, [])).1 (observe i (s, [])).2.
Proof.
  intros W [old Hi] Hv g. rewrite Hv.
  destruct (effect_observe old i (s, []) Hi) as [_ _ _ Hm (new & E & _ & _ & Hf & Hf')].
  simpl in E. rewrite E, Hm. simpl.
  assert (g ∈ s_media_passed s → unpassed old i g ↔ Forget (gpu_target PkMedia g) ∈ new) as Hiff; [|tauto].
  intros Hg. destruct (wf_passed s W g Hg) as [HM (i' & Hi' & Hs)]. rewrite Hi in Hi'. injection Hi' as <-.
  split.
  - intros H. apply Hf. destruct H as [[_ Hmv]|Hid].
    + left. exists g. split_and!; [done|by eapply due_gpu|by left].
    + destruct (decide (moved_gpu old i g)) as [Hmv|Hmv].
      * left. exists g. split_and!; [done|by eapply due_gpu|by left].
      * right. split; [done|]. split; [done|]. left. exists g. split; [|done]. by apply (not_moved_some old i g).
  - intros H. destruct (Hf' _ H) as [[(g' & [= <-] & _ & [Hmv|Hnd])|[Hid _]]|?]; [left; done| |by right|done].
    left. split; [done|]. intros Heq. apply Hnd. eapply due_gpu; [done|done|done|]. by rewrite Heq.
Qed.

Lemma event_registered_first i s :
  wf s → s_inputs s = None →
  let σ := upd (with_inputs (Some i)) (queue_kinds KIND_ALL i (s, [])) in
  event_effect s σ.1 σ.2 ∧ passed_effect (Registered i) s σ.1 σ.2.
Proof.
  intros W Hi. pose proof (effect_queue_kinds KIND_ALL i (s, [])) as HE.
  set (σq := queue_kinds KIND_ALL i (s, [])) in *. clearbody σq. cbv zeta.
  destruct HE as [Ho Hp Hg Hm (new & E & Hn & Hr & Hf & Hf')].
  unfold nil_T, nil_Z in *. simpl in E, Ho. unfold other in Ho. injection Ho as Ek _ _ _ _ Eu Erc.
  simpl. rewrite E. split; [split|]; simpl; try done.
  - split; simpl; rewrite ?Ek, ?Eu, ?Erc.
    + intros t [[H _]|[_ H]]%Hp; [|done]. apply (wf_pending s W) in H. rewrite Hi in H.
      inversion H; subst; try done. by apply due_host.
    + intros t [H _]%Hg. apply (wf_gate s W) in H. rewrite Hi in H. inversion H; subst; try done. by apply due_host.
    + intros r' Hr'. simpl in Hr. rewrite Hr' in Hr. unfold run_effect in Hr.
      destruct (s_running s) as [r|] eqn:Hrun; [|done]. destruct Hr as (E1 & E2 & E3 & E4 & _).
      destruct (wf_run s W r Hrun) as [V1 V2 V3 V4 V5]. rewrite Hi in V2.
      split; simpl; rewrite ?E1, ?E2, ?E3, ?Ek; try done.
      * intros Hd. assert (r_discard r = false) as H0 by (destruct (r_discard r); [|done]; by rewrite (proj2 E2 (or_introl eq_refl)) in Hd).
        specialize (V2 H0). inversion V2; subst; try done. by apply due_host.
      * tauto.
      * rewrite E4, orb_false_r. intros H1 H2. left. by apply V4.
      * by rewrite Erc.
    + intros g [H _]%Hm. destruct (wf_passed s W g H) as [HM (i' & Hi' & _)]. congruence.
    + apply (wf_reconciling s W).
  - unfold run_effect in Hr. unfold run_change. simpl in Hr.
    destruct (s_running s), (s_running σq.1); try done.
    destruct Hr as (? & H2 & H3 & _ & ?). split_and!; try done; [rewrite H2|rewrite H3]; tauto.
  - by left.
  - intros t g Hd Hgt. rewrite Hi in Hd. inversion Hd; subst; try done.
  - intros r r' _ _ _ [g Hg'] H. destruct (Hf' _ H) as [[]|H']. congruence.
  - intros g. simpl. rewrite Hm. split.
    + intros [H _]. split; [done|]. intros H'. by destruct (Hf' _ H').
    + intros [H _]. split; [done|tauto].
Qed.

(** [media_verdict] only touches targets and what passed. *)
Lemma media_verdict_spec t v σ :
  wf σ.1 → shaped t → exists_target σ.1 t = true →
  let σ' := media_verdict t v σ in
  σ'.2 = σ.2 ∧ wf σ'.1 ∧ other σ'.1 = other σ.1 ∧ s_running σ'.1 = s_running σ.1 ∧
  (∀ g, g ∈ s_media_passed σ'.1 ↔
     if decide (t = gpu_target PkMedia g)
     then match v with Passed => True | NotPassed => False | Inconclusive => g ∈ s_media_passed σ.1 end
     else g ∈ s_media_passed σ.1).
Proof.
  intros W Hsh He σ'. assert (due (s_kinds σ.1) (s_inputs σ.1) t) as Hd by (by apply due_iff).
  destruct t as [k og oc]. unfold σ', media_verdict. simpl.
  assert (σ.2 = σ.2 ∧ wf σ.1 ∧ other σ.1 = other σ.1 ∧ s_running σ.1 = s_running σ.1) as Hsame by done.
  destruct k, og as [g|], oc as [c|];
    try (destruct_and! Hsame; split_and!; [done..|]; intros g'; by case_decide).
  destruct v.
  - set (σ1 := upd (λ s, with_media_passed ({[g]} ∪ s_media_passed s) s) σ).
    assert (wf σ1.1) as W1.
    { eapply wf_ext; [..|exact W]; simpl; try done; [auto..| |].
      - intros g' [->%elem_of_singleton|H]%elem_of_union; [right|by left].
        inversion Hd; subst. split; [done|]. eauto.
      - intros r Hr. by exists r. }
    assert (∀ g', g' ∈ s_media_passed σ1.1 ↔ if decide (gpu_target PkMedia g = gpu_target PkMedia g') then True else g' ∈ s_media_passed σ.1) as Hm.
    { intros g'. simpl. case_decide as Hg'; [injection Hg' as ->; set_solver|].
      rewrite elem_of_union, elem_of_singleton. split; [intros [->|]; done|tauto]. }
    case_bool_decide; [|by split_and!].
    destruct (grown_queue_codecs g σ1) as (p & Eq & Hp). rewrite Eq. split_and!; try done.
    assert (grown (λ t, PkMedia ∈ s_kinds σ1.1 ∧ ∃ i c, s_inputs σ1.1 = Some i ∧ c ∈ codecs_of i g ∧ t = codec_target g c) σ1 (upd (with_pending p) σ1)) as Hgr
      by (exists p; done).
    apply (wf_grown _ _ _ W1 Hgr). intros t (HM & i & c & Hi & Hc & ->).
    inversion Hd as [|k g0 i0 Hi0 _ _ Hs|]; subst. simpl in Hi. rewrite Hi0 in Hi. injection Hi as <-. by eapply due_codec.
  - split_and!; try done.
    + eapply wf_ext; [..|exact W]; simpl; try done.
      * intros t [_ H]%elem_of_filter. auto.
      * intros t [_ H]%elem_of_filter. auto.
      * set_solver.
      * intros r Hr. by exists r.
    + intros g'. simpl. case_decide as Hg'; [injection Hg' as ->; set_solver|].
      assert (g' ≠ g) by (intros ->; done). set_solver.
  - split_and!; try done. intros g'. by case_decide.
Qed.

Lemma wf_finished s r : wf s → s_running s = Some r → wf (with_running None s).
Proof.
  intros W Hr. eapply wf_ext; [..|exact W]; simpl; try done; auto.
Qed.

Lemma event_finished t rec v s :
  wf s → let σ := probe_finished t rec v (s, []) in
  event_effect s σ.1 σ.2 ∧ passed_effect (ProbeFinished t rec v) s σ.1 σ.2 ∧ σ.2 = [].
Proof.
  intros W. unfold probe_finished. simpl.
  destruct (s_running s) as [r|] eqn:Hr; [case_bool_decide as Ht|]; cycle 1.
  { split; [|split; [|done]]; [apply event_plain; [done|done|done|by left|by constructor|apply run_change_same]|].
    apply passed_same; [|done|constructor]. simpl. rewrite Hr, bool_decide_eq_false_2 by done.
    simpl. by destruct t as [[] [] []]. }
  { split; [|split; [|done]]; [apply event_plain; [done|done|done|by left|by constructor|apply run_change_same]|].
    apply passed_same; [|done|constructor]. simpl. by rewrite Hr. }
  subst t. pose proof (wf_run s W r Hr) as [V1 V2 V3 V4 V5].
  set (s1 := with_running None s). assert (wf s1) as W1 by (by eapply wf_finished).
  change (upd (with_running None) (s, [])) with ((s1, []) : St).
  set (σ2 := if r_preempted r && _ then _ else _).
  assert (wf σ2.1 ∧ σ2.2 = [] ∧ other σ2.1 = other s1 ∧ s_running σ2.1 = None ∧ s_media_passed σ2.1 = s_media_passed s) as (W2 & E2 & O2 & R2 & M2).
  { unfold σ2. destruct (r_preempted r && _) eqn:Hp; [|done]. split_and!; try done.
    apply (wf_grown _ _ _ (W1 : wf (s1, []).1) (grown_enqueue _ _)). intros t ->. apply due_iff. split; [|done].
    apply andb_true_iff in Hp as [_ Hp]. exact Hp. }
  clearbody σ2.
  set (σ3 := if rec then σ2 else _).
  assert (wf σ3.1 ∧ σ3.2 = [] ∧ s_kinds σ3.1 = s_kinds s ∧ s_inputs σ3.1 = s_inputs s ∧ s_running σ3.1 = None ∧
    s_media_passed σ3.1 = s_media_passed s ∧ (s_reconciling σ3.1 = s_reconciling s)) as (W3 & E3 & K3 & I3 & R3 & M3 & C3).
  { unfold σ3, other in *. injection O2 as ? ? ? ? ? ? ?. destruct rec; simpl; split_and!; try done.
    destruct W2 as [X1 X2 X3 X4 X5]. split; simpl; try done.
    - intros r' Hr'. congruence.
    - intros k Hk. apply elem_of_union_r. by apply X5. }
  clearbody σ3. clear σ2 W2 E2 O2 R2 M2.
  assert (exists_target σ3.1 (r_target r) = exists_target s (r_target r)) as Hex.
  { unfold exists_target. by rewrite K3, I3. }
  rewrite Hex.
  assert (accepts_result s (r_target r) = exists_target s (r_target r) && negb (r_discard r)) as Hacc.
  { unfold accepts_result, discards. rewrite Hr, bool_decide_eq_true_2 by done. done. }
  assert (∀ σ4 : St, wf σ4.1 → σ4.2 = [] → other σ4.1 = other σ3.1 → s_running σ4.1 = None →
    event_effect s σ4.1 σ4.2) as Hev.
  { intros σ4 W4 E4 O4 R4. unfold other in O4. injection O4 as ? ? ? ? ? ? ?. rewrite E4.
    apply event_plain; [done|congruence|congruence|left; congruence|constructor|rewrite Hr, R4; constructor]. }
  destruct (negb (r_discard r) && exists_target s (r_target r)) eqn:Hgo.
  - apply andb_true_iff in Hgo as [Hd He]. rewrite negb_true_iff in Hd.
    set (v' := match v with Passed => if r_stale_evidence r then _ else _ | _ => _ end).
    destruct (media_verdict_spec (r_target r) v' σ3 W3 V1 ltac:(congruence)) as (E4 & W4 & O4 & R4 & M4).
    split; [apply Hev; congruence|]. split; [|congruence]. intros g. rewrite M4, E4, E3, M3. simpl.
    rewrite Hr, Hacc, He, Hd, bool_decide_eq_true_2 by done. simpl.
    destruct (r_target r) as [k og oc] eqn:Ht. simpl.
    assert (∀ P Q : Prop, (P ↔ Q) → (P ↔ Q ∧ Forget (gpu_target PkMedia g) ∉ [])) as Hnil.
    { intros P Q ->. split; [|tauto]. intros H. split; [done|]. apply not_elem_of_nil. }
    apply Hnil. destruct k, og as [g'|], oc as [c|]; try (by case_decide).
    assert (v' = v) as ->.
    { unfold v'. destruct v; try done. destruct (r_stale_evidence r) eqn:Hst; [|done]. simpl in *. by rewrite V4 in Hd. }
    destruct (decide (g = g')) as [->|Hne]; [by rewrite decide_True|].
    rewrite decide_False; [done|]. intros [= ->]. done.
  - split; [by apply Hev|]. split; [|done]. apply passed_same; [|done|rewrite E3; constructor]. simpl. rewrite Hr.
    rewrite andb_comm in Hgo. rewrite Hacc, Hgo, andb_false_r. by destruct (r_target r) as [[] [] []].
Qed.

Lemma preempts_plain new : Forall (λ a, ∃ t, a = Preempt t) new → Forall (λ a, match a with Preempt _ => True | _ => False end) new.
Proof. intros H. eapply Forall_impl; [exact H|]. intros a [t ->]. exact I. Qed.

(** An event that pushes nothing and leaves the running probe alone. *)
Lemma event_quiet s s' ev :
  wf s' → s_kinds s' = s_kinds s → s_inputs s' = s_inputs s → s_running s' = s_running s ∨ s_running s' = None →
  s_reconciling s' = s_reconciling s ∨ s_reconciling s' = None →
  s_media_passed s' = s_media_passed s → floor_verdict s ev = None →
  event_effect s s' [] ∧ passed_effect ev s s' [].
Proof.
  intros W Hk Hi Hr Hrc Hm Hv. split; [|by apply passed_same].
  apply event_plain; [done|done|done|done|constructor|].
  destruct Hr as [->| ->]; [apply run_change_same|]. destruct (s_running s); constructor.
Qed.

(** The scheduler without its targets: the parts a change of targets leaves. *)
Lemma wf_targets s s' :
  wf s → s_kinds s' = s_kinds s → s_inputs s' = s_inputs s → s_running s' = s_running s ∨ s_running s' = None →
  s_reconciling s' = s_reconciling s → s_unreconciled s' = s_unreconciled s → s_media_passed s' = s_media_passed s →
  (∀ t, t ∈ s_pending s' → t ∈ s_pending s ∨ t ∈ s_gate_waiting s ∨ due (s_kinds s) (s_inputs s) t) →
  (∀ t, t ∈ s_gate_waiting s' → t ∈ s_gate_waiting s ∨ due (s_kinds s) (s_inputs s) t) → wf s'.
Proof.
  intros W Hk Hi Hr Hrc Hu Hm Hp Hg. eapply wf_ext; [..|exact W]; try done.
  - intros g. rewrite Hm. auto.
  - intros r Hr'. destruct Hr as [Hr|Hr]; [|congruence]. exists r. rewrite <- Hr. done.
Qed.

Lemma event_spec ev s :
  wf s → let '(σ, _) := on_event ev (s, []) in event_effect s σ.1 σ.2 ∧ passed_effect ev s σ.1 σ.2.
Proof.
  intros W. destruct ev as [i| |i|gpu|live launching|gpu explains codec|t rec v|k ok|t|]; cbn [on_event fst snd].
  - set (s1 := with_gate_waiting ∅ (with_pending (s_pending s ∪ s_gate_waiting s) (with_registered true s))).
    match goal with |- context [observe i ?x] => change x with ((s1, []) : St) end.
    assert (wf s1) as W1.
    { eapply (wf_targets s); try done; simpl; [by left|set_solver..]. }
    assert (∀ s' new, event_effect s1 s' new ∧ passed_effect (Registered i) s1 s' new →
              event_effect s s' new ∧ passed_effect (Registered i) s s' new) as Hlift by (intros s' new [[] ?]; by split).
    apply Hlift. cbn [fst]. destruct (s_inputs s1) as [old|] eqn:Hi.
    + split; [apply event_observe; [done|by eexists]|apply passed_observe; [done|by eexists|done]].
    + by apply event_registered_first.
  - destruct (event_preempt s (with_registered false) W) as (new & E & He & Hn & Hm); try done.
    { intros s' W'. eapply (wf_targets s'); try done; simpl; [by left|auto..]. }
    rewrite E. split; [done|]. by apply passed_same.
  - destruct (s_inputs s) as [old|] eqn:Hi.
    + split; [apply event_observe; [done|by eexists]|apply passed_observe; [done|by eexists|done]].
    + apply event_quiet; auto.
  - destruct (event_preempt s (λ s, with_live_gpus ({[gpu]} ∪ s_live_gpus s) (with_launching true s)) W) as (new & E & He & Hn & Hm); try done.
    { intros s' W'. eapply (wf_targets s'); try done; simpl; [by left|auto..]. }
    rewrite E. split; [done|]. by apply passed_same.
  - apply event_quiet; try done; simpl; auto. eapply (wf_targets s); try done; simpl; [by left|auto..].
  - destruct (grown_queue_failed gpu explains codec (s, [])) as (p & E & Hp). rewrite E.
    apply event_quiet; try done; simpl; auto.
    eapply (wf_targets s); try done; simpl; [by left| |auto].
    intros t [H|H]%Hp; [by left|right; right; by eapply failed_targets_due].
  - destruct (event_finished t rec v s W) as (H1 & H2 & _). done.
  - case_bool_decide as Hrc.
    + assert (wf (with_reconciling None s)) as W1.
      { destruct W as [W1 W2 W3 W4 W5]. split; simpl; try done. intros r Hr. destruct (W3 r Hr). by split. }
      destruct ok; (apply event_quiet; simpl; auto).
      destruct W1 as [W1 W2 W3 W4 W5]. split; simpl; try done. intros r Hr. destruct (W3 r Hr). by split.
    + apply event_quiet; auto.
  - destruct (s_running s) as [r|] eqn:Hr; [case_bool_decide as Ht|]; [|apply event_quiet; simpl; auto..].
    subst t. change (exists_target (upd (with_running None) (s, [])).1) with (exists_target s).
    destruct (exists_target s (r_target r)) eqn:He.
    + apply event_quiet; simpl; auto.
      eapply (wf_targets s); simpl; [done|done|done|by right|done|done|done|auto|]. intros t [->%elem_of_singleton|H]%elem_of_union; [right|by left].
      apply due_iff. split; [done|]. by apply (wf_run s W r Hr).
    + apply event_quiet; simpl; auto. by eapply wf_finished.
  - apply event_quiet; simpl; auto. eapply (wf_targets s); simpl; [done|done|done|by left|done|done|done| |set_solver].
    intros t [H|[_ H]%elem_of_filter]%elem_of_union; auto.
Qed.

(** A whole step: the event, then the dispatch. *)
Lemma step_spec s ev :
  wf s → ∃ σ rf, event_effect s σ.1 σ.2 ∧ passed_effect ev s σ.1 σ.2 ∧ on_event ev (s, []) = (σ, rf) ∧ dispatched rf σ (step s ev).
Proof.
  intros W. pose proof (event_spec ev s W) as H. unfold step. destruct (on_event ev (s, [])) as [σ rf].
  destruct H as [H1 H2]. exists σ, rf. split_and!; try done. apply dispatch_spec.
Qed.

Lemma wf_step s ev : wf s → wf (step s ev).1.
Proof.
  intros W. destruct (step_spec s ev W) as (σ & rf & He & _ & _ & Hd). eapply wf_dispatched; [|exact Hd]. apply He.
Qed.

(** ** What a probe's end leaves alone *)

(** A part of the state that no target, no run and no verdict is in. *)
Record untouched {A} (f : Scheduler → A) : Prop := mkUntouched {
  un_pending p s : f (with_pending p s) = f s;
  un_running r s : f (with_running r s) = f s;
  un_unreconciled u s : f (with_unreconciled u s) = f s;
  un_gate g s : f (with_gate_waiting g s) = f s;
  un_passed m s : f (with_media_passed m s) = f s }.

Lemma untouched_verdict {A} (f : Scheduler → A) t v σ : untouched f → f (media_verdict t v σ).1 = f σ.1.
Proof.
  intros [Hp _ _ Hg Hm]. unfold media_verdict. destruct (t_kind t), (t_gpu t) as [g|], (t_codec t); try done.
  destruct v; [|cbn [upd fst]; by rewrite Hg, Hp, Hm|done].
  case_bool_decide; [|cbn [upd fst]; by rewrite Hm].
  match goal with |- context [queue_codecs g ?x] => destruct (grown_queue_codecs g x) as (p & -> & _) end.
  cbn [upd fst]. by rewrite Hp, Hm.
Qed.

Lemma untouched_finished {A} (f : Scheduler → A) t rec v σ : untouched f → f (probe_finished t rec v σ).1 = f σ.1.
Proof.
  intros Hf. pose proof Hf as [Hp Hr Hu _ _]. unfold probe_finished.
  destruct (s_running σ.1) as [r|]; [|done]. case_bool_decide; [|done].
  set (σ2 := if r_preempted r && _ then _ else _).
  assert (f σ2.1 = f σ.1) as H2 by (unfold σ2; case_match; cbn [enqueue upd fst]; by rewrite ?Hp, Hr).
  clearbody σ2. set (σ3 := if rec then σ2 else _).
  assert (f σ3.1 = f σ.1) as H3 by (unfold σ3; destruct rec; cbn [upd fst]; by rewrite ?Hu).
  clearbody σ3. cbv zeta. case_match; [|done]. by rewrite untouched_verdict.
Qed.
