(* ===== verification/ProbeSafety.v ===== *)
(** * The orchestrator's guarantees

    The invariant of the loop that carries out the scheduler's actions, its tasks and the updates
    it sent included, over every order in which its messages can arrive; and what it guarantees. *)
From S2P Require Import Prelude Readiness Probe ProbeRun ProbeProofs ProbeInv.
From stdpp Require Import gmap.

(** ** What was reported *)

(** Whether the last definitive report of GPU [g]'s media probe is a pass not forgotten since. *)
Definition floor_note (g : Z) (b : bool) (u : ReportUpdate) : bool :=
  match u with
  | Record_ t o _ _ =>
      if decide (t = gpu_target PkMedia g)
      then match verdict_of o with Passed => true | NotPassed => false | Inconclusive => b end
      else b
  | UpForget t => if decide (t = gpu_target PkMedia g) then false else b
  | UpNotApplicable _ _ => b
  end.
Definition floor_passed (sent : list ReportUpdate) (g : Z) : bool := foldl (floor_note g) false sent.

(** The ledger of codec evidence once the agent applied every update. *)
Definition evidence_of (sent : list ReportUpdate) : CodecEvidence := (foldl apply_update (report_new, ∅) sent).2.

Lemma evidence_of_snoc sent u :
  evidence_of (sent ++ [u]) =
    match u with
    | Record_ t o _ stamp => note (evidence_of sent) t o stamp
    | UpNotApplicable _ _ => evidence_of sent
    | UpForget t => delete t (evidence_of sent)
    end.
Proof. unfold evidence_of. rewrite foldl_app. simpl. by destruct u. Qed.

Lemma floor_passed_snoc sent u g : floor_passed (sent ++ [u]) g = floor_note g (floor_passed sent g) u.
Proof. unfold floor_passed. by rewrite foldl_app. Qed.

(** ** Carrying out what an event pushed *)

Definition update_of (now : Z) (a : Action) : option ReportUpdate :=
  match a with
  | ActNotApplicable k => Some (UpNotApplicable k now)
  | Forget t => Some (UpForget t)
  | _ => None
  end.

Definition raised (new : list Action) (flag : option bool) : option bool :=
  if existsb (λ a, match a with Preempt _ => true | _ => false end) new then (λ _, true) <$> flag else flag.

Lemma existsb_preempt new : existsb (λ a, match a with Preempt _ => true | _ => false end) new = true ↔ Exists is_preempt new.
Proof.
  rewrite List.existsb_exists, List.Exists_exists. split; intros (a & Ha & H); exists a; (split; [done|]); by destruct a.
Qed.

Lemma carry_plain now new o :
  Forall (λ a, ¬ is_dispatch a) new →
  foldl (carry_out now) o new =
    mkOrch (o_sched o) (raised new (o_preempt o)) (o_run_stamp o) (o_runs o) (o_reconciles o)
      (o_sent o ++ omap (update_of now) new).
Proof.
  revert o. induction new as [|a new IH]; intros o Hn.
  { simpl. rewrite app_nil_r. by destruct o. }
  apply Forall_cons in Hn as [Ha Hn]. cbn [foldl]. rewrite IH by done.
  destruct a; simpl in *; try tauto; unfold raised, send; simpl; try done.
  - destruct (existsb _ new); [|done]. by destruct (o_preempt o).
  - by rewrite <- app_assoc.
  - by rewrite <- app_assoc.
Qed.

Lemma updates_cons now a new :
  omap (update_of now) (a :: new) = match update_of now a with Some u => [u] | None => [] end ++ omap (update_of now) new.
Proof. cbn. by destruct (update_of now a). Qed.

Lemma floor_passed_forgets now sent new g :
  floor_passed (sent ++ omap (update_of now) new) g = true ↔
    floor_passed sent g = true ∧ Forget (gpu_target PkMedia g) ∉ new.
Proof.
  revert sent. induction new as [|a new IH]; intros sent.
  { cbn. rewrite app_nil_r. split; [|tauto]. intros H. split; [done|]. apply not_elem_of_nil. }
  rewrite updates_cons, app_assoc, IH, not_elem_of_cons.
  destruct a; cbn [update_of]; rewrite ?app_nil_r, ?floor_passed_snoc; cbn [floor_note];
    try (intuition discriminate).
  case_decide as Ht; [subst; intuition discriminate|].
  assert (Forget (gpu_target PkMedia g) ≠ Forget target) by (intros [= <-]; done). tauto.
Qed.

Lemma evidence_forgets now sent new t st :
  evidence_of (sent ++ omap (update_of now) new) !! t = Some st →
  evidence_of sent !! t = Some st ∧ Forget t ∉ new.
Proof.
  revert sent. induction new as [|a new IH]; intros sent.
  { cbn. rewrite app_nil_r. intros H. split; [done|]. apply not_elem_of_nil. }
  rewrite updates_cons, app_assoc. intros [H1 H2]%IH. rewrite not_elem_of_cons.
  destruct a; cbn [update_of] in H1; rewrite ?app_nil_r, ?evidence_of_snoc in H1; try (intuition discriminate).
  apply lookup_delete_Some in H1 as [H1 H3]. split; [done|]. split; [|done]. by intros [= <-].
Qed.

(** ** The invariant *)

Definition runs_of (r : option Running) : list ProbeTarget := match r with Some r => [r_target r] | None => [] end.
Definition reconciles_of (k : option ProbeKind) : list ProbeKind := match k with Some k => [k] | None => [] end.

(** The stamp a run of [t] that starts on [s] carries. *)
Definition start_stamp (s : Scheduler) (t : ProbeTarget) : option EvidenceStamp :=
  match t_codec t, t_gpu t with Some _, Some g => evidence_stamp s g | _, _ => None end.

(** A codec's evidence is of a target there is, proven under the stack the scheduler knows. *)
Definition ledger_ok (s : Scheduler) (sent : list ReportUpdate) : Prop :=
  ∀ t st, evidence_of sent !! t = Some st →
    due (s_kinds s) (s_inputs s) t ∧ is_Some (t_codec t) ∧ ∃ g, t_gpu t = Some g ∧ evidence_stamp s g = Some st.

Record orch_ok (o : Orch) : Prop := mkOrchOk {
  oo_wf : wf (o_sched o);
  oo_runs : o_runs o = runs_of (s_running (o_sched o));
  oo_reconciles : o_reconciles o = reconciles_of (s_reconciling (o_sched o));
  oo_flag r : s_running (o_sched o) = Some r → o_preempt o = Some (r_preempted r);
  oo_stamp r : s_running (o_sched o) = Some r → r_discard r = false →
    o_run_stamp o = start_stamp (o_sched o) (r_target r);
  oo_floor g : g ∈ s_media_passed (o_sched o) ↔ floor_passed (o_sent o) g = true;
  oo_ledger : ledger_ok (o_sched o) (o_sent o) }.

Lemma shaped_codec_media t : shaped t → is_Some (t_codec t) → is_Some (t_gpu t) → t_kind t = PkMedia.
Proof. unfold shaped. intros Hs [c Hc] [g Hg]. by rewrite Hg, Hc in Hs. Qed.

(** The ledger after an event: what is not forgotten is still current. *)
Lemma ledger_event now s s' new sent :
  event_effect s s' new → ledger_ok s sent → ledger_ok s' (sent ++ omap (update_of now) new).
Proof.
  intros He Hl t st Hst. apply evidence_forgets in Hst as [Hst Hn].
  destruct (Hl t st Hst) as (Hd & Hc & g & Hg & Hs).
  assert (t_kind t = PkMedia) as Hk.
  { apply due_iff in Hd as [_ Hsh]. apply shaped_codec_media; [done|done|by eexists]. }
  destruct (ev_kept _ _ _ He t g Hd Hg Hk Hn) as [Hd' Hs']. rewrite (ev_kinds _ _ _ He).
  split_and!; [done|done|]. exists g. split; [done|congruence].
Qed.

(** The loop has handled the message itself; the event and the actions are left. The media
    probe's verdict is already among the updates. *)
Lemma drive_ok now ev o :
  wf (o_sched o) →
  (∀ σ rf, on_event ev (o_sched o, []) = (σ, rf) →
     o_runs o = runs_of (s_running σ.1) ∧ o_reconciles o = reconciles_of (s_reconciling σ.1)) →
  (∀ r σ rf, on_event ev (o_sched o, []) = (σ, rf) → is_Some (s_running σ.1) → s_running (o_sched o) = Some r →
     o_preempt o = Some (r_preempted r) ∧ (r_discard r = false → o_run_stamp o = start_stamp (o_sched o) (r_target r))) →
  (∀ g, floor_passed (o_sent o) g = true ↔
     match floor_verdict (o_sched o) ev with
     | Some (g', v) =>
         if decide (g = g') then match v with Passed => True | NotPassed => False | Inconclusive => g ∈ s_media_passed (o_sched o) end
         else g ∈ s_media_passed (o_sched o)
     | None => g ∈ s_media_passed (o_sched o)
     end) →
  ledger_ok (o_sched o) (o_sent o) →
  orch_ok (drive_step now ev o).
Proof.
  intros W Htasks Hrun Hfloor Hledger.
  destruct (step_spec (o_sched o) ev W) as (σ & rf & He & Hpass & Hev & Hd).
  destruct (Htasks _ _ Hev) as [Hruns Hrecs]. specialize (λ r, Hrun r _ _ Hev).
  unfold drive_step. destruct (step (o_sched o) ev) as [s2 acts].
  assert (wf s2) as W2 by (eapply (wf_dispatched rf σ (s2, acts)); [apply He|done]).
  set (o1 := mkOrch s2 (o_preempt o) (o_run_stamp o) (o_runs o) (o_reconciles o) (o_sent o)).
  assert (∀ post, acts = σ.2 ++ post → s_media_passed s2 = s_media_passed σ.1 → s_kinds s2 = s_kinds σ.1 → s_inputs s2 = s_inputs σ.1 →
    (∀ o2, o2 = foldl (carry_out now) (mkOrch s2 (raised σ.2 (o_preempt o)) (o_run_stamp o) (o_runs o) (o_reconciles o)
                 (o_sent o ++ omap (update_of now) σ.2)) post →
       o_sched o2 = s2 ∧ o_sent o2 = o_sent o ++ omap (update_of now) σ.2 ∧
       o_runs o2 = runs_of (s_running s2) ∧ o_reconciles o2 = reconciles_of (s_reconciling s2) ∧
       (∀ r, s_running s2 = Some r → o_preempt o2 = Some (r_preempted r) ∧
          (r_discard r = false → o_run_stamp o2 = start_stamp s2 (r_target r)))) →
    orch_ok (foldl (carry_out now) o1 acts)) as Hgo.
  { intros post Ea Em Ek Ei Ho2. rewrite Ea, foldl_app, (carry_plain now σ.2 o1) by apply He.
    unfold o1. cbn [o_sched o_preempt o_run_stamp o_runs o_reconciles o_sent].
    destruct (Ho2 _ eq_refl) as (E1 & E2 & E3 & E4 & E5). clear Ho2.
    split; rewrite ?E1, ?E2; try done.
    - intros r Hr. by apply E5.
    - intros r Hr. by apply E5.
    - intros g. rewrite Em, (Hpass g), floor_passed_forgets, Hfloor. done.
    - intros t st Hst. destruct (ledger_event now _ _ _ _ He Hledger t st Hst) as (H1 & H2 & g & H3 & H4).
      rewrite Ek, Ei. split_and!; [done|done|]. exists g. split; [done|]. unfold evidence_stamp in *. by rewrite Ei. }
  inversion Hd as [Hb Heq|drop Hi _ _ Heq|drop t Hi _ Ht _ _ _ Heq|drop t Hi _ _ _ _ _ _ Heq]; subst.
  - cbn [fst snd] in *. apply (Hgo []); simpl; [by rewrite app_nil_r|done|done|done|].
    intros o2 ->. simpl. split_and!; [done|done|done|done|]. intros r' Hr'.
    pose proof (ev_run _ _ _ He) as Hrc. simpl in Hr', Hrc. rewrite Hr' in Hrc. unfold run_change in Hrc.
    destruct (s_running (o_sched o)) as [r|] eqn:Hr; [|done]. destruct Hrc as (E1 & E2 & E3 & E4).
    destruct (Hrun r ltac:(by eexists) eq_refl) as [Hfl Hst]. split.
    + rewrite Hfl. unfold raised. destruct (existsb _ acts) eqn:Hex; simpl.
      * apply existsb_preempt, E4 in Hex as [-> _]. done.
      * destruct (r_preempted r) eqn:Hp, (r_preempted r') eqn:Hp'; try done; try by specialize (E3 eq_refl).
        exfalso. enough (existsb (λ a, match a with Preempt _ => true | _ => false end) acts = true) by congruence.
        apply existsb_preempt, E4. done.
    + intros Hd'. assert (r_discard r = false) as Hdr by (destruct (r_discard r); [by rewrite E2 in Hd'|done]).
      rewrite (Hst Hdr), E1. unfold start_stamp. destruct (t_codec (r_target r)) as [c|] eqn:Hc; [|done].
      destruct (t_gpu (r_target r)) as [g|] eqn:Hg; [|done]. symmetry.
      pose proof (wf_run _ W r Hr) as Hwr.
      apply (ev_kept _ _ _ He (r_target r)); [by apply (wr_due _ _ Hwr)|done| |].
      * apply shaped_codec_media; [apply Hwr|by eexists|by eexists].
      * eapply (ev_discard _ _ _ He r r'); [done|done|done|by eexists].
  - destruct Hi as (_ & _ & Hr & Hrc). apply (Hgo []); simpl; [by rewrite app_nil_r|done|done|done|].
    intros o2 ->. simpl. rewrite Hr. rewrite Hruns, Hrecs, Hr. by split_and!.
  - destruct Hi as (_ & _ & Hr & Hrc). apply (Hgo [Start t]); simpl; [done|done|done|done|].
    intros o2 ->. simpl. rewrite Hruns, Hrecs, Hr. split_and!; try done.
    intros r [= <-]. done.
  - destruct Hi as (_ & _ & Hr & Hrc). apply (Hgo [Reconcile (t_kind t)]); simpl; [done|done|done|done|].
    intros o2 ->. simpl. rewrite Hruns, Hrecs, Hr, Hrc. by split_and!.
Qed.

(** ** Every message keeps it *)

(** What an event does to the tasks that run: an outside event ends none. *)
Lemma external_tasks ev s :
  external ev = true → let '(σ, _) := on_event ev (s, []) in
  runs_of (s_running σ.1) = runs_of (s_running s) ∧ s_reconciling σ.1 = s_reconciling s.
Proof.
  assert (∀ B R E D σ σ', effect_b B R E D σ σ' →
    runs_of (s_running σ'.1) = runs_of (s_running σ.1) ∧ s_reconciling σ'.1 = s_reconciling σ.1) as Heff.
  { intros B R E D σ σ' [Ho _ _ _ (new & _ & _ & Hr & _)]. unfold other in Ho. injection Ho as _ _ _ _ _ _ ->.
    unfold run_effect in Hr. destruct (s_running σ.1) as [r|], (s_running σ'.1) as [r'|]; try done.
    destruct Hr as (Et & _). simpl. by rewrite Et. }
  assert (∀ i (σ : St), is_Some (s_inputs σ.1) →
    runs_of (s_running (observe i σ).1) = runs_of (s_running σ.1) ∧ s_reconciling (observe i σ).1 = s_reconciling σ.1) as Hobs.
  { intros i σ [old Hi]. apply (Heff _ _ _ _ (upd (with_inputs (Some i)) σ) _ (effect_observe old i σ Hi)). }
  assert (∀ σ : St, runs_of (s_running (preempt σ).1) = runs_of (s_running σ.1) ∧ s_reconciling (preempt σ).1 = s_reconciling σ.1) as Hpre.
  { intros σ. unfold preempt. destruct (s_running σ.1) as [r|] eqn:Hr; [|by rewrite Hr].
    destruct (r_preempted r); [by rewrite Hr|done]. }
  intros He. destruct ev as [i| |i|gpu|live launching|gpu ex codec|t rec v|k ok|t|]; try discriminate He; cbn [on_event].
  - destruct (s_inputs _) eqn:Hi.
    + match goal with |- context [observe i ?x] => apply (Hobs i x) end. by eexists.
    + match goal with |- context [queue_kinds _ i ?x] => apply (Heff _ _ _ _ x _ (effect_queue_kinds KIND_ALL i x)) end.
  - apply Hpre.
  - destruct (s_inputs _) eqn:Hi; [|done]. apply (Hobs i (s, [])). by eexists.
  - apply Hpre.
  - done.
  - destruct (grown_queue_failed gpu ex codec (s, [])) as (p & -> & _). done.
  - done.
Qed.

Lemma finished_tasks t rec v s r :
  s_running s = Some r → r_target r = t →
  let σ := probe_finished t rec v (s, []) in s_running σ.1 = None ∧ s_reconciling σ.1 = s_reconciling s.
Proof.
  intros Hr Ht σ. split; [|by apply (untouched_finished s_reconciling)]. unfold σ, probe_finished. cbn [fst].
  rewrite Hr, (bool_decide_eq_true_2 _ Ht). set (σ2 := if r_preempted r && _ then _ else _).
  assert (s_running σ2.1 = None) as H2 by (unfold σ2; by case_match).
  clearbody σ2. set (σ3 := if rec then σ2 else _).
  assert (s_running σ3.1 = None) as H3 by (unfold σ3; by destruct rec).
  clearbody σ3. cbv zeta. case_match; [|done]. set (v' := match v with Passed => _ | _ => _ end). clearbody v'.
  unfold media_verdict. destruct (t_kind t), (t_gpu t) as [g|], (t_codec t); try done. destruct v'; try done.
  case_bool_decide; [|done].
  match goal with |- context [queue_codecs g ?x] => destruct (grown_queue_codecs g x) as (p & -> & _) end. done.
Qed.

Lemma running_target o t : orch_ok o → t ∈ o_runs o → ∃ r, s_running (o_sched o) = Some r ∧ r_target r = t ∧ o_runs o = [t].
Proof.
  intros Ho. rewrite (oo_runs o Ho). destruct (s_running (o_sched o)) as [r|]; simpl; [|by intros ?%not_elem_of_nil].
  intros ->%list_elem_of_singleton. by exists r.
Qed.

Lemma remove_first_one {A} `{EqDecision A} (x : A) : remove_first x [x] = [].
Proof. simpl. by rewrite decide_True. Qed.

(** The run of [t] reports [outcome], and the loop sends it where it still counts. *)
Definition reported (now : Z) (o : Orch) (t : ProbeTarget) (outcome : ProbeOutcome) : list ReportUpdate :=
  o_sent o ++ (if accepts_result (o_sched o) t then [Record_ t outcome now (o_run_stamp o)] else []).

Lemma accepted_due s r t :
  wf s → s_running s = Some r → r_target r = t → accepts_result s t = true →
  due (s_kinds s) (s_inputs s) t ∧ r_discard r = false.
Proof.
  intros W Hr <- [He Hd]%andb_true_iff. unfold discards in Hd.
  rewrite Hr, bool_decide_eq_true_2, negb_true_iff in Hd by done. simpl in Hd. split; [|done].
  apply due_iff. split; [done|]. apply (wr_shaped s r), (wf_run s W r Hr).
Qed.

Lemma reported_floor now o r t outcome rec g :
  orch_ok o → s_running (o_sched o) = Some r → r_target r = t →
  floor_passed (reported now o t outcome) g = true ↔
     match floor_verdict (o_sched o) (ProbeFinished t rec (verdict_of outcome)) with
     | Some (g', v) =>
         if decide (g = g') then match v with Passed => True | NotPassed => False | Inconclusive => g ∈ s_media_passed (o_sched o) end
         else g ∈ s_media_passed (o_sched o)
     | None => g ∈ s_media_passed (o_sched o)
     end.
Proof.
  intros Ho Hr Ht. unfold reported, floor_verdict. rewrite Hr, bool_decide_eq_true_2, andb_true_l by done.
  pose proof (oo_floor o Ho g) as Hg.
  destruct (accepts_result (o_sched o) t).
  - rewrite floor_passed_snoc. cbn [floor_note]. destruct t as [k og oc]. cbn [t_kind t_gpu t_codec].
    destruct (decide (mkTarget k og oc = gpu_target PkMedia g)) as [[= -> -> ->]|Hne].
    + rewrite decide_True by done. destruct (verdict_of outcome); [done|split; done|]. by rewrite Hg.
    + rewrite <- Hg. destruct k, og as [g'|], oc; try done.
      destruct (decide (g = g')) as [->|]; [done|]. done.
  - rewrite app_nil_r, <- Hg. by destruct (t_kind t), (t_gpu t), (t_codec t).
Qed.

Lemma reported_ledger now o r t outcome :
  orch_ok o → s_running (o_sched o) = Some r → r_target r = t → ledger_ok (o_sched o) (reported now o t outcome).
Proof.
  intros Ho Hr Ht. unfold reported. destruct (accepts_result (o_sched o) t) eqn:Ha; [|rewrite app_nil_r; apply Ho].
  destruct (accepted_due _ r t (oo_wf o Ho) Hr Ht Ha) as [Hd Hdis].
  intros t' st. rewrite evidence_of_snoc. unfold note.
  pose proof (oo_ledger o Ho t' st) as Hold.
  destruct (t_codec t) as [c|] eqn:Hc; [|done].
  assert (delete t (evidence_of (o_sent o)) !! t' = Some st → evidence_of (o_sent o) !! t' = Some st) as Hdel
    by (by intros [_ ?]%lookup_delete_Some).
  destruct outcome; try (intros H; apply Hold; first [exact H | exact (Hdel H)]).
  destruct (o_run_stamp o) as [stamp|] eqn:Hs; [|intros H; by apply Hold, Hdel].
  intros [[-> <-]|[_ H]]%lookup_insert_Some; [|by apply Hold].
  split; [done|]. split; [by eexists|]. rewrite (oo_stamp o Ho r Hr Hdis), Ht in Hs. unfold start_stamp in Hs.
  rewrite Hc in Hs. destruct (t_gpu t') as [g|] eqn:Hg; [|done]. by exists g.
Qed.

Lemma handle_ok now msg o : orch_ok o → receivable o msg → orch_ok (handle now msg o).
Proof.
  intros Ho Hm. destruct msg as [ev|t end_|k ok]; simpl in Hm.
  - pose proof (external_tasks ev (o_sched o) Hm) as Ht. apply drive_ok; [apply Ho| | | |apply Ho].
    + intros σ rf E. rewrite E in Ht. destruct Ht as [-> ->]. split; apply Ho.
    + intros r σ rf E _ Hr. split; [by apply Ho|]. intros Hd. by apply Ho.
    + intros g. rewrite <- (oo_floor o Ho g). by destruct ev.
  - destruct (running_target o t Ho Hm) as (r & Hr & Ht & Hruns).
    assert (∀ σ : St, s_running σ.1 = None → s_reconciling σ.1 = s_reconciling (o_sched o) →
      remove_first t (o_runs o) = runs_of (s_running σ.1) ∧ o_reconciles o = reconciles_of (s_reconciling σ.1)) as Htasks.
    { intros σ -> ->. rewrite Hruns, remove_first_one. split; [done|]. apply Ho. }
    set (o0 := mkOrch (o_sched o) None None (remove_first t (o_runs o)) (o_reconciles o) (o_sent o)).
    assert (∀ outcome rec, orch_ok (drive_step now (ProbeFinished t rec (verdict_of outcome))
      (if accepts_result (o_sched o) t then send (Record_ t outcome now (o_run_stamp o)) o0 else o0))) as Hfin.
    { intros outcome rec.
      replace (if accepts_result _ _ then _ else _) with
        (mkOrch (o_sched o) None None (remove_first t (o_runs o)) (o_reconciles o) (reported now o t outcome))
        by (unfold reported; destruct (accepts_result _ _); [done|by rewrite app_nil_r]).
      pose proof (finished_tasks t rec (verdict_of outcome) _ r Hr Ht) as [Hn Hrc].
      apply drive_ok; cbn [o_sched o_runs o_reconciles o_preempt o_run_stamp o_sent].
      - apply Ho.
      - intros σ rf [= <- <-]. by apply Htasks.
      - intros r' σ rf [= <- <-] [? H]. congruence.
      - intros g. by eapply reported_floor.
      - by eapply reported_ledger. }
    destruct end_ as [[outcome rec|]|e]; [apply (Hfin outcome rec)| |apply (Hfin task_panicked)].
    assert (let σ := (on_event (ProbeDeferred t) (o_sched o, [])).1 in
            s_running σ.1 = None ∧ s_reconciling σ.1 = s_reconciling (o_sched o)) as [Hn Hrc].
    { cbn [on_event fst]. rewrite Hr, (bool_decide_eq_true_2 _ Ht). cbv zeta. match goal with |- context [exists_target ?a ?b] => by destruct (exists_target a b) end. }
    apply drive_ok; [apply Ho| | | |apply Ho].
    + intros σ rf E. cbn [o_sched] in E. rewrite E in Hn, Hrc. by apply Htasks.
    + intros r' σ rf E [? H]. cbn [o_sched] in E. rewrite E in Hn. simpl in Hn. congruence.
    + intros g. by rewrite <- (oo_floor o Ho g).
  - rewrite (oo_reconciles o Ho) in Hm. destruct (s_reconciling (o_sched o)) as [k'|] eqn:Hrc; [|by apply not_elem_of_nil in Hm].
    apply list_elem_of_singleton in Hm as ->.
    assert (s_running (o_sched o) = None) as Hn.
    { destruct (s_running (o_sched o)) as [r|] eqn:Hr; [|done]. pose proof (wr_alone _ _ (wf_run _ (oo_wf o Ho) r Hr)). congruence. }
    apply drive_ok; cbn [o_sched o_runs o_reconciles o_preempt o_run_stamp o_sent]; [apply Ho| | | |apply Ho].
    + cbn [on_event fst]. rewrite Hrc, (bool_decide_eq_true_2 _ eq_refl).
      intros σ rf E. assert (s_running σ.1 = None ∧ s_reconciling σ.1 = None) as [-> ->].
      { destruct ok; injection E as <- _; by split. }
      split; [by rewrite (oo_runs o Ho), Hn|]. rewrite (oo_reconciles o Ho), Hrc. exact (remove_first_one _).
    + intros r σ rf E _ Hr. congruence.
    + intros g. by rewrite <- (oo_floor o Ho g).
Qed.

Lemma orch_ok_spawn kinds : orch_ok (spawn kinds).
Proof.
  by split.
Qed.

(** Whatever the messages, and in whatever order. *)
Lemma reachable_ok kinds o : reachable kinds o → orch_ok o.
Proof.
  intros H. unfold reachable in H. pose proof (orch_ok_spawn kinds) as H0. revert H0.
  induction H as [|o o1 o2 [now msg Hm] _ IH]; [done|]. intros Ho. apply IH. by apply handle_ok.
Qed.
