(* ===== verification/ProbeGuarantees.v ===== *)
(** * What the host probes guarantee

    Over every order in which the orchestrator's messages can arrive: one probe at a time, none
    that a session launch forbids, none whose result outlives what it was measured on, none
    lost, and none for ever. *)
From S2P Require Import Prelude Readiness Probe ProbeRun ProbeProofs ProbeInv ProbeSafety.
From stdpp Require Import gmap.

(** ** A message is a step of the scheduler *)

Definition event_of (msg : Msg) : Event :=
  match msg with
  | External ev => ev
  | RunEnded t (Ok (Concluded outcome reconciled)) => ProbeFinished t reconciled (verdict_of outcome)
  | RunEnded t (Ok Deferred) => ProbeDeferred t
  | RunEnded t (Err _) => ProbeFinished t (negb (is_container (t_kind t))) Inconclusive
  | ReconcileEnded k ok => Reconciled k ok
  end.

Lemma carry_sched now acts o : o_sched (foldl (carry_out now) o acts) = o_sched o.
Proof. revert o. induction acts as [|a acts IH]; intros o; [done|]. cbn [foldl]. rewrite IH. by destruct a. Qed.

Lemma drive_sched now ev o : o_sched (drive_step now ev o) = (step (o_sched o) ev).1.
Proof. unfold drive_step. destruct (step _ _) as [s acts]. by rewrite carry_sched. Qed.

Lemma handle_sched now msg o : o_sched (handle now msg o) = (step (o_sched o) (event_of msg)).1.
Proof.
  destruct msg as [ev|t [[outcome rec|]|e]|k ok]; simpl; rewrite drive_sched; try done;
    by destruct (accepts_result _ _).
Qed.

Lemma handle_runs now msg o :
  orch_ok o → receivable o msg → o_runs (handle now msg o) = runs_of (s_running (step (o_sched o) (event_of msg)).1).
Proof. intros Ho Hm. rewrite <- (handle_sched now). apply oo_runs. by apply handle_ok. Qed.

(** [t] may start on [s]. *)
Definition startable (s : Scheduler) (t : ProbeTarget) : Prop :=
  s_registered s = true ∧ s_launching s = false ∧ s_reconciling s = None ∧ (t_kind t ∉ s_unreconciled s) ∧
  due (s_kinds s) (s_inputs s) t ∧
  ∀ g, t_gpu t = Some g → (g ∉ s_live_gpus s) ∧ (is_Some (t_codec t) → (¬ floor_due s t) ∧ g ∈ s_media_passed s).

(** What runs after a step ran before, or was started. *)
Lemma step_running s ev r' :
  wf s → s_running (step s ev).1 = Some r' →
  (∃ r, s_running s = Some r ∧ r_target r' = r_target r ∧ (r_preempted r = true → r_preempted r' = true) ∧
        s_running (on_event ev (s, [])).1.1 = Some r') ∨
  (r_preempted r' = false ∧ startable (step s ev).1 (r_target r')).
Proof.
  intros W Hr'. destruct (step_spec s ev W) as (σ & rf & He & _ & Hev & Hd). rewrite Hev. cbn [fst].
  assert (s_running σ.1 = Some r' → ∃ r, s_running s = Some r ∧ r_target r' = r_target r ∧
    (r_preempted r = true → r_preempted r' = true) ∧ s_running σ.1 = Some r') as Hold.
  { intros H. pose proof (ev_run _ _ _ He) as Hc. rewrite H in Hc. unfold run_change in Hc.
    destruct (s_running s) as [r|]; [|done]. destruct Hc as (? & _ & ? & _). by exists r. }
  destruct (step s ev) as [s' acts]. cbn [fst snd] in *.
  inversion Hd as [Hb Heq|drop Hi _ _ Heq|drop t Hi Hdr Ht Hnd Hrd Hu Heq|drop t Hi _ _ _ _ _ _ Heq]; subst.
  - left. by apply Hold.
  - left. by apply Hold.
  - right. injection Hr' as <-. split; [done|]. destruct Hi as (I1 & I2 & I3 & I4).
    repeat split; try done; simpl.
    + apply (wf_pending _ (ev_wf _ _ _ He) t Ht).
    + apply (Hrd g H).
    + intros [H1|H1]; [|apply (proj2 (Hrd g H) H0); by right].
      apply (proj2 (Hrd g H) H0). left. simpl in H1. set_solver.
    + by apply (Hrd g H).
  - left. by apply Hold.
Qed.

Lemma run_end_clears s r t e :
  s_running s = Some r → r_target r = t → s_running (on_event (event_of (RunEnded t e)) (s, [])).1.1 = None.
Proof.
  intros Hr Ht.
  assert (∀ rec v, s_running (on_event (ProbeFinished t rec v) (s, [])).1.1 = None) as Hf
    by (intros rec v; apply (finished_tasks t rec v s r Hr Ht)).
  destruct e as [[outcome rec|]|e]; cbn [event_of]; [apply Hf| |apply Hf].
  cbn [on_event fst]. rewrite Hr, (bool_decide_eq_true_2 _ Ht).
  by destruct (exists_target _ t).
Qed.

Lemma other_launching s s' : other s' = other s → s_launching s' = s_launching s.
Proof. unfold other. by intros [=]. Qed.

(** [launching] follows the events, and a reconcile starts only when it is off. *)
Lemma step_launching s ev :
  s_launching (step s ev).1 =
    match ev with LaunchArrived _ => true | SessionsChanged _ b => b | _ => s_launching s end.
Proof.
  assert (s_launching (on_event ev (s, [])).1.1 =
    match ev with LaunchArrived _ => true | SessionsChanged _ b => b | _ => s_launching s end) as Hev.
  { assert (∀ i (σ : St), s_launching (observe i σ).1 = s_launching σ.1) as Hobs.
    { intros i σ. destruct (s_inputs σ.1) as [old|] eqn:Hi; [|by unfold observe; rewrite Hi].
      pose proof (ef_other _ _ _ _ _ _ (effect_observe old i σ Hi)) as H. exact (other_launching _ _ H). }
    assert (∀ σ : St, s_launching (preempt σ).1 = s_launching σ.1) as Hpre.
    { intros σ. unfold preempt. destruct (s_running σ.1) as [r|]; [|done]. by destruct (r_preempted r). }
    destruct ev as [i| |i|gpu|live launching|gpu ex codec|t rec v|k ok|t|]; cbn [on_event]; cbn [fst].
    - destruct (s_inputs _); [by rewrite Hobs|].
      match goal with |- context [queue_kinds ?ks i ?x] =>
        pose proof (ef_other _ _ _ _ _ _ (effect_queue_kinds ks i x)) as H end.
      exact (other_launching _ _ H).
    - by rewrite Hpre.
    - destruct (s_inputs _); [|done]. by rewrite Hobs.
    - by rewrite Hpre.
    - done.
    - destruct (grown_queue_failed gpu ex codec (s, [])) as (p & -> & _). done.
    - by apply (untouched_finished s_launching).
    - case_bool_decide; [|done]. by destruct ok.
    - destruct (s_running s) as [r|]; [|done]. case_bool_decide; [|done]. by destruct (exists_target _ t).
    - done. }
  unfold step. destruct (on_event ev (s, [])) as [σ rf]. simpl in Hev. rewrite <- Hev.
  by destruct (dispatch_spec rf σ).
Qed.

Lemma step_reconciling s ev k :
  wf s → s_reconciling (step s ev).1 = Some k →
  s_reconciling s = Some k ∨
  (s_registered (step s ev).1 = true ∧ s_launching (step s ev).1 = false ∧ s_running (step s ev).1 = None ∧
   k ∈ s_unreconciled (step s ev).1).
Proof.
  intros W. destruct (step_spec s ev W) as (σ & rf & He & _ & Hev & Hd).
  assert (s_reconciling σ.1 = Some k → s_reconciling s = Some k) as Hold by (destruct (ev_reconciling _ _ _ He) as [->| ->]; done).
  destruct Hd as [Hb|drop Hi _ _|drop t Hi _ _ _ _ _|drop t (I1 & I2 & I3 & I4) _ _ _ _ Hu _]; simpl; auto.
  intros [= <-]. by right.
Qed.

(** ** One at a time *)

(** However its messages interleave, the orchestrator runs at most one task, a probe or a
    reconcile; the scheduler's state names it, and the flag by which that run learns that it was
    pre-empted is up exactly when the scheduler has pre-empted it. *)
Theorem one_task_at_a_time kinds o :
  reachable kinds o →
  o_runs o = runs_of (s_running (o_sched o)) ∧ o_reconciles o = reconciles_of (s_reconciling (o_sched o)) ∧
  length (o_runs o) + length (o_reconciles o) <= 1 ∧
  (∀ r, s_running (o_sched o) = Some r → o_preempt o = Some (r_preempted r)).
Proof.
  intros Ho%reachable_ok. pose proof (oo_runs o Ho) as H1. pose proof (oo_reconciles o Ho) as H2.
  split_and!; [done|done| |apply Ho]. rewrite H1, H2.
  destruct (s_running (o_sched o)) as [r|] eqn:Hr; simpl.
  - rewrite (wr_alone _ _ (wf_run _ (oo_wf o Ho) r Hr)). simpl. lia.
  - destruct (s_reconciling _); simpl; lia.
Qed.

(** ** What may start *)

(** A probe starts only while the agent is registered, no session launches, nothing else
    runs, no container of its kind is left to remove, there is still something to probe, and no
    session is live on its GPU. A codec's probe starts only after its GPU's media probe reported a
    pass that was not withdrawn, and only when that probe is not itself to run again. *)
Theorem starts_are_allowed kinds o now msg t :
  reachable kinds o → receivable o msg → t ∈ o_runs (handle now msg o) →
  let o' := handle now msg o in
  (t ∈ o_runs o ∧ ∀ e, msg ≠ RunEnded t e) ∨
  (startable (o_sched o') t ∧ o_preempt o' = Some false ∧ o_reconciles o' = [] ∧
   ∀ g, t_gpu t = Some g → is_Some (t_codec t) → floor_passed (o_sent o') g = true).
Proof.
  intros Ho%reachable_ok Hm Ht o'. pose proof (handle_ok now msg o Ho Hm) as Ho'. fold o' in Ht, Ho'.
  rewrite (oo_runs _ Ho') in Ht. destruct (s_running (o_sched o')) as [r'|] eqn:Hr'; [|by apply not_elem_of_nil in Ht].
  apply list_elem_of_singleton in Ht as ->.
  assert (o_sched o' = (step (o_sched o) (event_of msg)).1) as Es by apply handle_sched.
  destruct (step_running (o_sched o) (event_of msg) r' (oo_wf o Ho)) as [(r & Hr & Ht & _ & Hσ)|[Hp Hs]]; [congruence| |].
  - left. rewrite (oo_runs o Ho), Hr, Ht. split; [by left|]. intros e ->.
    rewrite (run_end_clears _ r (r_target r) e Hr eq_refl) in Hσ. done.
  - right. rewrite <- Es in Hs. split_and!; [done| | |].
    + by rewrite (oo_flag _ Ho' r' Hr'), Hp.
    + rewrite (oo_reconciles _ Ho'). by destruct Hs as (_ & _ & -> & _).
    + intros g Hg Hc. apply (oo_floor _ Ho'). by apply Hs.
Qed.

(** ** A session launch comes first *)

(** The messages that leave a launch under way. *)
Definition during_launch (o o' : Orch) : Prop :=
  ∃ now msg, receivable o msg ∧ (∀ live, msg ≠ External (SessionsChanged live false)) ∧ o' = handle now msg o.

Definition yielding (o o' : Orch) : Prop :=
  s_launching (o_sched o') = true ∧
  (∀ r', s_running (o_sched o') = Some r' → r_preempted r' = true ∧ r_target r' ∈ o_runs o) ∧
  (∀ k, s_reconciling (o_sched o') = Some k → k ∈ o_reconciles o).

Lemma yielding_step o0 o o' : orch_ok o → yielding o0 o → during_launch o o' → yielding o0 o'.
Proof.
  intros Ho (Hl & Hr & Hk) (now & msg & Hm & Hne & ->). unfold yielding. rewrite handle_sched.
  assert (s_launching (step (o_sched o) (event_of msg)).1 = true) as Hl'.
  { rewrite step_launching, Hl. destruct msg as [[]|t [[]|]|]; try done. destruct launching; [done|]. by edestruct Hne. }
  split_and!; [done| |].
  - intros r' Hr'. destruct (step_running _ _ r' (oo_wf o Ho) Hr') as [(r & H1 & -> & H2 & _)|[_ Hs]].
    + destruct (Hr r H1). auto.
    + destruct Hs as (_ & Hs & _). congruence.
  - intros k Hk'. destruct (step_reconciling _ _ k (oo_wf o Ho) Hk') as [H|(_ & H & _)]; [by apply Hk|congruence].
Qed.

Lemma launch_preempts_running s g r' :
  s_running (on_event (LaunchArrived g) (s, [])).1.1 = Some r' → r_preempted r' = true.
Proof.
  cbn [on_event fst].
  set (s1 := upd _ (s, [])). clearbody s1. unfold preempt. destruct (s_running s1.1) as [r|] eqn:Hr; [|congruence].
  destruct (r_preempted r) eqn:Hp; [rewrite Hr; by intros [= <-]|]. by intros [= <-].
Qed.

(** (C25) From a session launch's arrival until the sessions report that none is launching, no
    probe and no reconcile starts, whatever else happens; a probe that was running has its flag
    up, so it gives way. *)
Theorem launch_comes_first kinds o now g o' :
  reachable kinds o → rtc during_launch (handle now (External (LaunchArrived g)) o) o' →
  (∀ t, t ∈ o_runs o' → t ∈ o_runs o ∧ o_preempt o' = Some true) ∧
  (∀ k, k ∈ o_reconciles o' → k ∈ o_reconciles o).
Proof.
  intros Ho%reachable_ok Hp. set (o1 := handle _ _ _) in Hp.
  assert (orch_ok o1) as H1 by (by apply handle_ok).
  assert (yielding o o1) as Hy.
  { unfold yielding, o1. rewrite handle_sched. split_and!; [by rewrite step_launching| |].
    - intros r' Hr'. destruct (step_running _ _ r' (oo_wf o Ho) Hr') as [(r & E1 & E2 & _ & E3)|[_ Hs]].
      + split; [by eapply launch_preempts_running|]. rewrite (oo_runs o Ho), E1, E2. by left.
      + destruct Hs as (_ & Hs & _). by rewrite step_launching in Hs.
    - intros k Hk'. destruct (step_reconciling _ _ k (oo_wf o Ho) Hk') as [H|(_ & H & _)].
      + rewrite (oo_reconciles o Ho), H. by left.
      + by rewrite step_launching in H. }
  clearbody o1. assert (orch_ok o' ∧ yielding o o') as [Ho' (_ & Hr & Hk)].
  { induction Hp as [|x y z Hxy _ IH]; [done|]. apply IH; [|by eapply yielding_step].
    destruct Hxy as (n & msg & Hm & _ & ->). by apply handle_ok. }
  split.
  - intros t. rewrite (oo_runs o' Ho'). destruct (s_running (o_sched o')) as [r'|] eqn:Hr'; [|by intros ?%not_elem_of_nil].
    intros ->%list_elem_of_singleton. destruct (Hr r' eq_refl) as [Hpr Hin]. split; [done|].
    by rewrite (oo_flag o' Ho' r' Hr'), Hpr.
  - intros k. rewrite (oo_reconciles o' Ho'). destruct (s_reconciling (o_sched o')) as [k'|] eqn:Hk'; [|by intros ?%not_elem_of_nil].
    intros ->%list_elem_of_singleton. by apply Hk.
Qed.

(** ** Evidence *)

(** (C26) At every moment, every codec the agent's ledger holds as proven is one the current
    inventory still lists on that GPU, and the stack it was proven under (agent image, driver,
    settings, card) is the stack of now: a change of either took the proof out. *)
Theorem evidence_is_current kinds o t st :
  reachable kinds o → evidence_of (o_sent o) !! t = Some st →
  ∃ g c i, t = codec_target g c ∧ s_inputs (o_sched o) = Some i ∧ c ∈ codecs_of i g ∧
    pi_gpus i !! g = Some (ev_gpu st) ∧ ev_agent_image st = pi_agent_image i ∧
    ev_driver st = pi_driver i ∧ ev_settings st = pi_settings i.
Proof.
  intros Ho%reachable_ok Hst. destruct (oo_ledger o Ho t st Hst) as (Hd & [c0 Hc] & g0 & Hg & Hs).
  inversion Hd as [k ? ? Heq|k g i Hi ? ? ? Heq|g c i Hi HM Hg' Hc' Heq]; subst; simpl in *; try done.
  injection Hg as ->. unfold evidence_stamp in Hs. rewrite Hi in Hs. simpl in Hs. unfold inputs_stamp in Hs.
  apply fmap_Some in Hs as (card & Hcard & ->). exists g0, c, i. by split_and!.
Qed.
