(* ===== verification/ProbeLiveness.v ===== *)
(** * What becomes of the host probes' work

    No probe that is still wanted is lost, none waits while it could run, and once nothing from
    outside arrives the work drains; all but for the reconciles that keep failing. *)
From S2P Require Import Prelude Readiness Probe ProbeRun ProbeProofs ProbeInv ProbeSafety ProbeGuarantees.
From stdpp Require Import gmap.

(** ** Nothing is lost *)

(** [t] is still to run: queued, waiting for the encode gate, or running. *)
Definition outstanding (s : Scheduler) (t : ProbeTarget) : Prop :=
  t ∈ s_pending s ∨ t ∈ s_gate_waiting s ∨ ∃ r, s_running s = Some r ∧ r_target r = t.

(** What an inventory's change retires it queues again where there is still something to probe. *)
Lemma kept_or_requeued K old new t :
  due K (Some new) t → ¬ retired K old new t ∨ requeued K old new t.
Proof.
  intros Hd. destruct (t_gpu t) as [g|] eqn:Hg.
  - destruct (decide (moved_gpu old new g)) as [Hm|Hm]; [right; split; [done|]; right; eauto|].
    destruct (identity_changed old new) eqn:Hid; [right; split; [done|]; right; eauto|].
    left. intros [(g' & Hg' & _ & H)|[? _]]; [|congruence]. rewrite Hg in Hg'. injection Hg' as <-. tauto.
  - left. intros [(g' & Hg' & _)|[_ [_ [(g' & _ & ->)|(g' & c & _ & ->)]]]]; congruence || done.
Qed.

Lemma effect_outstanding B R E D σ σ' t :
  effect_b B R E D σ σ' → outstanding σ.1 t → ¬ R t ∨ E t → outstanding σ'.1 t.
Proof.
  intros [_ Hp Hg _ (new & _ & _ & Hr & _)] Ho HRE. unfold outstanding. rewrite Hp, Hg.
  destruct HRE as [HR|HE]; [|tauto]. destruct Ho as [H|[H|(r & H & Ht)]]; [tauto..|].
  unfold run_effect in Hr. rewrite H in Hr. destruct (s_running σ'.1) as [r'|]; [|done].
  right; right. exists r'. split; [done|]. destruct Hr as (-> & _). done.
Qed.

Lemma preempt_outstanding σ t : outstanding σ.1 t → outstanding (preempt σ).1 t.
Proof.
  unfold preempt, outstanding. destruct (s_running σ.1) as [r|] eqn:Hr; [|by rewrite Hr].
  destruct (r_preempted r); [by rewrite Hr|]. simpl. intros [H|[H|(r0 & [= <-] & H)]]; [tauto..|].
  right; right. by eexists.
Qed.

Lemma grown_outstanding X σ σ' t : grown X σ σ' → outstanding σ.1 t → outstanding σ'.1 t.
Proof. intros (p & -> & Hp). unfold outstanding. simpl. rewrite Hp. tauto. Qed.

(** The codec probes that a media probe's failure takes with it. *)
Definition fell (t0 : ProbeTarget) (v : Verdict) (t : ProbeTarget) : Prop :=
  v = NotPassed ∧ ∃ g, t0 = gpu_target PkMedia g ∧ t_gpu t = Some g ∧ is_Some (t_codec t).

Lemma media_verdict_outstanding t0 v σ t :
  outstanding σ.1 t → outstanding (media_verdict t0 v σ).1 t ∨
    (fell t0 v t ∧ ∃ g, t_gpu t = Some g ∧ g ∉ s_media_passed (media_verdict t0 v σ).1).
Proof.
  intros Ho. destruct t0 as [k [g|] [c|]]; destruct k; try by left.
  unfold media_verdict. cbn [t_kind t_gpu t_codec]. destruct v; [| |by left].
  - left. set (σ1 := upd _ σ). assert (outstanding σ1.1 t) as H1 by exact Ho. clearbody σ1.
    case_bool_decide; [|done]. eapply grown_outstanding; [apply grown_queue_codecs|done].
  - destruct (is_codec_of g t) eqn:Hc.
    + right. apply andb_true_iff in Hc as [Hg Hc]. apply bool_decide_eq_true in Hg, Hc.
      split; [split; [done|]; by exists g|]. exists g. split; [done|]. simpl. set_solver.
    + left. destruct Ho as [H|[H|H]]; [left|right; left|by right; right]; simpl; by apply elem_of_filter.
Qed.

(** The run of [t] ended of its own accord. *)
Definition concluded (s : Scheduler) (ev : Event) (t : ProbeTarget) : Prop :=
  ∃ r rec v, s_running s = Some r ∧ r_target r = t ∧ r_preempted r = false ∧ ev = ProbeFinished t rec v.

Definition unfounded (s : Scheduler) (t : ProbeTarget) : Prop :=
  is_Some (t_codec t) ∧ ∃ g, t_gpu t = Some g ∧ g ∉ s_media_passed s.

Lemma finished_outstanding t0 rec v s t :
  wf s → outstanding s t → due (s_kinds s) (s_inputs s) t →
  let s' := (probe_finished t0 rec v (s, [])).1 in
  outstanding s' t ∨ concluded s (ProbeFinished t0 rec v) t ∨ unfounded s' t.
Proof.
  intros W Ho Hd. unfold probe_finished. cbn [fst]. destruct (s_running s) as [r|] eqn:Hr; [|by left].
  case_bool_decide as Ht; [|by left].
  assert (exists_target s t = true) as He by apply due_iff, Hd.
  destruct (decide (t0 = t ∧ r_preempted r = false)) as [[-> Hp]|Hn].
  { right; left. by exists r, rec, v. }
  set (σ2 := if r_preempted r && _ then _ else _).
  assert (outstanding σ2.1 t ∧ exists_target σ2.1 t0 = exists_target s t0) as [H2 E2].
  { unfold σ2. change (exists_target (upd (with_running None) (s, [])).1 t0) with (exists_target s t0).
    split; [|by case_match]. destruct Ho as [H|[H|(r0 & [= <-]%(eq_trans (eq_sym Hr)) & H)]].
    - left. case_match; simpl; [|done]. set_solver.
    - right; left. by case_match.
    - rewrite <- Ht, H in *. destruct (r_preempted r); [|by destruct Hn]. rewrite He. left. simpl. set_solver. }
  clearbody σ2. set (σ3 := if rec then σ2 else _).
  assert (outstanding σ3.1 t) as H3 by (unfold σ3; by destruct rec).
  clearbody σ3. cbv zeta. case_match; [|by left].
  set (v' := match v with Passed => _ | _ => _ end). clearbody v'.
  destruct (media_verdict_outstanding t0 v' σ3 t H3) as [Hm|[(_ & g & _ & _ & Hc) Hm]]; [by left|].
  right; right. split; [done|exact Hm].
Qed.

Lemma event_outstanding ev s t σ rf :
  wf s → on_event ev (s, []) = (σ, rf) → outstanding s t → due (s_kinds s) (s_inputs σ.1) t →
  outstanding σ.1 t ∨ concluded s ev t ∨ unfounded σ.1 t.
Proof.
  intros W Hev Ho Hd. assert (σ = (on_event ev (s, [])).1) as -> by (by rewrite Hev). clear Hev.
  assert (∀ i s1, s_kinds s1 = s_kinds s → is_Some (s_inputs s1) → outstanding s1 t →
     due (s_kinds s) (s_inputs (observe i (s1, [])).1) t → outstanding (observe i (s1, [])).1 t) as Hobs.
  { intros i s1 Hk [old Hi] H Hd'. pose proof (effect_observe old i (s1, []) Hi) as He.
    eapply effect_outstanding; [exact He|exact H|]. cbn [fst]. apply kept_or_requeued.
    rewrite (other_inputs _ _ (ef_other _ _ _ _ _ _ He)) in Hd'. cbn [fst] in Hk. rewrite Hk. exact Hd'. }
  destruct ev as [i| |i|gpu|live launching|gpu ex codec|t0 rec v|k ok|t0|]; cbn [on_event fst].
  - left. cbn [on_event fst] in Hd. revert Hd.
    match goal with |- context [observe i ?x] => change x with ((with_gate_waiting ∅ (with_pending (s_pending s ∪ s_gate_waiting s) (with_registered true s)), []) : St) end.
    set (s1 := with_gate_waiting _ _).
    assert (outstanding s1 t) as H1 by (destruct Ho as [H|[H|H]]; [left; simpl; set_solver..|by right; right]).
    cbn [fst]. destruct (s_inputs s1) as [old|] eqn:Hi.
    + intros Hd. apply Hobs; [done|by eexists|done|exact Hd].
    + intros _. change (outstanding (queue_kinds KIND_ALL i (s1, [])).1 t).
      eapply effect_outstanding; [apply effect_queue_kinds|exact H1|]. by left; intros [].
  - left. by apply preempt_outstanding.
  - left. cbn [on_event fst] in Hd. destruct (s_inputs s) as [old|] eqn:Hi; [|done].
    apply Hobs; [done|by eexists|done|exact Hd].
  - left. by apply preempt_outstanding.
  - by left.
  - left. eapply grown_outstanding; [apply grown_queue_failed|done].
  - assert (s_inputs (probe_finished t0 rec v (s, [])).1 = s_inputs s) as Hi by by apply (untouched_finished s_inputs).
    cbn [on_event fst] in Hd. rewrite Hi in Hd. by apply finished_outstanding.
  - left. case_bool_decide; [|done]. by destruct ok.
  - left. cbn [on_event fst] in Hd. destruct (s_running s) as [r|] eqn:Hr; [|done].
    case_bool_decide as Ht; [|done]. change (exists_target (upd (with_running None) (s, [])).1) with (exists_target s) in *.
    destruct Ho as [H|[H|(r0 & [= <-]%(eq_trans (eq_sym Hr)) & H)]].
    + left. by destruct (exists_target s t0).
    + right; left. destruct (exists_target s t0); simpl; [set_solver|done].
    + subst t0. rewrite H in *. right; left.
      assert (exists_target s t = true) as He; [|rewrite He; simpl; set_solver].
      apply (due_iff s). by destruct (exists_target s t).
  - left. assert (exists_target s t = true) as He by apply due_iff, Hd.
    destruct Ho as [H|[H|H]]; [left; simpl; set_solver| |by right; right].
    left. simpl. apply elem_of_union_r, elem_of_filter. done.
Qed.

Lemma dispatched_outstanding rf σ σ' t :
  dispatched rf σ σ' → outstanding σ.1 t → outstanding σ'.1 t ∨ unfounded σ'.1 t.
Proof.
  assert (∀ drop, (∀ t, t ∈ drop → t ∈ s_pending σ.1 ∧ droppable σ.1 t) → outstanding σ.1 t →
    outstanding (dropping drop σ.1) t ∨ unfounded σ.1 t) as Hdrop.
  { intros drop Hdr Ho. destruct (decide (t ∈ drop)) as [Hin|Hni].
    - right. destruct (Hdr t Hin) as [_ (g & Hg & Hc & _ & _ & Hp)]. split; [done|]. by exists g.
    - left. destruct Ho as [H|H]; [left; simpl; set_solver|by right]. }
  intros [Hb|drop Hi Hdr _|drop t0 Hi Hdr _ _ _ _|drop t0 Hi Hdr _ _ _ _ _] Ho.
  - by left.
  - exact (Hdrop drop Hdr Ho).
  - destruct (Hdrop drop Hdr Ho) as [H|H]; [left|by right]. destruct Hi as (_ & _ & Hr & _).
    destruct H as [H|[H|(r & H & _)]]; [|by right; left|simpl in H; congruence].
    destruct (decide (t = t0)) as [->|Hne]; [right; right; by eexists|]. left. simpl in *. set_solver.
  - exact (Hdrop drop Hdr Ho).
Qed.

Lemma dispatched_inputs rf σ σ' : dispatched rf σ σ' → s_inputs σ'.1 = s_inputs σ.1 ∧ s_media_passed σ'.1 = s_media_passed σ.1.
Proof. by intros []. Qed.

(** (C27) A probe that is queued, held at the encode gate or running, and for which there is still
    something to probe after a message, is still queued, held or running then; unless the message
    is the end of its own run, which nothing had pre-empted, or it is a codec's probe on a GPU
    whose media probe has not passed. So a launch, a disconnect, a new inventory or a busy encode
    gate costs no probe. *)
Theorem no_probe_is_lost kinds o now msg t :
  reachable kinds o → receivable o msg → outstanding (o_sched o) t →
  let o' := handle now msg o in
  due (s_kinds (o_sched o')) (s_inputs (o_sched o')) t →
  outstanding (o_sched o') t ∨
  ((∃ e, msg = RunEnded t e ∧ e ≠ Ok Deferred) ∧ o_preempt o = Some false) ∨
  (is_Some (t_codec t) ∧ ∃ g, t_gpu t = Some g ∧ floor_passed (o_sent o') g = false).
Proof.
  intros Ho%reachable_ok Hm Hout o' Hd. pose proof (handle_ok now msg o Ho Hm) as Ho'. fold o' in Ho'.
  assert (o_sched o' = (step (o_sched o) (event_of msg)).1) as Es by apply handle_sched.
  destruct (step_spec _ (event_of msg) (oo_wf o Ho)) as (σ & rf & He & _ & Hev & Hdi).
  rewrite Es in Hd. destruct (dispatched_inputs _ _ _ Hdi) as [Ei Em].
  assert (s_kinds (step (o_sched o) (event_of msg)).1 = s_kinds (o_sched o)) as Ek.
  { rewrite <- (ev_kinds _ _ _ He). by destruct Hdi. }
  rewrite Ek, Ei in Hd.
  assert (unfounded (o_sched o') t → is_Some (t_codec t) ∧ ∃ g, t_gpu t = Some g ∧ floor_passed (o_sent o') g = false) as Hun.
  { intros [Hc (g & Hg & Hn)]. split; [done|]. exists g. split; [done|].
    apply not_true_is_false. by rewrite <- (oo_floor o' Ho'). }
  destruct (event_outstanding _ _ t σ rf (oo_wf o Ho) Hev Hout Hd) as [H|[H|H]].
  - rewrite Es in *. destruct (dispatched_outstanding _ _ _ t Hdi H) as [H'|H']; [by left|by right; right; apply Hun].
  - right; left. destruct H as (r & rec & v & Hr & Ht & Hp & Hevt).
    split; [|by rewrite (oo_flag o Ho r Hr), Hp].
    destruct msg as [ev|t0 [[outcome rec0|]|e]|k ok]; simpl in Hevt; try discriminate.
    + subst ev. discriminate Hm.
    + injection Hevt as -> _ _. by eexists.
    + injection Hevt as -> _ _. by eexists.
  - right; right. apply Hun. rewrite Es. split; [apply H|]. destruct H as [_ (g & Hg & H)]. exists g. by rewrite Em.
Qed.

(** ** Nothing waits in vain *)

Lemma failed_reconcile ev s σ k : on_event ev (s, []) = (σ, Some k) → ev = Reconciled k false.
Proof.
  destruct ev as [i| |i|gpu|live launching|gpu ex codec|t0 rec v|k' ok|t0|]; cbn [on_event]; try (intros [=]; done).
  case_bool_decide; [|intros [=]]. destruct ok; [intros [=]|]. by intros [= _ ->].
Qed.

(** While the agent is registered, no session launches and nothing runs, whatever is still
    queued waits for a reason: a session is live on its GPU, it is a codec's probe and its GPU's
    media probe is to run first, or the removal of an earlier container of its kind has just
    failed. *)
Theorem nothing_waits_in_vain kinds o now msg t :
  reachable kinds o → receivable o msg →
  let o' := handle now msg o in let s := o_sched o' in
  s_registered s = true → s_launching s = false → o_runs o' = [] → o_reconciles o' = [] → t ∈ s_pending s →
  (∃ g, t_gpu t = Some g ∧ (g ∈ s_live_gpus s ∨ (is_Some (t_codec t) ∧ floor_due s t))) ∨
  (t_kind t ∈ s_unreconciled s ∧ msg = ReconcileEnded (t_kind t) false).
Proof.
  intros Ho%reachable_ok Hm o' s Hreg Hl Hruns Hrecs Ht. pose proof (handle_ok now msg o Ho Hm) as Ho'. fold o' in Ho'.
  assert (s = (step (o_sched o) (event_of msg)).1) as Es by apply handle_sched.
  rewrite (oo_runs _ Ho') in Hruns. rewrite (oo_reconciles _ Ho') in Hrecs. fold s in Hruns, Hrecs.
  destruct (step_spec _ (event_of msg) (oo_wf o Ho)) as (σ & rf & He & _ & Hev & Hdi).
  clearbody s. destruct (step (o_sched o) (event_of msg)) as [s1 acts]. simpl in Es. subst s1.
  inversion Hdi as [Hb Heq|drop Hi Hdr Hw Heq|drop t0 Hi Hdr _ _ _ _ Heq|drop t0 Hi Hdr _ _ _ _ _ Heq]; subst.
  - destruct Hb. unfold idle. simpl. split_and!; [done|done|by destruct (s_running s)|by destruct (s_reconciling s)].
  - simpl in Ht. apply elem_of_difference in Ht as [Ht Hnd].
    destruct (Hw t Ht Hnd) as [(g & Hg & H)|[Hu ->]]; [left|right].
    + exists g. split; [done|]. destruct H as [H|[Hc H]]; [by left|right]. split; [done|].
      destruct H as [H|H]; [left|by right]. simpl. apply elem_of_difference. split; [done|].
      intros (_ & g0 & _ & [c Hc0] & _)%Hdr. by simpl in Hc0.
    + split; [done|]. apply failed_reconcile in Hev.
      destruct msg as [ev|t0 [[outcome rec0|]|e]|k ok]; simpl in Hev; try discriminate.
      * subst ev. discriminate Hm.
      * by injection Hev as -> ->.
  - by simpl in Hruns.
  - by simpl in Hrecs.
Qed.
