(* ===== verification/ProbeDrain.v ===== *)
(** * How long the host probes run

    Left to itself the orchestrator finishes: every task's end brings the amount of work down, as
    long as the removal of an earlier container succeeds. Where it keeps failing for two kinds,
    the loop never rests. *)
From S2P Require Import Prelude Readiness Probe ProbeRun ProbeProofs ProbeInv ProbeSafety ProbeGuarantees.
From stdpp Require Import gmap.

(** ** The work left *)

(** A media probe may add its GPU's two codecs. *)
Definition weight (t : ProbeTarget) : nat :=
  match t_kind t, t_codec t with PkMedia, None => 6 | _, _ => 2 end.
Definition load (X : gset ProbeTarget) : nat := sum_list (weight <$> elements X).
Definition run_load (r : option Running) : nat :=
  match r with Some r => (if r_preempted r then 2 else 1) * weight (r_target r) | None => 0 end.
Definition work (s : Scheduler) : nat := load (s_pending s) + run_load (s_running s) + size (s_unreconciled s).

Lemma load_disj_union X Y : X ## Y → load (X ∪ Y) = load X + load Y.
Proof.
  intros H. unfold load. rewrite (elements_disj_union X Y H), fmap_app. apply sum_list_with_app.
Qed.
Lemma load_singleton t : load {[t]} = weight t.
Proof. unfold load. rewrite elements_singleton. simpl. lia. Qed.

Lemma load_mono X Y : X ⊆ Y → load X <= load Y.
Proof. intros H. rewrite (union_difference_L X Y H), load_disj_union by set_solver. lia. Qed.

Lemma load_union X Y : load (X ∪ Y) <= load X + load Y.
Proof.
  replace (X ∪ Y) with (X ∪ (Y ∖ X)) by (apply set_eq; intros t; destruct (decide (t ∈ X)); set_solver).
  rewrite load_disj_union by set_solver. pose proof (load_mono (Y ∖ X) Y ltac:(set_solver)). lia.
Qed.

Lemma load_delete t X : t ∈ X → load X = weight t + load (X ∖ {[t]}).
Proof.
  intros H. rewrite <- (load_singleton t), <- load_disj_union by set_solver. f_equal.
  apply set_eq. intros t'. destruct (decide (t' = t)); set_solver.
Qed.

Lemma dispatched_work rf σ σ' : dispatched rf σ σ' → work σ'.1 <= work σ.1.
Proof.
  intros [Hb|drop Hi Hdr _|drop t Hi Hdr Ht Hnd _ _|drop t Hi Hdr _ _ _ _ _]; unfold work; simpl.
  - done.
  - pose proof (load_mono (s_pending σ.1 ∖ drop) (s_pending σ.1) ltac:(set_solver)). lia.
  - destruct Hi as (_ & _ & -> & _). simpl.
    pose proof (load_mono (s_pending σ.1 ∖ drop) (s_pending σ.1) ltac:(set_solver)).
    pose proof (load_delete t (s_pending σ.1 ∖ drop) ltac:(set_solver)). lia.
  - pose proof (load_mono (s_pending σ.1 ∖ drop) (s_pending σ.1) ltac:(set_solver)). lia.
Qed.

(** A verdict adds no more than the two codecs of the GPU it is of. *)
Lemma verdict_work t v σ : work (media_verdict t v σ).1 <= work σ.1 + (weight t - 2).
Proof.
  unfold media_verdict. destruct (t_kind t) eqn:Hk, (t_gpu t) as [g|], (t_codec t) as [c|] eqn:Hc; try lia.
  unfold weight. rewrite Hk, Hc. destruct v; [| |lia].
  - case_bool_decide; [|unfold work; simpl; lia].
    match goal with |- context [queue_codecs g ?x] => destruct (grown_queue_codecs g x) as (p & -> & Hp) end.
    unfold work. simpl.
    assert (p ⊆ s_pending σ.1 ∪ ({[codec_target g H265]} ∪ {[codec_target g Av1]})) as Hsub.
    { intros t'. rewrite Hp. intros [H'|(_ & i & c & _ & _ & ->)]; [set_solver|]. destruct c; set_solver. }
    pose proof (load_mono _ _ Hsub). pose proof (load_union (s_pending σ.1) ({[codec_target g H265]} ∪ {[codec_target g Av1]})).
    pose proof (load_union {[codec_target g H265]} {[codec_target g Av1]}) as Hu. rewrite !load_singleton in Hu. change (load {[codec_target g H265; codec_target g Av1]} <= 4) in Hu. lia.
  - unfold work. simpl.
    match goal with |- load ?X + _ + _ <= _ =>
      assert (load X <= load (s_pending σ.1)) by (apply load_mono; by intros t' [_ ?]%elem_of_filter) end. lia.
Qed.

Lemma weight_ge t : 2 <= weight t.
Proof. unfold weight. destruct (t_kind t), (t_codec t); lia. Qed.

Lemma finished_work t rec v s r :
  s_running s = Some r → r_target r = t → work (probe_finished t rec v (s, [])).1 < work s.
Proof.
  intros Hr Ht. unfold probe_finished. cbn [fst]. rewrite Hr, (bool_decide_eq_true_2 _ Ht).
  pose proof (weight_ge t) as Hw.
  set (σ2 := if r_preempted r && _ then _ else _).
  assert (work σ2.1 + weight t <= work s) as H2.
  { unfold work at 2. rewrite Hr. simpl. rewrite Ht. unfold σ2. destruct (r_preempted r); simpl.
    - case_match; unfold work; simpl; [|lia]. pose proof (load_union {[t]} (s_pending s)). rewrite load_singleton in *. lia.
    - unfold work. simpl. lia. }
  clearbody σ2. set (σ3 := if rec then σ2 else _).
  assert (work σ3.1 <= work σ2.1 + 1) as H3.
  { unfold σ3. destruct rec; [lia|]. unfold work. simpl.
    pose proof (size_union_alt {[t_kind t]} (s_unreconciled σ2.1)) as Hs. rewrite Hs, size_singleton.
    pose proof (subseteq_size (s_unreconciled σ2.1 ∖ {[t_kind t]}) (s_unreconciled σ2.1) ltac:(set_solver)). lia. }
  clearbody σ3. cbv zeta. case_match; [|lia].
  set (v' := match v with Passed => _ | _ => _ end). clearbody v'.
  pose proof (verdict_work t v' σ3). lia.
Qed.

(** ** The drain *)

(** The end of a task, and of no failed reconcile. *)
Definition internal (msg : Msg) : bool :=
  match msg with External _ => false | RunEnded _ _ => true | ReconcileEnded _ ok => ok end.
Definition internal_step (o o' : Orch) : Prop :=
  ∃ now msg, receivable o msg ∧ internal msg = true ∧ o' = handle now msg o.

Lemma internal_work o o' : orch_ok o → internal_step o o' → work (o_sched o') < work (o_sched o).
Proof.
  intros Ho (now & msg & Hm & Hi & ->). rewrite handle_sched.
  destruct (step_spec _ (event_of msg) (oo_wf o Ho)) as (σ & rf & He & _ & Hev & Hd).
  apply dispatched_work in Hd. enough (work σ.1 < work (o_sched o)) by lia. clear Hd.
  destruct msg as [ev|t e|k ok]; [done|..].
  - destruct (running_target o t Ho Hm) as (r & Hr & Ht & _).
    assert (∀ rec v, work (on_event (ProbeFinished t rec v) (o_sched o, [])).1.1 < work (o_sched o)) as Hf
      by (intros rec v; by apply (finished_work t rec v _ r)).
    destruct e as [[outcome rec|]|e]; cbn [event_of] in Hev.
    + specialize (Hf rec (verdict_of outcome)). by rewrite Hev in Hf.
    + cbn [on_event fst] in Hev. rewrite Hr, (bool_decide_eq_true_2 _ Ht) in Hev.
      assert (work (with_running None (o_sched o)) < work (o_sched o)) as H.
      { unfold work. rewrite Hr. simpl. pose proof (weight_ge (r_target r)). destruct (r_preempted r); lia. }
      injection Hev as <- _. by destruct (exists_target _ t).
    + specialize (Hf (negb (is_container (t_kind t))) Inconclusive). by rewrite Hev in Hf.
  - simpl in Hm, Hi. subst ok. rewrite (oo_reconciles o Ho) in Hm.
    destruct (s_reconciling (o_sched o)) as [k'|] eqn:Hk; [|by apply not_elem_of_nil in Hm].
    apply list_elem_of_singleton in Hm as ->. cbn [event_of on_event fst] in Hev.
    rewrite (bool_decide_eq_true_2 _ Hk) in Hev. injection Hev as <- _. unfold work. simpl.
    pose proof (wf_reconciling _ (oo_wf o Ho) k' Hk) as Hin.
    assert (size (s_unreconciled (o_sched o) ∖ {[k']}) < size (s_unreconciled (o_sched o))); [|lia].
    apply subset_size. set_solver.
Qed.

(** (C28) With no message from outside and no removal of an earlier container failing, the
    orchestrator comes to rest: however its tasks end, there are at most six further messages for
    each queued probe, twelve for the one that runs and one for each kind with a container left. *)
Theorem work_drains kinds o o' n :
  reachable kinds o → nsteps internal_step n o o' →
  n <= 6 * size (s_pending (o_sched o)) + 12 + size (s_unreconciled (o_sched o)).
Proof.
  intros Ho%reachable_ok Hn. assert (n + work (o_sched o') <= work (o_sched o)) as H.
  { induction Hn as [|n x y z Hxy _ IH]; [lia|].
    pose proof (internal_work x y Ho Hxy). destruct Hxy as (now & msg & Hm & _ & ->).
    specialize (IH (handle_ok now msg x Ho Hm)). lia. }
  unfold work in H at 2.
  assert (∀ t, weight t <= 6) as Hw by (intros t; unfold weight; destruct (t_kind t), (t_codec t); lia).
  assert (load (s_pending (o_sched o)) <= 6 * size (s_pending (o_sched o))) as Hl.
  { unfold load. change (size (s_pending (o_sched o))) with (length (elements (s_pending (o_sched o)))).
    induction (elements (s_pending (o_sched o))) as [|t l IH]; cbn [fmap list_fmap sum_list length]; [lia|].
    specialize (Hw t). unfold id at 1. change (sum_list_with id) with (sum_list_with (λ x : nat, x)) in *. lia. }
  assert (run_load (s_running (o_sched o)) <= 12) as Hr.
  { unfold run_load. destruct (s_running (o_sched o)) as [r|]; [|lia]. specialize (Hw (r_target r)). destruct (r_preempted r); lia. }
  lia.
Qed.

(** ** Where it does not *)

(** Containers of two kinds are left behind, and nothing but probes of such kinds is queued. *)
Definition spinning (s : Scheduler) : Prop :=
  s_registered s = true ∧ s_launching s = false ∧ is_Some (s_reconciling s) ∧
  (∀ t, t ∈ s_pending s → t_kind t ∈ s_unreconciled s) ∧
  ∃ t1 t2, t1 ∈ s_pending s ∧ t2 ∈ s_pending s ∧ t_kind t1 ≠ t_kind t2 ∧ t_codec t1 = None ∧ t_codec t2 = None ∧
    ∀ g, t_gpu t1 = Some g ∨ t_gpu t2 = Some g → g ∉ s_live_gpus s.

Definition reconcile_fails (o o' : Orch) : Prop :=
  ∃ now k, receivable o (ReconcileEnded k false) ∧ o' = handle now (ReconcileEnded k false) o.

Lemma spinning_on s k :
  wf s → s_reconciling s = Some k → spinning s → spinning (step s (Reconciled k false)).1.
Proof.
  intros W Hk (H1 & H2 & _ & Hall & t1 & t2 & Ht1 & Ht2 & Hne & Hc1 & Hc2 & Hlive).
  set (s1 := with_reconciling None s).
  assert (on_event (Reconciled k false) (s, []) = ((s1, []), Some k)) as Hev.
  { cbn [on_event fst]. by rewrite (bool_decide_eq_true_2 _ Hk). }
  unfold step. rewrite Hev. pose proof (dispatch_spec (Some k) (s1, [])) as Hd. set (σ' := dispatch _ _) in *. clearbody σ'.
  assert (s_running s = None) as Hr.
  { destruct (s_running s) as [r|] eqn:Hr; [|done]. pose proof (wr_alone _ _ (wf_run _ W r Hr)). congruence. }
  assert (∃ t, t ∈ s_pending s ∧ t_codec t = None ∧ t_kind t ≠ k ∧ ∀ g, t_gpu t = Some g → g ∉ s_live_gpus s) as (t & Ht & Hc & Htk & Hl).
  { destruct (decide (t_kind t1 = k)) as [He|He]; [exists t2|exists t1]; (split_and!; [done|done|congruence|auto]). }
  destruct Hd as [Hb|drop Hi Hdr Hw|drop t0 Hi Hdr Ht0 _ _ Hu|drop t0 Hi Hdr Ht0 Hnd Hrd Hu Hrf].
  - destruct Hb. by unfold idle.
  - exfalso. assert (t ∉ drop) as Hnd.
    { intros (_ & g & _ & [c Hc'] & _)%Hdr. congruence. }
    destruct (Hw t Ht Hnd) as [(g & Hg & [H|[[c Hc'] _]])|[_ [= H]]]; [by apply (Hl g Hg)|congruence|congruence].
  - exfalso. apply Hu, Hall, Ht0.
  - assert (∀ t, t_codec t = None → t ∉ drop) as Hnd'.
    { intros t' Hc' (_ & g & _ & [c Hc''] & _)%Hdr. congruence. }
    unfold spinning. simpl. split_and!; [done|done|by eexists|intros t' [Ht' _]%elem_of_difference; by apply Hall|].
    exists t1, t2. rewrite !elem_of_difference. split_and!; auto.
Qed.

(** (C29) Two kinds of container probes whose earlier containers cannot be removed keep the
    orchestrator busy for ever: the end of the one kind's failed removal starts the other's, and
    so on, with no other message; a failed removal is then retried in a loop driven by such ends,
    and not on a later event. *)
Theorem failing_reconciles_spin kinds o n :
  reachable kinds o → spinning (o_sched o) → ∃ o', nsteps reconcile_fails n o o' ∧ o_reconciles o' ≠ [].
Proof.
  intros Ho%reachable_ok. revert o Ho. induction n as [|n IH]; intros o Ho Hs.
  - exists o. split; [constructor|]. rewrite (oo_reconciles o Ho). destruct Hs as (_ & _ & [k ->] & _). done.
  - pose proof Hs as (_ & _ & [k Hk] & _).
    assert (receivable o (ReconcileEnded k false)) as Hm by (simpl; rewrite (oo_reconciles o Ho), Hk; by left).
    destruct (IH (handle 0 (ReconcileEnded k false) o)) as (o' & Hn & Hne).
    + by apply handle_ok.
    + rewrite handle_sched. apply spinning_on; [apply Ho|done|done].
    + exists o'. split; [|done]. econstructor; [|exact Hn]. by exists 0%Z, k.
Qed.
