(* ===== verification/ProbeReports.v ===== *)
(** * What the host probes report

    How a probe's end is judged, that no probe's check takes another's place, and what the
    readiness report shows of the checks it holds. *)
From S2P Require Import Prelude Readiness Probe ProbeRun ProbeProofs.
From stdpp Require Import gmap.

(** ** From an end to an outcome *)

(** A probe that crashes does so by one of these signals. *)
Definition crash_signals : list Z := [11; 6; 7; 4; 8; 31; 5]%Z.

Lemma fault_signal_iff n : is_Some (fault_signal n) ↔ n ∈ crash_signals.
Proof.
  unfold fault_signal, crash_signals. split.
  - intros [s H]. repeat (case_match eqn:Hn; [apply Z.eqb_eq in Hn as ->; clear; set_solver|clear Hn]). discriminate.
  - intros H. repeat (apply elem_of_cons in H as [->|H]; [by eexists|]). by apply not_elem_of_nil in H.
Qed.

(** The kinds of outcome, without their words. *)
Inductive Judgement := JPass | JFail | JUnsupported | JIndeterminate.
Definition judgement (o : ProbeOutcome) : option Judgement :=
  match o with
  | PoPass _ => Some JPass
  | PoFail _ _ => Some JFail
  | PoUnsupported _ => Some JUnsupported
  | PoIndeterminate _ => Some JIndeterminate
  | PoNotApplicable _ => None
  end.

(** A probe passes only by exiting 0 and fails only by exiting 1, by a crash of its own, or,
    where no codec was asked for, by the exit that says a codec is not supported, which for a codec
    is its own outcome. An end that came from outside, a deadline, a pre-emption, a foreign signal,
    a child that never started or any other exit, concludes nothing. *)
Theorem only_its_own_end_concludes t e :
  judgement (child_outcome t e) = Some
    match e with
    | Exited code _ _ =>
        if (code =? 0)%Z then JPass else if (code =? 1)%Z then JFail
        else if (code =? 4)%Z then match t_codec t with Some _ => JUnsupported | None => JFail end else JIndeterminate
    | Signaled signal => if decide (signal ∈ crash_signals) then JFail else JIndeterminate
    | Deadline _ | ChildPreempted | SpawnFailed _ => JIndeterminate
    end.
Proof.
  unfold child_outcome. destruct (wording t) as [[passed failed] exercising]. destruct e as [code out rem|signal|d| |why]; try done.
  - destruct (code =? 0)%Z; [done|]. destruct (code =? 1)%Z; [done|]. unfold UNSUPPORTED_EXIT.
    destruct (code =? 4)%Z; [|done]. by destruct (t_codec t).
  - destruct (decide (signal ∈ crash_signals)) as [H|H]; rewrite <- fault_signal_iff in H.
    + by destruct H as [s ->].
    + by apply eq_None_not_Some in H as ->.
Qed.

(** ** One check for each target *)

Lemma sapp_inj_l a b c : a +:+ b = a +:+ c → b = c.
Proof. induction a as [|x a IH]; [done|]. simpl. intros [=]. auto. Qed.

Lemma sapp_nil_l_inv a b c : a +:+ String c b ≠ EmptyString.
Proof. by destruct a. Qed.

(** Two texts without [c] before a [c]. *)
Lemma before_inj c a b x y :
  contains_char c a = false → contains_char c b = false → a +:+ String c x = b +:+ String c y → a = b ∧ x = y.
Proof.
  revert b. induction a as [|d a IH]; intros [|d' b] Ha Hb; simpl in *.
  - by intros [= ->].
  - intros [= <- _]. by rewrite Ascii.eqb_refl in Hb.
  - intros [= -> _]. by rewrite Ascii.eqb_refl in Ha.
  - apply orb_false_iff in Ha as [_ Ha], Hb as [_ Hb]. intros [= -> H]. by destruct (IH b Ha Hb H) as [-> ->].
Qed.

Lemma pretty_plain (z : Z) : contains_char "_" (pretty z) = false.
Proof. by apply pretty_Z_no. Qed.

(** What follows the kind in a check's id. *)
Definition id_tail (g : option Z) (c : option ProbeCodec) : string :=
  match g, c with
  | Some index, Some c => "_gpu" +:+ pretty index +:+ "_" +:+ codec_str c
  | Some index, None => "_gpu" +:+ pretty index
  | None, _ => EmptyString
  end.

Lemma check_id_tail t : check_id t = kind_check_id (t_kind t) +:+ id_tail (t_gpu t) (t_codec t).
Proof.
  unfold check_id, id_tail. destruct (t_gpu t), (t_codec t); by rewrite ?sapp_nil_r.
Qed.

Lemma id_tail_inj g g' c c' :
  (g = None → c = None) → (g' = None → c' = None) → id_tail g c = id_tail g' c' → g = g' ∧ c = c'.
Proof.
  intros Hn Hn'. unfold id_tail. destruct g as [i|], g' as [i'|].
  - destruct c as [c|], c' as [c'|]; intros H%sapp_inj_l.
    + apply before_inj in H as [H H2]; [|apply pretty_plain..]. apply (inj pretty) in H as ->. by destruct c, c'.
    + pose proof (pretty_plain i') as Hp. rewrite <- H, contains_char_app in Hp. by rewrite orb_comm in Hp.
    + pose proof (pretty_plain i) as Hp. rewrite H, contains_char_app in Hp. by rewrite orb_comm in Hp.
    + by apply (inj pretty) in H as ->.
  - by destruct c.
  - by destruct c'.
  - intros _. by rewrite Hn, Hn'.
Qed.

(** Two probes report under the same check id only if they are the same probe: no probe's
    result can take the place of another's, of another GPU's or of another codec's. *)
Theorem check_id_injective t t' : shaped t → shaped t' → check_id t = check_id t' → t = t'.
Proof.
  intros Hs Hs'. rewrite !check_id_tail.
  assert (∀ t, shaped t → t_gpu t = None → t_codec t = None) as Hnone by (intros [k [g|] c]; unfold shaped; simpl; done).
  destruct t as [k g c], t' as [k' g' c']. cbn [t_kind t_gpu t_codec].
  assert (k = k' → id_tail g c = id_tail g' c' → mkTarget k g c = mkTarget k' g' c') as Hend.
  { intros -> H. apply id_tail_inj in H as [-> ->]; [done|by intros ->; apply (Hnone _ Hs)|by intros ->; apply (Hnone _ Hs')]. }
  destruct k, k'; try discriminate; intros H%sapp_inj_l; by apply Hend.
Qed.

(** ** What the report holds *)

Definition held_ids (r : ReadinessReport) : list string := map (λ x, ck_id (rt_check x)) (rr_retained r).

Lemma find_retained_spec id l :
  match find_retained id l with
  | Some x => x ∈ l ∧ ck_id (rt_check x) = id
  | None => Forall (λ x, ck_id (rt_check x) ≠ id) l
  end.
Proof.
  induction l as [|x l IH]; simpl; [constructor|]. destruct (str_eqb _ id) eqn:He.
  - apply str_eqb_true in He. split; [by left|done].
  - apply str_eqb_false in He. destruct (find_retained id l); [|by constructor].
    destruct IH. split; [by right|done].
Qed.

Lemma find_retained_other c at_ l id :
  id ≠ ck_id c → find_retained id (retain_in c at_ l) = find_retained id l.
Proof.
  intros Hne. induction l as [|x l IH]; simpl.
  - by rewrite (proj2 (str_eqb_false _ _)).
  - destruct (str_eqb (ck_id (rt_check x)) (ck_id c)) eqn:He; simpl; [|by rewrite IH].
    apply str_eqb_true in He. destruct (_ <=? _)%Z; [|done]. simpl. rewrite He.
    by rewrite (proj2 (str_eqb_false (ck_id c) id)).
Qed.

Lemma find_retained_same c at_ l :
  find_retained (ck_id c) (retain_in c at_ l) =
    match find_retained (ck_id c) l with
    | Some x => if (rt_observed_at x <=? at_)%Z then Some (mkRetained c at_) else Some x
    | None => Some (mkRetained c at_)
    end.
Proof.
  induction l as [|x l IH]; simpl; [by rewrite str_eqb_refl|].
  destruct (str_eqb (ck_id (rt_check x)) (ck_id c)) eqn:He; simpl; [|by rewrite He].
  destruct (_ <=? _)%Z; simpl; [by rewrite str_eqb_refl|]. by rewrite He.
Qed.

(** The status and the words an outcome is reported with. *)
Definition status_of (o : ProbeOutcome) : string :=
  match o with
  | PoPass _ => PASS
  | PoFail _ _ => FAIL
  | PoUnsupported _ => UNSUPPORTED
  | PoNotApplicable _ => SKIP
  | PoIndeterminate _ => UNKNOWN
  end.
Definition concludes (o : ProbeOutcome) : bool := match o with PoIndeterminate _ => false | _ => true end.

Lemma record_retains r t o at_ :
  (concludes o = true ∨ match retained r (check_id t) with Some c => definitive_status (ck_status c) = false | None => True end) →
  ∃ s rem, record r t o at_ = retain r (probe_check t (status_of o) s rem) at_.
Proof.
  intros H. destruct o; simpl in *; eauto. destruct H as [H|H]; [done|].
  destruct (retained r (check_id t)) as [c|]; [rewrite H|]; eauto.
Qed.

(** A probe's conclusion is what the report then says of that probe, unless a later
    observation is held; an end that concluded nothing never takes the place of a conclusion; and
    no other probe's check is touched either way. *)
Theorem conclusions_stand r t o at_ :
  (∀ x, find_retained (check_id t) (rr_retained r) = Some x → (rt_observed_at x <= at_)%Z) →
  (∀ id, id ≠ check_id t → retained (record r t o at_) id = retained r id) ∧
  match retained r (check_id t) with
  | Some c =>
      if negb (concludes o) && definitive_status (ck_status c)
      then retained (record r t o at_) (check_id t) = Some c
      else ck_status <$> retained (record r t o at_) (check_id t) = Some (status_of o)
  | None => ck_status <$> retained (record r t o at_) (check_id t) = Some (status_of o)
  end.
Proof.
  intros Hat.
  assert ((∃ s rem, record r t o at_ = retain r (probe_check t (status_of o) s rem) at_) →
    (∀ id, id ≠ check_id t → retained (record r t o at_) id = retained r id) ∧
    ck_status <$> retained (record r t o at_) (check_id t) = Some (status_of o)) as Hret.
  { intros (s & rem & ->). unfold retained, retain. cbn [rr_retained].
    set (c := stamped (Some (format_observed_at at_)) (probe_check t (status_of o) s rem)).
    assert (ck_id c = check_id t) as Hid by done. split.
    - intros id Hne. rewrite find_retained_other; [done|by rewrite Hid].
    - rewrite <- Hid, find_retained_same, Hid. destruct (find_retained (check_id t) (rr_retained r)) as [x|]; [|done].
      by rewrite (proj2 (Z.leb_le _ _) (Hat x eq_refl)). }
  destruct (retained r (check_id t)) as [c|] eqn:Hc.
  - destruct (negb (concludes o) && definitive_status (ck_status c)) eqn:Hk.
    + apply andb_true_iff in Hk as [Ho Hd]. destruct o; try discriminate. simpl. rewrite Hc, Hd. done.
    + apply Hret, record_retains. rewrite Hc. apply andb_false_iff in Hk as [Hk|Hk]; [left; by apply negb_false_iff|by right].
  - apply Hret, record_retains. rewrite Hc. by right.
Qed.

(** ** What the report shows *)

(** A report's life. *)
Inductive ReportOp :=
| OpRefreshed (checks : list ReadinessCheck) (at_ : Z)
| OpRefreshFailed
| OpRetain (c : ReadinessCheck) (at_ : Z)
| OpForget (id : string).
Definition report_op (r : ReadinessReport) (op : ReportOp) : ReadinessReport :=
  match op with
  | OpRefreshed checks at_ => refreshed r checks at_
  | OpRefreshFailed => refresh_failed r
  | OpRetain c at_ => retain r c at_
  | OpForget id => forget_check r id
  end.
Definition report_of (ops : list ReportOp) : ReadinessReport := foldl report_op report_new ops.

Lemma retain_in_ids c at_ l :
  map (λ x, ck_id (rt_check x)) (retain_in c at_ l) =
    if decide (ck_id c ∈ map (λ x, ck_id (rt_check x)) l) then map (λ x, ck_id (rt_check x)) l
    else map (λ x, ck_id (rt_check x)) l ++ [ck_id c].
Proof.
  induction l as [|x l IH]; simpl; [done|]. destruct (str_eqb _ _) eqn:He.
  - apply str_eqb_true in He. rewrite decide_True by (rewrite He; by left). simpl.
    destruct (_ <=? _)%Z; simpl; by rewrite ?He.
  - apply str_eqb_false in He. cbn [map]. rewrite IH. case_decide as H1.
    + rewrite decide_True by (by right). done.
    + rewrite decide_False; [done|]. rewrite elem_of_cons. intros [H|H]; congruence.
Qed.

Lemma held_once ops : NoDup (held_ids (report_of ops)).
Proof.
  unfold report_of. assert (NoDup (held_ids report_new)) as H0 by constructor. revert H0. generalize report_new.
  induction ops as [|op ops IH]; intros r Hr; [done|]. cbn [foldl]. apply IH. destruct op; simpl; try done.
  - unfold held_ids. cbn [retain rr_retained]. rewrite retain_in_ids. case_decide; [done|].
    apply NoDup_app. split_and!; [done| |apply NoDup_singleton]. intros id Hid ->%list_elem_of_singleton. done.
  - unfold held_ids, forget_check in *. cbn [rr_retained]. revert Hr. generalize (rr_retained r). intros l.
    induction l as [|x l IHl]; [done|]. cbn [map]. intros [Hni Hnd]%NoDup_cons. rewrite filter_cons. case_decide; [|by apply IHl].
    cbn [map]. apply NoDup_cons. split; [|by apply IHl].
    intros (y & Hy & [_ Hin]%list_elem_of_filter)%list_elem_of_fmap. apply Hni, list_elem_of_fmap. by exists y.
Qed.

Lemma find_retained_unique l x :
  NoDup (map (λ x, ck_id (rt_check x)) l) → x ∈ l → find_retained (ck_id (rt_check x)) l = Some x.
Proof.
  induction l as [|y l IH]; [by intros _ ?%not_elem_of_nil|]. cbn [map find_retained]. intros [Hni Hnd]%NoDup_cons.
  intros [->|Hx]%elem_of_cons; [by rewrite str_eqb_refl|]. destruct (str_eqb _ _) eqn:He; [|by apply IH].
  apply str_eqb_true in He. destruct Hni. rewrite He. apply list_elem_of_fmap. by exists x.
Qed.

Lemma find_retained_held l id x : find_retained id l = Some x → x ∈ l ∧ ck_id (rt_check x) = id.
Proof. intros H. pose proof (find_retained_spec id l) as Hs. by rewrite H in Hs. Qed.

(** (C30) The merged report hides no failure and adds none: there is a failed check of an id in it
    exactly when the last refresh's checks hold a failure of it (the mounts' check keeps its earlier
    verdict while a refresh cannot tell) or a failure of it is held; a held pass, skip or refresh
    never covers a failure of the other side. *)
Theorem merged_hides_no_failure ops id :
  let r := report_of ops in id ≠ REFRESH_WARNING_ID →
  (∃ c, c ∈ merged r ∧ ck_id c = id ∧ ck_status c = FAIL) ↔
  (∃ c, c ∈ rr_checks r ∧ ck_id c = id ∧ ck_status c = FAIL) ∨
  (∃ c, retained r id = Some c ∧ ck_status c = FAIL).
Proof.
  intros r Hid. pose proof (held_once ops) as Hnd. fold r in Hnd. clearbody r. unfold merged.
  assert (∀ local, ck_id (merge_local r local) = ck_id local) as Hlid.
  { intros local. unfold merge_local. destruct (retained r (ck_id local)) as [h|] eqn:Hh; [|done].
    destruct (negb _); [|done]. unfold retained in Hh. apply fmap_Some in Hh as (x & Hx & ->). by apply find_retained_held in Hx as []. }
  assert (∀ local, ck_status (merge_local r local) = FAIL ↔
    ck_status local = FAIL ∨ ∃ c, retained r (ck_id local) = Some c ∧ ck_status c = FAIL) as Hlst.
  { intros local. unfold merge_local. destruct (retained r (ck_id local)) as [h|] eqn:Hh; simpl.
    - destruct (str_eqb (ck_status local) FAIL) eqn:E1, (str_eqb (ck_status h) FAIL) eqn:E2; simpl;
        rewrite ?str_eqb_true, ?str_eqb_false in *; naive_solver.
    - naive_solver. }
  split.
  - intros (c & Hc & Hci & Hcs). rewrite !elem_of_app in Hc. destruct Hc as [Hc|[Hc|Hc]].
    + apply list_elem_of_fmap in Hc as (local & -> & Hl). rewrite Hlid in Hci. apply Hlst in Hcs as [Hcs|Hcs].
      * left. by exists local.
      * right. by rewrite <- Hci.
    + apply list_elem_of_fmap in Hc as (x & -> & [_ Hx]%list_elem_of_filter). right. exists (rt_check x). split; [|done].
      unfold retained. rewrite <- Hci. by rewrite find_retained_unique.
    + destruct (rr_refresh_failed r); [|by apply not_elem_of_nil in Hc]. apply list_elem_of_singleton in Hc as ->. done.
  - intros [(c & Hc & Hci & Hcs)|(c & Hc & Hcs)].
    + exists (merge_local r c). rewrite Hlid, !elem_of_app. split_and!; [|done|by apply Hlst; left].
      left. apply list_elem_of_fmap. by exists c.
    + unfold retained in Hc. apply fmap_Some in Hc as (x & Hx & ->). pose proof (find_retained_held _ _ _ Hx) as [Hin Hxi].
      destruct (decide (Forall (λ c, ck_id c ≠ ck_id (rt_check x)) (rr_checks r))) as [Hf|Hf].
      * exists (rt_check x). rewrite !elem_of_app. split_and!; [|done|done]. right; left. apply list_elem_of_fmap.
        exists x. split; [done|]. by apply list_elem_of_filter.
      * apply not_Forall_Exists, Exists_exists in Hf as (local & Hl & Hli); [|apply _]. apply dec_stable in Hli.
        exists (merge_local r local). rewrite Hlid, !elem_of_app. split_and!; [|congruence|].
        -- left. apply list_elem_of_fmap. by exists local.
        -- apply Hlst. right. exists (rt_check x). split; [|done]. unfold retained. by rewrite Hli, Hxi, Hx.
Qed.
