(* ===== verification/Calendar.v ===== *)
(** * The dates of the readiness report

    [civil_from_days] of [src/readiness/report.rs] against the Gregorian calendar, given by its
    leap years and the lengths of its months. *)
From S2P Require Import Prelude Readiness.
Local Open Scope Z_scope.

(** ** The calendar *)

Definition leap (y : Z) : bool := (y mod 4 =? 0) && (negb (y mod 100 =? 0) || (y mod 400 =? 0)).

Definition month_days (l : bool) (m : Z) : Z :=
  if m =? 2 then (if l then 29 else 28)
  else if (m =? 4) || (m =? 6) || (m =? 9) || (m =? 11) then 30 else 31.

(** The day after. *)
Definition next_day (t : Z * Z * Z) : Z * Z * Z :=
  let '(y, m, d) := t in
  if d <? month_days (leap y) m then (y, m, d + 1)
  else if m <? 12 then (y, m + 1, 1) else (y + 1, 1, 1).

(** ** The computation, by its parts *)

(** The year of an era of 400 years from March on, its first day, and the month and day of a day
    of such a year. *)
Definition yoe_of (doe : Z) : Z := Z.quot (doe - Z.quot doe 1460 + Z.quot doe 36524 - Z.quot doe 146096) 365.
Definition year_start (y : Z) : Z := 365 * y + Z.quot y 4 - Z.quot y 100.
Definition month_day (doy : Z) : Z * Z :=
  let mp := Z.quot (5 * doy + 2) 153 in
  (if mp <? 10 then mp + 3 else mp - 9, doy - Z.quot (153 * mp + 2) 5 + 1).

(** A date from the March year [y] and the day of it. *)
Definition date_of (y doy : Z) : Z * Z * Z :=
  let '(m, d) := month_day doy in (if m <=? 2 then y + 1 else y, m, d).

Lemma civil_split z :
  let era := (z + 719468) / 146097 in let doe := (z + 719468) mod 146097 in
  civil_from_days z = date_of (yoe_of doe + era * 400) (doe - year_start (yoe_of doe)).
Proof.
  cbv zeta. set (w := z + 719468).
  assert (Z.quot (if 0 <=? w then w else w - 146096) 146097 = w / 146097) as He.
  { destruct (Z.leb_spec 0 w); Z.to_euclidean_division_equations; lia. }
  assert (w - w / 146097 * 146097 = w mod 146097) as Hd by (rewrite Z.mod_eq; lia).
  unfold civil_from_days. fold w. cbv zeta. rewrite He, Hd. unfold date_of, month_day, year_start.
  fold (yoe_of (w mod 146097)). done.
Qed.

Lemma yoe_low doe : 0 <= doe < 146097 → 0 <= yoe_of doe < 400 ∧ year_start (yoe_of doe) <= doe.
Proof. intros H. unfold yoe_of, year_start. Z.to_euclidean_division_equations. lia. Qed.

Lemma yoe_high doe : 0 <= doe < 146096 → doe < year_start (yoe_of doe + 1).
Proof. intros H. unfold yoe_of, year_start. Z.to_euclidean_division_equations. lia. Qed.

Lemma year_start_mono y y' : 0 <= y <= y' → year_start y <= year_start y'.
Proof. unfold year_start. intros H. Z.to_euclidean_division_equations. lia. Qed.

(** A day lies in one year. *)
Lemma yoe_unique doe y :
  0 <= doe < 146096 → 0 <= y < 400 → year_start y <= doe < year_start (y + 1) → yoe_of doe = y.
Proof.
  intros Hd Hy [Hl Hh]. pose proof (yoe_low doe ltac:(lia)) as [Hr Hlow]. pose proof (yoe_high doe Hd) as Hhigh.
  destruct (Z.lt_trichotomy (yoe_of doe) y) as [H|[H|H]]; [|done|].
  - pose proof (year_start_mono (yoe_of doe + 1) y ltac:(lia)). lia.
  - pose proof (year_start_mono (y + 1) (yoe_of doe) ltac:(lia)). lia.
Qed.

(** A March year has a 29 February at its end where the calendar year after it is a leap year. *)
Lemma year_length y era :
  0 <= y < 399 → year_start (y + 1) = year_start y + (if leap (y + 1 + era * 400) then 366 else 365).
Proof.
  intros Hy. unfold leap, year_start.
  destruct (Z.eqb_spec ((y + 1 + era * 400) mod 4) 0), (Z.eqb_spec ((y + 1 + era * 400) mod 100) 0),
    (Z.eqb_spec ((y + 1 + era * 400) mod 400) 0); cbn [andb orb negb]; Z.to_euclidean_division_equations; lia.
Qed.

Lemma year_growth y : 0 <= y → year_start y + 365 <= year_start (y + 1).
Proof. intros Hy. unfold year_start. Z.to_euclidean_division_equations. lia. Qed.

(** ** From a day to the next *)

(** Within a March year, whatever the leap year: every day but the last of February. *)
Definition month_step (l : bool) (doy : Z) : bool :=
  let '(m, d) := month_day doy in let '(m', d') := month_day (doy + 1) in
  if d <? month_days l m then (m' =? m) && (d' =? d + 1)
  else if m <? 12 then negb (m =? 2) && (m' =? m + 1) && (d' =? 1) else (m =? 12) && (m' =? 1) && (d' =? 1).

Lemma month_steps : forallb (λ doy, month_step true doy && month_step false doy) (map Z.of_nat (seq 0 364)) = true.
Proof. vm_compute. reflexivity. Qed.

Lemma month_step_ok l doy : 0 <= doy < 364 → month_step l doy = true.
Proof.
  intros H. pose proof month_steps as Hs. rewrite forallb_forall in Hs.
  specialize (Hs doy). rewrite andb_true_iff in Hs. destruct l; apply Hs, in_map_iff;
    (exists (Z.to_nat doy); split; [lia|apply in_seq; lia]).
Qed.

(** Inside a March year. *)
Lemma next_inside y doy :
  0 <= doy < 364 ∨ (doy = 364 ∧ leap (y + 1) = true) → next_day (date_of y doy) = date_of y (doy + 1).
Proof.
  intros [H|[-> H]].
  - pose proof (λ l, month_step_ok l doy H) as Hs. unfold month_step in Hs. unfold next_day, date_of.
    destruct (month_day doy) as [m d], (month_day (doy + 1)) as [m' d'].
    specialize (Hs (leap (if m <=? 2 then y + 1 else y))).
    destruct (d <? _); [|destruct (m <? 12) eqn:Hm]; rewrite ?andb_true_iff, ?negb_true_iff, ?Z.eqb_eq in Hs.
    + by destruct Hs as [-> ->].
    + destruct Hs as [[Hm2 ->] ->]. apply Z.eqb_neq in Hm2. do 2 f_equal.
      destruct (Z.leb_spec m 2), (Z.leb_spec (m + 1) 2); lia.
    + by destruct Hs as [[-> ->] ->].
  - unfold date_of. cbn. unfold month_days. simpl. by rewrite H.
Qed.

(** From the last day of February. *)
Lemma next_year y doy :
  doy = (if leap (y + 1) then 365 else 364) → next_day (date_of y doy) = date_of (y + 1) 0.
Proof.
  intros ->. destruct (leap (y + 1)) eqn:Hl; unfold date_of; cbn; unfold month_days; simpl; by rewrite Hl.
Qed.

Lemma next_in_era era doe :
  0 <= doe < 146097 →
  next_day (date_of (yoe_of doe + era * 400) (doe - year_start (yoe_of doe))) =
    if doe + 1 <? 146097 then date_of (yoe_of (doe + 1) + era * 400) (doe + 1 - year_start (yoe_of (doe + 1)))
    else date_of ((era + 1) * 400) 0.
Proof.
  intros Hd. destruct (yoe_low doe Hd) as [Hy Hl]. set (y := yoe_of doe) in *.
  destruct (decide (y = 399)) as [H399|H399].
  - assert (year_start y = 145731) as Hst by (by rewrite H399). rewrite Hst in *.
    assert (leap (399 + era * 400 + 1) = true) as Hleap.
    { unfold leap. replace (399 + era * 400 + 1) with ((era + 1) * 400) by lia.
      rewrite (Z.mod_mul _ 400) by done. replace ((era + 1) * 400) with ((era + 1) * 100 * 4) by lia. by rewrite Z.mod_mul, orb_true_r. }
    destruct (Z.ltb_spec (doe + 1) 146097) as [H|H].
    + assert (yoe_of (doe + 1) = 399) as ->.
      { assert (yoe_of (doe + 1) = 399 ∨ yoe_of (doe + 1) < 399) as [?|Hlt] by (pose proof (yoe_low (doe + 1)); lia); [done|].
        unfold yoe_of in Hlt. revert Hlt. clear -H Hl. Z.to_euclidean_division_equations. lia. }
      change (year_start 399) with 145731. rewrite H399.
      rewrite next_inside; [by replace (doe - 145731 + 1) with (doe + 1 - 145731) by lia|].
      destruct (decide (doe - 145731 = 364)) as [->|]; [by right|left; lia].
    + replace doe with 146096 by lia. rewrite H399. rewrite next_year; [f_equal; lia|]. by rewrite Hleap.
  - pose proof (year_length y era ltac:(lia)) as Hlen.
    assert (doe < 146096) as Hlt.
    { destruct (decide (doe = 146096)) as [->|]; [|lia]. by destruct H399. }
    pose proof (yoe_high doe ltac:(lia)) as Hh. fold y in Hh.
    assert (leap (y + 1 + era * 400) = leap (y + era * 400 + 1)) as Hcomm by (f_equal; lia). rewrite Hcomm in Hlen.
    rewrite (proj2 (Z.ltb_lt _ _)) by lia.
    destruct (decide (doe + 1 < year_start (y + 1))) as [Hin|Hout].
    + assert (yoe_of (doe + 1) = y) as ->.
      { destruct (decide (doe + 1 = 146096)) as [He|]; [|apply yoe_unique; lia].
        pose proof (year_start_mono (y + 1) 399 ltac:(lia)) as Hm. change (year_start 399) with 145731 in Hm. lia. }
      rewrite next_inside; [f_equal; lia|]. destruct (leap _); [|left; lia].
      destruct (decide (doe - year_start y = 364)) as [->|]; [by right|left; lia].
    + assert (yoe_of (doe + 1) = y + 1) as ->.
      { assert (year_start (y + 1 + 1) > doe + 1).
        { destruct (decide (y + 1 = 399)) as [He|He].
          - rewrite He in *. change (year_start (399 + 1)) with 146096. change (year_start 399) with 145731 in *. lia.
          - pose proof (year_growth (y + 1) ltac:(lia)). lia. }
        apply yoe_unique; [|lia|lia].
        pose proof (year_start_mono (y + 1) 399 ltac:(lia)) as Hm. change (year_start 399) with 145731 in Hm. lia. }
      rewrite next_year; [|destruct (leap _); lia]. f_equal; lia.
Qed.

(** (C38) The date a check carries is that of the Gregorian calendar: day 0 is 1 January 1970, and
    from every day to the next, before the epoch as well, the date moves to the calendar's next
    day, leap years by the rule of 4, 100 and 400. *)
Theorem civil_from_days_gregorian :
  civil_from_days 0 = (1970, 1, 1) ∧ ∀ z, civil_from_days (z + 1) = next_day (civil_from_days z).
Proof.
  split; [done|]. intros z. rewrite !civil_split. cbv zeta.
  set (w := z + 719468). replace (z + 1 + 719468) with (w + 1) by lia.
  pose proof (Z.mod_pos_bound w 146097 ltac:(lia)) as Hw. rewrite (next_in_era (w / 146097)) by done.
  assert (w = 146097 * (w / 146097) + w mod 146097) as Hdm by (by apply Z.div_mod).
  destruct (Z.ltb_spec (w mod 146097 + 1) 146097) as [H|H].
  - assert ((w + 1) mod 146097 = w mod 146097 + 1 ∧ (w + 1) / 146097 = w / 146097) as [-> ->]; [|done].
    split; Z.to_euclidean_division_equations; lia.
  - assert ((w + 1) mod 146097 = 0 ∧ (w + 1) / 146097 = w / 146097 + 1) as [-> ->]; [|done].
    split; Z.to_euclidean_division_equations; lia.
Qed.
