(* ===== verification/ProbeExamples.v ===== *)
(** * Host probes, on a concrete host

    A host with one card that encodes both codecs: the theorems on its probes, at runs of its
    orchestrator. *)
From S2P Require Import Prelude Readiness Probe ProbeRun ProbeProofs ProbeInv ProbeSafety ProbeGuarantees ProbeLiveness ProbeDrain ProbeReports.
From stdpp Require Import gmap.

(** ** Runs *)

#[global] Instance receivable_dec o msg : Decision (receivable o msg).
Proof. destruct msg; simpl; apply _. Defined.

Fixpoint run_from (o : Orch) (msgs : list Msg) : option Orch :=
  match msgs with
  | [] => Some o
  | m :: msgs => if decide (receivable o m) then run_from (handle 0 m o) msgs else None
  end.

Lemma run_from_reachable kinds o msgs o' : reachable kinds o → run_from o msgs = Some o' → reachable kinds o'.
Proof.
  revert o. induction msgs as [|m msgs IH]; intros o Ho; simpl; [by intros [= <-]|].
  case_decide as Hm; [|done]. intros H. eapply IH; [|exact H]. unfold reachable in *. eapply rtc_r; [exact Ho|].
  by constructor.
Qed.

(** Where [msgs] lead a new orchestrator; its start where one of them cannot be received. *)
Definition after (kinds : list ProbeKind) (msgs : list Msg) : Orch := default (spawn kinds) (run_from (spawn kinds) msgs).

Lemma after_reachable kinds msgs : reachable kinds (after kinds msgs).
Proof.
  unfold after. destruct (run_from (spawn kinds) msgs) as [o|] eqn:H; [|by constructor].
  eapply run_from_reachable; [|exact H]. by constructor.
Qed.

(** ** The host *)

Definition stack (image : string) : ProbeInputs := mkInputs image "555.42" {[0%Z := "card-a"]} "s1" {[0%Z := {[H265; Av1]}]}.
Definition host : ProbeInputs := stack "v1".

Definition pass (t : ProbeTarget) : Msg := RunEnded t (Ok (Concluded (PoPass "ok") true)).

(** Everything up to the first codec's probe, which is then running. *)
Definition to_codec : list Msg :=
  [External (Registered host); pass (host_target PkInput); pass (host_target PkAudio);
   pass (gpu_target PkMedia 0); pass (gpu_target PkApplicationGpu 0)].

Example codec_runs : o_runs (after KIND_ALL to_codec) = [codec_target 0 H265].
Proof. vm_compute. reflexivity. Qed.

Lemma one_task_at_a_time_witness :
  let o := after KIND_ALL to_codec in
  o_runs o = [codec_target 0 H265] ∧ length (o_runs o) + length (o_reconciles o) <= 1.
Proof.
  pose proof (one_task_at_a_time KIND_ALL _ (after_reachable KIND_ALL to_codec)) as (_ & _ & H & _).
  split; [vm_compute; reflexivity|exact H].
Defined.

Lemma starts_are_allowed_witness :
  let o := after KIND_ALL (firstn 4 to_codec) in
  let o' := handle 0 (pass (gpu_target PkApplicationGpu 0)) o in
  codec_target 0 H265 ∈ o_runs o' ∧ floor_passed (o_sent o') 0 = true ∧ startable (o_sched o') (codec_target 0 H265).
Proof.
  set (o := after KIND_ALL (firstn 4 to_codec)). set (m := pass (gpu_target PkApplicationGpu 0)).
  assert (receivable o m) as Hm by (apply (bool_decide_unpack _); vm_compute; exact I).
  assert (codec_target 0 H265 ∈ o_runs (handle 0 m o)) as Hr by (apply (bool_decide_unpack _); vm_compute; exact I).
  destruct (starts_are_allowed KIND_ALL o 0 m (codec_target 0 H265) (after_reachable _ _) Hm Hr) as [[H _]|(H1 & _ & _ & H2)].
  - exfalso. revert H. apply (bool_decide_unpack _). vm_compute. exact I.
  - cbv zeta. split; [exact Hr|]. split; [|exact H1]. apply (H2 0%Z); [reflexivity|by eexists].
Defined.

(** A launch arrives while the codec's probe runs; a new registration does not start anything. *)
Lemma launch_comes_first_witness :
  let o := after KIND_ALL to_codec in
  let o' := handle 0 (External EncodeGateFreed) (handle 0 (External (LaunchArrived 0)) o) in
  codec_target 0 H265 ∈ o_runs o' ∧ o_preempt o' = Some true.
Proof.
  set (o := after KIND_ALL to_codec).
  set (o' := handle 0 (External EncodeGateFreed) (handle 0 (External (LaunchArrived 0)) o)).
  assert (codec_target 0 H265 ∈ o_runs o') as Hr by (apply (bool_decide_unpack _); vm_compute; exact I).
  cbv zeta. split; [exact Hr|].
  apply (launch_comes_first KIND_ALL o 0 0 o' (after_reachable _ _)) in Hr as [_ H]; [exact H|].
  apply rtc_once. exists 0%Z, (External EncodeGateFreed). split; [reflexivity|]. split; [discriminate|reflexivity].
Defined.

Lemma evidence_is_current_witness :
  let o := after KIND_ALL (to_codec ++ [pass (codec_target 0 H265)]) in
  evidence_of (o_sent o) !! codec_target 0 H265 = Some (mkStamp "v1" "555.42" "s1" "card-a") ∧
  ∃ i, s_inputs (o_sched o) = Some i ∧ pi_agent_image i = "v1".
Proof.
  set (o := after KIND_ALL (to_codec ++ [pass (codec_target 0 H265)])).
  assert (evidence_of (o_sent o) !! codec_target 0 H265 = Some (mkStamp "v1" "555.42" "s1" "card-a")) as H
    by (vm_compute; reflexivity).
  cbv zeta. split; [exact H|].
  destruct (evidence_is_current KIND_ALL o _ _ (after_reachable _ _) H) as (g & c & i & _ & Hi & _ & _ & Him & _).
  exists i. split; [exact Hi|exact (eq_sym Him)].
Defined.

(** A new agent image takes the evidence out, and the codec is to be probed again. *)
Example evidence_forgotten :
  let o := after KIND_ALL (to_codec ++ [pass (codec_target 0 H265); External (InputsObserved (stack "v2"))]) in
  evidence_of (o_sent o) !! codec_target 0 H265 = None ∧ codec_target 0 H265 ∈ s_pending (o_sched o).
Proof. split; [vm_compute; reflexivity|]. apply (bool_decide_unpack _). vm_compute. exact I. Qed.

(** The codec's probe is pre-empted by a launch and queued again when its run has ended. *)
Lemma no_probe_is_lost_witness :
  let o := after KIND_ALL (to_codec ++ [External (LaunchArrived 0)]) in
  let o' := handle 0 (RunEnded (codec_target 0 H265) (Ok (Concluded (PoIndeterminate "pre-empted") true))) o in
  outstanding (o_sched o') (codec_target 0 H265).
Proof.
  set (o := after KIND_ALL (to_codec ++ [External (LaunchArrived 0)])).
  set (m := RunEnded (codec_target 0 H265) (Ok (Concluded (PoIndeterminate "pre-empted") true))).
  assert (receivable o m) as Hm by (apply (bool_decide_unpack _); vm_compute; exact I).
  assert (s_running (o_sched o) = Some (mkRunning (codec_target 0 H265) true false false)) as Hr by (vm_compute; reflexivity).
  assert (outstanding (o_sched o) (codec_target 0 H265)) as Ho by (right; right; eexists; split; [exact Hr|reflexivity]).
  destruct (no_probe_is_lost KIND_ALL o 0 m (codec_target 0 H265) (after_reachable _ _) Hm Ho) as [H|[[_ H]|[_ (g & Hg & H)]]].
  - apply due_iff. split; vm_compute; reflexivity.
  - exact H.
  - exfalso. revert H. vm_compute. discriminate.
  - exfalso. injection Hg as <-. revert H. vm_compute. discriminate.
Defined.

(** A session is live on the card: its probes wait for it. *)
Lemma nothing_waits_in_vain_witness :
  let o := after KIND_ALL (External (SessionsChanged {[0%Z]} false) :: firstn 2 to_codec) in
  let o' := handle 0 (pass (host_target PkAudio)) o in
  gpu_target PkMedia 0 ∈ s_pending (o_sched o') ∧
  ((∃ g, t_gpu (gpu_target PkMedia 0) = Some g ∧
      (g ∈ s_live_gpus (o_sched o') ∨ (is_Some (t_codec (gpu_target PkMedia 0)) ∧ floor_due (o_sched o') (gpu_target PkMedia 0)))) ∨
   (t_kind (gpu_target PkMedia 0) ∈ s_unreconciled (o_sched o') ∧ pass (host_target PkAudio) = ReconcileEnded PkMedia false)).
Proof.
  set (o := after KIND_ALL (External (SessionsChanged {[0%Z]} false) :: firstn 2 to_codec)).
  assert (receivable o (pass (host_target PkAudio))) as Hm by (apply (bool_decide_unpack _); vm_compute; exact I).
  assert (gpu_target PkMedia 0 ∈ s_pending (o_sched (handle 0 (pass (host_target PkAudio)) o))) as Hp
    by (apply (bool_decide_unpack _); vm_compute; exact I).
  cbv zeta. split; [exact Hp|].
  apply (nothing_waits_in_vain KIND_ALL o 0 (pass (host_target PkAudio)) (gpu_target PkMedia 0) (after_reachable _ _) Hm);
    [vm_compute; reflexivity..|exact Hp].
Defined.

(** From the codec's probe two more messages of the orchestrator's own end the work. *)
Lemma work_drains_witness :
  let o := after KIND_ALL to_codec in
  2 <= 6 * size (s_pending (o_sched o)) + 12 + size (s_unreconciled (o_sched o)) ∧
  o_runs (handle 0 (pass (codec_target 0 Av1)) (handle 0 (pass (codec_target 0 H265)) o)) = [].
Proof.
  set (o := after KIND_ALL to_codec).
  set (o1 := handle 0 (pass (codec_target 0 H265)) o). set (o2 := handle 0 (pass (codec_target 0 Av1)) o1).
  assert (internal_step o o1) as H1.
  { exists 0%Z, (pass (codec_target 0 H265)). split; [apply (bool_decide_unpack _); vm_compute; exact I|]. split; reflexivity. }
  assert (internal_step o1 o2) as H2.
  { exists 0%Z, (pass (codec_target 0 Av1)). split; [apply (bool_decide_unpack _); vm_compute; exact I|]. split; reflexivity. }
  cbv zeta. split; [|vm_compute; reflexivity].
  apply (work_drains KIND_ALL o o2 2 (after_reachable _ _)). exact (nsteps_l _ 1 o o1 o2 H1 (nsteps_once o1 o2 H2)).
Defined.

(** ** Two containers that cannot be removed *)

Definition containers : list ProbeKind := [PkAudio; PkApplicationGpu].
Definition unknown_stop : result RunEnd string := Ok (Concluded (PoIndeterminate "pre-empted") false).

(** Each container probe is pre-empted by a launch, and its container's stop is not known. *)
Definition to_spin : list Msg :=
  [External (Registered host); External (LaunchArrived 1); RunEnded (host_target PkAudio) unknown_stop;
   External (SessionsChanged ∅ false); ReconcileEnded PkAudio false; External (LaunchArrived 1);
   RunEnded (gpu_target PkApplicationGpu 0) unknown_stop; External (SessionsChanged ∅ false)].

Lemma failing_reconciles_spin_witness :
  let o := after containers to_spin in
  o_reconciles o = [PkAudio] ∧ ∀ n, ∃ o', nsteps reconcile_fails n o o' ∧ o_reconciles o' ≠ [].
Proof.
  set (o := after containers to_spin). cbv zeta. split; [vm_compute; reflexivity|]. intros n.
  apply (failing_reconciles_spin containers o n (after_reachable _ _)).
  repeat split; try (vm_compute; reflexivity).
  - exists PkAudio. vm_compute. reflexivity.
  - assert (set_Forall (λ t, t_kind t ∈ s_unreconciled (o_sched o)) (s_pending (o_sched o))) as H
      by (apply (bool_decide_unpack _); vm_compute; exact I).
    exact H.
  - exists (host_target PkAudio), (gpu_target PkApplicationGpu 0).
    split; [apply (bool_decide_unpack _); vm_compute; exact I|].
    split; [apply (bool_decide_unpack _); vm_compute; exact I|].
    split; [discriminate|]. split; [reflexivity|]. split; [reflexivity|].
    intros g [[=]|[= <-]]. apply (bool_decide_unpack _). vm_compute. exact I.
Defined.

(** ** Reports *)

Lemma check_id_injective_witness :
  gpu_target PkMedia 1 = gpu_target PkMedia 1 ∧ check_id (gpu_target PkMedia 1) = "media_probe_gpu1".
Proof.
  split; [|vm_compute; reflexivity].
  apply (check_id_injective (gpu_target PkMedia 1) (gpu_target PkMedia 1)); vm_compute; reflexivity.
Defined.

Lemma conclusions_stand_witness :
  let t := gpu_target PkMedia 0 in
  let r := record report_new t (PoFail "broken" "fix") 5 in
  ck_status <$> retained (record r t (PoIndeterminate "timed out") 7) (check_id t) = Some FAIL.
Proof.
  cbv zeta. set (t := gpu_target PkMedia 0). set (r := record report_new t (PoFail "broken" "fix") 5).
  destruct (conclusions_stand r t (PoIndeterminate "timed out") 7) as [_ H].
  - intros x Hx. vm_compute in Hx. injection Hx as <-. vm_compute. discriminate.
  - destruct (retained r (check_id t)) as [c|] eqn:E; [|vm_compute in E; discriminate].
    assert (ck_status c = FAIL) as Hc by (vm_compute in E; injection E as <-; reflexivity).
    rewrite Hc in H. change (retained (record r t (PoIndeterminate "timed out") 7) (check_id t) = Some c) in H.
    rewrite H. simpl. by rewrite Hc.
Defined.

Definition local_check (st : string) : ReadinessCheck := mkCheck "media_probe_gpu0" st "" "" None None None.

Lemma merged_hides_no_failure_witness :
  let r := report_of [OpRefreshed [local_check FAIL] 3; OpRetain (local_check PASS) 4] in
  ∃ c, c ∈ merged r ∧ ck_id c = "media_probe_gpu0" ∧ ck_status c = FAIL.
Proof.
  apply (merged_hides_no_failure [OpRefreshed [local_check FAIL] 3; OpRetain (local_check PASS) 4] "media_probe_gpu0").
  - discriminate.
  - left. exists (local_check FAIL). split; [vm_compute; left|split; reflexivity].
Defined.
