(* ===== verification/MountPolicy.v ===== *)
(** * Which host paths a session may bind

    [src/node-agent/src/session/mount_policy.rs]: the vetting of the bind mounts an assign
    carries. A path is its components ([Path::components]); what the agent's own file system
    answers, [canonicalize] and [symlink_metadata], is a parameter. *)
From S2P Require Import Prelude.

(** ** Paths *)

Inductive Component := RootDir | CurDir | ParentDir | Normal (part : string).

#[global] Instance Component_eq_dec : EqDecision Component.
Proof. solve_decision. Defined.

Abbreviation Path := (list Component).

Definition component_of (part : string) : option Component :=
  if str_eqb part EmptyString || str_eqb part "." then None
  else if str_eqb part ".." then Some ParentDir
  else Some (Normal part).

(** [Path::components]: separators collapse, and a [.] counts only at the front of a relative path. *)
Definition components (s : string) : Path :=
  match split_on "/" s with
  | first :: parts =>
      (if str_eqb first EmptyString then (if str_eqb s EmptyString then [] else [RootDir])
       else if str_eqb first "." then [CurDir]
       else match component_of first with Some c => [c] | None => [] end) ++ omap component_of parts
  | [] => []
  end.

Definition is_absolute (s : string) : bool := starts_with "/" s.

(** [Path::starts_with] *)
Fixpoint path_prefix (root path : Path) : bool :=
  match root, path with
  | [], _ => true
  | r :: root, c :: path => bool_decide (r = c) && path_prefix root path
  | _ :: _, [] => false
  end.
Definition is_under (root path : Path) : bool := bool_decide (path = root) || path_prefix root path.

Definition is_normal (c : Component) : bool := match c with Normal _ => true | _ => false end.

Definition lexical_normalize (p : Path) : Path := RootDir :: filter (λ c, is_normal c = true) p.

Definition part_of (c : Component) : string :=
  match c with Normal part => part | RootDir => EmptyString | CurDir => "." | ParentDir => ".." end.

(** [Path::display] of an absolute path. *)
Definition display (p : Path) : string :=
  match p with
  | RootDir :: rest => "/" +:+ join "/" (map part_of rest)
  | _ => join "/" (map part_of p)
  end.

(** ** The lists *)

Definition DENIED_ROOTS : list string :=
  ["/proc"; "/sys"; "/dev"; "/boot"; "/etc"; "/root"; "/run"; "/var/run"; "/var/lib/docker";
   "/var/lib/containerd"; "/var/lib/containers"; "/var/lib/kubelet"; "/var/lib/rancher"; "/lib/modules";
   "/usr/lib/modules"].

Definition RUNTIME_SOCKETS : list string :=
  ["/var/run/docker.sock"; "/run/docker.sock"; "/run/containerd/containerd.sock";
   "/var/run/containerd/containerd.sock"; "/run/crio/crio.sock"; "/run/podman/podman.sock";
   "/var/run/podman/podman.sock"; "/var/run/crio/crio.sock"].

Definition ALLOWED_OPTS : list string := ["ro"; "rw"; "z"; "Z"; "nocopy"; "cached"; "delegated"; "consistent"].

(** ** The policy *)

Record AllowedRoot := mkAllowed { ar_path : Path; ar_writable : bool; ar_managed_home : bool }.
Record MountPolicy := mkPolicy { mp_allowed : list AllowedRoot; mp_deployment_mount : option string }.

(** One entry of the allow list; [None] where it is ignored. *)
Definition allow_entry (entry : string) : option AllowedRoot :=
  let entry := trim entry in
  if str_eqb entry EmptyString then None
  else
    let '(raw, writable) := match strip_suffix ":rw" entry with
                            | Some p => (trim p, true)
                            | None => (trim (default entry (strip_suffix ":ro" entry)), false)
                            end in
    if str_eqb raw EmptyString || negb (is_absolute raw) then None
    else Some (mkAllowed (lexical_normalize (components raw)) writable false).

(** [MountPolicy::new] *)
Definition policy_new (home_root allow_spec : string) : MountPolicy :=
  let home := trim home_root in
  mkPolicy
    ((if negb (str_eqb home EmptyString) && is_absolute home
      then [mkAllowed (lexical_normalize (components home)) true true] else []) ++
     omap allow_entry (split_on "," allow_spec)) None.

(** [MountPolicy::new_with_deployment_mount] *)
Definition policy_with_deployment_mount (home_root deployment_mount allow_spec : string) : MountPolicy :=
  mkPolicy (mp_allowed (policy_new home_root allow_spec)) (Some deployment_mount).

(** Why a mount is refused, one constructor for each [bail!]. *)
Inductive MountError :=
| NotSrcDst
| SourceNotAbsolute
| DestinationNotAbsolute
| DestinationIsRoot
| ControlCharacters
| SourceClimbs
| SourceIsRoot
| UnderDenied (denied : string)
| ContainsSocket (sock : string)
| IsDevice
| NotAllowed
| OutsideRoot
| HomeEscaped
| OptionNotAllowed (opt : string)
| ReadOnlyHere.

(** The option list's loop. *)
Fixpoint gather_opts (toks acc : list string) : result (list string) MountError :=
  match toks with
  | [] => Ok acc
  | tok :: toks =>
      let tok := trim tok in
      if str_eqb tok EmptyString then gather_opts toks acc
      else if negb (bool_decide (tok ∈ ALLOWED_OPTS)) then Err (OptionNotAllowed tok)
      else gather_opts toks (if bool_decide (tok ∈ acc) then acc else acc ++ [tok])
  end.

Definition normalize_opts (raw : string) (writable : bool) : result string MountError :=
  match gather_opts (split_on "," raw) [] with
  | Err e => Err e
  | Ok opts =>
      if writable then Ok (join "," opts)
      else if bool_decide ("rw" ∈ opts) then Err ReadOnlyHere
      else Ok (join "," (if bool_decide ("ro" ∈ opts) then opts else "ro" :: opts))
  end.

(** [mount.splitn(3, ':')] *)
Definition mount_parts (mount : string) : option (string * string * string) :=
  match split_once ":" mount with
  | None => None
  | Some (src, rest) =>
      match split_once ":" rest with
      | None => Some (src, rest, EmptyString)
      | Some (dst, opts) => Some (src, dst, opts)
      end
  end.

Definition mount_out (lexical : Path) (dst opts : string) : string :=
  if str_eqb opts EmptyString then display lexical +:+ ":" +:+ dst
  else display lexical +:+ ":" +:+ dst +:+ ":" +:+ opts.

(** What the agent sees at a path. *)
Inductive Node := Socket | CharDevice | BlockDevice | OtherNode.

Section filesystem.
(** [Path::canonicalize] and [std::fs::symlink_metadata], [None] where they fail. *)
Variable canonicalize : Path → option Path.
Variable symlink_metadata : Path → option Node.

(** [resolve_existing_prefix]: [cur] is walked up to its longest prefix that resolves. The path
    is reversed, so that its last component comes first. *)
Fixpoint resolve_rev (whole : Path) (cur_rev suffix : Path) : Path :=
  match canonicalize (reverse cur_rev) with
  | Some real => real ++ suffix
  | None =>
      match cur_rev with
      | Normal name :: parent => resolve_rev whole parent (Normal name :: suffix)
      | _ => whole
      end
  end.
Definition resolve_existing_prefix (p : Path) : Path := resolve_rev p (reverse p) [].

Definition reject_if_sensitive (p : Path) : option MountError :=
  if bool_decide (p = [RootDir]) then Some SourceIsRoot
  else match find_first (λ denied, is_under (components denied) p) DENIED_ROOTS with
  | Some denied => Some (UnderDenied denied)
  | None =>
      match find_first (λ sock, is_under p (components sock)) RUNTIME_SOCKETS with
      | Some sock => Some (ContainsSocket sock)
      | None =>
          match symlink_metadata p with
          | Some (Socket | CharDevice | BlockDevice) => Some IsDevice
          | _ => None
          end
      end
  end.

(** The selected home root against the mount the deployment made. *)
Definition home_escaped (deployment_mount : string) (rule canonical_rule : Path) : bool :=
  negb (is_absolute deployment_mount)
  || negb (is_under (components deployment_mount) rule)
  || negb (is_under (resolve_existing_prefix (components deployment_mount)) canonical_rule).

(** [MountPolicy::check] *)
Definition check (policy : MountPolicy) (mount : string) : result string MountError :=
  match mount_parts mount with
  | None => Err NotSrcDst
  | Some (src, dst, opts_raw) =>
      if str_eqb src EmptyString || negb (is_absolute src) then Err SourceNotAbsolute
      else if str_eqb dst EmptyString || negb (is_absolute dst) then Err DestinationNotAbsolute
      else if str_eqb dst "/" then Err DestinationIsRoot
      else if contains_char "000" mount || contains_char "010" mount then Err ControlCharacters
      else if bool_decide (ParentDir ∈ components src) then Err SourceClimbs
      else
        let lexical := lexical_normalize (components src) in
        match reject_if_sensitive lexical with
        | Some e => Err e
        | None =>
            let canonical := resolve_existing_prefix lexical in
            match (if bool_decide (canonical = lexical) then None else reject_if_sensitive canonical) with
            | Some e => Err e
            | None =>
                match find_first (λ r, is_under (ar_path r) lexical) (mp_allowed policy) with
                | None => Err NotAllowed
                | Some rule =>
                    let canonical_rule := resolve_existing_prefix (ar_path rule) in
                    if negb (is_under canonical_rule canonical) then Err OutsideRoot
                    else if ar_managed_home rule
                         && match mp_deployment_mount policy with
                            | Some d => home_escaped d (ar_path rule) canonical_rule
                            | None => false
                            end
                    then Err HomeEscaped
                    else match normalize_opts opts_raw (ar_writable rule) with
                         | Err e => Err e
                         | Ok opts => Ok (mount_out lexical dst opts)
                         end
                end
            end
        end
  end.

(** [MountPolicy::check_all]: the first refusal is the set's. *)
Fixpoint check_all (policy : MountPolicy) (mounts : list string) : result (list string) MountError :=
  match mounts with
  | [] => Ok []
  | m :: mounts =>
      match check policy m with
      | Err e => Err e
      | Ok out => match check_all policy mounts with Err e => Err e | Ok outs => Ok (out :: outs) end
      end
  end.
End filesystem.

(** ** The tests of the source *)

Section examples.
Let canon : Path → option Path := Some.
Let meta : Path → option Node := λ _, None.
Let pol := policy_new "/var/lib/quasar/homes" "/opt/games,/srv/shared:rw".

Example managed_home : check canon meta pol "/var/lib/quasar/homes/alice/steam:/home/quasar"
  = Ok "/var/lib/quasar/homes/alice/steam:/home/quasar".
Proof. vm_compute. reflexivity. Qed.
Example read_only_default : check canon meta pol "/opt/games/lib:/games" = Ok "/opt/games/lib:/games:ro".
Proof. vm_compute. reflexivity. Qed.
Example rw_refused : check canon meta pol "/opt/games:/games:rw" = Err ReadOnlyHere.
Proof. vm_compute. reflexivity. Qed.
Example climbs : check canon meta pol "/var/lib/quasar/homes/a/../../../..:/host" = Err SourceClimbs.
Proof. vm_compute. reflexivity. Qed.
Example sibling : check canon meta (policy_new "" "/opt/games") "/opt/gamesecret:/x" = Err NotAllowed.
Proof. vm_compute. reflexivity. Qed.
Example denied_wins : check canon meta (policy_new "" "/:rw") "/etc/shadow:/x" = Err (UnderDenied "/etc").
Proof. vm_compute. reflexivity. Qed.
Example root_allowed : is_ok (check canon meta (policy_new "" "/:rw") "/opt/anything:/x") = true.
Proof. vm_compute. reflexivity. Qed.
End examples.
