(* ===== verification/MountProofs.v ===== *)
(** * What an accepted mount can reach

    What [check] guarantees of the mount it hands on, and that handing it on again changes
    nothing. *)
From S2P Require Import Prelude MountPolicy.

(** ** Paths as text *)

(** A name a path can have. *)
Definition part_ok (part : string) : Prop :=
  part ≠ EmptyString ∧ part ≠ "." ∧ part ≠ ".." ∧ contains_char "/" part = false.

Lemma component_of_ok part : part_ok part → component_of part = Some (Normal part).
Proof.
  intros (H1 & H2 & H3 & _). unfold component_of.
  by rewrite (proj2 (str_eqb_false _ _) H1), (proj2 (str_eqb_false _ _) H2), (proj2 (str_eqb_false _ _) H3).
Qed.

Lemma component_of_normal part p : component_of part = Some (Normal p) → contains_char "/" part = false → part_ok p ∧ p = part.
Proof.
  unfold component_of. destruct (str_eqb part EmptyString || str_eqb part ".") eqn:H1; [done|].
  apply orb_false_iff in H1 as [H1%str_eqb_false H2%str_eqb_false].
  destruct (str_eqb part "..") eqn:H3; [done|]. apply str_eqb_false in H3. intros [= <-] Hs. by split_and!.
Qed.

Lemma split_on_sub c d s w : w ∈ split_on d s → contains_char c w = true → contains_char c s = true.
Proof.
  revert w. induction s as [|a s IH]; intros w; cbn [split_on].
  - intros ->%list_elem_of_singleton. done.
  - destruct (Ascii.eqb a d).
    + intros [->|Hw]%elem_of_cons Hc; [done|]. cbn [contains_char]. rewrite (IH w Hw Hc). apply orb_true_r.
    + destruct (split_on d s) as [|w0 ws] eqn:E.
      * intros ->%list_elem_of_singleton. cbn [contains_char]. rewrite orb_false_r. by intros ->.
      * intros [->|Hw]%elem_of_cons; cbn [contains_char].
        -- intros [->|Hc]%orb_true_iff; [done|]. rewrite (IH w0); [apply orb_true_r|by left|done].
        -- intros Hc. rewrite (IH w); [apply orb_true_r|by right|done].
Qed.

(** The names in a path come from its text. *)
Lemma components_parts s part c :
  Normal part ∈ components s → part_ok part ∧ (contains_char c part = true → contains_char c s = true).
Proof.
  unfold components. intros H.
  assert (∀ w, w ∈ split_on "/" s → component_of w = Some (Normal part) →
            part_ok part ∧ (contains_char c part = true → contains_char c s = true)) as Hw.
  { intros w Hw Hc. pose proof (split_on_clean "/" s) as Hcl. rewrite Forall_forall in Hcl.
    destruct (component_of_normal w part Hc (Hcl w Hw)) as [Hok ->]. split; [done|]. by apply (split_on_sub c "/"). }
  destruct (split_on "/" s) as [|first parts]; [by apply not_elem_of_nil in H|].
  apply elem_of_app in H as [H|H].
  - destruct (str_eqb first EmptyString); [destruct (str_eqb s EmptyString); set_solver|].
    destruct (str_eqb first "."); [set_solver|]. destruct (component_of first) as [c0|] eqn:Hc; [|set_solver].
    apply list_elem_of_singleton in H as <-. apply (Hw first); [by left|done].
  - apply list_elem_of_omap in H as (w & Hin & Hc). apply (Hw w); [by right|done].
Qed.

(** A path without links, dots or climbs, by its names. *)
Definition names_path (names : list string) : Path := RootDir :: map Normal names.

Lemma lexical_names p : ∃ names, lexical_normalize p = names_path names ∧ ∀ n, n ∈ names → Normal n ∈ p.
Proof.
  unfold lexical_normalize, names_path. induction p as [|c p (names & E & Hn)]; [exists []; split; [done|]; by intros n ?%not_elem_of_nil|].
  injection E as E. rewrite filter_cons. case_decide as Hc.
  - destruct c; try discriminate Hc. exists (part :: names). rewrite E. split; [done|].
    intros n [->|Hin]%elem_of_cons; [by left|right; by apply Hn].
  - exists names. rewrite E. split; [done|]. intros n Hin. right. by apply Hn.
Qed.

Lemma display_names names : display (names_path names) = "/" +:+ join "/" names.
Proof.
  unfold display, names_path. f_equal. f_equal. rewrite map_map. simpl. apply map_id.
Qed.

Lemma components_display names :
  Forall part_ok names → components (display (names_path names)) = names_path names.
Proof.
  intros Hn. rewrite display_names. unfold components, names_path.
  change ("/" +:+ join "/" names) with (String "/" (join "/" names)).
  assert (omap component_of (split_on "/" (join "/" names)) = map Normal names) as H.
  { destruct names as [|n names]; [done|]. rewrite split_on_join; [|done|].
    - induction Hn as [|x l Hx Hl IH]; [done|]. cbn. rewrite (component_of_ok x Hx). by f_equal.
    - eapply Forall_impl; [exact Hn|]. by intros x (_ & _ & _ & ?). }
  cbn [split_on]. rewrite Ascii.eqb_refl. cbn [str_eqb]. rewrite H. done.
Qed.

Lemma lexical_display names : Forall part_ok names → lexical_normalize (names_path names) = names_path names.
Proof.
  intros _. unfold lexical_normalize, names_path. f_equal. rewrite filter_cons, decide_False by done.
  induction names as [|n names IH]; [done|]. cbn [map]. rewrite filter_cons, decide_True by done. by f_equal.
Qed.

Lemma contains_one c a : contains_char c (String a EmptyString) = true → c = a.
Proof. cbn [contains_char]. rewrite orb_false_r. intros H. symmetry. by apply Ascii.eqb_eq. Qed.

Lemma display_char c names :
  contains_char c (display (names_path names)) = true → c = "/"%char ∨ ∃ n, n ∈ names ∧ contains_char c n = true.
Proof.
  rewrite display_names, contains_char_app. intros [H%contains_one|H]%orb_true_iff; [by left|].
  induction names as [|n names IH]; [done|]. destruct names as [|n' names].
  - right. exists n. split; [by left|done].
  - change (join "/" (n :: n' :: names)) with (n +:+ "/" +:+ join "/" (n' :: names)) in H.
    rewrite !contains_char_app in H. apply orb_true_iff in H as [H|H]; [right; exists n; split; [by left|done]|].
    apply orb_true_iff in H as [H|H]; [left; by apply contains_one|].
    destruct (IH H) as [?|(m & Hm & ?)]; [by left|right]. exists m. split; [by right|done].
Qed.

(** ** Options *)

Lemma allowed_opt o : o ∈ ALLOWED_OPTS → trim o = o ∧ o ≠ EmptyString ∧ ∀ c, c ∈ [","; "000"; "010"]%char → contains_char c o = false.
Proof.
  intros H. unfold ALLOWED_OPTS in H.
  repeat (apply elem_of_cons in H as [->|H]; [split; [vm_compute; reflexivity|split; [done|]]; intros c Hc; unfold ALLOWED_OPTS in Hc;
    repeat (apply elem_of_cons in Hc as [->|Hc]; [reflexivity|]); by apply not_elem_of_nil in Hc|]).
  by apply not_elem_of_nil in H.
Qed.

Lemma gather_spec toks acc opts :
  gather_opts toks acc = Ok opts → NoDup acc → Forall (λ o, o ∈ ALLOWED_OPTS) acc →
  NoDup opts ∧ Forall (λ o, o ∈ ALLOWED_OPTS) opts.
Proof.
  revert acc. induction toks as [|t toks IH]; intros acc; cbn [gather_opts]; [by intros [= <-]|].
  destruct (str_eqb (trim t) EmptyString); [apply IH|]. case_bool_decide as Ha; cbn [negb]; [|done].
  case_bool_decide as Hin; intros H Hnd Hall; apply (IH _ H); try done.
  - apply NoDup_app. split_and!; [done| |apply NoDup_singleton]. by intros x Hx ->%list_elem_of_singleton.
  - apply Forall_app. split; [done|]. by constructor.
Qed.

Lemma gather_again opts acc :
  NoDup (acc ++ opts) → Forall (λ o, o ∈ ALLOWED_OPTS) opts → gather_opts opts acc = Ok (acc ++ opts).
Proof.
  revert acc. induction opts as [|o opts IH]; intros acc Hnd Hall; cbn [gather_opts]; [by rewrite app_nil_r|].
  apply Forall_cons in Hall as [Ho Hall]. destruct (allowed_opt o Ho) as (-> & Hne & _).
  rewrite (proj2 (str_eqb_false _ _) Hne), (bool_decide_eq_true_2 _ Ho). cbn [negb].
  rewrite bool_decide_eq_false_2.
  - rewrite IH; [by rewrite <- app_assoc|by rewrite <- app_assoc|done].
  - apply NoDup_app in Hnd as (_ & H & _). intros Hin. apply (H o Hin). by left.
Qed.

(** What [split(',')] and the loop read back. *)
Lemma gather_join opts :
  NoDup opts → Forall (λ o, o ∈ ALLOWED_OPTS) opts → gather_opts (split_on "," (join "," opts)) [] = Ok opts.
Proof.
  intros Hnd Hall. destruct opts as [|o opts]; [reflexivity|]. rewrite split_on_join; [by apply (gather_again _ [])|done|].
  eapply Forall_impl; [exact Hall|]. intros x Hx. apply (allowed_opt x Hx). by left.
Qed.

Lemma join_empty opts : Forall (λ o, o ∈ ALLOWED_OPTS) opts → join "," opts = EmptyString → opts = [].
Proof.
  destruct opts as [|o [|o' opts]]; [done|..]; intros [Ho _]%Forall_cons; cbn [join].
  - intros ->. by destruct (allowed_opt _ Ho) as (_ & ? & _).
  - destruct o; [by destruct (allowed_opt _ Ho) as (_ & ? & _)|done].
Qed.

(** The options a normalised list stands for. *)
Lemma normalize_spec raw w s :
  normalize_opts raw w = Ok s →
  ∃ opts, s = join "," opts ∧ NoDup opts ∧ Forall (λ o, o ∈ ALLOWED_OPTS) opts ∧
    (w = false → "ro" ∈ opts ∧ "rw" ∉ opts).
Proof.
  unfold normalize_opts. destruct (gather_opts _ []) as [opts|] eqn:Hg; [|done].
  destruct (gather_spec _ _ _ Hg) as [Hnd Hall]; [constructor|constructor|].
  destruct w; [intros [= <-]; by exists opts|]. case_bool_decide as Hrw; [done|]. case_bool_decide as Hro; intros [= <-].
  - by exists opts.
  - exists ("ro" :: opts). split_and!; [done|by constructor|constructor; [|done]; by left|].
    intros _. split; [by left|]. rewrite elem_of_cons. intros [|]; done.
Qed.

Lemma normalize_again opts (w : bool) :
  NoDup opts → Forall (λ o, o ∈ ALLOWED_OPTS) opts → (w = false → "ro" ∈ opts ∧ "rw" ∉ opts) →
  normalize_opts (join "," opts) w = Ok (join "," opts).
Proof.
  intros Hnd Hall Hw. unfold normalize_opts. rewrite gather_join by done. destruct w; [done|].
  destruct (Hw eq_refl) as [Hro Hrw]. by rewrite bool_decide_eq_false_2, bool_decide_eq_true_2.
Qed.

Lemma options_char c opts :
  c ∈ ["000"; "010"]%char → Forall (λ o, o ∈ ALLOWED_OPTS) opts → contains_char c (join "," opts) = false.
Proof.
  intros Hc Hall. induction opts as [|o opts IH]; [done|]. apply Forall_cons in Hall as [Ho Hall].
  assert (contains_char c o = false) as Hco by (apply (allowed_opt o Ho); by right).
  destruct opts as [|o' opts]; [done|]. change (join "," (o :: o' :: opts)) with (o +:+ "," +:+ join "," (o' :: opts)).
  rewrite !contains_char_app, Hco, (IH Hall). apply elem_of_cons in Hc as [->|Hc%list_elem_of_singleton]; [done|by subst c].
Qed.

Lemma split_once_clean c s a b : split_once c s = Some (a, b) → contains_char c a = false.
Proof.
  revert a. induction s as [|x s IH]; intros a; cbn [split_once]; [done|].
  destruct (Ascii.eqb x c) eqn:Hx; [by intros [= <- _]|]. destruct (split_once c s) as [[y z]|]; [|done].
  intros [= <- ->]. cbn [contains_char]. by rewrite Hx, (IH y eq_refl).
Qed.

Lemma split_once_all c s : split_once c s = None → contains_char c s = false.
Proof.
  induction s as [|x s IH]; cbn [split_once contains_char]; [done|].
  destruct (Ascii.eqb x c); [done|]. destruct (split_once c s) as [[y z]|]; [done|]. auto.
Qed.

(** ** What [check] promises *)

Section check.
Context (canonicalize : Path → option Path) (symlink_metadata : Path → option Node).
Local Abbreviation check := (check canonicalize symlink_metadata).
Local Abbreviation resolved := (resolve_existing_prefix canonicalize).

(** No denied tree, no runtime socket in it, no device: of a path as text or as resolved. *)
Definition vetted (p : Path) : Prop :=
  p ≠ [RootDir] ∧ (∀ d, d ∈ DENIED_ROOTS → is_under (components d) p = false) ∧
  (∀ s, s ∈ RUNTIME_SOCKETS → is_under p (components s) = false) ∧
  ∀ n, symlink_metadata p = Some n → n = OtherNode.

Lemma vetted_iff p : reject_if_sensitive symlink_metadata p = None ↔ vetted p.
Proof.
  unfold reject_if_sensitive, vetted. case_bool_decide as Hr; [split; [done|tauto]|].
  destruct (find_first _ DENIED_ROOTS) as [d|] eqn:Hd.
  - apply find_first_Some in Hd as [Hin Hd]. split; [done|]. intros (_ & H & _). by rewrite H in Hd.
  - apply find_first_None in Hd. rewrite Forall_forall in Hd.
    destruct (find_first _ RUNTIME_SOCKETS) as [s|] eqn:Hs.
    + apply find_first_Some in Hs as [Hin Hs]. split; [done|]. intros (_ & _ & H & _). by rewrite H in Hs.
    + apply find_first_None in Hs. rewrite Forall_forall in Hs.
      destruct (symlink_metadata p) as [n|]; [|split; [intros _; by split_and!|done]].
      split; [intros H; split_and!; try done; intros n' [= <-]; by destruct n|].
      intros (_ & _ & _ & H). by rewrite (H n eq_refl).
Qed.

Lemma mount_parts_some mount src dst opts :
  mount_parts mount = Some (src, dst, opts) →
  contains_char ":" src = false ∧ contains_char ":" dst = false ∧
  (mount = src +:+ ":" +:+ dst ∧ opts = EmptyString ∨ mount = src +:+ ":" +:+ dst +:+ ":" +:+ opts).
Proof.
  unfold mount_parts. destruct (split_once ":" mount) as [[s rest]|] eqn:E1; [|done].
  pose proof (split_once_clean _ _ _ _ E1) as H1. apply split_once_app in E1.
  destruct (split_once ":" rest) as [[d o]|] eqn:E2; intros [= <- <- <-]; (split; [done|]).
  - pose proof (split_once_clean _ _ _ _ E2) as H2. apply split_once_app in E2. split; [done|]. right. by rewrite E1, E2.
  - split; [by apply split_once_all|]. left. by rewrite E1.
Qed.
(** What the daemon reads of a mount handed on. *)
Lemma mount_parts_out names dst opts :
  Forall (λ n, part_ok n ∧ contains_char ":" n = false ∧ contains_char "000" n = false ∧ contains_char "010" n = false) names →
  contains_char ":" dst = false → mount_parts (mount_out (names_path names) dst opts) = Some (display (names_path names), dst, opts).
Proof.
  intros Hn Hd. assert (contains_char ":" (display (names_path names)) = false) as Hs.
  { apply not_true_is_false. intros [?|(n & Hin & Hc)]%display_char; [done|]. rewrite Forall_forall in Hn.
    destruct (Hn n Hin) as (_ & H & _). congruence. }
  unfold mount_out, mount_parts. destruct (str_eqb opts EmptyString) eqn:Ho.
  - apply str_eqb_true in Ho as ->. change (":" +:+ dst) with (String ":" dst). rewrite split_once_glue by done.
    by rewrite split_once_none.
  - change (":" +:+ dst +:+ ":" +:+ opts) with (String ":" (dst +:+ String ":" opts)).
    rewrite split_once_glue by done. by rewrite split_once_glue.
Qed.

(** What stands between a mount and its acceptance. *)
Record accepted (policy : MountPolicy) (rule : AllowedRoot) (names : list string) (dst : string) (opts : list string) : Prop := mkAccepted {
  ac_names : Forall (λ n, part_ok n ∧ contains_char ":" n = false ∧ contains_char "000" n = false ∧ contains_char "010" n = false) names;
  ac_dst : is_absolute dst = true ∧ dst ≠ "/" ∧ contains_char ":" dst = false ∧ contains_char "000" dst = false ∧ contains_char "010" dst = false;
  ac_vetted : vetted (names_path names);
  ac_resolved : vetted (resolved (names_path names)) ∨ resolved (names_path names) = names_path names;
  ac_rule : find_first (λ r, is_under (ar_path r) (names_path names)) (mp_allowed policy) = Some rule;
  ac_inside : is_under (resolved (ar_path rule)) (resolved (names_path names)) = true;
  ac_home d : ar_managed_home rule = true → mp_deployment_mount policy = Some d →
    home_escaped canonicalize d (ar_path rule) (resolved (ar_path rule)) = false;
  ac_nodup : NoDup opts;
  ac_opts : Forall (λ o, o ∈ ALLOWED_OPTS) opts;
  ac_read_only : ar_writable rule = false → "ro" ∈ opts ∧ "rw" ∉ opts }.

Lemma check_accepts policy mount out :
  check policy mount = Ok out →
  ∃ rule names dst opts, accepted policy rule names dst opts ∧ out = mount_out (names_path names) dst (join "," opts).
Proof.
  unfold MountPolicy.check. destruct (mount_parts mount) as [[[src dst] raw]|] eqn:Hp; [|done].
  apply mount_parts_some in Hp as (Hsrc & Hdst & Hm).
  destruct (str_eqb src EmptyString || negb (is_absolute src)); [done|].
  destruct (str_eqb dst EmptyString || negb (is_absolute dst)) eqn:Hda; [done|].
  apply orb_false_iff in Hda as [_ Hda%negb_false_iff].
  destruct (str_eqb dst "/") eqn:Hdr; [done|]. apply str_eqb_false in Hdr.
  destruct (contains_char "000" mount || contains_char "010" mount) eqn:Hc; [done|]. apply orb_false_iff in Hc as [Hc0 Hc1].
  case_bool_decide as Hpar; [done|].
  destruct (lexical_names (components src)) as (names & Hl & Hn). rewrite Hl. cbv zeta.
  destruct (reject_if_sensitive symlink_metadata (names_path names)) eqn:Hv; [done|]. apply vetted_iff in Hv.
  destruct (if bool_decide (resolved (names_path names) = names_path names) then None else _) eqn:Hr; [done|].
  destruct (find_first _ (mp_allowed policy)) as [rule|] eqn:Hf; [|done].
  destruct (is_under (resolved (ar_path rule)) (resolved (names_path names))) eqn:Hin; cbn [negb]; [|done].
  destruct (ar_managed_home rule && _) eqn:Hh; [done|].
  destruct (normalize_opts raw (ar_writable rule)) as [s|] eqn:Ho; [|done]. intros [= <-].
  apply normalize_spec in Ho as (opts & -> & Hnd & Hall & Hro).
  exists rule, names, dst, opts. split; [|done].
  assert (∀ c, contains_char c mount = false → contains_char c src = false ∧ contains_char c dst = false) as Hsub.
  { intros c. destruct Hm as [[-> _]| ->]; rewrite !contains_char_app, !orb_false_iff; tauto. }
  destruct (Hsub _ Hc0) as [Hs0 Hd0], (Hsub _ Hc1) as [Hs1 Hd1].
  assert (∀ c w, contains_char c src = false → w ∈ names → contains_char c w = false) as Hnc.
  { intros c w Hcs Hw. apply not_true_is_false. intros H.
    destruct (components_parts src w c (Hn w Hw)) as [_ Hs]. rewrite (Hs H) in Hcs. done. }
  split; try done.
  - apply Forall_forall. intros w Hw. destruct (components_parts src w ":" (Hn w Hw)) as [Hok _].
    split; [done|]. split_and!; by apply Hnc.
  - case_bool_decide; [by right|left]. by apply vetted_iff.
  - intros d Hmh Hd. rewrite Hmh, Hd in Hh. done.
Qed.

Lemma home_escaped_not d rule canonical_rule :
  home_escaped canonicalize d rule canonical_rule = false →
  is_absolute d = true ∧ is_under (components d) rule = true ∧ is_under (resolved (components d)) canonical_rule = true.
Proof. unfold home_escaped. rewrite !orb_false_iff, !negb_false_iff. tauto. Qed.

(** (C36) A mount the policy accepts is handed on as text that names one host path: absolute, with
    no dot and no climb in its name. That path, and the path it resolves to, is not the host's
    root, not in a denied tree, holds no runtime socket and is no device; it is in an allowed tree,
    by name and as resolved, and for the managed homes that tree is still in the deployment's
    mount. The options are known ones, and outside writable trees they say [ro] and never [rw]. *)
Theorem accepted_mount_is_confined policy mount out :
  check policy mount = Ok out →
  ∃ src dst raw names opts rule,
    mount_parts out = Some (src, dst, raw) ∧ is_absolute src = true ∧ components src = names_path names ∧
    raw = join "," opts ∧ is_absolute dst = true ∧ dst ≠ "/" ∧
    vetted (components src) ∧ vetted (resolved (components src)) ∧
    rule ∈ mp_allowed policy ∧ is_under (ar_path rule) (components src) = true ∧
    is_under (resolved (ar_path rule)) (resolved (components src)) = true ∧
    (∀ d, ar_managed_home rule = true → mp_deployment_mount policy = Some d →
       is_under (components d) (ar_path rule) = true ∧ is_under (resolved (components d)) (resolved (ar_path rule)) = true) ∧
    Forall (λ o, o ∈ ALLOWED_OPTS) opts ∧ (ar_writable rule = false → "ro" ∈ opts ∧ "rw" ∉ opts).
Proof.
  intros (rule & names & dst & opts & [Hn Hd Hv Hr Hf Hi Hh Hnd Ho Hro] & ->)%check_accepts.
  destruct Hd as (Hd1 & Hd2 & Hd3 & _).
  assert (Forall part_ok names) as Hok by (eapply Forall_impl; [exact Hn|]; by intros w [? _]).
  pose proof (components_display names Hok) as Hc.
  exists (display (names_path names)), dst, (join "," opts), names, opts, rule. rewrite Hc.
  apply find_first_Some in Hf as [Hin Hu].
  assert (vetted (resolved (names_path names))) as Hv2 by (by destruct Hr as [?| ->]).
  split; [by apply mount_parts_out|].
  repeat match goal with |- _ ∧ _ => split end; try done; [by rewrite display_names; destruct (join "/" names)|].
  intros d H1 H2. by destruct (home_escaped_not _ _ _ (Hh d H1 H2)) as (_ & ? & ?).
Qed.

Lemma accepted_check policy rule names dst opts :
  accepted policy rule names dst opts →
  check policy (mount_out (names_path names) dst (join "," opts)) = Ok (mount_out (names_path names) dst (join "," opts)).
Proof.
  intros [Hn Hd Hv Hr Hf Hi Hh Hnd Ho Hro]. destruct Hd as (Hd1 & Hd2 & Hd3 & Hd4 & Hd5).
  assert (Forall part_ok names) as Hok by (eapply Forall_impl; [exact Hn|]; by intros w [? _]).
  assert (∀ c, c = "000"%char ∨ c = "010"%char → contains_char c (mount_out (names_path names) dst (join "," opts)) = false) as Hctl.
  { intros c Hc. assert (contains_char c (display (names_path names)) = false) as H1.
    { apply not_true_is_false. intros [->|(n & Hin & H)]%display_char; [by destruct Hc|]. rewrite Forall_forall in Hn.
      destruct (Hn n Hin) as (_ & _ & H0 & H1). destruct Hc as [->| ->]; congruence. }
    assert (contains_char c dst = false) as H2 by (by destruct Hc as [->| ->]).
    assert (contains_char c (join "," opts) = false) as H3 by (apply options_char; [destruct Hc as [->| ->]; set_solver|done]).
    unfold mount_out. destruct (str_eqb _ _); rewrite !contains_char_app, H1, H2, ?H3; by destruct Hc as [->| ->]. }
  unfold MountPolicy.check. rewrite mount_parts_out by done.
  assert (is_absolute (display (names_path names)) = true) as Habs by (rewrite display_names; by destruct (join "/" names)).
  assert (str_eqb (display (names_path names)) EmptyString = false) as Hne by (rewrite display_names; by destruct (join "/" names)).
  rewrite Hne, Habs, Hd1. cbn [negb orb].
  assert (str_eqb dst EmptyString = false) as -> by (apply str_eqb_false; by intros ->).
  rewrite (proj2 (str_eqb_false _ _) Hd2), (Hctl "000"%char), (Hctl "010"%char), components_display by auto. cbn [orb].
  rewrite bool_decide_eq_false_2.
  2: { unfold names_path. intros [|Hin]%elem_of_cons; [done|]. apply list_elem_of_fmap in Hin as (n & ? & _). done. }
  rewrite lexical_display by done. cbv zeta.
  rewrite (proj2 (vetted_iff _) Hv).
  assert ((if bool_decide (resolved (names_path names) = names_path names) then None
           else reject_if_sensitive symlink_metadata (resolved (names_path names))) = None) as ->.
  { case_bool_decide; [done|]. destruct Hr as [Hr|]; [|done]. by apply vetted_iff. }
  rewrite Hf, Hi. cbn [negb].
  assert (ar_managed_home rule && match mp_deployment_mount policy with
    | Some d => home_escaped canonicalize d (ar_path rule) (resolved (ar_path rule)) | None => false end = false) as ->.
  { destruct (ar_managed_home rule); [|done]. destruct (mp_deployment_mount policy) as [d|]; [|done]. by apply Hh. }
  by rewrite normalize_again.
Qed.

(** Vetting is idempotent: the mount a policy hands on it accepts as it stands and does not
    change, so a mount that is vetted at the assign and again at the launch is one and the same. *)
Theorem check_idempotent policy mount out : check policy mount = Ok out → check policy out = Ok out.
Proof. intros (rule & names & dst & opts & Ha & ->)%check_accepts. by eapply accepted_check. Qed.
End check.

(** ** A denied tree that is not denied *)

(** Directories that hold denied trees and no runtime socket, and are in no denied tree. *)
Definition parents_of_denied : list (list string) := [["var"; "lib"]; ["usr"]; ["usr"; "lib"]; ["lib"]].

Definition denied_below (names : list string) : list string :=
  filter (λ d, is_under (names_path names) (components d) = true) DENIED_ROOTS.

Lemma parent_plain symlink_metadata names :
  names ∈ parents_of_denied → symlink_metadata (names_path names) = Some OtherNode →
  Forall (λ n, part_ok n ∧ contains_char ":" n = false ∧ contains_char "000" n = false ∧ contains_char "010" n = false) names ∧
  vetted symlink_metadata (names_path names) ∧ denied_below names ≠ [].
Proof.
  intros Hn Hm. unfold parents_of_denied in Hn. rewrite !elem_of_cons in Hn.
  destruct Hn as [->|[->|[->|[->|Hn]]]]; [| | | |by apply elem_of_nil in Hn];
    (split; [repeat (apply Forall_cons_2; [by split_and!|]); apply Forall_nil_2|]); (split; [|done]);
    apply (proj1 (vetted_iff Some symlink_metadata _)); unfold reject_if_sensitive; rewrite Hm; vm_compute; reflexivity.
Qed.

Lemma resolved_plain canonicalize p : canonicalize p = Some p → resolve_existing_prefix canonicalize p = p.
Proof.
  intros Hc. unfold resolve_existing_prefix.
  assert (canonicalize (reverse (reverse p)) = Some p) as H by (by rewrite reverse_involutive).
  destruct (reverse p) as [|c r]; cbn [resolve_rev]; by rewrite H, app_nil_r.
Qed.

(** (C37) A denied tree can be had by naming its parent. With any policy whose allow list has an
    entry that covers [/var/lib] (the tree itself, [/var] or [/]; the entry that applies, not a
    managed home), [/var/lib] is mounted at any destination, although [/var/lib/docker] and four
    more denied trees are in it; and [/usr], [/usr/lib] and [/lib] likewise with the denied trees
    in them. On a host where that directory and the entry's are what their names say. *)
Theorem denied_tree_through_parent canonicalize symlink_metadata policy rule names dst :
  names ∈ parents_of_denied →
  canonicalize (names_path names) = Some (names_path names) →
  symlink_metadata (names_path names) = Some OtherNode →
  find_first (λ r, is_under (ar_path r) (names_path names)) (mp_allowed policy) = Some rule →
  ar_managed_home rule = false → canonicalize (ar_path rule) = Some (ar_path rule) →
  is_absolute dst = true ∧ dst ≠ "/" ∧ contains_char ":" dst = false ∧ contains_char "000" dst = false ∧ contains_char "010" dst = false →
  let mount := mount_out (names_path names) dst (if ar_writable rule then "" else "ro") in
  check canonicalize symlink_metadata policy mount = Ok mount ∧ denied_below names ≠ [] ∧
  (names = ["var"; "lib"] → denied_below names =
     ["/var/lib/docker"; "/var/lib/containerd"; "/var/lib/containers"; "/var/lib/kubelet"; "/var/lib/rancher"]).
Proof.
  intros Hn Hc Hm Hf Hh Hr Hd mount. destruct (parent_plain symlink_metadata names Hn Hm) as (Hok & Hv & Hne).
  split_and!; [|done|intros ->; vm_compute; reflexivity].
  pose proof (proj2 (find_first_Some _ _ _ Hf)) as Hu.
  pose proof (accepted_check canonicalize symlink_metadata policy rule names dst (if ar_writable rule then [] else ["ro"])) as H.
  unfold mount. destruct (ar_writable rule) eqn:Hw; apply H; split; rewrite ?(resolved_plain _ _ Hc), ?(resolved_plain _ _ Hr), ?Hw;
    try done; try (by right); try congruence; try (by repeat constructor); try (by intros ? ?; congruence).
  all: repeat constructor; set_solver.
Qed.

(** Witnesses: a host whose paths are what they seem. *)
Definition plain_canon : Path → option Path := Some.
Definition plain_nodes : Path → option Node := λ _, Some OtherNode.
Definition pol : MountPolicy := policy_with_deployment_mount "/var/lib/quasar/homes" "/var/lib/quasar" "/opt/games,/srv/shared:rw".

Lemma accepted_mount_is_confined_witness :
  check plain_canon plain_nodes pol "/opt//games/./lib:/games" = Ok "/opt/games/lib:/games:ro" ∧
  ∃ src dst raw, mount_parts "/opt/games/lib:/games:ro" = Some (src, dst, raw) ∧ vetted plain_nodes (components src).
Proof.
  assert (check plain_canon plain_nodes pol "/opt//games/./lib:/games" = Ok "/opt/games/lib:/games:ro") as H by (vm_compute; reflexivity).
  split; [exact H|].
  destruct (accepted_mount_is_confined plain_canon plain_nodes pol _ _ H) as (src & dst & raw & names & opts & rule & H1 & _ & _ & _ & _ & _ & H2 & _).
  exists src, dst, raw. split; [exact H1|exact H2].
Defined.

Lemma check_idempotent_witness :
  check plain_canon plain_nodes pol "/srv/shared/:/shared:rw,z,rw" = Ok "/srv/shared:/shared:rw,z" ∧
  check plain_canon plain_nodes pol "/srv/shared:/shared:rw,z" = Ok "/srv/shared:/shared:rw,z".
Proof.
  assert (check plain_canon plain_nodes pol "/srv/shared/:/shared:rw,z,rw" = Ok "/srv/shared:/shared:rw,z") as H by (vm_compute; reflexivity).
  split; [exact H|]. exact (check_idempotent plain_canon plain_nodes pol _ _ H).
Defined.

Lemma denied_tree_through_parent_witness :
  check plain_canon plain_nodes (policy_new "" "/:rw") "/var/lib:/x" = Ok "/var/lib:/x" ∧
  check plain_canon plain_nodes (policy_new "" "/opt/games,/var/lib") "/var/lib:/x:ro" = Ok "/var/lib:/x:ro".
Proof.
  split.
  - apply (denied_tree_through_parent plain_canon plain_nodes (policy_new "" "/:rw") (mkAllowed [RootDir] true false) ["var"; "lib"] "/x");
      [by left|done..|by split_and!].
  - apply (denied_tree_through_parent plain_canon plain_nodes (policy_new "" "/opt/games,/var/lib")
      (mkAllowed (names_path ["var"; "lib"]) false false) ["var"; "lib"] "/x"); [by left|done..|by split_and!].
Defined.

(** The refusal of the container's root as a destination is by its spelling. *)
Example root_destination_respelled :
  check plain_canon plain_nodes pol "/srv/shared:/" = Err DestinationIsRoot ∧
  check plain_canon plain_nodes pol "/srv/shared:/." = Ok "/srv/shared:/.".
Proof. split; vm_compute; reflexivity. Qed.

(** A climb in the operator's entry is dropped, so another tree than the one named is allowed. *)
Example climb_dropped :
  mp_allowed (policy_new "" "/srv/../opt/games") = [mkAllowed (names_path ["srv"; "opt"; "games"]) false false].
Proof. vm_compute. reflexivity. Qed.
