(* ===== verification/Images.v ===== *)
(** * Managed images: records, operations, requests

    [src/images/state.rs] and the functions of [src/images/mod.rs], [build.rs], [disk.rs],
    [progress.rs] and [errors.rs] without input or output: the record of an image and its
    transitions, what a command does given the record and the image's operation slot, which
    requests are well formed. Sizes in MiB and percentages are [Z]s, times nanoseconds. *)
From S2P Require Import Prelude Platform MountPolicy.

(** ** The record *)

Inductive ImageState := Absent | Pulling | Building | Ready | Failed.

#[global] Instance ImageState_eq_dec : EqDecision ImageState.
Proof. solve_decision. Defined.

Definition as_wire_str (s : ImageState) : string :=
  match s with
  | Absent => "absent" | Pulling => "pulling" | Building => "building" | Ready => "ready" | Failed => "failed"
  end.

Record StagedTarget := mkStaged { sg_ref : string; sg_version : string }.

#[global] Instance StagedTarget_eq_dec : EqDecision StagedTarget.
Proof. solve_decision. Defined.

Record ImageRecord := mkRec {
  ir_ref : string; ir_version : string; ir_state : ImageState; ir_progress : Z; ir_bytes : Z;
  ir_error : string; ir_staged : option StagedTarget }.

#[global] Instance ImageRecord_eq_dec : EqDecision ImageRecord.
Proof. solve_decision. Defined.

(** [ImageRecord::empty] *)
Definition empty_record : ImageRecord := mkRec EmptyString EmptyString Absent 0 0 EmptyString None.

Definition wire_version (r : ImageRecord) : string :=
  match ir_staged r with Some s => sg_version s | None => ir_version r end.

Definition mark_ready (bytes : Z) (r : ImageRecord) : ImageRecord :=
  match ir_staged r with
  | Some s => mkRec (sg_ref s) (sg_version s) Ready 100 bytes EmptyString None
  | None => mkRec (ir_ref r) (ir_version r) Ready 100 bytes EmptyString None
  end.

Definition mark_failed (error : string) (r : ImageRecord) : ImageRecord :=
  match ir_staged r with
  | Some s =>
      if str_eqb (ir_ref r) EmptyString
      then mkRec (sg_ref s) (sg_version s) Failed (ir_progress r) (ir_bytes r) error None
      else mkRec (ir_ref r) (ir_version r) Failed (ir_progress r) (ir_bytes r) error None
  | None => mkRec (ir_ref r) (ir_version r) Failed (ir_progress r) (ir_bytes r) error None
  end.

Definition mark_absent (r : ImageRecord) : ImageRecord :=
  mkRec (ir_ref r) (ir_version r) Absent 0 0 EmptyString None.

Definition set_state (s : ImageState) (r : ImageRecord) : ImageRecord :=
  mkRec (ir_ref r) (ir_version r) s (ir_progress r) (ir_bytes r) (ir_error r) (ir_staged r).

(** What [set_pulling] and [set_building] do to the record. *)
Definition set_progress (s : ImageState) (pct bytes : Z) (r : ImageRecord) : ImageRecord :=
  mkRec (ir_ref r) (ir_version r) s pct bytes (ir_error r) (ir_staged r).

(** [stage_pulling] and [stage_building] on the record. *)
Definition stage (s : ImageState) (image_ref version : string) (r : ImageRecord) : ImageRecord :=
  mkRec (ir_ref r) (ir_version r) s 0 0 EmptyString (Some (mkStaged image_ref version)).

Definition stage_in (s : ImageState) (id image_ref version : string)
    (records : gmap string ImageRecord) : gmap string ImageRecord :=
  <[id := stage s image_ref version (default empty_record (records !! id))]> records.
Definition stage_pulling := stage_in Pulling.
Definition stage_building := stage_in Building.

(** ** Operations *)

Inductive ImageOp :=
| Ensure (version registry_ref : string)
| Build (version local_tag context_url context_subdir dockerfile : string) (build_args : list (string * string))
| Remove.

#[global] Instance ImageOp_eq_dec : EqDecision ImageOp.
Proof. solve_decision. Defined.

Record OpSlot := mkSlot { sl_running : ImageOp; sl_generation : Z; sl_pending : option ImageOp }.

#[global] Instance OpSlot_eq_dec : EqDecision OpSlot.
Proof. solve_decision. Defined.

Inductive OpDecision := ReAck | StartOp (op : ImageOp) | Queue (op : ImageOp) | AbsentUnknown.

#[global] Instance OpDecision_eq_dec : EqDecision OpDecision.
Proof. solve_decision. Defined.

(** The decision [decide_ensure] and [decide_build] share: an operation runs, or it does not. *)
Definition decide_want (existing : option ImageRecord) (running pending : option ImageOp) (want : ImageOp)
    (version : string) : OpDecision :=
  match running with
  | None =>
      match existing with
      | Some r => if bool_decide (ir_state r = Ready) && str_eqb (ir_version r) version then ReAck else StartOp want
      | None => StartOp want
      end
  | Some run => if bool_decide (default run pending = want) then ReAck else Queue want
  end.

Definition decide_ensure existing running pending (version registry_ref : string) : OpDecision :=
  decide_want existing running pending (Ensure version registry_ref) version.

Definition decide_build existing running pending (want : ImageOp) (version : string) : OpDecision :=
  decide_want existing running pending want version.

Definition decide_remove (existing : option ImageRecord) (running pending : option ImageOp) : OpDecision :=
  match running with
  | None => match existing with None => AbsentUnknown | Some _ => StartOp Remove end
  | Some run => if bool_decide (default run pending = Remove) then ReAck else Queue Remove
  end.

Definition should_commit (slot_generation : option Z) (worker_generation : Z) : bool :=
  bool_decide (slot_generation = Some worker_generation).

(** ** Well-formed requests *)

Definition MAX_IMAGE_ID_LEN : nat := 128.
Definition MAX_VERSION_LEN : nat := 128.
Definition MAX_REGISTRY_REF_LEN : nat := 512.
Definition MAX_CONCURRENT_OPS : nat := 128.
Definition MAX_LOCAL_TAG_LEN : nat := 512.
Definition MAX_CONTEXT_URL_LEN : nat := 2048.
Definition MAX_CONTEXT_SUBDIR_LEN : nat := 512.
Definition MAX_DOCKERFILE_LEN : nat := 512.
Definition MAX_BUILD_ARGS : nat := 128.
Definition MAX_BUILD_ARG_LEN : nat := 4096.
Definition MAX_CONCURRENT_PULLS : nat := 2.

(** [char::is_control], by the character's UTF-8 bytes. *)
Definition is_control (ch : string) : bool :=
  match bytes_of ch with
  | [b] => (b <? 32)%nat || (b =? 127)%nat
  | [194; b] => ((128 <=? b) && (b <=? 159))%nat
  | _ => false
  end.
Definition has_blank (s : string) : bool := existsb (λ ch, is_whitespace ch || is_control ch) (chars s).

Definition valid_name (name : string) : bool :=
  negb (str_eqb name EmptyString) && contains_char "/" name && negb (starts_with "-" name)
  && negb (contains_char "@" name) && forallb (λ seg, negb (str_eqb seg EmptyString)) (split_on "/" name).

Definition is_sha256_digest (digest : string) : bool :=
  match strip_prefix "sha256:" digest with
  | Some hex => (slen hex =? 64)%nat && all_bytes is_ascii_hexdigit hex
  | None => false
  end.

Definition is_sha_tag (tag : string) : bool :=
  match strip_prefix "sha-" tag with
  | Some hex => ((7 <=? slen hex) && (slen hex <=? 64))%nat && all_bytes is_ascii_hexdigit hex
  | None => false
  end.

Definition looks_like_a_concrete_ref (r : string) : bool :=
  if str_eqb r EmptyString || starts_with "-" r then false
  else if has_blank r then false
  else match split_once "@" r with
  | Some (name, digest) => valid_name name && is_sha256_digest digest
  | None =>
      match rsplit_once ":" r with
      | Some (name, tag) => valid_name name && is_sha_tag tag
      | None => false
      end
  end.

Definition looks_like_a_local_tag (tag : string) : bool :=
  negb (str_eqb tag EmptyString) && negb (starts_with "-" tag) && negb (has_blank tag).

(** The test at the top of [handle_ensure]. *)
Definition ensure_malformed (image_id registry_ref version : string) : bool :=
  str_eqb (trim image_id) EmptyString || (MAX_IMAGE_ID_LEN <? slen image_id)%nat
  || (MAX_VERSION_LEN <? slen version)%nat || (MAX_REGISTRY_REF_LEN <? slen registry_ref)%nat
  || negb (looks_like_a_concrete_ref registry_ref).

Definition remove_malformed (image_id : string) : bool :=
  str_eqb (trim image_id) EmptyString || (MAX_IMAGE_ID_LEN <? slen image_id)%nat.

(** [build::sanitize_relative] *)
Fixpoint sanitize_components (p : Path) : option Path :=
  match p with
  | [] => Some []
  | Normal c :: p => (λ out, Normal c :: out) <$> sanitize_components p
  | CurDir :: p => sanitize_components p
  | (RootDir | ParentDir) :: _ => None
  end.
Definition sanitize_relative (path : string) : option Path := sanitize_components (components path).

Definition parse_hosts (raw : string) : gset string :=
  list_to_set (filter (λ h, h ≠ EmptyString) (map (λ h, to_ascii_lowercase (trim h)) (split_on "," raw))).

(** Up to the first of three separators. *)
Fixpoint authority_of (rest : string) : string :=
  match rest with
  | EmptyString => EmptyString
  | String c s => if bool_decide (c ∈ ["/"; "?"; "#"]%char) then EmptyString else String c (authority_of s)
  end.

Definition validate_context_url (url : string) (allowed : gset string) : result string string :=
  match strip_prefix "https://" url with
  | None => Err "build source must be HTTPS"
  | Some rest =>
      let authority := authority_of rest in
      if str_eqb authority EmptyString then Err "build source URL has no host"
      else if contains_char "@" authority then Err "build source URL host is not allowed"
      else
        let '(host, port) := match split_once ":" authority with
                             | Some (h, p) => (h, Some p)
                             | None => (authority, None)
                             end in
        if str_eqb host EmptyString then Err "build source URL has no host"
        else if match port with Some p => negb (str_eqb p "443") | None => false end
        then Err "build source URL port is not allowed"
        else if bool_decide (to_ascii_lowercase host ∈ allowed) then Ok host
        else Err "build source URL host is not allowed"
  end.

Definition build_arg_ok (kv : string * string) : bool :=
  let '(k, v) := kv in
  negb (str_eqb k EmptyString || (MAX_BUILD_ARG_LEN <? slen k)%nat || (MAX_BUILD_ARG_LEN <? slen v)%nat
        || has_blank k || contains_char "=" k).

Definition build_fields_ok (image_id context_url context_subdir dockerfile local_tag version : string)
    (build_args : list (string * string)) : bool :=
  if remove_malformed image_id then false
  else if (MAX_CONTEXT_URL_LEN <? slen context_url)%nat || (MAX_VERSION_LEN <? slen version)%nat then false
  else if (MAX_LOCAL_TAG_LEN <? slen local_tag)%nat || negb (looks_like_a_local_tag local_tag) then false
  else if str_eqb context_subdir EmptyString || (MAX_CONTEXT_SUBDIR_LEN <? slen context_subdir)%nat
          || bool_decide (sanitize_relative context_subdir = None) then false
  else if str_eqb dockerfile EmptyString || (MAX_DOCKERFILE_LEN <? slen dockerfile)%nat
          || bool_decide (sanitize_relative dockerfile = None) then false
  else if (MAX_BUILD_ARGS <? length build_args)%nat then false
  else forallb build_arg_ok build_args.

(** ** Disk guard, errors, throttle *)

Definition MIN_FREE_MB : Z := 2048.
Definition MIN_BUILD_FREE_MB : Z := 4096.

Definition verdict (free_mb : Z) (known_image_mb : option Z) : result unit string :=
  let floor := (MIN_FREE_MB + default 0 known_image_mb)%Z in
  if (free_mb <? floor)%Z
  then Err ("insufficient disk: " +:+ pretty free_mb +:+ " MiB free (need at least " +:+ pretty floor +:+ " MiB)")
  else Ok tt.

(** [disk::check] without a known size and [disk::check_build], given the free space if it can be told. *)
Definition disk_check (build : bool) (free_mb : option Z) : option string :=
  match free_mb with
  | None => None
  | Some free =>
      match verdict free (if build then Some (MIN_BUILD_FREE_MB - MIN_FREE_MB)%Z else None) with
      | Ok _ => None
      | Err e => Some e
      end
  end.

Definition THROTTLE_INTERVAL : Z := 2000000000.
Definition THROTTLE_DELTA_PCT : Z := 5.

(** [ProgressThrottle::should_emit]: the answer, and the throttle after it. *)
Definition should_emit (last : option (Z * Z)) (now pct : Z) : bool * option (Z * Z) :=
  let emit := match last with
              | None => true
              | Some (last_at, last_pct) =>
                  (THROTTLE_INTERVAL <=? Z.max 0 (now - last_at)) && (THROTTLE_DELTA_PCT <=? Z.abs (pct - last_pct))
              end%Z in
  (emit, if emit then Some (now, pct) else last).

(** ** Exact cleanup *)

Definition cleanup_malformed (image_id version image_ref runtime_image_id generation : string) : bool :=
  str_eqb image_id EmptyString || str_eqb version EmptyString || str_eqb image_ref EmptyString
  || str_eqb runtime_image_id EmptyString || bool_decide (parse_unsigned U64_MAX generation = None).

(** [errors::map_runtime_error] *)
Definition map_runtime_error (k : ErrorKind) : string :=
  match k with
  | UnknownOutcome => "image operation outcome unknown; reconcile engine state before retrying"
  | InvalidBuildContext => "invalid build context or dockerfile"
  | BuildFailed => "docker build failed; inspect node-agent logs"
  | ImageInUse => "image in use"
  | RegistryDenied => "registry auth denied"
  | ManifestMissing => "manifest not found"
  | InsufficientDisk => "insufficient disk"
  | PermissionDenied => "engine access denied"
  | Unavailable => "engine unavailable"
  | TimedOut => "engine request timed out"
  | EngineBusy => "runtime busy; retry later"
  | InvalidConfiguration => "invalid runtime configuration"
  | IncompatibleApi => "incompatible engine API"
  | _ => "image operation failed; inspect node-agent logs"
  end.
