(* ===== verification/ImageCleanup.v ===== *)
(** * The cleanup journal

    [src/images/cleanup_journal.rs]: which exact removals this host has accepted, which have
    ended and which the control plane has let go of. Every change is written to its file before
    it counts; a write that failed may have reached the file all the same. *)
From S2P Require Import Prelude Images.

Record Attempt := mkAttempt {
  at_id : string; at_image : string; at_version : string; at_ref : string; at_runtime : string;
  at_generation : string; at_state : string; at_reason : option string }.

#[global] Instance Attempt_eq_dec : EqDecision Attempt.
Proof. solve_decision. Defined.

(** [cleanup_attempt] of [src/images/mod.rs] *)
Definition cleanup_attempt (attempt_id image_id version image_ref runtime_image_id generation : string) : Attempt :=
  mkAttempt attempt_id image_id version image_ref runtime_image_id generation "removing" None.

Definition same_identity (a b : Attempt) : bool :=
  str_eqb (at_id a) (at_id b) && str_eqb (at_image a) (at_image b) && str_eqb (at_version a) (at_version b)
  && str_eqb (at_ref a) (at_ref b) && str_eqb (at_runtime a) (at_runtime b)
  && str_eqb (at_generation a) (at_generation b).

Record Disk := mkDisk { dk_attempts : gmap string Attempt; dk_retired : gmap string string }.

Inductive Begin := Fresh | Duplicate (existing : Attempt) | Retired | Mismatch.

(** What is in memory, and what is in the file. *)
Record CleanupJournal := mkCleanup { cj_inner : Disk; cj_file : Disk }.

(** How a write ends: on disk; or not, as far as the process can tell. *)
Inductive SaveEnd := Saved | NotSaved (written : bool).

(** [CleanupJournal::open] of a file it can read: what a restart finds. *)
Definition journal_open (j : CleanupJournal) : CleanupJournal := mkCleanup (cj_file j) (cj_file j).

(** [CleanupJournal::update] *)
Definition journal_update {T} (io : SaveEnd) (f : Disk → T * Disk) (j : CleanupJournal) : option T * CleanupJournal :=
  let '(r, next) := f (cj_inner j) in
  match io with
  | Saved => (Some r, mkCleanup next next)
  | NotSaved written => (None, mkCleanup (cj_inner j) (if written then next else cj_file j))
  end.

(** The two tests of [begin], which it makes before it writes and again while it does. *)
Definition begin_known (d : Disk) (a : Attempt) : option Begin :=
  match dk_retired d !! at_id a with
  | Some _ => Some Retired
  | None =>
      match dk_attempts d !! at_id a with
      | Some existing => Some (if same_identity existing a then Duplicate existing else Mismatch)
      | None => None
      end
  end.

Definition begin_append (a : Attempt) (d : Disk) : Begin * Disk :=
  match begin_known d a with
  | Some b => (b, d)
  | None => (Fresh, mkDisk (<[at_id a := a]> (dk_attempts d)) (dk_retired d))
  end.

(** [CleanupJournal::begin], undisturbed between its two halves. *)
Definition begin (io : SaveEnd) (a : Attempt) (j : CleanupJournal) : option Begin * CleanupJournal :=
  match begin_known (cj_inner j) a with
  | Some b => (Some b, j)
  | None => journal_update io (begin_append a) j
  end.

Definition finished (state : string) (reason : option string) (a : Attempt) : Attempt :=
  mkAttempt (at_id a) (at_image a) (at_version a) (at_ref a) (at_runtime a) (at_generation a) state reason.

Definition finish_in (id state : string) (reason : option string) (d : Disk) : option Attempt * Disk :=
  match dk_attempts d !! id with
  | None => (None, d)
  | Some a =>
      let a := if str_eqb (at_state a) "removing" then finished state reason a else a in
      (Some a, mkDisk (<[id := a]> (dk_attempts d)) (dk_retired d))
  end.
Definition finish (io : SaveEnd) (id state : string) (reason : option string) : CleanupJournal → _ :=
  journal_update io (finish_in id state reason).

Definition retire_in (id generation : string) (d : Disk) : bool * Disk :=
  match dk_attempts d !! id with
  | None => (match dk_retired d !! id with Some stored => str_eqb stored generation | None => false end, d)
  | Some a =>
      if negb (str_eqb (at_generation a) generation) || str_eqb (at_state a) "removing" then (false, d)
      else (true, mkDisk (delete id (dk_attempts d)) (<[id := generation]> (dk_retired d)))
  end.
Definition retire_terminal (io : SaveEnd) (id generation : string) : CleanupJournal → _ :=
  journal_update io (retire_in id generation).

(** The loop of [snapshot]: an id without an attempt is retired, and answered as such. *)
Fixpoint snapshot_in (ids : list string) (d : Disk) : list string * Disk :=
  match ids with
  | [] => ([], d)
  | id :: ids =>
      match dk_attempts d !! id with
      | Some _ => snapshot_in ids d
      | None =>
          let '(retired, d) :=
            snapshot_in ids (mkDisk (dk_attempts d) (<[id := default EmptyString (dk_retired d !! id)]> (dk_retired d))) in
          (id :: retired, d)
      end
  end.
Definition snapshot (io : SaveEnd) (ids : list string) : CleanupJournal → _ :=
  journal_update io (snapshot_in ids).

(** [BTreeMap::values], in the order of the keys. *)
Definition attempts_of (d : Disk) : list Attempt :=
  map snd (sort_by (λ x y, str_leb (fst x) (fst y)) (map_to_list (dk_attempts d))).

Definition unfinished (j : CleanupJournal) : list Attempt :=
  filter (λ a, at_state a = "removing") (attempts_of (cj_inner j)).
Definition terminal (j : CleanupJournal) : list Attempt :=
  filter (λ a, at_state a ≠ "removing") (attempts_of (cj_inner j)).
