(* ===== verification/ImageManager.v ===== *)
(** * The image manager

    [src/images/mod.rs]: the record map, one operation slot per image, and the threads that work
    on them. A thread is the list of what it has left to do; [exec] runs its first instruction,
    which is one critical section of the source, one call of the engine or one point at which the
    source can block. [mgr_step] lets any thread go next. *)
From S2P Require Import Prelude Platform Images ImageCleanup.

(** ** Messages and state *)

Inductive AgentMsg :=
| ImageStateMsg (image_id version state : string) (progress_pct bytes : Z) (error : string)
| VersionsMsg
| CleanupStateMsg (a : Attempt)
| CleanupJournalMsg (request_id : string) (retired : list string) (attempts : list Attempt)
| AckMsg (id : string) (ok : bool) (error : option string).

#[global] Instance AgentMsg_eq_dec : EqDecision AgentMsg.
Proof. solve_decision. Defined.

(** [ImageManager] and what it shares with the outside: the channel of the current connection
    ([m_queue]), what the control plane has received ([m_told]), and, for the theorems only, the
    references the engine has answered for ([m_seen]) and the attempts it was asked to remove
    ([m_asked]). *)
Record Mgr := mkMgr {
  m_records : gmap string ImageRecord; m_ops : gmap string OpSlot; m_generations : Z;
  m_saved : gmap string ImageRecord; m_permits : nat;
  m_upstream : option nat; m_conns : nat; m_queue : list AgentMsg;
  m_pending_held : bool; m_terminal_pending : gset string;
  m_image_locks : gset string; m_readers : nat; m_writer : bool; m_ready_checks : gset string;
  m_cleanup : bool; m_journal : CleanupJournal;
  m_told : list AgentMsg; m_seen : gset string; m_asked : list string }.

Definition with_records x (s : Mgr) := mkMgr x (m_ops s) (m_generations s) (m_saved s) (m_permits s) (m_upstream s) (m_conns s) (m_queue s) (m_pending_held s) (m_terminal_pending s) (m_image_locks s) (m_readers s) (m_writer s) (m_ready_checks s) (m_cleanup s) (m_journal s) (m_told s) (m_seen s) (m_asked s).
Definition with_ops x (s : Mgr) := mkMgr (m_records s) x (m_generations s) (m_saved s) (m_permits s) (m_upstream s) (m_conns s) (m_queue s) (m_pending_held s) (m_terminal_pending s) (m_image_locks s) (m_readers s) (m_writer s) (m_ready_checks s) (m_cleanup s) (m_journal s) (m_told s) (m_seen s) (m_asked s).
Definition with_generations x (s : Mgr) := mkMgr (m_records s) (m_ops s) x (m_saved s) (m_permits s) (m_upstream s) (m_conns s) (m_queue s) (m_pending_held s) (m_terminal_pending s) (m_image_locks s) (m_readers s) (m_writer s) (m_ready_checks s) (m_cleanup s) (m_journal s) (m_told s) (m_seen s) (m_asked s).
Definition with_saved x (s : Mgr) := mkMgr (m_records s) (m_ops s) (m_generations s) x (m_permits s) (m_upstream s) (m_conns s) (m_queue s) (m_pending_held s) (m_terminal_pending s) (m_image_locks s) (m_readers s) (m_writer s) (m_ready_checks s) (m_cleanup s) (m_journal s) (m_told s) (m_seen s) (m_asked s).
Definition with_permits x (s : Mgr) := mkMgr (m_records s) (m_ops s) (m_generations s) (m_saved s) x (m_upstream s) (m_conns s) (m_queue s) (m_pending_held s) (m_terminal_pending s) (m_image_locks s) (m_readers s) (m_writer s) (m_ready_checks s) (m_cleanup s) (m_journal s) (m_told s) (m_seen s) (m_asked s).
Definition with_upstream u n q (s : Mgr) := mkMgr (m_records s) (m_ops s) (m_generations s) (m_saved s) (m_permits s) u n q (m_pending_held s) (m_terminal_pending s) (m_image_locks s) (m_readers s) (m_writer s) (m_ready_checks s) (m_cleanup s) (m_journal s) (m_told s) (m_seen s) (m_asked s).
Definition with_queue x (s : Mgr) := with_upstream (m_upstream s) (m_conns s) x s.
Definition with_pending h x (s : Mgr) := mkMgr (m_records s) (m_ops s) (m_generations s) (m_saved s) (m_permits s) (m_upstream s) (m_conns s) (m_queue s) h x (m_image_locks s) (m_readers s) (m_writer s) (m_ready_checks s) (m_cleanup s) (m_journal s) (m_told s) (m_seen s) (m_asked s).
Definition with_image_locks x (s : Mgr) := mkMgr (m_records s) (m_ops s) (m_generations s) (m_saved s) (m_permits s) (m_upstream s) (m_conns s) (m_queue s) (m_pending_held s) (m_terminal_pending s) x (m_readers s) (m_writer s) (m_ready_checks s) (m_cleanup s) (m_journal s) (m_told s) (m_seen s) (m_asked s).
Definition with_admission r w (s : Mgr) := mkMgr (m_records s) (m_ops s) (m_generations s) (m_saved s) (m_permits s) (m_upstream s) (m_conns s) (m_queue s) (m_pending_held s) (m_terminal_pending s) (m_image_locks s) r w (m_ready_checks s) (m_cleanup s) (m_journal s) (m_told s) (m_seen s) (m_asked s).
Definition with_ready_checks x (s : Mgr) := mkMgr (m_records s) (m_ops s) (m_generations s) (m_saved s) (m_permits s) (m_upstream s) (m_conns s) (m_queue s) (m_pending_held s) (m_terminal_pending s) (m_image_locks s) (m_readers s) (m_writer s) x (m_cleanup s) (m_journal s) (m_told s) (m_seen s) (m_asked s).
Definition with_journal x (s : Mgr) := mkMgr (m_records s) (m_ops s) (m_generations s) (m_saved s) (m_permits s) (m_upstream s) (m_conns s) (m_queue s) (m_pending_held s) (m_terminal_pending s) (m_image_locks s) (m_readers s) (m_writer s) (m_ready_checks s) (m_cleanup s) x (m_told s) (m_seen s) (m_asked s).
Definition with_told x (s : Mgr) := mkMgr (m_records s) (m_ops s) (m_generations s) (m_saved s) (m_permits s) (m_upstream s) (m_conns s) (m_queue s) (m_pending_held s) (m_terminal_pending s) (m_image_locks s) (m_readers s) (m_writer s) (m_ready_checks s) (m_cleanup s) (m_journal s) x (m_seen s) (m_asked s).
Definition with_seen x (s : Mgr) := mkMgr (m_records s) (m_ops s) (m_generations s) (m_saved s) (m_permits s) (m_upstream s) (m_conns s) (m_queue s) (m_pending_held s) (m_terminal_pending s) (m_image_locks s) (m_readers s) (m_writer s) (m_ready_checks s) (m_cleanup s) (m_journal s) (m_told s) x (m_asked s).
Definition with_asked x (s : Mgr) := mkMgr (m_records s) (m_ops s) (m_generations s) (m_saved s) (m_permits s) (m_upstream s) (m_conns s) (m_queue s) (m_pending_held s) (m_terminal_pending s) (m_image_locks s) (m_readers s) (m_writer s) (m_ready_checks s) (m_cleanup s) (m_journal s) (m_told s) (m_seen s) x.

(** The channel [run_connection] makes for a connection. *)
Definition IMAGE_CHANNEL : nat := 64.
#[global] Arguments IMAGE_CHANNEL : simpl never.
#[global] Arguments MAX_CONCURRENT_OPS : simpl never.
#[global] Arguments MAX_CONCURRENT_PULLS : simpl never.

(** ** What the outside answers *)

Inductive WorkAnswer := WBusy | WProgress (pct bytes : Z) | WDone (bytes : Z) | WFailed (error : string).

Inductive ExactRemoval := ExRemoved | ExAbsent | ExReferenced | ExIdentityMismatch | ExStillPresent.

Inductive Answer :=
| NoAnswer
| AnsWrite (saved : bool)                          (* the state file *)
| AnsSave (io : SaveEnd)                           (* the cleanup journal *)
| AnsRemember (ok : bool)                          (* the version inventory *)
| AnsPresent (present : option bool)               (* the engine, of an image *)
| AnsFree (free_mb : option Z)                     (* the file system *)
| AnsWork (w : WorkAnswer)                         (* the engine, of a pull, a build or a removal *)
| AnsDeadline (past : bool)                        (* the clock *)
| AnsSnapshot (sends : bool)                       (* the version inventory's publication *)
| AnsRefusal (reason : option string)              (* the other guards of a cleanup *)
| AnsExact (r : option ExactRemoval).              (* the engine, of an exact removal *)

(** ** Instructions *)

(** The engine's part of an operation: a pull or a build of a target, or a removal of a reference. *)
Inductive Work := Obtain (op : ImageOp) | Drop (image_ref : string).

(** What a worker commits to the record. *)
Inductive Change :=
| CProgress (s : ImageState) (pct bytes : Z)
| CReady (bytes : Z)
| CFailed (error : string)
| CAbsent.

Definition apply_change (c : Change) : ImageRecord → ImageRecord :=
  match c with
  | CProgress s pct bytes => set_progress s pct bytes
  | CReady bytes => mark_ready bytes
  | CFailed error => mark_failed error
  | CAbsent => mark_absent
  end.

Inductive Instr :=
(* commands *)
| IEnsure (cmd image_id registry_ref version : string)
| IEnsureBody (cmd image_id registry_ref version : string)
| IEnsureRemember (cmd image_id registry_ref version : string)
| IPlanEnsure (image_id registry_ref version : string) (demote_from : option string)
| IReadyRef (image_id registry_ref version : string)
| IStartCheck (image_id recorded registry_ref version : string)
| IPresent (image_id recorded registry_ref version : string)
| IDemote (image_id recorded registry_ref version : string)
| ICheckDone (image_id : string)
| IBuild (cmd image_id : string) (op : ImageOp)
| IBuildBody (cmd image_id : string) (op : ImageOp)
| IBuildRemember (cmd image_id : string) (op : ImageOp)
| IPlanBuild (image_id : string) (op : ImageOp)
| IRemove (cmd image_id : string)
| IRemoveBody (cmd image_id : string)
| IPlanRemove (image_id : string)
| IAck (cmd : string) (ok : bool) (error : option string)
| IReadUnlock
(* sending *)
| IPersist
| IEmit (image_id : string)
| ISend (msg : AgentMsg)
| IEmitTerminal (image_id : string)
| ITerminalSend (image_id : string) (msg : option AgentMsg)
| IFlushTerminal
| IVersionSnapshot
(* workers *)
| ISpawn (image_id : string)
| IWorker (image_id : string)
| ILockImage (image_id : string) (op : ImageOp) (generation : Z)
| IUnlockImage (image_id : string)
| IStage (image_id : string) (op : ImageOp) (generation : Z)
| IAcquire (image_id : string) (op : ImageOp) (generation : Z)
| IReleasePermit
| IDisk (image_id : string) (op : ImageOp) (generation : Z)
| IWork (image_id : string) (work : Work) (generation : Z)
| IRetry (image_id : string) (work : Work) (generation : Z)
| ICommit (image_id : string) (generation : Z) (change : Change)
| IApply (image_id : string) (change : Change)
| INotify (image_id : string) (ready : bool)
| IRemoveRef (image_id : string) (generation : Z)
| IRefreshInventory
| IPromote (image_id : string)
(* the connection *)
| IAttach
| IFlushOpFree
| IRefreshImages
| IReconcile (todo : list (string * string * ImageState)) (changed : bool)
(* exact cleanup *)
| ICleanup (cmd : string) (a : Attempt)
| IBeginAppend (cmd : string) (a : Attempt)
| IRunCleanup (cmd : string) (a : Attempt)
| ICleanupLock (cmd : string) (a : Attempt)
| ICleanupCheck (cmd : string) (a : Attempt)
| IExactRemove (cmd : string) (a : Attempt)
| IFinish (cmd : string) (a : Attempt) (state : string) (reason : option string) (ok : bool)
| IBlockingSend (msg : AgentMsg)
| IBlocked (connection : nat) (msg : AgentMsg)
| IWriteUnlock
| IJournalRequest (cmd : string) (ids : list string)
| IStateAck (cmd attempt_id generation : string).

Abbreviation Thread := (list Instr).

(** ** Records and messages *)

Definition op_ref (op : ImageOp) : string :=
  match op with Ensure _ r => r | Build _ tag _ _ _ _ => tag | Remove => EmptyString end.
Definition op_version (op : ImageOp) : string :=
  match op with Ensure v _ => v | Build v _ _ _ _ _ => v | Remove => EmptyString end.
Definition op_state (op : ImageOp) : ImageState :=
  match op with Build _ _ _ _ _ _ => Building | _ => Pulling end.

Definition stage_op (id : string) (op : ImageOp) : gmap string ImageRecord → gmap string ImageRecord :=
  stage_in (op_state op) id (op_ref op) (op_version op).

Definition msg_of (id : string) (r : ImageRecord) : AgentMsg :=
  ImageStateMsg id (wire_version r) (as_wire_str (ir_state r)) (ir_progress r) (ir_bytes r) (ir_error r).

Definition state_msg (s : Mgr) (id : string) : option AgentMsg := msg_of id <$> m_records s !! id.

Definition absent_msg (id : string) : AgentMsg :=
  ImageStateMsg id EmptyString (as_wire_str Absent) 0 0 EmptyString.

(** [send_upstream]: whether the channel took the message. *)
Definition send_upstream (msg : AgentMsg) (s : Mgr) : bool * Mgr :=
  match m_upstream s with
  | None => (false, s)
  | Some _ =>
      if (length (m_queue s) <? IMAGE_CHANNEL)%nat then (true, with_queue (m_queue s ++ [msg]) s) else (false, s)
  end.

Definition send_opt (msg : option AgentMsg) (s : Mgr) : bool * Mgr :=
  match msg with Some m => send_upstream m s | None => (false, s) end.

Definition has_op_capacity (s : Mgr) (id : string) : bool :=
  bool_decide (is_Some (m_ops s !! id)) || (size (m_ops s) <? MAX_CONCURRENT_OPS)%nat.

Definition is_latest_intent (s : Mgr) (id : string) (generation : Z) : bool :=
  match m_ops s !! id with
  | Some slot => bool_decide (sl_generation slot = generation) && bool_decide (sl_pending slot = None)
  | None => false
  end.

(** Records without an operation, in the order of their ids. *)
Definition op_free (s : Mgr) : list (string * ImageRecord) :=
  sort_by (λ x y, str_leb (fst x) (fst y)) (filter (λ x, m_ops s !! fst x = None) (map_to_list (m_records s))).

(** ** Planning *)

(** [Start] of the three plans: a new generation, a slot, and the staged record. *)
Definition start_op (id : string) (op : ImageOp) (s : Mgr) : Mgr :=
  let generation := (m_generations s + 1)%Z in
  let s := with_generations generation (with_ops (<[id := mkSlot op generation None]> (m_ops s)) s) in
  match op with Remove => s | _ => with_records (stage_op id op (m_records s)) s end.

Definition queue_op (id : string) (op : ImageOp) (s : Mgr) : Mgr :=
  match m_ops s !! id with
  | Some slot => with_ops (<[id := mkSlot (sl_running slot) (sl_generation slot) (Some op)]> (m_ops s)) s
  | None => s
  end.

Definition slot_running (s : Mgr) (id : string) : option ImageOp := sl_running <$> m_ops s !! id.
Definition slot_pending (s : Mgr) (id : string) : option ImageOp := m_ops s !! id ≫= sl_pending.

(** The demotion of [plan_ensure_demoting], if the record is still what the check saw. *)
Definition demote (id version recorded : string) (s : Mgr) : option Mgr :=
  match m_records s !! id, m_ops s !! id with
  | Some r, None =>
      if bool_decide (ir_state r = Ready) && str_eqb (ir_ref r) recorded && str_eqb (ir_version r) version
      then Some (with_records (<[id := mark_absent r]> (m_records s)) s) else None
  | _, _ => None
  end.

(** The decision of [plan_ensure_demoting] and what it changes: the state, whether an operation
    started, whether the record was demoted before. *)
Definition planned (id registry_ref version : string) (demoted : bool) (s : Mgr) : Mgr * bool * bool :=
  match decide_ensure (m_records s !! id) (slot_running s id) (slot_pending s id) version registry_ref with
  | ReAck | AbsentUnknown => (s, false, demoted)
  | Queue op => (queue_op id op s, false, demoted)
  | StartOp op =>
      if demoted && (MAX_CONCURRENT_OPS <=? size (m_ops s))%nat then (s, false, demoted)
      else (start_op id op s, true, demoted)
  end.

(** [plan_ensure_demoting] under its locks; [None] where it returns at once. *)
Definition plan_ensure (id registry_ref version : string) (demote_from : option string) (s : Mgr)
    : option (Mgr * bool * bool) :=
  match demote_from with
  | None => Some (planned id registry_ref version false s)
  | Some recorded => planned id registry_ref version true <$> demote id version recorded s
  end.

(** [plan_build] under its locks. *)
Definition plan_build (id : string) (want : ImageOp) (s : Mgr) : Mgr * bool :=
  match decide_build (m_records s !! id) (slot_running s id) (slot_pending s id) want (op_version want) with
  | ReAck | AbsentUnknown => (s, false)
  | Queue op => (queue_op id op s, false)
  | StartOp op => (start_op id op s, true)
  end.

(** [plan_remove] under its locks. *)
Definition plan_remove (id : string) (s : Mgr) : Mgr * OpDecision :=
  let d := decide_remove (m_records s !! id) (slot_running s id) (slot_pending s id) in
  (match d with Queue op => queue_op id op s | StartOp op => start_op id op s | _ => s end, d).

(** The end of [run_worker]'s turn: the pending operation becomes the running one, or the slot goes. *)
Definition promote (id : string) (s : Mgr) : Mgr * bool :=
  match m_ops s !! id with
  | Some slot =>
      match sl_pending slot with
      | Some next =>
          let generation := (m_generations s + 1)%Z in
          (with_generations generation (with_ops (<[id := mkSlot next generation None]> (m_ops s)) s), true)
      | None => (with_ops (delete id (m_ops s)) s, false)
      end
  | None => (s, false)
  end.

(** ** One instruction *)

(** The state after it, what the thread does next, and the threads it started. *)
Definition Outcome : Type := option (Mgr * Thread * list Thread).
Definition go (s : Mgr) (t : Thread) : Outcome := Some (s, t, []).
Definition blocked : Outcome := None.

(** [self.admission.read()]; the guard goes with [IReadUnlock]. *)
Definition admit_read (s : Mgr) (t : Thread) : Outcome :=
  if m_writer s then blocked else go (with_admission (S (m_readers s)) false s) t.

(** A worker's result: committed, persisted and told. *)
Definition conclude (id : string) (generation : Z) (c : Change) (after : Thread) : Thread :=
  [ICommit id generation c] ++ after ++ [IPersist; IEmitTerminal id].

Definition finish_reply (cmd : string) (b : Begin) (a : Attempt) (s : Mgr) : Outcome :=
  match b with
  | Retired => go s [IAck cmd false (Some "retired_attempt")]
  | Mismatch => go s [IAck cmd false (Some "identity_mismatch")]
  | Duplicate existing =>
      let refusal := match at_reason existing with
                     | Some r => if bool_decide (r ∈ ["identity_mismatch"; "inventory_unknown"; "reference_in_use"; "operation_busy"; "unsupported"])
                                 then Some r else None
                     | None => None
                     end in
      go s [ISend (CleanupStateMsg existing); IAck cmd (bool_decide (refusal = None)) refusal]
  | Fresh => Some (s, [], [[IRunCleanup cmd a]])
  end.

(** [flush_terminal_states] for one id. *)
Definition flush_one (id : string) (s : Mgr) : Mgr :=
  if bool_decide (is_Some (m_ops s !! id)) then s
  else let '(sent, s) := send_opt (state_msg s id) s in
       if sent then with_pending (m_pending_held s) (m_terminal_pending s ∖ {[id]}) s else s.

(** One record of [refresh_register_images]: what the daemon says is there against what was recorded. *)
Definition reconcile_one (id registry_ref : string) (was now : ImageState) (s : Mgr) : Mgr * bool :=
  match m_ops s !! id, m_records s !! id with
  | None, Some r =>
      if str_eqb (ir_ref r) registry_ref && bool_decide (ir_state r = was)
      then (with_records (<[id := if bool_decide (now = Ready) then set_state Ready r else mark_absent r]> (m_records s)) s, true)
      else (s, false)
  | _, _ => (s, false)
  end.

Section exec.
(** [QUASAR_IMAGE_SOURCE_HOSTS], or its default. *)
Variable source_hosts : string.

(** Commands. *)
Definition exec_command (i : Instr) (ans : Answer) (s : Mgr) : Outcome :=
  match i, ans with
  | IEnsure cmd id r v, NoAnswer => admit_read s [IEnsureBody cmd id r v; IReadUnlock]
  | IEnsureBody cmd id r v, NoAnswer =>
      go s (if ensure_malformed id r v
            then [IAck cmd false (Some "malformed image_ensure: image_id/registry_ref/version")]
            else if negb (has_op_capacity s id) then [IAck cmd false (Some "image operation queue full")]
            else if m_cleanup s then [IEnsureRemember cmd id r v]
            else [IPlanEnsure id r v None; IAck cmd true None])
  | IEnsureRemember cmd id r v, AnsRemember ok =>
      go s (if ok then [IVersionSnapshot; IPlanEnsure id r v None; IAck cmd true None]
            else [IAck cmd false (Some "image inventory persistence unavailable")])
  | IPlanEnsure id r v from, NoAnswer =>
      let unlock := match from with Some _ => [IReadUnlock] | None => [] end in
      match plan_ensure id r v from s with
      | None => go s unlock
      | Some (s, started, demoted) =>
          go s ((if started || demoted then [IPersist] else []) ++
                [if demoted then IEmitTerminal id else IEmit id] ++ unlock ++
                (if started then [ISpawn id]
                 else match from with None => [IReadyRef id r v] | Some _ => [] end))
      end
  | IReadyRef id r v, NoAnswer =>
      match m_records s !! id, m_ops s !! id with
      | Some rec, None =>
          go s (if bool_decide (ir_state rec = Ready) && str_eqb (ir_version rec) v
                then [IStartCheck id (ir_ref rec) r v] else [])
      | _, _ => go s []
      end
  | IStartCheck id recorded r v, NoAnswer =>
      if bool_decide (id ∈ m_ready_checks s) then go s []
      else Some (with_ready_checks ({[id]} ∪ m_ready_checks s) s, [], [[IPresent id recorded r v; ICheckDone id]])
  | IPresent id recorded r v, AnsPresent present =>
      go s (if bool_decide (present = Some false) then [IDemote id recorded r v] else [])
  | IDemote id recorded r v, NoAnswer => admit_read s [IPlanEnsure id r v (Some recorded)]
  | ICheckDone id, NoAnswer => go (with_ready_checks (m_ready_checks s ∖ {[id]}) s) []
  | IBuild cmd id op, NoAnswer => admit_read s [IBuildBody cmd id op; IReadUnlock]
  | IBuildBody cmd id op, NoAnswer =>
      match op with
      | Build v tag url subdir dockerfile args =>
          go s (if negb (is_ok (validate_context_url url (parse_hosts source_hosts)))
                then [IAck cmd false (Some "disallowed build source")]
                else if negb (build_fields_ok id url subdir dockerfile tag v args)
                then [IAck cmd false (Some "malformed image_build: image_id/local_tag/context")]
                else if negb (has_op_capacity s id) then [IAck cmd false (Some "image operation queue full")]
                else if m_cleanup s then [IBuildRemember cmd id op]
                else [IPlanBuild id op; IAck cmd true None])
      | _ => blocked
      end
  | IBuildRemember cmd id op, AnsRemember ok =>
      go s (if ok then [IVersionSnapshot; IPlanBuild id op; IAck cmd true None]
            else [IAck cmd false (Some "image inventory persistence unavailable")])
  | IPlanBuild id op, NoAnswer =>
      let '(s, started) := plan_build id op s in
      go s ((if started then [IPersist] else []) ++ [IEmit id] ++ (if started then [ISpawn id] else []))
  | IRemove cmd id, NoAnswer => admit_read s [IRemoveBody cmd id; IReadUnlock]
  | IRemoveBody cmd id, NoAnswer =>
      go s (if remove_malformed id then [IAck cmd false (Some "malformed image_remove: image_id")]
            else if negb (has_op_capacity s id) then [IAck cmd false (Some "image operation queue full")]
            else [IPlanRemove id; IAck cmd true None])
  | IPlanRemove id, NoAnswer =>
      let '(s, d) := plan_remove id s in
      go s (match d with
            | AbsentUnknown => [ISend (absent_msg id)]
            | StartOp _ => [ISpawn id]
            | _ => [IEmit id]
            end)
  | IAck _ _ _, NoAnswer => go s []
  | IReadUnlock, NoAnswer => go (with_admission (pred (m_readers s)) (m_writer s) s) []
  | _, _ => blocked
  end.

(** Persisting and sending. *)
Definition exec_send (i : Instr) (ans : Answer) (s : Mgr) : Outcome :=
  match i, ans with
  | IPersist, AnsWrite saved => go (if saved then with_saved (m_records s) s else s) []
  | IEmit id, NoAnswer => go s (match state_msg s id with Some m => [ISend m] | None => [] end)
  | ISend m, NoAnswer => go (snd (send_upstream m s)) []
  | IEmitTerminal id, NoAnswer =>
      if m_pending_held s then blocked
      else go (with_pending true (m_terminal_pending s) s) [ITerminalSend id (state_msg s id)]
  | ITerminalSend id m, NoAnswer =>
      let '(sent, s) := send_opt m s in
      go (with_pending false (if sent then m_terminal_pending s ∖ {[id]} else {[id]} ∪ m_terminal_pending s) s) []
  | IFlushTerminal, NoAnswer =>
      if m_pending_held s then blocked else go (foldr flush_one s (elements (m_terminal_pending s))) []
  | IVersionSnapshot, AnsSnapshot sends
  | IRefreshInventory, AnsSnapshot sends =>
      go (if sends && m_cleanup s then snd (send_upstream VersionsMsg s) else s) []
  | IBlockingSend m, NoAnswer => go s (match m_upstream s with Some c => [IBlocked c m] | None => [] end)
  | IBlocked c m, NoAnswer =>
      if bool_decide (m_upstream s = Some c)
      then if (length (m_queue s) <? IMAGE_CHANNEL)%nat then go (with_queue (m_queue s ++ [m]) s) [] else blocked
      else go s []
  | _, _ => blocked
  end.

(** The worker of an image. *)
Definition exec_worker (i : Instr) (ans : Answer) (s : Mgr) : Outcome :=
  match i, ans with
  | ISpawn id, NoAnswer => Some (s, [], [[IWorker id]])
  | IWorker id, NoAnswer =>
      go s (match m_ops s !! id with
            | Some slot => [ILockImage id (sl_running slot) (sl_generation slot)]
            | None => []
            end)
  | ILockImage id op g, NoAnswer =>
      if bool_decide (id ∈ m_image_locks s) then blocked
      else go (with_image_locks ({[id]} ∪ m_image_locks s) s) [IStage id op g; IRefreshInventory; IPromote id]
  | IUnlockImage id, NoAnswer => go (with_image_locks (m_image_locks s ∖ {[id]}) s) []
  | IStage id op g, NoAnswer =>
      match op with
      | Remove => go s [IRemoveRef id g]
      | _ => go (with_records (stage_op id op (m_records s)) s) [IPersist; IEmit id; IAcquire id op g]
      end
  | IAcquire id op g, NoAnswer =>
      match m_permits s with
      | O => blocked
      | S n => go (with_permits n s) [IDisk id op g; IReleasePermit]
      end
  | IReleasePermit, NoAnswer => go (with_permits (S (m_permits s)) s) []
  | IDisk id op g, AnsFree free_mb =>
      go s (match disk_check (bool_decide (op_state op = Building)) free_mb with
            | Some err => conclude id g (CFailed err) []
            | None => [ICommit id g (CProgress (op_state op) 0 0); IPersist; IEmit id; IWork id (Obtain op) g]
            end)
  | IWork id w g, AnsWork WBusy => go s [IRetry id w g]
  | IWork id (Obtain op) g, AnsWork (WProgress pct bytes) =>
      go s [ICommit id g (CProgress (op_state op) pct (if bool_decide (op_state op = Building) then 0%Z else bytes));
            IEmit id; IWork id (Obtain op) g]
  | IWork id (Obtain op) g, AnsWork (WDone bytes) =>
      go (with_seen ({[op_ref op]} ∪ m_seen s) s) (conclude id g (CReady bytes) [INotify id true])
  | IWork id (Drop _) g, AnsWork (WDone _) => go s (conclude id g CAbsent [INotify id false])
  | IWork id _ g, AnsWork (WFailed e) => go s (conclude id g (CFailed e) [])
  | IRetry id w g, AnsDeadline past =>
      go s (if negb (is_latest_intent s id g) then []
            else if past then conclude id g (CFailed (map_runtime_error EngineBusy)) []
            else [IWork id w g])
  | ICommit id g c, NoAnswer =>
      go s (if should_commit (sl_generation <$> m_ops s !! id) g then [IApply id c] else [])
  | IApply id c, NoAnswer => go (with_records (alter (apply_change c) id (m_records s)) s) []
  | INotify _ _, NoAnswer => go s []
  | IRemoveRef id g, NoAnswer =>
      let image_ref := default EmptyString (ir_ref <$> m_records s !! id) in
      go s (if str_eqb image_ref EmptyString then conclude id g CAbsent [] else [IWork id (Drop image_ref) g])
  | IPromote id, NoAnswer =>
      let '(s, promoted) := promote id s in
      go s (IUnlockImage id :: if promoted then [IWorker id] else [])
  | _, _ => blocked
  end.

(** The connection: attaching, and what the daemon says of the recorded images. *)
Definition exec_connection (i : Instr) (ans : Answer) (s : Mgr) : Outcome :=
  match i, ans with
  | IAttach, NoAnswer =>
      go (with_upstream (Some (S (m_conns s))) (S (m_conns s)) [] s)
         ((if m_cleanup s
           then ISend VersionsMsg :: map (λ a, ISend (CleanupStateMsg a)) (terminal (m_journal s)) else []) ++ [IFlushOpFree])
  | IFlushOpFree, NoAnswer => go s (map (λ x, IEmitTerminal (fst x)) (op_free s))
  | IRefreshImages, NoAnswer =>
      go s [IReconcile (map (λ x, (fst x, ir_ref (snd x), ir_state (snd x))) (op_free s)) false]
  | IReconcile [] changed, NoAnswer => go s (if changed then [IPersist] else [])
  | IReconcile ((id, registry_ref, was) :: todo) changed, AnsPresent present =>
      let seen s := if bool_decide (present = Some true) then with_seen ({[registry_ref]} ∪ m_seen s) s else s in
      let now := if str_eqb registry_ref EmptyString then Some Absent
                 else (λ b : bool, if b then Ready else Absent) <$> present in
      match now with
      | None => go s [IReconcile todo changed]
      | Some now =>
          if bool_decide (now = was) then go (seen s) [IReconcile todo changed]
          else let '(s, moved) := reconcile_one id registry_ref was now s in
               go (seen s) [IReconcile todo (changed || moved)]
      end
  | _, _ => blocked
  end.

(** Exact cleanup. *)
Definition exec_cleanup (i : Instr) (ans : Answer) (s : Mgr) : Outcome :=
  match i, ans with
  | ICleanup cmd a, NoAnswer =>
      if negb (m_cleanup s) then go s [IAck cmd false (Some "unsupported")]
      else match begin_known (cj_inner (m_journal s)) a with
           | Some b => finish_reply cmd b a s
           | None => go s [IBeginAppend cmd a]
           end
  | IBeginAppend cmd a, AnsSave io =>
      let '(b, journal) := journal_update io (begin_append a) (m_journal s) in
      let s := with_journal journal s in
      match b with Some b => finish_reply cmd b a s | None => go s [] end
  | IRunCleanup cmd a, NoAnswer =>
      if m_writer s || negb (m_readers s =? 0)%nat then blocked
      else go (with_admission 0 true s) [ICleanupLock cmd a; IWriteUnlock]
  | ICleanupLock cmd a, NoAnswer =>
      if bool_decide (at_image a ∈ m_image_locks s) then blocked
      else go (with_image_locks ({[at_image a]} ∪ m_image_locks s) s) [ICleanupCheck cmd a; IUnlockImage (at_image a)]
  | ICleanupCheck cmd a, AnsRefusal reason =>
      let refusal :=
        if cleanup_malformed (at_image a) (at_version a) (at_ref a) (at_runtime a) (at_generation a)
        then Some "unsupported"
        else if negb (bool_decide (m_ops s = ∅)) then Some "operation_busy" else reason in
      match refusal with
      | Some r => go s [IFinish cmd a "failed" (Some r) false]
      | None => go (with_asked (m_asked s ++ [at_id a]) s) [IExactRemove cmd a]
      end
  | IExactRemove cmd a, AnsExact r =>
      go s (match r with
            | Some ExReferenced => [IFinish cmd a "failed" (Some "reference_in_use") false]
            | Some ExIdentityMismatch => [IFinish cmd a "failed" (Some "identity_mismatch") false]
            | Some (ExRemoved | ExAbsent) => [IFinish cmd a "removed" None true]
            | Some ExStillPresent => [IFinish cmd a "failed" (Some "image_ref_remains") true]
            | None => [IFinish cmd a "unknown" (Some "runtime_unavailable") true]
            end)
  | IFinish cmd a state reason ok, AnsSave io =>
      let '(done, journal) := finish io (at_id a) state reason (m_journal s) in
      go (with_journal journal s)
         (match done with
          | Some (Some done) =>
              [IBlockingSend (AckMsg cmd ok (if ok then None else reason)); IBlockingSend (CleanupStateMsg done)] ++
              (if str_eqb state "removed" then [IRefreshInventory] else [])
          | _ => []
          end)
  | IWriteUnlock, NoAnswer => go (with_admission (m_readers s) false s) []
  | IJournalRequest cmd ids, AnsSave io =>
      if negb (m_cleanup s) then go s [IAck cmd false (Some "unsupported")]
      else let '(retired, journal) := snapshot io ids (m_journal s) in
           go (with_journal journal s)
              (match retired with
               | Some retired => [ISend (CleanupJournalMsg cmd retired (attempts_of (cj_inner journal))); IAck cmd true None]
               | None => [IAck cmd false (Some "operation_busy")]
               end)
  | IStateAck cmd id generation, AnsSave io =>
      if negb (m_cleanup s) then go s [IAck cmd false (Some "unsupported")]
      else let '(r, journal) := retire_terminal io id generation (m_journal s) in
           go (with_journal journal s)
              [match r with
               | Some true => IAck cmd true None
               | Some false => IAck cmd false (Some "identity_mismatch")
               | None => IAck cmd false (Some "operation_busy")
               end]
  | _, _ => blocked
  end.

Inductive Class := CCommand | CSend | CWorker | CConnection | CCleanup.
Definition class_of (i : Instr) : Class :=
  match i with
  | IEnsure _ _ _ _ | IEnsureBody _ _ _ _ | IEnsureRemember _ _ _ _ | IPlanEnsure _ _ _ _ | IReadyRef _ _ _
  | IStartCheck _ _ _ _ | IPresent _ _ _ _ | IDemote _ _ _ _ | ICheckDone _ | IBuild _ _ _ | IBuildBody _ _ _
  | IBuildRemember _ _ _ | IPlanBuild _ _ | IRemove _ _ | IRemoveBody _ _ | IPlanRemove _ | IAck _ _ _ | IReadUnlock => CCommand
  | IPersist | IEmit _ | ISend _ | IEmitTerminal _ | ITerminalSend _ _ | IFlushTerminal | IVersionSnapshot
  | IRefreshInventory | IBlockingSend _ | IBlocked _ _ => CSend
  | ISpawn _ | IWorker _ | ILockImage _ _ _ | IUnlockImage _ | IStage _ _ _ | IAcquire _ _ _ | IReleasePermit
  | IDisk _ _ _ | IWork _ _ _ | IRetry _ _ _ | ICommit _ _ _ | IApply _ _ | INotify _ _ | IRemoveRef _ _ | IPromote _ => CWorker
  | IAttach | IFlushOpFree | IRefreshImages | IReconcile _ _ => CConnection
  | _ => CCleanup
  end.

Definition exec (i : Instr) (ans : Answer) (s : Mgr) : Outcome :=
  match class_of i with
  | CCommand => exec_command i ans s
  | CSend => exec_send i ans s
  | CWorker => exec_worker i ans s
  | CConnection => exec_connection i ans s
  | CCleanup => exec_cleanup i ans s
  end.
End exec.

(** ** The process *)

(** The first thread is the connection's task, which dispatches the control plane's commands and
    empties the channel, the second the diagnostic one; the others come and go. *)
Record Sys := mkSys { y_mgr : Mgr; y_threads : list Thread }.

Inductive Command :=
| CmdEnsure (cmd image_id registry_ref version : string)
| CmdBuild (cmd image_id : string) (op : ImageOp)
| CmdRemove (cmd image_id : string)
| CmdCleanup (cmd : string) (a : Attempt)
| CmdJournal (cmd : string) (ids : list string)
| CmdStateAck (cmd attempt_id generation : string).

Definition handler (c : Command) : Instr :=
  match c with
  | CmdEnsure cmd id r v => IEnsure cmd id r v
  | CmdBuild cmd id op => IBuild cmd id op
  | CmdRemove cmd id => IRemove cmd id
  | CmdCleanup cmd a => ICleanup cmd (cleanup_attempt (at_id a) (at_image a) (at_version a) (at_ref a) (at_runtime a) (at_generation a))
  | CmdJournal cmd ids => IJournalRequest cmd ids
  | CmdStateAck cmd id generation => IStateAck cmd id generation
  end.

(** Diagnostic mode refuses the others. *)
Definition diagnostic_command (c : Command) : bool :=
  match c with CmdEnsure _ _ _ _ | CmdBuild _ _ _ | CmdRemove _ _ => true | _ => false end.

(** [ImageManager::new] on one record: what the daemon says of its reference. *)
Definition startup_record (present : string → option bool) (r : ImageRecord) : ImageRecord :=
  let r := mkRec (ir_ref r) (ir_version r) (ir_state r) (ir_progress r) (ir_bytes r) (ir_error r) None in
  if str_eqb (ir_ref r) EmptyString then set_state Absent r
  else match present (ir_ref r) with
       | Some true => set_state Ready r
       | Some false => set_state Absent r
       | None => r
       end.

(** [recover_cleanup]: [gone] says which images a scan, if there was one, did not find. *)
Definition recover_cleanup (gone : Attempt → bool) (io : Attempt → SaveEnd) (j : CleanupJournal) : CleanupJournal :=
  foldl (λ j a, snd (finish (io a) (at_id a) (if gone a then "removed" else "unknown") None j)) j (unfinished j).

(** [ImageManager::new] on the files of the process before. [io] is [None] where there is no engine
    to scan. *)
Definition manager_new (cleanup wrote : bool) (present : string → option bool)
    (scan : option (Attempt → bool)) (io : Attempt → SaveEnd) (s : Mgr) : Mgr :=
  let records := startup_record present <$> m_saved s in
  let journal := journal_open (m_journal s) in
  let seen := list_to_set (filter (λ r, present r = Some true) (map (λ x, ir_ref (snd x)) (map_to_list (m_saved s)))) in
  mkMgr records ∅ 0 (if wrote then records else m_saved s) MAX_CONCURRENT_PULLS None (m_conns s) [] false ∅ ∅ 0 false ∅
    cleanup (match scan with
             | Some gone => if cleanup then recover_cleanup gone io journal else journal
             | None => journal
             end)
    (m_told s) (seen ∪ m_seen s) (m_asked s).

Inductive Event :=
| EvCommand (thread : nat) (c : Command)
| EvDrain
| EvConnect
| EvDisconnect
| EvHeartbeat (refresh : bool)
| EvRestart (cleanup wrote : bool) (present : string → option bool) (scan : option (Attempt → bool)) (io : Attempt → SaveEnd).

Definition idle (y : Sys) (thread : nat) : bool :=
  match y_threads y !! thread with Some [] => true | _ => false end.
Definition give (y : Sys) (thread : nat) (t : Thread) : Sys := mkSys (y_mgr y) (<[thread := t]> (y_threads y)).

(** What happens to the process from outside, between the instructions of the thread it concerns. *)
Definition occur (e : Event) (y : Sys) : option Sys :=
  match e with
  | EvCommand thread c =>
      if idle y thread && (bool_decide (thread = 0) || (bool_decide (thread = 1) && diagnostic_command c))
      then Some (give y thread [handler c]) else None
  | EvDrain =>
      match m_queue (y_mgr y) with
      | m :: q => if idle y 0 then Some (mkSys (with_told (m_told (y_mgr y) ++ [m]) (with_queue q (y_mgr y))) (y_threads y)) else None
      | [] => None
      end
  | EvConnect =>
      if idle y 0 && bool_decide (m_upstream (y_mgr y) = None) then Some (give y 0 [IRefreshImages; IAttach]) else None
  | EvDisconnect =>
      if idle y 0 && negb (bool_decide (m_upstream (y_mgr y) = None))
      then Some (mkSys (with_upstream None (m_conns (y_mgr y)) [] (y_mgr y)) (y_threads y)) else None
  | EvHeartbeat refresh =>
      if idle y 0
      then let y := give y 0 [IFlushTerminal] in
           Some (mkSys (y_mgr y) (y_threads y ++ if refresh then [[IRefreshInventory]] else []))
      else None
  | EvRestart cleanup wrote present scan io =>
      Some (mkSys (manager_new cleanup wrote present scan io (y_mgr y)) [[]; []])
  end.

Section steps.
Variable source_hosts : string.

(** Thread [i] executes its first instruction, answered [ans]. *)
Definition thread_step (i : nat) (ans : Answer) (y : Sys) : option Sys :=
  match y_threads y !! i with
  | Some (ins :: rest) =>
      match exec source_hosts ins ans (y_mgr y) with
      | Some (s, t, spawned) => Some (mkSys s (<[i := t ++ rest]> (y_threads y) ++ spawned))
      | None => None
      end
  | _ => None
  end.

Inductive mgr_step (y y' : Sys) : Prop :=
| step_thread i ans : thread_step i ans y = Some y' → mgr_step y y'
| step_event e : occur e y = Some y' → mgr_step y y'.

(** A host whose state file says [file] and on which nothing was ever removed, before its first process. *)
Definition fresh_host (file : gmap string ImageRecord) : Sys :=
  mkSys (mkMgr ∅ ∅ 0 file 0 None 0 [] false ∅ ∅ 0 false ∅ false (mkCleanup (mkDisk ∅ ∅) (mkDisk ∅ ∅)) []
           (list_to_set (map (λ x, ir_ref (snd x)) (map_to_list file))) []) [].

Definition mgr_reachable (file : gmap string ImageRecord) (y : Sys) : Prop := rtc mgr_step (fresh_host file) y.

(** A schedule: who goes next, with which answers. *)
Inductive Turn := Run (i : nat) (ans : Answer) | Happen (e : Event).

Definition take_turn (t : Turn) (y : Sys) : option Sys :=
  match t with Run i ans => thread_step i ans y | Happen e => occur e y end.

Fixpoint play (l : list Turn) (y : Sys) : option Sys :=
  match l with
  | [] => Some y
  | t :: l => match take_turn t y with Some y => play l y | None => None end
  end.

Lemma play_reaches l : ∀ y y', play l y = Some y' → rtc mgr_step y y'.
Proof.
  induction l as [|t l IH]; simpl; [intros y y' [= <-]; apply rtc_refl|].
  intros y y' H. destruct (take_turn t y) as [y1|] eqn:Ht; [|discriminate].
  eapply rtc_l; [|exact (IH _ _ H)].
  destruct t; [eapply step_thread|eapply step_event]; exact Ht.
Qed.
End steps.
