(* ===== verification/ImageInv.v ===== *)
(** * The threads of the image manager

    What every step of the manager keeps: one worker per operation slot, the locks and permits
    held by exactly the threads that will release them, and for every thread that what it has left
    to do fits the slot and the record of its image. *)
From S2P Require Import Prelude Platform Images ImageCleanup ImageManager.

(** ** Counting instructions *)

Definition weigh (w : Instr → nat) (t : Thread) : nat := sum_list (map w t).
Definition weigh_all (w : Instr → nat) (ts : list Thread) : nat := sum_list (map (weigh w) ts).

Lemma weigh_app w t1 t2 : weigh w (t1 ++ t2) = weigh w t1 + weigh w t2.
Proof. unfold weigh. rewrite map_app. induction t1; simpl in *; lia. Qed.

Lemma weigh_all_app w l1 l2 : weigh_all w (l1 ++ l2) = weigh_all w l1 + weigh_all w l2.
Proof. unfold weigh_all. rewrite map_app. induction l1; simpl in *; lia. Qed.

Lemma weigh_all_insert w ts i t t' : ts !! i = Some t →
  weigh_all w (<[i := t']> ts) + weigh w t = weigh_all w ts + weigh w t'.
Proof.
  revert i. induction ts as [|u ts IH]; intros i H; [discriminate|].
  destruct i as [|i]; simpl in *.
  - injection H as ->. unfold weigh_all. simpl. lia.
  - specialize (IH i H). unfold weigh_all in *. simpl. lia.
Qed.

Lemma weigh_all_lookup w ts i t : ts !! i = Some t → weigh w t ≤ weigh_all w ts.
Proof. intros H. pose proof (weigh_all_insert w ts i t [] H) as E. unfold weigh in E at 2. simpl in E. lia. Qed.

Lemma weigh_all_two w ts i j t u : i ≠ j → ts !! i = Some t → ts !! j = Some u →
  weigh w t + weigh w u ≤ weigh_all w ts.
Proof.
  intros Hij Hi Hj. pose proof (weigh_all_insert w ts i t [] Hi) as E.
  pose proof (weigh_all_lookup w (<[i := []]> ts) j u) as L.
  rewrite list_lookup_insert_ne in L by done. specialize (L Hj). unfold weigh in E at 2. simpl in E. lia.
Qed.

Lemma weigh_elem w t i : i ∈ t → w i ≤ weigh w t.
Proof. induction 1; unfold weigh in *; simpl; lia. Qed.

Lemma weigh_map {A} (f : A → Instr) w l : (∀ x, w (f x) = 0) → weigh w (map f l) = 0.
Proof. intros H. unfold weigh. induction l as [|x l IH]; simpl; rewrite ?H; simpl in *; lia. Qed.

Lemma weigh_cons w i t : weigh w (i :: t) = w i + weigh w t.
Proof. reflexivity. Qed.
Lemma weigh_nil w : weigh w [] = 0.
Proof. reflexivity. Qed.

(** A thread's step, weighed: only what it executed, pushed and started counts. *)
Lemma weigh_step w ts i ins rest t sp : ts !! i = Some (ins :: rest) →
  weigh_all w (<[i := t ++ rest]> ts ++ sp) + w ins = weigh_all w ts + weigh w t + weigh_all w sp.
Proof.
  intros H. pose proof (weigh_all_insert w ts i _ (t ++ rest) H) as E.
  rewrite weigh_all_app. rewrite weigh_app in E. unfold weigh in E at 1. simpl in E. fold (weigh w rest) in E. lia.
Qed.

(** ** Tokens *)

(** The right to work on image [id]. *)
Definition slot_token (id : string) (i : Instr) : nat :=
  match i with
  | ISpawn x | IWorker x | ILockImage x _ _ | IPromote x => if bool_decide (x = id) then 1 else 0
  | _ => 0
  end.
(** A permit to give back, the admission lock held as reader and as writer, an image's lock. *)
Definition permit_token (i : Instr) : nat := match i with IReleasePermit => 1 | _ => 0 end.
Definition reader_token (i : Instr) : nat := match i with IReadUnlock | IPlanEnsure _ _ _ (Some _) => 1 | _ => 0 end.
Definition writer_token (i : Instr) : nat := match i with IWriteUnlock => 1 | _ => 0 end.
Definition lock_token (id : string) (i : Instr) : nat :=
  match i with IUnlockImage x | IPromote x => if bool_decide (x = id) then 1 else 0 | _ => 0 end.

Definition has_slot (s : Mgr) (id : string) : nat := if bool_decide (is_Some (m_ops s !! id)) then 1 else 0.
Definition holds_lock (s : Mgr) (id : string) : nat := if bool_decide (id ∈ m_image_locks s) then 1 else 0.

(** Case analysis of [exec]: the instruction, the answer, and every test it makes. *)
Ltac exec_cases H :=
  unfold exec in H;
  match type of H with context [class_of ?i] => destruct i; simpl class_of in H; cbv match in H end;
  unfold exec_command, exec_send, exec_worker, exec_connection, exec_cleanup, admit_read, finish_reply, go, blocked in H;
  repeat (match type of H with
          | context [match ?x with _ => _ end] => first [is_var x; destruct x | destruct x eqn:?]
          end; try discriminate H);
  try discriminate H.

(** ** What the helpers leave alone *)

(** The locks and permits. *)
Definition locks (s : Mgr) := (m_permits s, m_image_locks s, m_readers s, m_writer s).
(** The images. *)
Definition images (s : Mgr) := (m_records s, m_ops s, m_seen s).

#[global] Arguments locks : simpl never.
#[global] Arguments images : simpl never.

Lemma send_frame msg s : locks (snd (send_upstream msg s)) = locks s ∧ images (snd (send_upstream msg s)) = images s.
Proof. unfold send_upstream. destruct (m_upstream s); [case_match|]; done. Qed.
Lemma send_opt_frame msg s : locks (snd (send_opt msg s)) = locks s ∧ images (snd (send_opt msg s)) = images s.
Proof. destruct msg; [apply send_frame|done]. Qed.

Lemma flush_one_frame id s : locks (flush_one id s) = locks s ∧ images (flush_one id s) = images s.
Proof.
  unfold flush_one. case_match; [done|]. pose proof (send_opt_frame (state_msg s id) s) as [L I].
  destruct (send_opt _ s) as [[] s1]; simpl in *; done.
Qed.
Lemma flush_frame l s : locks (foldr flush_one s l) = locks s ∧ images (foldr flush_one s l) = images s.
Proof.
  induction l as [|x l [L I]]; simpl; [done|]. destruct (flush_one_frame x (foldr flush_one s l)) as [L' I'].
  rewrite L', I'. done.
Qed.

(** Planning, promoting and reconciling touch the records, the slots and the generations alone. *)
Definition reworked (s s' : Mgr) : Prop :=
  s' = with_records (m_records s') (with_ops (m_ops s') (with_generations (m_generations s') s)).

Lemma reworked_refl s : reworked s s.
Proof. by destruct s. Qed.
Lemma reworked_trans s1 s2 s3 : reworked s1 s2 → reworked s2 s3 → reworked s1 s3.
Proof. unfold reworked. intros E1 E2. rewrite E1 in E2. exact E2. Qed.

(** What else there is stays. *)
Lemma reworked_frame {X} (f : Mgr → X) s s' :
  (∀ r o g s, f (with_records r (with_ops o (with_generations g s))) = f s) → reworked s s' → f s' = f s.
Proof. intros F ->. apply F. Qed.

Lemma start_op_reworked id op s : reworked s (start_op id op s).
Proof. unfold start_op. by destruct op. Qed.
Lemma queue_op_reworked id op s : reworked s (queue_op id op s).
Proof. unfold queue_op. case_match; [done|apply reworked_refl]. Qed.
Lemma planned_reworked id r v d s : reworked s (fst (fst (planned id r v d s))).
Proof.
  unfold planned. destruct (decide_ensure _ _ _ _ _) as [|op|op|]; cbn [fst]; auto using reworked_refl, queue_op_reworked.
  destruct (d && _)%bool; cbn [fst]; auto using reworked_refl, start_op_reworked.
Qed.
Lemma demote_reworked id v r s s' : demote id v r s = Some s' → reworked s s'.
Proof. unfold demote. repeat case_match; intros [= <-]; done. Qed.
Lemma plan_ensure_reworked id r v from s s' a b : plan_ensure id r v from s = Some (s', a, b) → reworked s s'.
Proof.
  unfold plan_ensure. destruct from as [rec|].
  - destruct (demote id v rec s) as [s1|] eqn:D; [|done]. intros [= H]. pose proof (planned_reworked id r v true s1) as L.
    rewrite H in L. eapply reworked_trans; [by eapply demote_reworked|exact L].
  - intros [= H]. pose proof (planned_reworked id r v false s) as L. by rewrite H in L.
Qed.
Lemma plan_build_reworked id op s : reworked s (fst (plan_build id op s)).
Proof. unfold plan_build. destruct (decide_build _ _ _ _ _); cbn [fst]; auto using reworked_refl, start_op_reworked, queue_op_reworked. Qed.
Lemma plan_remove_reworked id s : reworked s (fst (plan_remove id s)).
Proof. unfold plan_remove. cbn [fst]. destruct (decide_remove _ _ _); auto using reworked_refl, start_op_reworked, queue_op_reworked. Qed.
Lemma promote_reworked id s : reworked s (fst (promote id s)).
Proof. unfold promote. repeat case_match; done || apply reworked_refl. Qed.
Lemma reconcile_one_reworked id r was now s : reworked s (fst (reconcile_one id r was now s)).
Proof. unfold reconcile_one. repeat case_match; done || apply reworked_refl. Qed.

(** Every such equation of a case of [exec], as a [reworked]. *)
Ltac reworked_facts :=
  repeat match goal with
  | H : plan_ensure _ _ _ _ ?s = Some (?s1, _, _) |- _ => apply plan_ensure_reworked in H
  | H : plan_build ?id ?op ?s = (?s1, _) |- _ =>
      let R := fresh "R" in pose proof (plan_build_reworked id op s) as R; rewrite H in R; cbn [fst] in R; clear H
  | H : plan_remove ?id ?s = (?s1, _) |- _ =>
      let R := fresh "R" in pose proof (plan_remove_reworked id s) as R; rewrite H in R; cbn [fst] in R; clear H
  | H : promote ?id ?s = (?s1, _) |- _ =>
      let R := fresh "R" in pose proof (promote_reworked id s) as R; rewrite H in R; cbn [fst] in R; clear H
  | H : reconcile_one ?id ?r ?w ?n ?s = (?s1, _) |- _ =>
      let R := fresh "R" in pose proof (reconcile_one_reworked id r w n s) as R; rewrite H in R; cbn [fst] in R; clear H
  end.
(** Closes [f s' = f s] from them. *)
Ltac reworked_done :=
  reworked_facts; match goal with R : reworked ?s ?s1 |- ?f ?s2 = _ => exact (reworked_frame f s s1 (λ _ _ _ _, eq_refl) R) end.

(** Every locks equation a case of [exec] leaves, in its projections. *)
Ltac locks_facts :=
  reworked_facts; repeat match goal with
  | R : reworked ?s ?s1 |- _ => apply (reworked_frame locks s s1 (λ _ _ _ _, eq_refl)) in R
  | H : send_opt ?m ?s = (?s1, _) |- _ => pose proof (proj1 (send_opt_frame m s)); rewrite H in *; clear H
  | H : send_opt ?m ?s = (_, ?s1) |- _ => pose proof (proj1 (send_opt_frame m s)); rewrite H in *; clear H
  | |- context [snd (send_upstream ?m ?s)] => let n := fresh "sx" in pose proof (proj1 (send_frame m s)); set (n := snd (send_upstream m s)) in *; clearbody n
  | |- context [foldr flush_one ?s ?l] => let n := fresh "sx" in pose proof (proj1 (flush_frame l s)); set (n := foldr flush_one s l) in *; clearbody n
  end; unfold locks in *; simpl in *;
  repeat match goal with H : (_, _, _, _) = (_, _, _, _) |- _ => injection H; clear H; intros end;
  repeat match goal with
  | H : m_permits _ = m_permits _ |- _ => rewrite ?H in *; clear H
  | H : m_image_locks _ = m_image_locks _ |- _ => rewrite ?H in *; clear H
  | H : m_readers _ = m_readers _ |- _ => rewrite ?H in *; clear H
  | H : m_writer _ = m_writer _ |- _ => rewrite ?H in *; clear H
  end.

Ltac weigh_simpl :=
  unfold conclude; repeat (progress (cbn [app map weigh_all sum_list]) ||
    rewrite ?weigh_app, ?weigh_cons, ?weigh_nil, ?weigh_map by done).

(** What [exec] does to the locks is what its tokens say. *)
Ltac balance :=
  let H := fresh "H" in
  intros H; exec_cases H; injection H as <- <- <-; locks_facts; weigh_simpl; unfold weigh_all; simpl; try lia.

Definition writing (s : Mgr) : nat := if m_writer s then 1 else 0.

Section balance.
Context (h : string).

Lemma bal_permit i ans s s' t sp : exec h i ans s = Some (s', t, sp) →
  m_permits s' + weigh permit_token t + weigh_all permit_token sp = m_permits s + permit_token i.
Proof. balance. Qed.

Lemma bal_reader i ans s s' t sp : reader_token i ≤ m_readers s → exec h i ans s = Some (s', t, sp) →
  m_readers s' + reader_token i = m_readers s + weigh reader_token t + weigh_all reader_token sp.
Proof.
  intros Hr. balance; simpl in Hr; try lia.
  destruct (m_writer s); [done|]. destruct (Nat.eqb_spec (m_readers s) 0) as [->|]; done.
Qed.

Lemma bal_writer i ans s s' t sp : writer_token i ≤ writing s → exec h i ans s = Some (s', t, sp) →
  writing s' + writer_token i = writing s + weigh writer_token t + weigh_all writer_token sp.
Proof. intros Hr. unfold writing in *. balance; simpl in Hr; destruct (m_writer s); done || lia. Qed.

Lemma excl_step i ans s s' t sp : (m_writer s = true → m_readers s = 0) → exec h i ans s = Some (s', t, sp) →
  m_writer s' = true → m_readers s' = 0.
Proof. intros Hx. balance; intros; try congruence; try done; rewrite ?Hx by done; lia || auto. Qed.

Lemma bal_lock id i ans s s' t sp : lock_token id i ≤ holds_lock s id → exec h i ans s = Some (s', t, sp) →
  holds_lock s' id + lock_token id i = holds_lock s id + weigh (lock_token id) t + weigh_all (lock_token id) sp.
Proof.
  intros Hr. unfold holds_lock in *. balance; simpl in Hr;
    repeat case_bool_decide; subst; try lia; exfalso; set_solver.
Qed.
End balance.
