(* ===== verification/ImageThreads.v ===== *)
(** * What a worker has left to do

    For every image and thread, what the thread has left fits the image's slot and record: its
    generation and operation are the slot's, what it will commit is what it staged, and when it
    gives the slot up the record is settled. *)
From S2P Require Import Prelude Platform Images ImageCleanup ImageManager ImageInv.

(** ** Steps seen from one image *)

(** The slot is the same, but for a request queued behind it. *)
Definition same_slot (a b : OpSlot) : Prop :=
  sl_running b = sl_running a ∧ sl_generation b = sl_generation a ∧ (sl_pending a ≠ None → sl_pending b ≠ None).

Lemma same_slot_refl a : same_slot a a.
Proof. done. Qed.
#[export] Hint Resolve same_slot_refl : quasar.

(** What a step may do to image [id], unless it is a step of the image's worker. *)
Inductive moved (s s' : Mgr) (id : string) : Prop :=
| mv_slot sl sl' : m_ops s !! id = Some sl → m_ops s' !! id = Some sl' → same_slot sl sl' →
    m_records s' !! id = m_records s !! id → moved s s' id
| mv_free : m_ops s !! id = None → m_ops s' !! id = None →
    m_records s' !! id = m_records s !! id → moved s s' id
| mv_absent r : m_ops s !! id = None → m_ops s' !! id = None →
    m_records s !! id = Some r → m_records s' !! id = Some (mark_absent r) → moved s s' id
| mv_ready r : m_ops s !! id = None → m_ops s' !! id = None →
    m_records s !! id = Some r → m_records s' !! id = Some (set_state Ready r) → ir_ref r ∈ m_seen s' → moved s s' id
| mv_start op g : m_ops s !! id = None → m_ops s' !! id = Some (mkSlot op g None) →
    (∀ r, m_records s' !! id = Some r → ir_state r = Ready → m_records s !! id = Some r) → moved s s' id.

Lemma moved_same s s' id : m_ops s' !! id = m_ops s !! id → m_records s' !! id = m_records s !! id → moved s s' id.
Proof.
  intros O R. destruct (m_ops s !! id) as [sl|] eqn:E.
  - by eapply mv_slot; [exact E|exact O|apply same_slot_refl|].
  - by apply mv_free.
Qed.

Lemma moved_images s s' id : images s' = images s → moved s s' id.
Proof. intros [= R O _]. apply moved_same; by rewrite ?R, ?O. Qed.

Lemma start_op_ops id op s x : m_ops (start_op id op s) !! x =
  if bool_decide (x = id) then Some (mkSlot op (m_generations s + 1) None) else m_ops s !! x.
Proof. unfold start_op. destruct op; simpl; case_bool_decide; subst; by rewrite ?lookup_insert_eq, ?lookup_insert_ne. Qed.

Lemma start_op_records id op s x : m_records (start_op id op s) !! x =
  if bool_decide (x = id ∧ op ≠ Remove)
  then Some (stage (op_state op) (op_ref op) (op_version op) (default empty_record (m_records s !! id)))
  else m_records s !! x.
Proof.
  unfold start_op, stage_op, stage_in. destruct op; simpl; case_bool_decide as E; destruct_and?; subst;
    rewrite ?lookup_insert_eq, ?lookup_insert_ne by naive_solver; naive_solver.
Qed.

Lemma start_moved id op s x : m_ops s !! id = None → moved s (start_op id op s) x.
Proof.
  intros N. destruct (decide (x = id)) as [->|Hx].
  - eapply (mv_start _ _ _ op); [done|rewrite start_op_ops, bool_decide_true by done; reflexivity|].
    intros r. rewrite start_op_records. case_bool_decide as E; [|done].
    intros [= <-]. simpl. by destruct op.
  - apply moved_same; [rewrite start_op_ops|rewrite start_op_records]; rewrite bool_decide_false; naive_solver.
Qed.

Lemma queue_moved id op s x : moved s (queue_op id op s) x.
Proof.
  unfold queue_op. destruct (m_ops s !! id) as [sl|] eqn:E; [|by apply moved_same].
  destruct (decide (x = id)) as [->|Hx].
  - eapply mv_slot; [exact E|simpl; by rewrite lookup_insert_eq|done|done].
  - apply moved_same; simpl; by rewrite ?lookup_insert_ne.
Qed.

(** An operation starts only where none runs. *)
Lemma decide_want_start existing running pending want v op :
  decide_want existing running pending want v = StartOp op → running = None ∧ op = want.
Proof. unfold decide_want. repeat case_match; naive_solver. Qed.

Lemma slot_running_none s id : slot_running s id = None → m_ops s !! id = None.
Proof. unfold slot_running. by destruct (m_ops s !! id). Qed.

Lemma planned_moved id r v d s x : moved s (fst (fst (planned id r v d s))) x.
Proof.
  unfold planned. destruct (decide_ensure _ _ _ _ _) as [|op|op|] eqn:D; simpl; try (by apply moved_same).
  - case_match; simpl; [by apply moved_same|]. apply start_moved.
    apply decide_want_start in D as [N _]. by apply slot_running_none.
  - apply queue_moved.
Qed.

Lemma plan_build_moved id op s x : moved s (fst (plan_build id op s)) x.
Proof.
  unfold plan_build. destruct (decide_build _ _ _ _ _) as [|op'|op'|] eqn:D; simpl; try (by apply moved_same).
  - apply start_moved. apply decide_want_start in D as [N _]. by apply slot_running_none.
  - apply queue_moved.
Qed.

Lemma plan_remove_moved id s x : moved s (fst (plan_remove id s)) x.
Proof.
  unfold plan_remove. simpl. destruct (decide_remove _ _ _) as [|op|op|] eqn:D; try (by apply moved_same).
  - apply start_moved. apply slot_running_none. unfold decide_remove in D. repeat case_match; naive_solver.
  - apply queue_moved.
Qed.

Lemma planned_quiet id r v d s x : let s' := fst (fst (planned id r v d s)) in
  m_ops s' !! x = None → m_records s' !! x = m_records s !! x.
Proof.
  simpl. unfold planned. destruct (decide_ensure _ _ _ _ _) as [|op|op|]; simpl; try done.
  - destruct (d && _)%bool; simpl; [done|]. rewrite start_op_ops, start_op_records.
    case_bool_decide; [done|]. rewrite bool_decide_false by naive_solver. done.
  - unfold queue_op. case_match; done.
Qed.

(** Demoting a record and then planning its ensure. *)
Lemma demoted_moved id r v from s s1 x : demote id v from s = Some s1 →
  moved s (fst (fst (planned id r v true s1))) x.
Proof.
  unfold demote. destruct (m_records s !! id) as [rc|] eqn:R; [|done]. destruct (m_ops s !! id) eqn:O; [done|].
  case_match; [|done]. intros [= <-]. set (s1 := with_records _ s).
  pose proof (planned_moved id r v true s1 x) as M. pose proof (planned_quiet id r v true s1 x) as Q.
  cbv zeta in Q. set (s' := fst (fst (planned id r v true s1))) in *. clearbody s'.
  assert (O1 : m_ops s1 = m_ops s) by done.
  assert (R1 : m_records s1 !! x = if decide (x = id) then Some (mark_absent rc) else m_records s !! x).
  { unfold s1. cbn [m_records with_records]. destruct (decide (x = id)) as [E|E]; [by rewrite E, lookup_insert_eq|by rewrite lookup_insert_ne]. }
  clearbody s1. destruct (decide (x = id)) as [->|Hx].
  - destruct (m_ops s' !! id) as [sl|] eqn:E; [|eapply mv_absent; [done..|rewrite Q by done; exact R1]].
    inversion M as [sl1 sl' H1|?|?|?|op g H1 H2 H3]; try congruence.
    eapply mv_start; [done|exact H2|]. intros r2 E2 S. specialize (H3 _ E2 S). rewrite R1 in H3. by injection H3 as <-.
  - destruct M; rewrite ?O1, ?R1 in *; [by eapply mv_slot|by apply mv_free|by eapply mv_absent|by eapply mv_ready|by eapply mv_start].
Qed.

Lemma plan_ensure_moved id r v from s s' a b x : plan_ensure id r v from s = Some (s', a, b) → moved s s' x.
Proof.
  unfold plan_ensure. destruct from as [rec|].
  - destruct (demote id v rec s) as [s1|] eqn:D; [|done]. intros [= E].
    pose proof (demoted_moved id r v rec s s1 x D) as M. by rewrite E in M.
  - intros [= E]. pose proof (planned_moved id r v false s x) as M. by rewrite E in M.
Qed.

(** The image a worker's step changes. *)
Definition subject (i : Instr) : option string :=
  match i with IStage id _ _ | IApply id _ | IPromote id => Some id | _ => None end.

Lemma reconcile_moved id r was now s x : now = Ready ∨ now = Absent →
  (now = Ready → r ∈ m_seen s) → moved s (fst (reconcile_one id r was now s)) x.
Proof.
  intros Hn Hs. unfold reconcile_one. destruct (m_ops s !! id) eqn:O; [by apply moved_same|].
  destruct (m_records s !! id) as [rc|] eqn:R; [|by apply moved_same].
  destruct (str_eqb (ir_ref rc) r) eqn:E; simpl; [|by apply moved_same].
  apply str_eqb_true in E. case_bool_decide; simpl; [|by apply moved_same].
  destruct (decide (x = id)) as [->|Hx]; [|by apply moved_same; simpl; rewrite ?lookup_insert_ne].
  destruct Hn as [-> | ->].
  - rewrite bool_decide_true by done. eapply mv_ready; [exact O|exact O|exact R|simpl; by rewrite lookup_insert_eq|].
    simpl. rewrite E. auto.
  - rewrite bool_decide_false by done. eapply mv_absent; [exact O|exact O|exact R|simpl; by rewrite lookup_insert_eq].
Qed.

Lemma moved_weaken s s1 s' x : images s' = images s1 → moved s s1 x → moved s s' x.
Proof.
  intros [= R O S] M. destruct M;
    [eapply mv_slot|apply mv_free|eapply mv_absent|eapply mv_ready|eapply mv_start]; rewrite ?R, ?O, ?S; eauto.
Qed.

Lemma moved_before s s0 s' x : m_records s0 = m_records s → m_ops s0 = m_ops s → moved s0 s' x → moved s s' x.
Proof.
  intros R O M. destruct M;
    [eapply mv_slot|apply mv_free|eapply mv_absent|eapply mv_ready|eapply mv_start]; rewrite <- ?R, <- ?O; eauto.
Qed.

Lemma reconcile_one_seen id r was now s : m_seen (fst (reconcile_one id r was now s)) = m_seen s.
Proof. eapply (reworked_frame m_seen); [done|apply reconcile_one_reworked]. Qed.
(** Reconciling, the images it has just seen included. *)
Lemma reconcile_seen_moved id r was now present s s1 b x :
  now = (if str_eqb r EmptyString then Some Absent else (λ b : bool, if b then Ready else Absent) <$> present) →
  match now with
  | Some now => reconcile_one id r was now s = (s1, b) →
      moved s (if bool_decide (present = Some true) then with_seen ({[r]} ∪ m_seen s1) s1 else s1) x
  | None => True
  end.
Proof.
  intros ->. destruct (str_eqb r EmptyString) eqn:Er.
  - intros H. pose proof (reconcile_moved id r was Absent s x (or_intror eq_refl) ltac:(done)) as M.
    rewrite H in M. simpl in M. case_bool_decide; [|done].
    destruct M; [eapply mv_slot|apply mv_free|eapply mv_absent|eapply mv_ready|eapply mv_start]; simpl; eauto; set_solver.
  - destruct present as [[]|]; simpl; [| |done]; intros H.
    + pose proof (reconcile_moved id r was Ready (with_seen ({[r]} ∪ m_seen s) s) x (or_introl eq_refl) ltac:(set_solver)) as M.
      apply (moved_before s) in M; [|done|done]. eapply moved_weaken; [|exact M].
      pose proof (reconcile_one_seen id r was Ready s) as Q. rewrite H in Q. cbn [fst] in Q.
      unfold reconcile_one in *. simpl in *. unfold images. simpl in *. rewrite Q.
      destruct (m_ops s !! id); [by injection H as <- <-|]. destruct (m_records s !! id); [|by injection H as <- <-].
      case_match; by injection H as <- <-.
    + pose proof (reconcile_moved id r was Absent s x (or_intror eq_refl) ltac:(done)) as M. by rewrite H in M.
Qed.

Lemma promote_moved id s x : x ≠ id → moved s (fst (promote id s)) x.
Proof.
  intros Hx. unfold promote. destruct (m_ops s !! id) as [sl|]; [|by apply moved_same].
  destruct (sl_pending sl); apply moved_same; simpl; by rewrite ?lookup_insert_ne, ?lookup_delete_ne.
Qed.

(** The pairs of a case of [exec], as their projections. *)
Ltac fst_facts :=
  repeat match goal with
  | H : plan_build ?id ?op ?s = (?s1, ?b) |- _ => assert (s1 = fst (plan_build id op s)) as -> by (by rewrite H); clear H
  | H : plan_remove ?id ?s = (?s1, ?b) |- _ => assert (s1 = fst (plan_remove id s)) as -> by (by rewrite H); clear H
  | H : promote ?id ?s = (?s1, ?b) |- _ => assert (s1 = fst (promote id s)) as -> by (by rewrite H); clear H
  | H : send_opt ?m ?s = (?b, ?s1) |- _ => assert (s1 = snd (send_opt m s)) as -> by (by rewrite H); clear H
  end.

Section frame.
Context (h : string).

Lemma seen_grows i ans s s' t sp : exec h i ans s = Some (s', t, sp) → m_seen s ⊆ m_seen s'.
Proof.
  intros H. exec_cases H; injection H as <- <- <-; simpl; try set_solver;
    reworked_facts; repeat match goal with
    | R : reworked ?s ?s1 |- _ => apply (reworked_frame m_seen s s1 (λ _ _ _ _, eq_refl)) in R; rewrite ?R
    end; fst_facts;
    try match goal with
    | |- context [m_seen (snd (send_upstream ?m ?s))] => pose proof (proj2 (send_frame m s)) as F
    | |- context [m_seen (snd (send_opt ?m ?s))] => pose proof (proj2 (send_opt_frame m s)) as F
    | |- context [m_seen (foldr flush_one ?s ?l)] => pose proof (proj2 (flush_frame l s)) as F
    end; try (injection F as _ _ F; rewrite ?F); set_solver.
Qed.

(** A step that is not the worker's. *)
Lemma exec_moved i ans s s' t sp x : exec h i ans s = Some (s', t, sp) → subject i ≠ Some x → moved s s' x.
Proof.
  intros H Hx. destruct (match i with IReconcile _ _ => true | _ => false end) eqn:Hr.
  { destruct i; try discriminate. unfold exec in H. simpl in H. destruct todo as [|[[id r] was] todo].
    { destruct ans; try discriminate. injection H as <- <- <-. by apply moved_same. }
    destruct ans; try discriminate.
    pose proof (λ s1 b, reconcile_seen_moved id r was _ present s s1 b x eq_refl) as M.
    destruct (if str_eqb r EmptyString then _ else _) as [now|]; [|injection H as <- <- <-; by apply moved_same].
    destruct (bool_decide (now = was)); [injection H as <- <- <-; case_bool_decide; by apply moved_same|].
    destruct (reconcile_one id r was now s) as [s1 b]. injection H as <- <- <-. exact (M s1 b eq_refl). }
  exec_cases H; injection H as <- <- <-; simpl in Hx; try discriminate Hr; try (by apply moved_same);
    try (by eapply plan_ensure_moved); fst_facts;
    try apply plan_build_moved; try apply plan_remove_moved; try (apply promote_moved; congruence);
    try (apply moved_images, send_frame); try (apply moved_images, flush_frame);
    try (eapply moved_weaken; [reflexivity|]; apply moved_images, send_opt_frame);
    apply moved_same; simpl; unfold stage_op, stage_in; rewrite ?lookup_insert_ne, ?lookup_alter_ne by congruence; done.
Qed.
End frame.

(** ** What is known of an image *)

(** [a_staged] is [None] where it is not known what is staged; [a_settled]: the record says what
    became of the last operation, or another one follows. *)
Record Abs := mkAbs { a_op : ImageOp; a_gen : Z; a_staged : option (option StagedTarget); a_settled : bool }.

Section check.
(** Whether every inspection of the start was answered. *)
Variable strict : bool.

(** A record of an image nobody works on. *)
Definition final (r : ImageRecord) : bool :=
  bool_decide (ir_staged r = None) && (negb strict || bool_decide (ir_state r ∈ [Absent; Ready; Failed])).

Definition settled (s : Mgr) (id : string) (sl : OpSlot) : bool :=
  match m_records s !! id with Some r => final r | None => true end || negb (bool_decide (sl_pending sl = None)).

Definition abs (s : Mgr) (id : string) : option Abs :=
  (λ sl, mkAbs (sl_running sl) (sl_generation sl) (Some (m_records s !! id ≫= ir_staged)) (settled s id sl)) <$> m_ops s !! id.

(** The instructions that presume the image's slot. *)
Definition asserted (i : Instr) : option string :=
  match i with
  | IWorker id | ILockImage id _ _ | IStage id _ _ | IAcquire id _ _ | IDisk id _ _ | IWork id _ _ | IRetry id _ _
  | ICommit id _ _ | IApply id _ | IRemoveRef id _ | IPromote id => Some id
  | _ => None
  end.

Lemma op_state_working op : op_state op ≠ Ready.
Proof. by destruct op. Qed.
#[local] Hint Resolve op_state_working : core.

Definition target (op : ImageOp) : StagedTarget := mkStaged (op_ref op) (op_version op).

Definition obtaining (a : Abs) (op : ImageOp) (g : Z) : Prop :=
  a_op a = op ∧ a_gen a = g ∧ op ≠ Remove ∧ a_staged a = Some (Some (target op)).
Definition working (a : Abs) (w : Work) (g : Z) : Prop :=
  match w with Obtain op => obtaining a op g | Drop _ => a_op a = Remove ∧ a_gen a = g end.
Definition change_ok (seen : gset string) (a : Abs) (c : Change) : Prop :=
  match c with
  | CReady _ => ∃ st, a_staged a = Some (Some st) ∧ sg_ref st ∈ seen
  | CProgress st _ _ => st ≠ Ready
  | _ => True
  end.

(** What an instruction presumes, the rest of its thread being [t]. *)
Definition pre (seen : gset string) (a : Abs) (id : string) (i : Instr) (t : Thread) : Prop :=
  match i with
  | IWorker _ => t = []
  | ILockImage _ op g => a_op a = op ∧ a_gen a = g ∧ t = []
  | IPromote _ => a_settled a = true ∧ t = []
  | IStage _ op g => a_op a = op ∧ a_gen a = g ∧ 1 ≤ weigh (slot_token id) t
  | IAcquire _ op g | IDisk _ op g => obtaining a op g ∧ 1 ≤ weigh (slot_token id) t
  | IWork _ w g | IRetry _ w g => working a w g ∧ 1 ≤ weigh (slot_token id) t
  | IRemoveRef _ g => a_op a = Remove ∧ a_gen a = g ∧ 1 ≤ weigh (slot_token id) t
  | ICommit _ g c => a_gen a = g ∧ change_ok seen a c ∧ 1 ≤ weigh (slot_token id) t
  | IApply _ c => change_ok seen a c ∧ 1 ≤ weigh (slot_token id) t
  | _ => True
  end.

(** What is known once the instruction, and all it pushes, has run. *)
Definition post (a : Abs) (i : Instr) : Abs :=
  match i with
  | ICommit _ _ (CProgress _ _ _) | IApply _ (CProgress _ _ _) => mkAbs (a_op a) (a_gen a) (a_staged a) false
  | IWorker _ | ILockImage _ _ _ | IPromote _ => a
  | _ => mkAbs (a_op a) (a_gen a) None true
  end.

Fixpoint check (seen : gset string) (id : string) (A : option Abs) (t : Thread) : Prop :=
  match t with
  | [] => True
  | i :: t =>
      if bool_decide (asserted i = Some id)
      then match A with Some a => pre seen a id i t ∧ check seen id (Some (post a i)) t | None => False end
      else check seen id A t
  end.

Definition weaker (a b : Abs) : Prop :=
  a_op a = a_op b ∧ a_gen a = a_gen b ∧ (a_staged a = None ∨ a_staged a = a_staged b) ∧
  (a_settled a = true → a_settled b = true).

Lemma weaker_refl a : weaker a a.
Proof. repeat split; auto. Qed.

Lemma change_ok_mono seen seen' a b c : weaker a b → seen ⊆ seen' → change_ok seen a c → change_ok seen' b c.
Proof. intros (_ & _ & S & _) Hs. destruct c; try done. intros (st & E & I). exists st. destruct S as [S|S]; [congruence|]. rewrite <- S. set_solver. Qed.

Lemma obtaining_mono a b op g : weaker a b → obtaining a op g → obtaining b op g.
Proof. intros (O & G & S & _) (<- & <- & R & E). destruct S as [S|S]; [congruence|]. repeat split; congruence. Qed.

Lemma working_mono a b w g : weaker a b → working a w g → working b w g.
Proof.
  intros W. destruct w; simpl; [by apply obtaining_mono|]. destruct W as (O & G & _). intros [<- <-]. by rewrite O, G.
Qed.

Lemma pre_mono seen seen' a b id i t : weaker a b → seen ⊆ seen' → pre seen a id i t → pre seen' b id i t.
Proof.
  intros W Hs. pose proof W as (O & G & S & F).
  destruct i; simpl; rewrite <- ?O, <- ?G; try tauto; intros H; destruct_and?;
    repeat match goal with |- _ ∧ _ => split end; try done;
    eauto using obtaining_mono, working_mono, change_ok_mono.
Qed.

Lemma post_mono a b i : weaker a b → weaker (post a i) (post b i).
Proof. intros (O & G & S & F). destruct i; simpl; try destruct change; repeat split; simpl; auto. Qed.

Lemma check_mono seen seen' id a b t : weaker a b → seen ⊆ seen' → check seen id (Some a) t → check seen' id (Some b) t.
Proof.
  revert a b. induction t as [|i t IH]; intros a b W Hs; simpl; [done|]. case_bool_decide.
  - intros [P C]. split; [by eapply pre_mono|]. eapply IH; [by apply post_mono|done|done].
  - by apply IH.
Qed.

(** A thread that presumes nothing of the image. *)
Definition free (id : string) (t : Thread) : Prop := Forall (λ i, asserted i ≠ Some id) t.

Lemma check_free seen id A t : free id t → check seen id A t.
Proof. induction 1 as [|i t Hi Ht IH]; simpl; [done|]. by rewrite bool_decide_false. Qed.

Lemma check_none seen id t : check seen id None t → free id t.
Proof. induction t as [|i t IH]; simpl; [constructor|]. case_bool_decide; [done|]. intros C. constructor; [done|]. by apply IH. Qed.

Lemma check_app seen id A t u : free id t → check seen id A (t ++ u) ↔ check seen id A u.
Proof. induction 1 as [|i t Hi Ht IH]; simpl; [done|]. by rewrite bool_decide_false. Qed.

(** Whoever presumes an image's slot has the right to work on it. *)
Lemma check_token seen id A t : check seen id A t → free id t ∨ 1 ≤ weigh (slot_token id) t.
Proof.
  revert A. induction t as [|i t IH]; intros A; simpl; [left; constructor|]. rewrite weigh_cons.
  case_bool_decide as E.
  - destruct A as [a|]; [|done]. intros [P _]. right.
    destruct i; simpl in E; try discriminate; injection E as ->; simpl in P |- *; rewrite ?bool_decide_true by done; destruct_and?; lia.
  - intros C. destruct (IH A C); [left; by constructor|right; lia].
Qed.

Lemma settled_le s s' id sl sl' : m_records s' !! id = m_records s !! id → same_slot sl sl' →
  settled s id sl = true → settled s' id sl' = true.
Proof.
  unfold settled. intros -> (_ & _ & P). rewrite !orb_true_iff. intros [H|H]; [by left|right].
  case_bool_decide; [discriminate|]. rewrite bool_decide_false by auto. done.
Qed.

(** A step that is not the worker's leaves every thread fitting. *)
Lemma check_moved s s' id t : moved s s' id → m_seen s ⊆ m_seen s' →
  check (m_seen s) id (abs s id) t → check (m_seen s') id (abs s' id) t.
Proof.
  intros M Hs. unfold abs. destruct M as [sl sl' O O' S R|O O' R|r O O' R R'|r O O' R R'|op g O O' R]; rewrite O, O'; simpl.
  - apply check_mono; [|done]. rewrite R. pose proof S as (S1 & S2 & S3). repeat split; simpl; try congruence; [by right|].
    by eapply settled_le.
  - intros C%check_none. by apply check_free.
  - intros C%check_none. by apply check_free.
  - intros C%check_none. by apply check_free.
  - intros C%check_none. by apply check_free.
Qed.

(** ** The worker's own step *)

Context (h : string).

Lemma exec_free i ans s s' t sp id : exec h i ans s = Some (s', t, sp) → asserted i ≠ Some id → free id t.
Proof.
  intros H Hi. unfold free, conclude in *.
  exec_cases H; injection H as <- <- <-; simpl in Hi; unfold conclude;
    repeat first [apply Forall_app; split | constructor; [simpl; congruence|]
                 | constructor; fail | apply Forall_fmap, Forall_true; done].
Qed.

Lemma exec_spawns i ans s s' t sp u : exec h i ans s = Some (s', t, sp) → u ∈ sp →
  (∀ id, free id u) ∨ ∃ id, i = ISpawn id ∧ u = [IWorker id].
Proof.
  intros H Hu. unfold free.
  exec_cases H; injection H as <- <- <-; simpl in *; try (by apply not_elem_of_nil in Hu);
    apply list_elem_of_singleton in Hu as ->; try (left; intros; repeat constructor; done); right; eauto.
Qed.

Lemma abs_images s s' id : images s' = images s → abs s' id = abs s id.
Proof. intros [= R O _]. unfold abs, settled. by rewrite R, O. Qed.

Lemma abs_images_seen s' s id : m_records s' = m_records s → m_ops s' = m_ops s → abs s' id = abs s id.
Proof. intros R O. unfold abs, settled. by rewrite R, O. Qed.

(** What a commit of [c] leaves. *)
Lemma apply_change_abs c id s sl : m_ops s !! id = Some sl →
  let a := mkAbs (sl_running sl) (sl_generation sl) (Some (m_records s !! id ≫= ir_staged)) (settled s id sl) in
  ∃ b, abs (with_records (alter (apply_change c) id (m_records s)) s) id = Some b ∧ weaker (post a (IApply id c)) b.
Proof.
  intros O a. unfold abs. cbn [m_ops with_records]. rewrite O. eexists. split; [reflexivity|].
  unfold weaker, post, settled; cbn [m_records with_records]. rewrite lookup_alter_eq.
  destruct c; cbn; (split_and!; [done|done| |]).
  - right. by destruct (m_records s !! id).
  - done.
  - by left.
  - intros _. destruct (m_records s !! id) as [r|]; [|done]. simpl. unfold final, mark_ready.
    destruct (ir_staged r); simpl; by rewrite orb_true_r.
  - by left.
  - intros _. destruct (m_records s !! id) as [r|]; [|done]. simpl. unfold final, mark_failed.
    destruct (ir_staged r); [case_match|]; simpl; by rewrite orb_true_r.
  - by left.
  - intros _. destruct (m_records s !! id) as [r|]; [|done]. simpl. unfold final. simpl. by rewrite orb_true_r.
Qed.

Lemma abs_inv s id a : abs s id = Some a → ∃ sl, m_ops s !! id = Some sl ∧
  a = mkAbs (sl_running sl) (sl_generation sl) (Some (m_records s !! id ≫= ir_staged)) (settled s id sl).
Proof. unfold abs. destruct (m_ops s !! id) as [sl|]; [|done]. intros [= <-]. eauto. Qed.

(** The last of a worker's steps on an operation: committed, what follows asks no more of the image. *)
Lemma check_conclude seen id a g c after rest : a_gen a = g → change_ok seen a c → free id after →
  (∀ s0 pct b, c ≠ CProgress s0 pct b) → 1 ≤ weigh (slot_token id) rest →
  check seen id (Some (mkAbs (a_op a) (a_gen a) None true)) rest →
  check seen id (Some a) (conclude id g c after ++ rest).
Proof.
  intros G C Fa Hc Tk R. unfold conclude. simpl. rewrite bool_decide_true by done. split.
  - split_and!; [done|done|]. rewrite !weigh_app. lia.
  - rewrite <- app_assoc. apply check_app; [done|]. simpl. destruct c; try done. by edestruct Hc.
Qed.

(** Executing [i], of the worker of [id], leaves its thread fitting. *)
Definition keeps (id : string) (i : Instr) : Prop :=
  ∀ ans s s' t sp rest, exec h i ans s = Some (s', t, sp) →
  check (m_seen s) id (abs s id) (i :: rest) → check (m_seen s') id (abs s' id) (t ++ rest).

(** The start of every case: the answer, what is known, and what the instruction presumes. *)
Ltac keep :=
  intros ans s s' t sp rest H C; simpl in C; rewrite bool_decide_true in C by done;
  destruct (abs s _) as [a|] eqn:A; [|done]; destruct C as [P C];
  destruct (abs_inv _ _ _ A) as (sl & O & Ea);
  destruct ans; try discriminate H; unfold exec in H; cbn [class_of exec_worker] in H; simpl in P, C.

(** Reduces [check] to what the instructions of the image presume. *)
Ltac check_simpl := simpl; rewrite ?(bool_decide_true (Some _ = Some _)) by done; split_and?.

Lemma keeps_worker id : keeps id (IWorker id).
Proof.
  keep. injection H as <- <- <-. subst rest. rewrite O, A. check_simpl; by subst a.
Qed.

Lemma keeps_lock id op g : keeps id (ILockImage id op g).
Proof.
  keep. case_bool_decide; [discriminate|]. injection H as <- <- <-. destruct P as (P1 & P2 & ->).
  rewrite (abs_images s), A by done. check_simpl; try done.
  rewrite !weigh_cons. simpl. rewrite bool_decide_true by done. lia.
Qed.

Lemma abs_staged s id op sl : m_ops s !! id = Some sl → op ≠ Remove →
  abs (with_records (stage_op id op (m_records s)) s) id =
  Some (mkAbs (sl_running sl) (sl_generation sl) (Some (Some (target op)))
          (settled (with_records (stage_op id op (m_records s)) s) id sl)).
Proof.
  intros O R. unfold abs. cbn [m_ops m_records with_records]. rewrite O. unfold stage_op, stage_in.
  rewrite lookup_insert_eq. simpl. done.
Qed.

Lemma keeps_stage id op g : keeps id (IStage id op g).
Proof.
  keep. destruct P as (P1 & P2 & P3). assert (Hs : weaker (mkAbs (a_op a) (a_gen a) None true) (mkAbs (a_op a) (a_gen a) None true)) by apply weaker_refl.
  assert (E : op = Remove ∨ op ≠ Remove) by (destruct op; auto). destruct E as [->|R].
  - injection H as <- <- <-. rewrite A. check_simpl; done.
  - assert (H' : Some (with_records (stage_op id op (m_records s)) s, [IPersist; IEmit id; IAcquire id op g], []) = Some (s', t, sp))
      by (destruct op; done).
    injection H' as <- <- <-. rewrite (abs_staged s id op sl) by done. subst a. simpl in *.
    check_simpl; [split_and!; done|done|]. by subst.
Qed.

Lemma keeps_acquire id op g : keeps id (IAcquire id op g).
Proof.
  keep. destruct (m_permits s); [discriminate|]. injection H as <- <- <-.
  rewrite (abs_images s), A by done. destruct P as [P1 P2]. check_simpl; [done|by rewrite weigh_cons|done].
Qed.

Lemma keeps_disk id op g : keeps id (IDisk id op g).
Proof.
  keep. destruct P as [P1 P2]. pose proof P1 as (P3 & P4 & P5 & P6).
  destruct (disk_check _ _) as [err|]; injection H as <- <- <-; rewrite A.
  - apply check_conclude; try done; constructor.
  - check_simpl; try done; split_and!; done.
Qed.

Lemma keeps_obtain id op g : keeps id (IWork id (Obtain op) g).
Proof.
  keep. destruct P as [P1 P2]. pose proof P1 as (P3 & P4 & P5 & P6).
  destruct w as [|pct bytes|bytes|e]; injection H as <- <- <-.
  - rewrite A. check_simpl; done.
  - rewrite A. check_simpl; try done; split_and!; done.
  - rewrite (abs_images_seen _ s), A by done. apply check_conclude; try done.
    + exists (target op). split; [done|]. simpl. set_solver.
    + by repeat constructor.
    + eapply check_mono; [apply weaker_refl| |exact C]. simpl. set_solver.
  - rewrite A. apply check_conclude; try done; constructor.
Qed.

Lemma keeps_drop id r g : keeps id (IWork id (Drop r) g).
Proof.
  keep. destruct P as [[P3 P4] P2].
  destruct w as [|pct bytes|bytes|e]; try discriminate H; injection H as <- <- <-; rewrite A.
  - check_simpl; done.
  - apply check_conclude; try done. by repeat constructor.
  - apply check_conclude; try done; constructor.
Qed.

Lemma keeps_retry id w g : keeps id (IRetry id w g).
Proof.
  keep. destruct P as [P1 P2].
  assert (G : a_gen a = g) by (destruct w; [by destruct P1 as (_ & ? & _)|by destruct P1]).
  injection H as <- <- <-. rewrite A. destruct (is_latest_intent s id g) eqn:L; simpl.
  - destruct past; [apply check_conclude; try done; constructor|]. check_simpl; done.
  - eapply check_mono; [|reflexivity|exact C]. subst a. unfold is_latest_intent in L. rewrite O in L. simpl in *.
    rewrite bool_decide_true in L by done. repeat split; simpl; [by left|]. intros _. unfold settled. simpl in L. by rewrite L, orb_true_r.
Qed.

Lemma keeps_commit id g c : keeps id (ICommit id g c).
Proof.
  keep. destruct P as (P1 & P2 & P3). injection H as <- <- <-. rewrite O, A. unfold should_commit. simpl.
  rewrite bool_decide_true by (subst a; simpl in *; congruence). check_simpl; try done. all: by destruct c.
Qed.

Lemma keeps_apply id c : keeps id (IApply id c).
Proof.
  keep. injection H as <- <- <-. destruct (apply_change_abs c id s sl O) as (b & Eb & W).
  rewrite Eb. simpl. eapply check_mono; [|reflexivity|exact C]. subst a. exact W.
Qed.

Lemma keeps_remove_ref id g : keeps id (IRemoveRef id g).
Proof.
  keep. destruct P as (P1 & P2 & P3). injection H as <- <- <-. rewrite A.
  case_match; [apply check_conclude; try done; constructor|]. check_simpl; done.
Qed.

Lemma keeps_promote id : keeps id (IPromote id).
Proof.
  keep. destruct P as [P ->]. unfold promote in H. rewrite O in H.
  destruct (sl_pending sl); injection H as <- <- <-; simpl; [|done].
  rewrite bool_decide_true by done. unfold abs. simpl. rewrite lookup_insert_eq. done.
Qed.

Lemma worker_step i ans s s' t sp id rest : exec h i ans s = Some (s', t, sp) → asserted i = Some id →
  check (m_seen s) id (abs s id) (i :: rest) → check (m_seen s') id (abs s' id) (t ++ rest).
Proof.
  intros H Hi C. enough (K : keeps id i) by exact (K _ _ _ _ _ _ H C).
  destruct i; simpl in Hi; try discriminate Hi; injection Hi as ->;
    try (destruct work);
    auto using keeps_worker, keeps_lock, keeps_stage, keeps_acquire, keeps_disk, keeps_obtain, keeps_drop, keeps_retry, keeps_commit,
      keeps_apply, keeps_remove_ref, keeps_promote.
Qed.
End check.
