(* ===== verification/ImageProcess.v ===== *)
(** * The invariant of the image manager, step by step

    Slots, then the admission lock, the cap and the exact removals. *)
From S2P Require Import Prelude Platform Images ImageCleanup ImageManager ImageInv ImageThreads.

(** * One worker per image

    The tokens of the slots, and the invariant of the whole process: what every reachable state of
    the image manager satisfies, whichever thread goes next. *)

(** ** Slots *)

Lemma has_slot_start id op s x :
  m_ops s !! id = None → has_slot (start_op id op s) x = has_slot s x + if bool_decide (id = x) then 1 else 0.
Proof.
  intros N. unfold has_slot. rewrite start_op_ops. destruct (decide (x = id)) as [->|Hx].
  - rewrite N, !(bool_decide_true (id = id)) by done. reflexivity.
  - rewrite (bool_decide_false (x = id)), (bool_decide_false (id = x)) by done. lia.
Qed.

Lemma has_slot_queue id op s x : has_slot (queue_op id op s) x = has_slot s x.
Proof.
  unfold has_slot, queue_op. destruct (m_ops s !! id) as [sl|] eqn:E; [|done]. simpl.
  destruct (decide (x = id)) as [->|]; [|by rewrite lookup_insert_ne].
  rewrite lookup_insert_eq, E. rewrite !bool_decide_true by eauto. done.
Qed.

Definition started_at (started : bool) (id x : string) : nat := if started && bool_decide (id = x) then 1 else 0.

Lemma planned_slots id r v d s x : let '(s', a, _) := planned id r v d s in
  has_slot s' x = has_slot s x + started_at a id x.
Proof.
  unfold planned, started_at. destruct (decide_ensure _ _ _ _ _) as [|op|op|] eqn:D; simpl; try lia.
  - destruct (d && _)%bool; simpl; [lia|]. apply decide_want_start in D as [N _].
    by rewrite has_slot_start by (by apply slot_running_none).
  - rewrite has_slot_queue. lia.
Qed.

Lemma plan_ensure_slots id r v from s s' a b x : plan_ensure id r v from s = Some (s', a, b) →
  has_slot s' x = has_slot s x + started_at a id x.
Proof.
  unfold plan_ensure, demote. destruct from as [rec|].
  - repeat case_match; try done. intros [= H3].
    pose proof (planned_slots id r v true (with_records (<[id:=mark_absent i]> (m_records s)) s) x) as P.
    rewrite H3 in P. exact P.
  - intros [= H]. pose proof (planned_slots id r v false s x) as P. by rewrite H in P.
Qed.

Lemma plan_build_slots id op s s' a x : plan_build id op s = (s', a) →
  has_slot s' x = has_slot s x + started_at a id x.
Proof.
  unfold plan_build, started_at. destruct (decide_build _ _ _ _ _) as [|op1|op1|] eqn:D; intros [= <- <-]; simpl; try lia.
  - apply decide_want_start in D as [N _]. by rewrite has_slot_start by (by apply slot_running_none).
  - rewrite has_slot_queue. lia.
Qed.

Lemma plan_remove_slots id s s' d x : plan_remove id s = (s', d) →
  has_slot s' x = has_slot s x + match d with StartOp _ => started_at true id x | _ => 0 end.
Proof.
  unfold plan_remove, started_at. intros [= <- <-]. destruct (decide_remove _ _ _) as [|op1|op1|] eqn:D; simpl; try lia.
  - rewrite has_slot_start; [done|]. apply slot_running_none. unfold decide_remove in D. repeat case_match; naive_solver.
  - rewrite has_slot_queue. lia.
Qed.

Lemma has_slot_some s x : 1 ≤ has_slot s x → is_Some (m_ops s !! x).
Proof. unfold has_slot. case_bool_decide; [done|lia]. Qed.

Lemma promote_slots id s s' b x : (if bool_decide (id = x) then 1 else 0) ≤ has_slot s x → promote id s = (s', b) →
  has_slot s' x + (if bool_decide (id = x) then 1 else 0) = has_slot s x + started_at b id x.
Proof.
  unfold started_at. destruct (decide (id = x)) as [->|Hx].
  - rewrite !(bool_decide_true (x = x)) by done. intros [sl E]%has_slot_some. unfold promote, has_slot. rewrite E.
    destruct (sl_pending sl); intros [= <- <-]; simpl; rewrite ?lookup_insert_eq, ?lookup_delete_eq; reflexivity.
  - rewrite !(bool_decide_false (id = x)), andb_false_r by done. intros _. unfold promote, has_slot.
    destruct (m_ops s !! id) as [sl|]; [destruct (sl_pending sl)|]; intros [= <- <-]; simpl;
      rewrite ?lookup_insert_ne, ?lookup_delete_ne by done; done.
Qed.

Lemma reconcile_one_ops id r was now s : m_ops (fst (reconcile_one id r was now s)) = m_ops s.
Proof. unfold reconcile_one. repeat case_match; done. Qed.

Lemma has_slot_eq s s' x : m_ops s' = m_ops s → has_slot s' x = has_slot s x.
Proof. unfold has_slot. by intros ->. Qed.

Lemma images_slot s s' x : images s' = images s → has_slot s' x = has_slot s x.
Proof. intros [= _ O _]. by apply has_slot_eq. Qed.

Section slots.
Context (h : string).

Lemma bal_slot x i ans s s' t sp : slot_token x i ≤ has_slot s x → exec h i ans s = Some (s', t, sp) →
  has_slot s' x + slot_token x i = has_slot s x + weigh (slot_token x) t + weigh_all (slot_token x) sp.
Proof.
  intros Hr H. exec_cases H; injection H as <- <- <-; weigh_simpl; unfold weigh_all; simpl; simpl in Hr;
    try (match goal with
    | P : plan_ensure _ _ _ _ _ = Some _ |- _ => apply (plan_ensure_slots _ _ _ _ _ _ _ _ x) in P; rewrite P
    | P : plan_build _ _ _ = _ |- _ => apply (plan_build_slots _ _ _ _ _ x) in P; rewrite P
    | P : plan_remove _ _ = _ |- _ => apply (plan_remove_slots _ _ _ _ x) in P; rewrite P
    | P : send_opt ?m ?s = (_, ?s1) |- _ => pose proof (images_slot _ _ x (proj2 (send_opt_frame m s))) as F; rewrite P in F; simpl in F
    | P : reconcile_one ?id ?r ?w ?n ?s = _ |- _ => pose proof (has_slot_eq _ _ x (reconcile_one_ops id r w n s)) as F; rewrite P in F; simpl in F
    | |- context [send_upstream ?m ?s] => rewrite (images_slot _ _ x (proj2 (send_frame m s)))
    | |- context [foldr flush_one ?s ?l] => rewrite (images_slot _ _ x (proj2 (flush_frame l s)))
    end; unfold started_at in *; simpl in *; try lia);
    try first [lia | rewrite (has_slot_eq s) by done; lia | rewrite (has_slot_eq m) by done; lia];
    try match goal with P : promote _ _ = _ |- _ => apply (promote_slots _ _ _ _ x Hr) in P; rewrite P; unfold started_at; simpl; lia end.
  destruct (decide (image_id = x)) as [->|]; [|by rewrite bool_decide_false in * by done].
  rewrite bool_decide_true in Hr by done. apply has_slot_some in Hr as [? ?]. congruence.
Qed.
End slots.

(** * The invariant of the image manager

    What holds of a process of the node agent whichever of its threads goes next: the tokens
    balance, every thread fits the images it works on, the admission lock separates planning from
    exact removal, and the operations are capped. *)

(** ** Who holds what *)

(** Instructions that run as reader of the admission lock, as its writer, and with a permit. *)
Definition admitted (i : Instr) : bool :=
  match i with
  | IEnsureBody _ _ _ _ | IEnsureRemember _ _ _ _ | IPlanEnsure _ _ _ None | IBuildBody _ _ _ | IBuildRemember _ _ _
  | IPlanBuild _ _ | IRemoveBody _ _ | IPlanRemove _ => true
  | _ => false
  end.
Definition cleaning (i : Instr) : bool :=
  match i with ICleanupLock _ _ | ICleanupCheck _ _ | IExactRemove _ _ => true | _ => false end.
Definition permitted (i : Instr) : bool :=
  match i with IDisk _ _ _ | IWork _ (Obtain _) _ | IRetry _ (Obtain _) _ => true | _ => false end.

(** Each is followed by the instruction that gives it back. *)
Definition held (t : Thread) (i : Instr) : Prop :=
  (admitted i = true → 1 ≤ weigh reader_token t) ∧ (cleaning i = true → 1 ≤ weigh writer_token t) ∧
  (permitted i = true → 1 ≤ weigh permit_token t).
Fixpoint guarded (t : Thread) : Prop :=
  match t with [] => True | i :: t => held t i ∧ guarded t end.

(** A dispatcher's command on its way to the plan, and the image it has passed the cap for. *)
Definition dispatching (i : Instr) : nat :=
  match i with
  | IEnsure _ _ _ _ | IEnsureBody _ _ _ _ | IEnsureRemember _ _ _ _ | IPlanEnsure _ _ _ None | IBuild _ _ _ | IBuildBody _ _ _
  | IBuildRemember _ _ _ | IPlanBuild _ _ | IRemove _ _ | IRemoveBody _ _ | IPlanRemove _ => 1
  | _ => 0
  end.
Definition passing (i : Instr) : option string :=
  match i with
  | IEnsureRemember _ id _ _ | IPlanEnsure id _ _ None | IBuildRemember _ id _ | IPlanBuild id _ | IPlanRemove id => Some id
  | _ => None
  end.
Definition passing_ids (ts : list Thread) : gset string := list_to_set (omap passing (concat ts)).

Lemma passing_map {A} (f : A → Instr) l u : (∀ x, passing (f x) = None) → omap passing (map f l ++ u) = omap passing u.
Proof. intros Hf. induction l as [|x l IH]; simpl; [done|]. by rewrite Hf. Qed.

Section local.
Context (h : string).

Lemma guarded_map {A} (f : A → Instr) l rest :
  (∀ x, admitted (f x) = false ∧ cleaning (f x) = false ∧ permitted (f x) = false) →
  guarded rest → guarded (map f l ++ rest).
Proof.
  intros Hf G. induction l as [|x l IH]; simpl; [done|]. split; [|done].
  destruct (Hf x) as (F1 & F2 & F3). unfold held. rewrite F1, F2, F3. done.
Qed.

Lemma guarded_exec i ans s s' t sp rest : exec h i ans s = Some (s', t, sp) →
  guarded (i :: rest) → guarded (t ++ rest) ∧ ∀ u, u ∈ sp → guarded u.
Proof.
  intros H [[H1 [H2 H3]] G].
  exec_cases H; injection H as <- <- <-; simpl in H1, H2, H3; (split; [|intros u Hu]);
    try (by apply not_elem_of_nil in Hu); try (apply list_elem_of_singleton in Hu as ->);
    unfold conclude, held; simpl; rewrite ?weigh_app; simpl; repeat (split; try done);
    try (intros _; rewrite ?weigh_cons; simpl; auto; lia); try exact G;
    rewrite <- ?app_assoc; apply guarded_map; simpl; done.
Qed.

Lemma dispatching_exec i ans s s' t sp : exec h i ans s = Some (s', t, sp) →
  weigh dispatching t ≤ dispatching i ∧ weigh_all dispatching sp = 0.
Proof.
  intros H. exec_cases H; injection H as <- <- <-; weigh_simpl; unfold weigh_all; simpl; lia.
Qed.

Lemma passing_dispatching i x : passing i = Some x → dispatching i = 1.
Proof. destruct i; try done. simpl. by destruct demote_from. Qed.

(** One more operation at most, that of [id]. *)
Lemma slots_dom s s' (a : bool) id : (∀ x, has_slot s' x = has_slot s x + started_at a id x) →
  ∀ x, x ∈ dom (m_ops s') → x ∈ dom (m_ops s) ∨ (a = true ∧ id = x).
Proof.
  intros H x Hx. specialize (H x). apply elem_of_dom in Hx. unfold has_slot, started_at in H.
  rewrite bool_decide_true in H by done. rewrite elem_of_dom. case_bool_decide; [by left|right].
  destruct a; simpl in H; [|lia]. case_bool_decide; [done|lia].
Qed.

Lemma dom_grows (m m' : gmap string OpSlot) (x : string) :
  (∀ y, y ∈ dom m' → y ∈ dom m ∨ x = y) → size (dom m') ≤ S (size (dom m)).
Proof.
  intros H. trans (size ({[x]} ∪ dom m)); [apply subseteq_size; intros y Hy; destruct (H y Hy); set_solver|].
  rewrite size_union_alt, size_singleton. assert (size (dom m ∖ {[x]}) ≤ size (dom m)) by (apply subseteq_size; set_solver). lia.
Qed.

Lemma ready_check_cap id r v rec s s' b : plan_ensure id r v (Some rec) s = Some (s', true, b) →
  size (dom (m_ops s')) ≤ MAX_CONCURRENT_OPS.
Proof.
  intros H. pose proof (slots_dom _ _ _ _ (λ x, plan_ensure_slots _ _ _ _ _ _ _ _ x H)) as P.
  assert (D : size (dom (m_ops s')) ≤ S (size (dom (m_ops s)))) by (apply (dom_grows _ _ id); naive_solver).
  unfold plan_ensure in H. destruct (demote id v rec s) as [s1|] eqn:E; [|done].
  assert (O : m_ops s1 = m_ops s) by (unfold demote in E; repeat case_match; by simplify_eq).
  injection H as H. unfold planned in H. destruct (decide_ensure _ _ _ _ _); simplify_eq.
  destruct (true && _)%bool eqn:C; [by simplify_eq|]. rewrite andb_true_l in C. apply Nat.leb_gt in C.
  rewrite O in C. rewrite (size_dom (m_ops s)) in D. lia.
Qed.

Lemma passed_cap s id : negb (has_op_capacity s id) = false →
  size (dom (m_ops s)) ≤ MAX_CONCURRENT_OPS ∨ id ∈ dom (m_ops s).
Proof.
  rewrite negb_false_iff. unfold has_op_capacity. rewrite orb_true_iff, bool_decide_eq_true, Nat.ltb_lt.
  intros [H|H]; [right; by apply elem_of_dom|left]. rewrite size_dom. lia.
Qed.

Lemma images_ops s s' : images s' = images s → m_ops s' = m_ops s.
Proof. by intros [= _ O _]. Qed.

Lemma promote_dom id s y : y ∈ dom (m_ops (fst (promote id s))) → y ∈ dom (m_ops s).
Proof.
  unfold promote. destruct (m_ops s !! id) as [sl|] eqn:E; [|done]. destruct (sl_pending sl); simpl; [|set_solver].
  rewrite dom_insert, elem_of_union. intros [->%elem_of_singleton|]; [by apply elem_of_dom|done].
Qed.

(** The size of the operations after an instruction: it is within the cap, or any new operation
    has passed the cap before. *)
Lemma capacity_exec i ans s s' t sp : exec h i ans s = Some (s', t, sp) →
  size (dom (m_ops s')) ≤ MAX_CONCURRENT_OPS ∨
  (∀ x, x ∈ dom (m_ops s') → x ∈ dom (m_ops s) ∨ passing i = Some x) ∧
  (∀ x, x ∈ omap passing t → x ∈ dom (m_ops s) ∨ passing i = Some x).
Proof.
  intros H. exec_cases H; injection H as <- <- <-; unfold conclude; simpl;
    try (right; split; [by auto|]; intros y Hy; by apply not_elem_of_nil in Hy);
    try match goal with
    | C : negb (has_op_capacity _ _) = false |- _ =>
        destruct (passed_cap _ _ C); [by left|right; split; [by auto|]; intros y Hy;
          apply list_elem_of_singleton in Hy as ->; auto]
    | P : plan_ensure _ _ _ (Some _) _ = Some (_, true, _) |- _ => left; exact (ready_check_cap _ _ _ _ _ _ _ P)
    end;
    (right; split; [intros y Hy|intros y Hy; try first [by apply not_elem_of_nil in Hy | apply list_elem_of_singleton in Hy as ->; auto]]);
    try match goal with
    | P : plan_ensure _ _ _ _ _ = Some _ |- _ =>
        destruct (slots_dom _ _ _ _ (λ x, plan_ensure_slots _ _ _ _ _ _ _ _ x P) _ Hy) as [|[? ->]]; auto; discriminate
    | P : plan_build _ _ _ = _ |- _ =>
        destruct (slots_dom _ _ _ _ (λ x, plan_build_slots _ _ _ _ _ x P) _ Hy) as [|[? ->]]; auto; discriminate
    | P : promote ?id ?s = _ |- _ => left; apply (promote_dom id s y); by rewrite P
    | P : send_opt ?m ?s = _ |- _ => left; pose proof (images_ops _ _ (proj2 (send_opt_frame m s))) as F; rewrite P in F; simpl in F; by rewrite <- F
    | P : reconcile_one ?id ?r ?w ?n ?s = _ |- _ => left; pose proof (reconcile_one_ops id r w n s) as F; rewrite P in F; simpl in F; by rewrite <- F
    | H : _ ∈ dom (m_ops (snd (send_upstream ?m ?s))) |- _ => left; by rewrite (images_ops _ _ (proj2 (send_frame m s))) in H
    | H : _ ∈ dom (m_ops (foldr flush_one ?s ?l)) |- _ => left; by rewrite (images_ops _ _ (proj2 (flush_frame l s))) in H
    end; try (by left); try (apply list_elem_of_singleton in Hy as ->; by right).
  all: try (by destruct (slots_dom _ _ true _ (λ x, plan_remove_slots _ _ _ _ x Heqp) _ Hy) as [|[? ->]]; auto).
  all: try (by destruct (slots_dom _ _ false image_id (λ x, plan_remove_slots _ _ _ _ x Heqp) _ Hy) as [|[? ->]]; auto).
  - left. exfalso. change (y ∈ omap passing (map (λ a, ISend (CleanupStateMsg a)) (terminal (m_journal s)) ++ [IFlushOpFree])) in Hy.
    rewrite passing_map in Hy by done. by apply not_elem_of_nil in Hy.
  - exfalso. change (y ∈ omap passing (map (λ x, IEmitTerminal (fst x)) (op_free s))) in Hy.
    rewrite <- (app_nil_r (map _ _)), passing_map in Hy by done. by apply not_elem_of_nil in Hy.
Qed.

(** A clean-up asks the engine only when nothing runs. *)
Lemma asks_idle i ans s s' t sp cmd a : exec h i ans s = Some (s', t, sp) → IExactRemove cmd a ∈ t → m_ops s' = ∅.
Proof.
  intros H Hi. exec_cases H; injection H as <- <- <-; unfold conclude in Hi; simpl in *;
    rewrite ?elem_of_app, ?elem_of_cons, ?elem_of_nil, ?list_elem_of_fmap in Hi;
    repeat (match type of Hi with _ ∨ _ => destruct Hi as [Hi|Hi] end; try discriminate Hi; try done);
    try done;
    try match goal with B : (if cleanup_malformed _ _ _ _ _ then _ else _) = None |- _ =>
      destruct (cleanup_malformed _ _ _ _ _); [discriminate B|]; by case_bool_decide end;
    try (by destruct Hi as (? & ? & ?)); exfalso.
  apply elem_of_app in Hi as [Hi|Hi]; [|by apply list_elem_of_singleton in Hi].
  apply list_elem_of_fmap in Hi as (? & ? & ?). discriminate.
Qed.

(** Nor does anything start while it does: planning is reading. *)
Lemma stays_idle i ans s s' t sp : exec h i ans s = Some (s', t, sp) → admitted i = false → reader_token i = 0 →
  m_ops s = ∅ → m_ops s' = ∅.
Proof.
  intros H Ha Hr O. exec_cases H; injection H as <- <- <-; simpl in *; try discriminate; try done;
    try match goal with
    | P : promote ?id ?s = _ |- _ => unfold promote in P; rewrite O, lookup_empty in P; by simplify_eq
    | P : send_opt ?m ?s = _ |- _ => pose proof (images_ops _ _ (proj2 (send_opt_frame m s))) as F; rewrite P in F; simpl in F; by rewrite F
    | P : reconcile_one ?id ?r ?w ?n ?s = _ |- _ => pose proof (reconcile_one_ops id r w n s) as F; rewrite P in F; simpl in F; by rewrite F
    | |- context [send_upstream ?m ?s] => by rewrite (images_ops _ _ (proj2 (send_frame m s)))
    | |- context [foldr flush_one ?s ?l] => by rewrite (images_ops _ _ (proj2 (flush_frame l s)))
    end.
Qed.
End local.

