(* ===== verification/ImageReach.v ===== *)
(** * Every state of the image manager

    The invariant of a process of the node agent, from its start: [inv] holds after
    [ImageManager::new] and every step keeps it. *)
From S2P Require Import Prelude Platform Images ImageCleanup ImageManager ImageInv ImageThreads ImageProcess.

(** The engine has answered for whatever is recorded as ready. *)
Definition vouched (seen : gset string) (records : gmap string ImageRecord) : Prop :=
  ∀ id r, records !! id = Some r → ir_state r = Ready → ir_ref r ∈ seen.

Section inv.
Variable strict : bool.
Variable h : string.

Record inv (y : Sys) : Prop := {
  inv_slot id : weigh_all (slot_token id) (y_threads y) = has_slot (y_mgr y) id;
  inv_permit : m_permits (y_mgr y) + weigh_all permit_token (y_threads y) = MAX_CONCURRENT_PULLS;
  inv_reader : m_readers (y_mgr y) = weigh_all reader_token (y_threads y);
  inv_writer : writing (y_mgr y) = weigh_all writer_token (y_threads y);
  inv_excl : m_writer (y_mgr y) = true → m_readers (y_mgr y) = 0;
  inv_lock id : weigh_all (lock_token id) (y_threads y) = holds_lock (y_mgr y) id;
  inv_check k t id : y_threads y !! k = Some t → check (m_seen (y_mgr y)) id (abs strict (y_mgr y) id) t;
  inv_final id r : m_records (y_mgr y) !! id = Some r → m_ops (y_mgr y) !! id = None → final strict r = true;
  inv_seen : vouched (m_seen (y_mgr y)) (m_records (y_mgr y)) ∧ vouched (m_seen (y_mgr y)) (m_saved (y_mgr y));
  inv_guard k t : y_threads y !! k = Some t → guarded t;
  inv_dispatch k t : y_threads y !! k = Some t → weigh dispatching t ≤ (if (k <? 2)%nat then 1 else 0);
  inv_cap : size (dom (m_ops (y_mgr y)) ∪ passing_ids (y_threads y)) ≤ MAX_CONCURRENT_OPS + 2;
  inv_clean k t cmd a : y_threads y !! k = Some t → IExactRemove cmd a ∈ t → m_ops (y_mgr y) = ∅ }.

(** ** Threads *)

(** A thread after a step: the one that ran, one it started, or one that was there. *)
Lemma thread_after (ts sp : list Thread) i ins (rest t u : Thread) k :
  ts !! i = Some (ins :: rest) → (<[i := t ++ rest]> ts ++ sp) !! k = Some u →
  (k = i ∧ u = t ++ rest) ∨ (k ≠ i ∧ ts !! k = Some u) ∨ (length ts ≤ k ∧ u ∈ sp).
Proof.
  intros Hi H. apply lookup_app_Some in H as [H|[L H]].
  - destruct (decide (k = i)) as [->|Hk].
    + rewrite list_lookup_insert_eq in H by (by eapply lookup_lt_Some). left. by injection H as <-.
    + rewrite list_lookup_insert_ne in H by done. by right; left.
  - rewrite length_insert in L. right; right. split; [done|]. by eapply list_elem_of_lookup_2.
Qed.

Lemma guarded_writer t cmd a : guarded t → IExactRemove cmd a ∈ t → 1 ≤ weigh writer_token t.
Proof.
  induction t as [|i t IH]; [by intros _ ?%not_elem_of_nil|]. intros [(_ & Hc & _) G] Hi. rewrite weigh_cons.
  apply elem_of_cons in Hi as [<-|Hi]; [specialize (Hc eq_refl); lia|specialize (IH G Hi); lia].
Qed.

Lemma passing_in ts x : x ∈ passing_ids ts ↔ ∃ k t i, ts !! k = Some t ∧ i ∈ t ∧ passing i = Some x.
Proof.
  unfold passing_ids. rewrite elem_of_list_to_set, list_elem_of_omap. split.
  - intros (i & Hi & Hp). apply list_elem_of_In, in_concat in Hi as (t & Ht & Hi).
    apply list_elem_of_In, list_elem_of_lookup in Ht as [k Hk]. exists k, t, i. by rewrite list_elem_of_In.
  - intros (k & t & i & Hk & Hi & Hp). exists i. split; [|done]. apply list_elem_of_In, in_concat. exists t.
    rewrite <- !list_elem_of_In. split; [by eapply list_elem_of_lookup_2|done].
Qed.

Lemma passing_weigh t : length (omap passing t) ≤ weigh dispatching t.
Proof.
  induction t as [|i t IH]; simpl; [done|]. rewrite weigh_cons.
  destruct (passing i) as [x|] eqn:E; simpl; [rewrite (passing_dispatching _ _ E); unfold omap in IH; lia|unfold omap in IH; lia].
Qed.

Lemma omap_concat_length ts : length (omap passing (concat ts)) ≤ weigh_all dispatching ts.
Proof.
  induction ts as [|t ts IH]; simpl; [done|]. rewrite omap_app, length_app. pose proof (passing_weigh t).
  unfold weigh_all in *. simpl. lia.
Qed.

Lemma dispatch_weigh ts : (∀ k t, ts !! k = Some t → weigh dispatching t ≤ (if (k <? 2)%nat then 1 else 0)) →
  weigh_all dispatching ts ≤ 2.
Proof.
  intros H. assert (Z : ∀ us, (∀ k t, us !! k = Some t → weigh dispatching t = 0) → weigh_all dispatching us = 0).
  { induction us as [|u us IH]; intros Hz; [done|]. unfold weigh_all in *. simpl. rewrite (Hz 0 u eq_refl).
    apply IH. intros k t. apply (Hz (S k)). }
  destruct ts as [|t0 [|t1 ts]]; unfold weigh_all in *; simpl; [lia|pose proof (H 0 t0 eq_refl); simpl in *; lia|].
  pose proof (H 0 t0 eq_refl). pose proof (H 1 t1 eq_refl). simpl in *.
  rewrite (Z ts); [lia|]. intros k t Hk. specialize (H (S (S k)) t Hk). simpl in H. lia.
Qed.

Lemma passing_size ts : (∀ k t, ts !! k = Some t → weigh dispatching t ≤ (if (k <? 2)%nat then 1 else 0)) →
  size (passing_ids ts) ≤ 2.
Proof.
  intros H. unfold passing_ids. trans (length (omap passing (concat ts))); [|pose proof (omap_concat_length ts); pose proof (dispatch_weigh ts H); lia].
  generalize (omap passing (concat ts)). intros l. induction l as [|x l IH]; [done|]. cbn [list_to_set length].
 
  rewrite size_union_alt, size_singleton. assert (size ((list_to_set l : gset string) ∖ {[x]}) ≤ size (list_to_set l : gset string)) by (apply subseteq_size; set_solver). lia.
Qed.

(** ** What a step does to the files and to the threads it starts *)

Lemma flush_saved l s : m_saved (foldr flush_one s l) = m_saved s.
Proof.
  induction l as [|x l IH]; simpl; [done|]. rewrite <- IH. generalize (foldr flush_one s l). intros s1.
  unfold flush_one, send_opt, send_upstream. repeat (case_match; simplify_eq; simpl); done.
Qed.

Lemma saved_exec i ans s s' t sp : exec h i ans s = Some (s', t, sp) →
  m_saved s' = m_saved s ∨ m_saved s' = m_records s.
Proof.
  intros H. exec_cases H; injection H as <- <- <-; simpl; auto; left; try done; try apply flush_saved; try reworked_done;
    repeat match goal with P : send_opt _ _ = _ |- _ => unfold send_opt in P end; unfold send_upstream in *;
    repeat (case_match; simplify_eq; simpl); done.
Qed.

Lemma spawn_clean i ans s s' t sp u cmd a : exec h i ans s = Some (s', t, sp) → u ∈ sp → IExactRemove cmd a ∉ u.
Proof.
  intros H Hu. exec_cases H; injection H as <- <- <-; simpl in *; try (by apply not_elem_of_nil in Hu);
    apply list_elem_of_singleton in Hu as ->; rewrite !elem_of_cons, elem_of_nil; naive_solver.
Qed.

(** ** A thread's step *)

Section step.
Context (y : Sys) (i : nat) (ins : Instr) (rest : Thread) (ans : Answer) (s' : Mgr) (t : Thread) (sp : list Thread).
Context (I : inv y) (Hi : y_threads y !! i = Some (ins :: rest)) (H : exec h ins ans (y_mgr y) = Some (s', t, sp)).

Let y' := mkSys s' (<[i := t ++ rest]> (y_threads y) ++ sp).

Lemma token_le (w : Instr → nat) : w ins ≤ weigh_all w (y_threads y).
Proof. pose proof (weigh_all_lookup w _ _ _ Hi) as L. rewrite weigh_cons in L. lia. Qed.

Lemma step_tokens :
  (∀ id, weigh_all (slot_token id) (y_threads y') = has_slot s' id) ∧
  m_permits s' + weigh_all permit_token (y_threads y') = MAX_CONCURRENT_PULLS ∧
  m_readers s' = weigh_all reader_token (y_threads y') ∧
  writing s' = weigh_all writer_token (y_threads y') ∧
  (m_writer s' = true → m_readers s' = 0) ∧
  (∀ id, weigh_all (lock_token id) (y_threads y') = holds_lock s' id).
Proof.
  unfold y'. simpl. pose proof (weigh_step reader_token _ _ _ _ t sp Hi) as Er.
  pose proof (weigh_step writer_token _ _ _ _ t sp Hi) as Ew. pose proof (weigh_step permit_token _ _ _ _ t sp Hi) as Ep.
  pose proof (token_le reader_token) as Lr. pose proof (token_le writer_token) as Lw.
  rewrite <- (inv_reader _ I) in Lr. rewrite <- (inv_writer _ I) in Lw.
  pose proof (bal_reader h _ _ _ _ _ _ Lr H) as Br. pose proof (bal_writer h _ _ _ _ _ _ Lw H) as Bw.
  pose proof (bal_permit h _ _ _ _ _ _ H) as Bp.
  pose proof (inv_reader _ I). pose proof (inv_writer _ I). pose proof (inv_permit _ I).
  repeat match goal with |- _ ∧ _ => split end; try lia.
  - intros id. pose proof (weigh_step (slot_token id) _ _ _ _ t sp Hi) as E. pose proof (token_le (slot_token id)) as L.
    rewrite (inv_slot _ I) in L. pose proof (bal_slot h id _ _ _ _ _ _ L H). pose proof (inv_slot _ I id). lia.
  - eapply excl_step; [apply (inv_excl _ I)|exact H].
  - intros id. pose proof (weigh_step (lock_token id) _ _ _ _ t sp Hi) as E. pose proof (token_le (lock_token id)) as L.
    rewrite (inv_lock _ I) in L. pose proof (bal_lock h id _ _ _ _ _ _ L H). pose proof (inv_lock _ I id). lia.
Qed.

Lemma asserted_token (x : string) : asserted ins = Some x → 1 ≤ weigh (slot_token x) (ins :: rest).
Proof.
  intros E. destruct (check_token _ _ _ _ (inv_check _ I _ _ x Hi)) as [F|]; [|done].
  inversion F; subst. done.
Qed.

Lemma subject_asserted (x : string) : subject ins = Some x → asserted ins = Some x.
Proof. by destruct ins. Qed.

Lemma step_check k u (x : string) : y_threads y' !! k = Some u → check (m_seen s') x (abs strict s' x) u.
Proof.
  intros Hk. destruct (thread_after _ _ _ _ _ _ _ _ Hi Hk) as [[-> ->]|[[Nk Ok]|[_ Hsp]]].
  - pose proof (inv_check _ I _ _ x Hi) as C. destruct (decide (asserted ins = Some x)) as [E|E].
    + by eapply worker_step.
    + apply check_app; [by eapply exec_free|]. simpl in C. rewrite bool_decide_false in C by done.
      eapply check_moved; [|by eapply seen_grows|exact C]. eapply exec_moved; [done|]. intros S. by apply E, subject_asserted.
  - pose proof (inv_check _ I _ _ x Ok) as C. destruct (decide (asserted ins = Some x)) as [E|E].
    + destruct (check_token _ _ _ _ C) as [F|F]; [by apply check_free|]. exfalso.
      pose proof (asserted_token x E) as F'. pose proof (weigh_all_two (slot_token x) _ _ _ _ _ (not_eq_sym Nk) Hi Ok) as T.
      rewrite (inv_slot _ I) in T. unfold has_slot in T. case_bool_decide; lia.
    + eapply check_moved; [|by eapply seen_grows|exact C]. eapply exec_moved; [done|]. intros S. by apply E, subject_asserted.
  - destruct (exec_spawns h _ _ _ _ _ _ _ H Hsp) as [F|(z & E & ->)]; [by apply check_free|].
    pose proof (token_le (slot_token x)) as L. rewrite (inv_slot _ I), E in L. rewrite E in H.
    destruct ans; try discriminate H. injection H as <- _ _. simpl in *.
    destruct (decide (z = x)) as [->|Z]; [|by rewrite bool_decide_false by congruence].
    rewrite bool_decide_true in L |- * by done. apply has_slot_some in L as [sl L]. unfold abs. by rewrite L.
Qed.

Lemma step_final x r : m_records s' !! x = Some r → m_ops s' !! x = None → final strict r = true.
Proof.
  intros R O. destruct (decide (subject ins = Some x)) as [S|S].
  - pose proof (inv_check _ I _ _ x Hi) as C. simpl in C. rewrite bool_decide_true in C by (by apply subject_asserted).
    destruct (abs strict (y_mgr y) x) as [a|] eqn:A; [|done]. destruct C as [C _]. destruct (abs_inv _ _ _ _ A) as (sl & Osl & Ea).
    destruct ins as [] eqn:Ei in *; try discriminate S; injection S as ->.
    + destruct ans; try discriminate H. destruct op; injection H as <- <- <-; simpl in O; congruence.
    + destruct ans; try discriminate H. injection H as <- <- <-. simpl in O. congruence.
    + destruct ans; try discriminate H. simpl in C. destruct C as [C _]. unfold exec in H. simpl in H. unfold promote in H. rewrite Osl in H.
      destruct (sl_pending sl) eqn:P; injection H as <- <- <-; simpl in R, O.
      * by rewrite lookup_insert_eq in O.
      * subst a. simpl in C. unfold settled in C. rewrite R, P in C. simpl in C. by rewrite orb_false_r in C.
  - destruct (exec_moved h _ _ _ _ _ _ x H S) as [sl sl' ? ? ? ?|? ? E|r0 ? ? E E'|r0 ? ? E E' ?|op g ? ? ?]; try congruence.
    + rewrite E in R. by apply (inv_final _ I x r).
    + rewrite E' in R. injection R as <-. unfold final. simpl. by rewrite orb_true_r.
    + rewrite E' in R. injection R as <-. assert (F : final strict r0 = true) by (by apply (inv_final _ I x)).
      unfold final in *. simpl. apply andb_true_iff in F as [-> _]. rewrite andb_true_l. apply orb_true_iff. right. by vm_compute.
Qed.

Lemma step_vouched : vouched (m_seen s') (m_records s') ∧ vouched (m_seen s') (m_saved s').
Proof.
  pose proof (seen_grows h _ _ _ _ _ _ H) as G. destruct (inv_seen _ I) as [Vr Vs].
  split; [|destruct (saved_exec _ _ _ _ _ _ H) as [E|E]; rewrite E; intros x r ? ?; apply G; eauto].
  intros x r R S. destruct (decide (subject ins = Some x)) as [Sx|Sx].
  - pose proof (inv_check _ I _ _ x Hi) as C. simpl in C. rewrite bool_decide_true in C by (by apply subject_asserted).
    destruct (abs strict (y_mgr y) x) as [a|] eqn:A; [|done]. destruct C as [C _]. destruct (abs_inv _ _ _ _ A) as (sl & Osl & Ea).
    destruct ins; try discriminate Sx; injection Sx as ->.
    + destruct ans; try discriminate H. destruct op; injection H as <- <- <-; simpl in R; try (by apply (Vr x));
        unfold stage_op, stage_in in R; rewrite lookup_insert_eq in R; by injection R as <-.
    + destruct ans; try discriminate H. injection H as <- <- <-. simpl in R. rewrite lookup_alter_eq in R.
      destruct (m_records (y_mgr y) !! x) as [r0|] eqn:R0; [|done]. injection R as <-. simpl in C. destruct C as [C _].
      destruct change; simpl in S; try done.
      * destruct C as (st & E & Sn). subst a. simpl in E. unfold mark_ready. injection E as E.
        simpl. unfold mark_ready. by rewrite E.
      * unfold mark_failed in S. by repeat case_match.
    + destruct ans; try discriminate H. unfold exec in H. simpl in H. unfold promote in H. rewrite Osl in H.
      destruct (sl_pending sl); injection H as <- <- <-; by apply (Vr x).
  - destruct (exec_moved h _ _ _ _ _ _ x H Sx) as [sl sl' ? ? ? E|? ? E|r0 ? ? E E'|r0 ? ? E E' ?|op g ? ? E].
    + rewrite E in R. apply G. eauto.
    + rewrite E in R. apply G. eauto.
    + rewrite E' in R. by injection R as <-.
    + rewrite E' in R. by injection R as <-.
    + apply G, (Vr x); eauto.
Qed.

Lemma step_guard k u : y_threads y' !! k = Some u → guarded u.
Proof.
  intros Hk. destruct (guarded_exec h _ _ _ _ _ _ rest H (inv_guard _ I _ _ Hi)) as [G1 G2].
  destruct (thread_after _ _ _ _ _ _ _ _ Hi Hk) as [[-> ->]|[[Nk Ok]|[_ Hsp]]]; [done|by apply (inv_guard _ I k)|auto].
Qed.

Lemma spawned_quiet u : u ∈ sp → weigh dispatching u = 0.
Proof.
  intros Hu. destruct (dispatching_exec h _ _ _ _ _ _ H) as [_ D]. apply list_elem_of_lookup in Hu as [j Hj].
  pose proof (weigh_all_lookup dispatching _ _ _ Hj). lia.
Qed.

Lemma step_dispatch k u : y_threads y' !! k = Some u → weigh dispatching u ≤ (if (k <? 2)%nat then 1 else 0).
Proof.
  intros Hk. destruct (dispatching_exec h _ _ _ _ _ _ H) as [D _].
  destruct (thread_after _ _ _ _ _ _ _ _ Hi Hk) as [[-> ->]|[[Nk Ok]|[_ Hsp]]].
  - pose proof (inv_dispatch _ I _ _ Hi) as B. rewrite weigh_cons in B. rewrite weigh_app. lia.
  - by apply (inv_dispatch _ I).
  - rewrite (spawned_quiet u Hsp). case_match; lia.
Qed.

Lemma passing_quiet (u : Thread) j x : weigh dispatching u = 0 → j ∈ u → passing j ≠ Some x.
Proof. intros W Hj E. pose proof (weigh_elem dispatching u j Hj). rewrite (passing_dispatching _ _ E) in *. lia. Qed.

Lemma step_cap : size (dom (m_ops s') ∪ passing_ids (y_threads y')) ≤ MAX_CONCURRENT_OPS + 2.
Proof.
  destruct (capacity_exec h _ _ _ _ _ _ H) as [C|[C1 C2]].
  - rewrite size_union_alt. pose proof (passing_size _ step_dispatch) as P.
    assert (size (passing_ids (y_threads y') ∖ dom (m_ops s')) ≤ size (passing_ids (y_threads y'))) by (apply subseteq_size; set_solver). lia.
  - etrans; [|exact (inv_cap _ I)]. apply subseteq_size.
    assert (Q : ∀ x, passing ins = Some x → x ∈ passing_ids (y_threads y)).
    { intros x E. apply passing_in. exists i, (ins :: rest), ins. split_and!; [done|by left|done]. }
    intros x. rewrite !elem_of_union. intros [Hx|Hx]; [destruct (C1 _ Hx); auto|].
    apply passing_in in Hx as (k & u & j & Hk & Hj & E).
    destruct (thread_after _ _ _ _ _ _ _ _ Hi Hk) as [[-> ->]|[[Nk Ok]|[_ Hsp]]].
    + apply elem_of_app in Hj as [Hj|Hj].
      * destruct (C2 x); [by apply list_elem_of_omap; eauto| |]; auto.
      * right. apply passing_in. exists i, (ins :: rest), j. split_and!; [done|by right|done].
    + right. apply passing_in. eauto 6.
    + exfalso. by apply (passing_quiet u j x (spawned_quiet u Hsp) Hj).
Qed.

(** While an exact removal is asked for, nobody reads under the admission lock. *)
Lemma removing_alone k u cmd a : y_threads y !! k = Some u → IExactRemove cmd a ∈ u →
  admitted ins = false ∧ reader_token ins = 0.
Proof.
  intros Hk Ha. pose proof (guarded_writer _ _ _ (inv_guard _ I _ _ Hk) Ha) as W.
  pose proof (weigh_all_lookup writer_token _ _ _ Hk) as L. pose proof (inv_writer _ I) as Ew. unfold writing in Ew.
  destruct (m_writer (y_mgr y)) eqn:Wr; [|lia]. pose proof (inv_excl _ I Wr) as Z. pose proof (inv_reader _ I) as R.
  pose proof (weigh_all_lookup reader_token _ _ _ Hi) as Lr. rewrite weigh_cons in Lr. split; [|lia].
  destruct (admitted ins) eqn:A; [|done]. destruct (inv_guard _ I _ _ Hi) as [[G _] _]. specialize (G A). lia.
Qed.

Lemma step_clean k u cmd a : y_threads y' !! k = Some u → IExactRemove cmd a ∈ u → m_ops s' = ∅.
Proof.
  intros Hk Ha. assert (Q : ∀ j v, y_threads y !! j = Some v → IExactRemove cmd a ∈ v → m_ops s' = ∅).
  { intros j v Hj Hv. destruct (removing_alone j v cmd a Hj Hv). eapply stays_idle; [exact H|done|done|].
    by eapply (inv_clean _ I). }
  destruct (thread_after _ _ _ _ _ _ _ _ Hi Hk) as [[-> ->]|[[Nk Ok]|[_ Hsp]]].
  - apply elem_of_app in Ha as [Ha|Ha]; [by eapply asks_idle|]. eapply Q; [exact Hi|by right].
  - by eapply Q.
  - by destruct (spawn_clean _ _ _ _ _ _ _ cmd a H Hsp).
Qed.

Lemma step_inv : inv y'.
Proof.
  destruct step_tokens as (T1 & T2 & T3 & T4 & T5 & T6).
  split; [done..|exact step_check|exact step_final|exact step_vouched|exact step_guard|exact step_dispatch|exact step_cap|exact step_clean].
Qed.
End step.

(** ** What happens from outside *)

(** What the connection's task is given to do. *)
Definition inert (i : Instr) : bool :=
  match i with
  | IEnsure _ _ _ _ | IBuild _ _ _ | IRemove _ _ | ICleanup _ _ | IJournalRequest _ _ | IStateAck _ _ _
  | IRefreshImages | IAttach | IFlushTerminal | IRefreshInventory => true
  | _ => false
  end.

Lemma inv_quiet y y' :
  inv y → locks (y_mgr y') = locks (y_mgr y) → images (y_mgr y') = images (y_mgr y) → m_saved (y_mgr y') = m_saved (y_mgr y) →
  (∀ w, (∀ i, inert i = true → w i = 0) → weigh_all w (y_threads y') = weigh_all w (y_threads y)) →
  (∀ k u, y_threads y' !! k = Some u → y_threads y !! k = Some u ∨
     Forall (λ i, inert i = true) u ∧ weigh dispatching u ≤ (if (k <? 2)%nat then 1 else 0)) →
  inv y'.
Proof.
  intros I L Im Sv W T. pose proof Im as Im'. injection Im as Er Eo Es. injection L as Lp Li Lr Lw.
  split; unfold writing, has_slot, holds_lock in *; rewrite ?Er, ?Eo, ?Es, ?Lp, ?Li, ?Lr, ?Lw, ?Sv.
  - intros id. rewrite W by (by intros []). apply (inv_slot _ I).
  - rewrite W by (by intros []). apply (inv_permit _ I).
  - rewrite W by (by intros []). apply (inv_reader _ I).
  - rewrite W by (by intros []). apply (inv_writer _ I).
  - apply (inv_excl _ I).
  - intros id. rewrite W by (by intros []). apply (inv_lock _ I).
  - intros k t id Hk. rewrite (abs_images _ _ _ _ Im'). destruct (T k t Hk) as [Ok|[F _]]; [by apply (inv_check _ I k)|].
    apply check_free. eapply Forall_impl; [exact F|]. intros j. simpl. by destruct j.
  - apply (inv_final _ I).
  - apply (inv_seen _ I).
  - intros k t Hk. destruct (T k t Hk) as [Ok|[F _]]; [by apply (inv_guard _ I k)|].
    induction F as [|j t Hj F IH]; simpl; [done|]. clear -Hj F. split.
    + unfold held. by destruct j.
    + induction F as [|j' t Hj' F IH]; simpl; [done|]. split; [unfold held; by destruct j'|done].
  - intros k t Hk. destruct (T k t Hk) as [Ok|[_ F]]; [by apply (inv_dispatch _ I k)|done].
  - etrans; [|exact (inv_cap _ I)]. apply subseteq_size. intros x. rewrite !elem_of_union. intros [Hx|Hx]; [by left|right].
    apply passing_in in Hx as (k & u & j & Hk & Hj & E). apply passing_in. destruct (T k u Hk) as [Ok|[F _]]; [eauto 6|].
    rewrite Forall_forall in F. specialize (F j Hj). by destruct j.
  - intros k t cmd a Hk Ha. destruct (T k t Hk) as [Ok|[F _]]; [by apply (inv_clean _ I k t cmd a)|].
    rewrite Forall_forall in F. by specialize (F _ Ha).
Qed.

Lemma give_quiet (ts : list Thread) i t w : ts !! i = Some [] → weigh w t = 0 → weigh_all w (<[i := t]> ts) = weigh_all w ts.
Proof. intros Hi Ht. pose proof (weigh_all_insert w ts i [] t Hi) as E. rewrite weigh_nil, Ht in E. lia. Qed.

Lemma idle_some y k : idle y k = true → y_threads y !! k = Some [].
Proof. unfold idle. by repeat case_match. Qed.

(** An idle dispatcher is given something to do. *)
Lemma inv_give y k t : inv y → idle y k = true → Forall (λ i, inert i = true) t →
  weigh dispatching t ≤ (if (k <? 2)%nat then 1 else 0) → inv (give y k t).
Proof.
  intros I Hk%idle_some F D. apply (inv_quiet y); try done.
  - intros w Hw. simpl. apply give_quiet; [done|]. clear D. induction F; [done|]. rewrite weigh_cons, Hw; done.
  - intros j u. simpl. intros Hj. destruct (decide (j = k)) as [->|N]; [|left; by rewrite list_lookup_insert_ne in Hj].
    right. rewrite list_lookup_insert_eq in Hj by (by eapply lookup_lt_Some). by injection Hj as <-.
Qed.

Lemma inv_add y t : inv y → Forall (λ i, inert i = true) t → weigh dispatching t = 0 →
  inv (mkSys (y_mgr y) (y_threads y ++ [t])).
Proof.
  intros I F D. apply (inv_quiet y); try done.
  - intros w Hw. simpl. rewrite weigh_all_app. unfold weigh_all at 2. simpl. enough (weigh w t = 0) by lia.
    clear D. induction F; [done|]. rewrite weigh_cons, Hw; done.
  - intros j u. simpl. intros [Hj|[_ Hj]]%lookup_app_Some; [by left|right].
    apply list_lookup_singleton_Some in Hj as [_ <-]. split; [done|]. case_match; lia.
Qed.

Lemma handler_inert c : inert (handler c) = true.
Proof. by destruct c. Qed.

(** Events other than a restart. *)
Lemma event_inv e y y' : inv y → (match e with EvRestart _ _ _ _ _ => False | _ => True end) → occur e y = Some y' → inv y'.
Proof.
  intros I Ne. destruct e as [k c| | | |refresh|]; cbn [occur]; [| | | | |done].
  - destruct (idle y k) eqn:Ik; [|done]. rewrite andb_true_l. destruct (_ || _)%bool eqn:E; [|done]. intros [= <-].
    apply inv_give; [done..| |].
    + by constructor; [apply handler_inert|].
    + assert (k < 2) by (apply orb_true_iff in E as [E|E]; [case_bool_decide|apply andb_true_iff in E as [E _]; case_bool_decide]; lia).
      rewrite (proj2 (Nat.ltb_lt k 2)) by lia. destruct c; simpl; unfold weigh; simpl; lia.
  - destruct (m_queue (y_mgr y)); [done|]. destruct (idle y 0); [|done]. intros [= <-]. apply (inv_quiet y); auto.
  - destruct (_ && _)%bool eqn:E; [|done]. apply andb_true_iff in E as [E _]. intros [= <-]. apply inv_give; [done..| |].
    + by repeat constructor.
    + simpl. unfold weigh. simpl. lia.
  - destruct (_ && _)%bool; [|done]. intros [= <-]. apply (inv_quiet y); auto.
  - destruct (idle y 0) eqn:E; [|done]. intros [= <-].
    assert (G : inv (give y 0 [IFlushTerminal])) by (apply inv_give; [done..|by repeat constructor|unfold weigh; simpl; lia]).
    destruct refresh; [apply (inv_add (give y 0 [IFlushTerminal])); [done|by repeat constructor|done]|]. simpl. by rewrite app_nil_r.
Qed.

(** ** The start *)

Lemma startup_final present r : (strict = true → ∀ x, present x ≠ None) → final strict (startup_record present r) = true.
Proof.
  intros P. unfold final, startup_record. simpl. destruct (str_eqb _ _); simpl; [by rewrite orb_true_r|].
  destruct (present (ir_ref r)) as [[]|] eqn:E; simpl; rewrite ?orb_true_r; try done.
  destruct strict; [by destruct (P eq_refl (ir_ref r))|done].
Qed.

Lemma startup_vouched seen present (saved : gmap string ImageRecord) :
  vouched seen saved →
  vouched (list_to_set (filter (λ r, present r = Some true) (map (λ x, ir_ref (snd x)) (map_to_list saved))) ∪ seen)
    (startup_record present <$> saved).
Proof.
  intros V id r. rewrite lookup_fmap. destruct (saved !! id) as [r0|] eqn:E; [|done]. intros [= <-]. unfold startup_record. simpl.
  destruct (str_eqb (ir_ref r0) EmptyString); [done|].
  destruct (present (ir_ref r0)) as [[]|] eqn:P; simpl; [|done|].
  - intros _. apply elem_of_union. left. rewrite elem_of_list_to_set, list_elem_of_filter. split; [done|].
    apply list_elem_of_fmap. exists (id, r0). by rewrite elem_of_map_to_list.
  - intros S. apply elem_of_union. right. by apply (V id r0).
Qed.

Lemma start_inv cleanup wrote present scan io s :
  (strict = true → ∀ x, present x ≠ None) → vouched (m_seen s) (m_saved s) →
  inv (mkSys (manager_new cleanup wrote present scan io s) [[]; []]).
Proof.
  intros P V. pose proof (startup_vouched _ present _ V) as Vn.
  split; simpl; try done.
  - intros [|[|k]] t id; simpl; intros [= <-]; done.
  - intros id r. rewrite lookup_fmap. destruct (m_saved s !! id); [|done]. intros [= <-] _. by apply startup_final.
  - split; [exact Vn|]. destruct wrote; [exact Vn|]. intros id r R S. apply elem_of_union. right. by apply (V id).
  - intros [|[|k]] t; simpl; intros [= <-]; done.
  - intros [|[|k]] t; simpl; intros [= <-]; unfold weigh; simpl; lia.
  - unfold passing_ids. simpl. rewrite dom_empty_L, union_empty_r_L, size_empty. lia.
Qed.

(** ** Every reachable state *)

(** Where [strict], every inspection of a start is answered. *)
Definition answered (e : Event) : Prop :=
  match e with EvRestart _ _ present _ _ => strict = true → ∀ x, present x ≠ None | _ => True end.

Inductive answered_step (y y' : Sys) : Prop :=
| as_thread i ans : thread_step h i ans y = Some y' → answered_step y y'
| as_event e : answered e → occur e y = Some y' → answered_step y y'.

Lemma thread_inv i ans y y' : inv y → thread_step h i ans y = Some y' → inv y'.
Proof.
  intros I. unfold thread_step. destruct (y_threads y !! i) as [[|ins rest]|] eqn:Hi; [done| |done].
  destruct (exec h ins ans (y_mgr y)) as [[[s' t] sp]|] eqn:H; [|done]. intros [= <-]. by eapply step_inv.
Qed.

(** A host before its first process, or a process. *)
Definition unborn (y : Sys) : Prop := y_threads y = [] ∧ m_records (y_mgr y) = ∅ ∧ m_ops (y_mgr y) = ∅.
Definition alive (y : Sys) : Prop := unborn y ∧ vouched (m_seen (y_mgr y)) (m_saved (y_mgr y)) ∨ inv y.

Lemma alive_step y y' : alive y → answered_step y y' → alive y'.
Proof.
  intros A [i ans H|e An H].
  - right. destruct A as [[[T _] _]|I]; [|by eapply thread_inv]. unfold thread_step in H. by rewrite T in H.
  - assert (V : vouched (m_seen (y_mgr y)) (m_saved (y_mgr y))) by (destruct A as [[_ V]|I]; [done|apply (inv_seen _ I)]).
    right. destruct (match e with EvRestart _ _ _ _ _ => true | _ => false end) eqn:Er.
    + destruct e; try discriminate. injection H as <-. by apply start_inv.
    + destruct A as [[[T _] _]|I].
      * exfalso. assert (Id : ∀ k, idle y k = false) by (intros k; unfold idle; by rewrite T, lookup_nil).
        destruct e; cbn [occur] in H; try discriminate; rewrite Id in H; try discriminate. by destruct (m_queue (y_mgr y)).
      * eapply event_inv; [done| |exact H]. by destruct e.
Qed.

Lemma fresh_alive file : alive (fresh_host file).
Proof.
  left. split; [by repeat split|]. intros id r R S. simpl in *. rewrite elem_of_list_to_set, list_elem_of_fmap.
  exists (id, r). by rewrite elem_of_map_to_list.
Qed.

Lemma reach_alive file y : rtc answered_step (fresh_host file) y → alive y.
Proof.
  intros H. assert (A := fresh_alive file). induction H as [|y1 y2 y3 S _ IH]; [done|]. apply IH. by eapply alive_step.
Qed.
End inv.

(** Without the condition on the starts, every step is one. *)
Lemma reachable_alive h file y : mgr_reachable h file y → alive false y.
Proof.
  intros H. apply (reach_alive false h file). induction H as [|y1 y2 y3 S _ IH]; [apply rtc_refl|].
  eapply rtc_l; [|exact IH]. destruct S as [i ans S|e S]; [by eapply as_thread|eapply as_event; [|exact S]]. by destruct e.
Qed.
