(* ===== verification/ImageSafety.v ===== *)
(** * What the image manager guarantees

    First of the journal of exact removals, then of everything else. *)
From S2P Require Import Prelude Platform Images ImageCleanup ImageManager ImageInv ImageThreads ImageProcess ImageReach.

(** * Exact removals are asked for once

    The journal of [ImageCleanup] under the threads of [ImageManager]: an attempt the journal took
    is known to it for ever, in memory and in the file, whichever writes fail and however often the
    process restarts; so no attempt is begun twice. *)

(** ** What the journal knows *)

Definition knows (d : Disk) (id : string) : Prop := is_Some (dk_attempts d !! id) ∨ is_Some (dk_retired d !! id).

Lemma begin_known_knows d a : begin_known d a = None ↔ ¬ knows d (at_id a).
Proof.
  unfold begin_known, knows. destruct (dk_retired d !! at_id a); [split; [done|intros []; eauto]|].
  destruct (dk_attempts d !! at_id a); [split; [done|intros []; eauto]|]. split; [|done]. intros _ [[]|[]]; done.
Qed.

Lemma begin_append_knows a d : knows (snd (begin_append a d)) (at_id a).
Proof.
  unfold begin_append. destruct (begin_known d a) eqn:E; simpl.
  - destruct (decide (knows d (at_id a))) as [|N]; [done|]. apply begin_known_knows in N. congruence.
  - left. simpl. by rewrite lookup_insert_eq.
Qed.

(** A change of the journal that forgets nothing. *)
Definition keeping {T} (f : Disk → T * Disk) : Prop := ∀ d id, knows d id → knows (snd (f d)) id.

Lemma begin_append_keeping a : keeping (begin_append a).
Proof.
  intros d id. unfold begin_append. destruct (begin_known d a); [done|]. intros [K|K]; [left|by right]. simpl.
  destruct (decide (at_id a = id)) as [->|]; [by rewrite lookup_insert_eq|by rewrite lookup_insert_ne].
Qed.

Lemma finish_keeping id state reason : keeping (finish_in id state reason).
Proof.
  intros d x. unfold finish_in. destruct (dk_attempts d !! id) eqn:E; [|done]. intros [K|K]; [left|by right]. simpl.
  destruct (decide (id = x)) as [->|]; [by rewrite lookup_insert_eq|by rewrite lookup_insert_ne].
Qed.

Lemma retire_keeping id generation : keeping (retire_in id generation).
Proof.
  intros d x. unfold retire_in. destruct (dk_attempts d !! id) eqn:E; [|done]. destruct (_ || _); [done|].
  unfold knows. simpl. destruct (decide (id = x)) as [->|].
  - rewrite lookup_insert_eq. eauto.
  - by rewrite lookup_delete_ne, lookup_insert_ne.
Qed.

Lemma snapshot_keeping ids : keeping (snapshot_in ids).
Proof.
  unfold keeping. induction ids as [|id ids IH]; intros d x K; simpl; [done|]. destruct (dk_attempts d !! id) eqn:E; [by apply IH|].
  specialize (IH (mkDisk (dk_attempts d) (<[id := default EmptyString (dk_retired d !! id)]> (dk_retired d))) x).
  destruct (snapshot_in ids _) as [l d']. apply IH. destruct K as [K|K]; [by left|right]. simpl.
  destruct (decide (id = x)) as [->|]; [by rewrite lookup_insert_eq|by rewrite lookup_insert_ne].
Qed.

(** The file knows whatever the memory does. *)
Definition sound (j : CleanupJournal) : Prop := ∀ id, knows (cj_inner j) id → knows (cj_file j) id.
(** The journal moved from [j] to [j'] and forgot nothing. *)
Definition grows (j j' : CleanupJournal) : Prop :=
  (sound j → sound j') ∧ (∀ id, knows (cj_inner j) id → knows (cj_inner j') id).

Lemma grows_refl j : grows j j.
Proof. by split. Qed.
Lemma grows_trans j1 j2 j3 : grows j1 j2 → grows j2 j3 → grows j1 j3.
Proof. intros [A B] [C D]. split; auto. Qed.

Lemma update_grows {T} io (f : Disk → T * Disk) j : keeping f → grows j (snd (journal_update io f j)).
Proof.
  intros K. unfold journal_update. pose proof (K (cj_inner j)) as Ki. destruct (f (cj_inner j)) as [r next]. simpl in Ki.
  destruct io as [|[]]; simpl; split; simpl; auto; intros S id H; simpl in *; auto.
Qed.

Lemma recover_grows gone io j : grows j (recover_cleanup gone io j).
Proof.
  unfold recover_cleanup. generalize (unfinished j). intros l. revert j.
  induction l as [|a l IH]; intros j; simpl; [apply grows_refl|].
  eapply grows_trans; [|apply IH]. apply update_grows, finish_keeping.
Qed.

(** ** Attempts on their way to the engine *)

Definition ask_token (id : string) (i : Instr) : nat :=
  match i with
  | IRunCleanup _ a | ICleanupLock _ a | ICleanupCheck _ a => if bool_decide (at_id a = id) then 1 else 0
  | _ => 0
  end.
Definition asked_times (id : string) (l : list string) : nat := sum_list (map (λ x, if bool_decide (x = id) then 1 else 0) l).

Lemma asked_times_app id l1 l2 : asked_times id (l1 ++ l2) = asked_times id l1 + asked_times id l2.
Proof. unfold asked_times. rewrite map_app. induction l1; simpl in *; lia. Qed.

Lemma asked_times_one id x : asked_times id [x] = if bool_decide (x = id) then 1 else 0.
Proof. unfold asked_times. cbn -[bool_decide]. lia. Qed.

Lemma asked_times_elem id l : id ∈ l → 1 ≤ asked_times id l.
Proof. induction 1; unfold asked_times in *; simpl; [rewrite bool_decide_true by done|]; lia. Qed.

Lemma asked_once_NoDup l : (∀ id, asked_times id l ≤ 1) → NoDup l.
Proof.
  induction l as [|x l IH]; intros H; constructor.
  - intros Hx%asked_times_elem. specialize (H x). unfold asked_times in *. simpl in H. rewrite bool_decide_true in H by done. lia.
  - apply IH. intros id. specialize (H id). unfold asked_times in *. simpl in H. lia.
Qed.

(** The journal, and what the engine was asked, of a state. *)
Definition cleanup_part (s : Mgr) := (m_journal s, m_asked s).
#[global] Arguments cleanup_part : simpl never.

Lemma send_cleanup m s : cleanup_part (snd (send_upstream m s)) = cleanup_part s.
Proof. unfold send_upstream. destruct (m_upstream s); [case_match|]; done. Qed.
Lemma send_opt_cleanup m s : cleanup_part (snd (send_opt m s)) = cleanup_part s.
Proof. destruct m; [apply send_cleanup|done]. Qed.
Lemma flush_cleanup l s : cleanup_part (foldr flush_one s l) = cleanup_part s.
Proof.
  induction l as [|x l IH]; simpl; [done|]. rewrite <- IH. generalize (foldr flush_one s l). intros s1.
  unfold flush_one. case_match; [done|]. pose proof (send_opt_cleanup (state_msg s1 x) s1) as E.
  destruct (send_opt _ s1) as [[] s2]; simpl in *; done.
Qed.
Section ask.
Context (h : string).

(** What an instruction does to the journal and to the attempts on their way. *)
Inductive asks (s s' : Mgr) (before : string → nat) (after : string → nat) : Prop :=
| ask_moves : grows (m_journal s) (m_journal s') → (∀ id, after id ≤ before id) → asks s s' before after
| ask_begins a : grows (m_journal s) (m_journal s') → ¬ knows (cj_inner (m_journal s)) (at_id a) →
    knows (cj_inner (m_journal s')) (at_id a) →
    (∀ id, after id ≤ before id + if bool_decide (at_id a = id) then 1 else 0) → asks s s' before after.

Lemma asks_same s s' before after : cleanup_part s' = cleanup_part s → (∀ id, after id ≤ before id) → asks s s' before after.
Proof. intros [= E _] H. apply ask_moves; [rewrite E; apply grows_refl|done]. Qed.

Definition ask_before (i : Instr) (s : Mgr) (id : string) : nat := ask_token id i + asked_times id (m_asked s).
Definition ask_after (t : Thread) (sp : list Thread) (s : Mgr) (id : string) : nat :=
  weigh (ask_token id) t + weigh_all (ask_token id) sp + asked_times id (m_asked s).

#[local] Ltac asks_lia := unfold weigh, weigh_all, cleanup_part in *; cbn -[bool_decide asked_times]; lia.

(** Cleanup's own instructions. *)
Lemma asks_cleanup i ans s s' t sp : class_of i = CCleanup → exec h i ans s = Some (s', t, sp) →
  asks s s' (ask_before i s) (ask_after t sp s').
Proof.
  intros Hc H. unfold exec in H. rewrite Hc in H. unfold ask_before, ask_after.
  destruct i; try discriminate Hc; destruct ans; try discriminate H; cbn [exec_cleanup] in H.
  - destruct (m_cleanup s); simpl in H; [|injection H as <- <- <-; by apply asks_same].
    destruct (begin_known _ _) as [[]|] eqn:E; [exfalso| | | |]; try (injection H as <- <- <-; by apply asks_same).
    unfold begin_known in E. repeat case_match; done.
  - pose proof (update_grows io (begin_append a) (m_journal s) (begin_append_keeping a)) as G.
    pose proof (begin_append_knows a (cj_inner (m_journal s))) as K.
    destruct (begin_known (cj_inner (m_journal s)) a) as [b|] eqn:E.
    + unfold journal_update, begin_append in H, G. rewrite E in H, G.
      destruct io; simpl in H; [destruct b|]; injection H as <- <- <-; apply ask_moves; simpl; try exact G; intros; try asks_lia.
      exfalso. unfold begin_known in E. repeat case_match; done.
    + unfold journal_update, begin_append in H, G, K. rewrite E in H, G, K. destruct io; simpl in H; injection H as <- <- <-.
      * eapply (ask_begins _ _ _ _ a); [exact G|by apply begin_known_knows|exact K|]. intros id. asks_lia.
      * apply ask_moves; [exact G|]. intros id. asks_lia.
  - destruct (_ || _); [discriminate|]. injection H as <- <- <-. apply asks_same; [done|]. intros id. asks_lia.
  - case_bool_decide; [discriminate|]. injection H as <- <- <-. apply asks_same; [done|]. intros id. asks_lia.
  - destruct (if cleanup_malformed _ _ _ _ _ then _ else _); injection H as <- <- <-.
    + apply asks_same; [done|]. intros id. asks_lia.
    + apply ask_moves; [apply grows_refl|]. intros id. cbn [m_asked with_asked]. rewrite asked_times_app, asked_times_one. asks_lia.
  - destruct r as [[]|]; injection H as <- <- <-; by apply asks_same.
  - pose proof (update_grows io (finish_in (at_id a) state reason) (m_journal s) (finish_keeping _ _ _)) as G.
    unfold finish in H. destruct (journal_update io (finish_in _ _ _) (m_journal s)) as [done j]. injection H as <- <- <-.
    apply ask_moves; [exact G|]. intros id. destruct done as [[]|]; [destruct (str_eqb state "removed")| |]; asks_lia.
  - injection H as <- <- <-. apply asks_same; [done|]. intros id. asks_lia.
  - destruct (m_cleanup s); simpl in H; [|injection H as <- <- <-; by apply asks_same].
    pose proof (update_grows io (snapshot_in ids) (m_journal s) (snapshot_keeping _)) as G. unfold snapshot in H.
    destruct (journal_update io (snapshot_in _) (m_journal s)) as [done j]. injection H as <- <- <-.
    apply ask_moves; [exact G|]. intros id. destruct done; asks_lia.
  - destruct (m_cleanup s); simpl in H; [|injection H as <- <- <-; by apply asks_same].
    pose proof (update_grows io (retire_in attempt_id generation) (m_journal s) (retire_keeping _ _)) as G. unfold retire_terminal in H.
    destruct (journal_update io (retire_in _ _) (m_journal s)) as [done j]. injection H as <- <- <-.
    apply ask_moves; [exact G|]. intros id. destruct done as [[]|]; asks_lia.
Qed.

Lemma exec_asks i ans s s' t sp : exec h i ans s = Some (s', t, sp) → asks s s' (ask_before i s) (ask_after t sp s').
Proof.
  intros H. assert (class_of i = CCleanup ∨ class_of i ≠ CCleanup) as [C|C] by (destruct (class_of i); auto); [by eapply asks_cleanup|].
  assert (F : cleanup_part s' = cleanup_part s ∧ ∀ id, weigh (ask_token id) t + weigh_all (ask_token id) sp = 0).
  { exec_cases H; try (by destruct C); injection H as <- <- <-; (split; [|intros id; weigh_simpl; unfold weigh_all; simpl; try lia]);
      try done; try apply send_cleanup; try apply flush_cleanup; try reworked_done;
      match goal with P : send_opt ?m ?s = _ |- _ => pose proof (send_opt_cleanup m s) as Q; rewrite P in Q; exact Q end. }
  destruct F as [F W]. apply asks_same; [done|]. intros id. unfold ask_before, ask_after. injection F as _ ->. rewrite W. lia.
Qed.

(** ** Every reachable state *)

Record asked_inv (y : Sys) : Prop := {
  ai_sound : sound (m_journal (y_mgr y));
  ai_once id : weigh_all (ask_token id) (y_threads y) + asked_times id (m_asked (y_mgr y)) ≤ 1;
  ai_known id : 1 ≤ weigh_all (ask_token id) (y_threads y) + asked_times id (m_asked (y_mgr y)) → knows (cj_inner (m_journal (y_mgr y))) id }.

Lemma thread_asked i ans y y' : asked_inv y → thread_step h i ans y = Some y' → asked_inv y'.
Proof.
  intros [S O K]. unfold thread_step. destruct (y_threads y !! i) as [[|ins rest]|] eqn:Hi; [done| |done].
  destruct (exec h ins ans (y_mgr y)) as [[[s' t] sp]|] eqn:H; [|done]. intros [= <-]. apply exec_asks in H.
  assert (W : ∀ id, weigh_all (ask_token id) (<[i:=t ++ rest]> (y_threads y) ++ sp) + ask_token id ins =
                    weigh_all (ask_token id) (y_threads y) + weigh (ask_token id) t + weigh_all (ask_token id) sp)
    by (intros id; by apply weigh_step).
  unfold ask_before, ask_after in H. destruct H as [G L|a G N Y L]; split; simpl; try (by apply G); intros id;
    specialize (L id); specialize (W id); specialize (O id); specialize (K id); try lia.
  - intros P. apply G, K. lia.
  - destruct (decide (at_id a = id)) as [<-|]; [|rewrite bool_decide_false in L by done; lia].
    destruct (decide (1 ≤ weigh_all (ask_token (at_id a)) (y_threads y) + asked_times (at_id a) (m_asked (y_mgr y)))) as [P|P]; [by destruct (N (K P))|].
    rewrite bool_decide_true in L by done. lia.
  - intros P. destruct (decide (at_id a = id)) as [<-|]; [done|]. rewrite bool_decide_false in L by done. apply G, K. lia.
Qed.

Lemma give_asked y k t : asked_inv y → idle y k = true → (∀ id, weigh (ask_token id) t = 0) → asked_inv (give y k t).
Proof.
  intros [S O K] Hk Ht. assert (E : y_threads y !! k = Some []) by (unfold idle in Hk; by repeat case_match).
  assert (W : ∀ id, weigh_all (ask_token id) (<[k:=t]> (y_threads y)) = weigh_all (ask_token id) (y_threads y)).
  { intros id. pose proof (weigh_all_insert (ask_token id) _ k [] t E) as W. rewrite weigh_nil, Ht in W. lia. }
  split; simpl; [done|intros id; rewrite W; apply O|intros id; rewrite W; apply K].
Qed.

Lemma event_asked e y y' : asked_inv y → occur e y = Some y' → asked_inv y'.
Proof.
  intros I. destruct e as [k c| | | |refresh|cleanup wrote present scan io]; cbn [occur].
  - destruct (idle y k) eqn:Ik; [|done]. destruct (true && _)%bool; [|done]. intros [= <-]. apply give_asked; [done..|]. by destruct c.
  - destruct (m_queue (y_mgr y)); [done|]. destruct (idle y 0); [|done]. intros [= <-]. by destruct I.
  - destruct (idle y 0) eqn:Ik; [|done]. destruct (true && _)%bool; [|done]. intros [= <-]. by apply give_asked.
  - destruct (_ && _)%bool; [|done]. intros [= <-]. by destruct I.
  - destruct (idle y 0) eqn:Ik; [|done]. intros [= <-]. pose proof (give_asked _ _ [IFlushTerminal] I Ik ltac:(done)) as [S O K].
    split; simpl; [done| |]; intros id; rewrite weigh_all_app; specialize (O id); specialize (K id); simpl in O, K;
      (assert (Z : weigh_all (ask_token id) (if refresh then [[IRefreshInventory]] else []) = 0) by (by destruct refresh)); rewrite Z, Nat.add_0_r; done.
  - intros [= <-]. destruct I as [S O K].
    assert (G : grows (journal_open (m_journal (y_mgr y))) (m_journal (manager_new cleanup wrote present scan io (y_mgr y)))).
    { simpl. destruct scan; [destruct cleanup|]; [apply recover_grows|apply grows_refl|apply grows_refl]. }
    split; [by apply G; intros ?| |]; intros id; specialize (O id); specialize (K id); simpl; unfold weigh_all; simpl; [lia|].
    intros P. apply G. simpl. apply S, K. lia.
Qed.

(** (C23) The engine is asked to remove an image at most once per attempt the control plane makes,
    whichever writes of the journal fail and however often the process restarts, and both the
    journal in memory and its file know every attempt it was asked for. *)
Theorem cleanup_asked_once file y : mgr_reachable h file y →
  NoDup (m_asked (y_mgr y)) ∧
  ∀ id, id ∈ m_asked (y_mgr y) → knows (cj_inner (m_journal (y_mgr y))) id ∧ knows (cj_file (m_journal (y_mgr y))) id.
Proof.
  intros R. assert (I : asked_inv y).
  { assert (F : asked_inv (fresh_host file)) by (split; simpl; [by intros ? ?|intros id; unfold weigh_all, asked_times; simpl; lia..]).
    revert F. induction R as [|y1 y2 y3 [i ans S|e S] _ IH]; intros F; [done|apply IH; by eapply thread_asked|apply IH; by eapply event_asked]. }
  destruct I as [S O K]. split; [apply asked_once_NoDup; intros id; specialize (O id); lia|].
  intros id Hid%asked_times_elem. assert (N : knows (cj_inner (m_journal (y_mgr y))) id) by (apply K; lia). auto.
Qed.
End ask.

(** * What the image manager guarantees

    Consequences of the invariant of [ImageReach], for every schedule of the threads, every answer
    of the engine and every restart. *)

(** A thread that has, or is about to start, the work on [id]. *)
Definition works (id : string) (t : Thread) : Prop := 1 ≤ weigh (slot_token id) t.

(** A thread that holds a permit: it measures the disk, pulls, builds or waits to try again. *)
Definition pulling (t : Thread) : bool := match t with i :: _ => permitted i | [] => false end.

Lemma weigh_all_pos w ts : 1 ≤ weigh_all w ts → ∃ k t, ts !! k = Some t ∧ 1 ≤ weigh w t.
Proof.
  induction ts as [|t ts IH]; unfold weigh_all in *; simpl; [lia|]. intros H.
  destruct (decide (1 ≤ weigh w t)) as [W|W]; [by exists 0, t|]. destruct IH as (k & u & Hk & Hu); [lia|]. by exists (S k), u.
Qed.

Lemma filter_weigh (P : Thread → bool) w ts : (∀ k t, ts !! k = Some t → P t = true → 1 ≤ weigh w t) →
  length (filter (λ t, P t = true) ts) ≤ weigh_all w ts.
Proof.
  induction ts as [|t ts IH]; intros H; [done|]. rewrite filter_cons. unfold weigh_all in *. cbn [map sum_list sum_list_with].
  specialize (IH (λ k, H (S k))). specialize (H 0 t eq_refl). case_decide; simpl; [specialize (H ltac:(done))|]; lia.
Qed.

Section safety.
Context (h : string) (file : gmap string ImageRecord).

Lemma reachable_cases y : mgr_reachable h file y → inv false y ∨ unborn y.
Proof. intros [[U _]|I]%reachable_alive; auto. Qed.

Lemma reachable_inv y k t : mgr_reachable h file y → y_threads y !! k = Some t → inv false y.
Proof. intros [I|[T _]]%reachable_cases Hk; [done|by rewrite T, lookup_nil in Hk]. Qed.

(** (C20) An image with an operation slot has exactly one thread that works on it, or is about to
    start to; an image without one has none. *)
Theorem image_has_one_worker y id : mgr_reachable h file y →
  (is_Some (m_ops (y_mgr y) !! id) ↔ ∃ k t, y_threads y !! k = Some t ∧ works id t) ∧
  (∀ i j t u, y_threads y !! i = Some t → y_threads y !! j = Some u → works id t → works id u → i = j).
Proof.
  intros [I|(T & _ & O)]%reachable_cases;
    [|rewrite T, O, lookup_empty; split; [split; [by intros []|by intros (k & t & ? & _)]|done]].
  pose proof (inv_slot _ _ I id) as W. unfold has_slot in W. split.
  - split.
    + intros E. rewrite bool_decide_true in W by done. apply weigh_all_pos. lia.
    + intros (k & t & Hk & Ht). pose proof (weigh_all_lookup (slot_token id) _ _ _ Hk). unfold works in Ht.
      apply has_slot_some. unfold has_slot. lia.
  - intros i j t u Hi Hj Ht Hu. destruct (decide (i = j)) as [|N]; [done|exfalso]. unfold works in *.
    pose proof (weigh_all_two (slot_token id) _ _ _ _ _ N Hi Hj). destruct (bool_decide _); lia.
Qed.

(** A worker's result is never out of date: whoever is about to commit holds the slot at the
    generation it started under, so the test of [commit] always passes. *)
Theorem commit_never_stale y k id g c t : mgr_reachable h file y → y_threads y !! k = Some (ICommit id g c :: t) →
  should_commit (sl_generation <$> m_ops (y_mgr y) !! id) g = true.
Proof.
  intros R Hk. pose proof (reachable_inv _ _ _ R Hk) as I. pose proof (inv_check _ _ I _ _ id Hk) as C.
  simpl in C. rewrite bool_decide_true in C by done. unfold abs in C.
  destruct (m_ops (y_mgr y) !! id) as [sl|]; [|done]. destruct C as [(<- & _) _]. apply bool_decide_eq_true. done.
Qed.

(** (C21) A record says ready only of a reference the engine has answered for: it pulled or built
    it, or found it present. *)
Theorem ready_was_seen y id r : mgr_reachable h file y → m_records (y_mgr y) !! id = Some r → ir_state r = Ready →
  ir_ref r ∈ m_seen (y_mgr y).
Proof.
  intros [I|(_ & E & _)]%reachable_cases Hr S; [by apply (proj1 (inv_seen _ _ I) id)|by rewrite E, lookup_empty in Hr].
Qed.

(** (C22) While the engine is asked to remove an image for the control plane, no image operation
    runs or is about to, none is being planned, and nobody else asks for a removal. *)
Theorem exact_removal_alone y k cmd a t : mgr_reachable h file y → y_threads y !! k = Some (IExactRemove cmd a :: t) →
  m_ops (y_mgr y) = ∅ ∧ (∀ j u id, y_threads y !! j = Some u → ¬ works id u) ∧
  ∀ j i u, y_threads y !! j = Some (i :: u) → j ≠ k → admitted i = false ∧ cleaning i = false.
Proof.
  intros R Hk. pose proof (reachable_inv _ _ _ R Hk) as I.
  assert (O : m_ops (y_mgr y) = ∅) by (eapply (inv_clean _ _ I); [exact Hk|by left]).
  split; [done|split].
  - intros j u id Hj W. pose proof (weigh_all_lookup (slot_token id) _ _ _ Hj) as L. rewrite (inv_slot _ _ I) in L.
    unfold works in W. assert (S : 1 ≤ has_slot (y_mgr y) id) by lia. apply has_slot_some in S. rewrite O in S. by destruct S.
  - intros j i u Hj N. split; [by eapply (removing_alone false y j i u I Hj k); [exact Hk|left]|].
    destruct (inv_guard _ _ I _ _ Hj) as [(_ & Gc & _) _]. destruct (inv_guard _ _ I _ _ Hk) as [(_ & Gk & _) _].
    destruct (cleaning i) eqn:Ci; [|done]. specialize (Gc eq_refl). specialize (Gk eq_refl).
    pose proof (weigh_all_two writer_token _ _ _ _ _ N Hj Hk) as L. rewrite !weigh_cons in L.
    pose proof (inv_writer _ _ I) as W. unfold writing in W. destruct (m_writer (y_mgr y)); lia.
Qed.

(** At most two pulls and builds run at once. *)
Theorem pulls_capped y : mgr_reachable h file y →
  length (filter (λ t, pulling t = true) (y_threads y)) ≤ MAX_CONCURRENT_PULLS.
Proof.
  intros R. destruct (reachable_cases y R) as [I|[T _]]; [|rewrite T; unfold filter; simpl; lia].
  trans (weigh_all permit_token (y_threads y)); [|pose proof (inv_permit _ _ I); lia].
  apply filter_weigh. intros k [|i t] Hk P; [done|]. destruct (inv_guard _ _ I _ _ Hk) as [(_ & _ & G) _].
  rewrite weigh_cons. simpl in P. specialize (G P). lia.
Qed.

(** (C39) The cap on image operations is overshot by two at most: the connection's task and the
    diagnostic one can each have passed the check for one more. *)
Theorem operations_capped y : mgr_reachable h file y → size (m_ops (y_mgr y)) ≤ MAX_CONCURRENT_OPS + 2.
Proof.
  intros [I|(_ & _ & E)]%reachable_cases; [|rewrite E, map_size_empty; lia].
  rewrite <- size_dom. etrans; [|exact (inv_cap _ _ I)]. apply subseteq_size. set_solver.
Qed.

(** (C33) Where every inspection of the starts was answered, a record without an operation says what
    became of the last one: nothing is staged, and it is absent, ready or failed. *)
Theorem idle_images_settled y id r : rtc (answered_step true h) (fresh_host file) y →
  m_records (y_mgr y) !! id = Some r → m_ops (y_mgr y) !! id = None →
  ir_staged r = None ∧ ir_state r ∈ [Absent; Ready; Failed].
Proof.
  intros R Hr O. destruct (reach_alive _ _ _ _ R) as [[(_ & E & _) _]|I]; [by rewrite E, lookup_empty in Hr|].
  pose proof (inv_final _ _ I _ _ Hr O) as F. unfold final in F. apply andb_true_iff in F as [F1 F2].
    apply bool_decide_eq_true in F1. by apply bool_decide_eq_true in F2.
Qed.
End safety.
