(* ===== verification/ImageStuck.v ===== *)
(** * A clean-up's report can stop the agent

    [run_cleanup] sends its report with [blocking_send] while it holds the admission lock for
    writing. The channel is drained by the connection's task alone, and that task takes the
    admission lock for reading in its handlers: with the channel full, each waits for the other. *)
From S2P Require Import Prelude Platform Images ImageCleanup ImageManager ImageInv ImageThreads ImageProcess ImageReach.

(** ** What a full channel keeps *)

(** The connection, its channel, and what the control plane was told. *)
Definition wire (s : Mgr) := (m_upstream s, m_queue s, m_told s).
#[global] Arguments wire : simpl never.

(** Nothing fits in the channel. *)
Definition full (s : Mgr) : Prop := m_upstream s ≠ None ∧ IMAGE_CHANNEL ≤ length (m_queue s).

Lemma full_closed s : full s → (length (m_queue s) <? IMAGE_CHANNEL)%nat = false.
Proof. intros [_ F]. by apply Nat.ltb_ge. Qed.

Lemma send_full m s : full s → send_upstream m s = (false, s).
Proof. intros F. unfold send_upstream. destruct (m_upstream s); [by rewrite full_closed|done]. Qed.
Lemma send_opt_full m s : full s → send_opt m s = (false, s).
Proof. intros F. destruct m; [by apply send_full|done]. Qed.
Lemma flush_full l s : full s → foldr flush_one s l = s.
Proof.
  intros F. induction l as [|x l IH]; simpl; [done|]. rewrite IH. unfold flush_one. case_match; [done|].
  by rewrite send_opt_full.
Qed.

Section stuck.
Context (h : string).

Lemma exec_wire i ans s s' t sp : exec h i ans s = Some (s', t, sp) → full s → i ≠ IAttach → wire s' = wire s.
Proof.
  intros H F Hi. exec_cases H; injection H as <- <- <-; try (by destruct Hi); try done; try reworked_done;
    rewrite ?send_full, ?flush_full by done; try done;
    try (match goal with P : send_opt _ _ = _ |- _ => rewrite send_opt_full in P by done; by simplify_eq end);
    try (exfalso; rewrite full_closed in * by done; discriminate).
Qed.

Lemma exec_no_attach i ans s s' t sp : exec h i ans s = Some (s', t, sp) → (IAttach ∉ t) ∧ ∀ u, u ∈ sp → (IAttach ∉ u).
Proof.
  intros H. exec_cases H; injection H as <- <- <-; unfold conclude; (split; [|intros u Hu]);
    try (by apply not_elem_of_nil in Hu); try (apply list_elem_of_singleton in Hu as ->);
    simpl; rewrite ?elem_of_app, ?elem_of_cons, ?elem_of_nil, ?list_elem_of_fmap; try naive_solver.
  all: intros Hu; repeat (rewrite ?elem_of_app, ?elem_of_cons, ?elem_of_nil, ?list_elem_of_fmap in Hu; simpl in Hu).
  all: naive_solver.
Qed.

(** ** Waiting for each other *)

(** A step of the process: it is not killed. *)
Inductive live_step (y y' : Sys) : Prop :=
| ls_thread i ans : thread_step h i ans y = Some y' → live_step y y'
| ls_event e : match e with EvRestart _ _ _ _ _ => False | _ => True end → occur e y = Some y' → live_step y y'.

(** The connection's task waits to handle [hd]; thread [k] holds the admission lock and waits for
    room in the channel of the connection that is up. *)
Definition wants_admission (i : Instr) : bool :=
  match i with IEnsure _ _ _ _ | IBuild _ _ _ | IRemove _ _ => true | _ => false end.

Record stuck (hd : Instr) (k : nat) (w : option nat * list AgentMsg * list AgentMsg) (y : Sys) : Prop := {
  st_inv : inv false y;
  st_head : wants_admission hd = true ∧ y_threads y !! 0 = Some [hd];
  st_blocked : k ≠ 0 ∧ ∃ c m rest, y_threads y !! k = Some (IBlocked c m :: rest) ∧ m_upstream (y_mgr y) = Some c ∧
    1 ≤ weigh writer_token rest;
  st_full : full (y_mgr y) ∧ wire (y_mgr y) = w;
  st_attach j t : y_threads y !! j = Some t → IAttach ∉ t }.

Lemma stuck_writer hd k w y : stuck hd k w y → m_writer (y_mgr y) = true.
Proof.
  intros [I _ (_ & c & m & rest & Hk & _ & W) _ _]. pose proof (weigh_all_lookup writer_token _ _ _ Hk) as L.
  rewrite weigh_cons in L. pose proof (inv_writer _ _ I) as E. unfold writing in E. destruct (m_writer (y_mgr y)); [done|lia].
Qed.

Lemma stuck_thread hd k w y i ans y' : stuck hd k w y → thread_step h i ans y = Some y' → stuck hd k w y'.
Proof.
  intros St H. pose proof (stuck_writer _ _ _ _ St) as Wr. destruct St as [I [Hw H0] (K0 & c & m & rest & Hk & U & W) [F E] A].
  pose proof (thread_inv _ _ _ _ _ _ I H) as I'. unfold thread_step in H.
  destruct (y_threads y !! i) as [[|ins r]|] eqn:Hi; [done| |done].
  destruct (exec h ins ans (y_mgr y)) as [[[s' t] sp]|] eqn:X; [|done]. injection H as <-.
  assert (N0 : i ≠ 0).
  { intros ->. rewrite H0 in Hi. injection Hi as <- <-.
    destruct hd; try discriminate Hw; destruct ans; try discriminate X; unfold exec in X; simpl in X; unfold admit_read in X; by rewrite Wr in X. }
  assert (Nk : i ≠ k).
  { intros ->. rewrite Hk in Hi. injection Hi as <- <-. destruct ans; try discriminate X. unfold exec in X. simpl in X.
    rewrite bool_decide_true in X by done. by rewrite full_closed in X. }
  assert (Na : ins ≠ IAttach) by (intros ->; by apply (A i _ Hi); left).
  pose proof (exec_wire _ _ _ _ _ _ X F Na) as Ew. destruct (exec_no_attach _ _ _ _ _ _ X) as [A1 A2].
  assert (L : ∀ j u, j ≠ i → y_threads y !! j = Some u → (<[i:=t ++ r]> (y_threads y) ++ sp) !! j = Some u)
    by (intros j u Nj Hj; apply lookup_app_l_Some; by rewrite list_lookup_insert_ne).
  injection Ew as Ew1 Ew2 Ew3. split; simpl; [done|split; auto| | |].
  - split; [done|]. exists c, m, rest. split_and!; [by apply L|by rewrite Ew1|done].
  - unfold full, wire in *. by rewrite Ew1, Ew2, Ew3.
  - intros j u Hj. destruct (thread_after _ _ _ _ _ _ _ _ Hi Hj) as [[-> ->]|[[Nj Oj]|[_ Hsp]]]; [|by eapply A|auto].
    rewrite elem_of_app. intros [?|Hr]; [done|]. apply (A i _ Hi). by right.
Qed.

Lemma stuck_event hd k w y e y' : stuck hd k w y → match e with EvRestart _ _ _ _ _ => False | _ => True end →
  occur e y = Some y' → stuck hd k w y'.
Proof.
  intros [I [Hw H0] (K0 & c & m & rest & Hk & U & W) [F E] A] Ne H. pose proof (event_inv _ _ _ _ I Ne H) as I'.
  assert (Id : idle y 0 = false) by (unfold idle; by rewrite H0).
  destruct e as [j cm| | | | |]; cbn [occur] in H; try done; [|..]; rewrite ?Id in H; try discriminate;
    [|by destruct (m_queue (y_mgr y))].
  destruct (idle y j) eqn:Ij; [|done]. destruct (_ || _); [|done]. injection H as <-.
  assert (Nj : j ≠ 0) by (intros ->; congruence). apply idle_some in Ij. assert (Njk : j ≠ k) by (intros ->; congruence).
  split; simpl; [done| | |done|].
  - by rewrite list_lookup_insert_ne.
  - split; [done|]. exists c, m, rest. by rewrite list_lookup_insert_ne.
  - intros i t Hi. destruct (decide (i = j)) as [->|Nij]; [|rewrite list_lookup_insert_ne in Hi by done; by eapply A].
    rewrite list_lookup_insert_eq in Hi by (by eapply lookup_lt_Some). injection Hi as <-. rewrite list_elem_of_singleton. by destruct cm.
Qed.

Lemma stuck_forever hd k w y y' : stuck hd k w y → rtc live_step y y' → stuck hd k w y'.
Proof.
  intros St H. induction H as [|y1 y2 y3 [i ans S|e Ne S] _ IH]; [done|apply IH; by eapply stuck_thread|apply IH; by eapply stuck_event].
Qed.

(** ** Getting there *)

Lemma run_step i ans s ins rest ts s' t sp : ts !! i = Some (ins :: rest) → exec h ins ans s = Some (s', t, sp) →
  mgr_step h (mkSys s ts) (mkSys s' (<[i := t ++ rest]> ts ++ sp)).
Proof. intros Hi X. apply (step_thread _ _ _ i ans). unfold thread_step. simpl. by rewrite Hi, X. Qed.

Lemma run_first ans s ins rest u s' t : exec h ins ans s = Some (s', t, []) →
  mgr_step h (mkSys s [ins :: rest; u]) (mkSys s' [t ++ rest; u]).
Proof. intros X. exact (run_step 0 ans s ins rest [ins :: rest; u] s' t [] eq_refl X). Qed.

(** The engine does not answer: the records stay what they are. *)
Lemma reconcile_unanswered s u rest todo :
  (∀ x, x ∈ todo → snd (fst x) = EmptyString → snd x = Absent) →
  rtc (mgr_step h) (mkSys s [IReconcile todo false :: rest; u]) (mkSys s [rest; u]).
Proof.
  induction todo as [|[[id r] was] todo IH]; intros A.
  - apply rtc_once. by apply (run_first NoAnswer s (IReconcile [] false) rest u s []).
  - eapply rtc_l; [|apply IH; intros x Hx; apply A; by right].
    apply (run_first (AnsPresent None) s _ rest u s [IReconcile todo false]). unfold exec. cbn [class_of exec_connection].
    specialize (A (id, r, was) ltac:(by left)). simpl in A. destruct (str_eqb r EmptyString) eqn:E; simpl; [|done].
    apply str_eqb_true in E. by rewrite A.
Qed.

(** What the flush of the attach leaves alone. *)
Definition kept (s : Mgr) := (m_records s, m_ops s, m_upstream s, m_readers s, m_writer s, m_image_locks s, m_cleanup s, m_journal s).
#[global] Arguments kept : simpl never.

(** Each record sent takes a place in the channel, while there is one. *)
Lemma emits_fill u rest ids s c : m_upstream s = Some c → m_pending_held s = false →
  (∀ id, id ∈ ids → is_Some (m_records s !! id)) → length (m_queue s) ≤ IMAGE_CHANNEL →
  ∃ s', rtc (mgr_step h) (mkSys s [map IEmitTerminal ids ++ rest; u]) (mkSys s' [rest; u]) ∧ kept s' = kept s ∧
    length (m_queue s') = min IMAGE_CHANNEL (length (m_queue s) + length ids).
Proof.
  revert s. induction ids as [|id ids IH]; intros s U Hp Hr Hq.
  - exists s. split_and!; [apply rtc_refl|done|cbn [length]; lia].
  - destruct (Hr id ltac:(by left)) as [r Er].
    set (s1 := with_pending true (m_terminal_pending s) s).
    assert (S1 : mgr_step h (mkSys s [map IEmitTerminal (id :: ids) ++ rest; u])
                   (mkSys s1 [ITerminalSend id (state_msg s id) :: map IEmitTerminal ids ++ rest; u])).
    { apply (run_first NoAnswer s (IEmitTerminal id) _ u s1 [ITerminalSend id (state_msg s id)]). unfold exec. simpl. by rewrite Hp. }
    destruct (send_opt (state_msg s id) s1) as [sent s2] eqn:Es.
    set (s3 := with_pending false (if sent then m_terminal_pending s2 ∖ {[id]} else {[id]} ∪ m_terminal_pending s2) s2).
    assert (S2 : mgr_step h (mkSys s1 [ITerminalSend id (state_msg s id) :: map IEmitTerminal ids ++ rest; u])
                   (mkSys s3 [map IEmitTerminal ids ++ rest; u])).
    { apply (run_first NoAnswer s1 (ITerminalSend id (state_msg s id)) _ u s3 []). unfold exec. simpl. by rewrite Es. }
    assert (Q : kept s3 = kept s ∧ m_pending_held s3 = false ∧ length (m_queue s3) = min IMAGE_CHANNEL (length (m_queue s) + 1)).
    { unfold state_msg in Es. rewrite Er in Es. simpl in Es. unfold send_upstream in Es. simpl in Es. rewrite U in Es.
      destruct (Nat.ltb_spec (length (m_queue s)) IMAGE_CHANNEL) as [L|L]; injection Es as <- <-; unfold s3, s1; (split_and!; [done|done|]);
        cbn [m_queue with_pending with_queue with_upstream]; rewrite ?length_app; cbn [length]; lia. }
    destruct Q as (Qk & Qp & Ql). pose proof Qk as Qk'. injection Qk as Q1 Q2 Q3 _ _ _ _ _.
    destruct (IH s3) as (s' & R & K & L); [exact (eq_trans Q3 U)|done|intros x Hx; cbn [m_records with_pending s3]; rewrite Q1; apply Hr; by right|lia|].
    exists s'. split_and!; [eapply rtc_l; [exact S1|eapply rtc_l; [exact S2|exact R]]|by rewrite K|rewrite L, Ql; cbn [length]; lia].
Qed.

(** Once the channel is full and nothing is under way: a clean-up that is refused, and then a command. *)
Lemma cleanup_blocks (cmd : string) (a : Attempt) (e : Command) (s : Mgr) (c : nat) :
  m_upstream s = Some c → m_ops s = ∅ → m_readers s = 0 → m_writer s = false → m_image_locks s = ∅ → m_cleanup s = true →
  m_journal s = mkCleanup (mkDisk ∅ ∅) (mkDisk ∅ ∅) → wants_admission (handler e) = true →
  ∃ s' m1 m2 x, rtc (mgr_step h) (mkSys s [[]; []])
    (mkSys s' [[handler e]; []; [IBlocked c m1; IBlockingSend m2; IUnlockImage x; IWriteUnlock]]) ∧
    m_upstream s' = Some c ∧ m_queue s' = m_queue s.
Proof.
  intros U O Rd Wr Lk Cl J He.
  set (b := cleanup_attempt (at_id a) (at_image a) (at_version a) (at_ref a) (at_runtime a) (at_generation a)).
  set (d1 := mkDisk (<[at_id b := b]> ∅) ∅).
  set (s1 := with_journal (mkCleanup d1 d1) s).
  set (s2 := with_admission 0 true s1).
  set (s3 := with_image_locks ({[at_image b]} ∪ m_image_locks s2) s2).
  set (why := if cleanup_malformed (at_image b) (at_version b) (at_ref b) (at_runtime b) (at_generation b) then "unsupported" else "inventory_unknown").
  set (d2 := mkDisk (<[at_id b := finished "failed" (Some why) b]> (dk_attempts d1)) ∅).
  set (s4 := with_journal (mkCleanup d2 d2) s3).
  set (report := [IBlockingSend (AckMsg cmd false (Some why)); IBlockingSend (CleanupStateMsg (finished "failed" (Some why) b))]).
  set (tail := [IUnlockImage (at_image b); IWriteUnlock]).
  exists s4, (AckMsg cmd false (Some why)), (CleanupStateMsg (finished "failed" (Some why) b)), (at_image b).
  split; [|by rewrite <- U].
  eapply rtc_l; [apply (step_event _ _ (mkSys s [[ICleanup cmd b]; []]) (EvCommand 0 (CmdCleanup cmd a))); reflexivity|].
  eapply rtc_l; [apply (run_first NoAnswer s (ICleanup cmd b) [] [] s [IBeginAppend cmd b])|].
  { unfold exec. simpl. rewrite Cl, J. unfold begin_known. simpl. by rewrite !lookup_empty. }
  eapply rtc_l; [apply (run_step 0 (AnsSave Saved) s (IBeginAppend cmd b) [] [[IBeginAppend cmd b]; []] s1 [] [[IRunCleanup cmd b]]); [done|]|].
  { unfold exec. simpl. rewrite J. unfold journal_update, begin_append, begin_known. simpl. by rewrite !lookup_empty. }
  eapply rtc_l; [apply (run_step 2 NoAnswer s1 (IRunCleanup cmd b) [] [[]; []; [IRunCleanup cmd b]] s2 [ICleanupLock cmd b; IWriteUnlock] []); [done|]|].
  { unfold exec. simpl. rewrite Wr, Rd. done. }
  eapply rtc_l; [apply (run_step 2 NoAnswer s2 (ICleanupLock cmd b) [IWriteUnlock] _ s3 [ICleanupCheck cmd b; IUnlockImage (at_image b)] []); [done|]|].
  { unfold exec. simpl. rewrite bool_decide_false; [done|]. rewrite Lk. set_solver. }
  eapply rtc_l; [apply (run_step 2 (AnsRefusal (Some "inventory_unknown")) s3 (ICleanupCheck cmd b) tail _ s3 [IFinish cmd b "failed" (Some why) false] []); [done|]|].
  { unfold exec. cbn [class_of exec_cleanup]. unfold why. destruct (cleanup_malformed _ _ _ _ _); [done|]. cbn [s3 s2 s1 m_ops with_image_locks with_admission with_journal]. by rewrite O. }
  eapply rtc_l; [apply (run_step 2 (AnsSave Saved) s3 (IFinish cmd b "failed" (Some why) false) tail _ s4 report []); [done|]|].
  { unfold exec. cbn [class_of exec_cleanup]. unfold finish, journal_update, finish_in. cbn [s3 s2 s1 m_journal with_image_locks with_admission with_journal cj_inner d1 dk_attempts].
    rewrite lookup_insert_eq. done. }
  eapply rtc_l; [apply (run_step 2 NoAnswer s4 (IBlockingSend (AckMsg cmd false (Some why))) (IBlockingSend (CleanupStateMsg (finished "failed" (Some why) b)) :: tail) _ s4 [IBlocked c (AckMsg cmd false (Some why))] []); [done|]|].
  { unfold exec. simpl. by rewrite U. }
  apply rtc_once. apply (step_event _ _ _ (EvCommand 0 e)). reflexivity.
Qed.

(** ** The records a flush sends *)

Lemma op_free_elem s x : x ∈ op_free s ↔ m_records s !! fst x = Some (snd x) ∧ m_ops s !! fst x = None.
Proof.
  unfold op_free. rewrite (sort_by_perm _ _), list_elem_of_filter. destruct x as [id r]. simpl. rewrite elem_of_map_to_list. tauto.
Qed.

Lemma op_free_length s : m_ops s = ∅ → length (op_free s) = size (m_records s).
Proof.
  intros O. unfold op_free. rewrite (sort_by_perm _ _), O.
  trans (length (map_to_list (m_records s))); [|by rewrite length_map_to_list].
  induction (map_to_list (m_records s)) as [|x l IH]; [done|]. rewrite filter_cons, decide_True by apply lookup_empty. simpl. by rewrite IH.
Qed.

(** (C24) A state file of 64 images fills the channel as the connection comes up. A clean-up that is
    refused and any image command after it then stop the connection's task for good: whatever
    happens, short of the process being killed, it never leaves that command, nothing enters or
    leaves the channel and the control plane is told nothing more. *)
Theorem cleanup_report_deadlocks file (cmd : string) (a : Attempt) (e : Command) : IMAGE_CHANNEL ≤ size file → wants_admission (handler e) = true →
  ∃ y, mgr_reachable h file y ∧ ∀ y', rtc live_step y y' →
    y_threads y' !! 0 = Some [handler e] ∧ m_queue (y_mgr y') = m_queue (y_mgr y) ∧ m_told (y_mgr y') = m_told (y_mgr y).
Proof.
  intros N He. set (m1 := manager_new true false (λ _, None) None (λ _, Saved) (y_mgr (fresh_host file))).
  set (todo := map (λ x, (fst x, ir_ref (snd x), ir_state (snd x))) (op_free m1)).
  set (m2 := with_upstream (Some 1) 1 [] m1). set (m3 := with_queue [VersionsMsg] m2).
  set (ids := map fst (op_free m3)).
  assert (R1 : mgr_reachable h file (mkSys m3 [map IEmitTerminal ids ++ []; []])).
  { eapply rtc_l; [apply (step_event _ _ (mkSys m1 [[]; []]) (EvRestart true false (λ _, None) None (λ _, Saved))); reflexivity|].
    eapply rtc_l; [apply (step_event _ _ (mkSys m1 [[IRefreshImages; IAttach]; []]) EvConnect); reflexivity|].
    eapply rtc_l; [by apply (run_first NoAnswer m1 IRefreshImages [IAttach] [] m1 [IReconcile todo false])|].
    etrans; [apply (reconcile_unanswered m1 [] [IAttach] todo)|].
    - intros x. unfold todo. rewrite list_elem_of_fmap. intros (z & -> & Hz). apply op_free_elem in Hz as [Hz _].
      cbn [m1 manager_new m_records] in Hz. rewrite lookup_fmap in Hz. destruct (m_saved _ !! z.1) as [r|]; [|done]. injection Hz as <-.
      simpl. unfold startup_record. simpl. destruct (str_eqb (ir_ref r) EmptyString) eqn:E; simpl; [done|]. intros Z. rewrite Z in E. by vm_compute in E.
    - eapply rtc_l; [by apply (run_first NoAnswer m1 IAttach [] [] m2 [ISend VersionsMsg; IFlushOpFree])|].
      eapply rtc_l; [by apply (run_first NoAnswer m2 (ISend VersionsMsg) [IFlushOpFree] [] m3 [])|].
      apply rtc_once. apply (run_first NoAnswer m3 IFlushOpFree [] [] m3 (map IEmitTerminal ids)).
      unfold exec, ids. simpl. by rewrite map_map. }
  destruct (emits_fill [] [] ids m3 1) as (s & R2 & K & L); [done|done| |vm_compute; lia|].
  { intros id. unfold ids. rewrite list_elem_of_fmap. intros (z & -> & [Hz _]%op_free_elem). eauto. }
  injection K as _ O U Rd Wr Lk Cl J.
  destruct (cleanup_blocks cmd a e s 1) as (s' & w1 & w2 & x & R3 & U' & Q'); try done.
  assert (R : mgr_reachable h file (mkSys s' [[handler e]; []; [IBlocked 1 w1; IBlockingSend w2; IUnlockImage x; IWriteUnlock]]))
    by (unfold mgr_reachable; etrans; [exact R1|etrans; [exact R2|exact R3]]).
  assert (F : full s').
  { split; [by rewrite U'|]. rewrite Q', L. unfold ids. rewrite length_map, op_free_length by done. change (m_records m3) with (startup_record (λ _, None) <$> file). rewrite map_size_fmap. lia. }
  eexists. split; [exact R|]. intros y' H. destruct (reachable_alive _ _ _ R) as [[[T _] _]|I]; [done|].
  assert (St : stuck (handler e) 2 (wire s') (mkSys s' [[handler e]; []; [IBlocked 1 w1; IBlockingSend w2; IUnlockImage x; IWriteUnlock]])).
  { split; [done|done| |done|].
    - split; [done|]. by exists 1, w1, [IBlockingSend w2; IUnlockImage x; IWriteUnlock].
    - intros [|[|[|j]]] t; simpl; try (intros [= <-]); rewrite ?elem_of_cons, ?elem_of_nil; try done;
        intros Z; repeat destruct Z as [Z|Z]; try done; by destruct e. }
  apply (stuck_forever _ _ _ _ _ St) in H. destruct H as [_ [_ H0] _ [_ E] _]. injection E as _ E1 E2. done.
Qed.
End stuck.
