(* ===== verification/ImageExamples.v ===== *)
(** * Image manager: concrete schedules

    Runs of the model, the witnesses of the theorems on them, and one order of sends that leaves the
    control plane with an old state. *)
From S2P Require Import Prelude Platform Images ImageCleanup ImageManager ImageInv ImageThreads ImageProcess ImageReach ImageSafety ImageStuck.

(** ** Turns *)

(** Thread [i] goes [n] times, asked nothing. *)
Definition go_on (i n : nat) : list Turn := repeat (Run i NoAnswer) n.
Definition writes (i : nat) : list Turn := [Run i (AnsWrite true)].

Definition img_ref : string := "reg/x:sha-0123456".
Definition removal : Attempt := mkAttempt "a1" "x" "1" img_ref "sha256:5" "7" "removing" None.
Definition saves : Attempt → SaveEnd := λ _, Saved.

(** The process starts on an empty host and its connection comes up. *)
Definition attach (cleanup : bool) : list Turn :=
  [Happen (EvRestart cleanup true (λ _, Some false) None saves); Happen EvConnect] ++ go_on 0 (if cleanup then 5 else 4).
Definition ensure : Turn := Happen (EvCommand 0 (CmdEnsure "c1" "x" img_ref "1")).
(** Ensured up to the acknowledgement; the worker is thread 2. *)
Definition ensured : list Turn := attach false ++ [ensure] ++ go_on 0 3 ++ writes 0 ++ go_on 0 5.
(** Pulling. *)
Definition pulls : list Turn :=
  ensured ++ go_on 2 3 ++ writes 2 ++ go_on 2 3 ++ [Run 2 (AnsFree (Some 100000%Z))] ++ go_on 2 2 ++ writes 2 ++ go_on 2 2.
(** Pulled: about to commit. *)
Definition pulled : list Turn := pulls ++ [Run 2 (AnsWork (WDone 5))].
(** The worker to its end. *)
Definition ends : list Turn := go_on 2 3 ++ writes 2 ++ go_on 2 3 ++ [Run 2 (AnsSnapshot false)] ++ go_on 2 2.
(** The same ensure again while the worker runs: its message is made, and not sent yet. *)
Definition again : list Turn := [ensure] ++ go_on 0 4.
(** Then sent, after the worker is done; the check of the ready record finds the image present. *)
Definition late : list Turn := go_on 0 5 ++ [Run 3 (AnsPresent (Some true))] ++ go_on 3 1 ++ repeat (Happen EvDrain) 5.
(** An exact removal, up to the engine. *)
Definition removing : list Turn :=
  attach true ++ [Happen (EvCommand 0 (CmdCleanup "c2" removal)); Run 0 NoAnswer; Run 0 (AnsSave Saved)] ++
  go_on 2 2 ++ [Run 2 (AnsRefusal None)].

(** Where a schedule ends, on a host without images. *)
Definition ran (l : list Turn) : Sys := default (fresh_host ∅) (play "" l (fresh_host ∅)).
Definition goes (l : list Turn) : bool := bool_decide (is_Some (play "" l (fresh_host ∅))).

Lemma ran_play l : goes l = true → play "" l (fresh_host ∅) = Some (ran l).
Proof. intros [y E]%bool_decide_eq_true. unfold ran. by rewrite E. Qed.

Lemma ran_reachable l : goes l = true → mgr_reachable "" ∅ (ran l).
Proof. intros H%ran_play. by eapply play_reaches. Qed.

(** Restarts whose inspections are all answered. *)
Definition settling (t : Turn) : Prop :=
  match t with Happen e => answered true e | Run _ _ => True end.

Lemma play_settles l : Forall settling l → ∀ y y', play "" l y = Some y' → rtc (answered_step true "") y y'.
Proof.
  induction 1 as [|t l Ht Hl IH]; simpl; intros y y'; [intros [= <-]; apply rtc_refl|].
  destruct (take_turn "" t y) as [y1|] eqn:E; [|done]. intros H. eapply rtc_l; [|by apply IH].
  destruct t as [i ans|e]; [by eapply as_thread|by eapply as_event].
Qed.

Lemma settling_app l : Forall settling (attach false ++ l) ↔ Forall settling l.
Proof.
  rewrite Forall_app. split; [by intros []|]. intros H. split; [|done]. by repeat constructor.
Qed.

(** ** One worker *)

(** One worker per image, on a host that pulls one. *)
Lemma image_has_one_worker_witness : mgr_reachable "" ∅ (ran pulls) ∧
  (is_Some (m_ops (y_mgr (ran pulls)) !! "x") ↔ ∃ k t, y_threads (ran pulls) !! k = Some t ∧ works "x" t) ∧
  m_ops (y_mgr (ran pulls)) !! "x" = Some (mkSlot (Ensure "1" img_ref) 1 None).
Proof.
  assert (R : mgr_reachable "" ∅ (ran pulls)) by (apply ran_reachable; vm_compute; reflexivity).
  split; [exact R|]. split; [|vm_compute; reflexivity].
  exact (proj1 (image_has_one_worker "" ∅ (ran pulls) "x" R)).
Defined.

(** The worker of a pull that ended. *)
Lemma commit_never_stale_witness : mgr_reachable "" ∅ (ran pulled) ∧
  head <$> (y_threads (ran pulled) !! 2) = Some (Some (ICommit "x" 1 (CReady 5))) ∧
  should_commit (sl_generation <$> m_ops (y_mgr (ran pulled)) !! "x") 1 = true.
Proof.
  assert (R : mgr_reachable "" ∅ (ran pulled)) by (apply ran_reachable; vm_compute; reflexivity).
  split; [exact R|]. split; [vm_compute; reflexivity|].
  apply (commit_never_stale "" ∅ (ran pulled) 2 "x" 1 (CReady 5)
    [INotify "x" true; IPersist; IEmitTerminal "x"; IReleasePermit; IRefreshInventory; IPromote "x"] R).
  vm_compute. reflexivity.
Defined.

(** The record it leaves. *)
Lemma ready_was_seen_witness :
  m_records (y_mgr (ran (pulled ++ ends))) !! "x" = Some (mkRec img_ref "1" Ready 100 5 EmptyString None) ∧
  img_ref ∈ m_seen (y_mgr (ran (pulled ++ ends))).
Proof.
  assert (E : m_records (y_mgr (ran (pulled ++ ends))) !! "x" = Some (mkRec img_ref "1" Ready 100 5 EmptyString None)) by (vm_compute; reflexivity).
  split; [exact E|].
  apply (ready_was_seen "" ∅ (ran (pulled ++ ends)) "x" (mkRec img_ref "1" Ready 100 5 EmptyString None)); [|exact E|reflexivity].
  apply ran_reachable. vm_compute. reflexivity.
Defined.

(** The removal of a clean-up. *)
Lemma exact_removal_alone_witness : mgr_reachable "" ∅ (ran removing) ∧ m_asked (y_mgr (ran removing)) = ["a1"] ∧ m_ops (y_mgr (ran removing)) = ∅.
Proof.
  assert (R : mgr_reachable "" ∅ (ran removing)) by (apply ran_reachable; vm_compute; reflexivity).
  split; [exact R|]. split; [vm_compute; reflexivity|].
  apply (exact_removal_alone "" ∅ (ran removing) 2 "c2" removal [IUnlockImage "x"; IWriteUnlock] R). vm_compute. reflexivity.
Defined.

(** Two permits, one of them held. *)
Lemma pulls_capped_witness : mgr_reachable "" ∅ (ran pulls) ∧ m_permits (y_mgr (ran pulls)) = 1 ∧
  length (filter (λ t, pulling t = true) (y_threads (ran pulls))) ≤ MAX_CONCURRENT_PULLS.
Proof.
  assert (R : mgr_reachable "" ∅ (ran pulls)) by (apply ran_reachable; vm_compute; reflexivity).
  split; [exact R|]. split; [vm_compute; reflexivity|]. exact (pulls_capped "" ∅ (ran pulls) R).
Defined.

(** One operation. *)
Lemma operations_capped_witness : mgr_reachable "" ∅ (ran pulls) ∧ size (m_ops (y_mgr (ran pulls))) ≤ MAX_CONCURRENT_OPS + 2.
Proof.
  assert (R : mgr_reachable "" ∅ (ran pulls)) by (apply ran_reachable; vm_compute; reflexivity).
  split; [exact R|]. exact (operations_capped "" ∅ (ran pulls) R).
Defined.

(** The record of an image nobody works on. *)
Lemma idle_images_settled_witness : m_ops (y_mgr (ran (pulled ++ ends))) !! "x" = None ∧
  ir_state (mkRec img_ref "1" Ready 100 5 EmptyString None) ∈ [Absent; Ready; Failed].
Proof.
  assert (O : m_ops (y_mgr (ran (pulled ++ ends))) !! "x" = None) by (vm_compute; reflexivity). split; [exact O|].
  apply (idle_images_settled "" ∅ (ran (pulled ++ ends)) "x"); [|vm_compute; reflexivity|exact O].
  eapply play_settles; [|apply ran_play; vm_compute; reflexivity].
  unfold pulled, pulls, ensured. rewrite <- !app_assoc. apply settling_app. repeat constructor.
Defined.

(** ** Clean-up *)

(** The attempt that reached the engine. *)
Lemma cleanup_asked_once_witness : m_asked (y_mgr (ran removing)) = ["a1"] ∧ knows (cj_file (m_journal (y_mgr (ran removing)))) "a1".
Proof.
  assert (E : m_asked (y_mgr (ran removing)) = ["a1"]) by (vm_compute; reflexivity). split; [exact E|].
  apply (cleanup_asked_once "" ∅ (ran removing)); [apply ran_reachable; vm_compute; reflexivity|]. rewrite E. left.
Defined.

(** A state file of 64 images. *)
Definition crowded : gmap string ImageRecord :=
  list_to_map (map (λ n, (Nat.iter n (String "a") EmptyString, empty_record)) (seq 0 64)).

Lemma cleanup_report_deadlocks_witness : ∃ y, mgr_reachable "" crowded y ∧ ∀ y', rtc (live_step "") y y' →
  y_threads y' !! 0 = Some [IEnsure "c1" "x" img_ref "1"] ∧ m_queue (y_mgr y') = m_queue (y_mgr y) ∧
  m_told (y_mgr y') = m_told (y_mgr y).
Proof.
  apply (cleanup_report_deadlocks "" crowded "c2" removal (CmdEnsure "c1" "x" img_ref "1")); [apply Nat.leb_le; vm_compute; reflexivity|reflexivity].
Defined.

(** ** Messages out of order *)

(** (C34) The lossy message of an ensure can be made before the worker's last one and sent after it:
    the image is ready, nothing runs and nothing waits to be sent, and the last the control plane
    was told is that it is being pulled. *)
Theorem stale_state_told : ∃ y, mgr_reachable "" ∅ y ∧ Forall (λ t, t = []) (y_threads y) ∧
  m_queue (y_mgr y) = [] ∧ m_terminal_pending (y_mgr y) = ∅ ∧ m_ops (y_mgr y) = ∅ ∧
  ir_state <$> m_records (y_mgr y) !! "x" = Some Ready ∧
  last (m_told (y_mgr y)) = Some (ImageStateMsg "x" "1" (as_wire_str Pulling) 0 0 EmptyString).
Proof.
  exists (ran (pulled ++ again ++ ends ++ late)). split; [apply ran_reachable; vm_compute; reflexivity|].
  split; [|vm_compute; repeat split]. vm_compute. repeat constructor.
Qed.
