(* ===== verification/Inventory.v ===== *)
(** * The inventory of image versions

    The model, and what it promises. *)
From S2P Require Import Prelude Platform Images ImageCleanup.

(** * The inventory of image versions

    [src/images/version_inventory.rs]: every managed image version the host was ever told of, the
    engine image each was bound to, and whether the last scan of the engine accounts for all of
    them. An exact removal needs [matches]. The callers hold [reconcile_lock] over every change,
    so an operation is one step; what was saved before a restart is in [vi_file]. *)

(** ** Data *)

Record VersionRecord := mkVersion { vr_ref : string; vr_runtime : string }.
#[global] Instance VersionRecord_eq_dec : EqDecision VersionRecord.
Proof. solve_decision. Defined.

Abbreviation Versions := (gmap string (gmap string VersionRecord)).

Record ImageIdentity := mkIdentity { ii_image : string; ii_version : string; ii_ref : string }.
Record ImageVersionEntry := mkEntry {
  en_image : string; en_version : string; en_ref : string; en_runtime : string; en_state : string;
  en_referenced : option bool }.
Record DaemonImage := mkDaemon { di_id : string; di_refs : list string }.

Record VersionInventory := mkInventory {
  vi_disk : Versions; vi_file : Versions; vi_complete : bool; vi_entries : list ImageVersionEntry; vi_authority : bool }.

(** The records in the order of the maps. *)
Definition in_order {A} (m : gmap string A) : list (string * A) := sort_by (λ x y, str_leb (fst x) (fst y)) (map_to_list m).
Definition records_of (d : Versions) : list (string * string * VersionRecord) :=
  concat (map (λ x, map (λ y, (fst x, fst y, snd y)) (in_order (snd x))) (in_order d)).

Definition find_version (d : Versions) (image version : string) : option VersionRecord := d !! image ≫= (.!! version).
Definition put_version (image version : string) (r : VersionRecord) (d : Versions) : Versions :=
  <[image := <[version := r]> (default ∅ (d !! image))]> d.

(** ** Operations *)

Definition unknown_entry (e : ImageVersionEntry) : ImageVersionEntry :=
  mkEntry (en_image e) (en_version e) (en_ref e) (en_runtime e) "unknown" None.

(** [VersionInventory::open] *)
Definition inventory_open (file : Versions) : VersionInventory :=
  mkInventory file file false
    (map (λ x, mkEntry (fst (fst x)) (snd (fst x)) (vr_ref (snd x)) (vr_runtime (snd x)) "unknown" None) (records_of file)) false.

Definition revoke (v : VersionInventory) : VersionInventory :=
  mkInventory (vi_disk v) (vi_file v) false (map unknown_entry (vi_entries v)) (vi_authority v).
Definition mark_authority_received (v : VersionInventory) : VersionInventory :=
  mkInventory (vi_disk v) (vi_file v) (vi_complete v) (vi_entries v) true.
Definition revoke_authority (v : VersionInventory) : VersionInventory :=
  revoke (mkInventory (vi_disk v) (vi_file v) (vi_complete v) (vi_entries v) false).

(** A save that failed: the file may have it all the same. *)
Definition unsaved (written : bool) (next : Versions) (v : VersionInventory) : VersionInventory :=
  mkInventory (vi_disk v) (if written then next else vi_file v) (vi_complete v) (vi_entries v) (vi_authority v).

(** [remember]: whether it succeeded. *)
Definition remember (io : SaveEnd) (i : ImageIdentity) (v : VersionInventory) : bool * VersionInventory :=
  match find_version (vi_disk v) (ii_image i) (ii_version i) with
  | Some old => if str_eqb (vr_ref old) (ii_ref i) then (true, v) else (false, revoke v)
  | None =>
      let next := put_version (ii_image i) (ii_version i) (mkVersion (ii_ref i) EmptyString) (vi_disk v) in
      match io with
      | Saved =>
          (true, mkInventory next next false
                   (map unknown_entry (vi_entries v) ++ [mkEntry (ii_image i) (ii_version i) (ii_ref i) EmptyString "unknown" None])
                   (vi_authority v))
      | NotSaved written => (false, unsaved written next v)
      end
  end.

Fixpoint remember_all (io : ImageIdentity → SaveEnd) (l : list ImageIdentity) (v : VersionInventory) : bool * VersionInventory :=
  match l with
  | [] => (true, v)
  | i :: l => let '(ok, v) := remember (io i) i v in if ok then remember_all io l v else (false, v)
  end.

(** The engine's references; [None] where one names two images. *)
Definition add_ref (id : string) (acc : option (gmap string string)) (r : string) : option (gmap string string) :=
  match acc with
  | None => None
  | Some m => match m !! r with
              | Some other => if str_eqb other id then Some (<[r := id]> m) else None
              | None => Some (<[r := id]> m)
              end
  end.
Definition add_image (acc : option (gmap string string)) (i : DaemonImage) : option (gmap string string) :=
  foldl (add_ref (di_id i)) acc (di_refs i).
Definition refs_of (daemon : list DaemonImage) : option (gmap string string) := foldl add_image (Some ∅) daemon.

Definition repository (reference : string) : option string :=
  match split_once "@" reference with
  | Some (name, _) => Some name
  | None => fst <$> rsplit_once ":" reference
  end.

Definition bind_record (refs : gmap string string) (r : VersionRecord) : VersionRecord :=
  match refs !! vr_ref r with
  | Some id => if str_eqb (vr_runtime r) EmptyString then mkVersion (vr_ref r) id else r
  | None => r
  end.
Definition bind_all (refs : gmap string string) (d : Versions) : Versions := fmap (M := gmap string) (bind_record refs) <$> d.

Definition values (d : Versions) : list VersionRecord := map snd (records_of d).

(** What keeps a scan from accounting for everything. *)
Definition unclassified (refs : gmap string string) (d : Versions) : bool :=
  let known := map vr_ref (values d) in
  let managed := omap repository known in
  existsb (λ r, match repository r with Some name => bool_decide (name ∈ managed) | None => false end && negb (bool_decide (r ∈ known)))
    (map fst (map_to_list refs)).
Definition binding_changed (refs : gmap string string) (r : VersionRecord) : bool :=
  match refs !! vr_ref r with
  | Some id => negb (str_eqb (vr_runtime r) EmptyString) && negb (str_eqb id (vr_runtime r))
  | None => false
  end.
Definition orphaned_container (refs : gmap string string) (containers : list string) (r : VersionRecord) : bool :=
  negb (str_eqb (vr_runtime r) EmptyString) && bool_decide (refs !! vr_ref r = None) && bool_decide (vr_runtime r ∈ containers).
Definition unbound (r : VersionRecord) : bool := str_eqb (vr_runtime r) EmptyString.

(** One record of [entries]. *)
Definition entry_of (refs : gmap string string) (containers : list string) (x : string * string * VersionRecord) : ImageVersionEntry :=
  let '(image, version, r) := x in
  let state := match refs !! vr_ref r with
               | Some id => if str_eqb id (vr_runtime r) && negb (str_eqb id EmptyString) then "present" else "unknown"
               | None => if negb (str_eqb (vr_runtime r) EmptyString) && negb (bool_decide (vr_runtime r ∈ containers))
                         then "absent" else "unknown"
               end in
  mkEntry image version (vr_ref r) (vr_runtime r) state
    (if str_eqb state "present" then Some (bool_decide (vr_runtime r ∈ containers)) else None).

Definition accounted (refs : gmap string string) (containers : list string) (authority : bool) (d : Versions) : bool :=
  negb (unclassified refs d) && negb (existsb (binding_changed refs) (values d))
  && negb (existsb (orphaned_container refs containers) (values d))
  && negb (existsb unbound (values (bind_all refs d))) && authority.

(** [reconcile] *)
Definition reconcile (io_ids : ImageIdentity → SaveEnd) (io : SaveEnd) (identities : list ImageIdentity)
    (daemon : list DaemonImage) (containers : list string) (v : VersionInventory)
    : option (bool * list ImageVersionEntry) * VersionInventory :=
  let '(ok, v) := remember_all io_ids identities v in
  if negb ok then (None, v)
  else match refs_of daemon with
  | None => (None, revoke v)
  | Some refs =>
      let next := bind_all refs (vi_disk v) in
      let complete := accounted refs containers (vi_authority v) (vi_disk v) in
      match io with
      | NotSaved written => (None, unsaved written next v)
      | Saved =>
          let found := map (entry_of refs containers) (records_of next) in
          let found := if complete then found else map unknown_entry found in
          (Some (complete, found), mkInventory next next complete found (vi_authority v))
      end
  end.

Definition matches (i : ImageIdentity) (runtime_id : string) (v : VersionInventory) : bool :=
  vi_complete v &&
  match find_version (vi_disk v) (ii_image i) (ii_version i) with
  | Some r => str_eqb (vr_ref r) (ii_ref i) && str_eqb (vr_runtime r) runtime_id && negb (str_eqb runtime_id EmptyString)
  | None => false
  end.

(** What a host's process does with its inventory: [run_reconcile_worker] and
    [refresh_version_inventory] revoke where [reconcile] fails. *)
Inductive InventoryOp :=
| VRemember (io : SaveEnd) (i : ImageIdentity)
| VReconcile (io_ids : ImageIdentity → SaveEnd) (io : SaveEnd) (identities : list ImageIdentity) (daemon : list DaemonImage) (containers : list string)
| VRevoke
| VAuthority
| VRevokeAuthority
| VRestart.

Definition inventory_step (v : VersionInventory) (o : InventoryOp) : VersionInventory :=
  match o with
  | VRemember io i => snd (remember io i v)
  | VReconcile io_ids io ids daemon containers =>
      let '(r, v) := reconcile io_ids io ids daemon containers v in
      match r with Some _ => v | None => revoke v end
  | VRevoke => revoke v
  | VAuthority => mark_authority_received v
  | VRevokeAuthority => revoke_authority v
  | VRestart => inventory_open (vi_file v)
  end.

Definition inventory_after (file : Versions) (l : list InventoryOp) : VersionInventory := foldl inventory_step (inventory_open file) l.

(** * The inventory never says more than it knows

    What a sequence of operations, restarts and failed writes included, leaves of the inventory:
    identities stay what they were, and what is published follows from the last scan. *)

(** ** Lookups *)

Lemma in_order_elem {A} (m : gmap string A) x : x ∈ in_order m ↔ m !! fst x = Some (snd x).
Proof. unfold in_order. rewrite (sort_by_perm _ _). destruct x. apply elem_of_map_to_list. Qed.

Lemma records_elem d i v r : (i, v, r) ∈ records_of d ↔ find_version d i v = Some r.
Proof.
  unfold records_of, find_version. rewrite list_elem_of_In, in_concat. split.
  - intros (l & Hl & Hr). apply list_elem_of_In, list_elem_of_fmap in Hl as ([i' m] & -> & Hm%in_order_elem).
    apply list_elem_of_In, list_elem_of_fmap in Hr as ([v' r'] & [= -> -> ->] & Hv%in_order_elem). simpl in *. by rewrite Hm.
  - destruct (d !! i) as [m|] eqn:E; simpl; [|done]. intros Hv. exists (map (λ y, (i, fst y, snd y)) (in_order m)). split.
    + apply list_elem_of_In, list_elem_of_fmap. exists (i, m). split; [done|by apply in_order_elem].
    + apply list_elem_of_In, list_elem_of_fmap. exists (v, r). split; [done|by apply in_order_elem].
Qed.

Lemma values_elem d r : r ∈ values d ↔ ∃ i v, find_version d i v = Some r.
Proof.
  unfold values. rewrite list_elem_of_fmap. split.
  - intros ([[i v] r'] & -> & H%records_elem). eauto.
  - intros (i & v & H%records_elem). by exists (i, v, r).
Qed.

Lemma find_put d image version r i v :
  find_version (put_version image version r d) i v = if decide (i = image ∧ v = version) then Some r else find_version d i v.
Proof.
  unfold find_version, put_version. destruct (decide (i = image)) as [->|Hi].
  - rewrite lookup_insert_eq. simpl. destruct (decide (v = version)) as [->|Hv].
    + rewrite lookup_insert_eq, decide_True by done. done.
    + rewrite lookup_insert_ne, decide_False by naive_solver. destruct (d !! image); simpl; [done|by rewrite lookup_empty].
  - rewrite lookup_insert_ne, decide_False by naive_solver. done.
Qed.

Lemma find_bind refs d i v : find_version (bind_all refs d) i v = bind_record refs <$> find_version d i v.
Proof.
  unfold find_version, bind_all. rewrite lookup_fmap. destruct (d !! i) as [m|]; simpl; [|done]. by rewrite lookup_fmap.
Qed.

Lemma bind_record_ref refs r : vr_ref (bind_record refs r) = vr_ref r.
Proof. unfold bind_record. by repeat case_match. Qed.

(** ** Identities *)

(** What [d] says, [d'] says too; a version that was bound stays bound. *)
Definition frozen (d d' : Versions) : Prop :=
  ∀ i v r, find_version d i v = Some r → ∃ r', find_version d' i v = Some r' ∧ vr_ref r' = vr_ref r ∧
    (vr_runtime r ≠ EmptyString → vr_runtime r' = vr_runtime r).

#[global] Instance frozen_preorder : PreOrder frozen.
Proof.
  split; [intros d i v r H; eauto|]. intros d1 d2 d3 H1 H2 i v r H. destruct (H1 _ _ _ H) as (r2 & F2 & R2 & B2).
  destruct (H2 _ _ _ F2) as (r3 & F3 & R3 & B3). exists r3. split_and!; [done|congruence|]. intros Hr. rewrite B3; rewrite B2; done.
Qed.

Lemma put_frozen image version r d : find_version d image version = None → frozen d (put_version image version r d).
Proof. intros N i v x H. exists x. rewrite find_put, decide_False by naive_solver. done. Qed.

Lemma bind_frozen refs d : frozen d (bind_all refs d).
Proof.
  intros i v r H. exists (bind_record refs r). rewrite find_bind, H, bind_record_ref. split_and!; [done|done|].
  intros Hr. unfold bind_record. destruct (refs !! vr_ref r); [|done]. destruct (str_eqb (vr_runtime r) EmptyString) eqn:E; [|done].
  by apply str_eqb_true in E.
Qed.

(** An operation forgets nothing, of memory or of the file memory came from. *)
Definition keeps (v v' : VersionInventory) : Prop :=
  frozen (vi_disk v) (vi_file v) → frozen (vi_disk v) (vi_disk v') ∧ frozen (vi_disk v') (vi_file v').

Lemma keeps_refl v : keeps v v.
Proof. by split. Qed.
Lemma keeps_trans v1 v2 v3 : keeps v1 v2 → keeps v2 v3 → keeps v1 v3.
Proof. intros H1 H2 S. destruct (H1 S) as [F1 S1]. destruct (H2 S1) as [F2 S2]. split; [by etrans|done]. Qed.
Lemma keeps_revoke v : keeps v (revoke v).
Proof. by split. Qed.
Lemma keeps_unsaved w next v : frozen (vi_disk v) next → keeps v (unsaved w next v).
Proof. intros F S. split; [done|]. simpl. by destruct w. Qed.

Lemma remember_keeps io i v : keeps v (snd (remember io i v)).
Proof.
  unfold remember. destruct (find_version (vi_disk v) (ii_image i) (ii_version i)) as [old|] eqn:E.
  - destruct (str_eqb (vr_ref old) (ii_ref i)); [apply keeps_refl|apply keeps_revoke].
  - pose proof (put_frozen _ _ (mkVersion (ii_ref i) EmptyString) _ E) as P. destruct io; [by split|by apply keeps_unsaved].
Qed.

Lemma remember_all_keeps io l v : keeps v (snd (remember_all io l v)).
Proof.
  revert v. induction l as [|i l IH]; intros v; simpl; [apply keeps_refl|].
  pose proof (remember_keeps (io i) i v) as K. destruct (remember (io i) i v) as [[] v1]; simpl in *; [|done].
  by eapply keeps_trans.
Qed.

Lemma reconcile_keeps ios io ids daemon containers v : keeps v (snd (reconcile ios io ids daemon containers v)).
Proof.
  unfold reconcile. pose proof (remember_all_keeps ios ids v) as K. destruct (remember_all ios ids v) as [[] v1]; simpl in *; [|done].
  eapply keeps_trans; [exact K|]. destruct (refs_of daemon) as [refs|]; [|apply keeps_revoke].
  destruct io; simpl; [intros _; split; [apply bind_frozen|done]|apply keeps_unsaved, bind_frozen].
Qed.

Lemma step_keeps v o : keeps v (inventory_step v o).
Proof.
  destruct o; simpl; try (by split).
  - apply remember_keeps.
  - pose proof (reconcile_keeps io_ids io identities daemon containers v) as K.
    destruct (reconcile _ _ _ _ _ v) as [[r|] v1]; simpl in *; [done|]. eapply keeps_trans; [exact K|apply keeps_revoke].
Qed.

Lemma steps_keep l v : keeps v (foldl inventory_step v l).
Proof.
  revert v. induction l as [|o l IH]; intros v; simpl; [apply keeps_refl|]. eapply keeps_trans; [apply step_keeps|apply IH].
Qed.

(** (C32) A version once on record keeps its reference, and once it is bound to an image of the
    engine it stays bound to it, whatever is asked, scanned or lost, restarts included. *)
Theorem identity_frozen file l l' image version r :
  find_version (vi_disk (inventory_after file l)) image version = Some r →
  ∃ r', find_version (vi_disk (inventory_after file (l ++ l'))) image version = Some r' ∧ vr_ref r' = vr_ref r ∧
    (vr_runtime r ≠ EmptyString → vr_runtime r' = vr_runtime r).
Proof.
  unfold inventory_after. rewrite foldl_app. intros H. apply (steps_keep l' (foldl inventory_step (inventory_open file) l)); [|done].
  apply (steps_keep l (inventory_open file)). done.
Qed.

(** ** Scans *)

(** [refs_of] names what the daemon lists. *)
Definition lists (daemon : list DaemonImage) (id r : string) : Prop := ∃ i, i ∈ daemon ∧ di_id i = id ∧ r ∈ di_refs i.

Lemma add_refs_some id rs m m' : foldl (add_ref id) (Some m) rs = Some m' →
  ∀ r x, m' !! r = Some x ↔ m !! r = Some x ∨ (x = id ∧ r ∈ rs).
Proof.
  revert m. induction rs as [|r0 rs IH]; intros m; cbn [foldl].
  - intros [= <-] r x. rewrite elem_of_nil. tauto.
  - unfold add_ref at 2. destruct (m !! r0) as [other|] eqn:E.
    + destruct (str_eqb other id) eqn:Eq; [|intros H; exfalso; clear -H; by induction rs].
      apply str_eqb_true in Eq as ->. rewrite insert_id by done. intros H r x. rewrite (IH _ H r x), elem_of_cons. naive_solver.
    + intros H r x. rewrite (IH _ H r x), elem_of_cons. destruct (decide (r = r0)) as [->|].
      * rewrite lookup_insert_eq, E. naive_solver.
      * rewrite lookup_insert_ne by done. naive_solver.
Qed.

Lemma add_images_some daemon m m' : foldl add_image (Some m) daemon = Some m' →
  ∀ r x, m' !! r = Some x ↔ m !! r = Some x ∨ lists daemon x r.
Proof.
  revert m. induction daemon as [|i daemon IH]; intros m; cbn [foldl].
  - intros [= <-] r x. unfold lists. split; [auto|]. intros [|(j & Hj & _)]; [done|by apply not_elem_of_nil in Hj].
  - unfold add_image at 2. destruct (foldl (add_ref (di_id i)) (Some m) (di_refs i)) as [m1|] eqn:E.
    + intros H r x. rewrite (IH _ H r x), (add_refs_some _ _ _ _ E r x). unfold lists. split.
      * intros [[|[-> ?]]|(j & Hj & ?)]; [by left|right; exists i; split; [left|done]|right; exists j; split; [by right|done]].
      * intros [|(j & [->|Hj]%elem_of_cons & <- & ?)]; [auto|auto|right; by exists j].
    + intros H. exfalso. clear -H. induction daemon as [|j d IH]; simpl in H; [done|].
      apply IH. rewrite <- H. f_equal. unfold add_image. induction (di_refs j); simpl; auto.
Qed.

Lemma refs_of_some daemon m : refs_of daemon = Some m → ∀ r x, m !! r = Some x ↔ lists daemon x r.
Proof. intros H r x. rewrite (add_images_some _ _ _ H r x), lookup_empty. naive_solver. Qed.

(** ** What a complete inventory rests on *)

(** The scan accounts for the records. *)
Definition proven (refs : gmap string string) (containers : list string) (d : Versions) : Prop :=
  (∀ i v r, find_version d i v = Some r → vr_runtime r ≠ EmptyString ∧
     match refs !! vr_ref r with Some id => id = vr_runtime r | None => vr_runtime r ∉ containers end) ∧
  (∀ ref id i v r, refs !! ref = Some id → find_version d i v = Some r → repository (vr_ref r) ≠ None →
     repository ref = repository (vr_ref r) → ∃ i' v' r', find_version d i' v' = Some r' ∧ vr_ref r' = ref).

Lemma existsb_false {A} (f : A → bool) l x : existsb f l = false → x ∈ l → f x = false.
Proof. intros H Hx. destruct (f x) eqn:E; [|done]. rewrite <- H. symmetry. apply existsb_exists. exists x. by rewrite <- list_elem_of_In. Qed.

Lemma bound_record refs containers r : binding_changed refs r = false → orphaned_container refs containers r = false →
  unbound (bind_record refs r) = false →
  vr_runtime (bind_record refs r) ≠ EmptyString ∧
  match refs !! vr_ref r with Some id => id = vr_runtime (bind_record refs r) | None => vr_runtime (bind_record refs r) ∉ containers end.
Proof.
  unfold binding_changed, orphaned_container, unbound. intros B O U. split.
  - intros E. rewrite E in U. by vm_compute in U.
  - unfold bind_record in *. destruct (refs !! vr_ref r) as [id|] eqn:E.
    + destruct (str_eqb (vr_runtime r) EmptyString); simpl in *; [done|]. apply negb_false_iff, str_eqb_true in B. done.
    + rewrite U in O. simpl in O. by case_bool_decide.
Qed.

Lemma accounted_proven refs containers authority d :
  accounted refs containers authority d = true → proven refs containers (bind_all refs d).
Proof.
  unfold accounted. rewrite !andb_true_iff, !negb_true_iff. intros ((((Un & Bi) & Or) & Ub) & _). split.
  - intros i v r. rewrite find_bind. destruct (find_version d i v) as [r0|] eqn:F; [|done]. intros [= <-]. rewrite bind_record_ref.
    assert (V : r0 ∈ values d) by (apply values_elem; eauto).
    apply bound_record; [by eapply existsb_false|by eapply existsb_false|].
    eapply existsb_false; [exact Ub|]. apply values_elem. exists i, v. by rewrite find_bind, F.
  - intros ref id i v r R. rewrite find_bind. destruct (find_version d i v) as [r0|] eqn:F; [|done]. intros [= <-]. rewrite bind_record_ref.
    intros Nn Eq. assert (K : ref ∈ map vr_ref (values d)).
    { pose proof (existsb_false _ _ ref Un) as Z. cbn beta in Z. rewrite Eq in Z. destruct (repository (vr_ref r0)) as [name|] eqn:En; [|done].
      rewrite bool_decide_true in Z; [|apply list_elem_of_omap; exists (vr_ref r0); split; [|done]; apply list_elem_of_fmap; exists r0; split; [done|]; apply values_elem; eauto].
      destruct (decide (ref ∈ map vr_ref (values d))) as [|N]; [done|exfalso]. rewrite bool_decide_false in Z by done.
      discriminate Z. apply list_elem_of_fmap. exists (ref, id). split; [done|by apply elem_of_map_to_list]. }
    apply list_elem_of_fmap in K as (r1 & -> & (i1 & v1 & F1)%values_elem).
    exists i1, v1, (bind_record refs r1). by rewrite find_bind, F1, bind_record_ref.
Qed.

(** ** What is published *)

Abbreviation Scan := (list DaemonImage * list string)%type.

(** The last scan the inventory was given. *)
Definition scan_after (s : option Scan) (o : InventoryOp) : option Scan :=
  match o with VReconcile _ _ _ daemon containers => Some (daemon, containers) | _ => s end.
Definition last_scan (l : list InventoryOp) : option Scan := foldl scan_after None l.

Definition honest (s : option Scan) (v : VersionInventory) : Prop :=
  if vi_complete v
  then ∃ daemon containers refs, s = Some (daemon, containers) ∧ refs_of daemon = Some refs ∧ vi_authority v = true ∧
         proven refs containers (vi_disk v) ∧ vi_entries v = map (entry_of refs containers) (records_of (vi_disk v))
  else ∀ e, e ∈ vi_entries v → en_state e = "unknown" ∧ en_referenced e = None.

Lemma unknown_entries l e : e ∈ map unknown_entry l → en_state e = "unknown" ∧ en_referenced e = None.
Proof. intros (e' & -> & _)%list_elem_of_fmap. done. Qed.

Lemma honest_revoke s v : honest s (revoke v).
Proof. unfold honest. simpl. intros e. apply unknown_entries. Qed.

Lemma remember_honest s io i v : honest s v → honest s (snd (remember io i v)).
Proof.
  intros H. unfold remember. destruct (find_version (vi_disk v) (ii_image i) (ii_version i)) as [old|].
  - destruct (str_eqb (vr_ref old) (ii_ref i)); [done|apply honest_revoke].
  - destruct io; [|done]. unfold honest. simpl. intros e. rewrite elem_of_app, list_elem_of_singleton.
    intros [E| ->]; [by eapply unknown_entries|done].
Qed.

Lemma reconcile_honest ios io ids daemon containers v r v' :
  reconcile ios io ids daemon containers v = (Some r, v') → honest (Some (daemon, containers)) v'.
Proof.
  unfold reconcile. destruct (remember_all ios ids v) as [[] v1]; simpl; [|done].
  destruct (refs_of daemon) as [refs|] eqn:R; [|done]. destruct io; [|done]. intros [= <- <-]. unfold honest. simpl.
  destruct (accounted refs containers (vi_authority v1) (vi_disk v1)) eqn:A.
  - exists daemon, containers, refs. split_and!; [done|done| |by eapply accounted_proven|done].
    unfold accounted in A. by apply andb_true_iff in A as [_ A].
  - intros e. apply unknown_entries.
Qed.

Lemma step_honest s o v : honest s v → honest (scan_after s o) (inventory_step v o).
Proof.
  intros H. destruct o; simpl; try apply honest_revoke.
  - by apply remember_honest.
  - destruct (reconcile io_ids io identities daemon containers v) as [[r|] v'] eqn:E; [by eapply reconcile_honest|apply honest_revoke].
  - unfold honest in *. simpl. destruct (vi_complete v); [|done]. destruct H as (d & c & refs & ? & ? & _ & ? & ?). by exists d, c, refs.
  - unfold honest. simpl. intros e (x & -> & _)%list_elem_of_fmap. done.
Qed.

Lemma after_honest file l : honest (last_scan l) (inventory_after file l).
Proof.
  unfold last_scan, inventory_after. assert (H : honest None (inventory_open file)).
  { unfold honest. simpl. intros e (x & -> & _)%list_elem_of_fmap. done. }
  revert H. generalize (None : option Scan), (inventory_open file). induction l as [|o l IH]; intros s v H; simpl; [done|].
  by apply IH, step_honest.
Qed.

(** What is published is what the last scan showed: in a complete inventory a version is
    present exactly with an image the engine lists for its reference, or it is absent, its
    reference unlisted and no container using its image; in any other every version is unknown. *)
Theorem snapshot_is_honest file l e : e ∈ vi_entries (inventory_after file l) →
  if vi_complete (inventory_after file l)
  then ∃ daemon containers, last_scan l = Some (daemon, containers) ∧
    (en_state e = "present" ∧ lists daemon (en_runtime e) (en_ref e) ∧
       en_referenced e = Some (bool_decide (en_runtime e ∈ containers)) ∨
     en_state e = "absent" ∧ (∀ id, ¬ lists daemon id (en_ref e)) ∧ (en_runtime e ∉ containers) ∧ en_referenced e = None)
  else en_state e = "unknown" ∧ en_referenced e = None.
Proof.
  pose proof (after_honest file l) as H. unfold honest in H. destruct (vi_complete (inventory_after file l)); [|by apply H].
  destruct H as (daemon & containers & refs & -> & R & _ & [P _] & ->). pose proof (refs_of_some _ _ R) as L.
  rewrite list_elem_of_fmap. intros ([[i v] r] & -> & F%records_elem). exists daemon, containers. split; [done|].
  destruct (P _ _ _ F) as [Nz M]. unfold entry_of. simpl. destruct (refs !! vr_ref r) as [id|] eqn:E.
  - subst id. left. rewrite str_eqb_refl. rewrite (proj2 (str_eqb_false _ _) Nz). simpl. split_and!; [done|by apply L|done].
  - right. rewrite (proj2 (str_eqb_false _ _) Nz), bool_decide_false by done. simpl. split_and!; [done| |done|done].
    intros id Hid%L. congruence.
Qed.

(** (C31) Where the inventory lets an exact removal go ahead, the last scan either lists exactly
    that image for the reference, or does not list the reference and shows no container of the
    image; and every reference it lists in the same repository is a version on record. *)
Theorem matches_proven file l i runtime_id : matches i runtime_id (inventory_after file l) = true →
  ∃ daemon containers, last_scan l = Some (daemon, containers) ∧ runtime_id ≠ EmptyString ∧
    (lists daemon runtime_id (ii_ref i) ∨ (∀ id, ¬ lists daemon id (ii_ref i)) ∧ runtime_id ∉ containers) ∧
    ∀ id ref, lists daemon id ref → repository (ii_ref i) ≠ None → repository ref = repository (ii_ref i) →
      ∃ image version r, find_version (vi_disk (inventory_after file l)) image version = Some r ∧ vr_ref r = ref.
Proof.
  pose proof (after_honest file l) as H. unfold matches. destruct (vi_complete (inventory_after file l)) eqn:C; [|done].
  unfold honest in H. rewrite C in H. destruct H as (daemon & containers & refs & -> & R & _ & [P1 P2] & _).
  pose proof (refs_of_some _ _ R) as L. simpl. destruct (find_version _ (ii_image i) (ii_version i)) as [r|] eqn:F; [|done].
  rewrite !andb_true_iff, negb_true_iff. intros [[E1%str_eqb_true E2%str_eqb_true] E3%str_eqb_false].
  exists daemon, containers. destruct (P1 _ _ _ F) as [_ M]. rewrite E1, E2 in M. split_and!; [done|done| |].
  - destruct (refs !! ii_ref i) as [id|] eqn:E; [left; subst id; by apply L|right]. split; [|done]. intros id Hid%L. congruence.
  - intros id ref Hl%L. rewrite <- E1. intros Nn Eq. exact (P2 ref id _ _ r Hl F Nn Eq).
Qed.

(** ** A host with one image *)

Definition one_ref : string := "reg/x:sha-0123456".
Definition one_identity : ImageIdentity := mkIdentity "x" "1" one_ref.
(** The control plane names the image, and a scan finds it. *)
Definition named : list InventoryOp :=
  [VAuthority; VReconcile (λ _, Saved) Saved [one_identity] [mkDaemon "sha256:5" [one_ref]] ["sha256:5"]].
(** Then the agent restarts, and a write of the next scan fails. *)
Definition lost : list InventoryOp :=
  [VRestart; VReconcile (λ _, Saved) (NotSaved true) [one_identity] [mkDaemon "sha256:6" [one_ref]] []].

Lemma identity_frozen_witness :
  find_version (vi_disk (inventory_after ∅ named)) "x" "1" = Some (mkVersion one_ref "sha256:5") ∧
  ∃ r', find_version (vi_disk (inventory_after ∅ (named ++ lost))) "x" "1" = Some r' ∧ vr_ref r' = one_ref ∧
    ("sha256:5" ≠ EmptyString → vr_runtime r' = "sha256:5").
Proof.
  assert (E : find_version (vi_disk (inventory_after ∅ named)) "x" "1" = Some (mkVersion one_ref "sha256:5")) by (vm_compute; reflexivity).
  split; [exact E|]. exact (identity_frozen ∅ named lost "x" "1" (mkVersion one_ref "sha256:5") E).
Defined.

Lemma snapshot_is_honest_witness : vi_complete (inventory_after ∅ named) = true ∧
  ∃ daemon containers, last_scan named = Some (daemon, containers) ∧
    ("present" = "present" ∧ lists daemon "sha256:5" one_ref ∧ Some true = Some (bool_decide ("sha256:5" ∈ containers)) ∨
     "present" = "absent" ∧ (∀ id, ¬ lists daemon id one_ref) ∧ ("sha256:5" ∉ containers) ∧ Some true = None).
Proof.
  assert (C : vi_complete (inventory_after ∅ named) = true) by (vm_compute; reflexivity). split; [exact C|].
  assert (E : vi_entries (inventory_after ∅ named) = [mkEntry "x" "1" one_ref "sha256:5" "present" (Some true)]) by (vm_compute; reflexivity).
  pose proof (snapshot_is_honest ∅ named (mkEntry "x" "1" one_ref "sha256:5" "present" (Some true))) as H.
  rewrite C, E in H. exact (H ltac:(left)).
Defined.

Lemma matches_proven_witness : matches one_identity "sha256:5" (inventory_after ∅ named) = true ∧
  ∃ daemon containers, last_scan named = Some (daemon, containers).
Proof.
  assert (M : matches one_identity "sha256:5" (inventory_after ∅ named) = true) by (vm_compute; reflexivity).
  split; [exact M|]. destruct (matches_proven ∅ named one_identity "sha256:5" M) as (d & c & E & _). exists d, c. exact E.
Defined.
