(* ===== verification/ImageContext.v ===== *)
(** * Build contexts

    [src/images/build.rs]: the download of a template's context under a size cap and a deadline,
    and the extraction of the tarball. The reads of the connection, the entries of the archive,
    the clock and the outcomes of the file system's calls are inputs; what the code does with
    them, every call it makes included, is [download_context] and [extract_context]. *)
From S2P Require Import Prelude MountPolicy Images.

(** ** Download *)

Definition MAX_CONTEXT_BYTES : Z := 536870912.
Definition MAX_EXTRACTED_BYTES : Z := 2147483648.
Definition MAX_ENTRIES : Z := 100000.
Definition READ_BUFFER : Z := 65536.
#[global] Arguments MAX_CONTEXT_BYTES : simpl never.
#[global] Arguments MAX_EXTRACTED_BYTES : simpl never.
#[global] Arguments MAX_ENTRIES : simpl never.

(** One turn of the loop: whether the deadline has passed, what the connection has ([None]: an
    error), and whether the file takes it. *)
Record ReadTurn := mkRead { rd_late : bool; rd_bytes : option Z; rd_writes : bool }.

(** How much a [read] of the limited reader returns. *)
Definition taken (have written : Z) : Z := Z.max 0 (Z.min have (Z.min READ_BUFFER (MAX_CONTEXT_BYTES + 1 - written))).

(** The loop of [download_context], with the number of bytes it wrote. Where the turns end, so does
    the body. *)
Fixpoint download_loop (turns : list ReadTurn) (written : Z) : result unit string * Z :=
  match turns with
  | [] => (Ok tt, written)
  | t :: turns =>
      if rd_late t then (Err "build context download timed out", written)
      else match rd_bytes t with
      | None => (Err "build context read failed", written)
      | Some have =>
          let n := taken have written in
          if (n =? 0)%Z then (Ok tt, written)
          else if negb (rd_writes t) then (Err "could not write build context file", written)
          else let written := (written + n)%Z in
               if (MAX_CONTEXT_BYTES <? written)%Z then (Err "build context exceeds the 512 MiB size cap", written)
               else download_loop turns written
      end
  end.

(** [download_context]: [late] before it starts, the response's status ([None]: no response), and
    whether the file could be made. *)
Definition download_context (late : bool) (status : option Z) (creates : bool) (turns : list ReadTurn) : result unit string * Z :=
  if late then (Err "build context download timed out", 0%Z)
  else match status with
  | None => (Err "build context download failed", 0%Z)
  | Some code =>
      if negb (code =? 200)%Z then (Err "build context download failed", 0%Z)
      else if negb creates then (Err "could not create build context file", 0%Z)
      else download_loop turns 0
  end.

(** ** Extraction *)

Inductive EntryType := RegularFile | Directory | OtherEntry.

(** An entry of the archive: the size its header declares, if it can be read, its type and its path. *)
Record TarEntry := mkTar { te_size : option Z; te_type : EntryType; te_path : option string }.

(** What the extraction asks of the file system. *)
Inductive FsCall := CreateDirAll (p : Path) | Unpack (p : Path) (size : Z).

Definition parent_of (p : Path) : Path := take (pred (length p)) p.

(** [Path::strip_prefix] *)
Fixpoint strip_path (base p : Path) : option Path :=
  match base, p with
  | [], _ => Some p
  | c :: base, d :: p => if bool_decide (c = d) then strip_path base p else None
  | _ :: _, [] => None
  end.

Section extract.
(** The clock before each entry, and how a call ends after those before it. *)
Variable late : nat → bool.
Variable performs : list FsCall → FsCall → bool.

(** The calls one after the other: the calls made, and whether all of them succeeded. *)
Fixpoint perform (calls done : list FsCall) : bool * list FsCall :=
  match calls with
  | [] => (true, done)
  | c :: calls => if performs done c then perform calls (done ++ [c]) else (false, done ++ [c])
  end.

Definition calls_for (dest under : Path) (e : TarEntry) (size : Z) : list FsCall :=
  let target := dest ++ under in
  match te_type e with
  | Directory => [CreateDirAll target]
  | _ => [CreateDirAll (parent_of target); Unpack target size]
  end.

(** The part of an entry's path below the archive's top directory, if the entry may be looked at;
    an empty one is the top directory itself. *)
Definition entry_below (e : TarEntry) : result Path string :=
  match te_path e with
  | None => Err "build context tarball has an unreadable entry path"
  | Some raw =>
      match sanitize_relative raw with
      | None => Err "unsafe tar entry path (path traversal) in build context"
      | Some safe => Ok (tail safe)
      end
  end.

(** The loop of [extract_context]: [n] entries seen, [total] bytes declared, whether an entry was
    [found] under the context, the calls made so far. *)
Fixpoint extract_loop (subdir dest : Path) (entries : list (option TarEntry)) (n : nat) (total : Z) (found : bool)
    (done : list FsCall) : result bool string * list FsCall :=
  match entries with
  | [] => (Ok found, done)
  | e :: entries =>
      if late n then (Err "build context extraction timed out", done)
      else match e with
      | None => (Err "build context tarball is corrupt", done)
      | Some e =>
          let size := default 0%Z (te_size e) in
          let total := (total + size)%Z in
          if (MAX_ENTRIES <? Z.of_nat (S n))%Z then (Err "build context has too many entries", done)
          else if (U64_MAX <? total)%Z then (Err "build context declared size overflow", done)
          else if (MAX_EXTRACTED_BYTES <? total)%Z then (Err "build context uncompressed size exceeds the cap", done)
          else match entry_below e with
          | Err err => (Err err, done)
          | Ok [] => extract_loop subdir dest entries (S n) total found done
          | Ok below =>
              match strip_path subdir below with
              | None => extract_loop subdir dest entries (S n) total found done
              | Some under =>
                  match te_type e with
                  | OtherEntry => (Err "build context contains a disallowed link or special file", done)
                  | _ =>
                      let '(ok, done) := perform (calls_for dest under e size) done in
                      if ok then extract_loop subdir dest entries (S n) total true done
                      else (Err "could not unpack build context entry", done)
                  end
              end
          end
      end
  end.

(** [extract_context]; [entries] is [None] where the tarball cannot be opened. *)
Definition extract_context (context_subdir : string) (dest : Path) (entries : option (list (option TarEntry)))
    : result unit string * list FsCall :=
  match sanitize_relative context_subdir with
  | None => (Err "invalid context_subdir (path traversal)", [])
  | Some subdir =>
      match entries with
      | None => (Err "build context tarball is unreadable", [])
      | Some entries =>
          match extract_loop subdir dest entries 0 0 false [] with
          | (Err e, done) => (Err e, done)
          | (Ok false, done) => (Err "context_subdir not found in the build context tarball", done)
          | (Ok true, done) => (Ok tt, done)
          end
      end
  end.
End extract.

(** ** What the extraction does *)

Definition normal_path (p : Path) : Prop := Forall (λ c, is_normal c = true) p.

Lemma sanitize_normal p q : sanitize_components p = Some q → normal_path q.
Proof.
  revert q. induction p as [|[| | |c] p IH]; intros q; simpl; try done.
  - intros [= <-]. constructor.
  - apply IH.
  - destruct (sanitize_components p) as [q'|]; [|done]. intros [= <-]. constructor; [done|by apply IH].
Qed.

Lemma strip_path_app base p q : strip_path base p = Some q → p = base ++ q.
Proof.
  revert p. induction base as [|c base IH]; intros p; simpl; [by intros [= ->]|]. destruct p as [|d p]; [done|].
  case_bool_decide as E; [|done]. intros H%IH. by subst.
Qed.

Lemma entry_below_normal e p : entry_below e = Ok p → normal_path p.
Proof.
  unfold entry_below. destruct (te_path e) as [raw|]; [|done]. unfold sanitize_relative.
  destruct (sanitize_components (components raw)) as [q|] eqn:E; [|done]. intros [= <-]. apply sanitize_normal in E.
  destruct E; [constructor|done].
Qed.

(** A call that stays where it should: below [dest], or the directory [dest] is in. *)
Definition inside (dest : Path) (c : FsCall) : Prop :=
  match c with
  | CreateDirAll p => p = parent_of dest ∨ ∃ under, normal_path under ∧ p = dest ++ under
  | Unpack p _ => ∃ under, normal_path under ∧ p = dest ++ under
  end.

Lemma parent_app dest under : parent_of (dest ++ under) = parent_of dest ∧ under = [] ∨ parent_of (dest ++ under) = dest ++ parent_of under.
Proof.
  destruct under as [|c under _] using rev_ind; [left; by rewrite app_nil_r|right].
  unfold parent_of. rewrite !length_app. simpl. rewrite take_app.
  replace (pred (length dest + (length under + 1)) - length dest) with (pred (length under + 1)) by lia.
  by rewrite take_ge by lia.
Qed.

Lemma calls_inside dest under e size : normal_path under → Forall (inside dest) (calls_for dest under e size).
Proof.
  intros N. assert (T : ∃ u, normal_path u ∧ dest ++ under = dest ++ u) by eauto.
  assert (P : inside dest (CreateDirAll (parent_of (dest ++ under)))).
  { destruct (parent_app dest under) as [[-> _]| ->]; [by left|right]. exists (parent_of under). split; [|done]. by apply Forall_take. }
  unfold calls_for. destruct (te_type e); cbv zeta; repeat (apply Forall_cons; split); try apply Forall_nil; first [done|exact P|exact T|by right].
Qed.

Lemma perform_calls performs calls done ok done' : perform performs calls done = (ok, done') →
  ∃ made, done' = done ++ made ∧ made `prefix_of` calls ∧ (ok = true → made = calls).
Proof.
  revert done. induction calls as [|c calls IH]; intros done; simpl.
  - intros [= <- <-]. exists []. rewrite app_nil_r. split_and!; [done|apply prefix_nil|done].
  - destruct (performs done c).
    + intros (made & -> & P & Ok)%IH. exists (c :: made). rewrite <- app_assoc. split_and!; [done|by apply prefix_cons|]. intros ->%Ok. done.
    + intros [= <- <-]. exists [c]. split_and!; [done|apply prefix_cons, prefix_nil|done].
Qed.

Definition unpacked (c : FsCall) : Z := match c with Unpack _ size => Z.max 0 size | _ => 0 end.
Definition bytes_unpacked (l : list FsCall) : Z := foldr (λ c n, (unpacked c + n)%Z) 0%Z l.
Definition is_unpack (c : FsCall) : bool := match c with Unpack _ _ => true | CreateDirAll _ => false end.
Definition unpacks (l : list FsCall) : nat := length (filter (λ c, is_unpack c = true) l).

Lemma bytes_app l1 l2 : bytes_unpacked (l1 ++ l2) = (bytes_unpacked l1 + bytes_unpacked l2)%Z.
Proof. induction l1 as [|c l1 IH]; simpl; [done|]. rewrite IH. lia. Qed.
Lemma bytes_nonneg l : (0 <= bytes_unpacked l)%Z.
Proof. induction l as [|[] l IH]; simpl; lia. Qed.
Lemma unpacks_app l1 l2 : unpacks (l1 ++ l2) = unpacks l1 + unpacks l2.
Proof. unfold unpacks. by rewrite filter_app, length_app. Qed.

(** One entry's calls, as far as they get. *)
Lemma made_bounds dest under e size made : (0 <= size)%Z → made `prefix_of` calls_for dest under e size →
  (bytes_unpacked made <= size)%Z ∧ unpacks made ≤ 1.
Proof.
  intros Hs [rest E]. pose proof (bytes_app made rest) as B. pose proof (unpacks_app made rest) as U. rewrite <- E in B, U.
  pose proof (bytes_nonneg rest). unfold calls_for in B, U.
  destruct (te_type e); unfold unpacks in *; rewrite ?filter_cons, ?filter_nil in U; simpl in B, U; lia.
Qed.

(** What the loop has done so far. *)
Definition tame (dest : Path) (n : nat) (total : Z) (done : list FsCall) : Prop :=
  Forall (inside dest) done ∧ (bytes_unpacked done <= total <= MAX_EXTRACTED_BYTES)%Z ∧ unpacks done ≤ n ∧ (Z.of_nat n <= MAX_ENTRIES)%Z.

Definition sized (e : option TarEntry) : Prop := match e with Some e => (0 <= default 0%Z (te_size e))%Z | None => True end.

Lemma extract_loop_tame late performs subdir dest entries : Forall sized entries → ∀ n total found done r calls,
  tame dest n total done → extract_loop late performs subdir dest entries n total found done = (r, calls) →
  ∃ n' total', tame dest n' total' calls.
Proof.
  induction 1 as [|e entries Hs _ IH]; intros n total found done r calls T; simpl.
  { intros [= _ <-]. eauto. }
  destruct (late n); [intros [= _ <-]; eauto|]. destruct e as [e|]; [|intros [= _ <-]; eauto]. simpl in Hs.
  destruct (Z.ltb_spec MAX_ENTRIES (Z.of_nat (S n))) as [|Hn]; [intros [= _ <-]; eauto|].
  destruct (U64_MAX <? _)%Z; [intros [= _ <-]; eauto|].
  destruct (Z.ltb_spec MAX_EXTRACTED_BYTES (total + default 0%Z (te_size e))) as [|Ht]; [intros [= _ <-]; eauto|].
  destruct T as (F & B & U & N). assert (T' : tame dest (S n) (total + default 0%Z (te_size e)) done) by (repeat split; [done|lia..]).
  destruct (entry_below e) as [[|c below]|err] eqn:Eb; [by apply IH| |intros [= _ <-]; eauto].
  destruct (strip_path subdir (c :: below)) as [under|] eqn:Es; [|by apply IH].
  apply entry_below_normal in Eb. apply strip_path_app in Es. rewrite Es in Eb. apply Forall_app in Eb as [_ Nu].
  assert (G : ∀ ok made, perform performs (calls_for dest under e (default 0%Z (te_size e))) done = (ok, made) →
               tame dest (S n) (total + default 0%Z (te_size e)) made).
  { intros ok made (l & -> & P & _)%perform_calls. destruct (made_bounds _ _ _ _ _ Hs P). repeat split; rewrite ?bytes_app, ?unpacks_app; try lia.
    apply Forall_app. split; [done|]. pose proof (calls_inside dest under e (default 0%Z (te_size e)) Nu) as C. destruct P as [x P]. rewrite P in C.
    by apply Forall_app in C as [C _]. }
  destruct (te_type e); [| |intros [= _ <-]; eauto];
    (destruct (perform performs _ done) as [[] made] eqn:Ep; [apply IH; by eapply G|intros [= _ <-]; eauto]).
Qed.

(** (C35) Whatever the archive holds and whichever calls fail, an extraction writes only below its
    directory: every file and directory it makes is [dest] followed by plain names, but for the
    directory [dest] itself lies in; the sizes it has accepted stay within the cap, and so does the
    number of files. *)
Theorem extraction_confined late performs subdir dest entries r calls : Forall sized entries →
  extract_context late performs subdir dest (Some entries) = (r, calls) →
  Forall (inside dest) calls ∧ (bytes_unpacked calls <= MAX_EXTRACTED_BYTES)%Z ∧ (Z.of_nat (unpacks calls) <= MAX_ENTRIES)%Z.
Proof.
  intros Hs. unfold extract_context. destruct (sanitize_relative subdir) as [sub|]; [|intros [= _ <-]; by repeat split].
  destruct (extract_loop _ _ sub dest entries 0 0 false []) as [r0 calls0] eqn:E.
  assert (T0 : tame dest 0 0 []) by (repeat split; [constructor|done..]).
  destruct (extract_loop_tame _ _ _ _ _ Hs _ _ _ _ _ _ T0 E) as (n & total & F & B & U & N).
  intros H. assert (calls = calls0) as -> by (destruct r0 as [[]|]; by injection H). split_and!; [done|lia|lia].
Qed.

(** ** A successful extraction *)

(** What an entry is worth: its calls, if it lies under the context. *)
Definition wanted (subdir dest : Path) (e : option TarEntry) : list FsCall :=
  match e with
  | Some e =>
      match entry_below e with
      | Ok (c :: below) =>
          match strip_path subdir (c :: below) with
          | Some under => calls_for dest under e (default 0%Z (te_size e))
          | None => []
          end
      | _ => []
      end
  | None => []
  end.
(** An entry an extraction can succeed on. *)
Definition acceptable (subdir : Path) (e : option TarEntry) : Prop :=
  match e with
  | Some e => ∃ below, entry_below e = Ok below ∧ (below ≠ [] → strip_path subdir below ≠ None → te_type e ≠ OtherEntry)
  | None => False
  end.

Lemma extract_loop_exact late performs subdir dest entries : ∀ n total found done found' calls,
  extract_loop late performs subdir dest entries n total found done = (Ok found', calls) →
  calls = done ++ concat (map (wanted subdir dest) entries) ∧ Forall (acceptable subdir) entries.
Proof.
  induction entries as [|e entries IH]; intros n total found done found' calls; simpl.
  { intros [= _ <-]. by rewrite app_nil_r. }
  destruct (late n); [done|]. destruct e as [e|]; [|done].
  destruct (MAX_ENTRIES <? _)%Z; [done|]. destruct (U64_MAX <? _)%Z; [done|]. destruct (MAX_EXTRACTED_BYTES <? _)%Z; [done|].
  destruct (entry_below e) as [[|c below]|err] eqn:Eb; [| |done].
  - intros H. apply IH in H as [-> A]. split; [|constructor; [by exists []|done]].
    assert (W : wanted subdir dest (Some e) = []) by (unfold wanted; by rewrite Eb). by rewrite W.
  - destruct (strip_path subdir (c :: below)) as [under|] eqn:Es.
    + intros H. assert (Ot : te_type e ≠ OtherEntry) by (intros Z; by rewrite Z in H).
      assert (H' : (let '(ok, made) := perform performs (calls_for dest under e (default 0%Z (te_size e))) done in
                    if ok then extract_loop late performs subdir dest entries (S n) (total + default 0%Z (te_size e)) true made
                    else (Err "could not unpack build context entry", made)) = (Ok found', calls)) by (by destruct (te_type e)).
      clear H. destruct (perform performs _ done) as [[] made] eqn:Ep; [|done]. apply perform_calls in Ep as (l & -> & _ & Ok). rewrite Ok in * by done.
      apply IH in H' as [-> A]. split; [|constructor; [by exists (c :: below)|done]].
      assert (W : wanted subdir dest (Some e) = calls_for dest under e (default 0%Z (te_size e))) by (unfold wanted; by rewrite Eb, Es).
      by rewrite W, <- app_assoc.
    + intros H. apply IH in H as [-> A]. split; [|constructor; [exists (c :: below); split; [done|congruence]|done]].
      assert (W : wanted subdir dest (Some e) = []) by (unfold wanted; by rewrite Eb, Es). by rewrite W.
Qed.

(** An extraction that succeeds did everything the archive asks for under the context
    directory, in the archive's order, and nothing else; no entry's path leaves the archive and no
    entry it unpacked is a link or a special file. *)
Theorem extraction_exact late performs context_subdir dest entries calls :
  extract_context late performs context_subdir dest entries = (Ok tt, calls) →
  ∃ subdir l, sanitize_relative context_subdir = Some subdir ∧ entries = Some l ∧
    calls = concat (map (wanted subdir dest) l) ∧ Forall (acceptable subdir) l.
Proof.
  unfold extract_context. destruct (sanitize_relative context_subdir) as [subdir|]; [|done]. destruct entries as [l|]; [|done].
  destruct (extract_loop late performs subdir dest l 0 0 false []) as [[[]|err] calls'] eqn:E; [|done|done]. intros [= <-].
  apply extract_loop_exact in E as [-> A]. by exists subdir, l.
Qed.

(** ** What a download writes *)

Lemma taken_bounds have written : (0 <= taken have written)%Z ∧ (written <= MAX_CONTEXT_BYTES → written + taken have written <= MAX_CONTEXT_BYTES + 1)%Z.
Proof. unfold taken, READ_BUFFER. lia. Qed.

Lemma download_loop_bounds turns : ∀ written r n, (0 <= written <= MAX_CONTEXT_BYTES)%Z → download_loop turns written = (r, n) →
  (0 <= n <= MAX_CONTEXT_BYTES + 1)%Z ∧ (r = Ok tt → (n <= MAX_CONTEXT_BYTES)%Z).
Proof.
  induction turns as [|t turns IH]; intros written r n W; cbn [download_loop]; [intros [= <- <-]; lia|].
  destruct (rd_late t); [intros [= <- <-]; lia|]. destruct (rd_bytes t) as [have|]; [|intros [= <- <-]; lia].
  pose proof (taken_bounds have written) as [T1 T2]. destruct (taken have written =? 0)%Z; [intros [= <- <-]; lia|].
  destruct (rd_writes t); simpl; [|intros [= <- <-]; lia].
  destruct (Z.ltb_spec MAX_CONTEXT_BYTES (written + taken have written)) as [L|L]; [intros [= <- <-]; split; [lia|done]|].
  apply IH. lia.
Qed.

(** A download never writes more than one byte over its cap, however much the source sends, and
    never succeeds over it. *)
Theorem download_bounded late status creates turns r n : download_context late status creates turns = (r, n) →
  (0 <= n <= MAX_CONTEXT_BYTES + 1)%Z ∧ (r = Ok tt → (n <= MAX_CONTEXT_BYTES)%Z).
Proof.
  unfold download_context. assert (Z0 : (0 <= 0 <= MAX_CONTEXT_BYTES)%Z) by (unfold MAX_CONTEXT_BYTES; lia).
  destruct late; [intros [= <- <-]; lia|]. destruct status as [code|]; [|intros [= <- <-]; lia].
  destruct (code =? 200)%Z; simpl; [|intros [= <- <-]; lia]. destruct creates; simpl; [|intros [= <- <-]; lia].
  by apply download_loop_bounds.
Qed.

(** ** An archive with one context *)

Definition scratch : Path := [RootDir; Normal "scratch"].
Definition archive : list (option TarEntry) :=
  [Some (mkTar (Some 0%Z) Directory (Some "repo-sha/")); Some (mkTar (Some 7%Z) RegularFile (Some "repo-sha/README"));
   Some (mkTar (Some 0%Z) Directory (Some "repo-sha/ctx")); Some (mkTar (Some 10%Z) RegularFile (Some "repo-sha/ctx/Dockerfile"))].
Definition archive_calls : list FsCall :=
  [CreateDirAll scratch; CreateDirAll scratch; Unpack (scratch ++ [Normal "Dockerfile"]) 10].

Example archive_extracts : extract_context (λ _, false) (λ _ _, true) "ctx" scratch (Some archive) = (Ok tt, archive_calls).
Proof. vm_compute. reflexivity. Qed.

(** A path that climbs, and a link where the context is. *)
Example climbing_refused :
  extract_context (λ _, false) (λ _ _, true) "ctx" scratch (Some [Some (mkTar (Some 1%Z) RegularFile (Some "repo-sha/ctx/../../x"))])
  = (Err "unsafe tar entry path (path traversal) in build context", []).
Proof. vm_compute. reflexivity. Qed.
Example link_refused :
  extract_context (λ _, false) (λ _ _, true) "." scratch (Some [Some (mkTar (Some 0%Z) OtherEntry (Some "repo-sha/link"))])
  = (Err "build context contains a disallowed link or special file", []).
Proof. vm_compute. reflexivity. Qed.

Lemma extraction_confined_witness : Forall sized archive ∧ Forall (inside scratch) archive_calls.
Proof.
  assert (S : Forall sized archive) by (repeat constructor; simpl; lia). split; [exact S|].
  apply (extraction_confined (λ _, false) (λ _ _, true) "ctx" scratch archive (Ok tt) archive_calls S). vm_compute. reflexivity.
Defined.

Lemma extraction_exact_witness : ∃ subdir l, sanitize_relative "ctx" = Some subdir ∧ Some archive = Some l ∧
  archive_calls = concat (map (wanted subdir scratch) l) ∧ Forall (acceptable subdir) l.
Proof. apply (extraction_exact (λ _, false) (λ _ _, true) "ctx" scratch (Some archive) archive_calls). vm_compute. reflexivity. Defined.

(** A source that sends 40 GB. *)
Lemma download_bounded_witness : let turns := [mkRead false (Some 40000000000%Z) true; mkRead true None true] in
  download_context false (Some 200%Z) true turns = (Err "build context download timed out", 65536%Z) ∧
  (0 <= 65536 <= MAX_CONTEXT_BYTES + 1)%Z.
Proof.
  assert (E : download_context false (Some 200%Z) true [mkRead false (Some 40000000000%Z) true; mkRead true None true]
              = (Err "build context download timed out", 65536%Z)) by (vm_compute; reflexivity).
  split; [exact E|]. apply (download_bounded false (Some 200%Z) true _ _ _ E).
Defined.
